(* ===== verification/_CoqProject ===== *)
-Q . S2P
Prelude.v
Double.v
Numeric.v
Buffer.v
Crc.v
Vlq.v
Command.v
Msgblock.v
Clock.v
Python.v
Msgproto.v
Buildcommands.v
Dictionary.v
Stepcompress.v
CompressProof.v
Trapq.v
Itersolve.v
Kinematics.v
Shaper.v
Extruder.v
Lookahead.v
Toolhead.v
Forward.v
Heaters.v
Clocksync.v
Sched.v
MainLoop.v
TimerIrq.v
SerialIrq.v
Basecmd.v
Stepper.v
Objects.v
Gpiocmds.v
Pwmcmds.v
Trsync.v
Endstop.v
SosFilter.v
TriggerAnalog.v
Adccmds.v
Homing.v
Motion.v
Pollreactor.v
Serialqueue.v
SerialThread.v
Arq.v
SendQueue.v
Trdispatch.v
Steppersync.v
MoveQueue.v
StepThreads.v
