(* ===== verification/Prelude.v ===== *)
(** * A verification development for the Klipper firmware and its host helpers

    Klipper splits a 3D printer's control between a host process and one or more
    micro-controllers.  The host plans the speeds of the requested moves, computes
    the clock of every motor step, compresses the steps into [queue_step] commands, and sends commands in
    checked, numbered message blocks over a serial line; the firmware scans the
    received bytes for blocks, dispatches the commands in them and runs
    everything timed from a sorted list of timers in an interrupt handler.

    ** The files and the code they model (paths under src/)

    - Prelude.v (this file): outcomes of C code, record updates, machine
      integers, shared tactics and lemmas.
    - Double.v: the host's [double] arithmetic.  Numeric.v: the interface of the
      geometry code to its numbers, with doubles and exact reals as instances.
      Buffer.v: byte buffers.
    - Crc.v: src/generic/crc16_ccitt.c.  Vlq.v, Command.v: src/command.c, integer
      encoding, parsing and encoding of commands, framing, the block scanner
      [command_find_block] and [command_dispatch].
    - Python.v: what the host's Python code uses of the language.  Msgproto.v:
      klippy/msgproto.py.  Buildcommands.v: the message tables that
      scripts/buildcommands.py generates.  Dictionary.v: firmware, dictionary and
      host together.
    - SerialIrq.v: src/generic/serial_irq.c and the sending functions of
      command.c, main code and UART interrupts interleaved arbitrarily.
    - Clock.v, TimerIrq.v: src/generic/timer_irq.c.  Sched.v: src/sched.c, the
      timer list as linked structs in memory, task wake-up and shutdown.
      MainLoop.v: [run_tasks] and [sched_main] of sched.c, the main loop as a
      machine that interrupt handlers and shutdowns interleave with.
    - Basecmd.v: src/basecmd.c and src/generic/alloc.c, the memory pool, the move
      queues as linked nodes, object ids and base commands.
    - Stepper.v: src/stepper.c.  Trsync.v: src/trsync.c.  Homing.v: the stop
      signals that connect the two.  Endstop.v: src/endstop.c.
    - Objects.v: state shared by Gpiocmds.v (src/gpiocmds.c) and Pwmcmds.v
      (src/pwmcmds.c).  SosFilter.v: src/sos_filter.c.  TriggerAnalog.v:
      src/trigger_analog.c.  Adccmds.v: src/adccmds.c.
    - Msgblock.v: klippy/chelper/msgblock.c.  Stepcompress.v:
      klippy/chelper/stepcompress.c, CompressProof.v its correctness, Motion.v its
      composition with the stepper code.
    - Pollreactor.v: klippy/chelper/pollreactor.c.  Serialqueue.v:
      klippy/chelper/serialqueue.c.  SerialThread.v: its background thread over
      the reactor.  SendQueue.v: the queues in front of the line.  Arq.v: the
      host's window composed with the firmware's block scanner.
    - Trapq.v: klippy/chelper/trapq.c.  Itersolve.v: itersolve.c.  Kinematics.v: the
      position callbacks of the kin_*.c files.  Shaper.v: kin_shaper.c.  Extruder.v:
      kin_extruder.c.  Lookahead.v: [Move] and [LookAheadQueue] of
      klippy/toolhead.py.  Toolhead.v: [ToolHead] of the same file with
      klippy/extras/motion_queuing.py, as parts between the pauses of the reactor
      that run in any order, and the limits of klippy/kinematics/cartesian.py.
      Forward.v: the vector functions of klippy/mathutil.py and [calc_position] of
      the files of klippy/kinematics/, against the callbacks of Kinematics.v.
      Heaters.v: klippy/extras/heaters.py and verify_heater.py.  Clocksync.v:
      klippy/clocksync.py.
      Steppersync.v: steppersync.c; MoveQueue.v: its bound on
      the moves in flight; StepThreads.v: its threads.  Trdispatch.v: trdispatch.c,
      the relay of triggers between micro-controllers.

    Each component has a [Record] for its state with the fields of the C struct,
    and one definition per C function or Python method with the same name.  Python
    exceptions are values ([Raise], [None], or [Halt] with the state they leave).
    C statements are sequenced in the monad [M]: a call returns ([Ret]), leaves through
    [shutdown()] ([Halt], the C code's longjmp), or does something undefined
    ([Crash]: an access outside an array, an integer conversion out of range, an
    overflowing signed addition of the filters, a loop out of fuel).  Memory reached through pointers is a function from
    addresses, so aliasing is explicit.  Fixed-width integers are [Z] reduced by
    [u8] .. [s64] wherever the C type wraps.

    ** What is a parameter

    Command handlers and timer callbacks; the hardware clock and
    pin readings, results of [read], [write] and the system clock, and the points
    at which interrupts arrive are sequences the theorems quantify over.
    Hypotheses about them are stated in the sections that use them.

    ** What the theorems show

    - The line: the checksum is CRC-16/CCITT and detects every error within two
      adjacent bytes; encodings round-trip; the scanner accepts exactly the
      well-formed blocks with the expected number and resynchronises after
      garbage; dispatch never reads outside a block and runs exactly the encoded
      commands; received and transmitted bytes survive every interrupt schedule.
    - Messages: a firmware built from any declarations and the host that read its
      dictionary agree, so commands reach their handlers with their arguments, and
      responses whose values the encoding can carry reach the host unchanged.
    - End to end over a line that loses blocks ([Arq]): the firmware accepts the
      payloads the host sent exactly once and in order, the window and the local
      buffers are never exceeded.  What travels is what the host's code writes,
      retransmissions included; from any reachable state, every run of
      retransmission and answer in which nothing more is lost has everything
      accepted and acknowledged, and a new host finds the number a running firmware expects.  In front of it ([SendQueue]):
      messages leave each queue in order and exactly once, the queue fields stay
      consistent, and the sending thread is woken when it must be.
    - Timers: every list operation refines the operation on sorted lists; callbacks
      that add and remove timers while they run included, the list holds exactly
      the scheduled timers, in order; and the interrupt handler returns while tasks wait.  The
      main loop sleeps only without woken tasks and starts woken ones in time; the
      host's reactor never sleeps past a timer.
    - Memory: move queues refine FIFO queues over a shared pool, object ids are
      type safe, the finalised pool has no overlaps.
    - Motion: compression always succeeds and each step is at most [max_error]
      ticks early and never late, up to the firmware's step times; positions are
      exact, late events do not drift, a stop leaves nothing pending.
    - Planning, in exact arithmetic ([Toolhead]): the moves follow each other
      without a jump in speed, within their limits and to the requested positions;
      every accepted move is started; and no move is queued for a time from which
      steps were already generated.
    - Heaters and clocks of the host, in exact arithmetic: the power of a heater is
      in range, renewed in time and turned off when it must be; a heater that does
      not heat is found in bounded time; the estimated clock of a micro-controller
      whose drift is bounded is accurate, and calibrations of secondary clocks are
      continuous.
    - Geometry, in exact arithmetic: the motion queue follows the requested
      trajectory; the solver's steps are where the stepper crosses its half-step
      points, and its ranges cover every moment that needs steps; every kinematics
      without trigonometry meets what the solver relies on, and [calc_position] of
      the host inverts the steppers' callbacks; input shaping is the
      weighted mean of the motion and pressure advance the documented integral.
    - Many steppers: generation in threads gives the sequential result and ends;
      flushes merge the emitters by clock and never overfill the firmware's move
      queue.
    - Safety functions: a trigger fires once and stops every registered stepper;
      a trigger report of one micro-controller is relayed to all, once, and the
      timeouts of the others are bounded by the slowest; end stops are debounced
      and fire; the filters of analog sensors are exact,
      analog triggers fire at the first sample that meets their condition, and a
      silent sensor is noticed; an analog input stops the machine exactly
      when enough completed readings in a row are out of range, however the
      converter delays them; an output with a maximum duration always has its timer
      in the list of [Sched], due by the deadline, where it stops the machine if
      nothing newer arrived; and a shutdown sets every output to its default.

    Some theorems show what goes wrong: an acknowledgement overruns the transmit
    buffer of a full console ([console_sendf_ack_overflow]), a far step is stored
    past the step buffer ([queue_append_far_overflow]), a rejected report size
    overruns the data of an analog input ([adc_rejected_query_overflows]), an
    output without memory hides others from the shutdown handler
    ([config_failure_hides_outputs]), sums of 255 readings accumulate
    ([sample_count_255_accumulates]), filter states are added without a check
    ([unchecked_addition]), a product in the compression overflows [int]
    ([addfactor_overflows]), an unsigned comparison lets a trigger timeout move
    back ([trdispatch_timeout_moves_back]), far negative numbers are misread by the
    host ([signed_response_misread]), large message ids collide ([msgids_collide]),
    a format with an escaped percent sign is rejected ([escaped_percent_rejected]),
    a resent query of the uptime spoils the clock estimate ([connect_resent_uptime]),
    and a shutdown in the middle of a round
    delays woken tasks ([shutdown_delays_task]).

    ** Bounds and fuel

    Loops over linked lists take a fuel argument; the theorems that a call returns
    ask for fuel above the length of the list.  Loops over buffers use the length
    of the buffer, which every round shortens.  [bisect_fuel] exceeds the range of
    the 16-bit value the search halves, [command_fuel] the number of smallest
    blocks that fit the buffer.  Sequence numbers and clocks of the host are
    assumed to stay below 2^61, far from wrapping.

    ** Not modelled

    Memory release, statistics and error texts; rounding errors of the geometry
    (its theorems are over exact reals, its definitions also run on doubles) and
    the trigonometric kinematics beyond their definitions; drivers of displays,
    sensors and buses, USB and CAN transports and the chip-specific ports, which
    are register and timing code; the rest of the Python application (configuration,
    G-Code, connections, printer functions, batch mode flushing), translations and
    the rest of the build scripts. *)

From stdpp Require Export base list numbers strings functions gmap.
From Stdlib Require Export ZArith Lia.

Declare Scope klipper_scope.
Delimit Scope klipper_scope with klipper.
#[global] Open Scope klipper_scope.
#[global] Open Scope Z_scope.

(** ** Record update

    [r <| f := v |>] is the record [r] with field [f] replaced.  A record type
    declares one [Eta] instance (its constructor applied to its own
    projections); the setters are computed from it. *)

Class Eta (R : Type) := eta : R -> R.
Class Setter {R E : Type} (g : R -> E) := set : (E -> E) -> R -> R.
Arguments set {R E} g {Setter} f r.

Ltac derive_setter :=
  lazymatch goal with
  | |- @Setter ?R ?E ?g =>
    let e := constr:(_ : Eta R) in
    exact (fun (f : E -> E) (r : R) =>
             ltac:(let b := eval hnf in (e r) in
                   lazymatch b with
                   | context C[g r] => let b' := context C[f (g r)] in exact b'
                   end))
  end.
#[export] Hint Extern 1 (Setter _) => derive_setter : typeclass_instances.

Notation "r <| g := v |>" := (set g (fun _ => v) r)
  (at level 1, left associativity, v at level 99,
   format "r  <| g  :=  v |>") : klipper_scope.
Notation "r <| g ::= f |>" := (set g f r)
  (at level 1, left associativity, f at level 99,
   format "r  <| g  ::=  f |>") : klipper_scope.

(** ** Outcomes

    [shutdown("...")] in the firmware is a [longjmp] to [sched_main]: the
    function does not return, but whatever it stored before stays stored.
    [Ret a w] is a normal return with final state [w]; [Halt msg w] is a
    [shutdown(msg)] raised in state [w]; [Crash w] is undefined behaviour (a
    NULL dereference, an index out of range) or a loop that does not end within
    the fuel it was given. *)

Inductive outcome (W A : Type) : Type :=
| Ret (a : A) (w : W)
| Halt (msg : string) (w : W)
| Crash (w : W).
Arguments Ret {W A} a w.
Arguments Halt {W A} msg w.
Arguments Crash {W A} w.

Definition M (W A : Type) : Type := W -> outcome W A.

Definition ret {W A} (a : A) : M W A := fun w => Ret a w.
Definition bind {W A B} (m : M W A) (k : A -> M W B) : M W B := fun w =>
  match m w with
  | Ret a w' => k a w'
  | Halt msg w' => Halt msg w'
  | Crash w' => Crash w'
  end.
Definition shutdown {W A} (msg : string) : M W A := fun w => Halt msg w.
Definition crash {W A} : M W A := fun w => Crash w.
Definition gets {W A} (f : W -> A) : M W A := fun w => Ret (f w) w.
Definition modify {W} (f : W -> W) : M W unit := fun w => Ret tt (f w).

(** Run an operation of a component on the part [g] of a larger state. *)
Definition zoom {W V A} (g : W -> V) `{!Setter g} (m : M V A) : M W A := fun w =>
  match m (g w) with
  | Ret a v => Ret a (w <| g := v |>)
  | Halt msg v => Halt msg (w <| g := v |>)
  | Crash v => Crash (w <| g := v |>)
  end.

Notation "x <- m ;; k" := (bind m (fun x => k))
  (at level 100, m at next level, right associativity) : klipper_scope.
Notation "m1 ;;; m2" := (bind m1 (fun _ => m2))
  (at level 100, right associativity) : klipper_scope.
Notation "'when' b 'then' m" := (if b then m else ret tt)
  (at level 99, b at level 200, m at level 99) : klipper_scope.

Definition final {W A} (o : outcome W A) : W :=
  match o with Ret _ w | Halt _ w | Crash w => w end.
Definition returned {W A} (o : outcome W A) : bool :=
  match o with Ret _ _ => true | _ => false end.

(** The value an operation returned, and whether it crashed, to evaluate runs
    without normalising their final state. *)
Definition result {W A} (o : outcome W A) : option A :=
  match o with Ret a _ => Some a | _ => None end.
Definition crashed {W A} (o : outcome W A) : bool :=
  match o with Crash _ => true | _ => false end.

Lemma result_ret {W A} (o : outcome W A) a : result o = Some a -> o = Ret a (final o).
Proof. destruct o; cbn; congruence. Qed.
Lemma crashed_crash {W A} (o : outcome W A) : crashed o = true -> o = Crash (final o).
Proof. by destruct o. Qed.

Lemma bind_ret {W A B} (m : M W A) (k : A -> M W B) w a w' :
  m w = Ret a w' -> bind m k w = k a w'.
Proof. intros H. unfold bind. by rewrite H. Qed.

Lemma bind_inv {W A B} (m : M W A) (k : A -> M W B) w b w' :
  bind m k w = Ret b w' -> exists a w1, m w = Ret a w1 /\ k a w1 = Ret b w'.
Proof. unfold bind. destruct (m w) eqn:E; try done. eauto. Qed.

Lemma bind_halt {W A B} (m : M W A) (k : A -> M W B) w msg w' :
  m w = Halt msg w' -> bind m k w = Halt msg w'.
Proof. intros H. unfold bind. by rewrite H. Qed.

Lemma bind_halt_inv {W A B} (m : M W A) (k : A -> M W B) w msg w' :
  bind m k w = Halt msg w' -> m w = Halt msg w' \/ exists a w1, m w = Ret a w1 /\ k a w1 = Halt msg w'.
Proof. unfold bind. destruct (m w) eqn:E; try done; intros H; [eauto|left; by injection H as -> ->]. Qed.

Lemma bind_assoc {W A B C} (m : M W A) (k : A -> M W B) (h : B -> M W C) w :
  bind (bind m k) h w = bind m (fun a => bind (k a) h) w.
Proof. unfold bind. by destruct (m w). Qed.

Lemma bind_ext {W A B} (m : M W A) (k k' : A -> M W B) w :
  (forall a w', k a w' = k' a w') -> bind m k w = bind m k' w.
Proof. intros H. unfold bind. by destruct (m w). Qed.

(** ** Machine integers

    A C integer of width [w] is a [Z] kept in range by writing out each
    conversion: [u8], [u16], [u32], [u64] for the unsigned types, [s8], [s16],
    [s32], [s64] for the two's complement ones. *)

Definition u8 (z : Z) : Z := z mod 0x100.
Definition u16 (z : Z) : Z := z mod 0x10000.
Definition u32 (z : Z) : Z := z mod 0x100000000.
Definition u64 (z : Z) : Z := z mod 0x10000000000000000.
Definition s8 (z : Z) : Z := (z + 0x80) mod 0x100 - 0x80.
Definition s16 (z : Z) : Z := (z + 0x8000) mod 0x10000 - 0x8000.
Definition s32 (z : Z) : Z := (z + 0x80000000) mod 0x100000000 - 0x80000000.
Definition s64 (z : Z) : Z :=
  (z + 0x8000000000000000) mod 0x10000000000000000 - 0x8000000000000000.

(** C truth value of an integer, and the integer of a C comparison. *)
Definition truthy (z : Z) : bool := negb (z =? 0).
Definition b2z (b : bool) : Z := if b then 1 else 0.

(** [flags & f] as a truth value. *)
Definition has (f fl : Z) : bool := truthy (Z.land fl f).

(** [DIV_ROUND_UP(n, d)] of compiler.h. *)
Definition DIV_ROUND_UP (n d : Z) : Z := (n + d - 1) / d.

Ltac unfold_int := unfold u8, u16, u32, u64, s8, s16, s32, s64 in *.

(** [word] decides linear goals that mention the conversions. *)
Ltac word := unfold_int; Z.to_euclidean_division_equations; lia.

(** ** Shared lemmas *)

Lemma u8_range z : 0 <= u8 z < 0x100. Proof. word. Qed.
Lemma u16_range z : 0 <= u16 z < 0x10000. Proof. word. Qed.
Lemma u32_range z : 0 <= u32 z < 0x100000000. Proof. word. Qed.
Lemma s32_range z : -0x80000000 <= s32 z < 0x80000000. Proof. word. Qed.
Lemma s16_range z : -0x8000 <= s16 z < 0x8000. Proof. word. Qed.

Lemma u8_small z : 0 <= z < 0x100 -> u8 z = z. Proof. word. Qed.
Lemma u16_small z : 0 <= z < 0x10000 -> u16 z = z. Proof. word. Qed.
Lemma u32_small z : 0 <= z < 0x100000000 -> u32 z = z. Proof. word. Qed.
Lemma s32_small z : -0x80000000 <= z < 0x80000000 -> s32 z = z. Proof. word. Qed.

Lemma u8_idemp z : u8 (u8 z) = u8 z. Proof. word. Qed.
Lemma u16_idemp z : u16 (u16 z) = u16 z. Proof. word. Qed.
Lemma u32_idemp z : u32 (u32 z) = u32 z. Proof. word. Qed.
Lemma u32_add_l a b : u32 (u32 a + b) = u32 (a + b). Proof. word. Qed.
Lemma u32_add_r a b : u32 (a + u32 b) = u32 (a + b). Proof. word. Qed.
Lemma u32_sub_l a b : u32 (u32 a - b) = u32 (a - b). Proof. word. Qed.
Lemma u32_sub_r a b : u32 (a - u32 b) = u32 (a - b). Proof. word. Qed.
Lemma u32_s32 z : u32 (s32 z) = u32 z. Proof. word. Qed.
Lemma s32_u32 z : s32 (u32 z) = s32 z. Proof. word. Qed.

Create HintDb word discriminated.
Create Rewrite HintDb word.
#[export] Hint Rewrite u8_idemp u16_idemp u32_idemp u32_add_l u32_add_r
  u32_sub_l u32_sub_r u32_s32 s32_u32 : word.
#[export] Hint Resolve u8_range u16_range u32_range s32_range s16_range : word.

(** Masks of [n] low bits, as the code writes them. *)
Lemma land_mask z n : 0 <= n -> Z.land z (2 ^ n - 1) = z mod 2 ^ n.
Proof. intros Hn. rewrite <- Z.land_ones by lia. by rewrite Z.ones_equiv, Z.sub_1_r. Qed.

Lemma land_ff z : Z.land z 0xff = z mod 0x100.
Proof. apply (land_mask z 8). lia. Qed.
Lemma land_7f z : Z.land z 0x7f = z mod 0x80.
Proof. apply (land_mask z 7). lia. Qed.
Lemma land_0f z : Z.land z 0x0f = z mod 0x10.
Proof. apply (land_mask z 4). lia. Qed.

(** A single-bit flag. *)
Lemma has_bit k x : 0 <= k -> has (2 ^ k) x = Z.testbit x k.
Proof.
  intros Hk. unfold has, truthy.
  destruct (Z.testbit x k) eqn:E.
  - apply negb_true_iff, Z.eqb_neq. intros H0.
    assert (Z.testbit (Z.land x (2 ^ k)) k = true) as Ht.
    { by rewrite Z.land_spec, Z.pow2_bits_true, andb_true_r. }
    by rewrite H0, Z.bits_0 in Ht.
  - apply negb_false_iff, Z.eqb_eq. apply Z.bits_inj'. intros n Hn.
    rewrite Z.land_spec, Z.pow2_bits_eqb, Z.bits_0 by done.
    destruct (Z.eqb_spec k n) as [<-|]; [by rewrite E|apply andb_false_r].
Qed.

(** [Z.lor] of two numbers with no common bits is their sum. *)
Lemma lor_add_shift a b n :
  0 <= n -> 0 <= b < 2 ^ n -> Z.lor (Z.shiftl a n) b = a * 2 ^ n + b.
Proof.
  intros Hn Hb.
  assert (Hd : Z.land (Z.shiftl a n) b = 0).
  { apply Z.bits_inj'; intros i Hi. rewrite Z.land_spec, Z.bits_0, Z.shiftl_spec by lia.
    rewrite <- (Z.mod_small b (2 ^ n)) by lia.
    destruct (Z.lt_ge_cases i n).
    - by rewrite Z.testbit_neg_r by lia.
    - by rewrite Z.mod_pow2_bits_high, andb_false_r by lia. }
  rewrite <- Z.shiftl_mul_pow2 by lia. rewrite <- Z.add_lor_land, Hd. lia.
Qed.

(** Exhaustive checking over an initial segment of [Z]. *)
Fixpoint forall_from (fuel : nat) (z : Z) (p : Z -> bool) : bool :=
  match fuel with
  | O => true
  | S fuel => if p z then forall_from fuel (z + 1) p else false
  end.
Definition forall_below (n : Z) (p : Z -> bool) : bool := forall_from (Z.to_nat n) 0 p.

Lemma forall_from_spec fuel z0 p :
  forall_from fuel z0 p = true -> forall z, z0 <= z < z0 + Z.of_nat fuel -> p z = true.
Proof.
  revert z0. induction fuel as [|fuel IH]; intros z0 H z Hz; [lia|].
  simpl in H. destruct (p z0) eqn:E; [|done].
  destruct (decide (z = z0)) as [->|]; [done|]. apply (IH (z0 + 1)); [done|lia].
Qed.

Lemma forall_below_spec n p :
  forall_below n p = true -> forall z, 0 <= z < n -> p z = true.
Proof. intros H z Hz. eapply forall_from_spec; [exact H|lia]. Qed.

(** A byte string: every element is a byte. *)
Definition byte (z : Z) : Prop := 0 <= z < 0x100.
#[export] Instance byte_dec z : Decision (byte z).
Proof. unfold byte. apply _. Defined.
Definition bytes (l : list Z) : Prop := Forall byte l.

Lemma byte_u8 z : byte (u8 z). Proof. apply u8_range. Qed.
#[export] Hint Resolve byte_u8 : word.

(** Reading past a known prefix. *)
Lemma lookup_total_app_at {A} `{!Inhabited A} (l1 l2 : list A) i :
  (l1 ++ l2) !!! (length l1 + i)%nat = l2 !!! i.
Proof. rewrite lookup_total_app_r by lia. f_equal. lia. Qed.

Lemma filter_none {A} (P : A -> Prop) `{!forall x, Decision (P x)} (l : list A) :
  Forall (fun x => ~ P x) l -> filter P l = [].
Proof. induction 1 as [|x l Hx Hl IH]; [done|]. by rewrite filter_cons_False. Qed.

Lemma last_app {A} (l1 l2 : list A) d : l2 <> [] -> List.last (l1 ++ l2) d = List.last l2 d.
Proof.
  intros H. induction l1 as [|b l1 IH]; [done|]. cbn. rewrite IH.
  destruct (l1 ++ l2) eqn:E; [|done]. by apply app_eq_nil in E as [_ ->].
Qed.
