(* ===== verification/Double.v ===== *)
(** * The [double] type of the host code

    IEEE binary64 values and operations are the executable ones of the standard
    library ([SpecFloat]); they round to nearest, as the host's floating point
    unit does.  Conversions between doubles and integers follow C: truncation
    towards zero, undefined when the value does not fit. *)

From S2P Require Import Prelude.
From Stdlib Require Export SpecFloat.

Definition double := spec_float.
Definition prec : Z := 53.
Definition emax : Z := 1024.

Definition dadd (x y : double) : double := SFadd prec emax x y.
Definition dsub (x y : double) : double := SFsub prec emax x y.
Definition dmul (x y : double) : double := SFmul prec emax x y.
Definition ddiv (x y : double) : double := SFdiv prec emax x y.
Definition dsqrt (x : double) : double := SFsqrt prec emax x.
Definition dlt (x y : double) : bool := SFltb x y.
Definition dle (x y : double) : bool := SFleb x y.
Definition deq (x y : double) : bool := SFeqb x y.
Definition dabs (x : double) : double := SFabs x.

Declare Scope double_scope.
Delimit Scope double_scope with D.
Infix "+" := dadd : double_scope.
Infix "-" := dsub : double_scope.
Infix "*" := dmul : double_scope.
Infix "/" := ddiv : double_scope.
Infix "<?" := dlt : double_scope.
Infix "<=?" := dle : double_scope.
Bind Scope double_scope with double.

(** The nearest double of an integer, and of the decimal literal [n/d]. *)
Definition of_Z (z : Z) : double := binary_normalize prec emax z 0 false.
Definition lit (n d : Z) : double := ddiv (of_Z n) (of_Z d).

(** [!x] for a double. *)
Definition dzero (x : double) : bool := deq x (of_Z 0).

(** The integer part of a finite double. *)
Definition trunc (x : double) : option Z :=
  match x with
  | S754_zero _ => Some 0
  | S754_finite s m e =>
    let a := if 0 <=? e then Z.shiftl (Zpos m) e else Z.shiftr (Zpos m) (- e) in
    Some (if s then - a else a)
  | _ => None
  end.

Definition in_range (lo hi : Z) (o : option Z) : option Z :=
  match o with
  | Some z => if (lo <=? z) && (z <=? hi) then Some z else None
  | None => None
  end.
Definition to_u64 (x : double) : option Z := in_range 0 0xffffffffffffffff (trunc x).
Definition to_s64 (x : double) : option Z :=
  in_range (-0x8000000000000000) 0x7fffffffffffffff (trunc x).
Definition to_s32 (x : double) : option Z := in_range (-0x80000000) 0x7fffffff (trunc x).

(** A double that is an integer of at most 53 bits converts without rounding. *)
Lemma of_Z_examples :
  trunc (of_Z 0) = Some 0 /\ trunc (of_Z (2 ^ 52 + 1)) = Some (2 ^ 52 + 1) /\
  trunc (of_Z (-7)) = Some (-7) /\ trunc (lit (-7) 2) = Some (-3) /\
  trunc (dmul (lit 75 100000) (of_Z 16000000)) = Some 12000.
Proof. repeat split; vm_compute; reflexivity. Qed.

(** ** The order of doubles *)

(** A double by sign, exponent and mantissa: numbers compare as these triples. *)
Definition dkey (x : double) : Z * Z * Z :=
  match x with
  | S754_zero _ | S754_nan => (0, 0, 0)
  | S754_infinity s => (if s then -2 else 2, 0, 0)
  | S754_finite s m e => if s then (-1, - e, Zneg m) else (1, e, Zpos m)
  end.
Definition key_lt (a b : Z * Z * Z) : Prop :=
  a.1.1 < b.1.1 \/ a.1.1 = b.1.1 /\ (a.1.2 < b.1.2 \/ a.1.2 = b.1.2 /\ a.2 < b.2).

Lemma dlt_key (x y : double) : dlt x y = true <-> x <> S754_nan /\ y <> S754_nan /\ key_lt (dkey x) (dkey y).
Proof.
  unfold dlt, SFltb, key_lt.
  destruct x as [s|s| |s m e], y as [s'|s'| |s' m' e']; try destruct s; try destruct s'; cbn;
    try (split; [done|]; intros (? & ? & ?); (done || lia)); try (split; [intros _; repeat split; (done || lia)|done]).
  - destruct (Z.compare_spec e e') as [->|?|?].
    + change (Pos.compare_cont Eq m m') with (Pos.compare m m'). destruct (Pos.compare_spec m m') as [->|?|?]; cbn;
        (split; [intros ?; repeat split; (done || lia)|intros (? & ? & ?); (done || lia)]).
    + split; [done|intros (? & ? & ?); lia].
    + split; [intros _; repeat split; (done || lia)|done].
  - destruct (Z.compare_spec e e') as [->|?|?].
    + change (Pos.compare_cont Eq m m') with (Pos.compare m m'). destruct (Pos.compare_spec m m') as [->|?|?]; cbn;
        (split; [intros ?; repeat split; (done || lia)|intros (? & ? & ?); (done || lia)]).
    + split; [intros _; repeat split; (done || lia)|done].
    + split; [done|intros (? & ? & ?); lia].
Qed.

Lemma dlt_irrefl (x : double) : dlt x x = false.
Proof. apply not_true_is_false. rewrite dlt_key. unfold key_lt. lia. Qed.
Lemma dlt_trans (x y z : double) : dlt x y = true -> dlt y z = true -> dlt x z = true.
Proof. rewrite !dlt_key. unfold key_lt. intros (? & ? & ?) (? & ? & ?). repeat split; (done || lia). Qed.
Lemma dlt_false_trans (x y z : double) :
  y <> S754_nan -> dlt x y = false -> dlt y z = false -> dlt x z = false.
Proof.
  intros Hy Hxy Hyz. apply not_true_is_false. rewrite dlt_key. intros (Hx & Hz & Hk).
  apply not_true_iff_false in Hxy, Hyz. rewrite dlt_key in Hxy, Hyz. unfold key_lt in *.
  assert (~ key_lt (dkey x) (dkey y)) by tauto. assert (~ key_lt (dkey y) (dkey z)) by tauto. unfold key_lt in *. lia.
Qed.
Lemma dlt_number (x y : double) : dlt x y = true -> x <> S754_nan.
Proof. rewrite dlt_key. tauto. Qed.
Lemma dlt_deq (x y : double) : dlt x y = true -> deq x y = false.
Proof. unfold dlt, deq, SFltb, SFeqb. destruct (SFcompare x y) as [[]|]; done. Qed.
Lemma dle_dlt (x y : double) : x <> S754_nan -> y <> S754_nan -> dle x y = negb (dlt y x).
Proof.
  intros Hx Hy. unfold dle, dlt, SFleb, SFltb.
  destruct x as [s|s| |s m e], y as [s'|s'| |s' m' e']; try done; try destruct s; try destruct s'; cbn; try done.
  - rewrite (Z.compare_antisym e e'). destruct (Z.compare e e'); cbn; try done.
    change (Pos.compare_cont Eq m m') with (Pos.compare m m'). change (Pos.compare_cont Eq m' m) with (Pos.compare m' m).
    rewrite (Pos.compare_antisym m m'). by destruct (Pos.compare m m').
  - rewrite (Z.compare_antisym e e'). destruct (Z.compare e e'); cbn; try done.
    change (Pos.compare_cont Eq m m') with (Pos.compare m m'). change (Pos.compare_cont Eq m' m) with (Pos.compare m' m).
    rewrite (Pos.compare_antisym m m'). by destruct (Pos.compare m m').
Qed.
Lemma dle_number (x y : double) : dle x y = true -> x <> S754_nan /\ y <> S754_nan.
Proof. unfold dle, SFleb. by destruct x, y. Qed.
