(* ===== verification/Numeric.v ===== *)
(** * The arithmetic of the motion code

    The motion code of the host computes with [double].  Its definitions are
    written once over the operations of this class, with two instances: [double]
    is what the code runs on, and the real numbers are the exact arithmetic in
    which the formulas of the code are stated, where the theorems about the
    formulas themselves are proved.  Theorems that hold for every arithmetic are
    proved for the class. *)

From Stdlib Require Import Reals Lra.
From S2P Require Import Prelude Double.

Class Num (A : Type) := {
  nadd : A -> A -> A;
  nsub : A -> A -> A;
  nmul : A -> A -> A;
  ndiv : A -> A -> A;
  nsqrt : A -> A;
  nabs : A -> A;
  nneg : A -> A;
  nlt : A -> A -> bool;
  nle : A -> A -> bool;
  neq : A -> A -> bool;
  nlit : Z -> Z -> A }.

Declare Scope num_scope.
Delimit Scope num_scope with num.
Infix "+" := nadd : num_scope.
Infix "-" := nsub : num_scope.
Infix "*" := nmul : num_scope.
Infix "/" := ndiv : num_scope.
Infix "<?" := nlt : num_scope.
Infix "<=?" := nle : num_scope.

(** An integer literal; [nlit n d] is the decimal literal [n / d]. *)
Definition nint {A} `{Num A} (n : Z) : A := nlit n 1.

(** A number used as a condition. *)
Definition nonzero {A} `{Num A} (x : A) : bool := negb (neq x (nint 0)).

#[export] Instance Num_double : Num double := {
  nadd := dadd; nsub := dsub; nmul := dmul; ndiv := ddiv; nsqrt := dsqrt; nabs := dabs; nneg := SFopp;
  nlt := dlt; nle := dle; neq := deq;
  nlit n d := if (d =? 1)%Z then of_Z n else lit n d }.

(** Comparisons of real numbers are decided by the axioms of the reals; they are
    never computed. *)
Definition Rltb (x y : R) : bool := if Rlt_dec x y then true else false.
Definition Rleb (x y : R) : bool := if Rle_dec x y then true else false.
Definition Reqb (x y : R) : bool := if Req_dec_T x y then true else false.

#[export] Instance Num_R : Num R := {
  nadd := Rplus; nsub := Rminus; nmul := Rmult; ndiv := Rdiv; nsqrt := sqrt; nabs := Rabs; nneg := Ropp;
  nlt := Rltb; nle := Rleb; neq := Reqb;
  nlit n d := (IZR n / IZR d)%R }.

#[export] Instance Rlt_decision (x y : R) : Decision (x < y)%R := Rlt_dec x y.
#[export] Instance Rle_decision (x y : R) : Decision (x <= y)%R := Rle_dec x y.

(** ** Exact comparisons *)

Lemma RltbP (x y : R) : reflect (x < y)%R (Rltb x y).
Proof. unfold Rltb. destruct (Rlt_dec x y); by constructor. Qed.
Lemma RlebP (x y : R) : reflect (x <= y)%R (Rleb x y).
Proof. unfold Rleb. destruct (Rle_dec x y); by constructor. Qed.
Lemma ReqbP (x y : R) : reflect (x = y) (Reqb x y).
Proof. unfold Reqb. destruct (Req_dec_T x y); by constructor. Qed.
Lemma nltP (x y : R) : reflect (x < y)%R (nlt x y).
Proof. apply RltbP. Qed.
Lemma nleP (x y : R) : reflect (x <= y)%R (nle x y).
Proof. apply RlebP. Qed.
Lemma neqP (x y : R) : reflect (x = y) (neq x y).
Proof. apply ReqbP. Qed.

#[global] Opaque Rltb Rleb Reqb.

Lemma nlt_R (x y : R) : nlt x y = true <-> (x < y)%R.
Proof. destruct (nltP x y); split; done. Qed.
Lemma nle_R (x y : R) : nle x y = true <-> (x <= y)%R.
Proof. destruct (nleP x y); split; done. Qed.

Lemma nlt_R_false (x y : R) : nlt x y = false <-> (y <= x)%R.
Proof. destruct (nltP x y); split; try done; intros; lra. Qed.
Lemma nle_R_false (x y : R) : nle x y = false <-> (y < x)%R.
Proof. destruct (nleP x y); split; try done; intros; lra. Qed.

Lemma nint_R (n : Z) : nint n = IZR n.
Proof. unfold nint. cbn. lra. Qed.

Lemma nonzeroP (x : R) : reflect (x <> 0)%R (nonzero x).
Proof. unfold nonzero. rewrite nint_R. destruct (neqP x 0); cbn [negb]; constructor; tauto. Qed.

(** Case analysis on every comparison of real numbers of the goal. *)
Ltac rcases :=
  repeat match goal with
  | |- context [Rltb ?x ?y] => destruct (RltbP x y)
  | |- context [Rleb ?x ?y] => destruct (RlebP x y)
  | |- context [Reqb ?x ?y] => destruct (ReqbP x y)
  | |- context [@nlt R Num_R ?x ?y] => destruct (nltP x y)
  | |- context [@nle R Num_R ?x ?y] => destruct (nleP x y)
  | |- context [@neq R Num_R ?x ?y] => destruct (neqP x y)
  | |- context [@nonzero R Num_R ?x] => destruct (nonzeroP x)
  end.
(** Opens the class operations on the reals. *)
Ltac rsimpl := cbn [nadd nsub nmul ndiv nsqrt nabs nneg nlit Num_R] in *; rewrite ?nint_R in *.
