(* ===== verification/Buffer.v ===== *)
(** * Byte buffers

    C arrays are lists of fixed length.  [memmove] and the view of a part of a
    buffer are shared by the components that keep data in one. *)

From S2P Require Import Prelude.

Section buffer.
Context {A : Type}.
Implicit Types l b : list A.

(** [memmove(&b[dst], &b[src], n)] within one array. *)
Definition memmove (dst src n : nat) (b : list A) : list A :=
  take dst b ++ take n (drop src b) ++ drop (dst + n) b.

(** The elements at positions [i] to [j - 1]. *)
Definition slice (i j : nat) (b : list A) : list A := take (j - i) (drop i b).

Lemma slice_length i j b : (j <= length b)%nat -> length (slice i j b) = (j - i)%nat.
Proof. intros H. unfold slice. rewrite length_take, length_drop. lia. Qed.

Lemma slice_0 j b : slice 0 j b = take j b.
Proof. unfold slice. rewrite drop_0. f_equal. lia. Qed.

Lemma slice_nil i j b : (j <= i)%nat -> slice i j b = [].
Proof. intros H. unfold slice. by replace (j - i)%nat with 0%nat by lia. Qed.

Lemma slice_split i k j b :
  (i <= k <= j)%nat -> slice i j b = slice i k b ++ slice k j b.
Proof.
  intros H. unfold slice. replace (j - i)%nat with ((k - i) + (j - k))%nat by lia.
  rewrite <- take_take_drop, drop_drop. do 3 f_equal. lia.
Qed.

Lemma slice_app_l i j l1 l2 : (j <= length l1)%nat -> slice i j (l1 ++ l2) = slice i j l1.
Proof.
  intros H. unfold slice. destruct (decide (i <= j)%nat).
  - rewrite drop_app_le by lia. rewrite take_app_le by (rewrite length_drop; lia). done.
  - by replace (j - i)%nat with 0%nat by lia.
Qed.

Lemma slice_take i j k b : (j <= k)%nat -> slice i j (take k b) = slice i j b.
Proof.
  intros H. unfold slice. rewrite skipn_firstn_comm, take_take. f_equal. lia.
Qed.

Lemma slice_snoc i j b x :
  (i <= j)%nat -> b !! j = Some x -> slice i (S j) b = slice i j b ++ [x].
Proof.
  intros Hi Hx. rewrite (slice_split i j (S j)) by lia. f_equal.
  unfold slice. replace (S j - j)%nat with 1%nat by lia.
  rewrite (drop_S _ x) by done. done.
Qed.

Lemma slice_cons i j b x :
  (i < j)%nat -> b !! i = Some x -> slice i j b = x :: slice (S i) j b.
Proof.
  intros Hi Hx. unfold slice. rewrite (drop_S _ x) by done.
  replace (j - i)%nat with (S (j - S i)) by lia. done.
Qed.

Lemma slice_insert_ge i j k b x : (j <= k)%nat -> slice i j (<[k := x]> b) = slice i j b.
Proof.
  intros H. rewrite <- (slice_take i j j), <- (slice_take i j j b) by lia.
  by rewrite take_insert_ge by lia.
Qed.

Lemma slice_app_mid l1 l2 l3 :
  slice (length l1) (length l1 + length l2) (l1 ++ l2 ++ l3) = l2.
Proof.
  unfold slice. rewrite drop_app_length. replace (_ + _ - _)%nat with (length l2) by lia.
  apply take_app_length.
Qed.

Lemma memmove_length dst src n b :
  (src + n <= length b)%nat -> (dst + n <= length b)%nat -> length (memmove dst src n b) = length b.
Proof.
  intros H1 H2. unfold memmove. rewrite !length_app, !length_take, !length_drop. lia.
Qed.

Lemma memmove_take dst src n b :
  (src + n <= length b)%nat -> (dst + n <= length b)%nat ->
  take (dst + n) (memmove dst src n b) = take dst b ++ slice src (src + n) b.
Proof.
  intros H1 H2. unfold memmove. rewrite app_assoc, take_app_le.
  - rewrite take_ge; [|rewrite length_app, !length_take, length_drop; lia].
    unfold slice. do 2 f_equal. lia.
  - rewrite length_app, !length_take, length_drop. lia.
Qed.

Lemma memmove_drop dst src n k b :
  (src + n <= length b)%nat -> (dst + n <= length b)%nat -> (dst + n <= k)%nat ->
  drop k (memmove dst src n b) = drop k b.
Proof.
  intros H1 H2 H3. unfold memmove. rewrite app_assoc.
  rewrite drop_app_ge by (rewrite length_app, !length_take, length_drop; lia).
  rewrite drop_drop. f_equal. rewrite length_app, !length_take, length_drop. lia.
Qed.
End buffer.

Create Rewrite HintDb buffer.
#[export] Hint Rewrite @slice_0 : buffer.
Arguments slice {A} i j b : simpl never.
Arguments memmove {A} dst src n b : simpl never.
