(* ===== verification/Crc.v ===== *)
(** * The message block checksum (src/generic/crc16_ccitt.c)

    [crc16_ccitt] is the byte-at-a-time routine of the firmware.  It is proved
    equal to the textbook bit-serial CRC-16/CCITT, and to detect every error
    confined to two adjacent bytes. *)

From S2P Require Import Prelude.

(** One iteration of the [while (len--)] loop. *)
Definition crc_update (crc data : Z) : Z :=
  let data := Z.lxor data (Z.land crc 0xff) in
  let data := u8 (Z.lxor data (Z.shiftl data 4)) in
  u16 (Z.lxor (Z.lxor (Z.lor (Z.shiftl data 8) (Z.shiftr crc 8))
                      (Z.shiftr data 4))
              (Z.shiftl data 3)).

Definition crc16_ccitt (buf : list Z) : Z := fold_left crc_update buf 0xffff.

(** The reference algorithm: shift the register right one bit at a time,
    xoring in the reflected polynomial x^16 + x^12 + x^5 + 1 on a carry. *)
Definition crc_bit (crc : Z) : Z :=
  if Z.odd crc then Z.lxor (Z.shiftr crc 1) 0x8408 else Z.shiftr crc 1.
Definition crc_byte_ref (crc data : Z) : Z :=
  Nat.iter 8 crc_bit (Z.lxor crc data).
Definition crc16_ccitt_ref (buf : list Z) : Z := fold_left crc_byte_ref buf 0xffff.

Example crc_check : crc16_ccitt [0x31; 0x32; 0x33; 0x34; 0x35; 0x36; 0x37; 0x38; 0x39] = 0x6f91.
Proof. reflexivity. Qed.

(** ** Shape of one update *)

Lemma crc_update_range crc data : 0 <= crc_update crc data < 0x10000.
Proof. apply u16_range. Qed.
#[export] Hint Resolve crc_update_range : word.

Lemma lxor_range a b n :
  0 <= n -> 0 <= a < 2 ^ n -> 0 <= b < 2 ^ n -> 0 <= Z.lxor a b < 2 ^ n.
Proof.
  intros Hn Ha Hb.
  assert (H : Z.lxor a b = Z.lxor a b mod 2 ^ n).
  { rewrite <- Z.land_ones by lia. apply Z.bits_inj'; intros i Hi.
    rewrite Z.land_spec, Z.lxor_spec. destruct (Z.lt_ge_cases i n).
    - rewrite Z.ones_spec_low by lia. by rewrite andb_true_r.
    - rewrite Z.ones_spec_high by lia.
      rewrite <- (Z.mod_small a (2 ^ n)), <- (Z.mod_small b (2 ^ n)) by lia.
      by rewrite !Z.mod_pow2_bits_high by lia. }
  rewrite H. apply Z.mod_pos_bound. lia.
Qed.

Lemma byte_bits_high z i : byte z -> 8 <= i -> Z.testbit z i = false.
Proof.
  intros Hz Hi. rewrite <- (Z.mod_small z (2 ^ 8)) by (unfold byte in Hz; lia).
  apply Z.mod_pow2_bits_high. lia.
Qed.

(** The data byte only enters through the low byte of the register. *)
Lemma crc_update_lxor crc data :
  byte data -> crc_update crc data = crc_update (Z.lxor crc data) 0.
Proof.
  intros Hd. unfold crc_update.
  assert (E1 : Z.lxor data (Z.land crc 0xff)
               = Z.lxor 0 (Z.land (Z.lxor crc data) 0xff)).
  { rewrite Z.lxor_0_l. apply Z.bits_inj'; intros i Hi.
    rewrite ?Z.lxor_spec, !Z.land_spec, Z.lxor_spec. change 0xff with (Z.ones 8).
    destruct (Z.lt_ge_cases i 8).
    - rewrite Z.ones_spec_low by lia. by rewrite !andb_true_r, xorb_comm.
    - rewrite Z.ones_spec_high by lia. by rewrite !andb_false_r, byte_bits_high. }
  assert (E2 : Z.shiftr (Z.lxor crc data) 8 = Z.shiftr crc 8).
  { apply Z.bits_inj'; intros i Hi. rewrite !Z.shiftr_spec, Z.lxor_spec by lia.
    rewrite (byte_bits_high data) by (auto; lia). apply xorb_false_r. }
  by rewrite E1, E2.
Qed.

(** ** Equivalence with the bit-serial reference *)

Lemma crc_update_zero_ref crc :
  0 <= crc < 0x10000 -> crc_update crc 0 = crc_byte_ref crc 0.
Proof.
  intros H. apply Z.eqb_eq.
  revert crc H. apply (forall_below_spec 0x10000
    (fun c => crc_update c 0 =? crc_byte_ref c 0)).
  by vm_compute.
Qed.

Lemma crc_update_ref crc data :
  0 <= crc < 0x10000 -> byte data -> crc_update crc data = crc_byte_ref crc data.
Proof.
  intros Hc Hd. rewrite crc_update_lxor by done.
  rewrite crc_update_zero_ref by (apply (lxor_range _ _ 16); unfold byte in *; lia).
  unfold crc_byte_ref. by rewrite Z.lxor_0_r.
Qed.

(** C34: the firmware's byte-wise [crc16_ccitt] computes, on every byte string,
    the standard bit-serial CRC-16/CCITT (reflected polynomial 0x8408, initial
    value 0xffff). *)
Theorem crc16_ccitt_correct buf :
  bytes buf -> crc16_ccitt buf = crc16_ccitt_ref buf.
Proof.
  unfold crc16_ccitt, crc16_ccitt_ref. intros H.
  assert (G : forall c, 0 <= c < 0x10000 ->
    fold_left crc_update buf c = fold_left crc_byte_ref buf c).
  { induction H as [|d buf Hd _ IH]; intros c Hc; [done|]. simpl.
    rewrite IH by apply crc_update_range. by rewrite crc_update_ref. }
  apply G. lia.
Qed.

Lemma crc16_ccitt_correct_witness :
  bytes [5; 0x10] /\ crc16_ccitt [5; 0x10] = crc16_ccitt_ref [5; 0x10].
Proof.
  assert (H : bytes [5; 0x10]) by (repeat constructor; unfold byte; lia).
  split; [exact H | apply (crc16_ccitt_correct [5; 0x10] H)].
Defined.

(** ** Error detection

    One update is a bijection of the 16-bit register, so a difference that is
    present after the corrupted bytes stays present; and the high byte of the
    register after an update determines the data byte that went in. *)

(** Running the reference register backwards by one bit. *)
Definition crc_unbit (crc : Z) : Z :=
  if Z.testbit crc 15 then 2 * Z.lxor crc 0x8408 + 1 else 2 * crc.

Lemma crc_update_cancel c :
  0 <= c < 0x10000 -> Nat.iter 8 crc_unbit (crc_update c 0) = c.
Proof.
  intros H. apply Z.eqb_eq. revert c H.
  apply (forall_below_spec 0x10000
    (fun c => Nat.iter 8 crc_unbit (crc_update c 0) =? c)).
  by vm_compute.
Qed.

Lemma crc_update_inj c c' d :
  0 <= c < 0x10000 -> 0 <= c' < 0x10000 -> byte d ->
  crc_update c d = crc_update c' d -> c = c'.
Proof.
  intros Hc Hc' Hd E. rewrite (crc_update_lxor c), (crc_update_lxor c') in E by done.
  apply (f_equal (Nat.iter 8 crc_unbit)) in E. unfold byte in Hd.
  rewrite !crc_update_cancel in E by (apply (lxor_range _ _ 16); lia).
  apply (f_equal (fun z => Z.lxor z d)) in E.
  by rewrite !Z.lxor_assoc, !Z.lxor_nilpotent, !Z.lxor_0_r in E.
Qed.

Lemma crc_fold_inj buf c c' :
  bytes buf -> 0 <= c < 0x10000 -> 0 <= c' < 0x10000 ->
  fold_left crc_update buf c = fold_left crc_update buf c' -> c = c'.
Proof.
  intros H. revert c c'. induction H as [|d buf Hd _ IH]; intros c c' Hc Hc' E; [done|].
  apply (crc_update_inj c c' d); auto. apply IH; auto with word.
Qed.

Lemma crc_fold_range buf c :
  0 <= c < 0x10000 -> 0 <= fold_left crc_update buf c < 0x10000.
Proof. revert c. induction buf as [|d buf IH]; intros c Hc; simpl; auto with word. Qed.

Lemma crc_update_high c :
  0 <= c < 0x10000 ->
  Z.shiftr (crc_update c 0) 8 = Z.shiftr (crc_update (Z.land c 0xff) 0) 8.
Proof.
  intros H. apply Z.eqb_eq. revert c H.
  apply (forall_below_spec 0x10000
    (fun c => Z.shiftr (crc_update c 0) 8 =? Z.shiftr (crc_update (Z.land c 0xff) 0) 8)).
  by vm_compute.
Qed.

Lemma crc_high_inj x y :
  byte x -> byte y ->
  Z.shiftr (crc_update x 0) 8 = Z.shiftr (crc_update y 0) 8 -> x = y.
Proof.
  intros Hx Hy E.
  pose proof (forall_below_spec 0x100 (fun x => forall_below 0x100 (fun y =>
    if Z.shiftr (crc_update x 0) 8 =? Z.shiftr (crc_update y 0) 8 then x =? y else true))
    ltac:(by vm_compute) x Hx) as H.
  apply (forall_below_spec _ _ H) in Hy. rewrite (proj2 (Z.eqb_eq _ _) E) in Hy.
  by apply Z.eqb_eq.
Qed.

Lemma shiftr8_lxor_byte c d : byte d -> Z.shiftr (Z.lxor c d) 8 = Z.shiftr c 8.
Proof.
  intros Hd. apply Z.bits_inj'; intros i Hi. rewrite !Z.shiftr_spec, Z.lxor_spec by lia.
  rewrite (byte_bits_high d) by (auto; lia). apply xorb_false_r.
Qed.

Lemma land_lxor_byte_inj c a a' :
  byte a -> byte a' ->
  Z.land (Z.lxor c a) 0xff = Z.land (Z.lxor c a') 0xff -> a = a'.
Proof.
  intros Ha Ha' E. apply Z.bits_inj'; intros i Hi.
  destruct (Z.lt_ge_cases i 8); [|by rewrite !byte_bits_high].
  apply (f_equal (fun z => Z.testbit z i)) in E. change 0xff with (Z.ones 8) in E.
  rewrite !Z.land_spec, !Z.lxor_spec, Z.ones_spec_low, !andb_true_r in E by lia.
  by destruct (Z.testbit c i), (Z.testbit a i), (Z.testbit a' i).
Qed.

Lemma crc_burst_inj pre post a b a' b' :
  bytes pre -> bytes post -> byte a -> byte b -> byte a' -> byte b' ->
  crc16_ccitt (pre ++ a :: b :: post) = crc16_ccitt (pre ++ a' :: b' :: post) ->
  a = a' /\ b = b'.
Proof.
  intros Hpre Hpost Ha Hb Ha' Hb'. unfold crc16_ccitt. rewrite !fold_left_app. simpl.
  pose proof (crc_fold_range pre 0xffff ltac:(lia)) as Hc.
  set (c := fold_left crc_update pre 0xffff) in *. intros E.
  apply crc_fold_inj in E; auto with word.
  rewrite (crc_update_lxor _ b), (crc_update_lxor _ b') in E by done.
  apply (crc_update_inj _ _ 0) in E;
    [|apply (lxor_range _ _ 16); unfold byte in *; try lia; apply crc_update_range..
     |unfold byte; lia].
  assert (a = a') as <-.
  { apply (f_equal (fun z => Z.shiftr z 8)) in E. rewrite !shiftr8_lxor_byte in E by done.
    rewrite (crc_update_lxor c a), (crc_update_lxor c a') in E by done.
    rewrite (crc_update_high (Z.lxor c a)), (crc_update_high (Z.lxor c a')) in E
      by (apply (lxor_range _ _ 16); unfold byte in *; lia).
    apply (land_lxor_byte_inj c); [done..|].
    apply crc_high_inj; [rewrite land_ff; unfold byte; word..|done]. }
  split; [done|].
  apply (f_equal (fun z => Z.lxor (crc_update c a) z)) in E.
  by rewrite <- !Z.lxor_assoc, !Z.lxor_nilpotent, !Z.lxor_0_l in E.
Qed.

(** Any corruption confined to two adjacent bytes of a message changes its
    checksum, whatever surrounds them. *)
Theorem crc_detects_burst pre post a b a' b' :
  bytes pre -> bytes post -> byte a -> byte b -> byte a' -> byte b' ->
  a <> a' \/ b <> b' ->
  crc16_ccitt (pre ++ a :: b :: post) <> crc16_ccitt (pre ++ a' :: b' :: post).
Proof.
  intros Hpre Hpost Ha Hb Ha' Hb' Hne E.
  apply crc_burst_inj in E as [-> ->]; tauto.
Qed.

Lemma crc_detects_burst_witness :
  crc16_ccitt ([5] ++ 0x10 :: 0x20 :: [1]) <> crc16_ccitt ([5] ++ 0x11 :: 0xdf :: [1]).
Proof.
  apply (crc_detects_burst [5] [1] 0x10 0x20 0x11 0xdf);
    [repeat constructor; unfold byte; lia..|left; discriminate].
Defined.
