(* ===== verification/Vlq.v ===== *)
(** * Variable length quantities and message ids (src/command.c)

    Integers travel as VLQs of one to five bytes, message ids as a shortened
    two-byte form.  The receive buffer is a list of bytes; a parser takes the
    position [p] it reads at and returns the value with the new position, or
    [None] when the C code would read past the end of the list. *)

From S2P Require Import Prelude.

(** ** encode_int, parse_int *)

(** The bytes [encode_int] stores at [*p], in order; the [goto] labels are the
    tails that the shorter encodings share. *)
Definition encode_int (v : Z) : list Z :=
  let sv := s32 v in
  let f4 := [Z.land v 0x7f] in
  let f3 := Z.lor (Z.land (Z.shiftr v 7) 0x7f) 0x80 :: f4 in
  let f2 := Z.lor (Z.land (Z.shiftr v 14) 0x7f) 0x80 :: f3 in
  let f1 := Z.lor (Z.land (Z.shiftr v 21) 0x7f) 0x80 :: f2 in
  if (sv <? Z.shiftl 3 5) && (- Z.shiftl 1 5 <=? sv) then f4
  else if (sv <? Z.shiftl 3 12) && (- Z.shiftl 1 12 <=? sv) then f3
  else if (sv <? Z.shiftl 3 19) && (- Z.shiftl 1 19 <=? sv) then f2
  else if (sv <? Z.shiftl 3 26) && (- Z.shiftl 1 26 <=? sv) then f1
  else Z.lor (Z.shiftr v 28) 0x80 :: f1.

(** The [while (c & 0x80)] loop; [l] is the unread part of the buffer. *)
Fixpoint parse_int_loop (l : list Z) (c v : Z) (p : nat) : option (Z * nat) :=
  if truthy (Z.land c 0x80) then
    match l with
    | [] => None
    | c :: l =>
      parse_int_loop l c (u32 (Z.lor (Z.shiftl v 7) (Z.land c 0x7f))) (S p)
    end
  else Some (v, p).

Definition parse_int (buf : list Z) (p : nat) : option (Z * nat) :=
  match drop p buf with
  | [] => None
  | c :: l =>
    let v := Z.land c 0x7f in
    let v := if Z.land c 0x60 =? 0x60 then u32 (Z.lor v (-0x20)) else v in
    parse_int_loop l c v (S p)
  end.

(** ** encode_msgid, command_parse_msgid *)

Definition encode_msgid (encoded_msgid : Z) : list Z :=
  (if 0x80 <=? encoded_msgid
   then [u8 (Z.lor (Z.shiftr encoded_msgid 7) 0x80)] else [])
  ++ [Z.land encoded_msgid 0x7f].

Definition command_parse_msgid (buf : list Z) (p : nat) : option (Z * nat) :=
  match drop p buf with
  | [] => None
  | c :: l =>
    if truthy (Z.land c 0x80) then
      match l with
      | [] => None
      | c' :: _ => Some (Z.lor (Z.shiftl (Z.land c 0x7f) 7) c', S (S p))
      end
    else Some (c, S p)
  end.

(** ** Bits as arithmetic *)

Lemma truthy_land_80 c : byte c -> truthy (Z.land c 0x80) = (0x80 <=? c).
Proof.
  intros Hc. apply Bool.eqb_prop. revert c Hc. unfold byte.
  apply (forall_below_spec 0x100
    (fun c => Bool.eqb (truthy (Z.land c 0x80)) (0x80 <=? c))). by vm_compute.
Qed.

Lemma lor_80 d : 0 <= d < 0x80 -> Z.lor d 0x80 = d + 0x80.
Proof.
  intros Hd. apply Z.eqb_eq. revert d Hd.
  apply (forall_below_spec 0x80 (fun d => Z.lor d 0x80 =? d + 0x80)). by vm_compute.
Qed.

(** Sign extension of the first digit. *)
Lemma parse_int_first c : byte c ->
  (if Z.land c 0x60 =? 0x60 then u32 (Z.lor (Z.land c 0x7f) (-0x20)) else Z.land c 0x7f)
  = (if 0x60 <=? c mod 0x80 then u32 (c mod 0x80 - 0x80) else c mod 0x80).
Proof.
  intros Hc. apply Z.eqb_eq. revert c Hc. unfold byte.
  apply (forall_below_spec 0x100 (fun c =>
    (if Z.land c 0x60 =? 0x60 then u32 (Z.lor (Z.land c 0x7f) (-0x20)) else Z.land c 0x7f)
    =? (if 0x60 <=? c mod 0x80 then u32 (c mod 0x80 - 0x80) else c mod 0x80))).
  by vm_compute.
Qed.

Lemma vlq_digit v c : u32 (Z.lor (Z.shiftl v 7) (Z.land c 0x7f)) = u32 (v * 0x80 + c mod 0x80).
Proof. rewrite land_7f, lor_add_shift by word. reflexivity. Qed.

(** The [k]-th digit of [v], as a continuation byte. *)
Definition vlq_cont (v k : Z) : Z := (v / k) mod 0x80 + 0x80.

Lemma vlq_cont_eq v n : 0 <= n ->
  Z.lor (Z.land (Z.shiftr v n) 0x7f) 0x80 = vlq_cont v (2 ^ n).
Proof.
  intros Hn. unfold vlq_cont. rewrite <- Z.shiftr_div_pow2 by lia.
  rewrite land_7f, lor_80; [done|word].
Qed.

(** [encode_int] as a choice between the five lengths. *)
Lemma encode_int_cases v : 0 <= v < 0x100000000 ->
  (-32 <= s32 v < 96 /\ encode_int v = [v mod 0x80]) \/
  (-4096 <= s32 v < 12288 /\ encode_int v = [vlq_cont v 128; v mod 0x80]) \/
  (-524288 <= s32 v < 1572864 /\
     encode_int v = [vlq_cont v 16384; vlq_cont v 128; v mod 0x80]) \/
  (-67108864 <= s32 v < 201326592 /\
     encode_int v = [vlq_cont v 2097152; vlq_cont v 16384; vlq_cont v 128; v mod 0x80]) \/
  (~ -67108864 <= s32 v < 201326592 /\
     encode_int v = [v / 268435456 + 0x80; vlq_cont v 2097152; vlq_cont v 16384;
                     vlq_cont v 128; v mod 0x80]).
Proof.
  intros Hv. unfold encode_int. rewrite !vlq_cont_eq, land_7f by lia.
  change (Z.shiftl 3 5) with 96. change (- Z.shiftl 1 5) with (-32).
  change (Z.shiftl 3 12) with 12288. change (- Z.shiftl 1 12) with (-4096).
  change (Z.shiftl 3 19) with 1572864. change (- Z.shiftl 1 19) with (-524288).
  change (Z.shiftl 3 26) with 201326592. change (- Z.shiftl 1 26) with (-67108864).
  cbv zeta.
  destruct ((s32 v <? 96) && (-32 <=? s32 v)) eqn:E4; [left; split; [lia|done]|right].
  destruct ((s32 v <? 12288) && (-4096 <=? s32 v)) eqn:E3; [left; split; [lia|done]|right].
  destruct ((s32 v <? 1572864) && (-524288 <=? s32 v)) eqn:E2; [left; split; [lia|done]|right].
  destruct ((s32 v <? 201326592) && (-67108864 <=? s32 v)) eqn:E1; [left; split; [lia|done]|right].
  split; [lia|]. rewrite Z.shiftr_div_pow2, lor_80 by word. reflexivity.
Qed.

Lemma vlq_cont_byte v k : byte (vlq_cont v k) /\ 0x80 <= vlq_cont v k.
Proof. unfold vlq_cont, byte. Z.to_euclidean_division_equations; lia. Qed.

Lemma vlq_cont_mod v k : vlq_cont v k mod 0x80 = (v / k) mod 0x80.
Proof. unfold vlq_cont. Z.to_euclidean_division_equations; lia. Qed.

(** One turn of the loop on a continuation byte. *)
Lemma parse_int_loop_cont l c c' v p : byte c -> 0x80 <= c ->
  parse_int_loop (c' :: l) c v p = parse_int_loop l c' (u32 (v * 0x80 + c' mod 0x80)) (S p).
Proof.
  intros Hc H. rewrite <- vlq_digit. cbn [parse_int_loop].
  rewrite truthy_land_80 by done. by rewrite (proj2 (Z.leb_le 0x80 c)).
Qed.

Lemma parse_int_loop_stop l c v p : 0 <= c < 0x80 -> parse_int_loop l c v p = Some (v, p).
Proof.
  intros Hc. destruct l; cbn [parse_int_loop]; rewrite truthy_land_80 by (unfold byte; lia);
    by rewrite (proj2 (Z.leb_gt 0x80 c)) by lia.
Qed.

Lemma parse_int_at pre c l :
  byte c ->
  parse_int (pre ++ c :: l) (length pre)
  = parse_int_loop l c (if 0x60 <=? c mod 0x80 then u32 (c mod 0x80 - 0x80) else c mod 0x80)
      (S (length pre)).
Proof. intros Hc. unfold parse_int. rewrite drop_app_length, parse_int_first by done. done. Qed.

Lemma parse_int_encode pre rest v :
  0 <= v < 0x100000000 ->
  parse_int (pre ++ encode_int v ++ rest) (length pre)
  = Some (v, (length pre + length (encode_int v))%nat).
Proof.
  intros Hv.
  destruct (encode_int_cases v Hv) as [[Hr E]|[[Hr E]|[[Hr E]|[[Hr E]|[Hr E]]]]]; rewrite E; cbn [app].
  all: rewrite parse_int_at by (apply vlq_cont_byte || (unfold byte; word)).
  all: repeat rewrite parse_int_loop_cont by (apply vlq_cont_byte || (unfold byte; word)).
  all: rewrite parse_int_loop_stop by word.
  all: rewrite ?vlq_cont_mod; cbn [length]; f_equal; f_equal; [|lia].
  all: match goal with |- context [if ?b then _ else _] => destruct b eqn:Hb end.
  all: rewrite ?Z.leb_le, ?Z.leb_gt in Hb; word.
Qed.

(** Decoding inverts encoding: for every 32-bit value, wherever its
    encoding is placed in a buffer, [parse_int] returns exactly that value and
    stops right after it. *)
Theorem parse_encode_int pre rest v :
  0 <= v < 0x100000000 ->
  parse_int (pre ++ encode_int v ++ rest) (length pre)
  = Some (v, (length pre + length (encode_int v))%nat).
Proof. apply parse_int_encode. Qed.

Lemma parse_encode_int_witness :
  parse_int ([0x55] ++ encode_int 0xfffff000 ++ [0x7e]) 1 = Some (0xfffff000, 3%nat).
Proof. apply (parse_encode_int [0x55] [0x7e] 0xfffff000). lia. Defined.

(** ** Sizes *)

Lemma encode_int_length v : 0 <= v < 0x100000000 -> (1 <= length (encode_int v) <= 5)%nat.
Proof.
  intros Hv.
  destruct (encode_int_cases v Hv) as [[Hr E]|[[Hr E]|[[Hr E]|[[Hr E]|[Hr E]]]]]; rewrite E; simpl; lia.
Qed.

Lemma encode_int_bytes v : 0 <= v < 0x100000000 -> bytes (encode_int v).
Proof.
  intros Hv.
  destruct (encode_int_cases v Hv) as [[Hr E]|[[Hr E]|[[Hr E]|[[Hr E]|[Hr E]]]]]; rewrite E;
    repeat constructor; try apply vlq_cont_byte; unfold byte; word.
Qed.

(** A parsed integer always ends at or before the first byte without the
    continuation bit. *)
Lemma parse_int_loop_bound l c v p k b :
  l !! k = Some b -> 0 <= b < 0x80 -> bytes l -> byte c ->
  exists v' p', parse_int_loop l c v p = Some (v', p') /\ (p <= p' <= p + S k)%nat.
Proof.
  revert c v p k. induction l as [|d l IH]; intros c v p k Hk Hb Hl Hc; [done|].
  destruct (Z.leb_spec 0x80 c) as [H|H].
  - rewrite parse_int_loop_cont by done. inversion Hl; subst.
    destruct k as [|k].
    + simpl in Hk. injection Hk as <-. rewrite parse_int_loop_stop by lia.
      eexists _, _. split; [done|lia].
    + destruct (IH d (u32 (v * 128 + d mod 128)) (S p) k) as (v' & p' & E & Hp); [done..|].
      rewrite E. eexists _, _. split; [done|lia].
  - rewrite parse_int_loop_stop by (unfold byte in Hc; lia). eexists _, _. split; [done|lia].
Qed.

Lemma parse_int_bound buf p k b :
  bytes buf -> buf !! k = Some b -> 0 <= b < 0x80 -> (p <= k)%nat ->
  exists v' p', parse_int buf p = Some (v', p') /\ (p < p' <= S k)%nat.
Proof.
  intros Hbuf Hk Hb Hp. unfold parse_int.
  assert (Hd : drop p buf !! (k - p)%nat = Some b) by (rewrite lookup_drop, <- Hk; f_equal; lia).
  pose proof (Forall_drop _ p _ Hbuf) as Hbd.
  destruct (drop p buf) as [|c l]; [done|]. inversion Hbd; subst.
  destruct (k - p)%nat as [|j] eqn:Ej; simpl in Hd.
  - injection Hd as ->. rewrite parse_int_loop_stop by lia. eexists _, _. split; [done|lia].
  - edestruct (parse_int_loop_bound l c
      (if Z.land c 0x60 =? 0x60 then u32 (Z.lor (Z.land c 0x7f) (-0x20)) else Z.land c 0x7f)
      (S p) j b) as (v' & p' & E & Hp'); [done..|].
    eexists _, _. split; [exact E|lia].
Qed.

Lemma parse_msgid_encode pre rest id :
  0 <= id < 0x4000 ->
  command_parse_msgid (pre ++ encode_msgid id ++ rest) (length pre)
  = Some (id, (length pre + length (encode_msgid id))%nat).
Proof.
  intros Hid. unfold encode_msgid, command_parse_msgid. rewrite drop_app_length, !land_7f.
  destruct (Z.leb_spec 0x80 id) as [H|H]; cbn [app length].
  - rewrite Z.shiftr_div_pow2, lor_80, u8_small by word. change (2 ^ 7) with 128.
    rewrite truthy_land_80 by (unfold byte; word).
    rewrite (proj2 (Z.leb_le _ _)) by word. rewrite land_7f.
    rewrite lor_add_shift by word. f_equal. f_equal; [word|lia].
  - rewrite truthy_land_80 by (unfold byte; word).
    rewrite (proj2 (Z.leb_gt _ _)) by word. f_equal. f_equal; [word|lia].
Qed.

(** A message id below 2^14 round-trips through its two-byte form. *)
Theorem parse_encode_msgid pre rest id :
  0 <= id < 0x4000 ->
  command_parse_msgid (pre ++ encode_msgid id ++ rest) (length pre)
  = Some (id, (length pre + length (encode_msgid id))%nat).
Proof. apply parse_msgid_encode. Qed.

Lemma parse_encode_msgid_witness :
  command_parse_msgid ([0x55] ++ encode_msgid 300 ++ [7]) 1 = Some (300, 3%nat).
Proof. apply (parse_encode_msgid [0x55] [7] 300). lia. Defined.

Lemma encode_msgid_length id : (1 <= length (encode_msgid id) <= 2)%nat.
Proof. unfold encode_msgid. destruct (_ <=? _); simpl; lia. Qed.

Lemma command_parse_msgid_bound buf p :
  (S p < length buf)%nat ->
  exists id p', command_parse_msgid buf p = Some (id, p') /\ (p < p' <= S (S p))%nat.
Proof.
  intros Hp. unfold command_parse_msgid.
  assert (Hl : (1 < length (drop p buf))%nat) by (rewrite length_drop; lia).
  destruct (drop p buf) as [|c [|c' l]]; simpl in Hl; [lia..|].
  destruct (truthy _); eexists _, _; (split; [done|lia]).
Qed.
