(* ===== verification/Command.v ===== *)
(** * Command parsing, message encoding and block framing (src/command.c)

    Buffers are lists of bytes and buffer positions are [nat]s.  Everything
    the file generates at build time (the command table, the encoders) is an
    argument of the definitions that use it. *)

From S2P Require Import Prelude Crc Vlq.

(** ** Constants and tables of command.h *)

Definition MESSAGE_MIN : nat := 5.
Definition MESSAGE_MAX : nat := 64.
Definition MESSAGE_HEADER_SIZE : nat := 2.
Definition MESSAGE_TRAILER_SIZE : nat := 3.
Definition MESSAGE_POS_LEN : nat := 0.
Definition MESSAGE_POS_SEQ : nat := 1.
Definition MESSAGE_TRAILER_CRC : nat := 3.
Definition MESSAGE_TRAILER_SYNC : nat := 1.
Definition MESSAGE_PAYLOAD_MAX : nat := MESSAGE_MAX - MESSAGE_MIN.
Definition MESSAGE_SEQ_MASK : Z := 0x0f.
Definition MESSAGE_DEST : Z := 0x10.
Definition MESSAGE_SYNC : Z := 0x7e.
Definition HF_IN_SHUTDOWN : Z := 0x01.

Inductive param_type : Set :=
| PT_uint32 | PT_int32 | PT_uint16 | PT_int16 | PT_byte
| PT_string | PT_progmem_buffer | PT_buffer.

Record command_encoder := mk_command_encoder {
  ce_encoded_msgid : Z;
  ce_max_size : nat;
  ce_min_size : nat;
  ce_param_types : list param_type }.

Record command_parser := mk_command_parser {
  cp_encoded_msgid : Z;
  cp_num_args : nat;
  cp_flags : Z;
  cp_param_types : list param_type }.

(** Empty message (for ack/nak transmission); its [min_size] is not
    initialised, so it is zero. *)
Definition encode_acknak : command_encoder := mk_command_encoder 0 MESSAGE_MIN 0 [].

(** ** Pointers in command arguments *)

Definition command_encode_ptr (sizeof_size_t console_receive_buffer p : Z) : Z :=
  if 4 <? sizeof_size_t then u32 (p - console_receive_buffer) else u32 p.

Definition command_decode_ptr (sizeof_size_t console_receive_buffer v : Z) : Z :=
  if 4 <? sizeof_size_t then console_receive_buffer + v else v.

(** ** command_parsef *)

Inductive parsed : Type :=
| Parsed (args : list Z) (p : nat)  (* arguments and position after them *)
| ParseShutdown                     (* shutdown("Command parser error") *)
| ParseFault.                       (* a read outside the buffer *)

Definition parsed_cons (vs : list Z) (r : parsed) : parsed :=
  match r with Parsed args p => Parsed (vs ++ args) p | r => r end.

Section parsef.
Context (sizeof_size_t console_receive_buffer : Z).
Context (buf : list Z) (maxend : nat).

Fixpoint command_parsef (param_types : list param_type) (p : nat) : parsed :=
  if (maxend <? p)%nat then ParseShutdown else
  match param_types with
  | [] => Parsed [] p
  | t :: param_types =>
    match t with
    | PT_uint32 | PT_int32 | PT_uint16 | PT_int16 | PT_byte =>
      match parse_int buf p with
      | Some (v, p) => parsed_cons [v] (command_parsef param_types p)
      | None => ParseFault
      end
    | PT_buffer =>
      match buf !! p with
      | Some len =>
        let p := S p in
        parsed_cons
          [len; command_encode_ptr sizeof_size_t console_receive_buffer
                  (console_receive_buffer + Z.of_nat p)]
          (command_parsef param_types (p + Z.to_nat len))
      | None => ParseFault
      end
    | PT_string | PT_progmem_buffer => ParseShutdown
    end
  end.
End parsef.

(** ** command_encodef

    [out] holds the bytes written so far from [buf[MESSAGE_HEADER_SIZE]] on,
    so [p] is [MESSAGE_HEADER_SIZE + length out]. *)

Inductive va_arg : Type :=
| VInt (v : Z)                  (* an integer argument *)
| VString (s : list Z)          (* a NUL terminated string, without its NUL *)
| VBuffer (v : Z) (s : list Z). (* a length and the memory it describes *)

Inductive encoded : Type :=
| Encoded (msglen : nat) (out : list Z)
| NeedSpace (out : list Z)        (* return 0 *)
| EncodeUndefined (out : list Z). (* the va_list does not match the format *)

Definition enc_p (out : list Z) : nat := MESSAGE_HEADER_SIZE + length out.

(** The copy loop of a [PT_string]: up to the NUL, while [p<=maxend]. *)
Fixpoint encode_string (maxend p : nat) (s : list Z) : list Z :=
  match s with
  | [] => []
  | c :: s => if (p <=? maxend)%nat then c :: encode_string maxend (S p) s else []
  end.

Fixpoint command_encode_params (maxend : nat) (param_types : list param_type)
    (args : list va_arg) (out : list Z) : encoded :=
  match param_types with
  | [] =>
    if (maxend <? enc_p out)%nat then NeedSpace out
    else Encoded (enc_p out + MESSAGE_TRAILER_SIZE) out
  | t :: param_types =>
    if (maxend <? enc_p out + 2)%nat then NeedSpace out else
    match t, args with
    | (PT_uint32 | PT_int32 | PT_uint16 | PT_int16 | PT_byte), VInt v :: args =>
      command_encode_params maxend param_types args (out ++ encode_int (u32 v))
    | PT_string, VString s :: args =>
      let body := encode_string maxend (S (enc_p out)) s in
      command_encode_params maxend param_types args
        (out ++ u8 (Z.of_nat (length body)) :: body)
    | (PT_progmem_buffer | PT_buffer), VBuffer v s :: args =>
      if Z.of_nat (maxend - enc_p out) <=? u32 v then NeedSpace out else
      command_encode_params maxend param_types args
        (out ++ u8 v :: take (Z.to_nat (u32 v)) s)
    | _, _ => EncodeUndefined out
    end
  end.

Definition command_encodef (buf_size : nat) (ce : command_encoder) (args : list va_arg)
    : encoded :=
  let max_size := ce_max_size ce in
  if (max_size <=? MESSAGE_MIN)%nat then Encoded max_size [] else
  let max_size := if (buf_size <? max_size)%nat then buf_size else max_size in
  let maxend := (MESSAGE_HEADER_SIZE + max_size - MESSAGE_MIN)%nat in
  command_encode_params maxend (ce_param_types ce) args
    (encode_msgid (ce_encoded_msgid ce)).

(** ** command_add_frame, command_encode_and_frame *)

(** Header and trailer stores into the [msglen] bytes at [buf]. *)
Definition command_add_frame (next_sequence : Z) (buf : list Z) (msglen : nat) : list Z :=
  let buf := <[MESSAGE_POS_LEN := Z.of_nat msglen]> buf in
  let buf := <[MESSAGE_POS_SEQ := next_sequence]> buf in
  let crc := crc16_ccitt (take (msglen - MESSAGE_TRAILER_SIZE) buf) in
  let buf := <[(msglen - MESSAGE_TRAILER_CRC + 0)%nat := Z.shiftr crc 8]> buf in
  let buf := <[(msglen - MESSAGE_TRAILER_CRC + 1)%nat := u8 crc]> buf in
  <[(msglen - MESSAGE_TRAILER_SYNC)%nat := MESSAGE_SYNC]> buf.

(** Encode a message into the memory at [buf] and frame it; the result is the
    returned length and the memory afterwards. *)
Definition command_encode_and_frame (next_sequence : Z) (buf : list Z) (buf_size : nat)
    (ce : command_encoder) (args : list va_arg) : nat * list Z :=
  let store out := list_inserts MESSAGE_HEADER_SIZE out buf in
  match command_encodef buf_size ce args with
  | Encoded msglen out =>
    if (msglen =? 0)%nat then (0%nat, store out)
    else (msglen, command_add_frame next_sequence (store out) msglen)
  | NeedSpace out | EncodeUndefined out => (0%nat, store out)
  end.

(** ** command_find_block *)

Definition CF_NEED_SYNC : Z := 1.
Definition CF_NEED_VALID : Z := 2.

Record cmd_state := mk_cmd_state {
  next_sequence : Z;
  sync_state : Z }.
#[export] Instance eta_cmd_state : Eta cmd_state := fun s =>
  mk_cmd_state (next_sequence s) (sync_state s).

Definition cmd_init : cmd_state := mk_cmd_state MESSAGE_DEST 0.

(** [fr_acknak]: the call sent an (empty) ack/nak message. *)
Record find_result := mk_find_result {
  fr_ret : Z;
  fr_pop : nat;
  fr_acknak : bool }.

#[export] Instance eta_find_result : Eta find_result := fun r =>
  mk_find_result (fr_ret r) (fr_pop r) (fr_acknak r).

(** [memchr] as an index. *)
Fixpoint memchr (l : list Z) (c : Z) : option nat :=
  match l with
  | [] => None
  | d :: l => if d =? c then Some 0%nat else S <$> memchr l c
  end.

(** The code from the label [need_sync] on. *)
Definition find_block_need_sync (st : cmd_state) (buf : list Z) : cmd_state * find_result :=
  let '(st, pop) :=
    match memchr buf MESSAGE_SYNC with
    | Some i => (st <| sync_state ::= fun x => Z.land x (Z.lnot CF_NEED_SYNC) |>, S i)
    | None => (st, length buf)
    end in
  if truthy (Z.land (sync_state st) CF_NEED_VALID)
  then (st, mk_find_result (-1) pop false)
  else (st <| sync_state ::= fun x => Z.lor x CF_NEED_VALID |>, mk_find_result (-1) pop true).

(** The code from the label [error] on. *)
Definition find_block_error (st : cmd_state) (buf : list Z) : cmd_state * find_result :=
  if buf !!! 0%nat =? MESSAGE_SYNC
  then (st, mk_find_result (-1) 1 false)
  else find_block_need_sync (st <| sync_state ::= fun x => Z.lor x CF_NEED_SYNC |>) buf.

Definition command_find_block (st : cmd_state) (buf : list Z) : cmd_state * find_result :=
  let buf_len := length buf in
  let need_more_data := (st, mk_find_result 0 0 false) in
  if negb (buf_len =? 0)%nat && truthy (Z.land (sync_state st) CF_NEED_SYNC)
  then find_block_need_sync st buf else
  if (buf_len <? MESSAGE_MIN)%nat then need_more_data else
  let msglen := Z.to_nat (buf !!! MESSAGE_POS_LEN) in
  if (msglen <? MESSAGE_MIN)%nat || (MESSAGE_MAX <? msglen)%nat
  then find_block_error st buf else
  let msgseq := buf !!! MESSAGE_POS_SEQ in
  if negb (Z.land msgseq (Z.lnot MESSAGE_SEQ_MASK) =? MESSAGE_DEST)
  then find_block_error st buf else
  if (buf_len <? msglen)%nat then need_more_data else
  if negb (buf !!! (msglen - MESSAGE_TRAILER_SYNC)%nat =? MESSAGE_SYNC)
  then find_block_error st buf else
  let msgcrc := Z.lor (Z.shiftl (buf !!! (msglen - MESSAGE_TRAILER_CRC)%nat) 8)
                      (buf !!! (msglen - MESSAGE_TRAILER_CRC + 1)%nat) in
  let crc := crc16_ccitt (take (msglen - MESSAGE_TRAILER_SIZE) buf) in
  if negb (crc =? msgcrc) then find_block_error st buf else
  let st := st <| sync_state ::= fun x => Z.land x (Z.lnot CF_NEED_VALID) |> in
  if negb (msgseq =? next_sequence st)
  then (st, mk_find_result (-1) msglen true)
  else (st <| next_sequence := Z.lor (Z.land (msgseq + 1) MESSAGE_SEQ_MASK) MESSAGE_DEST |>,
        mk_find_result 1 msglen false).

(** ** command_dispatch

    [index] is the generated command table, [is_shutdown], [report_shutdown]
    the scheduler's functions and [func] the handler of a command. *)

Section dispatch.
Context {W : Type}.
Context (sizeof_size_t console_receive_buffer : Z).
Context (command_index : Z -> command_parser) (command_index_size : Z).
Context (sched_is_shutdown : W -> bool) (sched_report_shutdown : M W unit).
Context (func : Z -> list Z -> M W unit).

Inductive dispatched : Type :=
| DispatchDone (w : W)
| DispatchShutdown (msg : string) (w : W)
| DispatchFault (w : W)     (* a read outside the message *)
| DispatchCrash (w : W)     (* undefined behaviour in a handler *)
| DispatchNoFuel (w : W).

Definition command_lookup_parser (cmdid : Z) : option command_parser :=
  if negb (truthy cmdid) || (command_index_size <=? cmdid) then None
  else Some (command_index cmdid).

Fixpoint command_dispatch_loop (fuel : nat) (buf : list Z) (msgend p : nat) (w : W)
    : dispatched :=
  match fuel with
  | O => DispatchNoFuel w
  | S fuel =>
    if negb (p <? msgend)%nat then DispatchDone w else
    match command_parse_msgid buf p with
    | None => DispatchFault w
    | Some (cmdid, p) =>
      match command_lookup_parser cmdid with
      | None => DispatchShutdown "Invalid command" w
      | Some cp =>
        match command_parsef sizeof_size_t console_receive_buffer buf msgend
                (cp_param_types cp) p with
        | ParseFault => DispatchFault w
        | ParseShutdown => DispatchShutdown "Command parser error" w
        | Parsed args p =>
          let run := if sched_is_shutdown w
                        && negb (truthy (Z.land (cp_flags cp) HF_IN_SHUTDOWN))
                     then sched_report_shutdown else func cmdid args in
          match run w with
          | Ret _ w => command_dispatch_loop fuel buf msgend p w
          | Halt msg w => DispatchShutdown msg w
          | Crash w => DispatchCrash w
          end
        end
      end
    end
  end.

(** [buf] is the [msglen] bytes of the block. *)
Definition command_dispatch (buf : list Z) (w : W) : dispatched :=
  let msglen := length buf in
  command_dispatch_loop (S msglen) buf (msglen - MESSAGE_TRAILER_SIZE)%nat
    MESSAGE_HEADER_SIZE w.

Definition command_find_and_dispatch (st : cmd_state) (buf : list Z) (w : W)
    : cmd_state * find_result * dispatched :=
  let '(st, r) := command_find_block st buf in
  if 0 <? fr_ret r
  then (st, r <| fr_acknak := true |>, command_dispatch (take (fr_pop r) buf) w)
  else (st, r, DispatchDone w).
End dispatch.
Arguments DispatchDone {W} w.
Arguments DispatchShutdown {W} msg w.
Arguments DispatchFault {W} w.
Arguments DispatchCrash {W} w.
Arguments DispatchNoFuel {W} w.

(** ** Well-formed blocks *)

(** The bytes of a block with sequence byte [seq] around [payload]. *)
Definition frame (seq : Z) (payload : list Z) : list Z :=
  let body := Z.of_nat (length payload + MESSAGE_MIN) :: seq :: payload in
  let crc := crc16_ccitt body in
  body ++ [Z.shiftr crc 8; u8 crc; MESSAGE_SYNC].

Arguments frame seq payload : simpl never.

Lemma frame_length seq payload : length (frame seq payload) = (length payload + MESSAGE_MIN)%nat.
Proof. unfold frame, MESSAGE_MIN. rewrite length_app. simpl. lia. Qed.

Lemma crc_split crc : 0 <= crc < 0x10000 -> Z.lor (Z.shiftl (Z.shiftr crc 8) 8) (u8 crc) = crc.
Proof.
  intros H. rewrite lor_add_shift, Z.shiftr_div_pow2 by word. change (2 ^ 8) with 256. word.
Qed.

Lemma crc16_range buf : 0 <= crc16_ccitt buf < 0x10000.
Proof. apply crc_fold_range. lia. Qed.

(** Everything [command_find_block] checks of the bytes of a block. *)
Lemma frame_fields seq payload rest :
  let buf := frame seq payload ++ rest in
  let n := (length payload + MESSAGE_MIN)%nat in
  buf !!! MESSAGE_POS_LEN = Z.of_nat n /\
  buf !!! MESSAGE_POS_SEQ = seq /\
  buf !!! (n - MESSAGE_TRAILER_SYNC)%nat = MESSAGE_SYNC /\
  Z.lor (Z.shiftl (buf !!! (n - MESSAGE_TRAILER_CRC)%nat) 8)
        (buf !!! (n - MESSAGE_TRAILER_CRC + 1)%nat)
    = crc16_ccitt (take (n - MESSAGE_TRAILER_SIZE) buf).
Proof.
  intros buf n. unfold buf, n, frame, MESSAGE_MIN, MESSAGE_TRAILER_SYNC,
    MESSAGE_TRAILER_CRC, MESSAGE_TRAILER_SIZE.
  set (body := _ :: seq :: payload).
  assert (Hb : length body = (length payload + 2)%nat) by (unfold body; simpl; lia).
  rewrite <- app_assoc. repeat split; [done..| |].
  - replace (length payload + 5 - 1)%nat with (length body + 2)%nat by lia.
    by rewrite lookup_total_app_at.
  - replace (length payload + 5 - 3)%nat with (length body + 0)%nat by lia.
    rewrite <- Nat.add_assoc, !lookup_total_app_at, Nat.add_0_r, take_app_length. apply crc_split, crc16_range.
Qed.

Lemma seq_dest_ok k : 0 <= k < 0x10 ->
  Z.land (Z.lor k MESSAGE_DEST) (Z.lnot MESSAGE_SEQ_MASK) = MESSAGE_DEST.
Proof.
  intros Hk. apply Z.eqb_eq. revert k Hk.
  apply (forall_below_spec 0x10 (fun k =>
    Z.land (Z.lor k MESSAGE_DEST) (Z.lnot MESSAGE_SEQ_MASK) =? MESSAGE_DEST)). by vm_compute.
Qed.

(** The sequence byte after [seq]. *)
Definition seq_next (seq : Z) : Z := Z.lor (Z.land (seq + 1) MESSAGE_SEQ_MASK) MESSAGE_DEST.

(** A sequence byte: MESSAGE_DEST with a 4-bit counter. *)
Definition seq_byte (seq : Z) : Prop := 0x10 <= seq < 0x20.

Lemma seq_byte_dest seq : seq_byte seq ->
  Z.land seq (Z.lnot MESSAGE_SEQ_MASK) = MESSAGE_DEST.
Proof.
  intros H. apply Z.eqb_eq. unfold seq_byte in H.
  pose proof (forall_below_spec 0x20 (fun k =>
    if 0x10 <=? k then Z.land k (Z.lnot MESSAGE_SEQ_MASK) =? MESSAGE_DEST else true)
    ltac:(by vm_compute) seq ltac:(lia)) as G. simpl in G.
  by rewrite (proj2 (Z.leb_le _ _)) in G by lia.
Qed.

Lemma seq_next_eq seq : seq_byte seq -> seq_next seq = 0x10 + (seq + 1) mod 0x10.
Proof.
  intros H. apply Z.eqb_eq. unfold seq_byte in H.
  pose proof (forall_below_spec 0x20 (fun k =>
    if 0x10 <=? k then seq_next k =? 0x10 + (k + 1) mod 0x10 else true)
    ltac:(by vm_compute) seq ltac:(lia)) as G. simpl in G.
  by rewrite (proj2 (Z.leb_le _ _)) in G by lia.
Qed.

Lemma seq_next_byte seq : seq_byte seq -> seq_byte (seq_next seq).
Proof. intros H. rewrite seq_next_eq by done. unfold seq_byte. word. Qed.

Definition need_sync (st : cmd_state) : bool := truthy (Z.land (sync_state st) CF_NEED_SYNC).
Definition need_valid (st : cmd_state) : bool := truthy (Z.land (sync_state st) CF_NEED_VALID).

(** Outcome on any buffer that starts with a well-formed block. *)
Lemma find_block_frame st seq payload rest :
  need_sync st = false -> seq_byte seq -> (length payload <= MESSAGE_PAYLOAD_MAX)%nat ->
  let st' := st <| sync_state ::= fun x => Z.land x (Z.lnot CF_NEED_VALID) |> in
  let n := (length payload + MESSAGE_MIN)%nat in
  command_find_block st (frame seq payload ++ rest) =
    if seq =? next_sequence st
    then (st' <| next_sequence := seq_next seq |>, mk_find_result 1 n false)
    else (st', mk_find_result (-1) n true).
Proof.
  intros Hst Hseq Hlen st' n. unfold MESSAGE_PAYLOAD_MAX, MESSAGE_MAX, MESSAGE_MIN in Hlen.
  destruct (frame_fields seq payload rest) as (H0 & H1 & H2 & H3).
  unfold command_find_block. unfold need_sync in Hst. rewrite Hst, andb_false_r.
  rewrite length_app, frame_length, H0, Nat2Z.id, H1, H2, H3.
  unfold MESSAGE_MIN, MESSAGE_MAX in *.
  rewrite (proj2 (Nat.ltb_ge _ _)) by lia.
  rewrite (proj2 (Nat.ltb_ge _ 5)), (proj2 (Nat.ltb_ge 64 _)) by lia. cbn [orb].
  rewrite seq_byte_dest, Z.eqb_refl by done. cbn [negb].
  rewrite (proj2 (Nat.ltb_ge (_ + _ + _) _)) by lia.
  rewrite !Z.eqb_refl. cbn [negb]. cbn [next_sequence set].
  by destruct (seq =? next_sequence st).
Qed.

(** Conversely, bytes that pass all the checks are a well-formed block. *)
Lemma frame_of_fields buf n :
  bytes buf -> Z.of_nat n = buf !!! MESSAGE_POS_LEN ->
  (MESSAGE_MIN <= n)%nat -> (n <= length buf)%nat ->
  buf !!! (n - MESSAGE_TRAILER_SYNC)%nat = MESSAGE_SYNC ->
  crc16_ccitt (take (n - MESSAGE_TRAILER_SIZE) buf)
    = Z.lor (Z.shiftl (buf !!! (n - MESSAGE_TRAILER_CRC)%nat) 8)
            (buf !!! (n - MESSAGE_TRAILER_CRC + 1)%nat) ->
  exists payload, length payload = (n - MESSAGE_MIN)%nat /\
    buf = frame (buf !!! MESSAGE_POS_SEQ) payload ++ drop n buf.
Proof.
  unfold MESSAGE_MIN, MESSAGE_TRAILER_SYNC, MESSAGE_TRAILER_SIZE, MESSAGE_TRAILER_CRC.
  intros Hb Hlen Hn Hl Hsync Hcrc.
  set (body := take (n - 3) buf) in *.
  assert (Hbl : length body = (n - 3)%nat) by (unfold body; rewrite length_take; lia).
  assert (Hsplit : buf = body ++ drop (n - 3) buf) by (unfold body; by rewrite take_drop).
  assert (Hdl : (3 <= length (drop (n - 3) buf))%nat) by (rewrite length_drop; lia).
  assert (Hrest : drop n buf = drop 3 (drop (n - 3) buf)) by (rewrite drop_drop; f_equal; lia).
  pose proof (Forall_drop _ (n - 3) _ Hb) as Hbd.
  destruct (drop (n - 3) buf) as [|c1 [|c2 [|sy rest]]]; simpl in Hdl; [lia..|].
  rewrite Hsplit in Hsync, Hcrc.
  replace (n - 1)%nat with (length body + 2)%nat in Hsync by lia.
  replace (n - 3)%nat with (length body + 0)%nat in Hcrc by lia.
  rewrite <- Nat.add_assoc, !lookup_total_app_at in Hcrc.
  rewrite lookup_total_app_at in Hsync. cbn in Hsync, Hcrc.
  inversion_clear Hbd as [|?? Hc1 Hbd2]. inversion_clear Hbd2 as [|?? Hc2 _].
  unfold byte in Hc1, Hc2. rewrite lor_add_shift in Hcrc by lia.
  assert (Hbody : exists b0 b1 payload, body = b0 :: b1 :: payload).
  { destruct body as [|b0 [|b1 payload]]; simpl in Hbl; [lia..|by eexists _, _, _]. }
  destruct Hbody as (b0 & b1 & payload & Hbody).
  exists payload. rewrite Hbody in Hbl. cbn [length] in Hbl. split; [lia|].
  rewrite Hrest. cbn [drop]. rewrite Hsplit at 1. rewrite Hsplit, Hbody. cbn [app].
  rewrite Hsplit, Hbody in Hlen. cbn in Hlen.
  unfold frame, MESSAGE_MIN. cbn [app].
  replace (Z.of_nat (length payload + 5)) with b0 by lia.
  change (_ !!! MESSAGE_POS_SEQ) with b1. rewrite <- Hbody, Hcrc, Hsync.
  rewrite Z.shiftr_div_pow2 by lia. change (2 ^ 8) with 256 in *.
  f_equal. f_equal. rewrite <- app_assoc. f_equal. cbn [app]. f_equal; [word|].
  f_equal. word.
Qed.

(** ** Properties of command_find_block *)

Lemma memchr_spec l c :
  match memchr l c with
  | Some i => (i < length l)%nat /\ l !! i = Some c /\ c ∉ take i l
  | None => c ∉ l
  end.
Proof.
  induction l as [|d l IH]; simpl; [apply not_elem_of_nil|].
  destruct (Z.eqb_spec d c) as [->|Hne].
  - split_and!; [lia|done|apply not_elem_of_nil].
  - destruct (memchr l c) as [i|]; simpl.
    + destruct IH as (Hi & Hl & Hn). split_and!; [lia|done|].
      rewrite not_elem_of_cons. auto.
    + rewrite not_elem_of_cons. auto.
Qed.

Definition progress_ok (buf : list Z) (r : find_result) : Prop :=
  (fr_pop r <= length buf)%nat /\
  (fr_ret r = 0 /\ fr_pop r = 0%nat /\ (length buf < MESSAGE_MAX)%nat \/
   fr_ret r <> 0 /\ (1 <= fr_pop r)%nat).

Lemma need_sync_progress st buf :
  buf <> [] -> progress_ok buf (snd (find_block_need_sync st buf)) /\
  fr_ret (snd (find_block_need_sync st buf)) = -1.
Proof.
  intros Hb. unfold find_block_need_sync, progress_ok.
  pose proof (memchr_spec buf MESSAGE_SYNC) as Hm.
  assert (0 < length buf)%nat by (destruct buf; simpl; [done|lia]).
  destruct (memchr buf MESSAGE_SYNC) as [i|].
  - destruct (truthy _); cbn; lia.
  - destruct (truthy _); cbn; lia.
Qed.

Lemma error_progress st buf :
  buf <> [] -> progress_ok buf (snd (find_block_error st buf)) /\
  fr_ret (snd (find_block_error st buf)) = -1.
Proof.
  intros Hb. unfold find_block_error. destruct (_ =? _); [|by apply need_sync_progress].
  unfold progress_ok. assert (0 < length buf)%nat by (destruct buf; simpl; [done|lia]).
  cbn. lia.
Qed.

(** Case analysis along the checks of [command_find_block]. *)
Lemma find_block_cases st buf :
  bytes buf ->
  (exists st', command_find_block st buf = (st', mk_find_result 0 0 false) /\ st' = st /\
     (length buf < MESSAGE_MAX)%nat) \/
  (buf <> [] /\ need_sync st = true /\
     command_find_block st buf = find_block_need_sync st buf) \/
  (buf <> [] /\ need_sync st = false /\
     command_find_block st buf = find_block_error st buf) \/
  (need_sync st = false /\ exists payload rest,
     (length payload <= MESSAGE_PAYLOAD_MAX)%nat /\ seq_byte (buf !!! MESSAGE_POS_SEQ) /\
     buf = frame (buf !!! MESSAGE_POS_SEQ) payload ++ rest).
Proof.
  intros Hb. unfold command_find_block. cbv zeta. fold (need_sync st).
  destruct (length buf =? 0)%nat eqn:E0.
  { apply Nat.eqb_eq, nil_length_inv in E0 as ->. cbn. left. exists st. split_and!; [done..|]. unfold MESSAGE_MAX. lia. }
  apply Nat.eqb_neq in E0.
  assert (Hne : buf <> []) by (intros ->; done).
  cbn [negb andb]. destruct (need_sync st) eqn:Es; [by right; left|].
  destruct (Nat.ltb_spec (length buf) MESSAGE_MIN) as [H1|H1].
  { left. exists st. split_and!; [done..|]. unfold MESSAGE_MIN, MESSAGE_MAX in *. lia. }
  destruct (Nat.ltb_spec (Z.to_nat (buf !!! MESSAGE_POS_LEN)) MESSAGE_MIN) as [H2|H2];
    cbn [orb]; [by right; right; left|].
  destruct (Nat.ltb_spec MESSAGE_MAX (Z.to_nat (buf !!! MESSAGE_POS_LEN))) as [H3|H3];
    [by right; right; left|].
  destruct (Z.eqb_spec (Z.land (buf !!! MESSAGE_POS_SEQ) (Z.lnot MESSAGE_SEQ_MASK)) MESSAGE_DEST)
    as [H4|H4]; cbn [negb]; [|by right; right; left].
  destruct (Nat.ltb_spec (length buf) (Z.to_nat (buf !!! MESSAGE_POS_LEN))) as [H5|H5].
  { left. exists st. split_and!; [done..|]. lia. }
  destruct (Z.eqb_spec (buf !!! (Z.to_nat (buf !!! MESSAGE_POS_LEN) - MESSAGE_TRAILER_SYNC)%nat)
    MESSAGE_SYNC) as [H6|H6]; cbn [negb]; [|by right; right; left].
  destruct (Z.eqb_spec (crc16_ccitt (take (Z.to_nat (buf !!! MESSAGE_POS_LEN) - MESSAGE_TRAILER_SIZE) buf))
    (Z.lor (Z.shiftl (buf !!! (Z.to_nat (buf !!! MESSAGE_POS_LEN) - MESSAGE_TRAILER_CRC)%nat) 8)
      (buf !!! (Z.to_nat (buf !!! MESSAGE_POS_LEN) - MESSAGE_TRAILER_CRC + 1)%nat))) as [H7|H7];
    cbn [negb]; [|by right; right; left].
  right; right; right. split; [done|].
  assert (Hbyte : forall i, (i < length buf)%nat -> byte (buf !!! i)).
  { intros i Hi. unfold bytes in Hb. rewrite Forall_lookup in Hb.
    apply (Hb i), list_lookup_lookup_total_lt, Hi. }
  unfold MESSAGE_MIN, MESSAGE_POS_LEN, MESSAGE_POS_SEQ in *.
  pose proof (Hbyte 0%nat ltac:(lia)) as Hb0. pose proof (Hbyte 1%nat ltac:(lia)) as Hb1.
  unfold byte in Hb0.
  destruct (frame_of_fields buf (Z.to_nat (buf !!! 0%nat))) as (payload & Hp & Hf);
    unfold MESSAGE_MIN, MESSAGE_POS_LEN, MESSAGE_POS_SEQ in *; [done|lia|done..|].
  exists payload, (drop (Z.to_nat (buf !!! 0%nat)) buf).
  unfold MESSAGE_PAYLOAD_MAX, MESSAGE_MIN, MESSAGE_MAX in *. split; [lia|]. split; [|exact Hf].
  unfold seq_byte. revert H4. generalize (buf !!! 1%nat) Hb1. intros z Hz Hd.
  pose proof (forall_below_spec 0x100 (fun k =>
    if Z.land k (Z.lnot MESSAGE_SEQ_MASK) =? MESSAGE_DEST
    then (0x10 <=? k) && (k <? 0x20) else true) ltac:(by vm_compute) z Hz) as G. cbn beta in G.
  rewrite Hd, Z.eqb_refl in G. lia.
Qed.

(** The block scanner always makes progress: it never consumes more than
    the buffer holds, and unless it consumes at least one byte it asks for more
    data, which happens only while fewer than MESSAGE_MAX bytes are buffered. *)
Theorem find_block_progress st buf :
  bytes buf -> progress_ok buf (snd (command_find_block st buf)).
Proof.
  intros Hb. destruct (find_block_cases st buf Hb)
    as [(st' & E & _ & Hl)|[(Hne & Hs & E)|[(Hne & Hs & E)|(Hs & payload & rest & Hp & Hq & Hf)]]].
  - rewrite E. unfold progress_ok. cbn. lia.
  - rewrite E. by apply need_sync_progress.
  - rewrite E. by apply error_progress.
  - pose proof (find_block_frame st _ _ rest Hs Hq Hp) as E. rewrite <- Hf in E. rewrite E.
    unfold progress_ok. rewrite Hf, length_app, frame_length. unfold MESSAGE_MIN.
    destruct (_ =? _); cbn; lia.
Qed.

Lemma find_block_progress_witness :
  bytes [5; 0x10; 1] /\ progress_ok [5; 0x10; 1] (snd (command_find_block cmd_init [5; 0x10; 1])).
Proof.
  assert (H : bytes [5; 0x10; 1]) by (repeat constructor; unfold byte; lia).
  split; [exact H | apply (find_block_progress cmd_init [5; 0x10; 1] H)].
Defined.

(** A block is accepted exactly when the scanner is synchronised and the
    buffer starts with a well-formed block carrying the expected sequence
    number; acceptance advances the expected number by one (mod 16), and every
    other outcome leaves it unchanged. *)
Theorem find_block_accepts st buf :
  bytes buf -> seq_byte (next_sequence st) ->
  let '(st', r) := command_find_block st buf in
  (fr_ret r = 1 <->
     need_sync st = false /\
     exists payload rest, (length payload <= MESSAGE_PAYLOAD_MAX)%nat /\
       buf = frame (next_sequence st) payload ++ rest) /\
  next_sequence st' = if fr_ret r =? 1 then seq_next (next_sequence st) else next_sequence st.
Proof.
  intros Hb Hq. 
  destruct (find_block_cases st buf Hb)
    as [(st' & E & -> & Hl)|[(Hne & Hs & E)|[(Hne & Hs & E)|(Hs & payload & rest & Hp & Hsq & Hf)]]].
  - rewrite E. cbn. split; [|done]. split; [lia|]. intros (Hs & payload & rest & Hp & ->).
    rewrite find_block_frame, Z.eqb_refl in E by done. done.
  - rewrite E. destruct (need_sync_progress st buf Hne) as [_ Hr].
    assert (next_sequence (fst (find_block_need_sync st buf)) = next_sequence st) as Hn.
    { unfold find_block_need_sync. destruct (memchr _ _); destruct (truthy _); done. }
    destruct (find_block_need_sync st buf) as [st' r]; cbn [fst snd] in *. rewrite Hr. cbn [Z.eqb].
    split; [|done]. split; [lia|]. intros (Hs' & _). congruence.
  - rewrite E. destruct (error_progress st buf Hne) as [_ Hr].
    assert (next_sequence (fst (find_block_error st buf)) = next_sequence st) as Hn.
    { unfold find_block_error, find_block_need_sync.
      destruct (_ =? _); [done|]. destruct (memchr _ _); destruct (truthy _); done. }
    destruct (find_block_error st buf) as [st' r]; cbn [fst snd] in *. rewrite Hr. cbn [Z.eqb].
    split; [|done]. split; [lia|]. intros (Hs' & payload & rest & Hp & ->).
    rewrite find_block_frame, Z.eqb_refl in E by done. injection E as <- <-. done.
  - pose proof (find_block_frame st _ _ rest Hs Hsq Hp) as E. rewrite <- Hf in E. rewrite E.
    destruct (Z.eqb_spec (buf !!! MESSAGE_POS_SEQ) (next_sequence st)) as [Eq|Ne]; cbn.
    + rewrite Eq. split; [|done]. split; [|done]. intros _. split; [done|].
      exists payload, rest. split; [done|]. by rewrite <- Eq.
    + split; [|done]. split; [done|]. intros (_ & payload' & rest' & Hp' & Hf').
      contradict Ne. rewrite Hf'. apply frame_fields.
Qed.

Lemma find_block_accepts_witness :
  fr_ret (snd (command_find_block cmd_init (frame 0x10 [1]))) = 1 /\
  let '(st', r) := command_find_block cmd_init (frame 0x10 [1]) in
  (fr_ret r = 1 <->
     need_sync cmd_init = false /\
     exists payload rest, (length payload <= MESSAGE_PAYLOAD_MAX)%nat /\
       frame 0x10 [1] = frame (next_sequence cmd_init) payload ++ rest) /\
  next_sequence st' =
    if fr_ret r =? 1 then seq_next (next_sequence cmd_init) else next_sequence cmd_init.
Proof.
  split; [vm_compute; reflexivity|].
  apply (find_block_accepts cmd_init (frame 0x10 [1])).
  - repeat constructor; vm_compute; intuition discriminate.
  - unfold seq_byte, cmd_init, MESSAGE_DEST; cbn; lia.
Defined.

Lemma memchr_prefix g c l : c ∉ g -> memchr (g ++ c :: l) c = Some (length g).
Proof.
  induction g as [|d g IH]; intros H; simpl.
  - by rewrite Z.eqb_refl.
  - rewrite not_elem_of_cons in H. destruct H as [H1 H2].
    destruct (Z.eqb_spec d c) as [->|]; [done|]. by rewrite IH.
Qed.

Lemma land_clear_sync x :
  truthy (Z.land (Z.lor (Z.land x (Z.lnot CF_NEED_SYNC)) CF_NEED_VALID) CF_NEED_SYNC) = false /\
  truthy (Z.land (Z.land x (Z.lnot CF_NEED_SYNC)) CF_NEED_SYNC) = false.
Proof.
  assert (H0 : Z.land (Z.land x (Z.lnot 1)) 1 = 0).
  { rewrite <- Z.land_assoc. change (Z.land (Z.lnot 1) 1) with 0. apply Z.land_0_r. }
  unfold CF_NEED_SYNC, CF_NEED_VALID. split; unfold truthy.
  - rewrite Z.land_lor_distr_l, H0. reflexivity.
  - by rewrite H0.
Qed.

(** Resynchronisation.  Once the scanner has lost sync, it discards the
    garbage up to and including the next SYNC byte in one call, and the block
    that follows is then accepted. *)
Theorem find_block_resync st g payload rest :
  need_sync st = true -> MESSAGE_SYNC ∉ g -> seq_byte (next_sequence st) ->
  (length payload <= MESSAGE_PAYLOAD_MAX)%nat ->
  let buf := g ++ MESSAGE_SYNC :: frame (next_sequence st) payload ++ rest in
  let '(st1, r1) := command_find_block st buf in
  let '(st2, r2) := command_find_block st1 (drop (fr_pop r1) buf) in
  fr_ret r1 = -1 /\ drop (fr_pop r1) buf = frame (next_sequence st) payload ++ rest /\
  fr_ret r2 = 1 /\ fr_pop r2 = length (frame (next_sequence st) payload) /\
  next_sequence st2 = seq_next (next_sequence st) /\ need_valid st2 = false.
Proof.
  intros Hs Hg Hq Hp buf.
  assert (E : command_find_block st buf = find_block_need_sync st buf).
  { unfold command_find_block. fold (need_sync st). rewrite Hs.
    unfold buf. rewrite length_app, (proj2 (Nat.eqb_neq _ 0%nat)) by (simpl; lia). done. }
  assert (Hd : drop (S (length g)) buf = frame (next_sequence st) payload ++ rest).
  { unfold buf. rewrite drop_app_ge by lia.
    replace (S (length g) - length g)%nat with 1%nat by lia. done. }
  rewrite E. unfold find_block_need_sync. unfold buf at 1 4. rewrite memchr_prefix by done. fold buf.
  destruct (truthy (Z.land (sync_state _) CF_NEED_VALID)).
  all: cbn [fr_pop fr_ret]; rewrite Hd.
  all: rewrite find_block_frame; [|apply land_clear_sync|done|done].
  all: cbn [next_sequence set]; rewrite Z.eqb_refl.
  all: split_and!; [done..|by rewrite frame_length|done|].
  all: unfold need_valid; cbn [sync_state set]; rewrite <- Z.land_assoc.
  all: change (Z.land (Z.lnot CF_NEED_VALID) CF_NEED_VALID) with 0; by rewrite Z.land_0_r.
Qed.

Lemma find_block_resync_witness :
  let st := mk_cmd_state 0x13 CF_NEED_SYNC in
  let buf := [1; 2; 3] ++ MESSAGE_SYNC :: frame 0x13 [9] ++ [5] in
  let '(st1, r1) := command_find_block st buf in
  let '(st2, r2) := command_find_block st1 (drop (fr_pop r1) buf) in
  fr_ret r1 = -1 /\ drop (fr_pop r1) buf = frame 0x13 [9] ++ [5] /\
  fr_ret r2 = 1 /\ fr_pop r2 = length (frame 0x13 [9]) /\
  next_sequence st2 = seq_next 0x13 /\ need_valid st2 = false.
Proof.
  apply (find_block_resync (mk_cmd_state 0x13 CF_NEED_SYNC) [1; 2; 3] [9] [5]).
  - reflexivity.
  - rewrite !not_elem_of_cons. unfold MESSAGE_SYNC. repeat split; try lia. apply not_elem_of_nil.
  - unfold seq_byte; cbn; lia.
  - cbn. unfold MESSAGE_PAYLOAD_MAX, MESSAGE_MAX, MESSAGE_MIN. lia.
Defined.

(** ** Properties of command_parsef and command_dispatch *)

Definition int_param (t : param_type) : bool :=
  match t with
  | PT_uint32 | PT_int32 | PT_uint16 | PT_int16 | PT_byte => true
  | PT_string | PT_progmem_buffer | PT_buffer => false
  end.

(** Number of 32-bit slots a parameter list fills in [args]. *)
Definition num_args (ts : list param_type) : nat :=
  sum_list_with (fun t => if int_param t then 1 else 2)%nat ts.

Section parsef_facts.
Context (sizeof_size_t console_receive_buffer : Z).

(** In a block (its last byte is SYNC, which has no continuation bit) no
    parse reads outside it, and a parse that returns ends before the
    trailer with one slot per integer and two per buffer. *)
Lemma command_parsef_safe buf ts p :
  bytes buf -> (MESSAGE_MIN <= length buf)%nat ->
  buf !! (length buf - 1)%nat = Some MESSAGE_SYNC ->
  let maxend := (length buf - MESSAGE_TRAILER_SIZE)%nat in
  match command_parsef sizeof_size_t console_receive_buffer buf maxend ts p with
  | Parsed args p' => (p <= p' <= maxend)%nat /\ length args = num_args ts
  | ParseShutdown => True
  | ParseFault => False
  end.
Proof.
  intros Hb Hl Hs maxend. unfold MESSAGE_MIN, MESSAGE_TRAILER_SIZE, MESSAGE_SYNC in *.
  assert (Hint : forall ts p, (p <= maxend)%nat ->
    (forall p', match command_parsef sizeof_size_t console_receive_buffer buf maxend ts p' with
      | Parsed args p'' => (p' <= p'' <= maxend)%nat /\ length args = num_args ts
      | ParseShutdown => True | ParseFault => False end) ->
    match match parse_int buf p with
          | Some (v, p) => parsed_cons [v]
              (command_parsef sizeof_size_t console_receive_buffer buf maxend ts p)
          | None => ParseFault end with
    | Parsed args p' => (p <= p' <= maxend)%nat /\ length args = S (num_args ts)
    | ParseShutdown => True | ParseFault => False end).
  { intros ts' p' Hp IH.
    destruct (parse_int_bound buf p' (length buf - 1)%nat 0x7e) as (v & p'' & -> & Hp''); [done..|lia|lia|].
    specialize (IH p''). destruct (command_parsef _ _ _ _ ts' p''); simpl; [|done..].
    destruct IH as [? ->]. lia. }
  revert p. induction ts as [|t ts IH]; intros p; cbn [command_parsef];
    destruct (Nat.ltb_spec maxend p) as [Hlt|Hge]; try done.
  destruct t; try done; try (apply Hint; [done|exact IH]).
  destruct (lookup_lt_is_Some_2 buf p) as [len Hlen]; [lia|]. rewrite Hlen.
  specialize (IH (S p + Z.to_nat len)%nat).
  destruct (command_parsef _ _ _ _ ts _); simpl; [|done..].
  destruct IH as [? ->]. unfold num_args. simpl. lia.
Qed.

(** Parsing the encodings of a list of integers gives them back. *)
Lemma command_parsef_ints ts vs pre post maxend :
  forallb int_param ts = true -> length ts = length vs ->
  Forall (fun v => 0 <= v < 0x100000000) vs ->
  let enc := concat (encode_int <$> vs) in
  (length pre + length enc <= maxend)%nat ->
  command_parsef sizeof_size_t console_receive_buffer (pre ++ enc ++ post) maxend ts (length pre)
  = Parsed vs (length pre + length enc).
Proof.
  intros Hts Hl Hvs enc Hm. subst enc.
  revert ts pre Hts Hl Hm. induction Hvs as [|v vs Hv Hvs IH]; intros ts pre Hts Hl Hm.
  - destruct ts; [|done]. simpl in *.
    rewrite (proj2 (Nat.ltb_ge _ _)) by lia. f_equal. lia.
  - destruct ts as [|t ts]; [done|].
    cbn [forallb length fmap list_fmap concat] in Hts, Hl, Hm.
    apply andb_true_iff in Hts as [Ht Hts]. rewrite length_app in Hm.
    pose proof (IH ts (pre ++ encode_int v) Hts ltac:(lia)) as IHv.
    rewrite !length_app in IHv. specialize (IHv ltac:(lia)).
    cbn [command_parsef]. rewrite (proj2 (Nat.ltb_ge _ _)) by lia.
    cbn [fmap list_fmap concat]. rewrite <- (app_assoc (encode_int v)).
    rewrite <- (app_assoc pre) in IHv.
    destruct t; try done; rewrite parse_int_encode, IHv by done; simpl; f_equal;
      rewrite length_app; lia.
Qed.
End parsef_facts.

Section dispatch_facts.
Context {W : Type}.
Context (sizeof_size_t console_receive_buffer : Z).
Context (command_index : Z -> command_parser) (command_index_size : Z).
Context (sched_is_shutdown : W -> bool) (sched_report_shutdown : M W unit).
Context (func : Z -> list Z -> M W unit).

Abbreviation dispatch_loop := (command_dispatch_loop sizeof_size_t console_receive_buffer
  command_index command_index_size sched_is_shutdown sched_report_shutdown func).
Abbreviation dispatch := (command_dispatch sizeof_size_t console_receive_buffer
  command_index command_index_size sched_is_shutdown sched_report_shutdown func).

(** The loop neither faults nor runs out of fuel. *)
Definition dispatch_ok (d : @dispatched W) : Prop :=
  match d with
  | DispatchDone _ | DispatchShutdown _ _ | DispatchCrash _ => True
  | DispatchFault _ | DispatchNoFuel _ => False
  end.

Lemma dispatch_loop_ok buf fuel p w :
  bytes buf -> (MESSAGE_MIN <= length buf)%nat ->
  buf !! (length buf - 1)%nat = Some MESSAGE_SYNC ->
  (length buf - p < fuel)%nat ->
  dispatch_ok (dispatch_loop fuel buf (length buf - MESSAGE_TRAILER_SIZE)%nat p w).
Proof.
  intros Hb Hl Hs. revert p w. induction fuel as [|fuel IH]; intros p w Hf; [lia|].
  cbn [command_dispatch_loop].
  destruct (Nat.ltb_spec p (length buf - MESSAGE_TRAILER_SIZE)) as [Hp|Hp]; cbn [negb]; [|done].
  unfold MESSAGE_TRAILER_SIZE in Hp.
  destruct (command_parse_msgid_bound buf p) as (id & p' & -> & Hp'); [lia|].
  destruct (command_lookup_parser _ _ id) as [cp|]; [|done].
  pose proof (command_parsef_safe sizeof_size_t console_receive_buffer buf
    (cp_param_types cp) p' Hb Hl Hs) as Hsafe. cbv zeta in Hsafe.
  destruct (command_parsef _ _ _ _ _ p') as [args q| |]; [|done..].
  destruct Hsafe as [Hq _]. unfold MESSAGE_TRAILER_SIZE in Hq.
  destruct (_ w); [apply IH; lia|done..].
Qed.

(** Reference semantics of a list of commands: run the handlers in order. *)
Fixpoint run_commands (cmds : list (Z * list Z)) (w : W) : dispatched :=
  match cmds with
  | [] => DispatchDone w
  | (id, args) :: cmds =>
    let run := if sched_is_shutdown w
                  && negb (truthy (Z.land (cp_flags (command_index id)) HF_IN_SHUTDOWN))
               then sched_report_shutdown else func id args in
    match run w with
    | Ret _ w => run_commands cmds w
    | Halt msg w => DispatchShutdown msg w
    | Crash w => DispatchCrash w
    end
  end.

(** A command the table declares with integer parameters only. *)
Definition command_ok (c : Z * list Z) : Prop :=
  0 < c.1 < Z.min command_index_size 0x4000 /\
  forallb int_param (cp_param_types (command_index c.1)) = true /\
  length (cp_param_types (command_index c.1)) = length c.2 /\
  Forall (fun v => 0 <= v < 0x100000000) c.2.

Definition encode_command (c : Z * list Z) : list Z :=
  encode_msgid c.1 ++ concat (encode_int <$> c.2).

Lemma dispatch_loop_commands cmds pre post fuel w :
  Forall command_ok cmds ->
  let payload := concat (encode_command <$> cmds) in
  (length cmds < fuel)%nat ->
  dispatch_loop fuel (pre ++ payload ++ post) (length pre + length payload)%nat (length pre) w
  = run_commands cmds w.
Proof.
  intros Hc payload. subst payload. revert pre fuel w.
  induction Hc as [|[id args] cmds (Hid & Hints & Hlen & Hargs) Hc IH]; intros pre fuel w Hf;
    (destruct fuel as [|fuel]; [cbn [length] in Hf; lia|]); cbn [command_dispatch_loop].
  { by rewrite (proj2 (Nat.ltb_ge _ _)) by (simpl; lia). }
  cbn [fst snd length fmap list_fmap concat] in *.
  set (R := concat (encode_command <$> cmds)) in *.
  set (A := concat (encode_int <$> args)). set (E := encode_msgid id).
  assert (1 <= length E <= 2)%nat as HE by apply encode_msgid_length.
  change (encode_command (id, args)) with (E ++ A).
  replace (pre ++ ((E ++ A) ++ R) ++ post) with (pre ++ E ++ A ++ R ++ post)
    by (by rewrite !app_assoc).
  rewrite (proj2 (Nat.ltb_lt _ _)) by (rewrite !length_app; lia).
  cbn [negb]. pose proof (parse_msgid_encode pre (A ++ R ++ post) id ltac:(lia)) as Hm.
  fold E in Hm. rewrite Hm.
  assert (command_lookup_parser command_index command_index_size id = Some (command_index id)) as ->.
  { unfold command_lookup_parser, truthy. rewrite (proj2 (Z.eqb_neq _ _)) by lia.
    by rewrite (proj2 (Z.leb_gt _ _)) by lia. }
  rewrite (app_assoc pre E).
  replace (length pre + length E)%nat with (length (pre ++ E)) by apply length_app.
  assert (Hle : (length (pre ++ E) + length A <= length pre + length ((E ++ A) ++ R))%nat)
    by (rewrite !length_app; lia).
  pose proof (command_parsef_ints sizeof_size_t console_receive_buffer
    _ args (pre ++ E) (R ++ post) _ Hints Hlen Hargs Hle) as Hp.
  cbv zeta in Hp. fold A in Hp. rewrite Hp, (app_assoc (pre ++ E) A).
  replace (length (pre ++ E) + length A)%nat with (length ((pre ++ E) ++ A)) by apply length_app.
  replace (length pre + length ((E ++ A) ++ R))%nat
    with (length ((pre ++ E) ++ A) + length R)%nat by (rewrite !length_app; lia).
  cbn [run_commands].
  destruct (_ w); [apply IH; lia|done..].
Qed.

Lemma length_commands cmds : (length cmds <= length (concat (encode_command <$> cmds)))%nat.
Proof.
  induction cmds as [|c cmds IH]; [done|].
  cbn [fmap list_fmap concat length]. rewrite length_app. unfold encode_command at 1.
  rewrite length_app. pose proof (encode_msgid_length c.1). lia.
Qed.

(** C26: dispatching any accepted block terminates and never reads outside
    the block, whatever bytes it contains and whatever the handlers do. *)
Theorem command_dispatch_safe buf w :
  bytes buf -> (MESSAGE_MIN <= length buf)%nat ->
  buf !! (length buf - 1)%nat = Some MESSAGE_SYNC ->
  dispatch_ok (dispatch buf w).
Proof. intros Hb Hl Hs. apply dispatch_loop_ok; [done..|lia]. Qed.

Lemma dispatch_frame_commands cmds seq w :
  Forall command_ok cmds ->
  dispatch (frame seq (concat (encode_command <$> cmds))) w = run_commands cmds w.
Proof.
  intros Hc. unfold command_dispatch. rewrite frame_length.
  set (payload := concat (encode_command <$> cmds)).
  unfold frame. fold payload. set (crc := crc16_ccitt _).
  change ((?a :: seq :: payload) ++ ?t) with ([a; seq] ++ payload ++ t).
  replace (length payload + MESSAGE_MIN - MESSAGE_TRAILER_SIZE)%nat
    with (length [Z.of_nat (length payload + MESSAGE_MIN); seq] + length payload)%nat
    by (unfold MESSAGE_MIN, MESSAGE_TRAILER_SIZE; simpl; lia).
  apply dispatch_loop_commands; [done|]. pose proof (length_commands cmds).
  fold payload in H. unfold MESSAGE_MIN. lia.
Qed.

(** Dispatching the block that encodes a list of commands runs their
    handlers in order with exactly the encoded arguments, skipping (and
    reporting) the commands that may not run while shut down. *)
Theorem command_dispatch_commands cmds seq w :
  Forall command_ok cmds ->
  dispatch (frame seq (concat (encode_command <$> cmds))) w = run_commands cmds w.
Proof. apply dispatch_frame_commands. Qed.
End dispatch_facts.

(** A concrete table for the witnesses: every command takes two integers, and
    its handler logs the call. *)
Definition demo_index (id : Z) : command_parser :=
  mk_command_parser id 2 0 [PT_uint32; PT_int32].
Definition demo_func (id : Z) (args : list Z) : M (list (Z * list Z)) unit :=
  modify (fun log => log ++ [(id, args)]).

Lemma command_dispatch_safe_witness :
  let buf := frame 0x10 [0xff; 0xff; 0xff] in
  dispatch_ok (command_dispatch 8 0 demo_index 10 (fun _ => false) (ret tt) demo_func buf []).
Proof.
  intros buf.
  apply (command_dispatch_safe 8 0 demo_index 10 (fun _ => false) (ret tt) demo_func buf []).
  - repeat constructor; vm_compute; intuition discriminate.
  - unfold buf. rewrite frame_length. lia.
  - reflexivity.
Defined.

Lemma command_dispatch_commands_witness :
  let cmds := [(5, [7; 0xffffffff]); (6, [300; 0])] in
  let blk := frame 0x10 (concat (encode_command <$> cmds)) in
  command_dispatch 8 0 demo_index 10 (fun _ => false) (ret tt) demo_func blk []
    = run_commands demo_index (fun _ => false) (ret tt) demo_func cmds [] /\
  run_commands demo_index (fun _ => false) (ret tt) demo_func cmds [] = DispatchDone cmds.
Proof.
  intros cmds blk. split; [|reflexivity].
  apply (command_dispatch_commands 8 0 demo_index 10 (fun _ => false) (ret tt) demo_func cmds 0x10 []).
  unfold command_ok. repeat constructor; cbn; lia.
Defined.

(** ** Properties of message encoding *)

Lemma encode_string_bound maxend p s :
  (p <= S maxend)%nat -> (p + length (encode_string maxend p s) <= S maxend)%nat.
Proof.
  revert p. induction s as [|c s IH]; intros p Hp; simpl; [lia|].
  destruct (Nat.leb_spec p maxend); simpl; [|lia]. specialize (IH (S p)). lia.
Qed.

(** Bytes stored in the buffer by an encoding attempt. *)
Definition enc_out (e : encoded) : list Z :=
  match e with Encoded _ out | NeedSpace out | EncodeUndefined out => out end.

Lemma encode_params_bound maxend ts args out :
  (enc_p out <= maxend + 3)%nat ->
  let e := command_encode_params maxend ts args out in
  (enc_p (enc_out e) <= maxend + 3)%nat /\
  match e with
  | Encoded msglen out' =>
    msglen = (length out' + MESSAGE_MIN)%nat /\ (msglen <= maxend + MESSAGE_TRAILER_SIZE)%nat
  | _ => True
  end.
Proof.
  unfold enc_p, MESSAGE_HEADER_SIZE, MESSAGE_MIN, MESSAGE_TRAILER_SIZE.
  revert args out. induction ts as [|t ts IH]; intros args out Hp; cbn [command_encode_params].
  { unfold enc_p, MESSAGE_HEADER_SIZE, MESSAGE_TRAILER_SIZE.
    destruct (Nat.ltb_spec maxend (2 + length out)); cbn [enc_out]; lia. }
  unfold enc_p, MESSAGE_HEADER_SIZE in *.
  destruct (Nat.ltb_spec maxend (2 + length out + 2)) as [H|H]; [cbn [enc_out]; lia|].
  destruct t, args as [|[v|str|v mem] args]; try (cbn [enc_out]; lia).
  1-5: apply IH; rewrite length_app; pose proof (encode_int_length (u32 v) (u32_range v)); lia.
  - apply IH. rewrite length_app. cbn [length].
    pose proof (encode_string_bound maxend (S (2 + length out)) str). lia.
  - destruct (Z.leb_spec (Z.of_nat (maxend - (2 + length out))) (u32 v)); [cbn [enc_out]; lia|].
    apply IH. rewrite length_app. cbn [length]. rewrite length_take. lia.
  - destruct (Z.leb_spec (Z.of_nat (maxend - (2 + length out))) (u32 v)); [cbn [enc_out]; lia|].
    apply IH. rewrite length_app. cbn [length]. rewrite length_take. lia.
Qed.

Lemma encodef_bounds buf_size ce args :
  (MESSAGE_MIN <= buf_size)%nat -> (MESSAGE_MIN < ce_max_size ce)%nat ->
  let e := command_encodef buf_size ce args in
  let space := Nat.min buf_size (ce_max_size ce) in
  (MESSAGE_HEADER_SIZE + length (enc_out e) <= space)%nat /\
  match e with
  | Encoded msglen out => msglen = (length out + MESSAGE_MIN)%nat /\ (msglen <= space)%nat
  | _ => True
  end.
Proof.
  intros Hb Hm. cbv zeta. unfold command_encodef. rewrite (proj2 (Nat.leb_gt _ _)) by lia.
  replace (if (buf_size <? ce_max_size ce)%nat then buf_size else ce_max_size ce)
    with (Nat.min buf_size (ce_max_size ce)) by (destruct (Nat.ltb_spec buf_size (ce_max_size ce)); lia).
  set (m := Nat.min buf_size (ce_max_size ce)).
  assert (5 <= m)%nat by (unfold m, MESSAGE_MIN in *; lia).
  pose proof (encode_msgid_length (ce_encoded_msgid ce)).
  destruct (encode_params_bound (MESSAGE_HEADER_SIZE + m - MESSAGE_MIN) (ce_param_types ce) args
    (encode_msgid (ce_encoded_msgid ce))) as [H1 H2].
  { unfold enc_p, MESSAGE_HEADER_SIZE, MESSAGE_MIN. lia. }
  unfold enc_p, MESSAGE_HEADER_SIZE, MESSAGE_MIN, MESSAGE_TRAILER_SIZE in *.
  split; [lia|]. destruct (command_encode_params _ _ _ _); [lia|done..].
Qed.

(** Encoding never stores outside the space it was given: when at least
    MESSAGE_MIN bytes are available, every byte stored lies within both the
    buffer and the message's declared maximum, also on the paths that give up,
    and a completed message has room for its trailer. *)
Theorem command_encodef_bounds buf_size ce args :
  (MESSAGE_MIN <= buf_size)%nat -> (MESSAGE_MIN < ce_max_size ce)%nat ->
  let e := command_encodef buf_size ce args in
  let space := Nat.min buf_size (ce_max_size ce) in
  (MESSAGE_HEADER_SIZE + length (enc_out e) <= space)%nat /\
  match e with
  | Encoded msglen out => msglen = (length out + MESSAGE_MIN)%nat /\ (msglen <= space)%nat
  | _ => True
  end.
Proof. apply encodef_bounds. Qed.

Lemma command_encodef_bounds_witness :
  let ce := mk_command_encoder 20 14 0 [PT_uint32; PT_string] in
  let args := [VInt 1000000; VString [65; 66; 67]] in
  command_encodef 96 ce args
    = Encoded 13 (encode_msgid 20 ++ encode_int 1000000 ++ 3 :: [65; 66; 67]) /\
  (MESSAGE_HEADER_SIZE + length (enc_out (command_encodef 96 ce args)) <= Nat.min 96 14)%nat.
Proof.
  intros ce args. split; [vm_compute; reflexivity|].
  refine (proj1 (command_encodef_bounds 96 ce args _ _)); cbn; unfold MESSAGE_MIN; lia.
Defined.

(** Framing a buffer whose payload area holds [out] yields the block around
    [out], and leaves the rest of the buffer alone. *)
Lemma command_add_frame_eq seq out buf :
  (length out + MESSAGE_MIN <= length buf)%nat ->
  command_add_frame seq (list_inserts MESSAGE_HEADER_SIZE out buf) (length out + MESSAGE_MIN)
  = frame seq out ++ drop (length out + MESSAGE_MIN) buf.
Proof.
  unfold MESSAGE_MIN, MESSAGE_HEADER_SIZE. intros Hl.
  destruct buf as [|b0 [|b1 tl]]; cbn [length] in Hl; [lia..|].
  rewrite <- (take_drop (length out) tl).
  assert (Hmid : length (take (length out) tl) = length out) by (rewrite length_take; lia).
  assert (Htl : (3 <= length (drop (length out) tl))%nat) by (rewrite length_drop; lia).
  set (mid := take (length out) tl) in *.
  destruct (drop (length out) tl) as [|t1 [|t2 [|t3 rest]]]; cbn [length] in Htl; [lia..|].
  assert (Hins : list_inserts 2 out (b0 :: b1 :: mid ++ t1 :: t2 :: t3 :: rest)
                 = b0 :: b1 :: out ++ t1 :: t2 :: t3 :: rest).
  { rewrite !list_inserts_cons. f_equal. f_equal. by rewrite list_inserts_0_r by lia. }
  rewrite Hins. unfold command_add_frame, MESSAGE_TRAILER_SIZE, MESSAGE_TRAILER_CRC,
    MESSAGE_TRAILER_SYNC, MESSAGE_POS_LEN, MESSAGE_POS_SEQ.
  cbn [insert list_insert].
  set (body := Z.of_nat (length out + 5) :: seq :: out).
  assert (Hb : length body = (length out + 2)%nat) by (unfold body; cbn; lia).
  change (Z.of_nat (length out + 5) :: seq :: out ++ ?l) with (body ++ l).
  replace (take (length out + 5 - 3) (body ++ t1 :: t2 :: t3 :: rest)) with body
    by (rewrite take_app_length'; [done|lia]).
  assert (Hi : forall i l x, <[(length body + i)%nat := x]> (body ++ l) = body ++ <[i := x]> l).
  { intros i l x. rewrite insert_app_r. done. }
  replace (length out + 5 - 3 + 0)%nat with (length body + 0)%nat by lia.
  replace (length out + 5 - 3 + 1)%nat with (length body + 1)%nat by lia.
  replace (length out + 5 - 1)%nat with (length body + 2)%nat by lia.
  rewrite !Hi. cbn [insert list_insert]. unfold frame, MESSAGE_MIN. fold body.
  rewrite <- app_assoc. f_equal. cbn [app]. f_equal. f_equal. f_equal.
  replace (length out + 5)%nat with (length body + 3)%nat by lia.
  change (b0 :: b1 :: mid ++ ?l) with ((b0 :: b1 :: mid) ++ l).
  rewrite drop_app_ge by (cbn; lia). replace (_ - _)%nat with 3%nat by (cbn; lia). done.
Qed.
