(* ===== verification/Msgblock.v ===== *)
(** * Host side of the wire protocol (klippy/chelper/msgblock.c)

    The host has its own copies of the checksum and of the VLQ routines; they
    are modelled separately here and proved equal to the firmware's, so that
    the two ends of the link can be composed. *)

From S2P Require Import Prelude Crc Vlq Command Double.

Module Host.
Definition crc_step (crc data : Z) : Z :=
  let data := Z.lxor data (Z.land crc 0xff) in
  let data := u8 (Z.lxor data (Z.shiftl data 4)) in
  u16 (Z.lxor (Z.lxor (Z.lor (Z.shiftl data 8) (Z.shiftr crc 8))
                      (Z.shiftr data 4))
              (Z.shiftl data 3)).
Definition msgblock_crc16_ccitt (buf : list Z) : Z := fold_left crc_step buf 0xffff.

Definition encode_int (v : Z) : list Z :=
  let sv := s32 v in
  let f4 := [Z.land v 0x7f] in
  let f3 := Z.lor (Z.land (Z.shiftr v 7) 0x7f) 0x80 :: f4 in
  let f2 := Z.lor (Z.land (Z.shiftr v 14) 0x7f) 0x80 :: f3 in
  let f1 := Z.lor (Z.land (Z.shiftr v 21) 0x7f) 0x80 :: f2 in
  if (sv <? Z.shiftl 3 5) && (- Z.shiftl 1 5 <=? sv) then f4
  else if (sv <? Z.shiftl 3 12) && (- Z.shiftl 1 12 <=? sv) then f3
  else if (sv <? Z.shiftl 3 19) && (- Z.shiftl 1 19 <=? sv) then f2
  else if (sv <? Z.shiftl 3 26) && (- Z.shiftl 1 26 <=? sv) then f1
  else Z.lor (Z.shiftr v 28) 0x80 :: f1.

Fixpoint parse_int_loop (l : list Z) (c v : Z) (p : nat) : option (Z * nat) :=
  if truthy (Z.land c 0x80) then
    match l with
    | [] => None
    | c :: l =>
      parse_int_loop l c (u32 (Z.lor (Z.shiftl v 7) (Z.land c 0x7f))) (S p)
    end
  else Some (v, p).

Definition parse_int (buf : list Z) (p : nat) : option (Z * nat) :=
  match drop p buf with
  | [] => None
  | c :: l =>
    let v := Z.land c 0x7f in
    let v := if Z.land c 0x60 =? 0x60 then u32 (Z.lor v (-0x20)) else v in
    parse_int_loop l c v (S p)
  end.
End Host.

(** Result of [msgblock_check]: the new [*need_sync] and the return value. *)
Definition msgblock_check (need_sync : bool) (buf : list Z) : bool * Z :=
  let buf_len := length buf in
  let error :=
    match memchr buf MESSAGE_SYNC with
    | Some next_sync => (false, - (Z.of_nat next_sync + 1))
    | None => (true, - Z.of_nat buf_len)
    end in
  if (buf_len <? MESSAGE_MIN)%nat then (need_sync, 0) else
  if need_sync then error else
  let msglen := Z.to_nat (buf !!! MESSAGE_POS_LEN) in
  if (msglen <? MESSAGE_MIN)%nat || (MESSAGE_MAX <? msglen)%nat then error else
  let msgseq := buf !!! MESSAGE_POS_SEQ in
  if negb (Z.land msgseq (Z.lnot MESSAGE_SEQ_MASK) =? MESSAGE_DEST) then error else
  if (buf_len <? msglen)%nat then (need_sync, 0) else
  if negb (buf !!! (msglen - MESSAGE_TRAILER_SYNC)%nat =? MESSAGE_SYNC) then error else
  let msgcrc := Z.lor (Z.shiftl (buf !!! (msglen - MESSAGE_TRAILER_CRC)%nat) 8)
                      (buf !!! (msglen - MESSAGE_TRAILER_CRC + 1)%nat) in
  let crc := Host.msgblock_crc16_ccitt (take (msglen - MESSAGE_TRAILER_SIZE) buf) in
  if negb (crc =? msgcrc) then error else (need_sync, Z.of_nat msglen).

(** The [while (data_len--)] loop of [msgblock_decode]; [None] is a read past
    the message, [Some None] the error return. *)
Fixpoint msgblock_decode_loop (data_len : nat) (msg : list Z) (pend p : nat)
    : option (option (list Z * nat)) :=
  match data_len with
  | O => Some (Some ([], p))
  | S data_len =>
    if (pend <=? p)%nat then Some None else
    match Host.parse_int msg p with
    | None => None
    | Some (v, p) =>
      match msgblock_decode_loop data_len msg pend p with
      | Some (Some (vs, p)) => Some (Some (v :: vs, p))
      | r => r
      end
    end
  end.

Definition msgblock_decode (data_len : nat) (msg : list Z) : option (option (list Z)) :=
  let pend := (length msg - MESSAGE_TRAILER_SIZE)%nat in
  match msgblock_decode_loop data_len msg pend MESSAGE_HEADER_SIZE with
  | Some (Some (vs, p)) => if negb (p =? pend)%nat then Some None else Some (Some vs)
  | Some None => Some None
  | None => None
  end.

(** The contents [message_alloc_and_encode] gives a [queue_message]; the loop
    gives up (leaving [len] zero) once [p] has passed the payload area. *)
Fixpoint message_encode_loop (data : list Z) (out : list Z) : option (list Z) :=
  match data with
  | [] => Some out
  | v :: data =>
    let out := out ++ Host.encode_int v in
    if (MESSAGE_PAYLOAD_MAX <? length out)%nat then None else message_encode_loop data out
  end.

Definition message_alloc_and_encode (data : list Z) : list Z :=
  default [] (message_encode_loop data []).

(** A [struct queue_message]; [len] is the length of [qm_msg].  The clocks and
    the times share storage in C: a message has the former while it waits to be
    sent and the latter once it is sent or received. *)
Record queue_message := mk_queue_message {
  qm_msg : list Z;
  qm_min_clock : Z;
  qm_req_clock : Z;
  qm_sent_time : double;
  qm_receive_time : double;
  qm_notify_id : Z }.
#[export] Instance eta_queue_message : Eta queue_message := fun m =>
  mk_queue_message (qm_msg m) (qm_min_clock m) (qm_req_clock m) (qm_sent_time m) (qm_receive_time m)
    (qm_notify_id m).
Definition qm_len (m : queue_message) : Z := Z.of_nat (length (qm_msg m)).

Definition message_alloc : queue_message := mk_queue_message [] 0 0 (of_Z 0) (of_Z 0) 0.
Definition message_fill (data : list Z) : queue_message := message_alloc <| qm_msg := data |>.

Record clock_estimate := mk_clock_estimate {
  conv_clock : Z;
  conv_time : double;
  est_freq : double }.

(** The (int64_t) conversions are undefined outside their range. *)
Definition clock_to_time (ce : clock_estimate) (clock : Z) : double :=
  (conv_time ce + of_Z (s64 (clock - conv_clock ce)) / est_freq ce)%D.
Definition clock_from_time (ce : clock_estimate) (time : double) : option Z :=
  match to_s64 ((time - conv_time ce) * est_freq ce + lit 1 2)%D with
  | Some d => Some (u64 (d + conv_clock ce))
  | None => None
  end.
Definition clock_fill (freq time : double) (clock : Z) : clock_estimate := mk_clock_estimate clock time freq.

Definition clock_from_clock32 (last_clock clock32 : Z) : Z :=
  u64 (last_clock + s32 (clock32 - last_clock)).

(** ** The two copies agree *)

Lemma host_crc_eq buf : Host.msgblock_crc16_ccitt buf = crc16_ccitt buf.
Proof. reflexivity. Qed.

Lemma host_encode_int_eq v : Host.encode_int v = encode_int v.
Proof. reflexivity. Qed.

Lemma host_parse_int_loop_eq l c v p : Host.parse_int_loop l c v p = parse_int_loop l c v p.
Proof. revert c v p. induction l as [|d l IH]; intros c v p; cbn; [done|]. by rewrite IH. Qed.

Lemma host_parse_int_eq buf p : Host.parse_int buf p = parse_int buf p.
Proof.
  unfold Host.parse_int, parse_int. destruct (drop p buf); [done|]. apply host_parse_int_loop_eq.
Qed.

(** ** Properties *)

(** The host recognises every block the firmware can build, at the front
    of whatever has been received, and reports exactly its length. *)
Lemma msgblock_check_frame seq payload rest :
  seq_byte seq -> (length payload <= MESSAGE_PAYLOAD_MAX)%nat ->
  msgblock_check false (frame seq payload ++ rest)
  = (false, Z.of_nat (length (frame seq payload))).
Proof.
  intros Hseq Hlen. unfold MESSAGE_PAYLOAD_MAX, MESSAGE_MAX, MESSAGE_MIN in Hlen.
  destruct (frame_fields seq payload rest) as (H0 & H1 & H2 & H3).
  unfold msgblock_check. cbv zeta.
  rewrite length_app, frame_length, H0, Nat2Z.id, H1, H2, H3.
  unfold MESSAGE_MIN, MESSAGE_MAX in *.
  rewrite (proj2 (Nat.ltb_ge _ _)) by lia.
  rewrite (proj2 (Nat.ltb_ge _ 5)), (proj2 (Nat.ltb_ge 64 _)) by lia. cbn [orb].
  rewrite seq_byte_dest, Z.eqb_refl by done. cbn [negb].
  rewrite (proj2 (Nat.ltb_ge (_ + _ + _) _)) by lia.
  by rewrite host_crc_eq, !Z.eqb_refl.
Qed.

Lemma decode_loop_ints vs pre post pend :
  Forall (fun v => 0 <= v < 0x100000000) vs ->
  let enc := concat (encode_int <$> vs) in
  (length pre + length enc <= pend)%nat ->
  msgblock_decode_loop (length vs) (pre ++ enc ++ post) pend (length pre)
  = Some (Some (vs, (length pre + length enc)%nat)).
Proof.
  intros Hvs enc. subst enc. revert pre.
  induction Hvs as [|v vs Hv Hvs IH]; intros pre Hp; cbn [length msgblock_decode_loop].
  { cbn in *. by rewrite Nat.add_0_r. }
  cbn [fmap list_fmap concat] in *. set (R := concat (encode_int <$> vs)) in *.
  pose proof (encode_int_length v Hv) as Hl. rewrite length_app in Hp.
  rewrite (proj2 (Nat.leb_gt _ _)) by lia.
  rewrite host_parse_int_eq, <- app_assoc, parse_int_encode by done.
  specialize (IH (pre ++ encode_int v)). rewrite !length_app, <- app_assoc in IH.
  rewrite IH by lia. by rewrite length_app, Nat.add_assoc.
Qed.

(** Decoding a received message of integers returns exactly the integers
    that were encoded in it. *)
Theorem msgblock_decode_ints seq vs :
  Forall (fun v => 0 <= v < 0x100000000) vs ->
  msgblock_decode (length vs) (frame seq (concat (encode_int <$> vs))) = Some (Some vs).
Proof.
  intros Hvs. unfold msgblock_decode. rewrite frame_length.
  set (payload := concat (encode_int <$> vs)).
  unfold frame. fold payload. set (crc := crc16_ccitt _).
  change ((?a :: seq :: payload) ++ ?t) with ([a; seq] ++ payload ++ t).
  set (hdr := [Z.of_nat (length payload + MESSAGE_MIN); seq]).
  replace (length payload + MESSAGE_MIN - MESSAGE_TRAILER_SIZE)%nat
    with (length hdr + length payload)%nat
    by (unfold MESSAGE_MIN, MESSAGE_TRAILER_SIZE; simpl; lia).
  change MESSAGE_HEADER_SIZE with (length hdr). unfold payload.
  rewrite decode_loop_ints by done. by rewrite Nat.eqb_refl.
Qed.

Lemma msgblock_decode_ints_witness :
  msgblock_decode 2 (frame 0x10 (concat (encode_int <$> [5; 0xffffff00])))
  = Some (Some [5; 0xffffff00]).
Proof. apply (msgblock_decode_ints 0x10 [5; 0xffffff00]). repeat constructor; lia. Defined.

(** A 32-bit clock sample extends to the right 64-bit clock whenever it
    was taken within 2^31 ticks of the reference, in either direction. *)
Theorem clock_from_clock32_exact last_clock clock :
  0 <= clock < 0x10000000000000000 ->
  - 0x80000000 <= clock - last_clock < 0x80000000 ->
  clock_from_clock32 last_clock (u32 clock) = clock.
Proof. intros Hc Hd. unfold clock_from_clock32. word. Qed.

Lemma clock_from_clock32_exact_witness :
  clock_from_clock32 0x1fffffff0 (u32 0x200000010) = 0x200000010.
Proof. apply (clock_from_clock32_exact 0x1fffffff0 0x200000010); lia. Defined.
