(* ===== verification/Clock.v ===== *)
(** * Timer arithmetic (src/generic/timer_irq.c)

    The 32-bit hardware clock wraps, so times are compared through the sign of
    their difference.  Inside any window of 2^31 ticks that comparison is the
    usual order on offsets from the start of the window. *)

From S2P Require Import Prelude.

Definition timer_from_us (CONFIG_CLOCK_FREQ us : Z) : Z :=
  u32 (us * (CONFIG_CLOCK_FREQ / 1000000)).

Definition timer_is_before (time1 time2 : Z) : bool := s32 (u32 (time1 - time2)) <? 0.

(** Offset of a time from the start of a window. *)
Definition key (base w : Z) : Z := u32 (w - base).

Definition in_window (base w : Z) : Prop := key base w < 0x80000000.
#[export] Instance in_window_dec base w : Decision (in_window base w).
Proof. unfold in_window. apply _. Defined.

Lemma key_nonneg base w : 0 <= key base w < 0x100000000.
Proof. apply u32_range. Qed.

Lemma timer_is_before_key base a b :
  in_window base a -> in_window base b ->
  timer_is_before a b = (key base a <? key base b).
Proof. unfold in_window, timer_is_before, key. intros Ha Hb. word. Qed.

(** A time half the clock range ahead of [p] is later than exactly the times
    of the window that are not before [p]. *)
Lemma timer_is_before_sentinel base w p :
  in_window base w -> in_window base p ->
  timer_is_before w (u32 (p + 0x80000000)) = (key base p <=? key base w).
Proof. unfold in_window, timer_is_before, key. intros Hw Hp. word. Qed.

Lemma timer_is_before_asym a b :
  s32 (a - b) <> -0x80000000 -> timer_is_before a b = true -> timer_is_before b a = false.
Proof. unfold timer_is_before. intros H. word. Qed.

Lemma timer_is_before_irrefl a : timer_is_before a a = false.
Proof. unfold timer_is_before. by rewrite Z.sub_diag. Qed.

(** Sliding the window forward past times that are over. *)
Lemma key_shift base d w :
  0 <= d <= key base w -> key (base + d) w = key base w - d.
Proof. unfold key. intros H. word. Qed.
