(* ===== verification/Python.v ===== *)
(** * What the Python code uses of its language

    Python integers are [Z], lists of byte values are [list Z], text is a string
    of ASCII characters, a dictionary is the list of its items in the order in
    which the keys were added, and an exception is a value of [res]. *)

From Stdlib Require Import Ascii String.
From S2P Require Import Prelude.

(** ** Values and exceptions *)

(** Integers, sequences of byte values ([bytes], lists, tuples) and text. *)
Inductive value : Type := PInt (v : Z) | PBytes (l : list Z) | PStr (s : string).

(** [error] of a module with its text, its subclass [enumeration_error], and all
    other exceptions. *)
Inductive exn : Type :=
| Error (msg : string)
| EnumerationError (enum_name : string) (v : value)
| PyError.
Inductive res (A : Type) : Type := Ok (a : A) | Raise (e : exn).
Arguments Ok {A}. Arguments Raise {A}.
#[export] Instance res_bind : MBind res := fun A B f m =>
  match m with Ok a => f a | Raise e => Raise e end.
#[export] Instance res_ret : MRet res := fun A => Ok.

(** The value of an expression that raises a Python error when it is absent. *)
Definition need {A} (o : option A) : res A := match o with Some a => Ok a | None => Raise PyError end.

(** Dictionaries keep the order in which their keys were added. *)
Section dict.
Context {K V : Type} `{EqDecision K}.
Fixpoint dget (k : K) (d : list (K * V)) : option V :=
  match d with
  | [] => None
  | (k', v) :: d => if decide (k' = k) then Some v else dget k d
  end.
Fixpoint dset (k : K) (v : V) (d : list (K * V)) : list (K * V) :=
  match d with
  | [] => [(k, v)]
  | (k', v') :: d => if decide (k' = k) then (k', v) :: d else (k', v') :: dset k v d
  end.
Definition dupdate (d l : list (K * V)) : list (K * V) := foldl (fun d kv => dset kv.1 kv.2 d) d l.
End dict.

Definition is_space (c : ascii) : bool :=
  let n := nat_of_ascii c in ((n =? 32)%nat || ((9 <=? n)%nat && (n <=? 13)%nat) || ((28 <=? n)%nat && (n <=? 31)%nat)).

(** [s.split()] *)
Fixpoint split_words (s : string) (word : string) : list string :=
  match s with
  | EmptyString => if decide (word = EmptyString) then [] else [word]
  | String c s =>
    if is_space c then (if decide (word = EmptyString) then [] else [word]) ++ split_words s EmptyString
    else split_words s (word +:+ String c EmptyString)
  end.
Definition split (s : string) : list string := split_words s EmptyString.

(** [s.split('=')] and [s.split('=', 1)] *)
Fixpoint split_at (sep : ascii) (limit : option nat) (s : string) (word : string) : list string :=
  match s with
  | EmptyString => [word]
  | String c s =>
    if decide (c = sep) then
      match limit with
      | Some O => split_at sep limit s (word +:+ String c EmptyString)
      | Some (S n) => word :: split_at sep (Some n) s EmptyString
      | None => word :: split_at sep None s EmptyString
      end
    else split_at sep limit s (word +:+ String c EmptyString)
  end.

Definition ends_with (s suffix : string) : bool :=
  bool_decide (substring (String.length s - String.length suffix) (String.length suffix) s = suffix) &&
  (String.length suffix <=? String.length s)%nat.

(** [int(value, base)]: digits with single underscores between them. *)
Definition digit_value (c : ascii) : Z :=
  let n := Z.of_nat (nat_of_ascii c) in
  if (48 <=? n) && (n <=? 57) then n - 48
  else if (97 <=? n) && (n <=? 122) then n - 87
  else if (65 <=? n) && (n <=? 90) then n - 55 else 99.
Fixpoint digits (base : Z) (s : string) (acc : Z) (after_digit : bool) : option Z :=
  match s with
  | EmptyString => if after_digit then Some acc else None
  | String c s =>
    if decide (c = "_"%char) then (if after_digit then digits base s acc false else None)
    else if digit_value c <? base then digits base s (acc * base + digit_value c) true else None
  end.
(** After the sign; base 0 takes the base from the prefix. *)
Definition int_digits (base : Z) (s : string) : option Z :=
  let after_prefix base s := match s with String "_" s => digits base s 0 false | _ => digits base s 0 false end in
  match s with
  | String "0" (String ("x" | "X") s') =>
    if (base =? 0) || (base =? 16) then after_prefix 16 s' else digits base s 0 false
  | String "0" (String ("o" | "O") s') => if base =? 0 then after_prefix 8 s' else digits base s 0 false
  | String "0" (String ("b" | "B") s') => if base =? 0 then after_prefix 2 s' else digits base s 0 false
  | String "0" _ =>
    if base =? 0 then (v ← digits 10 s 0 false; if v =? 0 then Some 0 else None) else digits base s 0 false
  | _ => digits (if base =? 0 then 10 else base) s 0 false
  end.
Definition py_int (base : Z) (s : string) : option Z :=
  match s with
  | String "-" s => Z.opp <$> int_digits base s
  | String "+" s => int_digits base s
  | _ => int_digits base s
  end.

(** [str(n)] for a natural number. *)
Fixpoint decimal (fuel : nat) (n : Z) (s : string) : string :=
  match fuel with
  | O => s
  | S fuel =>
    let s := String (ascii_of_nat (Z.to_nat (48 + n mod 10))) s in
    if n <? 10 then s else decimal fuel (n / 10) s
  end.
Definition str_of_int (n : Z) : string :=
  if n <? 0 then "-"%string +:+ decimal (Z.to_nat (Z.log2 (- n) + 1)) (- n) EmptyString
  else decimal (Z.to_nat (Z.log2 n + 1)) n EmptyString.

(** [s.split(None, n)]: the rest after [n] words keeps its trailing spaces. *)
Fixpoint lstrip (s : string) : string :=
  match s with
  | String c s' => if is_space c then lstrip s' else s
  | EmptyString => EmptyString
  end.
Fixpoint next_word (s : string) : string * string :=
  match s with
  | EmptyString => (EmptyString, EmptyString)
  | String c s' => if is_space c then (EmptyString, s) else let (w, r) := next_word s' in (String c w, r)
  end.
Fixpoint split_max (n : nat) (s : string) : list string :=
  let s := lstrip s in
  if decide (s = EmptyString) then [] else
  match n with
  | O => [s]
  | S n => let (w, r) := next_word s in w :: split_max n r
  end.

(** [s.replace(old, new)] for a non-empty [old]. *)
Fixpoint replace_loop (fuel : nat) (old new s : string) : string :=
  match fuel, s with
  | S fuel, String c s' =>
    if String.prefix old s then new +:+ replace_loop fuel old new (substring (String.length old) (String.length s) s)
    else String c (replace_loop fuel old new s')
  | _, _ => s
  end.
Definition replace (old new s : string) : string := replace_loop (String.length s) old new s.

(** [repr(bytes)] *)
Definition hex_digit (n : Z) : ascii := ascii_of_nat (Z.to_nat (if n <? 10 then 48 + n else 87 + n)).
Definition repr_byte (quote : Z) (c : Z) : string :=
  let chr n := String (ascii_of_nat (Z.to_nat n)) EmptyString in
  if (c =? quote) || (c =? 92) then chr 92 +:+ chr c
  else if c =? 9 then chr 92 +:+ "t"%string
  else if c =? 10 then chr 92 +:+ "n"%string
  else if c =? 13 then chr 92 +:+ "r"%string
  else if (c <? 32) || (127 <=? c) then
    chr 92 +:+ "x"%string +:+ String (hex_digit (c / 16)) (String (hex_digit (c mod 16)) EmptyString)
  else chr c.
Definition repr_bytes (l : list Z) : string :=
  let quote := if existsb (Z.eqb 39) l && negb (existsb (Z.eqb 34) l) then 34 else 39 in
  let q := String (ascii_of_nat (Z.to_nat quote)) EmptyString in
  "b"%string +:+ q +:+ foldr (fun c s => repr_byte quote c +:+ s) EmptyString l +:+ q.

Definition py_str (v : value) : string :=
  match v with PInt v => str_of_int v | PBytes l => repr_bytes l | PStr s => s end.

(** [fmt % args], for formats with no other conversions than [%s] and [%%]. *)
Fixpoint py_format (fmt : string) (args : list value) : res string :=
  match fmt with
  | EmptyString => match args with [] => Ok EmptyString | _ => Raise PyError end
  | String "%" (String "%" fmt) => r ← py_format fmt args; Ok (String "%" r)
  | String "%" (String "s" fmt) =>
    match args with
    | v :: args => r ← py_format fmt args; Ok (py_str v +:+ r)
    | [] => Raise PyError
    end
  | String "%" _ => Raise PyError
  | String c fmt => r ← py_format fmt args; Ok (String c r)
  end.

(** ** Dictionaries *)

Section dict_facts.
Context {K V : Type} `{EqDecision K}.
Implicit Types (k : K) (v : V) (d l : list (K * V)).

Lemma dget_dset k v d : dget k (dset k v d) = Some v.
Proof.
  induction d as [|[k' v'] d IH]; cbn; [by rewrite decide_True|].
  destruct (decide (k' = k)) as [->|Hne]; cbn; [by rewrite decide_True|by rewrite decide_False].
Qed.
Lemma dget_dset_ne k k' v d : k <> k' -> dget k (dset k' v d) = dget k d.
Proof.
  intros Hne. induction d as [|[k1 v1] d IH]; cbn; [by rewrite decide_False|].
  destruct (decide (k1 = k')) as [->|H1]; cbn; [by rewrite !decide_False|]. destruct (decide (k1 = k)); [done|apply IH].
Qed.
Lemma dget_elem k v d : dget k d = Some v -> (k, v) ∈ d.
Proof.
  induction d as [|[k' v'] d IH]; cbn; [done|]. destruct (decide (k' = k)) as [->|Hne]; intros H.
  - injection H as ->. by left.
  - right. by apply IH.
Qed.
Lemma dget_None k d : dget k d = None <-> k ∉ d.*1.
Proof.
  induction d as [|[k' v'] d IH]; cbn; [split; [by intros _ H%elem_of_nil|done]|].
  rewrite not_elem_of_cons. destruct (decide (k' = k)) as [->|Hne]; [split; [done|by intros [? _]]|]. rewrite IH. naive_solver.
Qed.
Lemma elem_dget k v d : NoDup d.*1 -> (k, v) ∈ d -> dget k d = Some v.
Proof.
  induction d as [|[k' v'] d IH]; cbn; [by intros _ H%elem_of_nil|].
  rewrite NoDup_cons, elem_of_cons. intros [Hn Hd] [[= -> ->]|Hin]; [by rewrite decide_True|].
  rewrite decide_False; [by apply IH|]. intros ->. apply Hn, list_elem_of_fmap. by exists (k, v).
Qed.
Lemma dset_keys k v d : (dset k v d).*1 = if decide (k ∈ d.*1) then d.*1 else d.*1 ++ [k].
Proof.
  induction d as [|[k' v'] d IH]; cbn; [by rewrite decide_False by (apply not_elem_of_nil)|].
  destruct (decide (k' = k)) as [->|Hne]; cbn; [rewrite decide_True; [done|by left]|].
  rewrite IH. destruct (decide (k ∈ d.*1)) as [Hi|Hi]; [rewrite decide_True; [done|by right]|].
  rewrite decide_False; [done|]. rewrite not_elem_of_cons. naive_solver.
Qed.
Lemma dset_nodup k v d : NoDup d.*1 -> NoDup (dset k v d).*1.
Proof.
  intros Hd. rewrite dset_keys. destruct (decide _); [done|]. apply NoDup_app. split; [done|].
  split; [|apply NoDup_singleton]. intros x Hx ->%list_elem_of_singleton. done.
Qed.
Lemma dset_fresh k v d : dget k d = None -> dset k v d = d ++ [(k, v)].
Proof.
  induction d as [|[k' v'] d IH]; cbn; [done|]. destruct (decide (k' = k)); [done|]. intros H. by rewrite IH.
Qed.
Lemma dset_elem x k v d : x ∈ dset k v d -> x = (k, v) \/ x ∈ d.
Proof.
  induction d as [|[k' v'] d IH]; cbn; [by intros ->%list_elem_of_singleton; left|].
  destruct (decide (k' = k)); rewrite !elem_of_cons; naive_solver.
Qed.

Lemma dget_dupdate k v d l : NoDup l.*1 -> (k, v) ∈ l -> dget k (dupdate d l) = Some v.
Proof.
  unfold dupdate. revert d. induction l as [|[k' v'] l IH] using rev_ind; intros d Hl Hin; [by apply elem_of_nil in Hin|].
  rewrite foldl_app. cbn. rewrite fmap_app in Hl. apply NoDup_app in Hl as (Hl & Hd & _).
  apply elem_of_app in Hin as [Hin|[= -> ->]%list_elem_of_singleton]; [|apply dget_dset].
  rewrite dget_dset_ne; [by apply IH|]. intros ->. apply (Hd k'); [|by left]. apply list_elem_of_fmap. by exists (k', v).
Qed.
Lemma dget_dupdate_ne k d l : k ∉ l.*1 -> dget k (dupdate d l) = dget k d.
Proof.
  unfold dupdate. revert d. induction l as [|[k' v'] l IH]; intros d Hk; [done|]. cbn in *.
  apply not_elem_of_cons in Hk as [Hne Hk]. rewrite IH by done. by apply dget_dset_ne.
Qed.
Lemma dupdate_nodup d l : NoDup d.*1 -> NoDup (dupdate d l).*1.
Proof. unfold dupdate. revert d. induction l as [|[k v] l IH]; intros d Hd; [done|]. by apply IH, dset_nodup. Qed.
Lemma dupdate_elem x d l : x ∈ dupdate d l -> x ∈ d \/ x ∈ l.
Proof.
  unfold dupdate. revert d. induction l as [|[k v] l IH]; intros d; [by left|]. cbn. intros [H|H]%IH; [|right; by right].
  apply dset_elem in H as [->|H]; [right; by left|by left].
Qed.
Lemma dupdate_fresh d l : NoDup l.*1 -> (forall k, k ∈ l.*1 -> k ∉ d.*1) -> dupdate d l = d ++ l.
Proof.
  unfold dupdate. revert d. induction l as [|[k v] l IH]; intros d Hl Hd; [by rewrite app_nil_r|]. cbn in *.
  apply NoDup_cons in Hl as [Hk Hl]. rewrite dset_fresh by (apply dget_None, Hd; by left).
  rewrite IH, <- app_assoc; [done..|]. intros k' Hk'. rewrite fmap_app, not_elem_of_app. split; [apply Hd; by right|].
  cbn. rewrite list_elem_of_singleton. by intros ->.
Qed.
End dict_facts.

(** ** Words *)

Lemma string_app_nil s : s +:+ EmptyString = s.
Proof. induction s as [|c s IH]; [done|]. exact (f_equal (String c) IH). Qed.
Lemma string_app_assoc s1 s2 s3 : (s1 +:+ s2) +:+ s3 = s1 +:+ s2 +:+ s3.
Proof. induction s1 as [|c s IH]; [done|]. exact (f_equal (String c) IH). Qed.

Definition one_word (w : string) : list string := if decide (w = EmptyString) then [] else [w].

Lemma split_words_next s acc :
  split_words s acc = one_word (acc +:+ (next_word s).1) ++ split (next_word s).2.
Proof.
  revert acc. induction s as [|c s IH]; intros acc; cbn [split_words next_word].
  - rewrite string_app_nil. unfold one_word. cbn. by rewrite app_nil_r.
  - destruct (is_space c) eqn:E.
    + cbn [fst snd]. rewrite string_app_nil. unfold split. cbn [split_words]. by rewrite E.
    + rewrite IH. destruct (next_word s) as [w r]. cbn [fst snd]. by rewrite string_app_assoc.
Qed.
Lemma split_lstrip s : split (lstrip s) = split s.
Proof.
  induction s as [|c s IH]; [done|]. cbn [lstrip]. destruct (is_space c) eqn:E; [|done].
  rewrite IH. unfold split at 2. cbn [split_words]. by rewrite E.
Qed.
Lemma lstrip_first s : lstrip s = EmptyString \/ exists c s', lstrip s = String c s' /\ is_space c = false.
Proof.
  induction s as [|c s IH]; [by left|]. cbn [lstrip]. destruct (is_space c) eqn:E; [done|]. right. by exists c, s.
Qed.

(** The rest after [n] words has the words from the [n]-th on. *)
Lemma split_max_words n s r : split_max n s !! n = Some r -> split r = drop n (split s).
Proof.
  revert s. induction n as [|n IH]; intros s; cbn [split_max]; rewrite <- (split_lstrip s);
    destruct (lstrip_first s) as [->|(c & s' & -> & Hc)]; rewrite ?decide_True, ?decide_False by done; try done.
  - cbn. by intros [= <-].
  - unfold split at 2. rewrite split_words_next. destruct (next_word (String c s')) as [w t] eqn:Ew. cbn [fst snd].
    intros H. cbn in H. apply IH in H. rewrite H. cbn [next_word] in Ew. rewrite Hc in Ew.
    destruct (next_word s') as [w' t']. by injection Ew as <- <-.
Qed.

(** A word has no spaces. *)
Fixpoint no_space (s : string) : bool := match s with EmptyString => true | String c s => negb (is_space c) && no_space s end.
Lemma no_space_app s1 s2 : no_space (s1 +:+ s2) = no_space s1 && no_space s2.
Proof. induction s1 as [|c s1 IH]; [done|]. change (negb (is_space c) && no_space (s1 +:+ s2) = (negb (is_space c) && no_space s1) && no_space s2). by rewrite IH, andb_assoc. Qed.
Lemma split_words_elem s acc w : no_space acc = true -> w ∈ split_words s acc -> no_space w = true /\ w <> EmptyString.
Proof.
  revert acc. induction s as [|c s IH]; intros acc Ha; cbn [split_words].
  - destruct (decide _); [by intros H%elem_of_nil|]. by intros ->%list_elem_of_singleton.
  - destruct (is_space c) eqn:E.
    + intros [H|H]%elem_of_app; [|by apply (IH EmptyString)]. destruct (decide _); [by apply elem_of_nil in H|].
      by apply list_elem_of_singleton in H as ->.
    + apply IH. rewrite no_space_app, Ha. cbn. by rewrite E.
Qed.
Lemma split_words_word w acc : no_space w = true -> split_words w acc = one_word (acc +:+ w).
Proof.
  revert acc. induction w as [|c w IH]; intros acc; cbn [no_space split_words]; [by rewrite string_app_nil|].
  destruct (is_space c); [done|]. cbn. intros H. by rewrite IH, string_app_assoc.
Qed.
Lemma split_word s w : w ∈ split s -> split w = [w].
Proof.
  intros H. apply split_words_elem in H as [Hs Hw]; [|done]. unfold split. rewrite split_words_word by done.
  unfold one_word. cbn. by rewrite decide_False.
Qed.
