(* ===== verification/Msgproto.v ===== *)
(** * The host's view of messages (klippy/msgproto.py)

    The Python code that encodes commands and parses responses, from the data
    dictionary that the firmware's build wrote. *)

From Stdlib Require Import Ascii String.
From S2P Require Import Prelude Python Crc Vlq Command Msgblock.

(** ** The checksum *)

Definition crc_byte (crc data : Z) : Z :=
  let data := Z.lxor data (Z.land crc 0xff) in
  let data := Z.lxor data (Z.shiftl (Z.land data 0x0f) 4) in
  Z.lxor (Z.lxor (Z.lor (Z.shiftl data 8) (Z.shiftr crc 8)) (Z.shiftr data 4)) (Z.shiftl data 3).
Definition py_crc16_ccitt (buf : list Z) : list Z :=
  let crc := fold_left crc_byte buf 0xffff in [Z.shiftr crc 8; Z.land crc 0xff].

(** ** Parameter types *)

(** [PT_uint32.encode], which the other integer types inherit. *)
Definition int_encode (v : Z) : list Z :=
  (if (0xc000000 <=? v) || (v <? -0x4000000) then [Z.lor (Z.land (Z.shiftr v 28) 0x7f) 0x80] else []) ++
  (if (0x180000 <=? v) || (v <? -0x80000) then [Z.lor (Z.land (Z.shiftr v 21) 0x7f) 0x80] else []) ++
  (if (0x3000 <=? v) || (v <? -0x1000) then [Z.lor (Z.land (Z.shiftr v 14) 0x7f) 0x80] else []) ++
  (if (0x60 <=? v) || (v <? -0x20) then [Z.lor (Z.land (Z.shiftr v 7) 0x7f) 0x80] else []) ++
  [Z.land v 0x7f].

(** The [while c & 0x80] loop on the unread bytes. *)
Fixpoint int_parse_loop (l : list Z) (c v : Z) (pos : nat) : res (Z * nat) :=
  if truthy (Z.land c 0x80) then
    match l with
    | [] => Raise PyError
    | c :: l => int_parse_loop l c (Z.lor (Z.shiftl v 7) (Z.land c 0x7f)) (S pos)
    end
  else Ok (v, pos).
Definition int_parse (signed : bool) (s : list Z) (pos : nat) : res (Z * nat) :=
  match drop pos s with
  | [] => Raise PyError
  | c :: l =>
    let v := Z.land c 0x7f in
    let v := if Z.land c 0x60 =? 0x60 then Z.lor v (-0x20) else v in
    '(v, pos) ← int_parse_loop l c v (S pos);
    Ok (if signed then v else Z.land v 0xffffffff, pos)
  end.

(** [PT_string.encode] and [PT_string.parse] *)
Definition string_encode (v : list Z) : res (list Z) :=
  if forallb (fun b => (0 <=? b) && (b <? 256)) v then Ok (Z.of_nat (length v) :: v) else Raise PyError.
Definition string_parse (s : list Z) (pos : nat) : res (list Z * nat) :=
  l ← need (s !! pos);
  let e := (pos + Z.to_nat l + 1)%nat in
  Ok (take (e - (pos + 1)) (drop (pos + 1) s), e).

(** Parameters and values; an enumeration has a plain type, and the names its
    values had when the message was defined. *)
Inductive host_type : Type :=
| Plain (t : param_type)
| Enumeration (t : param_type) (enum_name : string) (reverse_enums : list (Z * string)).

Definition is_int_type (t : param_type) : bool :=
  match t with PT_string | PT_progmem_buffer | PT_buffer => false | _ => true end.
Definition is_signed (t : param_type) : bool := match t with PT_int32 | PT_int16 => true | _ => false end.
Definition max_length (t : param_type) : Z :=
  match t with
  | PT_uint32 | PT_int32 => 5
  | PT_uint16 | PT_int16 => 3
  | PT_byte => 2
  | PT_string | PT_progmem_buffer | PT_buffer => 64
  end.
Definition is_int (t : host_type) : bool := match t with Plain t => is_int_type t | Enumeration _ _ _ => false end.
Definition is_dynamic_string (t : host_type) : bool :=
  match t with Plain t => negb (is_int_type t) | Enumeration _ _ _ => false end.

Definition enum_table := list (string * list (string * Z)).

Definition plain_encode (t : param_type) (v : value) : res (list Z) :=
  match v with
  | PInt v => if is_int_type t then Ok (int_encode v) else Raise PyError
  | PBytes l => if is_int_type t then Raise PyError else string_encode l
  | PStr _ => Raise PyError
  end.
Definition plain_parse (t : param_type) (s : list Z) (pos : nat) : res (value * nat) :=
  if is_int_type t then '(v, pos) ← int_parse (is_signed t) s pos; Ok (PInt v, pos)
  else '(l, pos) ← string_parse s pos; Ok (PBytes l, pos).

(** An enumeration's [enums] is the parser's own dictionary of that name. *)
Definition type_encode (enumerations : enum_table) (t : host_type) (v : value) : res (list Z) :=
  match t with
  | Plain t => plain_encode t v
  | Enumeration t name _ =>
    match v with
    | PStr s =>
      match dget s (default [] (dget name enumerations)) with
      | Some tv => plain_encode t (PInt tv)
      | None => Raise (EnumerationError name v)
      end
    | _ => Raise (EnumerationError name v)
    end
  end.
Definition type_parse (t : host_type) (s : list Z) (pos : nat) : res (value * nat) :=
  match t with
  | Plain t => plain_parse t s pos
  | Enumeration t _ reverse_enums =>
    '(v, pos) ← plain_parse t s pos;
    match v with
    | PInt v => Ok (PStr (default ("?"%string +:+ str_of_int v) (dget v reverse_enums)), pos)
    | _ => Raise PyError
    end
  end.

Definition MessageTypes : list (string * param_type) :=
  [("%u", PT_uint32); ("%i", PT_int32); ("%hu", PT_uint16); ("%hi", PT_int16); ("%c", PT_byte);
   ("%s", PT_string); ("%.*s", PT_progmem_buffer); ("%*s", PT_buffer)]%string.

(** ** Format strings *)

(** [{v: k for k, v in enums.items()}] *)
Definition reverse_of (enums : list (string * Z)) : list (Z * string) := dupdate [] ((fun kv => (kv.2, kv.1)) <$> enums).

Fixpoint find_enumeration (enumerations : enum_table) (name : string) (t : param_type) : host_type :=
  match enumerations with
  | [] => Plain t
  | (enum_name, enums) :: enumerations =>
    if bool_decide (name = enum_name) || ends_with name ("_"%string +:+ enum_name)
    then Enumeration t enum_name (reverse_of enums)
    else find_enumeration enumerations name t
  end.

Definition lookup_param (enumerations : enum_table) (arg : string) : res (string * host_type) :=
  match split_at "=" None arg EmptyString with
  | [name; fmt] => t ← need (dget fmt MessageTypes); Ok (name, find_enumeration enumerations name t)
  | _ => Raise PyError
  end.
Fixpoint mapM_res {A B} (f : A -> res B) (l : list A) : res (list B) :=
  match l with
  | [] => Ok []
  | x :: l => y ← f x; l ← mapM_res f l; Ok (y :: l)
  end.
Definition lookup_params (msgformat : string) (enumerations : enum_table) : res (list (string * host_type)) :=
  mapM_res (lookup_param enumerations) (tail (split msgformat)).

(** The first of [args[pos:pos+1]] .. [args[pos:pos+4]] that is a type. *)
Definition type_at (args : string) : option param_type :=
  foldr (fun n k => match dget (substring 0 n args) MessageTypes with Some t => Some t | None => k end)
    None [1%nat; 2%nat; 3%nat; 4%nat].
Fixpoint lookup_output_loop (msgformat args : string) : res (list param_type) :=
  match args with
  | EmptyString => Ok []
  | String c rest =>
    if decide (c = "%"%char) then
      if String.prefix "%" rest then lookup_output_loop msgformat rest
      else match type_at args with
           | Some t => l ← lookup_output_loop msgformat rest; Ok (t :: l)
           | None => Raise (Error ("Invalid output format for '"%string +:+ msgformat +:+ "'"%string))
           end
    else lookup_output_loop msgformat rest
  end.
Definition lookup_output_params (msgformat : string) : res (list param_type) := lookup_output_loop msgformat msgformat.

Definition convert_msg_format (msgformat : string) : string :=
  foldl (fun m c => replace c "%s" m) msgformat ["%u"; "%i"; "%hu"; "%hi"; "%c"; "%.*s"; "%*s"]%string.

(** ** Message formats *)

Definition params := list (string * value).

Record MessageFormat := mk_MessageFormat {
  mf_msgid_bytes : list Z;
  mf_msgformat : string;
  mf_debugformat : string;
  mf_name : string;
  mf_param_names : list (string * host_type) }.
Definition MessageFormat_init (msgid_bytes : list Z) (msgformat : string) (enumerations : enum_table)
    : res MessageFormat :=
  name ← need (head (split msgformat));
  param_names ← lookup_params msgformat enumerations;
  Ok (mk_MessageFormat msgid_bytes msgformat (convert_msg_format msgformat) name param_names).
Definition mf_param_types (mf : MessageFormat) : list host_type := (mf_param_names mf).*2.
Definition name_to_type (mf : MessageFormat) : list (string * host_type) := dupdate [] (mf_param_names mf).

Section formats.
(** The parser's enumerations when a message is encoded. *)
Context (enumerations : enum_table).

Fixpoint encode_params (ts : list host_type) (vs : list value) : res (list Z) :=
  match ts with
  | [] => Ok []
  | t :: ts =>
    v ← need (head vs);
    l ← type_encode enumerations t v;
    r ← encode_params ts (tail vs);
    Ok (l ++ r)
  end.
Definition encode (mf : MessageFormat) (vs : list value) : res (list Z) :=
  l ← encode_params (mf_param_types mf) vs; Ok (mf_msgid_bytes mf ++ l).

Fixpoint encode_named (ts : list (string * host_type)) (ps : params) : res (list Z) :=
  match ts with
  | [] => Ok []
  | (name, t) :: ts =>
    v ← need (dget name ps);
    l ← type_encode enumerations t v;
    r ← encode_named ts ps;
    Ok (l ++ r)
  end.
Definition encode_by_name (mf : MessageFormat) (ps : params) : res (list Z) :=
  l ← encode_named (mf_param_names mf) ps; Ok (mf_msgid_bytes mf ++ l).
End formats.

Fixpoint parse_named (ts : list (string * host_type)) (s : list Z) (pos : nat) (out : params) : res (params * nat) :=
  match ts with
  | [] => Ok (out, pos)
  | (name, t) :: ts => '(v, pos) ← type_parse t s pos; parse_named ts s pos (dset name v out)
  end.
Definition MessageFormat_parse (mf : MessageFormat) (s : list Z) (pos : nat) : res (params * nat) :=
  parse_named (mf_param_names mf) s (pos + length (mf_msgid_bytes mf)) [].

(** [repr(v)] of a dynamic string; other values are formatted as they are. *)
Definition shown (dynamic : bool) (v : value) : value := if dynamic then PStr (py_str v) else v.
Definition MessageFormat_format_params (mf : MessageFormat) (ps : params) : res string :=
  out ← mapM_res (fun '(name, t) => v ← need (dget name ps); Ok (shown (is_dynamic_string t) v)) (mf_param_names mf);
  py_format (mf_debugformat mf) out.

Record OutputFormat := mk_OutputFormat {
  of_msgid_bytes : list Z;
  of_msgformat : string;
  of_debugformat : string;
  of_param_types : list param_type }.
Definition OutputFormat_init (msgid_bytes : list Z) (msgformat : string) : res OutputFormat :=
  ts ← lookup_output_params msgformat; Ok (mk_OutputFormat msgid_bytes msgformat (convert_msg_format msgformat) ts).
Fixpoint parse_output (ts : list param_type) (s : list Z) (pos : nat) : res (list value * nat) :=
  match ts with
  | [] => Ok ([], pos)
  | t :: ts =>
    '(v, pos) ← plain_parse t s pos;
    '(l, pos) ← parse_output ts s pos;
    Ok (shown (negb (is_int_type t)) v :: l, pos)
  end.
Definition OutputFormat_parse (o : OutputFormat) (s : list Z) (pos : nat) : res (params * nat) :=
  '(out, pos) ← parse_output (of_param_types o) s (pos + length (of_msgid_bytes o));
  outmsg ← py_format (of_debugformat o) out;
  Ok ([("#msg"%string, PStr outmsg)], pos).

(** A message object of [messages_by_id], or [self.unknown]. *)
Inductive message : Type := Message (mf : MessageFormat) | Output (o : OutputFormat) | Unknown.
Definition message_name (m : message) : string :=
  match m with Message mf => mf_name mf | Output _ => "#output" | Unknown => "#unknown" end%string.
Definition UnknownFormat_parse (s : list Z) (pos : nat) : res (params * nat) :=
  '(msgid, _) ← int_parse true s pos;
  Ok ([("#msgid"%string, PInt msgid); ("#msg"%string, PBytes s)], (length s - MESSAGE_TRAILER_SIZE)%nat).
Definition message_parse (m : message) (s : list Z) (pos : nat) : res (params * nat) :=
  match m with
  | Message mf => MessageFormat_parse mf s pos
  | Output o => OutputFormat_parse o s pos
  | Unknown => UnknownFormat_parse s pos
  end.
Definition message_format_params (m : message) (ps : params) : res string :=
  match m with
  | Message mf => MessageFormat_format_params mf ps
  | Output _ => v ← need (dget "#msg"%string ps); Ok ("#output "%string +:+ py_str v)
  | Unknown => v ← need (dget "#msg"%string ps); Ok ("#unknown "%string +:+ py_str v)
  end.

(** ** The message parser *)

Inductive msgtype : Set := Response | Command_ | Output_.
#[export] Instance msgtype_eq_dec : EqDecision msgtype.
Proof. solve_decision. Defined.
Record MessageParser := mk_MessageParser {
  warn_prefix : string;
  enumerations : enum_table;
  messages : list (Z * msgtype * string);
  messages_by_id : list (Z * message);
  messages_by_name : list (string * MessageFormat);
  msgid_by_format : list (string * Z);
  config : params;
  kconfig : option params;
  version : string;
  build_versions : string;
  raw_identify_data : list Z }.
#[export] Instance eta_MessageParser : Eta MessageParser := fun p =>
  mk_MessageParser (warn_prefix p) (enumerations p) (messages p) (messages_by_id p) (messages_by_name p)
    (msgid_by_format p) (config p) (kconfig p) (version p) (build_versions p) (raw_identify_data p).

Definition error_ (p : MessageParser) {A} (msg : string) : res A := Raise (Error (warn_prefix p +:+ msg)).

Definition DefaultMessages : list (string * Z) :=
  [("identify_response offset=%u data=%.*s", 0); ("identify offset=%u count=%c", 1)]%string.

(** An exception leaves what was stored before it. *)
Definition msgtype_of (command_ids output_ids : list Z) (msgid : Z) : msgtype :=
  if bool_decide (msgid ∈ command_ids) then Command_
  else if bool_decide (msgid ∈ output_ids) then Output_ else Response.
Definition init_message (command_ids output_ids : list Z) (msgformat : string) (msgid : Z) (p : MessageParser)
    : MessageParser * res unit :=
  let t := msgtype_of command_ids output_ids msgid in
  let p := p <| messages ::= fun l => l ++ [(msgid, t, msgformat)] |> <| msgid_by_format ::= dset msgformat msgid |> in
  let msgid_bytes := int_encode msgid in
  match t with
  | Output_ =>
    match OutputFormat_init msgid_bytes msgformat with
    | Ok o => (p <| messages_by_id ::= dset msgid (Output o) |>, Ok tt)
    | Raise e => (p, Raise e)
    end
  | _ =>
    match MessageFormat_init msgid_bytes msgformat (enumerations p) with
    | Ok msg => (p <| messages_by_id ::= dset msgid (Message msg) |> <| messages_by_name ::= dset (mf_name msg) msg |>, Ok tt)
    | Raise e => (p, Raise e)
    end
  end.
Fixpoint init_messages (command_ids output_ids : list Z) (msgs : list (string * Z)) (p : MessageParser)
    : MessageParser * res unit :=
  match msgs with
  | [] => (p, Ok tt)
  | (msgformat, msgid) :: msgs =>
    match init_message command_ids output_ids msgformat msgid p with
    | (p, Ok _) => init_messages command_ids output_ids msgs p
    | (p, Raise e) => (p, Raise e)
    end
  end.
Definition MessageParser_init (warn_prefix : string) : MessageParser :=
  (init_messages [] [] DefaultMessages
    (mk_MessageParser warn_prefix [] [] [] [] [] [] None EmptyString EmptyString [])).1.

Definition check_packet (s : list Z) : Z :=
  if (length s <? MESSAGE_MIN)%nat then 0 else
  let msglen := s !!! MESSAGE_POS_LEN in
  if (msglen <? Z.of_nat MESSAGE_MIN) || (Z.of_nat MESSAGE_MAX <? msglen) then -1 else
  let msgseq := s !!! MESSAGE_POS_SEQ in
  if negb (Z.land msgseq (Z.lnot MESSAGE_SEQ_MASK) =? MESSAGE_DEST) then -1 else
  if Z.of_nat (length s) <? msglen then 0 else
  let n := Z.to_nat msglen in
  if negb (s !!! (n - MESSAGE_TRAILER_SYNC)%nat =? MESSAGE_SYNC) then -1 else
  let msgcrc := take 2 (drop (n - MESSAGE_TRAILER_CRC) s) in
  let crc := py_crc16_ccitt (take (n - MESSAGE_TRAILER_SIZE) s) in
  if negb (bool_decide (crc = msgcrc)) then -1 else msglen.

Definition message_at (p : MessageParser) (s : list Z) (pos : nat) : res message :=
  '(msgid, _) ← int_parse true s pos; Ok (default Unknown (dget msgid (messages_by_id p))).
Fixpoint dump_loop (fuel : nat) (p : MessageParser) (s : list Z) (pos : nat) : res (list string) :=
  match fuel with
  | O => Raise PyError
  | S fuel =>
    mid ← message_at p s pos;
    '(ps, pos) ← message_parse mid s pos;
    line ← message_format_params mid ps;
    if (length s - MESSAGE_TRAILER_SIZE <=? pos)%nat then Ok [line]
    else l ← dump_loop fuel p s pos; Ok (line :: l)
  end.
(** Every message takes a byte at least. *)
Definition dump (p : MessageParser) (s : list Z) : res (list string) :=
  msgseq ← need (s !! MESSAGE_POS_SEQ);
  let seq := String (hex_digit (msgseq / 16)) (String (hex_digit (msgseq mod 16)) EmptyString) in
  l ← dump_loop (length s) p s MESSAGE_HEADER_SIZE;
  Ok (("seq: "%string +:+ seq) :: l).

Definition parse (p : MessageParser) (s : list Z) : res params :=
  mid ← message_at p s MESSAGE_HEADER_SIZE;
  '(ps, pos) ← message_parse mid s MESSAGE_HEADER_SIZE;
  if negb (pos =? length s - MESSAGE_TRAILER_SIZE)%nat then error_ p "Extra data at end of message"
  else Ok (dset "#name"%string (PStr (message_name mid)) ps).

(** The checksum is appended as a list of its own. *)
Definition encode_msgblock (seq : Z) (cmd : list Z) : list (Z + list Z) :=
  let msglen := Z.of_nat (MESSAGE_MIN + length cmd) in
  let seq := Z.lor (Z.land seq MESSAGE_SEQ_MASK) MESSAGE_DEST in
  let out := msglen :: seq :: cmd in
  (inl <$> out) ++ [inr (py_crc16_ccitt out); inl MESSAGE_SYNC].

(** ** Commands as text *)

Fixpoint buffer_bytes (n : nat) (tval : Z) (out : list Z) : list Z :=
  match n with O => out | S n => buffer_bytes n (Z.shiftr tval 8) (Z.land tval 0xff :: out) end.
Definition parse_buffer (v : string) : res (list Z) :=
  if decide (v = EmptyString) then Ok [] else
  tval ← need (py_int 16 v); Ok (buffer_bytes (String.length v / 2) tval []).

Definition lookup_command (p : MessageParser) (msgformat : string) : res MessageFormat :=
  msgname ← need (head (split msgformat));
  match dget msgname (messages_by_name p) with
  | None => error_ p ("Unknown command: "%string +:+ msgname)
  | Some mp =>
    if decide (msgformat = mf_msgformat mp) then Ok mp
    else error_ p ("Command format mismatch: "%string +:+ msgformat +:+ " vs "%string +:+ mf_msgformat mp)
  end.
Definition lookup_msgid (p : MessageParser) (msgformat : string) : res Z :=
  match dget msgformat (msgid_by_format p) with
  | None => error_ p ("Unknown command: "%string +:+ msgformat)
  | Some msgid => Ok msgid
  end.

(** [except error: raise] and [except: self._error(msg)] *)
Definition or_error (p : MessageParser) (msg : string) {A} (r : res A) : res A :=
  match r with Raise PyError => error_ p msg | r => r end.

Definition split_arg (arg : string) : res (string * string) :=
  match split_at "=" (Some 1%nat) arg EmptyString with [name; v] => Ok (name, v) | _ => Raise PyError end.
Definition convert_arg (mp : MessageFormat) (arg : string * string) : res (string * value) :=
  t ← need (dget arg.1 (name_to_type mp));
  if is_dynamic_string t then (l ← parse_buffer arg.2; Ok (arg.1, PBytes l))
  else if is_int t then (v ← need (py_int 0 arg.2); Ok (arg.1, PInt v))
  else Ok (arg.1, PStr arg.2).
Definition create_command (p : MessageParser) (msg : string) : res (list Z) :=
  match split msg with
  | [] => Ok []
  | msgname :: parts =>
    match dget msgname (messages_by_name p) with
    | None => error_ p ("Unknown command: "%string +:+ msgname)
    | Some mp =>
      argparts ← or_error p ("Unable to extract params from: "%string +:+ msgname)
        (l ← mapM_res split_arg parts; mapM_res (convert_arg mp) (dupdate [] l));
      or_error p ("Unable to encode: "%string +:+ msgname) (encode_by_name (enumerations p) mp argparts)
    end
  end.

Definition dummy_params (mp : MessageFormat) (ps : params) : params :=
  foldl (fun ps '(name, t) =>
    match dget name ps with
    | Some _ => ps
    | None => dset name (if is_dynamic_string t then PBytes [] else PInt 0) ps
    end) (dupdate [] ps) (name_to_type mp).
Definition create_dummy_response (p : MessageParser) (msgname : string) (ps : params) : res params :=
  match dget msgname (messages_by_name p) with
  | None => error_ p ("Unknown response: "%string +:+ msgname)
  | Some mp =>
    msg ← or_error p ("Unable to encode: "%string +:+ msgname) (encode_by_name (enumerations p) mp (dummy_params mp ps));
    '(r, _) ← MessageFormat_parse mp msg 0;
    Ok (dset "#name"%string (PStr msgname) r)
  end.

(** ** The data dictionary *)

Inductive enum_value : Type := Simple (v : Z) | Range (start_value count : Z).

Definition is_digit (c : ascii) : bool := let n := nat_of_ascii c in (48 <=? n)%nat && (n <=? 57)%nat.
Fixpoint all_digits (s : string) : bool :=
  match s with EmptyString => true | String c s => is_digit c && all_digits s end.
(** The name without its trailing digits. *)
Fixpoint enum_root (s : string) : string :=
  match s with
  | EmptyString => EmptyString
  | String c s' => if all_digits s then EmptyString else String c (enum_root s')
  end.
Definition enum_items (enum : string) (v : enum_value) : list (string * Z) :=
  match v with
  | Simple v => [(enum, v)]
  | Range start_value count =>
    let root := enum_root enum in
    let number := substring (String.length root) (String.length enum) enum in
    let start_enum := default 0 (digits 10 number 0 false) in
    (fun i => (root +:+ str_of_int (start_enum + Z.of_nat i), start_value + Z.of_nat i)) <$> seq 0 (Z.to_nat count)
  end.
Definition fill_enumeration (add_enums : list (string * enum_value)) (enums : list (string * Z)) : list (string * Z) :=
  dupdate enums (add_enums ≫= fun '(enum, v) => enum_items enum v).
Definition fill_enumerations (add : list (string * list (string * enum_value))) (table : enum_table) : enum_table :=
  foldl (fun table '(name, add_enums) =>
    dset name (fill_enumeration add_enums (default [] (dget name table))) table) table add.

(** The dictionary as [json.loads] gives it; a missing entry is [None]. *)
Record data_dictionary := mk_data_dictionary {
  dd_enumerations : list (string * list (string * enum_value));
  dd_commands : option (list (string * Z));
  dd_responses : option (list (string * Z));
  dd_output : list (string * Z);
  dd_config : params;
  dd_kconfig : option params;
  dd_version : string;
  dd_build_versions : string }.

Section identify.
(** [zlib.decompress] and [json.loads] *)
Context (decompress : list Z -> res (list Z)) (loads : list Z -> res data_dictionary).

Definition identify_error (p : MessageParser) (e : exn) : res unit :=
  match e with PyError => error_ p "Error during identify: " | e => Raise e end.
(** The text of the exception that is appended to the last message is left out. *)
Definition process_identify (compressed : bool) (data : list Z) (p : MessageParser) : MessageParser * res unit :=
  match (if compressed then decompress data else Ok data) with
  | Raise e => (p, identify_error p e)
  | Ok data =>
    let p := p <| raw_identify_data := data |> in
    match loads data with
    | Raise e => (p, identify_error p e)
    | Ok d =>
      let p := p <| enumerations ::= fill_enumerations (dd_enumerations d) |> in
      match dd_commands d, dd_responses d with
      | Some commands, Some responses =>
        let all_messages := dupdate (dupdate (dupdate [] commands) responses) (dd_output d) in
        match init_messages commands.*2 (dd_output d).*2 all_messages p with
        | (p, Raise e) => (p, identify_error p e)
        | (p, Ok _) =>
          (p <| config ::= fun c => dupdate c (dd_config d) |> <| kconfig := dd_kconfig d |>
             <| version := dd_version d |> <| build_versions := dd_build_versions d |>, Ok tt)
        end
      | _, _ => (p, identify_error p PyError)
      end
    end
  end.
End identify.

(** ** Integers *)

Lemma int_loop_cont l c c' v p : byte c -> 0x80 <= c ->
  int_parse_loop (c' :: l) c v p = int_parse_loop l c' (v * 0x80 + c' mod 0x80) (S p).
Proof.
  intros Hc H. cbn [int_parse_loop]. rewrite truthy_land_80 by done. rewrite (proj2 (Z.leb_le 0x80 c)) by done.
  by rewrite land_7f, lor_add_shift by word.
Qed.
Lemma int_loop_stop l c v p : 0 <= c < 0x80 -> int_parse_loop l c v p = Ok (v, p).
Proof.
  intros Hc. destruct l; cbn [int_parse_loop]; rewrite truthy_land_80 by (unfold byte; lia);
    by rewrite (proj2 (Z.leb_gt 0x80 c)) by lia.
Qed.

Lemma int_first c : byte c ->
  (if Z.land c 0x60 =? 0x60 then Z.lor (Z.land c 0x7f) (-0x20) else Z.land c 0x7f)
  = (if 0x60 <=? c mod 0x80 then c mod 0x80 - 0x80 else c mod 0x80).
Proof.
  intros Hc. apply Z.eqb_eq. revert c Hc. unfold byte.
  apply (forall_below_spec 0x100 (fun c =>
    (if Z.land c 0x60 =? 0x60 then Z.lor (Z.land c 0x7f) (-0x20) else Z.land c 0x7f)
    =? (if 0x60 <=? c mod 0x80 then c mod 0x80 - 0x80 else c mod 0x80))).
  by vm_compute.
Qed.
Lemma int_parse_at signed pre c l : byte c ->
  int_parse signed (pre ++ c :: l) (length pre)
  = ('(v, pos) ← int_parse_loop l c (if 0x60 <=? c mod 0x80 then c mod 0x80 - 0x80 else c mod 0x80) (S (length pre));
     Ok (if signed then v else Z.land v 0xffffffff, pos)).
Proof. intros Hc. unfold int_parse. rewrite drop_app_length. by rewrite int_first. Qed.

(** The host reads unsigned numbers as the firmware does. *)
Lemma int_parse_loop_u32 l c v w p : u32 v = w ->
  match int_parse_loop l c v p with
  | Ok (v', p') => parse_int_loop l c w p = Some (u32 v', p')
  | Raise e => e = PyError /\ parse_int_loop l c w p = None
  end.
Proof.
  revert c v w p. induction l as [|c' l IH]; intros c v w p <-; cbn [int_parse_loop parse_int_loop];
    destruct (truthy _); try done.
  apply IH. rewrite vlq_digit. rewrite land_7f, lor_add_shift by word. change (2 ^ 7) with 0x80. word.
Qed.
Lemma int_parse_unsigned s pos : (forall c, s !! pos = Some c -> byte c) ->
  int_parse false s pos = match parse_int s pos with Some r => Ok r | None => Raise PyError end.
Proof.
  intros Hs. unfold int_parse, parse_int. destruct (drop pos s) as [|c l] eqn:E; [done|].
  assert (Hc : byte c).
  { apply Hs. by rewrite <- (Nat.add_0_r pos), <- lookup_drop, E. }
  rewrite parse_int_first, int_first by done.
  pose proof (int_parse_loop_u32 l c (if 0x60 <=? c mod 0x80 then c mod 0x80 - 0x80 else c mod 0x80)
    (if 0x60 <=? c mod 0x80 then u32 (c mod 0x80 - 0x80) else c mod 0x80) (S pos)) as H.
  specialize (H ltac:(destruct (_ <=? _); [done|word])).
  destruct (int_parse_loop _ _ _ _) as [[v p']|e]; cbn.
  - rewrite H. change 0xffffffff with (Z.ones 32). by rewrite Z.land_ones.
  - by destruct H as [-> ->].
Qed.

(** [int_encode] as a choice between the five lengths. *)
Lemma int_encode_cases v :
  (-32 <= v < 96 /\ int_encode v = [v mod 0x80]) \/
  (-4096 <= v < 12288 /\ int_encode v = [vlq_cont v 128; v mod 0x80]) \/
  (-524288 <= v < 1572864 /\ int_encode v = [vlq_cont v 16384; vlq_cont v 128; v mod 0x80]) \/
  (-67108864 <= v < 201326592 /\
     int_encode v = [vlq_cont v 2097152; vlq_cont v 16384; vlq_cont v 128; v mod 0x80]) \/
  (~ -67108864 <= v < 201326592 /\
     int_encode v = [vlq_cont v 268435456; vlq_cont v 2097152; vlq_cont v 16384; vlq_cont v 128; v mod 0x80]).
Proof.
  unfold int_encode. rewrite !vlq_cont_eq, land_7f by lia.
  assert (B : forall a b, (b <=? v) || (v <? a) = negb ((a <=? v) && (v <? b))) by lia. rewrite !B. clear B.
  destruct ((-0x4000000 <=? v) && _) eqn:E1, ((-0x80000 <=? v) && _) eqn:E2, ((-0x1000 <=? v) && _) eqn:E3,
    ((-0x20 <=? v) && _) eqn:E4; cbn [negb app]; try lia.
  - left. split; [lia|done].
  - right; left. split; [lia|done].
  - do 2 right; left. split; [lia|done].
  - do 3 right; left. split; [lia|done].
  - do 4 right. split; [lia|done].
Qed.

(** What the host makes of the bytes of [int_encode]: the number itself, up to
    32 bits. *)
Lemma int_parse_encode pre rest v : exists w,
  int_parse true (pre ++ int_encode v ++ rest) (length pre) = Ok (w, (length pre + length (int_encode v))%nat) /\
  u32 w = u32 v /\ (-67108864 <= v < 201326592 -> w = v).
Proof.
  destruct (int_encode_cases v) as [[Hr E]|[[Hr E]|[[Hr E]|[[Hr E]|[Hr E]]]]]; rewrite E; cbn [app]; eexists.
  all: rewrite int_parse_at by (apply vlq_cont_byte || (unfold byte; word)).
  all: repeat rewrite int_loop_cont by (apply vlq_cont_byte || (unfold byte; word)).
  all: rewrite int_loop_stop by word.
  all: rewrite ?vlq_cont_mod; cbn [mbind res_bind length].
  all: split; [f_equal; f_equal; lia|].
  all: match goal with |- context [if ?b then _ else _] => destruct b eqn:Hb end.
  all: rewrite ?Z.leb_le, ?Z.leb_gt in Hb; (split; [|intros Hv; try lia]); word.
Qed.

Lemma int_encode_bytes v : bytes (int_encode v).
Proof.
  destruct (int_encode_cases v) as [[_ E]|[[_ E]|[[_ E]|[[_ E]|[_ E]]]]]; rewrite E;
    repeat constructor; try apply vlq_cont_byte; word.
Qed.
Lemma int_encode_length v : (1 <= length (int_encode v) <= 5)%nat.
Proof. destruct (int_encode_cases v) as [[_ E]|[[_ E]|[[_ E]|[[_ E]|[_ E]]]]]; rewrite E; cbn; lia. Qed.

Lemma byte_at pre l rest : l <> [] -> bytes l -> forall c, (pre ++ l ++ rest) !! length pre = Some c -> byte c.
Proof.
  intros Hne Hl c. rewrite lookup_app_r, Nat.sub_diag by lia. destruct l as [|x l]; [done|]. cbn. intros [= <-].
  by apply Forall_inv in Hl.
Qed.

(** The firmware reads what the host writes. *)
Lemma parse_int_host pre rest v :
  parse_int (pre ++ int_encode v ++ rest) (length pre) = Some (u32 v, (length pre + length (int_encode v))%nat).
Proof.
  destruct (int_parse_encode pre rest v) as (w & E & Hw & _).
  pose proof (int_parse_unsigned (pre ++ int_encode v ++ rest) (length pre)) as H.
  rewrite <- Hw. unfold int_parse in E, H. destruct (drop _ _) eqn:Ed; [done|]. cbn zeta in E, H.
  destruct (int_parse_loop _ _ _ _) as [[w' p']|]; cbn in E, H; [|done]. injection E as -> ->.
  assert (Hb : forall c, (pre ++ int_encode v ++ rest) !! length pre = Some c -> byte c).
  { apply byte_at; [|apply int_encode_bytes]. pose proof (int_encode_length v) as L. by destruct (int_encode v); cbn in L; [lia|]. }
  specialize (H Hb). destruct (parse_int _ _) as [[a b]|]; [|done]. injection H as <- <-.
  change 0xffffffff with (Z.ones 32). by rewrite Z.land_ones.
Qed.

(** The host reads what the firmware writes: an unsigned number exactly, a signed
    one when it is at least [-(1<<26)]; a smaller one is taken for unsigned. *)
Definition signed_value (v : Z) : Z := if s32 v <? -67108864 then u32 v else s32 v.
Lemma int_parse_firmware signed pre rest v : 0 <= v < 0x100000000 ->
  int_parse signed (pre ++ encode_int v ++ rest) (length pre)
  = Ok (if signed then signed_value v else v, (length pre + length (encode_int v))%nat).
Proof.
  intros Hv. destruct signed.
  - unfold signed_value.
    destruct (encode_int_cases v Hv) as [[Hr E]|[[Hr E]|[[Hr E]|[[Hr E]|[Hr E]]]]]; rewrite E; cbn [app].
    all: rewrite int_parse_at by (apply vlq_cont_byte || (unfold byte; word)).
    all: repeat rewrite int_loop_cont by (apply vlq_cont_byte || (unfold byte; word)).
    all: rewrite int_loop_stop by word.
    all: rewrite ?vlq_cont_mod; cbn [mbind res_bind length]; f_equal; f_equal; [|lia].
    all: match goal with |- context [if 0x60 <=? ?b then _ else _] => destruct (Z.leb_spec 0x60 b) end.
    all: destruct (Z.ltb_spec (s32 v) (-67108864)); word.
  - rewrite int_parse_unsigned; [by rewrite parse_int_encode|]. apply byte_at; [|by apply encode_int_bytes].
    pose proof (encode_int_length v Hv) as L. by destruct (encode_int v); cbn in L; [lia|].
Qed.

(** C39: Signed numbers far below zero are misread.  For every number below
    [-(1<<26)] the firmware's five bytes are not sign extended by the host: a
    parameter of type [%i], as the position of a stepper, is reported as the
    number plus 2^32. *)
Theorem signed_response_misread pre rest v : -0x80000000 <= v < -0x4000000 ->
  int_parse true (pre ++ encode_int (u32 v) ++ rest) (length pre)
  = Ok (v + 0x100000000, (length pre + length (encode_int (u32 v)))%nat).
Proof.
  intros Hv. rewrite int_parse_firmware by word. unfold signed_value. do 2 f_equal.
  assert (s32 (u32 v) = v) as -> by word. destruct (Z.ltb_spec v (-67108864)); word.
Qed.
Lemma signed_response_misread_witness :
  int_parse true ([0x10] ++ encode_int (u32 (-70000000)) ++ [0x7e]) 1 = Ok (4224967296, 6%nat).
Proof. apply (signed_response_misread [0x10] [0x7e] (-70000000)). lia. Defined.

(** A percent sign cannot be written in an output format: the second one of a pair
    is taken for the start of a parameter. *)
Lemma escaped_percent_rejected : lookup_output_params "100%% done" = Raise (Error "Invalid output format for '100%% done'").
Proof. reflexivity. Qed.

(** ** The checksum and the block scanner are those of the C code *)

Lemma crc_byte_eq crc data : 0 <= crc < 0x10000 -> byte data -> crc_byte crc data = crc_update crc data.
Proof.
  intros Hc Hd. unfold crc_byte, crc_update. assert (H1 : byte (Z.lxor data (Z.land crc 0xff))).
  { apply (lxor_range _ _ 8); [lia|done|]. change 0xff with (Z.ones 8). rewrite Z.land_ones by lia. apply Z.mod_pos_bound. lia. }
  set (d := Z.lxor data (Z.land crc 0xff)) in *. cbv zeta.
  assert (E : Z.lxor d (Z.shiftl (Z.land d 0x0f) 4) = u8 (Z.lxor d (Z.shiftl d 4))).
  { apply Z.eqb_eq. revert d H1. unfold byte.
    apply (forall_below_spec 0x100 (fun d => Z.lxor d (Z.shiftl (Z.land d 0x0f) 4) =? u8 (Z.lxor d (Z.shiftl d 4)))). by vm_compute. }
  rewrite E. assert (He : 0 <= u8 (Z.lxor d (Z.shiftl d 4)) < 0x100) by apply u8_range. set (e := u8 _) in *. clearbody e. unfold u16. symmetry. apply Z.mod_small.
  assert (Hs : 0 <= Z.shiftr crc 8 < 2 ^ 8) by (rewrite Z.shiftr_div_pow2 by lia; word).
  rewrite lor_add_shift by lia. change 0x10000 with (2 ^ 16).
  apply (lxor_range _ _ 16); [lia| |rewrite Z.shiftl_mul_pow2; lia]. apply (lxor_range _ _ 16); [lia|lia|].
  rewrite Z.shiftr_div_pow2 by lia. word.
Qed.
Lemma py_crc_eq buf : bytes buf -> py_crc16_ccitt buf = [Z.shiftr (crc16_ccitt buf) 8; u8 (crc16_ccitt buf)].
Proof.
  intros Hb. unfold py_crc16_ccitt, crc16_ccitt. change (u8 ?x) with (x mod 2 ^ 8).
  assert (E : forall c, 0 <= c < 0x10000 -> fold_left crc_byte buf c = fold_left crc_update buf c).
  { induction Hb as [|d buf Hd Hb IH]; intros c Hc; [done|]. cbn [fold_left]. rewrite crc_byte_eq by done. apply IH, crc_update_range. }
  rewrite E by lia. change 0xff with (Z.ones 8). by rewrite Z.land_ones by lia.
Qed.

Lemma ltb_to_nat m n : 0 <= m -> (Z.to_nat m <? n)%nat = (m <? Z.of_nat n).
Proof. intros. destruct (Nat.ltb_spec (Z.to_nat m) n), (Z.ltb_spec m (Z.of_nat n)); lia. Qed.
Lemma ltb_of_nat m n : 0 <= m -> (n <? Z.to_nat m)%nat = (Z.of_nat n <? m).
Proof. intros. destruct (Nat.ltb_spec n (Z.to_nat m)), (Z.ltb_spec (Z.of_nat n) m); lia. Qed.

(** [check_packet] finds the same blocks as [msgblock_check], but does not say how
    many bytes to skip. *)
Lemma check_packet_msgblock s : bytes s ->
  check_packet s = let r := (msgblock_check false s).2 in if r <? 0 then -1 else r.
Proof.
  intros Hs. unfold check_packet, msgblock_check. cbv zeta. destruct (Nat.ltb_spec (length s) MESSAGE_MIN) as [|Hl]; [done|].
  assert (Hneg : (match memchr s MESSAGE_SYNC with Some n => (false, - (Z.of_nat n + 1)) | None => (true, - Z.of_nat (length s)) end).2 <? 0 = true).
  { unfold MESSAGE_MIN in Hl. apply Z.ltb_lt. destruct (memchr s MESSAGE_SYNC); cbn [snd]; lia. }
  assert (Hm : byte (s !!! MESSAGE_POS_LEN)) by (apply (Forall_lookup_total_1 byte); [done|]; unfold MESSAGE_MIN, MESSAGE_POS_LEN in *; lia).
  set (m := s !!! MESSAGE_POS_LEN) in *. unfold byte in Hm.
  rewrite !ltb_to_nat, !ltb_of_nat by lia.
  destruct (_ || _) eqn:Er; [by rewrite Hneg|]. destruct (negb _) ; [by rewrite Hneg|].
  destruct (Z.ltb_spec (Z.of_nat (length s)) m) as [|Hle]; [done|]. destruct (negb _); [by rewrite Hneg|].
  rewrite py_crc_eq by (by apply Forall_take). change (Host.msgblock_crc16_ccitt ?x) with (crc16_ccitt x).
  apply orb_false_iff in Er as [Er%Z.ltb_ge _]. set (n := Z.to_nat m) in *. set (crc := crc16_ccitt _). assert (Hc : 0 <= crc < 0x10000) by apply crc16_range.
  assert (Hn : (5 <= n <= length s)%nat) by (unfold n, MESSAGE_MIN in *; lia). unfold MESSAGE_TRAILER_CRC in *.
  assert (Hx : forall i, (i < length s)%nat -> byte (s !!! i)) by (intros i Hi; by apply (Forall_lookup_total_1 byte)).
  assert (Hd : take 2 (drop (n - 3) s) = [s !!! (n - 3)%nat; s !!! (n - 3 + 1)%nat]).
  { rewrite (drop_S s (s !!! (n - 3)%nat)), (drop_S s (s !!! (n - 3 + 1)%nat)) by (rewrite ?Nat.add_1_r; apply list_lookup_lookup_total_lt; lia).
    done. }
  rewrite Hd. pose proof (Hx (n - 3)%nat ltac:(lia)) as B1. pose proof (Hx (n - 3 + 1)%nat ltac:(lia)) as B2.
  set (b1 := s !!! (n - 3)%nat) in *. set (b2 := s !!! (n - 3 + 1)%nat) in *. rewrite lor_add_shift by (unfold byte in B2; lia).
  assert (Hq : bool_decide ([Z.shiftr crc 8; u8 crc] = [b1; b2]) = (crc =? b1 * 2 ^ 8 + b2)).
  { rewrite Z.shiftr_div_pow2 by lia. unfold byte in *. destruct (Z.eqb_spec crc (b1 * 2 ^ 8 + b2)).
    - apply bool_decide_eq_true. f_equal; [|f_equal]; word.
    - apply bool_decide_eq_false. intros [= E1 E2]. word. }
  rewrite Hq. destruct (negb _); [by rewrite Hneg|]. cbn [snd]. rewrite (proj2 (Z.ltb_ge _ _)) by lia. lia.
Qed.
