(* ===== verification/Buildcommands.v ===== *)
(** * Build time requests (scripts/buildcommands.py)

    The script that collects the declarations of the C code, numbers the messages,
    generates the tables of the firmware and writes the data dictionary for the
    host.  The generated C code is modelled by the values it defines. *)

From Stdlib Require Import Ascii String.
From S2P Require Import Prelude Python Vlq Command Msgproto.

Definition exit_error {A} (msg : string) : res A := Raise (Error msg).

(** ** Enumerations and static strings *)

Definition STATIC_STRING_MIN : Z := 2.
Record HandleEnumerations := mk_HandleEnumerations {
  static_strings : list string;
  he_enumerations : list (string * list (string * enum_value)) }.
#[export] Instance eta_HandleEnumerations : Eta HandleEnumerations := fun h =>
  mk_HandleEnumerations (static_strings h) (he_enumerations h).
#[export] Instance enum_value_eq_dec : EqDecision enum_value.
Proof. solve_decision. Defined.

Definition add_enumeration (enum name : string) (v : enum_value) (h : HandleEnumerations) : res HandleEnumerations :=
  let enums := default [] (dget enum (he_enumerations h)) in
  match dget name enums with
  | Some v' => if decide (v' = v) then Ok (h <| he_enumerations ::= dset enum (dset name v enums) |>)
               else exit_error ("Conflicting definition for enumeration '"%string +:+ enum +:+ " "%string +:+ name +:+ "'"%string)
  | None => Ok (h <| he_enumerations ::= dset enum (dset name v enums) |>)
  end.
Definition decl_enumeration (req : string) (h : HandleEnumerations) : res HandleEnumerations :=
  match tail (split req) with
  | [enum; name; v] => v ← need (py_int 0 v); add_enumeration enum name (Simple v) h
  | _ => Raise PyError
  end.
Definition decl_enumeration_range (req : string) (h : HandleEnumerations) : res HandleEnumerations :=
  match tail (split req) with
  | [enum; name; v; count] =>
    v ← need (py_int 0 v); count ← need (py_int 0 count); add_enumeration enum name (Range v count) h
  | _ => Raise PyError
  end.
Definition decl_static_str (req : string) (h : HandleEnumerations) : res HandleEnumerations :=
  msg ← need (split_max 1 req !! 1%nat);
  Ok (if bool_decide (msg ∈ static_strings h) then h else h <| static_strings ::= fun l => l ++ [msg] |>).

(** [update_data_dictionary]: the strings from number [i] on. *)
Fixpoint add_static_strings (i : Z) (l : list string) (h : HandleEnumerations) : res HandleEnumerations :=
  match l with
  | [] => Ok h
  | s :: l => h ← add_enumeration "static_string_id" s (Simple (i + STATIC_STRING_MIN)) h; add_static_strings (i + 1) l h
  end.
Definition enumerations_dictionary (h : HandleEnumerations) : res (list (string * list (string * enum_value))) :=
  h ← add_static_strings 0 (static_strings h) h; Ok (he_enumerations h).

(** The generated [ctr_lookup_static_string]. *)
Fixpoint lookup_static_string (i : Z) (l : list string) (str : string) : Z :=
  match l with
  | [] => 0xff
  | s :: l => if decide (str = s) then u8 (i + STATIC_STRING_MIN) else lookup_static_string (i + 1) l str
  end.
Definition ctr_lookup_static_string (h : HandleEnumerations) (str : string) : Z :=
  lookup_static_string 0 (static_strings h) str.

(** ** Commands and responses *)

Record HandleCommandGeneration := mk_HandleCommandGeneration {
  commands : list (string * (string * string));  (* name to function and flags *)
  encoders : list (option string * string);
  msg_to_encid : list (string * Z);
  encid_to_msgid : list (Z * Z);
  by_name : list (string * string);              (* messages_by_name *)
  all_param_types : list (list param_type * nat) }.
#[export] Instance eta_HandleCommandGeneration : Eta HandleCommandGeneration := fun g =>
  mk_HandleCommandGeneration (commands g) (encoders g) (msg_to_encid g) (encid_to_msgid g) (by_name g) (all_param_types g).
#[export] Instance param_type_eq_dec : EqDecision param_type.
Proof. solve_decision. Defined.

Definition first_word (m : string) : string := default EmptyString (head (split m)).
Definition generation_init : HandleCommandGeneration :=
  mk_HandleCommandGeneration [] [] DefaultMessages [] (dupdate [] ((fun m => (first_word m.1, m.1)) <$> DefaultMessages)) [].

Definition conflicts (g : HandleCommandGeneration) (msgname msg : string) : bool :=
  match dget msgname (by_name g) with Some m => negb (bool_decide (m = msg)) | None => false end.

Definition decl_command (req : string) (g : HandleCommandGeneration) : res HandleCommandGeneration :=
  match take 3 (tail (split req)) with
  | [funcname; flags; msgname] =>
    match dget msgname (commands g) with
    | Some _ => exit_error ("Multiple definitions for command '"%string +:+ msgname +:+ "'"%string)
    | None =>
      let g := g <| commands ::= dset msgname (funcname, flags) |> in
      msg ← need (split_max 3 req !! 3%nat);
      if conflicts g msgname msg then exit_error ("Conflicting definition for command '"%string +:+ msgname +:+ "'"%string)
      else Ok (g <| by_name ::= dset msgname msg |>)
    end
  | _ => Raise PyError
  end.
Definition decl_encoder (req : string) (g : HandleCommandGeneration) : res HandleCommandGeneration :=
  msg ← need (split_max 1 req !! 1%nat);
  msgname ← need (head (split msg));
  if conflicts g msgname msg then exit_error ("Conflicting definition for message '"%string +:+ msgname +:+ "'"%string)
  else Ok (g <| by_name ::= dset msgname msg |> <| encoders ::= fun l => l ++ [(Some msgname, msg)] |>).
Definition decl_output (req : string) (g : HandleCommandGeneration) : res HandleCommandGeneration :=
  msg ← need (split_max 1 req !! 1%nat);
  Ok (g <| encoders ::= fun l => l ++ [(None, msg)] |>).

Definition convert_encoded_msgid (encoded_msgid : Z) : res Z :=
  let data := if 0x80 <=? encoded_msgid then [Z.lor (Z.shiftr encoded_msgid 7) 0x80; Z.land encoded_msgid 0x7f]
              else [encoded_msgid] in
  r ← int_parse true data 0; Ok r.1.

Definition msg_of (g : HandleCommandGeneration) (msgname : string) : string := default msgname (dget msgname (by_name g)).
Definition assign_id (g : HandleCommandGeneration) (s : list (string * Z) * Z) (msgname : string) : list (string * Z) * Z :=
  let msg := msg_of g msgname in
  match dget msg s.1 with
  | Some _ => s
  | None => (dset msg (s.2 + 1) s.1, s.2 + 1)
  end.
(** [max(self.msg_to_encid.values())] *)
Definition max_values (d : list (string * Z)) : Z := foldr Z.max 0 d.*2.
Definition create_message_ids (g : HandleCommandGeneration) : res HandleCommandGeneration :=
  let mlist := (commands g).*1 ++ (encoders g).*2 in
  let (ids, encoded_msgid) := foldl (assign_id g) (msg_to_encid g, max_values (msg_to_encid g)) mlist in
  if 2 ^ 14 <=? encoded_msgid then exit_error "Too many message ids" else
  l ← mapM_res (fun encid => m ← convert_encoded_msgid encid; Ok (encid, m)) ids.*2;
  Ok (g <| msg_to_encid := ids |> <| encid_to_msgid := dupdate [] l |>).

(** What [update_data_dictionary] stores: the commands, the responses and the
    output messages. *)
Definition messages_dictionary (g : HandleCommandGeneration)
    : res (list (string * Z) * list (string * Z) * list (string * Z)) :=
  msg_to_msgid ← mapM_res (fun m => msgid ← need (dget m.2 (encid_to_msgid g)); Ok (m.1, msgid)) (msg_to_encid g);
  let is_command m := bool_decide (is_Some (dget m.1 (commands g))) in
  let ids_of (l : list (string * string)) := mapM_res (fun m => need (dget m.2 msg_to_msgid)) l in
  command_ids ← ids_of (filter (fun m => is_command m = true) (by_name g));
  response_ids ← ids_of (filter (fun m => is_command m = false) (by_name g));
  Ok (filter (fun m => m.2 ∈ command_ids) msg_to_msgid,
      filter (fun m => m.2 ∈ response_ids) msg_to_msgid,
      filter (fun m => m.2 ∉ command_ids /\ m.2 ∉ response_ids) msg_to_msgid).

(** A generated [command_encoder] or [command_parser] names the array of its
    parameter types; [None] is no array. *)
Record parser_code := mk_parser_code {
  pc_encoded_msgid : Z;
  pc_num_params : nat;
  pc_param_types : option nat }.

Definition find_params (types : list param_type) (g : HandleCommandGeneration) : HandleCommandGeneration * option nat :=
  if decide (types = []) then (g, None) else
  match dget types (all_param_types g) with
  | Some paramid => (g, Some paramid)
  | None =>
    let paramid := length (all_param_types g) in
    (g <| all_param_types ::= dset types paramid |>, Some paramid)
  end.
Definition types_of (t : host_type) : param_type := match t with Plain t | Enumeration t _ _ => t end.
(** [output] is the message type "output". *)
Definition param_types_of (output : bool) (msgformat : string) : res (list param_type) :=
  if output then lookup_output_params msgformat
  else (l ← lookup_params msgformat []; Ok (types_of <$> l.*2)).
Definition build_parser (encoded_msgid : Z) (types : list param_type) (g : HandleCommandGeneration)
    : HandleCommandGeneration * parser_code :=
  let (g, params) := find_params types g in
  (g, mk_parser_code encoded_msgid (length types) params).

(** The members [max_size] and [min_size] of an encoder. *)
Definition msgid_size (encoded_msgid : Z) : Z := if 0x80 <=? encoded_msgid then 2 else 1.
Definition max_size (encoded_msgid : Z) (types : list param_type) : Z :=
  Z.min (Z.of_nat MESSAGE_MAX) (Z.of_nat MESSAGE_MIN + msgid_size encoded_msgid + foldr Z.add 0 (max_length <$> types)).
Definition min_size (encoded_msgid : Z) (types : list param_type) : Z :=
  Z.min (Z.of_nat MESSAGE_MAX) (Z.of_nat MESSAGE_MIN + msgid_size encoded_msgid + Z.of_nat (length types)).
(** The member [num_args] of a parser. *)
Definition count_args (types : list param_type) : nat :=
  length types + length (filter (fun t => t = PT_progmem_buffer) types) + length (filter (fun t => t = PT_buffer) types).

Record encoder_code := mk_encoder_code { ec_code : parser_code; ec_max_size : Z; ec_min_size : Z }.
Definition encoder_table := list (string * encoder_code).

(** The loop of [generate_responses_code]: the messages [ctr_lookup_encoder] and
    [ctr_lookup_output] compare with, and their encoders. *)
Fixpoint generate_responses (l : list (option string * string)) (did_output : list Z) (g : HandleCommandGeneration)
    : res (HandleCommandGeneration * encoder_table * encoder_table) :=
  match l with
  | [] => Ok (g, [], [])
  | (msgname, msg) :: l =>
    encoded_msgid ← need (dget msg (msg_to_encid g));
    if bool_decide (encoded_msgid ∈ did_output) then generate_responses l did_output g else
    let output := bool_decide (msgname = None) in
    types ← param_types_of output msg;
    _ ← need (dget encoded_msgid (encid_to_msgid g));
    let (g, code) := build_parser encoded_msgid types g in
    let enc := mk_encoder_code code (max_size encoded_msgid types) (min_size encoded_msgid types) in
    '(g, encs, outs) ← generate_responses l (encoded_msgid :: did_output) g;
    Ok (if output then (g, encs, (msg, enc) :: outs) else (g, (msg, enc) :: encs, outs))
  end.
Definition generate_responses_code (g : HandleCommandGeneration)
    : res (HandleCommandGeneration * encoder_table * encoder_table) := generate_responses (encoders g) [] g.

(** An entry of [command_index]: the parser, its flags and its function. *)
Record index_entry := mk_index_entry { ie_code : parser_code; ie_num_args : nat; ie_flags : string; ie_func : string }.
Definition cmd_by_encid (g : HandleCommandGeneration) : res (list (Z * (string * (string * string)))) :=
  l ← mapM_res (fun c => encid ← need (dget (msg_of g c.1) (msg_to_encid g)); Ok (encid, c)) (commands g);
  Ok (dupdate [] l).
Fixpoint generate_index (l : list Z) (cmds : list (Z * (string * (string * string)))) (g : HandleCommandGeneration)
    : res (HandleCommandGeneration * list (option index_entry)) :=
  match l with
  | [] => Ok (g, [])
  | encoded_msgid :: l =>
    match dget encoded_msgid cmds with
    | None => '(g, index) ← generate_index l cmds g; Ok (g, None :: index)
    | Some (msgname, (funcname, flags)) =>
      msg ← need (dget msgname (by_name g));
      types ← param_types_of false msg;
      _ ← need (dget encoded_msgid (encid_to_msgid g));
      let (g, code) := build_parser encoded_msgid types g in
      '(g, index) ← generate_index l cmds g;
      Ok (g, Some (mk_index_entry code (count_args types) flags funcname) :: index)
    end
  end.
Definition generate_commands_code (g : HandleCommandGeneration)
    : res (HandleCommandGeneration * list (option index_entry)) :=
  cmds ← cmd_by_encid g;
  if decide (cmds = []) then Raise PyError else
  let max_cmd_encid := foldr Z.max 0 cmds.*1 in
  generate_index (Z.of_nat <$> seq 0 (Z.to_nat (max_cmd_encid + 1))) cmds g.

(** The tables of the firmware. *)
Record firmware := mk_firmware {
  fw_encoders : encoder_table;
  fw_outputs : encoder_table;
  fw_index : list (option index_entry);
  fw_params : list (list param_type * nat) }.
Definition generate_code (g : HandleCommandGeneration) : res (HandleCommandGeneration * firmware) :=
  g ← create_message_ids g;
  '(g, encs, outs) ← generate_responses_code g;
  '(g, index) ← generate_commands_code g;
  Ok (g, mk_firmware encs outs index (all_param_types g)).

(** [command_parameters<paramid>] of [generate_param_code]. *)
Definition param_array (fw : firmware) (paramid : nat) : list param_type :=
  match list_find (fun a => a.2 = paramid) (fw_params fw) with Some (_, a) => a.1 | None => [] end.
Definition code_types (fw : firmware) (c : parser_code) : list param_type :=
  match pc_param_types c with Some paramid => take (pc_num_params c) (param_array fw paramid) | None => [] end.
Definition encoder_of (fw : firmware) (e : encoder_code) : command_encoder :=
  mk_command_encoder (pc_encoded_msgid (ec_code e)) (Z.to_nat (ec_max_size e)) (Z.to_nat (ec_min_size e))
    (code_types fw (ec_code e)).

(** [command_index]; [flag_value] is the value of the flags in C.  An entry
    without initialiser is zero. *)
Definition command_index (flag_value : string -> Z) (fw : firmware) (id : Z) : command_parser :=
  match fw_index fw !! Z.to_nat id with
  | Some (Some e) =>
    mk_command_parser (pc_encoded_msgid (ie_code e)) (ie_num_args e) (flag_value (ie_flags e)) (code_types fw (ie_code e))
  | _ => mk_command_parser 0 0 0 []
  end.
Definition command_index_size (fw : firmware) : Z := Z.of_nat (length (fw_index fw)).
Definition index_func (fw : firmware) (id : Z) : string :=
  match fw_index fw !! Z.to_nat id with Some (Some e) => ie_func e | _ => EmptyString end.

(** ** Message ids *)

(** The id the host uses for the encoded id: one or two digits, sign extended. *)
Definition msgid_of (encid : Z) : Z :=
  if (0x60 <=? encid) && (encid <? 0x80) then encid - 0x80 else if 0x3000 <=? encid then encid - 0x4000 else encid.

Lemma msgid_of_range encid : 0 <= encid < 0x3fe0 -> -4096 <= msgid_of encid < 12288.
Proof. unfold msgid_of. intros H. destruct (_ && _) eqn:E, (0x3000 <=? encid) eqn:E'; lia. Qed.
Lemma msgid_of_inj a b : 0 <= a < 0x3fe0 -> 0 <= b < 0x3fe0 -> msgid_of a = msgid_of b -> a = b.
Proof.
  unfold msgid_of. intros Ha Hb. destruct (_ && (a <? _)) eqn:E, (0x3000 <=? a) eqn:E', (_ && (b <? _)) eqn:F,
    (0x3000 <=? b) eqn:F'; lia.
Qed.
Lemma encode_msgid_host encid : 0 <= encid < 0x3fe0 ->
  convert_encoded_msgid encid = Ok (msgid_of encid) /\ int_encode (msgid_of encid) = encode_msgid encid.
Proof.
  intros H. assert (E : (match convert_encoded_msgid encid with Ok m => m =? msgid_of encid | Raise _ => false end) &&
    bool_decide (int_encode (msgid_of encid) = encode_msgid encid) = true).
  { revert encid H. apply (forall_below_spec 0x3fe0 (fun encid =>
      (match convert_encoded_msgid encid with Ok m => m =? msgid_of encid | Raise _ => false end) &&
      bool_decide (int_encode (msgid_of encid) = encode_msgid encid))). by vm_compute. }
  apply andb_true_iff in E as [E1 E2%bool_decide_eq_true]. split; [|done].
  destruct (convert_encoded_msgid encid); [|done]. by apply Z.eqb_eq in E1 as ->.
Qed.

(** From 0x3fe0 on, an id is also the one of a shorter encoding. *)
Lemma msgids_collide : convert_encoded_msgid 0x3fe0 = convert_encoded_msgid 0x60.
Proof. reflexivity. Qed.

(** ** Declarations *)

Inductive declared : HandleCommandGeneration -> Prop :=
| declared_init : declared generation_init
| declared_command req g g' : declared g -> decl_command req g = Ok g' -> declared g'
| declared_encoder req g g' : declared g -> decl_encoder req g = Ok g' -> declared g'
| declared_output req g g' : declared g -> decl_output req g = Ok g' -> declared g'.

Record names_ok (g : HandleCommandGeneration) : Prop := {
  do_names : NoDup (by_name g).*1;
  do_first n m : dget n (by_name g) = Some m -> head (split m) = Some n;
  do_source n m : dget n (by_name g) = Some m -> m ∈ DefaultMessages.*1 \/ n ∈ (commands g).*1 \/ (Some n, m) ∈ encoders g;
  do_default m : m ∈ DefaultMessages.*1 -> dget (first_word m) (by_name g) = Some m;
  do_commands : NoDup (commands g).*1;
  do_command n : n ∈ (commands g).*1 -> is_Some (dget n (by_name g));
  do_encoder n m : (Some n, m) ∈ encoders g -> dget n (by_name g) = Some m }.

Lemma conflicts_false g n m : conflicts g n m = false -> dget n (by_name g) = None \/ dget n (by_name g) = Some m.
Proof.
  unfold conflicts. destruct (dget n (by_name g)) as [m'|]; [|by left]. right. f_equal.
  apply negb_false_iff, bool_decide_eq_true in H. done.
Qed.
Lemma bind_Ok {A B} (m : res A) (f : A -> res B) b : m ≫= f = Ok b -> exists a, m = Ok a /\ f a = Ok b.
Proof. destruct m as [a|]; [|done]. intros H. by exists a. Qed.
Lemma need_Ok {A} (o : option A) a : need o = Ok a -> o = Some a.
Proof. destruct o; [|done]. by intros [= ->]. Qed.

(** Adding a message under its name. *)
Lemma declare_ok g g' n m :
  names_ok g -> conflicts g n m = false -> head (split m) = Some n -> by_name g' = dset n m (by_name g) ->
  (commands g).*1 ⊆ (commands g').*1 -> encoders g ⊆ encoders g' ->
  n ∈ (commands g').*1 \/ (Some n, m) ∈ encoders g' ->
  (forall n', n' ∈ (commands g').*1 -> n' = n \/ n' ∈ (commands g).*1) ->
  (forall n' m', (Some n', m') ∈ encoders g' -> (n', m') = (n, m) \/ (Some n', m') ∈ encoders g) ->
  NoDup (commands g').*1 -> names_ok g'.
Proof.
  intros [D1 D2 D3 D4 D5 D6 D7] Hc Hm Hb Hcs Hes Hin Hcs' Hes' Hn. apply conflicts_false in Hc.
  assert (G : forall n', dget n' (by_name g') = if decide (n' = n) then Some m else dget n' (by_name g)).
  { intros n'. rewrite Hb. destruct (decide _) as [->|Hne]; [apply dget_dset|by apply dget_dset_ne]. }
  split.
  - rewrite Hb. by apply dset_nodup.
  - intros n' m'. rewrite G. destruct (decide _) as [->|]; [by intros [= <-]|apply D2].
  - intros n' m'. rewrite G. destruct (decide _) as [->|]; [intros [= <-]; by right|].
    intros [?|[?|?]]%D3; [by left|right; left; by apply Hcs|right; right; by apply Hes].
  - intros m' Hm'. rewrite G. specialize (D4 m' Hm'). destruct (decide _) as [E|]; [|done]. rewrite E in D4. destruct Hc; congruence.
  - done.
  - intros n' Hn'. rewrite G. destruct (decide _); [done|]. apply D6. by destruct (Hcs' n' Hn').
  - intros n' m' Hn'. rewrite G. destruct (Hes' n' m' Hn') as [[= -> ->]|He]; [by rewrite decide_True|].
    apply D7 in He as He'. destruct (decide _) as [->|]; [|done]. destruct Hc; congruence.
Qed.

Lemma declared_names_ok g : declared g -> names_ok g.
Proof.
  induction 1 as [|req g g' _ IH E|req g g' _ IH E|req g g' _ IH E].
  - assert (H : forall n m, dget n (by_name generation_init) = Some m -> (n, m) ∈ by_name generation_init) by (intros; by apply dget_elem).
    split; try done.
    + change (NoDup ["identify_response"; "identify"]%string). by apply (bool_decide_unpack _).
    + intros n m [[= -> ->]|[[= -> ->]|[]%elem_of_nil]%elem_of_cons]%H%elem_of_cons; done.
    + intros n m [[= -> ->]|[[= -> ->]|[]%elem_of_nil]%elem_of_cons]%H%elem_of_cons; left; by apply (bool_decide_unpack _).
    + intros m [->|[->|[]%elem_of_nil]%elem_of_cons]%elem_of_cons; done.
    + constructor.
    + by intros n []%elem_of_nil.
    + by intros n m []%elem_of_nil.
  - unfold decl_command in E. destruct (take 3 _) as [|fn [|fl [|n [|]]]] eqn:Et; try done.
    destruct (dget n (commands g)) eqn:En; [done|]. apply bind_Ok in E as (m & Em%need_Ok & E).
    destruct (conflicts _ n m) eqn:Ec; [done|]. injection E as <-.
    pose proof (dset_keys n (fn, fl) (commands g)) as K. rewrite decide_False in K by (by apply dget_None).
    eapply (declare_ok g _ n m); [done|exact Ec|..]; cbn; try done.
    + apply split_max_words in Em. rewrite Em. destruct (split req) as [|w1 [|w2 [|w3 [|w4 l]]]]; try done.
      by injection Et as -> -> ->.
    + rewrite K. set_solver.
    + left. rewrite K. set_solver.
    + intros n'. rewrite K. set_solver.
    + naive_solver.
    + apply dset_nodup, IH.
  - unfold decl_encoder in E. apply bind_Ok in E as (m & Em%need_Ok & E). apply bind_Ok in E as (n & En%need_Ok & E).
    destruct (conflicts _ n m) eqn:Ec; [done|]. injection E as <-.
    eapply (declare_ok g _ n m); [done|exact Ec|..]; cbn; try done.
    + set_solver.
    + set_solver.
    + set_solver.
    + intros n' m'. rewrite elem_of_app, list_elem_of_singleton. naive_solver.
    + apply IH.
  - unfold decl_output in E. apply bind_Ok in E as (m & Em & E). injection E as <-. destruct IH. split; try done; cbn.
    + intros n m' [?|[?|?]]%do_source0; set_solver.
    + intros n m' [H|H%list_elem_of_singleton]%elem_of_app; [by apply do_encoder0|done].
Qed.

Lemma declared_tables g : declared g -> msg_to_encid g = DefaultMessages /\ all_param_types g = [].
Proof.
  induction 1 as [|req g g' _ IH E|req g g' _ IH E|req g g' _ IH E]; [done|..].
  - unfold decl_command in E. destruct (take 3 _) as [|fn [|fl [|n [|]]]]; try done.
    destruct (dget n (commands g)); [done|]. apply bind_Ok in E as (m & _ & E). destruct (conflicts _ n m); [done|]. by injection E as <-.
  - unfold decl_encoder in E. apply bind_Ok in E as (m & _ & E). apply bind_Ok in E as (n & _ & E).
    destruct (conflicts _ n m); [done|]. by injection E as <-.
  - unfold decl_output in E. apply bind_Ok in E as (m & _ & E). by injection E as <-.
Qed.

(** A name that is also a message is the message of that name. *)
Lemma msg_of_encoder g n m : names_ok g -> (Some n, m) ∈ encoders g -> msg_of g m = m.
Proof.
  intros Hg He%(do_encoder g Hg). unfold msg_of. destruct (dget m (by_name g)) as [m'|] eqn:E; [|done]. cbn.
  apply (do_first g Hg) in E as E'. apply (do_first g Hg) in He as E2.
  assert (Hm : split m = [m]). { apply (split_word m'). destruct (split m'); [done|]. injection E' as ->. by left. }
  rewrite Hm in E2. injection E2 as ->. congruence.
Qed.

(** ** Numbering *)

Record ids_ok (ids : list (string * Z)) : Prop := {
  io_keys : NoDup ids.*1;
  io_values : ids.*2 = Z.of_nat <$> seq 0 (length ids) }.

Lemma ids_ok_value ids m i : ids_ok ids -> dget m ids = Some i -> 0 <= i < Z.of_nat (length ids).
Proof.
  intros H E%dget_elem. assert (Hi : i ∈ ids.*2) by (apply list_elem_of_fmap; by exists (m, i)).
  rewrite (io_values _ H) in Hi. apply list_elem_of_fmap in Hi as (k & -> & Hk). apply elem_of_seq in Hk. lia.
Qed.
Lemma ids_ok_nodup ids : ids_ok ids -> NoDup ids.*2.
Proof. intros H. rewrite (io_values _ H). apply NoDup_fmap_2; [|apply NoDup_seq]. intros ? ?. lia. Qed.

Lemma assign_id_ok g ids n m ids' n' :
  ids_ok ids -> n + 1 = Z.of_nat (length ids) -> assign_id g (ids, n) m = (ids', n') ->
  ids_ok ids' /\ n' + 1 = Z.of_nat (length ids') /\ is_Some (dget (msg_of g m) ids') /\
  (forall k v, dget k ids = Some v -> dget k ids' = Some v) /\
  (forall k, k ∈ ids'.*1 -> k ∈ ids.*1 \/ k = msg_of g m).
Proof.
  unfold assign_id. cbn. intros [K V] Hn. destruct (dget (msg_of g m) ids) as [i|] eqn:E; intros [= <- <-].
  { split_and!; try done. intros; by left. }
  rewrite dset_fresh by done. split_and!.
  - split; [rewrite <- (dset_fresh (msg_of g m) (n + 1)) by done; by apply dset_nodup|].
    rewrite fmap_app, V, length_app, Nat.add_1_r, seq_S, fmap_app. cbn. f_equal. f_equal. lia.
  - rewrite length_app. cbn. lia.
  - rewrite <- (dset_fresh (msg_of g m) (n + 1)) by done. rewrite dget_dset. by eexists.
  - intros k v Hk. rewrite <- (dset_fresh (msg_of g m) (n + 1)) by done. rewrite dget_dset_ne; [done|]. congruence.
  - intros k. rewrite fmap_app. intros [?|?%list_elem_of_singleton]%elem_of_app; auto.
Qed.
Lemma assign_ids_ok g l ids n ids' n' :
  ids_ok ids -> n + 1 = Z.of_nat (length ids) -> foldl (assign_id g) (ids, n) l = (ids', n') ->
  ids_ok ids' /\ n' + 1 = Z.of_nat (length ids') /\ (forall m, m ∈ l -> is_Some (dget (msg_of g m) ids')) /\
  (forall k v, dget k ids = Some v -> dget k ids' = Some v) /\
  (forall k, k ∈ ids'.*1 -> k ∈ ids.*1 \/ exists m, m ∈ l /\ k = msg_of g m).
Proof.
  revert ids n. induction l as [|m l IH]; intros ids n Hok Hn; cbn [foldl].
  { intros [= <- <-]. split_and!; try done; [by intros m []%elem_of_nil|by left]. }
  destruct (assign_id g (ids, n) m) as [ids1 n1] eqn:E. apply assign_id_ok in E as (H1 & H2 & H3 & H4 & H5); [|done..].
  intros Ef. apply IH in Ef as (K1 & K2 & K3 & K4 & K5); [|done..]. split_and!; try done.
  - intros m' [->|Hm]%elem_of_cons; [|by apply K3]. destruct H3 as [v Hv]. exists v. by apply K4.
  - auto.
  - intros k [[?|?]%H5|(m' & ? & ?)]%K5; [by left|right; exists m; set_solver|right; exists m'; set_solver].
Qed.

Lemma mapM_Ok {A B} (f : A -> res B) l l' : mapM_res f l = Ok l' <-> Forall2 (fun x y => f x = Ok y) l l'.
Proof.
  revert l'. induction l as [|x l IH]; intros l'; cbn; [split; [by intros [= <-]; constructor|by inversion_clear 1]|]. split.
  - intros (y & Hy & (l1 & Hl & [= <-])%bind_Ok)%bind_Ok. constructor; [done|by apply IH].
  - inversion_clear 1 as [|? y ? l1 Hy Hl]. apply IH in Hl. rewrite Hy. cbn. by rewrite Hl.
Qed.

Lemma fmap_fst_pair {A B} (f : A -> B) l : ((fun x => (x, f x)) <$> l).*1 = l.
Proof. induction l as [|x l IH]; cbn; [done|]. by rewrite IH. Qed.

Record numbered (g : HandleCommandGeneration) : Prop := {
  nb_names : names_ok g;
  nb_ids : ids_ok (msg_to_encid g);
  nb_small i : i ∈ (msg_to_encid g).*2 -> 0 <= i < 0x3fe0;
  nb_default m i : (m, i) ∈ DefaultMessages -> dget m (msg_to_encid g) = Some i;
  nb_named n m : dget n (by_name g) = Some m -> is_Some (dget m (msg_to_encid g));
  nb_convert i : i ∈ (msg_to_encid g).*2 -> dget i (encid_to_msgid g) = Some (msgid_of i) }.

Lemma create_message_ids_ok g g' : declared g -> create_message_ids g = Ok g' ->
  Z.of_nat (length (msg_to_encid g')) <= 0x3fe0 ->
  numbered g' /\ by_name g' = by_name g /\ commands g' = commands g /\ encoders g' = encoders g /\ all_param_types g' = [].
Proof.
  intros Hd. pose proof (declared_names_ok g Hd) as Hn. destruct (declared_tables g Hd) as [Hi Hp].
  unfold create_message_ids. destruct (foldl _ _ _) as [ids n] eqn:E. rewrite Hi in E.
  apply assign_ids_ok in E as (H1 & H2 & H3 & H4 & H5); [|by split; [apply (bool_decide_unpack _); done|done]|done].
  destruct (2 ^ 14 <=? n); [done|]. intros (l & El & [= <-])%bind_Ok. cbn. intros Hsmall. split_and!; try done.
  assert (Hs : forall i, i ∈ ids.*2 -> 0 <= i < 0x3fe0).
  { intros i ([m j] & -> & Hm)%list_elem_of_fmap. apply (elem_dget m j) in Hm; [|apply H1]. apply ids_ok_value in Hm; [cbn; lia|done]. }
  split; cbn; try done.
  - destruct Hn. by split.
  - intros m i Hm. apply H4, elem_dget; [by apply (bool_decide_unpack _)|done].
  - intros k m Hk. destruct (do_source g Hn k m Hk) as [Hm|[Hm|Hm]].
    + apply list_elem_of_fmap in Hm as ([m' i] & -> & Hm). exists i. apply H4, elem_dget; [by apply (bool_decide_unpack _)|done].
    + specialize (H3 k). unfold msg_of in H3. rewrite Hk in H3. apply H3. set_solver.
    + rewrite <- (msg_of_encoder g k m Hn Hm). apply H3, elem_of_app. right. apply list_elem_of_fmap. by exists (Some k, m).
  - intros i Hin. apply mapM_Ok in El. apply Hs in Hin as Hb. destruct (encode_msgid_host i Hb) as [Hc _].
    assert (El' : l = (fun i => (i, msgid_of i)) <$> ids.*2).
    { clear - El Hs. induction El as [|i y l l' Hy El IH]; [done|]. cbn. rewrite IH by (intros; apply Hs; by right). f_equal.
      destruct (encode_msgid_host i) as [Hc _]; [apply Hs; by left|]. rewrite Hc in Hy. by injection Hy as <-. }
    apply dget_dupdate; rewrite El'.
    + rewrite fmap_fst_pair. by apply ids_ok_nodup.
    + apply list_elem_of_fmap. by exists i.
Qed.

(** ** The data dictionary *)

Lemma filter_perm3 {A} (P Q : A -> Prop) `{forall x, Decision (P x), forall x, Decision (Q x)} l :
  (forall x, P x -> Q x -> False) ->
  filter P l ++ filter Q l ++ filter (fun x => ~ P x /\ ~ Q x) l ≡ₚ l.
Proof.
  intros D. induction l as [|x l IH]; [done|]. rewrite !filter_cons. specialize (D x).
  destruct (decide (P x)), (decide (Q x)), (decide (~ P x /\ ~ Q x)); try tauto; cbn.
  - by rewrite IH.
  - by rewrite <- Permutation_middle, IH.
  - by rewrite (app_assoc (filter P l)), <- Permutation_middle, <- app_assoc, IH.
Qed.

Lemma Forall2_elem_r {A B} (P : A -> B -> Prop) l k y : Forall2 P l k -> y ∈ k -> exists x, x ∈ l /\ P x y.
Proof. induction 1 as [|x y' l k Hx F IH]; [by intros []%elem_of_nil|]. rewrite elem_of_cons. intros [->|H]; [|apply IH in H]; set_solver. Qed.
Lemma Forall2_elem_l {A B} (P : A -> B -> Prop) l k x : Forall2 P l k -> x ∈ l -> exists y, y ∈ k /\ P x y.
Proof. induction 1 as [|x' y l k Hx F IH]; [by intros []%elem_of_nil|]. rewrite elem_of_cons. intros [->|H]; [|apply IH in H]; set_solver. Qed.
Lemma value_key {A} (d : list (A * Z)) k k' v : NoDup d.*2 -> (k, v) ∈ d -> (k', v) ∈ d -> k = k'.
Proof.
  induction d as [|[a b] d IH]; [by intros _ []%elem_of_nil|]. cbn. rewrite NoDup_cons, !elem_of_cons. intros [Hb Hd] H1 H2.
  assert (N : forall k, (k, b) ∉ d) by (intros x Hx; apply Hb, list_elem_of_fmap; by exists (x, b)). naive_solver.
Qed.

(** The dictionary lists every message once, under its own id: the messages of the
    commands, those of the other names, and the rest. *)
Record dictionary_ok (g : HandleCommandGeneration) (cmds resps outs : list (string * Z)) : Prop := {
  dk_keys : NoDup (cmds ++ resps ++ outs).*1;
  dk_values : NoDup (cmds ++ resps ++ outs).*2;
  dk_named m id : (m, id) ∈ cmds ++ resps -> exists n, dget n (by_name g) = Some m;
  dk_name n m : dget n (by_name g) = Some m ->
    exists encid, dget m (msg_to_encid g) = Some encid /\
      (m, msgid_of encid) ∈ if decide (n ∈ (commands g).*1) then cmds else resps }.

Lemma messages_dictionary_ok g cmds resps outs :
  numbered g -> messages_dictionary g = Ok (cmds, resps, outs) -> dictionary_ok g cmds resps outs.
Proof.
  intros Hg (mm & Em & E)%bind_Ok. apply bind_Ok in E as (cids & Ec & (rids & Er & [= <- <- <-])%bind_Ok).
  apply mapM_Ok in Em, Ec, Er.
  assert (Hmm : mm = (fun x => (x.1, msgid_of x.2)) <$> msg_to_encid g).
  { assert (Hs : forall x, x ∈ msg_to_encid g -> dget x.2 (encid_to_msgid g) = Some (msgid_of x.2)).
    { intros x Hx. apply (nb_convert g Hg), list_elem_of_fmap. by exists x. }
    clear - Em Hs. induction Em as [|[m i] y l l' Hy Em IH]; [done|]. cbn. rewrite IH by (intros; apply Hs; by right).
    pose proof (Hs (m, i) ltac:(by left)) as E. cbn in E, Hy. rewrite E in Hy. by injection Hy as <-. }
  assert (Hk : mm.*1 = (msg_to_encid g).*1) by (rewrite Hmm; by rewrite <- list_fmap_compose).
  assert (Hv : mm.*2 = msgid_of <$> (msg_to_encid g).*2) by (rewrite Hmm; by rewrite <- !list_fmap_compose).
  assert (Hnv : NoDup mm.*2).
  { rewrite Hv. apply NoDup_fmap_2_strong; [|apply ids_ok_nodup, Hg]. intros a b Ha Hb. apply msgid_of_inj; by apply Hg. }
  assert (Hnk : NoDup mm.*1) by (rewrite Hk; apply Hg).
  assert (Hids : forall (b : bool) ids, Forall2 (fun x y => need (dget x.2 mm) = Ok y)
      (filter (fun m => bool_decide (is_Some (dget m.1 (commands g))) = b) (by_name g)) ids ->
    forall id, id ∈ ids <-> exists n m, dget n (by_name g) = Some m /\ bool_decide (n ∈ (commands g).*1) = b /\ (m, id) ∈ mm).
  { intros b ids F id. split.
    - intros ([n m] & Hx & E%need_Ok%dget_elem)%(Forall2_elem_r _ _ _ _ F). apply list_elem_of_filter in Hx as [Hb Hx].
      exists n, m. split_and!; [apply elem_dget; [apply (nb_names g Hg)|done]| |done]. rewrite <- Hb. apply bool_decide_ext. cbn.
      rewrite <- not_eq_None_Some, dget_None. destruct (decide (n ∈ (commands g).*1)); tauto.
    - intros (n & m & Hn & Hb & Hm). assert (Hx : (n, m) ∈ filter (fun m => bool_decide (is_Some (dget m.1 (commands g))) = b) (by_name g)).
      { apply list_elem_of_filter. split; [|by apply dget_elem]. rewrite <- Hb. apply bool_decide_ext. cbn.
        rewrite <- not_eq_None_Some, dget_None. destruct (decide (n ∈ (commands g).*1)); tauto. }
      apply (Forall2_elem_l _ _ _ _ F) in Hx as (id' & Hid & E%need_Ok). cbn in E. rewrite (elem_dget m id) in E by done.
      by injection E as <-. }
  pose proof (Hids true cids Ec) as Hc. pose proof (Hids false rids Er) as Hr. clear Hids Ec Er.
  assert (Hone : forall n m n' m' id, dget n (by_name g) = Some m -> (m, id) ∈ mm -> dget n' (by_name g) = Some m' -> (m', id) ∈ mm -> n = n').
  { intros n m n' m' id Hn Hm Hn' Hm'. assert (m = m') as <- by (by eapply value_key).
    apply (do_first g (nb_names g Hg)) in Hn, Hn'. congruence. }
  assert (Hp : filter (fun m : string * Z => m.2 ∈ cids) mm ++ filter (fun m : string * Z => m.2 ∈ rids) mm ++
    filter (fun m : string * Z => m.2 ∉ cids /\ m.2 ∉ rids) mm ≡ₚ mm).
  { apply filter_perm3. intros [m id] (n & m1 & Hn & Hb & Hm)%Hc (n' & m2 & Hn' & Hb' & Hm')%Hr. cbn in *.
    assert (n = n') as <- by (by eapply Hone). congruence. }
  split.
  - by rewrite Hp.
  - by rewrite Hp.
  - intros m id [[Hi Hm]%list_elem_of_filter|[Hi Hm]%list_elem_of_filter]%elem_of_app; cbn in Hi; [apply Hc in Hi|apply Hr in Hi];
      destruct Hi as (n & m' & Hn & _ & Hm'); exists n; by rewrite (value_key mm m m' id).
  - intros n m Hn. destruct (nb_named g Hg n m Hn) as [e He]. exists e. split; [done|].
    assert (Hm : (m, msgid_of e) ∈ mm). { rewrite Hmm. apply list_elem_of_fmap. exists (m, e). split; [done|]. by apply dget_elem. }
    destruct (decide _) as [Hd|Hd]; apply list_elem_of_filter; split; try done; [apply Hc|apply Hr]; exists n, m; split_and!; try done;
      [by apply bool_decide_eq_true|by apply bool_decide_eq_false].
Qed.

(** ** The generated tables *)

Record params_ok (l : list (list param_type * nat)) : Prop := {
  pk_keys : NoDup l.*1;
  pk_ids : l.*2 = seq 0 (length l) }.
(** [c] describes a message with id [encid] and parameters [types]. *)
Record code_ok (l : list (list param_type * nat)) (encid : Z) (types : list param_type) (c : parser_code) : Prop := {
  co_id : pc_encoded_msgid c = encid;
  co_num : pc_num_params c = length types;
  co_types : match pc_param_types c with Some paramid => l !! paramid = Some (types, paramid) | None => types = [] end }.
(** What building a parser does not change. *)
Definition same_messages (g g' : HandleCommandGeneration) : Prop :=
  g' = g <| all_param_types := all_param_types g' |> /\ all_param_types g `prefix_of` all_param_types g'.

Lemma same_messages_trans g1 g2 g3 : same_messages g1 g2 -> same_messages g2 g3 -> same_messages g1 g3.
Proof. intros [-> H1] [-> H2]. split; [done|]. cbn in *. by etrans. Qed.
Lemma code_ok_prefix l l' encid types c : l `prefix_of` l' -> code_ok l encid types c -> code_ok l' encid types c.
Proof.
  intros Hp [H1 H2 H3]. split; [done..|]. destruct (pc_param_types c); [|done]. by eapply prefix_lookup_Some.
Qed.
Lemma code_ok_types fw encid types c : params_ok (fw_params fw) -> code_ok (fw_params fw) encid types c -> code_types fw c = types.
Proof.
  intros Hl [H1 H2 H3]. unfold code_types. destruct (pc_param_types c) as [i|]; [|done]. unfold param_array.
  assert (E : list_find (fun a : list param_type * nat => a.2 = i) (fw_params fw) = Some (i, (types, i))).
  { apply list_find_Some. split_and!; [done|done|]. intros j [t k] Hj Hlt <-.
    assert (Hk : (fw_params fw).*2 !! j = Some k) by (by rewrite list_lookup_fmap, Hj).
    rewrite (pk_ids _ Hl) in Hk. apply lookup_seq in Hk. cbn in *. lia. }
  rewrite E. cbn. rewrite H2. by rewrite take_ge.
Qed.

Lemma build_parser_ok g encid types g' c :
  params_ok (all_param_types g) -> build_parser encid types g = (g', c) ->
  same_messages g g' /\ params_ok (all_param_types g') /\ code_ok (all_param_types g') encid types c.
Proof.
  intros Hp. unfold build_parser, find_params. destruct (decide (types = [])) as [->|Hne].
  { intros [= <- <-]. split_and!; [by destruct g|done|done]. }
  destruct (dget types (all_param_types g)) as [i|] eqn:E; intros [= <- <-].
  { split_and!; [by destruct g|done|]. split; [done..|]. cbn. apply dget_elem, list_elem_of_lookup in E as [j Hj].
    assert (Hk : (all_param_types g).*2 !! j = Some i) by (by rewrite list_lookup_fmap, Hj).
    rewrite (pk_ids _ Hp) in Hk. by apply lookup_seq in Hk as [-> _]. }
  pose proof (dset_fresh types (length (all_param_types g)) _ E) as D. split_and!.
  - split; [done|]. cbn. rewrite D. by eexists.
  - split; cbn; [apply dset_nodup, Hp|]. by rewrite D, fmap_app, (pk_ids _ Hp), length_app, Nat.add_1_r, seq_S.
  - split; [done..|]. cbn. rewrite D. by apply list_lookup_middle.
Qed.

Lemma same_messages_refl g : same_messages g g.
Proof. by destruct g. Qed.

Lemma generate_responses_ok l did g g' encs outs :
  params_ok (all_param_types g) -> generate_responses l did g = Ok (g', encs, outs) ->
  same_messages g g' /\ params_ok (all_param_types g') /\
  forall msg e, (msg, e) ∈ encs -> exists n encid types, (Some n, msg) ∈ l /\ dget msg (msg_to_encid g) = Some encid /\
    param_types_of false msg = Ok types /\ code_ok (all_param_types g') encid types (ec_code e) /\
    ec_max_size e = max_size encid types /\ ec_min_size e = min_size encid types.
Proof.
  revert did g g' encs outs. induction l as [|[o m] l IH]; intros did g g' encs outs Hp; cbn [generate_responses].
  { intros [= <- <- <-]. split_and!; [apply same_messages_refl|done|]. by intros ?? []%elem_of_nil. }
  intros (encid & He%need_Ok & E)%bind_Ok. destruct (bool_decide (encid ∈ did)).
  { apply IH in E as (H1 & H2 & H3); [|done]. split_and!; [done..|]. intros msg e Hin%H3. set_solver. }
  apply bind_Ok in E as (types & Ht & (i & _ & E)%bind_Ok). destruct (build_parser encid types g) as [g1 c] eqn:Eb.
  apply build_parser_ok in Eb as (B1 & B2 & B3); [|done]. apply bind_Ok in E as ([[g2 encs1] outs1] & E & E').
  apply IH in E as (H1 & H2 & H3); [|done].
  assert (R : same_messages g g2) by (by eapply same_messages_trans).
  assert (H4 : forall msg e, (msg, e) ∈ encs1 -> exists n encid types, (Some n, msg) ∈ (o, m) :: l /\
    dget msg (msg_to_encid g) = Some encid /\ param_types_of false msg = Ok types /\
    code_ok (all_param_types g2) encid types (ec_code e) /\ ec_max_size e = max_size encid types /\ ec_min_size e = min_size encid types).
  { intros msg e (n & encid' & types' & Hn & Hi & K)%H3. exists n, encid', types'. split; [by right|]. split; [|done].
    destruct B1 as [Eg _]. by rewrite Eg in Hi. }
  case_bool_decide as Ho; injection E' as <- <- <-; (split_and!; [done..|]); [exact H4|].
  intros msg e [[= -> ->]|Hin]%elem_of_cons; [|by apply H4]. destruct o as [n|]; [|done]. exists n, encid, types. cbn.
  split; [by left|]. split_and!; try done. eapply code_ok_prefix; [apply H1|done].
Qed.

Lemma generate_index_ok l cmds g g' index :
  params_ok (all_param_types g) -> generate_index l cmds g = Ok (g', index) ->
  same_messages g g' /\ params_ok (all_param_types g') /\
  Forall2 (fun encid o => forall n fn fl, dget encid cmds = Some (n, (fn, fl)) ->
    exists msg types e, dget n (by_name g) = Some msg /\ param_types_of false msg = Ok types /\ o = Some e /\
      code_ok (all_param_types g') encid types (ie_code e) /\ ie_num_args e = count_args types /\ ie_flags e = fl /\ ie_func e = fn)
    l index.
Proof.
  revert g g' index. induction l as [|encid l IH]; intros g g' index Hp; cbn [generate_index].
  { intros [= <- <-]. split_and!; [apply same_messages_refl|done|constructor]. }
  destruct (dget encid cmds) as [[n [fn fl]]|] eqn:En.
  - intros (msg & Em%need_Ok & (types & Et & (i & _ & E)%bind_Ok)%bind_Ok)%bind_Ok.
    destruct (build_parser encid types g) as [g1 c] eqn:Eb. apply build_parser_ok in Eb as (B1 & B2 & B3); [|done].
    apply bind_Ok in E as ([g2 index1] & E & [= <- <-]). apply IH in E as (H1 & H2 & H3); [|done].
    split_and!; [by eapply same_messages_trans|done|]. constructor.
    + intros n' fn' fl' [= <- <- <-]%(eq_trans (eq_sym En)). exists msg, types. eexists. split_and!; try done.
      eapply code_ok_prefix; [apply H1|done].
    + destruct B1 as [Eg _]. rewrite Eg in H3. done.
  - intros ([g2 index1] & E & [= <- <-])%bind_Ok. apply IH in E as (H1 & H2 & H3); [|done]. split_and!; [done..|].
    constructor; [|done]. intros ? ? ?. congruence.
Qed.

Lemma same_ids g g' : same_messages g g' -> msg_to_encid g' = msg_to_encid g.
Proof. by intros [-> _]. Qed.
Lemma numbered_same g g' : same_messages g g' -> numbered g -> numbered g'.
Proof. intros [-> _] [[] [] ? ? ? ?]. split; cbn; done. Qed.

(** A message has one name, and an id one message. *)
Lemma name_unique g n n' m m' encid : numbered g -> dget n (by_name g) = Some m -> dget n' (by_name g) = Some m' ->
  dget m (msg_to_encid g) = Some encid -> dget m' (msg_to_encid g) = Some encid -> n = n'.
Proof.
  intros Hg Hn Hn' He%dget_elem He'%dget_elem. assert (m = m') as <- by (eapply value_key; [apply ids_ok_nodup, Hg|done..]).
  apply (do_first g (nb_names g Hg)) in Hn, Hn'. congruence.
Qed.

Lemma cmd_by_encid_ok g cmds n fn fl m encid : numbered g -> cmd_by_encid g = Ok cmds ->
  dget n (commands g) = Some (fn, fl) -> dget n (by_name g) = Some m -> dget m (msg_to_encid g) = Some encid ->
  dget encid cmds = Some (n, (fn, fl)).
Proof.
  intros Hg (l & El%mapM_Ok & [= <-])%bind_Ok Hc Hn He.
  assert (Hl : forall i c, (i, c) ∈ l -> c ∈ commands g /\ dget (msg_of g c.1) (msg_to_encid g) = Some i).
  { intros i c (x & Hx & (i' & Hi%need_Ok & [= -> ->])%bind_Ok)%(Forall2_elem_r _ _ _ _ El). done. }
  assert (Hm : forall c, c ∈ commands g -> exists m, dget c.1 (by_name g) = Some m /\ msg_of g c.1 = m).
  { intros c Hc'. destruct (do_command g (nb_names g Hg) c.1) as [m' Hm']; [apply list_elem_of_fmap; by exists c|].
    exists m'. split; [done|]. unfold msg_of. by rewrite Hm'. }
  apply dget_dupdate.
  - assert (Hk : l.*2 = commands g).
    { clear - El. induction El as [|c [i c'] cs l Hx El IH]; [done|]. cbn. apply bind_Ok in Hx as (? & _ & [= _ ->]). by rewrite IH. }
    assert (Hn2 : NoDup l.*2). { rewrite Hk. apply (NoDup_fmap_1 fst), Hg. }
    apply NoDup_fmap_fst; [|by apply (NoDup_fmap_1 snd)]. intros i c c' [H1 H2]%Hl [H1' H2']%Hl.
    destruct (Hm c H1) as (x & Hx & Ex), (Hm c' H1') as (x' & Hx' & Ex'). rewrite Ex in H2. rewrite Ex' in H2'.
    assert (E : c.1 = c'.1) by (by eapply name_unique). destruct c as [a b], c' as [a' b']. cbn in *. subst a'.
    apply (elem_dget a) in H1, H1'; [|apply Hg..]. congruence.
  - apply dget_elem in Hc. apply (Forall2_elem_l _ _ _ _ El) in Hc as (y & Hy & (i & Hi%need_Ok & [= <-])%bind_Ok). cbn in Hi.
    unfold msg_of in Hi. rewrite Hn in Hi. cbn in Hi. by replace encid with i by congruence.
Qed.

Record tables_ok (g : HandleCommandGeneration) (fw : firmware) : Prop := {
  tk_numbered : numbered g;
  tk_command n fn fl m encid :
    dget n (commands g) = Some (fn, fl) -> dget n (by_name g) = Some m -> dget m (msg_to_encid g) = Some encid ->
    exists types e, param_types_of false m = Ok types /\ fw_index fw !! Z.to_nat encid = Some (Some e) /\
      code_types fw (ie_code e) = types /\ ie_num_args e = count_args types /\ ie_flags e = fl /\ ie_func e = fn;
  tk_encoder m e : dget m (fw_encoders fw) = Some e ->
    exists n encid types, dget n (by_name g) = Some m /\ dget m (msg_to_encid g) = Some encid /\
      param_types_of false m = Ok types /\
      encoder_of fw e = mk_command_encoder encid (Z.to_nat (max_size encid types)) (Z.to_nat (min_size encid types)) types }.

Lemma le_foldr_max x l : x ∈ l -> x <= foldr Z.max 0 l.
Proof. induction l as [|y l IH]; [by intros []%elem_of_nil|]. cbn. intros [->|H%IH]%elem_of_cons; lia. Qed.

Lemma generate_code_ok g g' fw : declared g -> generate_code g = Ok (g', fw) ->
  Z.of_nat (length (msg_to_encid g')) <= 0x3fe0 -> tables_ok g' fw.
Proof.
  intros Hd (g1 & E1 & ([[g2 encs] outs] & E2 & ([g3 index] & E3 & [= <- <-])%bind_Ok)%bind_Ok)%bind_Ok Hs.
  assert (Hp1 : all_param_types g1 = []).
  { unfold create_message_ids in E1. destruct (foldl _ _ _). destruct (2 ^ 14 <=? _); [done|].
    apply bind_Ok in E1 as (? & _ & [= <-]). exact (proj2 (declared_tables g Hd)). }
  apply generate_responses_ok in E2 as (R1 & R2 & R3); [|rewrite Hp1; split; [constructor|done]].
  unfold generate_commands_code in E3. apply bind_Ok in E3 as (cmds & Ec & E3). destruct (decide (cmds = [])) as [|Hne]; [done|].
  apply generate_index_ok in E3 as (I1 & I2 & I3); [|done].
  assert (Hg1 : numbered g1).
  { apply create_message_ids_ok in E1; [apply E1|done|]. rewrite <- (same_ids g1 g3); [done|]. by eapply same_messages_trans. }
  assert (R : same_messages g1 g3) by (by eapply same_messages_trans).
  assert (Hg2 : numbered g2) by (by eapply numbered_same). assert (Hg3 : numbered g3) by (by eapply numbered_same).
  split; [done|..].
  - intros n fn fl m encid Hn Hm He. pose proof (proj1 I1) as Eg. rewrite Eg in Hn, Hm, He. cbn in Hn, Hm, He.
    apply (cmd_by_encid_ok g2 cmds _ _ _ m encid) in Hn; [|done..]. pose proof (Hg2.(nb_small g2) encid) as Hb.
    specialize (Hb ltac:(apply dget_elem in He; apply list_elem_of_fmap; by exists (m, encid))).
    assert (Hi : (Z.of_nat <$> seq 0 (Z.to_nat (foldr Z.max 0 cmds.*1 + 1))) !! Z.to_nat encid = Some encid).
    { rewrite list_lookup_fmap, lookup_seq_lt; [cbn; f_equal; lia|]. apply dget_elem in Hn.
      assert (encid <= foldr Z.max 0 cmds.*1) by (apply le_foldr_max, list_elem_of_fmap; by exists (encid, (n, (fn, fl)))). lia. }
    apply (Forall2_lookup_l _ _ _ _ _ I3) in Hi as (o & Ho & Hi).
    destruct (Hi _ _ _ Hn) as (m' & types & e & Hm' & Ht & -> & Hc & Ha & Hfl & Hfn). replace m' with m in * by congruence.
    exists types, e. split_and!; try done. by eapply code_ok_types.
  - intros m e (n & encid & types & Hn & He & Ht & Hc & Hx & Hy)%dget_elem%R3. exists n, encid, types.
    apply (code_ok_prefix _ (all_param_types g3)) in Hc as Hc'; [|apply I1]. split_and!; [..|done|].
    + apply (do_encoder g3 (nb_names g3 Hg3)). by rewrite (proj1 R).
    + by rewrite (same_ids g1 g3).
    + unfold encoder_of. rewrite Hx, Hy, (code_ok_types _ encid types) by done. by rewrite (co_id _ _ _ _ Hc).
Qed.
