(* ===== verification/Dictionary.v ===== *)
(** * From the build to the wire

    The build script numbers the messages and generates the firmware's tables; the
    host builds its parser from the data dictionary.  Together they make the two
    sides understand each other: a command the host encodes runs its handler with
    the same arguments, and a response the firmware encodes is parsed into the
    same values. *)

From Stdlib Require Import Ascii String.
From S2P Require Import Prelude Python Crc Vlq Command Msgblock Msgproto Buildcommands.

(** ** The host's tables *)

Lemma MessageFormat_init_Ok ids m enums mf : MessageFormat_init ids m enums = Ok mf ->
  mf_msgid_bytes mf = ids /\ head (split m) = Some (mf_name mf) /\ lookup_params m enums = Ok (mf_param_names mf).
Proof. by intros (n & Hn%need_Ok & (l & Hl & [= <-])%bind_Ok)%bind_Ok. Qed.

Lemma init_message_ok cs os m id p p' : init_message cs os m id p = (p', Ok tt) ->
  enumerations p' = enumerations p /\
  (forall id', id' <> id -> dget id' (messages_by_id p') = dget id' (messages_by_id p)) /\
  (msgtype_of cs os id = Output_ -> messages_by_name p' = messages_by_name p) /\
  (msgtype_of cs os id <> Output_ -> exists mf, MessageFormat_init (int_encode id) m (enumerations p) = Ok mf /\
     dget id (messages_by_id p') = Some (Message mf) /\ dget (mf_name mf) (messages_by_name p') = Some mf /\
     forall n, n <> mf_name mf -> dget n (messages_by_name p') = dget n (messages_by_name p)).
Proof.
  unfold init_message. destruct (msgtype_of cs os id); cbn [enumerations].
  1,2: destruct (MessageFormat_init _ _ _) as [mf|] eqn:E; intros [= <-]; split_and!; try done; cbn.
  1,3: intros id' Hne; by apply dget_dset_ne.
  1,2: intros _; exists mf; split_and!; [done|apply dget_dset|apply dget_dset|]; intros n Hn; by apply dget_dset_ne.
  destruct (OutputFormat_init _ _) as [o|] eqn:E; intros [= <-]; split_and!; try done; cbn.
  intros id' Hne. by apply dget_dset_ne.
Qed.

Definition named_once (cs os : list Z) (l : list (string * Z)) : Prop :=
  forall m id m' id', (m, id) ∈ l -> (m', id') ∈ l -> msgtype_of cs os id <> Output_ -> msgtype_of cs os id' <> Output_ ->
    head (split m) = head (split m') -> m = m'.

Lemma init_messages_frame cs os l p p' : init_messages cs os l p = (p', Ok tt) ->
  enumerations p' = enumerations p /\
  (forall id, id ∉ l.*2 -> dget id (messages_by_id p') = dget id (messages_by_id p)) /\
  (forall n, (forall m id, (m, id) ∈ l -> msgtype_of cs os id <> Output_ -> head (split m) <> Some n) ->
     dget n (messages_by_name p') = dget n (messages_by_name p)).
Proof.
  revert p. induction l as [|[m id] l IH]; intros p; cbn [init_messages]; [by intros [= ->]|].
  destruct (init_message cs os m id p) as [p1 [[]|]] eqn:E; [|done]. apply init_message_ok in E as (E1 & E2 & E3 & E4).
  intros (H1 & H2 & H3)%IH. split_and!.
  - congruence.
  - intros id' [Hne Hin]%not_elem_of_cons. by rewrite H2, E2.
  - intros n Hn. rewrite H3 by (intros m' id' Hin; apply (Hn m' id'); by right).
    destruct (decide (msgtype_of cs os id = Output_)) as [Ho|Ho]; [by rewrite E3|].
    destruct (E4 Ho) as (mf & (_ & Hm & _)%MessageFormat_init_Ok & _ & _ & H). apply H. intros ->.
    apply (Hn m id); [by left|done|done].
Qed.

Lemma init_messages_ok cs os l p p' : init_messages cs os l p = (p', Ok tt) -> NoDup l.*1 -> NoDup l.*2 -> named_once cs os l ->
  enumerations p' = enumerations p /\
  forall m id, (m, id) ∈ l -> msgtype_of cs os id <> Output_ ->
    exists mf, MessageFormat_init (int_encode id) m (enumerations p) = Ok mf /\
      dget id (messages_by_id p') = Some (Message mf) /\ dget (mf_name mf) (messages_by_name p') = Some mf.
Proof.
  intros E Hk Hv Hn. split; [apply init_messages_frame in E; apply E|]. revert p E.
  induction l as [|[m id] l IH]; intros p; cbn [init_messages]; [by intros _ ? ? []%elem_of_nil|].
  destruct (init_message cs os m id p) as [p1 [[]|]] eqn:E; [|done]. apply init_message_ok in E as (E1 & _ & _ & E4).
  cbn in Hk, Hv. apply NoDup_cons in Hk as [Hm Hk], Hv as [Hid Hv]. intros E m' id' [[= -> ->]|Hin]%elem_of_cons Ho.
  - destruct (E4 Ho) as (mf & Hmf & F1 & F2 & _). exists mf. apply init_messages_frame in E as (_ & H2 & H3).
    split; [done|]. split; [by rewrite H2|]. rewrite H3; [done|]. intros m' id' Hin Ho' Hs.
    apply MessageFormat_init_Ok in Hmf as (_ & Hs' & _). assert (m = m') as <-.
    { apply (Hn m id m' id'); [by left|by right|done|done|congruence]. }
    apply Hm, list_elem_of_fmap. by exists (m, id').
  - destruct (IH Hk Hv) with (p := p1) (m := m') (id := id') as (mf & Hmf & F); [|done..|].
    { intros a i b j Ha Hb. apply Hn; by right. }
    exists mf. by rewrite <- E1.
Qed.

(** ** A host connected to the firmware of a build *)

(** The firmware [fw] was built from the declarations in [g]; the host has read the
    data dictionary of that build.  JSON keeps the entries of the dictionary, in
    any order. *)
Inductive connected (g : HandleCommandGeneration) (fw : firmware) (p : MessageParser) : Prop :=
| connect g0 cmds resps outs decompress loads data raw d prefix cs rs :
    declared g0 -> generate_code g0 = Ok (g, fw) -> Z.of_nat (length (msg_to_encid g)) <= 0x3fe0 ->
    messages_dictionary g = Ok (cmds, resps, outs) ->
    decompress data = Ok raw -> loads raw = Ok d ->
    dd_commands d = Some cs -> cs ≡ₚ cmds -> dd_responses d = Some rs -> rs ≡ₚ resps -> dd_output d ≡ₚ outs ->
    process_identify decompress loads true data (MessageParser_init prefix) = (p, Ok tt) ->
    connected g fw p.

Lemma connected_tables g fw p : connected g fw p -> tables_ok g fw.
Proof. intros []. by eapply generate_code_ok. Qed.

Lemma msgtype_of_output cs os id : msgtype_of cs os id = Output_ -> id ∈ os.
Proof. unfold msgtype_of. repeat case_bool_decide; try done. Qed.

Lemma dupdate_three {V} (a b c : list (string * V)) : NoDup (a ++ b ++ c).*1 ->
  dupdate (dupdate (dupdate [] a) b) c = a ++ b ++ c.
Proof.
  rewrite !fmap_app. intros (Na & Dab & (Nb & Dbc & Nc)%NoDup_app)%NoDup_app.
  rewrite (dupdate_fresh [] a) by (done || (intros; apply not_elem_of_nil)). cbn [app].
  rewrite (dupdate_fresh a b) by (done || (intros k Hk Ha; apply (Dab k Ha); set_solver)).
  rewrite (dupdate_fresh (a ++ b) c), app_assoc; [done..|]. intros k Hk. rewrite fmap_app. intros [Ha|Hb]%elem_of_app.
  - apply (Dab k Ha). set_solver.
  - by apply (Dbc k Hb).
Qed.

(** Messages of the first two lists are not output. *)
Lemma not_output (cs rs os : list (string * Z)) m id : NoDup (cs ++ rs ++ os).*2 -> (m, id) ∈ cs ++ rs ++ os ->
  msgtype_of cs.*2 os.*2 id <> Output_ <-> (m, id) ∈ cs ++ rs.
Proof.
  intros Hv Hin. rewrite app_assoc, fmap_app in Hv. apply NoDup_app in Hv as (_ & Hd & _). split.
  - intros Ho. rewrite app_assoc in Hin. apply elem_of_app in Hin as [Hin|Hin]; [done|]. destruct Ho.
    assert (Hi : id ∈ os.*2) by (apply list_elem_of_fmap; by exists (m, id)). unfold msgtype_of. rewrite (bool_decide_eq_false_2 (id ∈ cs.*2)).
    + by rewrite bool_decide_eq_true_2.
    + intros Hc. apply (Hd id); [|done]. rewrite fmap_app. set_solver.
  - intros H Ho%msgtype_of_output. apply (Hd id); [|done]. apply list_elem_of_fmap. by exists (m, id).
Qed.

(** The host knows every named message of the build, under the id the firmware
    uses. *)
Lemma connected_message g fw p n m : connected g fw p -> dget n (by_name g) = Some m ->
  exists encid mf, dget m (msg_to_encid g) = Some encid /\ 0 <= encid < 0x3fe0 /\
    MessageFormat_init (encode_msgid encid) m (enumerations p) = Ok mf /\ mf_name mf = n /\
    dget (msgid_of encid) (messages_by_id p) = Some (Message mf) /\ dget n (messages_by_name p) = Some mf.
Proof.
  intros C Hn. pose proof (tk_numbered _ _ (connected_tables _ _ _ C)) as Hg.
  destruct C as [g0 cmds resps outs decompress loads data raw d prefix cs rs _ _ _ Hd Hdec Hl Hcs Pc Hrs Pr Po E].
  apply messages_dictionary_ok in Hd as [D1 D2 D3 D4]; [|done].
  unfold process_identify in E. rewrite Hdec, Hl, Hcs, Hrs in E.
  assert (P : cs ++ rs ++ dd_output d ≡ₚ cmds ++ resps ++ outs) by (by rewrite Pc, Pr, Po).
  rewrite <- P in D1, D2. rewrite dupdate_three in E by done.
  destruct (init_messages _ _ _ _) as [p1 [[]|e]] eqn:Ei; [|by destruct e].
  assert (enumerations p = enumerations p1 /\ messages_by_id p = messages_by_id p1 /\ messages_by_name p = messages_by_name p1)
    as (-> & -> & ->) by (by injection E as <-).
  assert (N : named_once cs.*2 (dd_output d).*2 (cs ++ rs ++ dd_output d)).
  { intros a i b j Ha Hb Hi%(not_output cs rs (dd_output d) a) Hj%(not_output cs rs (dd_output d) b) Hs; [|done..]. rewrite Pc, Pr in Hi, Hj.
    apply D3 in Hi as [x Hx], Hj as [y Hy]. apply (do_first g (nb_names g Hg)) in Hx as Hx', Hy as Hy'. congruence. }
  apply init_messages_ok in Ei as [E1 E2]; [|done..]. destruct (D4 n m Hn) as (encid & He & Hin).
  assert (Hin' : (m, msgid_of encid) ∈ cs ++ rs) by (rewrite Pc, Pr; apply elem_of_app; destruct (decide _); auto).
  destruct (E2 m (msgid_of encid)) as (mf & Hmf & F1 & F2);
    [|apply (not_output cs rs _ m); try done|]; [rewrite app_assoc; apply elem_of_app; by left..|].
  assert (Hb : 0 <= encid < 0x3fe0). { apply (nb_small g Hg). apply dget_elem in He. apply list_elem_of_fmap. by exists (m, encid). }
  destruct (encode_msgid_host encid Hb) as [_ Hi]. rewrite Hi in Hmf.
  assert (mf_name mf = n) as <-.
  { apply MessageFormat_init_Ok in Hmf as (_ & Hm & _). apply (do_first g (nb_names g Hg)) in Hn. congruence. }
  exists encid, mf. cbn in E1. by rewrite E1.
Qed.

(** Enumerations do not change the types on the wire. *)
Lemma lookup_params_types m enums l types : lookup_params m enums = Ok l -> param_types_of false m = Ok types ->
  types_of <$> l.*2 = types.
Proof.
  unfold param_types_of, lookup_params. intros El (l0 & E0 & [= <-])%bind_Ok. apply mapM_Ok in El, E0.
  revert l0 E0. induction El as [|x y xs l Hx El IH]; intros l0 E0; inversion E0 as [|? y0 ? l1 H0 E1]; subst; [done|].
  cbn. rewrite (IH l1) by done. f_equal. unfold lookup_param in Hx, H0.
  destruct (split_at _ _ _ _) as [|a [|b [|]]]; try done. apply bind_Ok in Hx as (t & Ht%need_Ok & [= <-]).
  rewrite Ht in H0. injection H0 as <-. cbn. clear. by induction enums as [|[n e] enums IH]; cbn; [|destruct (_ || _)].
Qed.

(** ** Commands *)

Section commands.
Context (sizeof_size_t console_receive_buffer : Z).

(** The number or the bytes that stand for the value [v] of a parameter. *)
Definition plain_value (enums : enum_table) (t : host_type) (v : value) : option value :=
  match t, v with
  | Enumeration _ name _, PStr s => PInt <$> dget s (default [] (dget name enums))
  | Enumeration _ _ _, _ => None
  | Plain _, v => Some v
  end.
(** The slots of [args] when the parameters are at [pos] in the block: a number
    modulo 2^32, the length and the place of a buffer. *)
Fixpoint command_args (enums : enum_table) (pos : nat) (ts : list host_type) (vs : list value) : list Z :=
  match ts, vs with
  | t :: ts, v :: vs =>
    match plain_value enums t v with
    | Some (PInt n) => u32 n :: command_args enums (pos + length (int_encode n)) ts vs
    | Some (PBytes l) =>
      Z.of_nat (length l) ::
      command_encode_ptr sizeof_size_t console_receive_buffer (console_receive_buffer + Z.of_nat (S pos)) ::
      command_args enums (S pos + length l) ts vs
    | _ => []
    end
  | _, _ => []
  end.

(** Types that the firmware accepts in commands. *)
Definition receivable (t : param_type) : bool := match t with PT_string | PT_progmem_buffer => false | _ => true end.

Lemma parsef_int buf maxend t ts p v p' : is_int_type t = true -> (p <= maxend)%nat -> parse_int buf p = Some (v, p') ->
  command_parsef sizeof_size_t console_receive_buffer buf maxend (t :: ts) p
  = parsed_cons [v] (command_parsef sizeof_size_t console_receive_buffer buf maxend ts p').
Proof.
  intros Ht Hp E. cbn [command_parsef]. rewrite (proj2 (Nat.ltb_ge _ _)) by done. destruct t; try done; by rewrite E.
Qed.

Lemma command_parsef_host enums ts vs body pre post maxend :
  encode_params enums ts vs = Ok body -> forallb receivable (types_of <$> ts) = true ->
  (length pre + length body <= maxend)%nat ->
  command_parsef sizeof_size_t console_receive_buffer (pre ++ body ++ post) maxend (types_of <$> ts) (length pre)
  = Parsed (command_args enums (length pre) ts vs) (length pre + length body).
Proof.
  revert vs body pre. induction ts as [|t ts IH]; intros vs body pre; cbn [encode_params].
  { intros [= <-] _ Hm. cbn [fmap list_fmap command_parsef length command_args] in *.
    by rewrite (proj2 (Nat.ltb_ge _ _)), Nat.add_0_r by lia. }
  destruct vs as [|v vs]; [done|]. cbn [fmap list_fmap forallb]. intros (v0 & [= <-] & (l & El & (r & Er & [= <-])%bind_Ok)%bind_Ok)%bind_Ok Hr Hm.
  apply andb_true_iff in Hr as [Ht Hr]. rewrite length_app in Hm. cbn [tail] in Er.
  specialize (IH vs r (pre ++ l) Er Hr). rewrite !length_app in IH. specialize (IH ltac:(lia)).
  rewrite <- !app_assoc in *.
  assert (Hint : forall n, is_int_type (types_of t) = true -> l = int_encode n -> plain_value enums t v = Some (PInt n) ->
    command_parsef sizeof_size_t console_receive_buffer (pre ++ l ++ r ++ post) maxend (types_of t :: (types_of <$> ts)) (length pre)
    = Parsed (command_args enums (length pre) (t :: ts) (v :: vs)) (length pre + length (l ++ r))).
  { intros n Hi -> Hv. assert (Hp : (length pre <= maxend)%nat) by lia.
    rewrite (parsef_int _ _ _ _ _ _ _ Hi Hp (parse_int_host pre (r ++ post) n)), IH.
    cbn [command_args parsed_cons app]. rewrite Hv. f_equal. rewrite length_app. lia. }
  unfold type_encode, plain_encode in El. destruct t as [t|t name rev].
  - destruct v as [n|b|s]; [|destruct (is_int_type t) eqn:Hi|]; try done.
    + destruct (is_int_type t) eqn:Hi; [|done]. injection El as <-. by apply (Hint n).
    + unfold string_encode in El. destruct (forallb _ b); [|done]. injection El as <-. destruct t; try done.
      cbn [types_of command_parsef]. rewrite (proj2 (Nat.ltb_ge _ _)) by lia.
      rewrite lookup_app_r, Nat.sub_diag by lia. cbn [app lookup list_lookup length]. rewrite Nat2Z.id.
      cbn [app length] in IH. replace (S (length pre) + length b)%nat with (length pre + S (length b))%nat by lia. rewrite IH.
      cbn [command_args plain_value parsed_cons app]. f_equal; [do 2 f_equal; f_equal; lia|]. rewrite length_app. cbn [length]. lia.
  - destruct v as [n|b|s]; try done. destruct (dget s _) as [n|] eqn:En; [|done]. destruct (is_int_type t) eqn:Hi; [|done].
    injection El as <-. apply Hint with n; [done|done|]. cbn. by rewrite En.
Qed.

Lemma command_args_length enums pos ts vs body : encode_params enums ts vs = Ok body ->
  forallb receivable (types_of <$> ts) = true -> length (command_args enums pos ts vs) = count_args (types_of <$> ts).
Proof.
  intros E Hr. pose proof (command_parsef_host enums ts vs body (replicate pos 0) [] (pos + length body) E Hr) as P.
  rewrite length_replicate in P. specialize (P ltac:(lia)).
  assert (H : forall buf maxend ts p, match command_parsef sizeof_size_t console_receive_buffer buf maxend ts p with
    | Parsed args _ => length args = count_args ts | _ => True end).
  { clear. unfold count_args. intros buf maxend ts. induction ts as [|t ts IH]; intros p; cbn [command_parsef]; destruct (_ <? _)%nat; try done.
    assert (Hi : forall v p, t <> PT_progmem_buffer -> t <> PT_buffer ->
      match parsed_cons [v] (command_parsef sizeof_size_t console_receive_buffer buf maxend ts p) with
      | Parsed args _ => length args = (length (t :: ts) + length (filter (fun t => t = PT_progmem_buffer) (t :: ts)) +
          length (filter (fun t => t = PT_buffer) (t :: ts)))%nat | _ => True end).
    { intros v p' H1 H2. specialize (IH p'). destruct (command_parsef _ _ _ _ ts p'); try done.
      cbn [parsed_cons app]. rewrite !filter_cons_False by done. cbn [length]. lia. }
    destruct t; try (destruct (parse_int buf p) as [[v p']|]; [by apply Hi|done]); try done.
    destruct (buf !! p) as [len|]; [|done]. specialize (IH (S p + Z.to_nat len)%nat).
    destruct (command_parsef _ _ _ _ ts _); try done. cbn [parsed_cons app].
    rewrite (filter_cons_False _ PT_buffer), filter_cons_True by done. cbn [length]. lia. }
  specialize (H (replicate pos 0 ++ body ++ []) (pos + length body)%nat (types_of <$> ts) pos). by rewrite P in H.
Qed.

Context {W : Type} (flag_value : string -> Z) (handlers : string -> list Z -> M W unit).
Context (sched_is_shutdown : W -> bool) (sched_report_shutdown : M W unit).
Context (g : HandleCommandGeneration) (fw : firmware) (p : MessageParser).

(** The host encodes [calls] one after the other, from place [pos] of the block on:
    the bytes, and the functions to be called with their flags and arguments. *)
Inductive calls_in (pos : nat) : list (string * list value) -> list Z -> list (string * string * list Z) -> Prop :=
| calls_nil : calls_in pos [] [] []
| calls_cons n vs calls mf cmd fn fl payload acts :
    dget n (messages_by_name p) = Some mf -> encode (enumerations p) mf vs = Ok cmd ->
    dget n (commands g) = Some (fn, fl) -> n <> "identify_response"%string ->
    forallb receivable (types_of <$> mf_param_types mf) = true ->
    calls_in (pos + length cmd) calls payload acts ->
    calls_in pos ((n, vs) :: calls) (cmd ++ payload)
      ((fn, fl, command_args (enumerations p) (pos + length (mf_msgid_bytes mf)) (mf_param_types mf) vs) :: acts).

(** What the firmware should do: call the functions in order, skipping and
    reporting those that may not run while it is shut down. *)
Fixpoint run_calls (acts : list (string * string * list Z)) (w : W) : dispatched :=
  match acts with
  | [] => DispatchDone w
  | (fn, fl, args) :: acts =>
    let run := if sched_is_shutdown w && negb (truthy (Z.land (flag_value fl) HF_IN_SHUTDOWN))
               then sched_report_shutdown else handlers fn args in
    match run w with
    | Ret _ w => run_calls acts w
    | Halt msg w => DispatchShutdown msg w
    | Crash w => DispatchCrash w
    end
  end.

Abbreviation fw_dispatch_loop := (command_dispatch_loop sizeof_size_t console_receive_buffer (command_index flag_value fw)
  (command_index_size fw) sched_is_shutdown sched_report_shutdown (fun id => handlers (index_func fw id))).
Abbreviation fw_dispatch := (command_dispatch sizeof_size_t console_receive_buffer (command_index flag_value fw)
  (command_index_size fw) sched_is_shutdown sched_report_shutdown (fun id => handlers (index_func fw id))).

(** The entry of [command_index] for a command of the host. *)
Lemma connected_command n mf fn fl : connected g fw p -> dget n (messages_by_name p) = Some mf ->
  dget n (commands g) = Some (fn, fl) -> n <> "identify_response"%string ->
  exists encid, mf_msgid_bytes mf = encode_msgid encid /\ 0 <= encid < 0x4000 /\
    command_lookup_parser (command_index flag_value fw) (command_index_size fw) encid = Some (command_index flag_value fw encid) /\
    cp_param_types (command_index flag_value fw encid) = types_of <$> mf_param_types mf /\
    cp_num_args (command_index flag_value fw encid) = count_args (types_of <$> mf_param_types mf) /\
    cp_flags (command_index flag_value fw encid) = flag_value fl /\ index_func fw encid = fn.
Proof.
  intros C Hmf Hc Hn. pose proof (connected_tables _ _ _ C) as T. pose proof (tk_numbered _ _ T) as Hg.
  destruct (do_command g (nb_names g Hg) n) as [m Hm]; [apply dget_elem in Hc; apply list_elem_of_fmap; by exists (n, (fn, fl))|].
  destruct (connected_message g fw p n m C Hm) as (encid & mf' & He & Hb & Hi & _ & _ & Hmf').
  replace mf' with mf in * by congruence. apply MessageFormat_init_Ok in Hi as (Hi & _ & Hp).
  destruct (tk_command _ _ T n fn fl m encid Hc Hm He) as (types & e & Ht & Hx & Htypes & Ha & Hf & Hfn).
  assert (Hz : encid <> 0).
  { intros ->. apply Hn. eapply (name_unique g n _ m _ 0 Hg Hm).
    - apply (do_default g (nb_names g Hg) "identify_response offset=%u data=%.*s"). by left.
    - done.
    - apply (nb_default g Hg). by left. }
  exists encid. unfold command_index, index_func. rewrite Hx. cbn. split_and!; try done; try lia.
  - unfold command_lookup_parser, truthy, command_index_size. rewrite Hx. apply lookup_lt_Some in Hx.
    rewrite (proj2 (Z.eqb_neq _ _)), (proj2 (Z.leb_gt _ _)) by lia. done.
  - rewrite Htypes. symmetry. by eapply lookup_params_types.
  - rewrite Ha. f_equal. symmetry. by eapply lookup_params_types.
  - by rewrite Hf.
Qed.

Lemma dispatch_calls pos calls payload acts : connected g fw p -> calls_in pos calls payload acts ->
  forall pre post fuel w, pos = length pre -> (length payload < fuel)%nat ->
  fw_dispatch_loop fuel (pre ++ payload ++ post) (length pre + length payload) (length pre) w = run_calls acts w.
Proof.
  intros C H. induction H as [|pos n vs calls mf cmd fn fl payload acts Hmf He Hc Hn Hr H IH]; intros pre post fuel w -> Hf;
    (destruct fuel as [|fuel]; [lia|]); cbn [command_dispatch_loop].
  { cbn [length]. by rewrite (proj2 (Nat.ltb_ge _ _)) by lia. }
  destruct (connected_command n mf fn fl C Hmf Hc Hn) as (encid & Hi & Hb & Hl & Ht & _ & Hfl & Hfn).
  apply bind_Ok in He as (body & Eb & [= <-]). rewrite Hi in *. rewrite !length_app in *.
  pose proof (encode_msgid_length encid) as Hlen.
  rewrite (proj2 (Nat.ltb_lt _ _)) by lia. cbn [negb].
  replace (pre ++ ((encode_msgid encid ++ body) ++ payload) ++ post) with (pre ++ encode_msgid encid ++ (body ++ payload ++ post))
    by (by rewrite <- !app_assoc).
  rewrite (parse_msgid_encode pre _ encid) by lia. rewrite Hl, Ht.
  rewrite (app_assoc pre). replace (length pre + length (encode_msgid encid))%nat with (length (pre ++ encode_msgid encid)) by apply length_app.
  rewrite (command_parsef_host (enumerations p) (mf_param_types mf) vs body (pre ++ encode_msgid encid) (payload ++ post))
    by (done || rewrite length_app; lia).
  rewrite Hfl, Hfn. cbn [run_calls]. rewrite length_app.
  destruct (_ w) as [a w'|msg w'|w']; [|done..].
  specialize (IH ((pre ++ encode_msgid encid) ++ body) post fuel w').
  rewrite !length_app, <- !app_assoc in IH. rewrite <- !app_assoc.
  rewrite Nat.add_assoc in IH. etrans; [|apply IH; lia]. f_equal; lia.
Qed.

(** C12: Commands reach their handlers.  Let the firmware be built from any
    declarations with at most 0x3fe0 messages, and let the host read the data
    dictionary of that build.  When the host encodes commands with its message
    formats and puts them into a block, the firmware calls exactly the functions
    declared for them, in order, with the numbers modulo 2^32 and with the lengths
    and places of the buffers; and the [args] array of each has room for them. *)
Theorem command_reaches_handler calls payload acts seq w :
  connected g fw p -> calls_in MESSAGE_HEADER_SIZE calls payload acts ->
  fw_dispatch (frame seq payload) w = run_calls acts w /\
  Forall (fun a => exists id, index_func fw id = a.1.1 /\ length a.2 = cp_num_args (command_index flag_value fw id)) acts.
Proof.
  intros C H. split.
  - unfold command_dispatch. rewrite frame_length. unfold frame.
    set (crc := crc16_ccitt _). change ((?a :: seq :: payload) ++ ?t) with ([a; seq] ++ payload ++ t).
    replace (length payload + MESSAGE_MIN - MESSAGE_TRAILER_SIZE)%nat
      with (length [Z.of_nat (length payload + MESSAGE_MIN); seq] + length payload)%nat
      by (unfold MESSAGE_MIN, MESSAGE_TRAILER_SIZE; cbn [length]; lia).
    eapply (dispatch_calls 2); [done|exact H|done|unfold MESSAGE_MIN; lia].
  - induction H as [|pos n vs calls mf cmd fn fl payload acts Hmf He Hc Hn Hr H IH]; constructor; [|done].
    destruct (connected_command n mf fn fl C Hmf Hc Hn) as (encid & _ & _ & _ & _ & Ha & _ & Hfn). exists encid.
    split; [done|]. rewrite Ha. apply bind_Ok in He as (body & Eb & _). by eapply command_args_length.
Qed.
End commands.

(** ** Responses *)

(** The number the host gets for an argument of an integer type. *)
Definition wire_value (t : param_type) (v : Z) : Z := if is_signed t then signed_value (u32 v) else u32 v.

(** What an argument of [sendf] means to the host. *)
Inductive received : host_type -> va_arg -> value -> Prop :=
| received_int t v : is_int_type t = true -> received (Plain t) (VInt v) (PInt v)
| received_enum t name rev v : is_int_type t = true ->
    received (Enumeration t name rev) (VInt v) (PStr (default ("?"%string +:+ str_of_int v) (dget v rev)))
| received_string s : received (Plain PT_string) (VString s) (PBytes s)
| received_buffer t v s : t = PT_progmem_buffer \/ t = PT_buffer ->
    received (Plain t) (VBuffer v s) (PBytes (take (Z.to_nat (u32 v)) s)).

(** Enumerations are numbers. *)
Definition enum_int (t : host_type) : bool := match t with Enumeration t _ _ => is_int_type t | Plain _ => true end.

(** Numbers that the encoding of the wire can tell apart, which leaves out signed
    numbers below [-(1<<26)], and buffers that are as long as they say. *)
Definition representable (x : param_type * va_arg) : bool :=
  match x.2 with
  | VInt v => if is_signed x.1 then (-0x4000000 <=? v) && (v <? 0x80000000) else (0 <=? v) && (v <? 0x100000000)
  | VString _ => true
  | VBuffer v s => (Z.to_nat (u32 v) <=? length s)%nat
  end.

Lemma wire_value_exact t v : representable (t, VInt v) = true -> wire_value t v = v.
Proof.
  unfold representable, wire_value, signed_value. cbn [fst snd]. intros H. destruct (is_signed t); apply andb_true_iff in H as [H1 H2];
    apply Z.leb_le in H1; apply Z.ltb_lt in H2; [|by apply u32_small].
  assert (s32 (u32 v) = v) as -> by word. by rewrite (proj2 (Z.ltb_ge _ _)) by lia.
Qed.

(** A message that is not given up for lack of space holds its strings whole. *)
Lemma encoded_room maxend ts args out msglen res :
  command_encode_params maxend ts args out = Encoded msglen res -> (enc_p out <= maxend)%nat.
Proof.
  destruct ts; cbn [command_encode_params]; [destruct (Nat.ltb_spec maxend (enc_p out))|destruct (Nat.ltb_spec maxend (enc_p out + 2))];
    (done || lia).
Qed.

Lemma encode_string_whole maxend p s :
  (p + length (encode_string maxend p s) <= maxend)%nat -> encode_string maxend p s = s.
Proof.
  revert p. induction s as [|c s IH]; intros p; cbn [encode_string]; [done|].
  destruct (Nat.leb_spec p maxend) as [Hp|Hp]; cbn [length]; [|lia]. intros H. f_equal. apply IH. lia.
Qed.

Lemma string_parse_at pre b post : (length b < 256)%nat ->
  string_parse (pre ++ (Z.of_nat (length b) :: b) ++ post) (length pre) = Ok (b, (length pre + length (Z.of_nat (length b) :: b))%nat).
Proof.
  intros Hb. unfold string_parse. rewrite lookup_app_r, Nat.sub_diag by lia. cbn [app lookup list_lookup need mbind res_bind length].
  rewrite Nat2Z.id. f_equal. f_equal; [|lia].
  rewrite (cons_middle _ pre), app_assoc, drop_app_length' by (rewrite length_app; cbn; lia).
  replace (length pre + length b + 1 - (length pre + 1))%nat with (length b) by lia. apply take_app_length.
Qed.

(** The bytes [b] of one argument are read as [val]. *)
Definition reads_as (ht : host_type) (b : list Z) (a : va_arg) (val : value) : Prop :=
  received ht a val /\ forall pre post, type_parse ht (pre ++ b ++ post) (length pre) = Ok (val, (length pre + length b)%nat).

Lemma type_parse_int t ht v : types_of ht = t -> is_int_type t = true -> enum_int ht = true -> representable (t, VInt v) = true ->
  exists val, reads_as ht (encode_int (u32 v)) (VInt v) val.
Proof.
  intros <- Ht He Hv. assert (P : forall pre post, plain_parse (types_of ht) (pre ++ encode_int (u32 v) ++ post) (length pre)
    = Ok (PInt v, (length pre + length (encode_int (u32 v)))%nat)).
  { intros pre post. unfold plain_parse. rewrite Ht, int_parse_firmware by word.
    change (if is_signed _ then _ else _) with (wire_value (types_of ht) v). by rewrite wire_value_exact. }
  destruct ht as [t|t name rev]; cbn [types_of] in *; eexists; (split; [by constructor|]); intros pre post; cbn [type_parse]; by rewrite P.
Qed.

Lemma encode_param maxend t ts a args out msglen res ht :
  (maxend < 200)%nat -> types_of ht = t -> enum_int ht = true -> representable (t, a) = true ->
  command_encode_params maxend (t :: ts) (a :: args) out = Encoded msglen res ->
  exists b val, reads_as ht b a val /\ command_encode_params maxend ts args (out ++ b) = Encoded msglen res.
Proof.
  intros Hmax Ht He Hf. cbn [command_encode_params]. destruct (_ <? _)%nat; [done|].
  assert (Hint : forall v, is_int_type t = true -> a = VInt v -> command_encode_params maxend ts args (out ++ encode_int (u32 v)) = Encoded msglen res ->
    exists b val, reads_as ht b a val /\ command_encode_params maxend ts args (out ++ b) = Encoded msglen res).
  { intros v Hi -> E. destruct (type_parse_int t ht v Ht Hi He Hf) as [val R]. by exists (encode_int (u32 v)), val. }
  assert (Hbuf : forall v s, t = PT_progmem_buffer \/ t = PT_buffer -> a = VBuffer v s -> u32 v < Z.of_nat (maxend - enc_p out) ->
    command_encode_params maxend ts args (out ++ u8 v :: take (Z.to_nat (u32 v)) s) = Encoded msglen res ->
    exists b val, reads_as ht b a val /\ command_encode_params maxend ts args (out ++ b) = Encoded msglen res).
  { intros v s Hb -> Hv E. set (b := take (Z.to_nat (u32 v)) s) in *. cbn in Hf. apply Nat.leb_le in Hf.
    assert (Hlen : length b = Z.to_nat (u32 v)) by (unfold b; rewrite length_take; lia).
    assert (u8 v = Z.of_nat (length b)) as Hu by (rewrite Hlen; word). rewrite Hu in E.
    exists (Z.of_nat (length b) :: b), (PBytes b). split; [|done]. destruct ht as [t'|t']; cbn in Ht, He; subst t'; [|by destruct Hb as [-> | ->]].
    split; [by constructor|]. intros pre post. cbn [type_parse]. unfold plain_parse.
    assert (is_int_type t = false) as -> by (by destruct Hb as [-> | ->]). rewrite string_parse_at by (rewrite Hlen; word). done. }
  destruct t; try (destruct a as [v| |]; [intros E; by apply (Hint v)|done|done]).
  - destruct a as [|s|]; try done. set (b := encode_string maxend (S (enc_p out)) s) in *. intros E.
    pose proof (encoded_room _ _ _ _ _ _ E) as Hr. unfold enc_p in Hr at 1. rewrite length_app in Hr. cbn [length] in Hr.
    assert (Hb : b = s) by (apply encode_string_whole; fold b; unfold enc_p in *; lia).
    assert (u8 (Z.of_nat (length b)) = Z.of_nat (length b)) as Eu by (unfold enc_p in *; word). rewrite Eu, Hb in *.
    exists (Z.of_nat (length s) :: s), (PBytes s). split; [|done]. destruct ht as [t|t]; cbn in Ht, He; subst t; [|done].
    split; [by constructor|]. intros pre post. cbn [type_parse plain_parse is_int_type]. by rewrite string_parse_at by lia.
  - destruct a as [| |v s]; try done. destruct (Z.leb_spec (Z.of_nat (maxend - enc_p out)) (u32 v)); [done|]. by apply Hbuf; [left|..].
  - destruct a as [| |v s]; try done. destruct (Z.leb_spec (Z.of_nat (maxend - enc_p out)) (u32 v)); [done|]. by apply Hbuf; [right|..].
Qed.

Lemma encode_params_received maxend ps args out msglen res :
  (maxend < 200)%nat -> forallb enum_int ps.*2 = true -> forallb representable (zip (types_of <$> ps.*2) args) = true ->
  command_encode_params maxend (types_of <$> ps.*2) args out = Encoded msglen res ->
  exists body vals, res = out ++ body /\ msglen = (enc_p res + MESSAGE_TRAILER_SIZE)%nat /\
    Forall3 received ps.*2 (take (length ps) args) vals /\
    forall pre post acc, parse_named ps (pre ++ body ++ post) (length pre) acc
      = Ok (dupdate acc (zip ps.*1 vals), (length pre + length body)%nat).
Proof.
  intros Hmax. revert args out. induction ps as [|[n t] ps IH]; intros args out He Hf E.
  { cbn [fmap list_fmap command_encode_params] in E. destruct (_ <? _)%nat; [done|]. injection E as <- <-.
    exists [], []. rewrite app_nil_r. split_and!; try done; [constructor|]. intros pre post acc. cbn. by rewrite Nat.add_0_r. }
  cbn [fmap list_fmap snd forallb] in He, E. apply andb_true_iff in He as [He1 He].
  destruct args as [|a args]. { cbn [command_encode_params] in E. destruct (_ <? _)%nat; [done|]. by destruct (types_of t). }
  cbn [fmap list_fmap snd zip forallb] in Hf. apply andb_true_iff in Hf as [Hf1 Hf].
  apply (encode_param _ _ _ _ _ _ _ _ t) in E as (b & val & [R P] & E); [|done..].
  apply IH in E as (body & vals & -> & Hm & F & Q); [|done..]. exists (b ++ body), (val :: vals). split_and!.
  - by rewrite app_assoc.
  - done.
  - cbn. by constructor.
  - intros pre post acc. cbn [parse_named]. rewrite <- app_assoc, P. cbn [mbind res_bind].
    specialize (Q (pre ++ b) post (dset n val acc)). rewrite <- app_assoc, length_app in Q. rewrite Q. cbn.
    rewrite length_app. do 2 f_equal. lia.
Qed.

Lemma MessageFormat_init_format ids m enums mf : MessageFormat_init ids m enums = Ok mf -> mf_msgformat mf = m.
Proof. by intros (n & _ & (l & _ & [= <-])%bind_Ok)%bind_Ok. Qed.

Lemma max_size_range encid types : (MESSAGE_MIN < Z.to_nat (max_size encid types) <= MESSAGE_MAX)%nat.
Proof.
  assert (H : 0 <= foldr Z.add 0 (max_length <$> types)) by (induction types as [|t ts IH]; cbn in *; [lia|destruct t; cbn; lia]).
  unfold max_size, msgid_size, MESSAGE_MIN, MESSAGE_MAX. destruct (_ <=? _); lia.
Qed.

(** Parsing a block that holds one message of a known format. *)
Lemma parse_frame p encid mf body vals seq :
  0 <= encid < 0x3fe0 -> dget (msgid_of encid) (messages_by_id p) = Some (Message mf) -> mf_msgid_bytes mf = encode_msgid encid ->
  (forall pre post acc, parse_named (mf_param_names mf) (pre ++ body ++ post) (length pre) acc
     = Ok (dupdate acc (zip (mf_param_names mf).*1 vals), (length pre + length body)%nat)) ->
  parse p (frame seq (encode_msgid encid ++ body))
  = Ok (dset "#name"%string (PStr (mf_name mf)) (dupdate [] (zip (mf_param_names mf).*1 vals))).
Proof.
  intros Hb Hid Hbytes Q. unfold parse. rewrite frame_length. unfold frame. set (crc := crc16_ccitt _). set (payload := encode_msgid encid ++ body).
  set (len := Z.of_nat (length payload + MESSAGE_MIN)).
  change ((len :: seq :: payload) ++ ?t) with ([len; seq] ++ payload ++ t). unfold payload. rewrite <- app_assoc.
  set (post := [Z.shiftr crc 8; u8 crc; MESSAGE_SYNC]).
  assert (Em : message_at p ([len; seq] ++ encode_msgid encid ++ body ++ post) MESSAGE_HEADER_SIZE = Ok (Message mf)).
  { unfold message_at. destruct (encode_msgid_host encid Hb) as [_ <-].
    destruct (int_parse_encode [len; seq] (body ++ post) (msgid_of encid)) as (w & Ew & _ & Hw).
    change (length [len; seq]) with MESSAGE_HEADER_SIZE in Ew. rewrite Ew. cbn.
    rewrite Hw by (pose proof (msgid_of_range encid Hb); lia). by rewrite Hid. }
  rewrite Em. cbn [mbind res_bind message_parse]. unfold MessageFormat_parse. rewrite Hbytes.
  specialize (Q ([len; seq] ++ encode_msgid encid) post []). rewrite <- app_assoc, length_app in Q.
  change (length [len; seq]) with MESSAGE_HEADER_SIZE in Q. rewrite Q. cbn [mbind res_bind].
  rewrite (proj2 (Nat.eqb_eq _ _)); [done|]. rewrite length_app. unfold MESSAGE_HEADER_SIZE, MESSAGE_MIN, MESSAGE_TRAILER_SIZE. lia.
Qed.

(** C13: Responses reach the host.  Let the firmware be built from any declarations
    with at most 0x3fe0 messages, and let the host read the data dictionary of that
    build.  When the firmware encodes a message with the encoder generated for its
    format, the host parses the block into the name of the message and, under the
    name of each parameter, the value that was sent: numbers exactly, an
    enumeration by its name, buffers and strings as their bytes.  Unsigned numbers
    must fit 32 bits and signed ones must not be below [-(1<<26)], which the wire
    does not distinguish from large positive ones. *)
Theorem response_reaches_host g fw p m e buf_size args msglen out seq :
  connected g fw p -> dget m (fw_encoders fw) = Some e ->
  command_encodef buf_size (encoder_of fw e) args = Encoded msglen out ->
  forallb representable (zip (ce_param_types (encoder_of fw e)) args) = true ->
  exists mf, dget (mf_name mf) (messages_by_name p) = Some mf /\ mf_msgformat mf = m /\
    (forallb enum_int (mf_param_types mf) = true -> msglen = length (frame seq out) /\ exists vals,
       Forall3 received (mf_param_types mf) (take (length (mf_param_types mf)) args) vals /\
       parse p (frame seq out) = Ok (dset "#name"%string (PStr (mf_name mf)) (dupdate [] (zip (mf_param_names mf).*1 vals)))).
Proof.
  intros C He E Hf. pose proof (connected_tables _ _ _ C) as T.
  destruct (tk_encoder _ _ T m e He) as (n & encid & types & Hn & Hid & Ht & Henc).
  destruct (connected_message g fw p n m C Hn) as (encid' & mf & Hid' & Hb & Hi & <- & Hbyid & Hbyname).
  replace encid' with encid in * by congruence. clear Hid'. exists mf. split_and!; [done|by apply MessageFormat_init_format in Hi|].
  apply MessageFormat_init_Ok in Hi as (Hbytes & _ & Hp). intros Hen. rewrite Henc in E, Hf.
  assert (Hms : (MESSAGE_MIN < Z.to_nat (max_size encid types) <= MESSAGE_MAX)%nat) by apply max_size_range.
  unfold command_encodef in E. cbn [ce_max_size ce_param_types ce_encoded_msgid] in E, Hf.
  rewrite (proj2 (Nat.leb_gt _ _)) in E by lia. pose proof (lookup_params_types m (enumerations p) _ types Hp Ht) as Et. subst types.
  apply encode_params_received in E as (body & vals & -> & -> & F & Q);
    [|unfold MESSAGE_HEADER_SIZE, MESSAGE_MIN, MESSAGE_MAX in *; case_match eqn:Hl; [apply Nat.ltb_lt in Hl|]; lia|done..].
  split; [rewrite frame_length; unfold enc_p, MESSAGE_HEADER_SIZE, MESSAGE_TRAILER_SIZE, MESSAGE_MIN; lia|].
  exists vals. split; [unfold mf_param_types; by rewrite length_fmap|]. by apply parse_frame.
Qed.

(** ** A small firmware *)

Definition get_ok {A} (d : A) (r : res A) : A := match r with Ok a => a | Raise _ => d end.
Definition wit_commands : HandleCommandGeneration :=
  Eval vm_compute in get_ok generation_init
    (decl_command "DECL_COMMAND_FLAGS command_identify HF_IN_SHUTDOWN identify offset=%u count=%c" generation_init ≫=
     decl_command "DECL_COMMAND_FLAGS command_set_pin 0 set_pin pin=%u level=%hi data=%*s").
Definition wit_encoders : HandleCommandGeneration :=
  Eval vm_compute in get_ok generation_init (decl_encoder "_DECL_ENCODER pin_state pin=%u level=%i data=%.*s" wit_commands).
Definition wit_requests : HandleCommandGeneration :=
  Eval vm_compute in get_ok generation_init (decl_output "_DECL_OUTPUT note %s" wit_encoders).
Definition wit_built : HandleCommandGeneration * firmware :=
  Eval vm_compute in get_ok (generation_init, mk_firmware [] [] [] []) (generate_code wit_requests).
Definition wit_messages : list (string * Z) * list (string * Z) * list (string * Z) :=
  Eval vm_compute in get_ok ([], [], []) (messages_dictionary wit_built.1).
Definition wit_dictionary : data_dictionary :=
  mk_data_dictionary [("pin", [("PA0", Range 0 16)])]%string (Some (reverse wit_messages.1.1)) (Some wit_messages.1.2)
    wit_messages.2 [] None "v1" "gcc".
Definition wit_parser : MessageParser :=
  Eval vm_compute in (process_identify Ok (fun _ => Ok wit_dictionary) true [] (MessageParser_init "mcu: ")).1.

Lemma wit_connected : connected wit_built.1 wit_built.2 wit_parser.
Proof.
  refine (connect _ _ _ wit_requests wit_messages.1.1 wit_messages.1.2 wit_messages.2 Ok (fun _ => Ok wit_dictionary) [] [] wit_dictionary
    "mcu: " (reverse wit_messages.1.1) wit_messages.1.2 _ _ _ _ eq_refl eq_refl eq_refl _ eq_refl _ _ _).
  - apply (declared_output "_DECL_OUTPUT note %s" wit_encoders); [|vm_compute; reflexivity].
    apply (declared_encoder "_DECL_ENCODER pin_state pin=%u level=%i data=%.*s" wit_commands); [|vm_compute; reflexivity].
    apply (declared_command "DECL_COMMAND_FLAGS command_set_pin 0 set_pin pin=%u level=%hi data=%*s"
      (get_ok generation_init (decl_command "DECL_COMMAND_FLAGS command_identify HF_IN_SHUTDOWN identify offset=%u count=%c" generation_init)));
      [|vm_compute; reflexivity].
    apply (declared_command "DECL_COMMAND_FLAGS command_identify HF_IN_SHUTDOWN identify offset=%u count=%c" generation_init);
      [apply declared_init|vm_compute; reflexivity].
  - vm_compute. reflexivity.
  - vm_compute. discriminate.
  - vm_compute. reflexivity.
  - apply reverse_Permutation.
  - apply Permutation_refl.
  - apply Permutation_refl.
  - vm_compute. reflexivity.
Qed.

Definition wit_calls : list (string * list value) :=
  [("set_pin", [PStr "PA3"; PInt (-5); PBytes [7; 8]]); ("identify", [PInt 40; PInt 4000000000])]%string.
Definition wit_acts : list (string * string * list Z) :=
  [("command_set_pin", "0", [3; 0xfffffffb; 2; 6]); ("command_identify", "HF_IN_SHUTDOWN", [40; 4000000000])]%string.

(** The handlers log their calls. *)
Lemma command_reaches_handler_witness :
  let payload := [2; 3; 0x7b; 2; 7; 8; 1; 40; 0x8e; 0xf3; 0xac; 0xd0; 0] in
  let handlers (fn : string) (args : list Z) := modify (fun log : list (string * list Z) => log ++ [(fn, args)]) in
  command_dispatch 8 0 (command_index (fun _ => 0) wit_built.2) (command_index_size wit_built.2)
    (fun _ => false) (ret tt) (fun id => handlers (index_func wit_built.2 id)) (frame 0x11 payload) []
  = DispatchDone [("command_set_pin", [3; 0xfffffffb; 2; 6]); ("command_identify", [40; 4000000000])]%string.
Proof.
  intros payload handlers.
  refine (proj1 (command_reaches_handler 8 0 (fun _ => 0) handlers (fun _ => false) (ret tt) wit_built.1 wit_built.2 wit_parser
    wit_calls payload wit_acts 0x11 [] wit_connected _)).
  refine (calls_cons 8 0 wit_built.1 wit_parser 2 "set_pin" [PStr "PA3"; PInt (-5); PBytes [7; 8]] [("identify"%string, [PInt 40; PInt 4000000000])]
    (get_ok (mk_MessageFormat [] "" "" "" []) (need (dget "set_pin"%string (messages_by_name wit_parser)))) [2; 3; 0x7b; 2; 7; 8] "command_set_pin" "0"
    _ _ _ _ _ _ _ _); [vm_compute; reflexivity..|vm_compute; discriminate|vm_compute; reflexivity|].
  refine (calls_cons 8 0 wit_built.1 wit_parser 8 "identify" [PInt 40; PInt 4000000000] []
    (get_ok (mk_MessageFormat [] "" "" "" []) (need (dget "identify"%string (messages_by_name wit_parser)))) [1; 40; 0x8e; 0xf3; 0xac; 0xd0; 0]
    "command_identify" "HF_IN_SHUTDOWN" _ _ _ _ _ _ _ _); [vm_compute; reflexivity..|vm_compute; discriminate|vm_compute; reflexivity|].
  apply calls_nil.
Defined.

Definition wit_encoder : encoder_code := mk_encoder_code (mk_parser_code 3 3 (Some 0%nat)) 64 9.
Definition wit_args : list va_arg := [VInt 5; VInt (-60000000); VBuffer 3 [1; 2; 3; 4]].
Definition wit_out : list Z :=
  Eval vm_compute in match command_encodef 64 (encoder_of wit_built.2 wit_encoder) wit_args with Encoded _ out => out | _ => [] end.

Lemma response_reaches_host_witness :
  exists mf, dget (mf_name mf) (messages_by_name wit_parser) = Some mf /\ mf_msgformat mf = "pin_state pin=%u level=%i data=%.*s"%string /\
    (forallb enum_int (mf_param_types mf) = true -> 15%nat = length (frame 0x10 wit_out) /\ exists vals,
       Forall3 received (mf_param_types mf) (take (length (mf_param_types mf)) wit_args) vals /\
       parse wit_parser (frame 0x10 wit_out)
       = Ok (dset "#name"%string (PStr (mf_name mf)) (dupdate [] (zip (mf_param_names mf).*1 vals)))).
Proof.
  refine (response_reaches_host wit_built.1 wit_built.2 wit_parser _ wit_encoder 64 wit_args _ _ 0x10 wit_connected _ _ _).
  - vm_compute. reflexivity.
  - vm_compute. reflexivity.
  - vm_compute. reflexivity.
Defined.

(** The parsed message. *)
Lemma wit_response : parse wit_parser (frame 0x10 wit_out)
  = Ok [("pin", PStr "PA5"); ("level", PInt (-60000000)); ("data", PBytes [1; 2; 3]); ("#name", PStr "pin_state")]%string.
Proof. vm_compute. reflexivity. Qed.
