(* ===== verification/Stepcompress.v ===== *)
(** * Step time compression on the host (klippy/chelper/stepcompress.c)

    The host turns a queue of absolute step times into [queue_step] commands
    (interval, count, add).  This file models the queue, the compression and
    the history; [CompressProof] shows that the compression is always valid and
    what it means for the step times on the micro-controller. *)

From S2P Require Import Prelude Buffer Double Msgblock.

(** ** Data *)

Record step_move := mk_step_move { sm_interval : Z; sm_count : Z; sm_add : Z }.

(** The conversions of [(struct step_move){ interval, count, add }]. *)
Definition to_step_move (interval count add : Z) : step_move :=
  mk_step_move (u32 interval) (u16 count) (s16 add).

Record history_steps := mk_history_steps {
  hs_first_clock : Z;
  hs_last_clock : Z;
  hs_start_position : Z;
  hs_step_count : Z;
  hs_interval : Z;
  hs_add : Z }.

Definition encode_message (data : list Z) (min_clock req_clock : Z) : queue_message :=
  message_alloc <| qm_msg := message_alloc_and_encode data |> <| qm_min_clock := min_clock |>
    <| qm_req_clock := req_clock |>.

(** [queue] is the contents of the step buffer, [queue_end], [queue_pos] and
    [queue_next] are offsets from its start. *)
Record stepcompress := mk_stepcompress {
  queue : Z -> Z;
  queue_end : Z;
  queue_pos : Z;
  queue_next : Z;
  max_error : Z;
  mcu_time_offset : double;
  mcu_freq : double;
  last_step_print_time : double;
  last_step_clock : Z;
  msg_queue : list queue_message;
  sc_oid : Z;
  queue_step_msgtag : Z;
  set_next_step_dir_msgtag : Z;
  sdir : Z;
  invert_sdir : Z;
  next_step_clock : Z;
  next_step_dir : Z;
  last_position : Z;
  history_list : list history_steps }.
#[export] Instance eta_stepcompress : Eta stepcompress := fun s =>
  mk_stepcompress (queue s) (queue_end s) (queue_pos s) (queue_next s) (max_error s)
    (mcu_time_offset s) (mcu_freq s) (last_step_print_time s) (last_step_clock s) (msg_queue s)
    (sc_oid s) (queue_step_msgtag s) (set_next_step_dir_msgtag s) (sdir s) (invert_sdir s)
    (next_step_clock s) (next_step_dir s) (last_position s) (history_list s).

Definition QUEUE_START_SIZE : Z := 1024.
Definition ERROR_RET : Z := -989898989.
Definition QUADRATIC_DEV : Z := 11.
Definition CLOCK_DIFF_MAX : Z := Z.shiftl 3 28.
Definition UINT64_MAX : Z := 0xffffffffffffffff.
Definition INT32_MIN : Z := -0x80000000.

(** ** Step compression *)

(** [int32_t] arithmetic.  Signed overflow is undefined in C; the model wraps
    as the supported compilers do, and the proofs show that a wrapped value
    never reaches the result. *)
Notation "a *i b" := (s32 (a * b)) (at level 40, left associativity) : klipper_scope.
Notation "a +i b" := (s32 (a + b)) (at level 50, left associativity) : klipper_scope.
Notation "a -i b" := (s32 (a - b)) (at level 50, left associativity) : klipper_scope.

Definition idiv_up (n d : Z) : Z :=
  if 0 <=? n then Z.quot (n +i d -i 1) d else Z.quot n d.
Definition idiv_down (n d : Z) : Z :=
  if 0 <=? n then Z.quot n d else Z.quot (n -i d +i 1) d.

(** [count*(count-1)/2] in [int] arithmetic. *)
Definition addfactor (count : Z) : Z := Z.quot (count *i (count - 1)) 2.

Record points := mk_points { minp : Z; maxp : Z }.

(** [pos] is an offset in the queue. *)
Definition minmax_point (sc : stepcompress) (pos : Z) : points :=
  let lsc := u32 (last_step_clock sc) in
  let point := u32 (queue sc pos - lsc) in
  let prevpoint := if queue_pos sc <? pos then u32 (queue sc (pos - 1) - lsc) else 0 in
  let err := u32 (point - prevpoint) / 2 in
  let err := if max_error sc <? err then max_error sc else err in
  mk_points (s32 (u32 (point - err))) (s32 point).

(** The inner loop: the longest valid sequence with the given [add].  It either
    reaches [qlast] and returns the move, or stops at a point that no interval
    fits. *)
Inductive extend_result : Type :=
| ReachedEnd (interval count : Z)
| Stopped (nextcount : Z) (nextpoint : points) (nextmininterval nextmaxinterval interval : Z).

Fixpoint extend_sequence (fuel : nat) (sc : stepcompress) (qlast add : Z)
    (nextmininterval nextmaxinterval interval nextcount : Z) : option extend_result :=
  match fuel with
  | O => None
  | S fuel =>
    let nextcount := nextcount + 1 in
    if qlast <=? queue_pos sc + (nextcount - 1) then Some (ReachedEnd interval (nextcount - 1))
    else
      let nextpoint := minmax_point sc (queue_pos sc + nextcount - 1) in
      let nextaddfactor := addfactor nextcount in
      let c := add *i nextaddfactor in
      let nextmininterval :=
        if nextmininterval *i nextcount <? minp nextpoint -i c
        then idiv_up (minp nextpoint -i c) nextcount else nextmininterval in
      let nextmaxinterval :=
        if maxp nextpoint -i c <? nextmaxinterval *i nextcount
        then idiv_down (maxp nextpoint -i c) nextcount else nextmaxinterval in
      if nextmaxinterval <? nextmininterval
      then Some (Stopped nextcount nextpoint nextmininterval nextmaxinterval interval)
      else extend_sequence fuel sc qlast add nextmininterval nextmaxinterval nextmaxinterval nextcount
  end.

(** The local variables of the outer loop. *)
Record bisect := mk_bisect {
  outer_mininterval : Z;
  outer_maxinterval : Z;
  b_add : Z;
  minadd : Z;
  maxadd : Z;
  bestinterval : Z;
  bestcount : Z;
  bestadd : Z;
  bestreach : Z;
  zerointerval : Z;
  zerocount : Z }.
#[export] Instance eta_bisect : Eta bisect := fun b =>
  mk_bisect (outer_mininterval b) (outer_maxinterval b) (b_add b) (minadd b) (maxadd b)
    (bestinterval b) (bestcount b) (bestadd b) (bestreach b) (zerointerval b) (zerocount b).

(** "Check if this is the best sequence found so far", and whether the search
    stops there. *)
Definition update_best (b : bisect) (interval count : Z) : bisect * bool :=
  let reach := (b_add b *i addfactor count) +i (interval *i count) in
  if (bestreach b <? reach) || ((reach =? bestreach b) && (bestinterval b <? interval)) then
    let b := b <| bestinterval := interval |> <| bestcount := count |> <| bestadd := b_add b |>
               <| bestreach := reach |> in
    let b := if b_add b =? 0 then b <| zerointerval := interval |> <| zerocount := count |> else b in
    (b, 0x200 <? count)
  else (b, false).

(** "Check if a greater or lesser add could extend the sequence". *)
Definition narrow_add (b : bisect) (nextcount : Z) (nextpoint : points)
    (nextmininterval nextmaxinterval interval : Z) : bisect :=
  let nextreach := (b_add b *i addfactor nextcount) +i (interval *i nextcount) in
  if nextreach <? minp nextpoint
  then b <| minadd := b_add b + 1 |> <| outer_maxinterval := nextmaxinterval |>
  else b <| maxadd := b_add b - 1 |> <| outer_mininterval := nextmininterval |>.

(** The maximum valid deviation between two quadratic sequences. *)
Definition limit_deviation (sc : stepcompress) (b : bisect) (count : Z) : bisect :=
  if 1 <? count then
    let errdelta := s32 (u32 (max_error sc * QUADRATIC_DEV) / u32 (count *i count)) in
    let b := if minadd b <? b_add b -i errdelta then b <| minadd := b_add b -i errdelta |> else b in
    if b_add b +i errdelta <? maxadd b then b <| maxadd := b_add b +i errdelta |> else b
  else b.

(** "See if next point would further limit the add range". *)
Definition limit_next (b : bisect) (nextcount : Z) (nextpoint : points) : bisect :=
  let nextaddfactor := addfactor nextcount in
  let c := outer_maxinterval b *i nextcount in
  let b := if minadd b *i nextaddfactor <? minp nextpoint -i c
           then b <| minadd := idiv_up (minp nextpoint -i c) nextaddfactor |> else b in
  let c := outer_mininterval b *i nextcount in
  if maxp nextpoint -i c <? maxadd b *i nextaddfactor
  then b <| maxadd := idiv_down (maxp nextpoint -i c) nextaddfactor |> else b.

(** The outer loop; [inr] is the state it leaves with [break]. *)
Fixpoint bisect_loop (fuel : nat) (sc : stepcompress) (qlast : Z) (b : bisect)
    : option (step_move + bisect) :=
  match fuel with
  | O => None
  | S fuel =>
    match extend_sequence (S (Z.to_nat (qlast - queue_pos sc))) sc qlast (b_add b)
            (outer_mininterval b) (outer_maxinterval b) (outer_maxinterval b) 1 with
    | None => None
    | Some (ReachedEnd interval count) => Some (inl (to_step_move interval count (b_add b)))
    | Some (Stopped nextcount nextpoint nextmin nextmax interval) =>
      let (b, stop) := update_best b interval (nextcount - 1) in
      if stop then Some (inr b) else
      let b := narrow_add b nextcount nextpoint nextmin nextmax interval in
      let b := limit_deviation sc b (nextcount - 1) in
      let b := limit_next b nextcount nextpoint in
      if maxadd b <? minadd b then Some (inr b) else
      bisect_loop fuel sc qlast (b <| b_add := maxadd b - Z.quot (maxadd b - minadd b) 4 |>)
    end
  end.

(** Each round of the outer loop removes at least one value from the range of
    [add], which starts with 2^16 of them. *)
Definition bisect_fuel : nat := Z.to_nat 0x10001.

Definition compress_bisect_add (sc : stepcompress) : option step_move :=
  let qlast := queue_next sc in
  let qlast := if queue_pos sc + 65535 <? qlast then queue_pos sc + 65535 else qlast in
  let point := minmax_point sc (queue_pos sc) in
  let b := mk_bisect (minp point) (maxp point) 0 (-0x8000) 0x7fff 0 1 1 INT32_MIN 0 0 in
  match bisect_loop bisect_fuel sc qlast b with
  | None => None
  | Some (inl move) => Some move
  | Some (inr b) =>
    if bestcount b <=? zerocount b + Z.quot (zerocount b) 16
    then Some (to_step_move (zerointerval b) (zerocount b) 0)
    else Some (to_step_move (bestinterval b) (bestcount b) (bestadd b))
  end.

(** ** Checking a move *)

Fixpoint check_line_loop (n : nat) (sc : stepcompress) (add i interval p : Z) : Z :=
  match n with
  | O => 0
  | S n =>
    let point := minmax_point sc (queue_pos sc + i) in
    let p := u32 (p + interval) in
    if (p <? u32 (minp point)) || (u32 (maxp point) <? p) then ERROR_RET
    else if 0x80000000 <=? interval then ERROR_RET
    else check_line_loop n sc add (i + 1) (u32 (interval + add)) p
  end.

Definition check_line (sc : stepcompress) (move : step_move) : Z :=
  if (sm_count move =? 0)
     || ((sm_interval move =? 0) && (sm_add move =? 0) && (1 <? sm_count move))
     || (0x80000000 <=? sm_interval move)
  then ERROR_RET
  else check_line_loop (Z.to_nat (sm_count move)) sc (sm_add move) 0 (sm_interval move) 0.

(** ** Interface *)

Definition stepcompress_alloc : stepcompress :=
  mk_stepcompress (fun _ => 0) 0 0 0 0 (of_Z 0) (of_Z 0) (of_Z 0) 0 [] 0 0 0 (-1) 0 0 0 0 [].

Definition stepcompress_fill (oid max_err queue_tag dir_tag : Z) (sc : stepcompress) : stepcompress :=
  sc <| sc_oid := oid |> <| max_error := max_err |> <| queue_step_msgtag := queue_tag |>
     <| set_next_step_dir_msgtag := dir_tag |>.

Definition stepcompress_set_invert_sdir (inv : Z) (sc : stepcompress) : stepcompress :=
  let inv := b2z (truthy inv) in
  if negb (inv =? invert_sdir sc) then
    let sc := sc <| invert_sdir := inv |> in
    if 0 <=? sdir sc then sc <| sdir := Z.lxor (sdir sc) 1 |> else sc
  else sc.

(** The history list with its last entry first. *)
Fixpoint history_expire_loop (rev_list : list history_steps) (end_clock : Z) : list history_steps :=
  match rev_list with
  | [] => []
  | hs :: l => if end_clock <? hs_last_clock hs then rev_list else history_expire_loop l end_clock
  end.
Definition stepcompress_history_expire (end_clock : Z) (sc : stepcompress) : stepcompress :=
  sc <| history_list ::= fun l => reverse (history_expire_loop (reverse l) end_clock) |>.

Definition stepcompress_get_oid (sc : stepcompress) : Z := sc_oid sc.
Definition stepcompress_get_step_dir (sc : stepcompress) : Z := next_step_dir sc.

Definition calc_last_step_print_time (sc : stepcompress) : stepcompress :=
  let lsc := of_Z (last_step_clock sc) in
  sc <| last_step_print_time := (mcu_time_offset sc + (lsc - lit 1 2) / mcu_freq sc)%D |>.

Definition stepcompress_set_time (time_offset freq : double) (sc : stepcompress) : stepcompress :=
  calc_last_step_print_time (sc <| mcu_time_offset := time_offset |> <| mcu_freq := freq |>).

Definition add_move (first_clock : Z) (move : step_move) (sc : stepcompress) : stepcompress :=
  let ticks := u32 ((sm_add move *i addfactor (sm_count move))
                    + sm_interval move * (sm_count move - 1)) in
  let last_clock := u64 (first_clock + ticks) in
  let data := [u32 (queue_step_msgtag sc); sc_oid sc; sm_interval move; sm_count move;
               u32 (sm_add move)] in
  let req_clock :=
    if (sm_count move =? 1) && (u64 (last_step_clock sc + CLOCK_DIFF_MAX) <=? first_clock)
    then first_clock else last_step_clock sc in
  let qm := encode_message data (last_step_clock sc) req_clock in
  let step_count := if truthy (sdir sc) then sm_count move else - sm_count move in
  let hs := mk_history_steps first_clock last_clock (last_position sc) step_count
              (s32 (sm_interval move)) (sm_add move) in
  sc <| msg_queue ::= fun l => l ++ [qm] |> <| last_step_clock := last_clock |>
     <| last_position := s64 (last_position sc + step_count) |>
     <| history_list ::= cons hs |>.

(** The [while] loop of [queue_flush]: 0 once it ends, or the error. *)
Fixpoint queue_flush_loop (fuel : nat) (move_clock : Z) : M stepcompress Z := fun sc =>
  match fuel with
  | O => Crash sc
  | S fuel =>
    if negb (last_step_clock sc <? move_clock) then Ret 0 sc else
    match compress_bisect_add sc with
    | None => Crash sc
    | Some move =>
      let r := check_line sc move in
      if truthy r then Ret r sc else
      let sc := add_move (u64 (last_step_clock sc + sm_interval move)) move sc in
      if queue_next sc <=? queue_pos sc + sm_count move
      then Ret 0 (sc <| queue_pos := 0 |> <| queue_next := 0 |>)
      else queue_flush_loop fuel move_clock (sc <| queue_pos := queue_pos sc + sm_count move |>)
    end
  end.

(** Every round sends at least one step. *)
Definition queue_flush (move_clock : Z) : M stepcompress Z := fun sc =>
  if queue_next sc <=? queue_pos sc then Ret 0 sc else
  (r <- queue_flush_loop (S (Z.to_nat (queue_next sc - queue_pos sc))) move_clock;;
   if truthy r then ret r else modify calc_last_step_print_time;;; ret 0) sc.

Definition stepcompress_flush_far (abs_step_clock : Z) (sc : stepcompress) : stepcompress :=
  let move := mk_step_move (u32 (abs_step_clock - last_step_clock sc)) 1 0 in
  calc_last_step_print_time (add_move abs_step_clock move sc).

(** [if (ret) return ret;] *)
Notation "'checked' m ;; k" := (bind m (fun r => if truthy r then ret r else k))
  (at level 100, m at next level, right associativity) : klipper_scope.

Definition set_next_step_dir (new_sdir : Z) : M stepcompress Z := fun sc =>
  if sdir sc =? new_sdir then Ret 0 sc else
  (checked queue_flush UINT64_MAX;;
   modify (fun sc =>
     let sc := sc <| sdir := new_sdir |> in
     let data := [u32 (set_next_step_dir_msgtag sc); sc_oid sc;
                  u32 (Z.lxor new_sdir (invert_sdir sc))] in
     sc <| msg_queue ::= fun l => l ++ [encode_message data 0 (last_step_clock sc)] |>);;;
   ret 0) sc.

(** [sc->queue_next->clock32 = clock; sc->queue_next++] *)
Definition queue_store (clock : Z) : M stepcompress unit := fun sc =>
  if (0 <=? queue_next sc) && (queue_next sc <? queue_end sc)
  then Ret tt (sc <| queue := <[queue_next sc := u32 clock]> (queue sc) |>
                  <| queue_next := queue_next sc + 1 |>)
  else Crash sc.

Definition queue_append_far : M stepcompress Z := fun sc =>
  let step_clock := next_step_clock sc in
  (modify (fun sc => sc <| next_step_clock := 0 |>);;;
   checked queue_flush (u64 (step_clock - CLOCK_DIFF_MAX + 1));;
   (fun sc =>
      if u64 (last_step_clock sc + CLOCK_DIFF_MAX) <=? step_clock
      then Ret 0 (stepcompress_flush_far step_clock sc)
      else (queue_store step_clock;;; ret 0) sc)) sc.

(** [while (in_use >= alloc) alloc *= 2] *)
Fixpoint grow_alloc (fuel : nat) (in_use alloc : Z) : option Z :=
  match fuel with
  | O => None
  | S fuel => if alloc <=? in_use then grow_alloc fuel in_use (alloc *i 2) else Some alloc
  end.

(** Make room at the end of the step buffer. *)
Definition queue_make_room : M stepcompress unit := fun sc =>
  if queue_next sc <? queue_end sc then Ret tt sc else
  let in_use := queue_next sc - queue_pos sc in
  let restart sc := sc <| queue_pos := 0 |> <| queue_next := in_use |> in
  if 0 <? queue_pos sc then
    Ret tt (restart (sc <| queue := fun i =>
      if (0 <=? i) && (i <? in_use) then queue sc (queue_pos sc + i) else queue sc i |>))
  else
    let alloc := if queue_end sc =? 0 then QUEUE_START_SIZE else queue_end sc in
    match grow_alloc 32 in_use alloc with
    | None => Crash sc
    | Some alloc => Ret tt (restart (sc <| queue_end := alloc |>))
    end.

Definition queue_append_extend : M stepcompress Z := fun sc =>
  (checked (if 65535 + 2000 <? queue_next sc - queue_pos sc then
            let flush := u32 (queue sc (queue_next sc - 65535) - u32 (last_step_clock sc)) in
            queue_flush (u64 (last_step_clock sc + flush))
          else ret 0);;
   queue_make_room;;;
   (fun sc => queue_store (next_step_clock sc) sc);;;
   modify (fun sc => sc <| next_step_clock := 0 |>);;;
   ret 0) sc.

Definition queue_append : M stepcompress Z := fun sc =>
  (checked (if negb (next_step_dir sc =? sdir sc) then set_next_step_dir (next_step_dir sc) else ret 0);;
   (fun sc =>
      if u64 (last_step_clock sc + CLOCK_DIFF_MAX) <=? next_step_clock sc then queue_append_far sc
      else if queue_end sc <=? queue_next sc then queue_append_extend sc
      else (queue_store (next_step_clock sc);;;
            modify (fun sc => sc <| next_step_clock := 0 |>);;;
            ret 0) sc)) sc.

Definition SDS_FILTER_TIME : double := lit 750 1000000.

Definition stepcompress_append (new_sdir : Z) (print_time step_time : double) : M stepcompress Z := fun sc =>
  let offset := (print_time - last_step_print_time sc)%D in
  let rel_sc := ((step_time + offset) * mcu_freq sc)%D in
  match to_u64 rel_sc with
  | None => Crash sc
  | Some rel =>
    let step_clock := u64 (last_step_clock sc + rel) in
    let store : M stepcompress Z :=
      modify (fun sc => sc <| next_step_clock := step_clock |> <| next_step_dir := new_sdir |>);;; ret 0 in
    if truthy (next_step_clock sc) then
      let diff := of_Z (s64 (step_clock - next_step_clock sc)) in
      if negb (new_sdir =? next_step_dir sc) && (diff <? SDS_FILTER_TIME * mcu_freq sc)%D
      then Ret 0 (sc <| next_step_clock := 0 |> <| next_step_dir := new_sdir |>)
      else (checked queue_append;; store) sc
    else store sc
  end.

Definition stepcompress_commit : M stepcompress Z := fun sc =>
  if truthy (next_step_clock sc) then queue_append sc else Ret 0 sc.

Definition stepcompress_flush (move_clock : Z) : M stepcompress Z := fun sc =>
  (checked (if truthy (next_step_clock sc) && (next_step_clock sc <=? move_clock)
          then queue_append else ret 0);;
   queue_flush move_clock) sc.

Definition stepcompress_reset (new_clock : Z) : M stepcompress Z :=
  checked stepcompress_flush UINT64_MAX;;
  modify (fun sc => calc_last_step_print_time (sc <| last_step_clock := new_clock |> <| sdir := -1 |>));;;
  ret 0.

Definition stepcompress_set_last_position (clock position : Z) : M stepcompress Z :=
  checked stepcompress_flush UINT64_MAX;;
  modify (fun sc => sc <| last_position := position |>
    <| history_list ::= cons (mk_history_steps clock clock position 0 0 0) |>);;;
  ret 0.

(** The loop of [stepcompress_find_past_position]; [None] is a conversion or a
    division that C leaves undefined. *)
Fixpoint find_past_loop (l : list history_steps) (clock position : Z) : option Z :=
  match l with
  | [] => Some position
  | hs :: l =>
    if clock <? hs_first_clock hs then find_past_loop l clock (hs_start_position hs)
    else if hs_last_clock hs <=? clock then Some (hs_start_position hs + hs_step_count hs)
    else
      let interval := hs_interval hs in
      let add := hs_add hs in
      let ticks := s32 (clock - hs_first_clock hs) +i interval in
      let offset :=
        if add =? 0 then if interval =? 0 then None else Some (Z.quot ticks interval)
        else
          let a := (lit 1 2 * of_Z add)%D in
          let b := (of_Z interval - lit 1 2 * of_Z add)%D in
          let c := of_Z (s32 (- ticks)) in
          to_s32 ((dsqrt (b * b - of_Z 4 * a * c) - b) / (of_Z 2 * a))%D in
      match offset with
      | None => None
      | Some offset => Some (if hs_step_count hs <? 0 then hs_start_position hs - offset
                             else hs_start_position hs + offset)
      end
  end.
Definition stepcompress_find_past_position (clock : Z) (sc : stepcompress) : option Z :=
  find_past_loop (history_list sc) clock (last_position sc).

(** [struct pull_history_steps] has the fields of [history_steps]. *)
Fixpoint stepcompress_extract_loop (l : list history_steps) (room : nat) (start_clock end_clock : Z)
    : list history_steps :=
  match l with
  | [] => []
  | hs :: l =>
    match room with
    | O => []
    | S room' =>
      if hs_last_clock hs <=? start_clock then []
      else if end_clock <=? hs_first_clock hs
      then stepcompress_extract_loop l room start_clock end_clock
      else hs :: stepcompress_extract_loop l room' start_clock end_clock
    end
  end.
Definition stepcompress_extract_old (max : nat) (start_clock end_clock : Z) (sc : stepcompress)
    : list history_steps :=
  stepcompress_extract_loop (history_list sc) max start_clock end_clock.
