(* ===== verification/CompressProof.v ===== *)
(** * Validity of the step compression

    [compress_bisect_add] searches for the quadratic sequence that covers the
    most queued steps.  For any queue of increasing step times it terminates,
    and the sequence it returns hits every acceptance window, so the run-time
    check [check_line] never fails; the 32-bit arithmetic never overflows in a
    way that shows. *)

From S2P Require Import Prelude Buffer Msgblock Double Stepcompress.

(** ** Quadratic sequences *)

(** The [k]-th step of a move, relative to the previous step. *)
Definition tri (k : Z) : Z := k * (k - 1) / 2.
Definition val (interval add k : Z) : Z := interval * k + add * tri k.

Lemma tri_double k : 2 * tri k = k * (k - 1).
Proof.
  unfold tri. assert (Hm : (k * (k - 1)) mod 2 = 0).
  { rewrite Zmult_mod, Zminus_mod. assert (k mod 2 = 0 \/ k mod 2 = 1) as [-> | ->] by
      (pose proof (Z.mod_pos_bound k 2); lia); reflexivity. }
  pose proof (Z.div_mod (k * (k - 1)) 2). lia.
Qed.

Lemma tri_succ k : tri (k + 1) = tri k + k.
Proof. pose proof (tri_double k). pose proof (tri_double (k + 1)). nia. Qed.

Lemma tri_nonneg k : 1 <= k -> 0 <= tri k.
Proof. pose proof (tri_double k). nia. Qed.

Lemma tri_1 : tri 1 = 0. Proof. reflexivity. Qed.

Lemma val_succ i a k : val i a (k + 1) = val i a k + (i + a * k).
Proof. unfold val. rewrite tri_succ. lia. Qed.

Lemma val_mono i j a k : 0 <= k -> i <= j -> val i a k <= val j a k.
Proof. unfold val. nia. Qed.

(** [addfactor] computes [tri] as long as the product fits an [int]. *)
Lemma addfactor_tri k : 1 <= k <= 46340 -> addfactor k = tri k.
Proof.
  intros Hk. unfold addfactor, tri. rewrite s32_small by nia.
  apply Z.quot_div_nonneg; nia.
Qed.

Lemma mul_lt_cancel t a b : 0 < t -> a * t < t * b -> a < b.
Proof. nia. Qed.

Lemma idiv_up_spec x d :
  0 < d < 0x100000 -> -0x78000000 <= x <= 0x78000000 -> d * (idiv_up x d - 1) < x <= d * idiv_up x d.
Proof.
  intros Hd Hx. unfold idiv_up. destruct (Z.leb_spec 0 x).
  - rewrite (s32_small (x + d)), s32_small by lia. rewrite Z.quot_div_nonneg by lia.
    pose proof (Z.div_mod (x + d - 1) d ltac:(lia)). pose proof (Z.mod_pos_bound (x + d - 1) d ltac:(lia)). lia.
  - pose proof (Z.quot_rem' x d). pose proof (Z.rem_bound_pos_neg x d ltac:(lia) ltac:(lia)). lia.
Qed.

Lemma idiv_down_spec x d :
  0 < d < 0x100000 -> -0x78000000 <= x <= 0x78000000 -> d * idiv_down x d <= x < d * (idiv_down x d + 1).
Proof.
  intros Hd Hx. unfold idiv_down. destruct (Z.leb_spec 0 x).
  - rewrite Z.quot_div_nonneg by lia. pose proof (Z.div_mod x d ltac:(lia)).
    pose proof (Z.mod_pos_bound x d ltac:(lia)). lia.
  - rewrite (s32_small (x - d)), s32_small by lia.
    pose proof (Z.quot_rem' (x - d + 1) d). destruct (Z.leb_spec 0 (x - d + 1)).
    + lia.
    + pose proof (Z.rem_bound_pos_neg (x - d + 1) d ltac:(lia) ltac:(lia)). lia.
Qed.

(** ** Acceptance windows *)

Definition MAX_ERROR : Z := 0x80000.

(** The windows [lo k .. hi k] of the steps [1 .. len]. *)
Record windows (lo hi : Z -> Z) (len err : Z) : Prop := {
  wn_first : 0 <= lo 1;
  wn_step : forall k, 1 <= k < len -> hi k < lo (k + 1);
  wn_le : forall k, 1 <= k <= len -> lo k <= hi k;
  wn_err : forall k, 1 <= k <= len -> hi k <= lo k + err;
  wn_top : forall k, 1 <= k <= len -> hi k < CLOCK_DIFF_MAX;
  wn_len : 1 <= len <= 65535;
  wn_max : 0 <= err <= MAX_ERROR }.

(** A sequence that hits the first [m] windows. *)
Definition valid (lo hi : Z -> Z) (add interval m : Z) : Prop :=
  forall k, 1 <= k <= m -> lo k <= val interval add k <= hi k.

Section windows.
Context (lo hi : Z -> Z) (len err : Z) (W : windows lo hi len err).
Local Abbreviation valid := (valid lo hi).

Lemma hi_mono j k : 1 <= j -> j <= k -> k <= len -> hi j <= hi k.
Proof.
  intros Hj Hk. revert k Hk. apply (Zlt_lower_bound_ind (fun k => k <= len -> hi j <= hi k)).
  intros k IH Hk Hl. destruct (decide (k = j)) as [->|]; [lia|].
  specialize (IH (k - 1) ltac:(lia) ltac:(lia)).
  pose proof (wn_step _ _ _ _ W (k - 1) ltac:(lia)). pose proof (wn_le _ _ _ _ W k ltac:(lia)).
  replace (k - 1 + 1) with k in * by lia. lia.
Qed.

Lemma hi_lo j k : 1 <= j -> j < k -> k <= len -> hi j < lo k.
Proof.
  intros. pose proof (hi_mono j (k - 1) ltac:(lia) ltac:(lia) ltac:(lia)).
  pose proof (wn_step _ _ _ _ W (k - 1) ltac:(lia)). replace (k - 1 + 1) with k in * by lia. lia.
Qed.

Lemma valid_ext a i m :
  valid a i m -> lo (m + 1) <= val i a (m + 1) <= hi (m + 1) -> valid a i (m + 1).
Proof. intros H ? k Hk. destruct (decide (k = m + 1)) as [->|]; [done|]. apply H. lia. Qed.

(** Steps of a valid sequence come in order: the interval stays positive. *)
Lemma valid_interval a i m k : valid a i m -> 1 <= k < m -> m <= len -> 0 < i + a * k.
Proof.
  intros H Hk Hm. pose proof (H k ltac:(lia)). pose proof (H (k + 1) ltac:(lia)).
  rewrite val_succ in *. pose proof (wn_step _ _ _ _ W k ltac:(lia)). lia.
Qed.

Lemma valid_first a i m : valid a i m -> 1 <= m -> lo 1 <= i <= hi 1.
Proof. intros H Hm. pose proof (H 1 ltac:(lia)). unfold val in *. rewrite tri_1 in *. lia. Qed.

(** The quadratic part of a valid sequence stays below its total length. *)
Lemma valid_quadratic a i m :
  valid a i m -> 1 <= m <= len -> Z.abs a * tri m < CLOCK_DIFF_MAX.
Proof.
  intros H Hm. pose proof (H m ltac:(lia)) as Hv. pose proof (wn_top _ _ _ _ W m ltac:(lia)).
  pose proof (valid_first _ _ _ H ltac:(lia)). pose proof (wn_first _ _ _ _ W).
  destruct (decide (m = 1)) as [->|]; [rewrite tri_1, Z.mul_0_r; done|].
  pose proof (tri_nonneg m ltac:(lia)). pose proof (tri_double m). unfold val in Hv.
  destruct (Z.leb_spec 0 a); [nia|].
  pose proof (valid_interval a i m (m - 1) H ltac:(lia) ltac:(lia)).
  assert (0 < (i + a * (m - 1)) * m) by nia. assert (a * (2 * tri m) = a * (m - 1) * m) by nia. nia.
Qed.

Lemma valid_linear a i m : valid a i m -> 1 <= m <= len -> i * m < CLOCK_DIFF_MAX + Z.abs a * tri m.
Proof.
  intros H Hm. pose proof (H m ltac:(lia)) as Hv. pose proof (wn_top _ _ _ _ W m ltac:(lia)).
  pose proof (tri_nonneg m ltac:(lia)). unfold val in Hv. destruct (Z.leb_spec 0 a); nia.
Qed.

Definition in_s16 (a : Z) : Prop := -0x8000 <= a <= 0x7fff.

Lemma add_count a i m : in_s16 a -> valid a i m -> 1 <= m <= len -> Z.abs a * m < 0x1000000.
Proof.
  intros Ha H Hm. pose proof (valid_quadratic _ _ _ H Hm) as Hq.
  unfold CLOCK_DIFF_MAX in Hq. change (Z.shiftl 3 28) with 0x30000000 in Hq. unfold in_s16 in Ha.
  pose proof (tri_double m). destruct (Z.leb_spec m 101); nia.
Qed.

(** The products of the next round stay within [int32_t]. *)
Lemma next_quadratic a i m :
  in_s16 a -> valid a i m -> 1 <= m <= len -> Z.abs (a * tri (m + 1)) < 0x31000000.
Proof.
  intros Ha H Hm. rewrite Z.abs_mul, (Z.abs_eq (tri _)) by (apply tri_nonneg; lia). pose proof (valid_quadratic _ _ _ H Hm) as Hq. rewrite tri_succ.
  unfold CLOCK_DIFF_MAX in Hq. change (Z.shiftl 3 28) with 0x30000000 in Hq. unfold in_s16 in Ha.
  pose proof (tri_double m). destruct (Z.leb_spec m 101); nia.
Qed.

Lemma next_linear a i m :
  in_s16 a -> valid a i m -> 1 <= m <= len -> 0 <= i * (m + 1) < 0x66000000.
Proof.
  intros Ha H Hm. pose proof (valid_linear _ _ _ H Hm) as Hl.
  pose proof (valid_quadratic _ _ _ H Hm) as Hq. pose proof (valid_first _ _ _ H ltac:(lia)).
  pose proof (wn_first _ _ _ _ W). unfold CLOCK_DIFF_MAX in *.
  change (Z.shiftl 3 28) with 0x30000000 in *. unfold in_s16 in Ha. split; [nia|].
  pose proof (tri_double m). destruct (Z.leb_spec m 40).
  - assert (0 <= tri m <= 780) by (split; [apply tri_nonneg; lia|nia]).
    assert (Z.abs a * tri m <= 0x8000 * 780) by nia. assert (i <= i * m) by nia. lia.
  - assert (41 * i <= i * m) by nia. lia.
Qed.

(** A sequence with a non-zero [add] is too short for the overflow of
    [nextcount*(nextcount-1)]. *)
Lemma next_count a i m : a <> 0 -> valid a i m -> 1 <= m <= len -> m + 1 <= 46340.
Proof.
  intros Ha H Hm. pose proof (valid_quadratic _ _ _ H Hm) as Hq. unfold CLOCK_DIFF_MAX in Hq.
  change (Z.shiftl 3 28) with 0x30000000 in Hq. pose proof (tri_double m).
  pose proof (tri_nonneg m ltac:(lia)). destruct (Z.leb_spec m 46339); [lia|exfalso].
  assert (tri m < 0x30000000) by nia. nia.
Qed.

Lemma valid_between a i j x m : valid a i m -> valid a j m -> i <= x <= j -> valid a x m.
Proof.
  intros Hi Hj Hx k Hk. specialize (Hi k Hk). specialize (Hj k Hk).
  pose proof (val_mono i x a k ltac:(lia) ltac:(lia)). pose proof (val_mono x j a k ltac:(lia) ltac:(lia)). lia.
Qed.

(** ** One round of the inner loop *)

Lemma addfactor_mul a i m :
  in_s16 a -> valid a i m -> 1 <= m <= len -> a *i addfactor (m + 1) = a * tri (m + 1).
Proof.
  intros Ha H Hm. destruct (decide (a = 0)) as [->|Hne]; [done|].
  pose proof (next_count a i m Hne H Hm). pose proof (next_quadratic a i m Ha H Hm).
  rewrite addfactor_tri by lia. apply s32_small. lia.
Qed.

(** The smallest and the largest interval that also hits window [n]. *)
Definition next_min (a nmin n nmin' : Z) : Prop :=
  nmin <= nmin' /\ lo n <= val nmin' a n /\ (nmin' = nmin \/ val (nmin' - 1) a n < lo n).
Definition next_max (a nmax n nmax' : Z) : Prop :=
  nmax' <= nmax /\ val nmax' a n <= hi n /\ (nmax' = nmax \/ hi n < val (nmax' + 1) a n).

Lemma round_bounds a i m :
  in_s16 a -> valid a i m -> 1 <= m < len ->
  -0x62000000 <= lo (m + 1) - a * tri (m + 1) <= 0x62000000 /\
  -0x62000000 <= hi (m + 1) - a * tri (m + 1) <= 0x62000000 /\ 0 <= i * (m + 1) < 0x66000000.
Proof.
  intros Ha H Hm. pose proof (next_quadratic a i m Ha H ltac:(lia)).
  pose proof (next_linear a i m Ha H ltac:(lia)). pose proof (wn_top _ _ _ _ W (m + 1) ltac:(lia)).
  pose proof (wn_le _ _ _ _ W (m + 1) ltac:(lia)). pose proof (hi_lo 1 (m + 1) ltac:(lia) ltac:(lia) ltac:(lia)).
  pose proof (wn_first _ _ _ _ W). pose proof (wn_le _ _ _ _ W 1 ltac:(lia)).
  unfold CLOCK_DIFF_MAX in *. change (Z.shiftl 3 28) with 0x30000000 in *.
  lia.
Qed.

Lemma round_min a nmin m :
  in_s16 a -> valid a nmin m -> 1 <= m < len ->
  let c := a *i addfactor (m + 1) in
  next_min a nmin (m + 1)
    (if nmin *i (m + 1) <? lo (m + 1) -i c then idiv_up (lo (m + 1) -i c) (m + 1) else nmin).
Proof.
  intros Ha H Hm. cbv zeta. rewrite (addfactor_mul a nmin m) by (done || lia).
  destruct (round_bounds a nmin m Ha H Hm) as (B1 & _ & B3). pose proof (wn_len _ _ _ _ W).
  rewrite !s32_small by lia. unfold next_min, val.
  pose proof (idiv_up_spec (lo (m + 1) - a * tri (m + 1)) (m + 1) ltac:(lia) ltac:(lia)).
  destruct (Z.ltb_spec (nmin * (m + 1)) (lo (m + 1) - a * tri (m + 1))); [|lia].
  split; [nia|]. split; [lia|]. right. lia.
Qed.

Lemma round_max a nmax m :
  in_s16 a -> valid a nmax m -> 1 <= m < len ->
  let c := a *i addfactor (m + 1) in
  next_max a nmax (m + 1)
    (if hi (m + 1) -i c <? nmax *i (m + 1) then idiv_down (hi (m + 1) -i c) (m + 1) else nmax).
Proof.
  intros Ha H Hm. cbv zeta. rewrite (addfactor_mul a nmax m) by (done || lia).
  destruct (round_bounds a nmax m Ha H Hm) as (_ & B2 & B3). pose proof (wn_len _ _ _ _ W).
  rewrite !s32_small by lia. unfold next_max, val.
  pose proof (idiv_down_spec (hi (m + 1) - a * tri (m + 1)) (m + 1) ltac:(lia) ltac:(lia)).
  destruct (Z.ltb_spec (hi (m + 1) - a * tri (m + 1)) (nmax * (m + 1))); [|lia].
  split; [nia|]. split; [lia|]. right. lia.
Qed.

(** ** The inner loop *)

Context (sc : stepcompress).
Context (Hpt : forall k, 1 <= k <= len -> minmax_point sc (queue_pos sc + k - 1) = mk_points (lo k) (hi k)).

(** What is known when no interval fits window [m + 1] any more. *)
Record stopped (a omin omax m nmin nmax i : Z) : Prop := {
  st_range : 1 <= m < len;
  st_min : exists nmin0, next_min a nmin0 (m + 1) nmin /\ omin <= nmin0 <= i;
  st_max : next_max a i (m + 1) nmax;
  st_lt : nmax < nmin;
  st_valid : valid a i m;
  st_omax : i <= omax }.

Lemma extend_sequence_spec a fuel nmin nmax m :
  in_s16 a -> 1 <= m <= len -> len - m < Z.of_nat fuel ->
  valid a nmin m -> valid a nmax m -> nmin <= nmax ->
  (exists i, extend_sequence fuel sc (queue_pos sc + len) a nmin nmax nmax m = Some (ReachedEnd i len) /\
     valid a i len) \/
  (exists m' nmin' nmax' i, extend_sequence fuel sc (queue_pos sc + len) a nmin nmax nmax m =
     Some (Stopped (m' + 1) (mk_points (lo (m' + 1)) (hi (m' + 1))) nmin' nmax' i) /\
     stopped a nmin nmax m' nmin' nmax' i).
Proof.
  intros Ha. revert nmin nmax m. induction fuel as [|fuel IH]; intros nmin nmax m Hm Hf Hn Hx Hle; [lia|].
  cbn [extend_sequence]. cbv zeta.
  destruct (Z.leb_spec (queue_pos sc + len) (queue_pos sc + (m + 1 - 1))).
  - left. exists nmax. replace (m + 1 - 1) with m by lia. assert (m = len) as -> by lia. done.
  - assert (Hm' : 1 <= m < len) by lia. rewrite Hpt by lia. cbn [minp maxp].
    pose proof (round_min a nmin m Ha Hn Hm') as R1. pose proof (round_max a nmax m Ha Hx Hm') as R2.
    cbv zeta in R1, R2.
    match type of R1 with next_min _ _ _ ?x => set (nmin' := x) in * end.
    match type of R2 with next_max _ _ _ ?x => set (nmax' := x) in * end.
    destruct (Z.ltb_spec nmax' nmin').
    + right. eexists _, _, _, _. split; [done|]. constructor; eauto with lia.
    + destruct R1 as (R1 & R1' & _), R2 as (R2 & R2' & _).
      assert (valid a nmin' (m + 1) /\ valid a nmax' (m + 1)) as [Vn Vx].
      { pose proof (val_mono nmin' nmax' a (m + 1) ltac:(lia) ltac:(lia)).
        split; (apply valid_ext; [apply (valid_between a nmin nmax); try done; lia|lia]). }
      destruct (IH nmin' nmax' (m + 1) ltac:(lia) ltac:(lia) Vn Vx ltac:(lia)) as
        [?|(m2 & n2 & x2 & i2 & E & [S1 (n0 & S2 & S2') S3 S4 S5 S6])]; [by left|].
      right. exists m2, n2, x2, i2. split; [done|]. constructor; eauto with lia.
Qed.

(** ** The outer loop *)

Context (Herr : err = Stepcompress.max_error sc).

Definition best_ok (b : bisect) : Prop :=
  1 <= bestcount b <= len /\ in_s16 (bestadd b) /\ valid (bestadd b) (bestinterval b) (bestcount b) /\
  bestreach b = val (bestinterval b) (bestadd b) (bestcount b).
Definition zero_ok (b : bisect) : Prop :=
  zerocount b = 0 \/ (1 <= zerocount b <= len /\ valid 0 (zerointerval b) (zerocount b)).
Definition outer_ok (b : bisect) : Prop :=
  lo 1 <= outer_mininterval b <= outer_maxinterval b /\ outer_maxinterval b <= hi 1.
Definition add_ok (b : bisect) : Prop := -0x8000 <= minadd b <= b_add b /\ b_add b <= maxadd b <= 0x7fff.

(** Two states with the same search results. *)
Definition same_best (b b' : bisect) : Prop :=
  bestinterval b' = bestinterval b /\ bestcount b' = bestcount b /\ bestadd b' = bestadd b /\
  bestreach b' = bestreach b /\ zerointerval b' = zerointerval b /\ zerocount b' = zerocount b.

Lemma reach_exact a i m :
  in_s16 a -> valid a i m -> 1 <= m <= len -> (a *i addfactor m) +i (i *i m) = val i a m.
Proof.
  intros Ha H Hm. pose proof (valid_quadratic _ _ _ H Hm). pose proof (valid_linear _ _ _ H Hm).
  pose proof (H m ltac:(lia)) as Hv. pose proof (wn_top _ _ _ _ W m ltac:(lia)).
  pose proof (valid_first _ _ _ H ltac:(lia)). pose proof (wn_first _ _ _ _ W).
  assert (0 <= i * m) by nia. unfold CLOCK_DIFF_MAX in *. change (Z.shiftl 3 28) with 0x30000000 in *.
  assert (Ea : a *i addfactor m = a * tri m).
  { destruct (decide (a = 0)) as [->|Hne]; [done|]. pose proof (next_count a i m Hne H Hm).
    rewrite addfactor_tri by lia. apply s32_small.
    assert (Z.abs (a * tri m) < 0x30000000); [|lia].
    rewrite Z.abs_mul, (Z.abs_eq (tri _)) by (apply tri_nonneg; lia). done. }
  rewrite Ea. assert (Z.abs (a * tri m) < 0x30000000).
  { rewrite Z.abs_mul, (Z.abs_eq (tri _)) by (apply tri_nonneg; lia). done. }
  rewrite (s32_small (i * m)) by lia. unfold val in *. rewrite s32_small by lia. lia.
Qed.

Lemma update_best_spec b i m b' stop :
  in_s16 (b_add b) -> valid (b_add b) i m -> 1 <= m <= len ->
  bestreach b = INT32_MIN \/ (best_ok b /\ bestcount b <= 0x200) -> zero_ok b ->
  update_best b i m = (b', stop) ->
  best_ok b' /\ zero_ok b' /\ (stop = false -> m <= 0x200 /\ bestcount b' <= 0x200) /\
  b_add b' = b_add b /\ minadd b' = minadd b /\ maxadd b' = maxadd b /\
  outer_mininterval b' = outer_mininterval b /\ outer_maxinterval b' = outer_maxinterval b.
Proof.
  intros Ha Hv Hm Hb Hz. unfold update_best. rewrite (reach_exact _ _ _ Ha Hv Hm).
  destruct (_ || _) eqn:E.
  - intros [= <- <-]. unfold best_ok, zero_ok. destruct (Z.eqb_spec (b_add b) 0) as [E0|E0];
      cbn [bestcount bestadd bestinterval bestreach zerocount zerointerval b_add minadd maxadd
           outer_mininterval outer_maxinterval set]; (split_and!; try done; try lia; auto).
    all: try (intros Hs%Z.ltb_ge; lia).
    right. rewrite <- E0. done.
  - intros [= <- <-]. apply orb_false_iff in E as [E _]. apply Z.ltb_ge in E.
    destruct Hb as [Hb|[Hb Hc]].
    + rewrite Hb in E. pose proof (Hv m ltac:(lia)). pose proof (wn_first _ _ _ _ W).
      assert (lo 1 <= lo m). { destruct (decide (m = 1)) as [->|]; [lia|].
        pose proof (hi_lo 1 m ltac:(lia) ltac:(lia) ltac:(lia)). pose proof (wn_le _ _ _ _ W 1 ltac:(lia)). lia. }
      unfold INT32_MIN in E. lia.
    + split_and!; try done. intros _. split; [|done].
      destruct (Z.leb_spec m 0x200); [done|]. destruct Hb as (B1 & _ & B3 & B4).
      pose proof (B3 (bestcount b) ltac:(lia)). pose proof (Hv m ltac:(lia)).
      pose proof (hi_lo (bestcount b) m ltac:(lia) ltac:(lia) ltac:(lia)). lia.
Qed.

Lemma narrow_add_spec b m nmin nmax i :
  in_s16 (b_add b) -> add_ok b -> outer_ok b ->
  stopped (b_add b) (outer_mininterval b) (outer_maxinterval b) m nmin nmax i ->
  let b' := narrow_add b (m + 1) (mk_points (lo (m + 1)) (hi (m + 1))) nmin nmax i in
  outer_ok b' /\ same_best b b' /\ b_add b' = b_add b /\
  minadd b <= minadd b' <= b_add b + 1 /\ b_add b - 1 <= maxadd b' <= maxadd b /\
  (minadd b' = b_add b + 1 \/ maxadd b' = b_add b - 1).
Proof.
  intros Ha [A1 A2] [O1 O2] [S1 (n0 & S2 & S2') S3 S4 S5 S6]. unfold narrow_add. cbv zeta.
  rewrite (addfactor_mul _ i m Ha S5 ltac:(lia)).
  destruct (round_bounds _ i m Ha S5 S1) as (_ & _ & B).
  pose proof (next_quadratic _ i m Ha S5 ltac:(lia)) as Q.
  assert (Eb : (b_add b * tri (m + 1)) +i (i *i (m + 1)) = val i (b_add b) (m + 1)).
  { rewrite (s32_small (i * (m + 1))) by lia. unfold val. rewrite s32_small; [lia|].
    pose proof (S5 m ltac:(lia)) as Hv. pose proof (wn_top _ _ _ _ W m ltac:(lia)).
    pose proof (wn_top _ _ _ _ W 1 ltac:(lia)). unfold CLOCK_DIFF_MAX in *.
    change (Z.shiftl 3 28) with 0x30000000 in *. split; [lia|].
    pose proof (add_count _ i m Ha S5 ltac:(lia)). pose proof (tri_nonneg (m + 1) ltac:(lia)).
    destruct (Z.leb_spec 0 (b_add b)).
    - pose proof (valid_first _ _ _ S5 ltac:(lia)). rewrite tri_succ in *. unfold val in Hv. nia.
    - assert (b_add b * tri (m + 1) <= 0) by nia. lia. }
  rewrite Eb. destruct S2 as (N1 & N2 & N3), S3 as (X1 & X2 & X3).
  unfold outer_ok, same_best. cbn [minp].
  destruct (Z.ltb_spec (val i (b_add b) (m + 1)) (lo (m + 1)));
    cbn [bestcount bestadd bestinterval bestreach zerocount zerointerval b_add minadd maxadd
         outer_mininterval outer_maxinterval set]; (split_and!; try done; try lia).
  - destruct X3 as [->|X3]; [lia|]. destruct (Z.leb_spec i nmax); [lia|].
    pose proof (val_mono (nmax + 1) i (b_add b) (m + 1) ltac:(lia) ltac:(lia)).
    pose proof (wn_le _ _ _ _ W (m + 1) ltac:(lia)). lia.
  - destruct N3 as [->|N3]; [lia|]. destruct (Z.leb_spec nmin i); [lia|].
    pose proof (val_mono i (nmin - 1) (b_add b) (m + 1) ltac:(lia) ltac:(lia)). lia.
Qed.

(** [x * nextaddfactor] for an [x] close to [add] fits an [int32_t]. *)
Definition near (a m x : Z) : Prop :=
  Z.abs (x * tri (m + 1)) < 0x32000000 /\ -0x9000 <= x <= 0x9000.

Lemma near_1 a x : -0x9000 <= x <= 0x9000 -> near a 1 x.
Proof. intros H. unfold near. change (tri (1 + 1)) with 1. lia. Qed.

Lemma near_err a i m x d :
  in_s16 a -> valid a i m -> 2 <= m <= 0x200 -> m <= len ->
  0 <= d -> d * (m * m) <= err * QUADRATIC_DEV -> a - d - 1 <= x <= a + d + 1 ->
  -0x9000 <= x <= 0x9000 -> near a m x.
Proof.
  intros Ha Hv Hm Hl Hd He Hx Hs. pose proof (next_quadratic _ _ _ Ha Hv ltac:(lia)) as Q.
  pose proof (wn_max _ _ _ _ W). unfold MAX_ERROR, QUADRATIC_DEV in *. split; [|done].
  pose proof (tri_double (m + 1)) as T. replace (m + 1 - 1) with m in T by lia.
  assert (4 * tri (m + 1) <= 3 * (m * m)) by nia. pose proof (tri_nonneg (m + 1) ltac:(lia)).
  assert (tri (m + 1) <= 131328) by nia.
  assert (4 * (d * tri (m + 1)) <= 3 * (d * (m * m))) by nia.
  assert (Z.abs ((x - a) * tri (m + 1)) <= (d + 1) * tri (m + 1)).
  { rewrite Z.abs_mul, (Z.abs_eq (tri _)) by lia. apply Z.mul_le_mono_nonneg_r; lia. }
  replace (x * tri (m + 1)) with ((x - a) * tri (m + 1) + a * tri (m + 1)) by lia. lia.
Qed.

(** After [narrow_add] and [limit_deviation]. *)
Lemma limit_deviation_spec b m i :
  in_s16 (b_add b) -> valid (b_add b) i m -> 1 <= m <= 0x200 -> m < len ->
  -0x8000 <= minadd b <= b_add b + 1 -> b_add b - 1 <= maxadd b <= 0x7fff ->
  let b' := limit_deviation sc b m in
  outer_mininterval b' = outer_mininterval b /\ outer_maxinterval b' = outer_maxinterval b /\
  same_best b b' /\ b_add b' = b_add b /\ minadd b <= minadd b' /\ maxadd b' <= maxadd b /\
  near (b_add b) m (minadd b') /\ near (b_add b) m (maxadd b').
Proof.
  intros Ha Hv Hm Hl H1 H2. unfold limit_deviation. cbv zeta. unfold in_s16 in Ha.
  destruct (Z.ltb_spec 1 m).
  2: { assert (m = 1) as -> by lia. split_and!; try done; try apply near_1; lia. }
  pose proof (wn_max _ _ _ _ W) as Hx. rewrite Herr in Hx. unfold MAX_ERROR in Hx.
  rewrite (s32_small (m * m)), !u32_small by (unfold QUADRATIC_DEV; nia).
  set (d := max_error sc * QUADRATIC_DEV / (m * m)).
  assert (Hd : 0 <= d /\ d * (m * m) <= err * QUADRATIC_DEV).
  { rewrite Herr. unfold d, QUADRATIC_DEV. split; [apply Z.div_pos; nia|].
    rewrite Z.mul_comm. apply Z.mul_div_le. nia. }
  assert (d <= 0x200000).
  { destruct Hd as [_ Hd]. rewrite Herr in Hd. unfold QUADRATIC_DEV in Hd. nia. }
  rewrite (s32_small d) by lia.
  assert (N : forall x, b_add b - d - 1 <= x <= b_add b + d + 1 -> -0x9000 <= x <= 0x9000 -> near (b_add b) m x).
  { intros x. by apply (near_err _ i m x d Ha Hv); try lia. }
  rewrite (s32_small (b_add b - d)) by lia.
  destruct (Z.ltb_spec (minadd b) (b_add b - d)); cbn [maxadd b_add set];
   rewrite (s32_small (b_add b + d)) by lia;
   (destruct (Z.ltb_spec (b_add b + d) (maxadd b));
    cbn [bestcount bestadd bestinterval bestreach zerocount zerointerval b_add minadd maxadd
         outer_mininterval outer_maxinterval set]; (split_and!; try done; try lia; apply N; lia)).
Qed.

Lemma outer_product a i m x :
  in_s16 a -> valid a i m -> 1 <= m <= 0x200 -> m < len -> lo 1 <= x <= hi 1 ->
  0 <= x * (m + 1) < 0x77000000.
Proof.
  intros Ha Hv Hm Hl Hx. pose proof (next_linear a i m Ha Hv ltac:(lia)).
  pose proof (valid_first _ _ _ Hv ltac:(lia)). pose proof (wn_first _ _ _ _ W).
  pose proof (wn_err _ _ _ _ W 1 ltac:(lia)). pose proof (wn_max _ _ _ _ W). unfold MAX_ERROR in *.
  assert (x * (m + 1) <= i * (m + 1) + err * (m + 1)) by nia. nia.
Qed.

Lemma limit_next_spec b i m :
  in_s16 (b_add b) -> valid (b_add b) i m -> 1 <= m <= 0x200 -> m < len -> outer_ok b ->
  near (b_add b) m (minadd b) -> near (b_add b) m (maxadd b) ->
  let b' := limit_next b (m + 1) (mk_points (lo (m + 1)) (hi (m + 1))) in
  outer_mininterval b' = outer_mininterval b /\ outer_maxinterval b' = outer_maxinterval b /\
  same_best b b' /\ b_add b' = b_add b /\ minadd b <= minadd b' /\ maxadd b' <= maxadd b.
Proof.
  intros Ha Hv Hm Hl [O1 O2] [N1 _] [N2 _]. unfold limit_next. cbv zeta. cbn [minp maxp].
  rewrite addfactor_tri by lia.
  pose proof (outer_product _ i m (outer_maxinterval b) Ha Hv Hm Hl ltac:(lia)) as P1.
  pose proof (outer_product _ i m (outer_mininterval b) Ha Hv Hm Hl ltac:(lia)) as P2.
  pose proof (wn_top _ _ _ _ W (m + 1) ltac:(lia)). pose proof (wn_le _ _ _ _ W (m + 1) ltac:(lia)).
  pose proof (hi_lo 1 (m + 1) ltac:(lia) ltac:(lia) ltac:(lia)). pose proof (wn_first _ _ _ _ W).
  pose proof (wn_le _ _ _ _ W 1 ltac:(lia)). unfold CLOCK_DIFF_MAX in *.
  change (Z.shiftl 3 28) with 0x30000000 in *.
  assert (0 < tri (m + 1) < 0x100000).
  { rewrite tri_succ. pose proof (tri_nonneg m ltac:(lia)). pose proof (tri_double m). nia. }
  rewrite (s32_small (minadd b * _)), (s32_small (outer_maxinterval b * _)), (s32_small (lo _ - _)) by lia.
  pose proof (idiv_up_spec (lo (m + 1) - outer_maxinterval b * (m + 1)) (tri (m + 1)) ltac:(lia) ltac:(lia)).
  pose proof (idiv_down_spec (hi (m + 1) - outer_mininterval b * (m + 1)) (tri (m + 1)) ltac:(lia) ltac:(lia)).
  destruct (Z.ltb_spec (minadd b * tri (m + 1)) (lo (m + 1) - outer_maxinterval b * (m + 1)));
    cbn [maxadd outer_mininterval set];
    rewrite (s32_small (maxadd b * _)), (s32_small (outer_mininterval b * _)), (s32_small (hi _ - _)) by lia;
    (destruct (Z.ltb_spec (hi (m + 1) - outer_mininterval b * (m + 1)) (maxadd b * tri (m + 1)));
    cbn [bestcount bestadd bestinterval bestreach zerocount zerointerval b_add minadd maxadd
         outer_mininterval outer_maxinterval set]; split_and!; try done; try lia).
  all: apply Z.lt_le_incl, (mul_lt_cancel (tri (m + 1))); lia.
Qed.

(** ** The search ends with a valid sequence *)

Record loop_inv (b : bisect) : Prop := {
  li_add : add_ok b;
  li_outer : outer_ok b;
  li_best : bestreach b = INT32_MIN \/ (best_ok b /\ bestcount b <= 0x200);
  li_zero : zero_ok b }.

Lemma same_best_ok b b' : same_best b b' ->
  (best_ok b -> best_ok b') /\ (zero_ok b -> zero_ok b') /\ bestcount b' = bestcount b.
Proof. intros (E1 & E2 & E3 & E4 & E5 & E6). unfold best_ok, zero_ok. rewrite E1, E2, E3, E4, E5, E6. done. Qed.

Lemma same_best_trans b1 b2 b3 : same_best b1 b2 -> same_best b2 b3 -> same_best b1 b3.
Proof. unfold same_best. intuition congruence. Qed.

(** The range of [add] shrinks, and the search results are kept. *)
Lemma limit_spec b m nmin nmax i :
  add_ok b -> outer_ok b -> m <= 0x200 ->
  stopped (b_add b) (outer_mininterval b) (outer_maxinterval b) m nmin nmax i ->
  let pt := mk_points (lo (m + 1)) (hi (m + 1)) in
  let b' := limit_next (limit_deviation sc (narrow_add b (m + 1) pt nmin nmax i) m) (m + 1) pt in
  outer_ok b' /\ same_best b b' /\ minadd b <= minadd b' /\ maxadd b' <= maxadd b /\
  (b_add b < minadd b' \/ maxadd b' < b_add b).
Proof.
  intros La Lo Hm S pt. pose proof La as [A1 A2]. pose proof S as [S1 _ _ _ S5 _].
  assert (Ha : in_s16 (b_add b)) by (unfold in_s16; lia).
  destruct (narrow_add_spec b m nmin nmax i Ha La Lo S) as (N1 & N2 & N3 & N4 & N5 & N6). fold pt in N1, N2, N3, N4, N5, N6.
  set (b1 := narrow_add b (m + 1) pt nmin nmax i) in *. rewrite <- N3 in Ha, S5, N4, N5, N6 |- *.
  destruct (limit_deviation_spec b1 m i Ha S5 ltac:(lia) ltac:(lia) ltac:(lia) ltac:(lia)) as
    (D1 & D2 & D3 & D4 & D5 & D6 & D7 & D8).
  set (b2 := limit_deviation sc b1 m) in *. rewrite <- D4 in Ha, S5, D7, D8.
  assert (O2 : outer_ok b2) by (unfold outer_ok in *; rewrite D1, D2; done).
  destruct (limit_next_spec b2 i m Ha S5 ltac:(lia) ltac:(lia) O2 D7 D8) as (X1 & X2 & X3 & X4 & X5 & X6).
  fold pt in X1, X2, X3, X4, X5, X6. cbv zeta. split_and!.
  - unfold outer_ok in *. rewrite X1, X2. apply O2.
  - eauto using same_best_trans.
  - lia.
  - lia.
  - lia.
Qed.

Lemma bisect_loop_spec fuel b :
  loop_inv b -> maxadd b - minadd b < Z.of_nat fuel ->
  (exists a i, bisect_loop fuel sc (queue_pos sc + len) b = Some (inl (to_step_move i len a)) /\
     in_s16 a /\ valid a i len) \/
  (exists b', bisect_loop fuel sc (queue_pos sc + len) b = Some (inr b') /\ best_ok b' /\ zero_ok b').
Proof.
  revert b. induction fuel as [|fuel IH]; intros b [La Lo Lb Lz] Hf; destruct La as [A1 A2]; [lia|].
  cbn [bisect_loop]. pose proof (wn_len _ _ _ _ W).
  assert (Ha : in_s16 (b_add b)) by (unfold in_s16; lia).
  assert (V1 : forall x, lo 1 <= x <= hi 1 -> valid (b_add b) x 1).
  { intros x Hx k Hk. assert (k = 1) as -> by lia. unfold val. rewrite tri_1. lia. }
  destruct Lo as [O1 O2].
  destruct (extend_sequence_spec (b_add b) (S (Z.to_nat (queue_pos sc + len - queue_pos sc)))
    (outer_mininterval b) (outer_maxinterval b) 1 Ha ltac:(lia) ltac:(lia)
    (V1 (outer_mininterval b) ltac:(lia)) (V1 (outer_maxinterval b) ltac:(lia)) ltac:(lia)) as [(i & E & V)|(m & nmin & nmax & i & E & S)]; rewrite E.
  { left. eauto. }
  replace (m + 1 - 1) with m by lia. destruct (update_best b i m) as [b1 stop] eqn:Eu.
  pose proof S as [S1 _ _ _ S5 _].
  destruct (update_best_spec b i m b1 stop Ha S5 ltac:(lia) Lb Lz Eu) as
    (U1 & U2 & U3 & U4 & U5 & U6 & U7 & U8).
  destruct stop; [right; eauto|]. destruct (U3 eq_refl) as [U3' U3'']. clear U3.
  rewrite <- U4, <- U7, <- U8 in S. unfold outer_ok, add_ok in *.
  destruct (limit_spec b1 m nmin nmax i) as (Q1 & Q2 & Q3 & Q4 & Q5);
    [unfold add_ok; lia|unfold outer_ok; lia|done..|]. cbv zeta.
  set (b2 := limit_next _ _ _) in *. destruct (same_best_ok _ _ Q2) as (Q6 & Q7 & Q8).
  destruct (Z.ltb_spec (maxadd b2) (minadd b2)); [right; exists b2; auto|].
  assert (0 <= Z.quot (maxadd b2 - minadd b2) 4 <= maxadd b2 - minadd b2).
  { rewrite Z.quot_div_nonneg by lia. split; [apply Z.div_pos; lia|apply Z.div_le_upper_bound; lia]. }
  apply IH; [|cbn [maxadd minadd set]; lia].
  constructor; unfold add_ok, outer_ok, best_ok, zero_ok in *;
    cbn [bestcount bestadd bestinterval bestreach zerocount zerointerval b_add minadd maxadd
         outer_mininterval outer_maxinterval set]; [lia|done|right|auto].
  split; [auto|lia].
Qed.
End windows.

(** ** Queues of increasing step times *)

(** The time of the [k]-th queued step after the last step sent. *)
Definition step_off (sc : stepcompress) (k : Z) : Z :=
  u32 (queue sc (queue_pos sc + k - 1) - u32 (last_step_clock sc)).
Definition queue_len (sc : stepcompress) : Z := queue_next sc - queue_pos sc.

Record good_queue (sc : stepcompress) : Prop := {
  gq_len : 1 <= queue_len sc;
  gq_incr : forall k, 1 <= k < queue_len sc -> step_off sc k < step_off sc (k + 1);
  gq_top : step_off sc (queue_len sc) < CLOCK_DIFF_MAX;
  gq_err : 0 <= max_error sc <= MAX_ERROR }.

Definition win_lo (sc : stepcompress) (k : Z) : Z := minp (minmax_point sc (queue_pos sc + k - 1)).
Definition win_hi (sc : stepcompress) (k : Z) : Z := maxp (minmax_point sc (queue_pos sc + k - 1)).
Definition win_len (sc : stepcompress) : Z := Z.min (queue_len sc) 65535.

Section queues.
Context (sc : stepcompress) (G : good_queue sc).

Lemma step_off_mono j k : 1 <= j -> j <= k -> k <= queue_len sc -> step_off sc j <= step_off sc k.
Proof.
  intros Hj Hk. revert k Hk.
  apply (Zlt_lower_bound_ind (fun k => k <= queue_len sc -> step_off sc j <= step_off sc k)).
  intros k IH Hk Hl. destruct (decide (k = j)) as [->|]; [lia|].
  specialize (IH (k - 1) ltac:(lia) ltac:(lia)). pose proof (gq_incr _ G (k - 1) ltac:(lia)).
  replace (k - 1 + 1) with k in * by lia. lia.
Qed.

Lemma step_off_top k : 1 <= k <= queue_len sc -> 0 <= step_off sc k < 0x30000000.
Proof.
  intros Hk. split; [apply u32_range|]. pose proof (step_off_mono k (queue_len sc) ltac:(lia) ltac:(lia) ltac:(lia)).
  pose proof (gq_top _ G). unfold CLOCK_DIFF_MAX in *. change (Z.shiftl 3 28) with 0x30000000 in *. lia.
Qed.

(** The window of a step: it ends at the requested time and starts at most
    [max_error] ticks, and at most half the distance to the previous step,
    before it. *)
Lemma window k :
  1 <= k <= queue_len sc ->
  let prev := if k =? 1 then 0 else step_off sc (k - 1) in
  win_hi sc k = step_off sc k /\
  win_lo sc k = step_off sc k - Z.min (max_error sc) ((step_off sc k - prev) / 2) /\
  0 <= prev <= step_off sc k /\ (k <> 1 -> prev < step_off sc k).
Proof.
  intros Hk prev. pose proof (step_off_top k Hk) as Ht. pose proof (gq_err _ G) as He. unfold MAX_ERROR in He.
  assert (Hp : 0 <= prev <= step_off sc k /\ (k <> 1 -> prev < step_off sc k)).
  { unfold prev. destruct (Z.eqb_spec k 1); [lia|]. pose proof (step_off_top (k - 1) ltac:(lia)).
    pose proof (gq_incr _ G (k - 1) ltac:(lia)). replace (k - 1 + 1) with k in * by lia. lia. }
  assert (Ep : (if queue_pos sc <? queue_pos sc + k - 1
                then u32 (queue sc (queue_pos sc + k - 1 - 1) - u32 (last_step_clock sc)) else 0) = prev).
  { unfold prev, step_off. replace (queue_pos sc + (k - 1) - 1) with (queue_pos sc + k - 1 - 1) by lia.
    destruct (Z.eqb_spec k 1), (Z.ltb_spec (queue_pos sc) (queue_pos sc + k - 1)); try lia; done. }
  unfold win_hi, win_lo, minmax_point. rewrite Ep. fold (step_off sc k). cbn [minp maxp]. clearbody prev.
  rewrite (u32_small (step_off sc k - prev)) by lia.
  pose proof (Z.div_pos (step_off sc k - prev) 2 ltac:(lia) ltac:(lia)).
  pose proof (Z.div_le_upper_bound (step_off sc k - prev) 2 (step_off sc k - prev) ltac:(lia) ltac:(lia)).
  split_and!; try done; try lia; [apply s32_small; lia|].
  destruct (Z.ltb_spec (max_error sc) ((step_off sc k - prev) / 2));
    rewrite u32_small, s32_small by lia; lia.
Qed.

Lemma good_windows : windows (win_lo sc) (win_hi sc) (win_len sc) (max_error sc).
Proof.
  pose proof (gq_len _ G). pose proof (gq_err _ G). unfold win_len.
  assert (Hw : forall k, 1 <= k <= Z.min (queue_len sc) 65535 ->
    0 <= win_lo sc k <= win_hi sc k /\ win_hi sc k <= win_lo sc k + max_error sc /\ win_hi sc k < 0x30000000).
  { intros k Hk. destruct (window k ltac:(lia)) as (E1 & E2 & E3 & _).
    pose proof (step_off_top k ltac:(lia)). set (prev := if k =? 1 then 0 else step_off sc (k - 1)) in *.
    pose proof (Z.div_pos (step_off sc k - prev) 2 ltac:(lia) ltac:(lia)).
    pose proof (Z.div_le_upper_bound (step_off sc k - prev) 2 (step_off sc k - prev) ltac:(lia) ltac:(lia)).
    rewrite E1, E2. lia. }
  constructor; try lia; try (intros k Hk; specialize (Hw k Hk); change CLOCK_DIFF_MAX with 0x30000000; lia).
  - apply Hw. lia.
  - intros k Hk. destruct (window k ltac:(lia)) as (E1 & _).
    destruct (window (k + 1) ltac:(lia)) as (_ & E2 & _).
    destruct (Z.eqb_spec (k + 1) 1); [lia|]. replace (k + 1 - 1) with k in * by lia.
    pose proof (gq_incr _ G k ltac:(lia)). rewrite E1, E2.
    pose proof (Z.div_lt_upper_bound (step_off sc (k + 1) - step_off sc k) 2
      (step_off sc (k + 1) - step_off sc k) ltac:(lia) ltac:(lia)). lia.
Qed.

(** ** The result *)

Definition move_valid (m : step_move) : Prop :=
  1 <= sm_count m <= win_len sc /\ in_s16 (sm_add m) /\
  valid (win_lo sc) (win_hi sc) (sm_add m) (sm_interval m) (sm_count m).

Lemma to_step_move_valid a i m :
  1 <= m <= win_len sc -> in_s16 a -> valid (win_lo sc) (win_hi sc) a i m ->
  move_valid (to_step_move i m a).
Proof.
  intros Hm Ha Hv. pose proof (valid_first _ _ _ _ _ Hv ltac:(lia)) as Hf.
  pose proof (wn_first _ _ _ _ good_windows). pose proof (wn_top _ _ _ _ good_windows 1 ltac:(lia)) as Ht.
  change CLOCK_DIFF_MAX with 0x30000000 in Ht. unfold move_valid, to_step_move.
  cbn [sm_count sm_add sm_interval]. unfold win_len in *. unfold in_s16 in *.
  rewrite (u32_small i), (u16_small m) by lia. replace (s16 a) with a by word. done.
Qed.

Lemma compress_bisect_add_spec : exists m, compress_bisect_add sc = Some m /\ move_valid m.
Proof.
  pose proof good_windows as W. pose proof (wn_len _ _ _ _ W) as Hl.
  unfold compress_bisect_add. set (b := mk_bisect _ _ _ _ _ _ _ _ _ _ _).
  assert (Eq : (if queue_pos sc + 65535 <? queue_next sc then queue_pos sc + 65535 else queue_next sc) =
    queue_pos sc + win_len sc).
  { unfold win_len, queue_len. destruct (Z.ltb_spec (queue_pos sc + 65535) (queue_next sc)); lia. }
  rewrite Eq.
  assert (L : loop_inv (win_lo sc) (win_hi sc) (win_len sc) b).
  { pose proof (wn_le _ _ _ _ W 1 ltac:(lia)) as Hw. unfold win_lo, win_hi in Hw.
    replace (queue_pos sc + 1 - 1) with (queue_pos sc) in Hw by lia.
    constructor; [split; cbn; lia| |by left|by left].
    unfold outer_ok, b, win_lo, win_hi. cbn [outer_mininterval outer_maxinterval].
    replace (queue_pos sc + 1 - 1) with (queue_pos sc) by lia. lia. }
  destruct (bisect_loop_spec _ _ _ _ W sc) with (fuel := bisect_fuel) (b := b) as
    [(a & i & E & Ha & V)|(b' & E & (B1 & B2 & B3 & _) & Z')].
  - intros k _. unfold win_lo, win_hi. by destruct (minmax_point _ _).
  - done.
  - done.
  - unfold bisect_fuel. rewrite Z2Nat.id by lia. unfold b. cbn [maxadd minadd]. lia.
  - rewrite E. eexists. split; [done|]. apply to_step_move_valid; [lia|done|done].
  - rewrite E. destruct (Z.leb_spec (bestcount b') (zerocount b' + Z.quot (zerocount b') 16)) as [Hz|Hz].
    + destruct Z' as [Ez|[Z1 Z2]]; [rewrite Ez in Hz; change (Z.quot 0 16) with 0 in Hz; lia|].
      eexists. split; [done|]. apply to_step_move_valid; [lia|unfold in_s16; lia|done].
    + eexists. split; [done|]. apply to_step_move_valid; done.
Qed.

Lemma check_line_loop_valid a i m n j :
  valid (win_lo sc) (win_hi sc) a i m -> m <= win_len sc -> 0 <= j -> j + Z.of_nat n = m ->
  check_line_loop n sc a j (u32 (i + a * j)) (val i a j) = 0.
Proof.
  intros Hv Hm. pose proof good_windows as W. revert j.
  induction n as [|n IH]; intros j Hj Hn; [done|]. cbn [check_line_loop]. cbv zeta.
  assert (Hi : 0 <= i + a * j).
  { destruct (decide (j = 0)) as [->|]; [|pose proof (valid_interval _ _ _ _ W a i m j Hv ltac:(lia) Hm); lia].
    pose proof (valid_first _ _ _ _ _ Hv ltac:(lia)). pose proof (wn_first _ _ _ _ W). lia. }
  pose proof (Hv (j + 1) ltac:(lia)) as Hp. pose proof (wn_top _ _ _ _ W (j + 1) ltac:(lia)) as Ht.
  change CLOCK_DIFF_MAX with 0x30000000 in Ht.
  assert (Hlo : 0 <= win_lo sc (j + 1)).
  { pose proof (wn_first _ _ _ _ W). destruct (decide (j = 0)) as [->|]; [done|].
    pose proof (hi_lo _ _ _ _ W 1 (j + 1) ltac:(lia) ltac:(lia) ltac:(lia)).
    pose proof (wn_le _ _ _ _ W 1 ltac:(lia)). lia. }
  assert (Hj0 : 0 <= val i a j).
  { destruct (decide (j = 0)) as [->|]; [unfold val; change (tri 0) with 0; lia|]. pose proof (Hv j ltac:(lia)).
    pose proof (wn_first _ _ _ _ W). destruct (decide (j = 1)) as [->|]; [lia|].
    pose proof (hi_lo _ _ _ _ W 1 j ltac:(lia) ltac:(lia) ltac:(lia)).
    pose proof (wn_le _ _ _ _ W 1 ltac:(lia)). lia. }
  rewrite val_succ in Hp.
  replace (queue_pos sc + j) with (queue_pos sc + (j + 1) - 1) by lia.
  fold (win_lo sc (j + 1)) (win_hi sc (j + 1)).
  rewrite (u32_small (i + a * j)) by lia. rewrite (u32_small (val i a j + _)) by lia.
  rewrite (u32_small (win_lo sc _)), (u32_small (win_hi sc _)) by lia.
  destruct (Z.ltb_spec (val i a j + (i + a * j)) (win_lo sc (j + 1))); [lia|].
  destruct (Z.ltb_spec (win_hi sc (j + 1)) (val i a j + (i + a * j))); [lia|]. cbn [orb].
  destruct (Z.leb_spec 0x80000000 (i + a * j)); [lia|].
  rewrite <- val_succ. replace (i + a * j + a) with (i + a * (j + 1)) by lia. apply IH; lia.
Qed.

Lemma check_line_valid m : move_valid m -> check_line sc m = 0.
Proof.
  intros (Hc & Ha & Hv). pose proof good_windows as W. unfold check_line.
  pose proof (valid_first _ _ _ _ _ Hv ltac:(lia)). pose proof (wn_first _ _ _ _ W).
  pose proof (wn_top _ _ _ _ W 1 ltac:(lia)) as Ht. change CLOCK_DIFF_MAX with 0x30000000 in Ht.
  destruct (Z.eqb_spec (sm_count m) 0); [lia|]. destruct (Z.leb_spec 0x80000000 (sm_interval m)); [lia|].
  assert ((sm_interval m =? 0) && (sm_add m =? 0) && (1 <? sm_count m) = false) as ->.
  { destruct (Z.eqb_spec (sm_interval m) 0) as [E1|], (Z.eqb_spec (sm_add m) 0) as [E2|],
      (Z.ltb_spec 1 (sm_count m)); try done. exfalso.
    pose proof (valid_interval _ _ _ _ W _ _ _ 1 Hv ltac:(lia) ltac:(lia)). lia. }
  cbn [orb]. pose proof (check_line_loop_valid (sm_add m) (sm_interval m) (sm_count m)
    (Z.to_nat (sm_count m)) 0 Hv ltac:(lia) ltac:(lia) ltac:(lia)) as H'.
  rewrite Z.mul_0_r, Z.add_0_r, u32_small in H' by lia. unfold val in H' at 1.
  rewrite Z.mul_0_r in H'. change (tri 0) with 0 in H'. rewrite Z.mul_0_r in H'. exact H'.
Qed.
End queues.

(** ** Flushing the queue *)

(** The absolute times of the steps of a move that starts after a step at [t],
    and of a sequence of moves. *)
Definition move_clocks (t : Z) (m : step_move) : list Z :=
  (fun k => t + val (sm_interval m) (sm_add m) k) <$> seqZ 1 (sm_count m).
Definition move_end (t : Z) (m : step_move) : Z := t + val (sm_interval m) (sm_add m) (sm_count m).
Fixpoint sent_clocks (t : Z) (ms : list step_move) : list Z :=
  match ms with
  | [] => []
  | m :: ms => move_clocks t m ++ sent_clocks (move_end t m) ms
  end.
Definition sent_count (ms : list step_move) : Z := foldr (fun m c => sm_count m + c) 0 ms.

(** The requested absolute times of the first [n] queued steps. *)
Definition queue_clocks (sc : stepcompress) (n : Z) : list Z :=
  (fun k => last_step_clock sc + step_off sc k) <$> seqZ 1 n.

(** The integers of the command of a move. *)
Definition move_data (sc : stepcompress) (m : step_move) : list Z :=
  [u32 (queue_step_msgtag sc); sc_oid sc; sm_interval m; sm_count m; u32 (sm_add m)].

(** A step is on time when it is early by at most [err] ticks. *)
Definition on_time (err t want : Z) : Prop := want - err <= t <= want.

(** The parameters of a move fit their fields. *)
Definition move_small (m : step_move) : Prop := 1 <= sm_count m < 0x10000 /\ in_s16 (sm_add m).

Lemma move_valid_small sc m : move_valid sc m -> move_small m.
Proof. intros (Hc & Ha & _). unfold win_len in Hc. split; [lia|done]. Qed.

(** The step times fit 64 bits. *)
Definition no_wrap (sc : stepcompress) : Prop :=
  0 <= last_step_clock sc /\ last_step_clock sc + step_off sc (queue_len sc) < UINT64_MAX.

Record flushed (sc : stepcompress) (ms : list step_move) (sc' : stepcompress) : Prop := {
  fl_count : 0 <= sent_count ms <= queue_len sc;
  fl_small : Forall move_small ms;
  fl_data : qm_msg <$> msg_queue sc' = (qm_msg <$> msg_queue sc) ++ (message_alloc_and_encode <$> (move_data sc <$> ms));
  fl_times : Forall2 (on_time (max_error sc)) (sent_clocks (last_step_clock sc) ms)
               (queue_clocks sc (sent_count ms));
  fl_clock : last_step_clock sc' = foldl move_end (last_step_clock sc) ms;
  fl_rest : (sent_count ms = queue_len sc /\ queue_pos sc' = 0 /\ queue_next sc' = 0) \/
            (good_queue sc' /\ no_wrap sc' /\ queue_len sc' = queue_len sc - sent_count ms /\
             queue_clocks sc' (queue_len sc') = drop (Z.to_nat (sent_count ms)) (queue_clocks sc (queue_len sc))) }.

(** Everything but the queue position, the clock, the messages and the history
    is as before. *)
Definition same_setup (sc sc' : stepcompress) : Prop :=
  queue sc' = queue sc /\ queue_next sc' = queue_next sc /\ max_error sc' = max_error sc /\
  queue_step_msgtag sc' = queue_step_msgtag sc /\ sc_oid sc' = sc_oid sc /\ sdir sc' = sdir sc.

(** One round of the loop of [queue_flush]. *)
Definition flush_one (m : step_move) (sc : stepcompress) : stepcompress :=
  add_move (u64 (last_step_clock sc + sm_interval m)) m sc.

Section flush.
Context (sc : stepcompress) (G : good_queue sc) (N : no_wrap sc).
Context (m : step_move) (V : move_valid sc m).

Lemma move_end_bounds :
  0 <= val (sm_interval m) (sm_add m) (sm_count m) <= step_off sc (sm_count m) /\
  sm_interval m + (sm_add m * tri (sm_count m) + sm_interval m * (sm_count m - 1)) =
    val (sm_interval m) (sm_add m) (sm_count m).
Proof.
  destruct V as (Hc & Ha & Hv). pose proof (good_windows sc G) as W. pose proof (Hv (sm_count m) ltac:(lia)).
  destruct (window sc G (sm_count m)) as (E1 & _); [unfold win_len in Hc; lia|].
  pose proof (wn_first _ _ _ _ W). split; [|unfold val; lia]. rewrite <- E1. split; [|lia].
  destruct (decide (sm_count m = 1)) as [E|]; [rewrite E in *; lia|].
  pose proof (hi_lo _ _ _ _ W 1 (sm_count m) ltac:(lia) ltac:(lia) ltac:(lia)).
  pose proof (wn_le _ _ _ _ W 1 ltac:(lia)). lia.
Qed.

Lemma flush_one_clock : last_step_clock (flush_one m sc) = move_end (last_step_clock sc) m.
Proof.
  pose proof V as (Hc & Ha & Hv). pose proof (good_windows sc G) as W. destruct move_end_bounds as [B1 B2].
  pose proof (valid_first _ _ _ _ _ Hv ltac:(lia)) as Hf. pose proof (wn_first _ _ _ _ W).
  assert (Hl : sm_count m <= queue_len sc) by (unfold win_len in Hc; lia).
  pose proof (step_off_mono sc G (sm_count m) (queue_len sc) ltac:(lia) Hl ltac:(lia)).
  pose proof (step_off_top sc G (sm_count m) ltac:(lia)). destruct N as [N1 N2]. unfold UINT64_MAX in N2.
  assert (Hi : 0 <= sm_interval m <= step_off sc 1).
  { destruct (window sc G 1 ltac:(lia)) as (E1 & _). lia. }
  pose proof (step_off_mono sc G 1 (queue_len sc) ltac:(lia) ltac:(lia) ltac:(lia)).
  assert (Hk : 0 <= sm_add m * tri (sm_count m) + sm_interval m * (sm_count m - 1)).
  { pose proof (tri_double (sm_count m)). destruct (decide (sm_count m = 1)) as [->|]; [change (tri 1) with 0; lia|].
    pose proof (valid_interval _ _ _ _ W _ _ _ 1 Hv ltac:(lia) ltac:(lia)).
    pose proof (valid_interval _ _ _ _ W _ _ _ (sm_count m - 1) Hv ltac:(lia) ltac:(lia)). nia. }
  unfold flush_one, add_move, move_end. cbv zeta. cbn [last_step_clock set].
  assert (Er : u32 ((sm_add m *i addfactor (sm_count m)) + sm_interval m * (sm_count m - 1)) =
    sm_add m * tri (sm_count m) + sm_interval m * (sm_count m - 1)).
  { destruct (decide (sm_add m = 0)) as [E|Hne].
    - rewrite E, !Z.mul_0_l. change (s32 0) with 0. apply u32_small. rewrite E, Z.mul_0_l in *. lia.
    - pose proof (next_count _ _ _ _ W _ _ _ Hne Hv ltac:(lia)).
      pose proof (valid_quadratic _ _ _ _ W _ _ _ Hv ltac:(lia)) as Hq. change CLOCK_DIFF_MAX with 0x30000000 in Hq.
      pose proof (tri_nonneg (sm_count m) ltac:(lia)).
      rewrite addfactor_tri by lia. rewrite s32_small by nia. apply u32_small. lia. }
  rewrite Er. unfold u64. rewrite (Z.mod_small (last_step_clock sc + sm_interval m)) by lia.
  rewrite Z.mod_small by lia. lia.
Qed.

Lemma flush_one_setup : same_setup sc (flush_one m sc).
Proof. done. Qed.

Lemma flush_one_data :
  qm_msg <$> msg_queue (flush_one m sc) = (qm_msg <$> msg_queue sc) ++ [message_alloc_and_encode (move_data sc m)].
Proof. unfold flush_one, add_move. cbn [msg_queue set]. by rewrite fmap_app. Qed.

Lemma flush_one_times :
  Forall2 (on_time (max_error sc)) (move_clocks (last_step_clock sc) m) (queue_clocks sc (sm_count m)).
Proof.
  destruct V as (Hc & Ha & Hv). unfold move_clocks, queue_clocks.
  apply Forall2_fmap, Forall_Forall2_diag, Forall_forall. intros k Hk%elem_of_seqZ.
  specialize (Hv k ltac:(lia)). destruct (window sc G k) as (E1 & E2 & _); [unfold win_len in Hc; lia|].
  unfold on_time. lia.
Qed.

(** The rest of the queue, seen from the end of the move. *)
Definition advance : stepcompress :=
  (flush_one m sc) <| queue_pos := queue_pos sc + sm_count m |>.

Lemma advance_off k :
  sm_count m < queue_len sc -> 1 <= k <= queue_len sc - sm_count m ->
  step_off advance k = step_off sc (sm_count m + k) - val (sm_interval m) (sm_add m) (sm_count m) /\
  0 < step_off advance k.
Proof.
  intros Hr Hk. destruct V as (Hc & _ & _). destruct move_end_bounds as [B1 _].
  pose proof (step_off_top sc G (sm_count m + k) ltac:(lia)).
  pose proof (step_off_mono sc G (sm_count m + 1) (sm_count m + k) ltac:(lia) ltac:(lia) ltac:(lia)).
  pose proof (gq_incr _ G (sm_count m) ltac:(lia)).
  assert (E : step_off advance k = u32 (step_off sc (sm_count m + k) - val (sm_interval m) (sm_add m) (sm_count m))).
  { unfold step_off at 1.
    change (last_step_clock advance) with (last_step_clock (flush_one m sc)).
    change (queue advance) with (queue sc). change (queue_pos advance) with (queue_pos sc + sm_count m).
    rewrite flush_one_clock. unfold move_end, step_off.
    replace (queue_pos sc + sm_count m + k - 1) with (queue_pos sc + (sm_count m + k) - 1) by lia.
    clear. word. }
  rewrite E, u32_small by lia. lia.
Qed.

Lemma advance_good :
  sm_count m < queue_len sc -> good_queue advance /\ no_wrap advance /\
  queue_len advance = queue_len sc - sm_count m /\ last_step_clock advance = move_end (last_step_clock sc) m.
Proof.
  intros Hr. destruct V as (Hc & _ & _). destruct move_end_bounds as [B1 _].
  assert (El : queue_len advance = queue_len sc - sm_count m).
  { unfold queue_len. change (queue_next advance) with (queue_next sc).
    change (queue_pos advance) with (queue_pos sc + sm_count m). lia. }
  assert (Ec : last_step_clock advance = move_end (last_step_clock sc) m) by apply flush_one_clock.
  destruct (advance_off (queue_len sc - sm_count m) Hr ltac:(lia)) as [Et _].
  replace (sm_count m + (queue_len sc - sm_count m)) with (queue_len sc) in Et by lia.
  pose proof (gq_top _ G). destruct N as [N1 N2].
  split; [|split; [|done]].
  - constructor; rewrite ?El; [lia| |rewrite Et; lia|exact (gq_err _ G)].
    intros k Hk. destruct (advance_off k Hr ltac:(lia)) as [-> _].
    destruct (advance_off (k + 1) Hr ltac:(lia)) as [-> _].
    pose proof (gq_incr _ G (sm_count m + k) ltac:(lia)).
    replace (sm_count m + (k + 1)) with (sm_count m + k + 1) by lia. lia.
  - split; rewrite ?El, Ec, ?Et; unfold move_end; lia.
Qed.

Lemma advance_clocks n :
  sm_count m < queue_len sc -> 0 <= n <= queue_len sc - sm_count m ->
  queue_clocks sc (sm_count m + n) = queue_clocks sc (sm_count m) ++ queue_clocks advance n.
Proof.
  intros Hr Hn. destruct V as (Hc & _ & _). unfold queue_clocks.
  rewrite seqZ_app, fmap_app by lia. f_equal. rewrite (Z.add_comm 1), <- fmap_add_seqZ, <- list_fmap_compose.
  apply list_fmap_ext. intros i k Hk%list_elem_of_lookup_2%elem_of_seqZ. unfold compose.
  destruct (advance_good Hr) as (_ & _ & _ & ->). destruct (advance_off k Hr ltac:(lia)) as [-> _].
  unfold move_end. lia.
Qed.
End flush.

Lemma sent_count_nonneg sc ms sc' : flushed sc ms sc' -> 0 <= sent_count ms. Proof. intros []. lia. Qed.

Lemma queue_clocks_length sc n : 0 <= n -> length (queue_clocks sc n) = Z.to_nat n.
Proof. intros. unfold queue_clocks. by rewrite length_fmap, length_seqZ. Qed.

Lemma flushed_nil sc : good_queue sc -> no_wrap sc -> flushed sc [] sc.
Proof.
  intros G N. pose proof (gq_len _ G). constructor; cbn [sent_count foldr foldl sent_clocks fmap list_fmap].
  - lia.
  - constructor.
  - by rewrite app_nil_r.
  - constructor.
  - done.
  - right. split; [done|]. split; [done|]. split; [lia|done].
Qed.

(** A move that finishes the queue. *)
Lemma flushed_last sc m :
  good_queue sc -> no_wrap sc -> move_valid sc m -> queue_len sc <= sm_count m ->
  flushed sc [m] ((flush_one m sc) <| queue_pos := 0 |> <| queue_next := 0 |>).
Proof.
  intros G N V Hl. pose proof V as (Hc & _ & _). unfold win_len in Hc.
  constructor; cbn [sent_count foldr foldl sent_clocks fmap list_fmap last_step_clock set];
    rewrite ?Z.add_0_r, ?app_nil_r.
  - lia.
  - constructor; [by eapply move_valid_small|constructor].
  - exact (flush_one_data sc m).
  - by apply flush_one_times.
  - by apply flush_one_clock.
  - left. split_and!; [lia|done|done].
Qed.

Lemma flushed_cons sc m ms sc' :
  good_queue sc -> no_wrap sc -> move_valid sc m -> sm_count m < queue_len sc ->
  flushed (advance sc m) ms sc' -> flushed sc (m :: ms) sc'.
Proof.
  intros G N V Hl F. pose proof F as [F1 F0 F2 F3 F4 F5]. pose proof V as (Hc & _ & _).
  destruct (advance_good sc G N m V Hl) as (Ga & _ & El & Ec). rewrite El in F1, F5. rewrite Ec in F3, F4.
  assert (Ecl : forall n, 0 <= n <= queue_len sc - sm_count m ->
    queue_clocks sc (sm_count m + n) = queue_clocks sc (sm_count m) ++ queue_clocks (advance sc m) n).
  { intros n. by apply advance_clocks. }
  constructor; cbn [sent_count foldr foldl sent_clocks fmap list_fmap]; fold (sent_count ms).
  - lia.
  - constructor; [by eapply move_valid_small|exact F0].
  - rewrite F2. change (msg_queue (advance sc m)) with (msg_queue (flush_one m sc)).
    rewrite flush_one_data, <- app_assoc. done.
  - rewrite Ecl by lia. apply Forall2_app; [by apply flush_one_times|exact F3].
  - done.
  - destruct F5 as [(E1 & E2 & E3)|(E1 & E0 & E2 & E3)]; [left; split_and!; [lia|done|done]|right].
    split; [done|]. split; [done|]. split; [lia|]. rewrite E3.
    replace (queue_len sc) with (sm_count m + (queue_len sc - sm_count m)) at 2 by lia.
    rewrite Ecl by lia. rewrite drop_app_ge by (rewrite queue_clocks_length; lia).
    rewrite queue_clocks_length by lia. f_equal. lia.
Qed.

Lemma queue_flush_loop_spec fuel mc sc :
  good_queue sc -> no_wrap sc -> queue_len sc < Z.of_nat fuel ->
  exists ms sc', queue_flush_loop fuel mc sc = Ret 0 sc' /\ flushed sc ms sc' /\
    (sent_count ms < queue_len sc -> mc <= last_step_clock sc').
Proof.
  revert sc. induction fuel as [|fuel IH]; intros sc G N Hf; [pose proof (gq_len _ G); lia|].
  cbn [queue_flush_loop]. destruct (Z.ltb_spec (last_step_clock sc) mc); cbn [negb].
  2: { exists [], sc. split_and!; [done|by apply flushed_nil|lia]. }
  destruct (compress_bisect_add_spec sc G) as (m & -> & V). rewrite (check_line_valid sc G m V).
  cbn [truthy negb Z.eqb]. fold (flush_one m sc). pose proof V as (Hc & _ & _).
  change (queue_next (flush_one m sc)) with (queue_next sc). change (queue_pos (flush_one m sc)) with (queue_pos sc).
  destruct (Z.leb_spec (queue_next sc) (queue_pos sc + sm_count m)).
  - exists [m]. eexists. split; [done|]. split; [apply flushed_last; try done; unfold queue_len; lia|].
    unfold sent_count, queue_len. cbn [foldr]. lia.
  - assert (Hl : sm_count m < queue_len sc) by (unfold queue_len; lia).
    destruct (advance_good sc G N m V Hl) as (Ga & Na & El & Ec).
    destruct (IH (advance sc m) Ga Na ltac:(lia)) as (ms & sc' & E & F & Hm).
    exists (m :: ms), sc'. split_and!; [exact E|by apply flushed_cons|].
    cbn [sent_count foldr]. fold (sent_count ms). intros. apply Hm. lia.
Qed.

Lemma good_queue_calc sc : good_queue sc -> good_queue (calc_last_step_print_time sc).
Proof. intros []. by constructor. Qed.

Lemma flushed_calc sc ms sc' : flushed sc ms sc' -> flushed sc ms (calc_last_step_print_time sc').
Proof.
  intros [F1 F0 F2 F3 F4 F5]. constructor; try done.
  destruct F5 as [?|(? & ? & ? & ?)]; [by left|right]. split; [by apply good_queue_calc|done].
Qed.

Lemma queue_flush_spec mc sc :
  good_queue sc -> no_wrap sc ->
  exists ms sc', queue_flush mc sc = Ret 0 sc' /\ flushed sc ms sc' /\
    (sent_count ms < queue_len sc -> mc <= last_step_clock sc').
Proof.
  intros G N. pose proof (gq_len _ G) as Hl. unfold queue_flush.
  destruct (Z.leb_spec (queue_next sc) (queue_pos sc)); [unfold queue_len in Hl; lia|].
  destruct (queue_flush_loop_spec (S (Z.to_nat (queue_len sc))) mc sc G N ltac:(lia)) as (ms & sc' & E & F & Hm).
  unfold queue_len in E. exists ms, (calc_last_step_print_time sc').
  split_and!; [|by apply flushed_calc|exact Hm]. rewrite (bind_ret _ _ _ _ _ E). reflexivity.
Qed.

(** A flush up to the end of time sends everything. *)
Lemma flushed_all sc ms sc' :
  flushed sc ms sc' -> (sent_count ms < queue_len sc -> UINT64_MAX <= last_step_clock sc') ->
  sent_count ms = queue_len sc.
Proof.
  intros [F1 _ _ _ _ F5] H. destruct F5 as [[? _]|(G & [N1 N2] & E & _)]; [done|].
  pose proof (gq_len _ G). pose proof (u32_range (queue sc' (queue_pos sc' + queue_len sc' - 1) - u32 (last_step_clock sc'))).
  unfold step_off in N2. lia.
Qed.

(** C10: the compression always succeeds.  For a queue of strictly increasing
    step times less than CLOCK_DIFF_MAX ticks ahead, [compress_bisect_add]
    returns (its two nested searches end within their fuel), the move covers at
    least one and at most all of the queued steps, and the run-time validation
    [check_line] accepts it: every step it generates is at most [max_error]
    ticks early and never late. *)
Theorem compress_bisect_add_valid sc :
  good_queue sc ->
  exists m, compress_bisect_add sc = Some m /\ check_line sc m = 0 /\
    1 <= sm_count m <= queue_len sc /\
    Forall2 (on_time (max_error sc)) (move_clocks (last_step_clock sc) m) (queue_clocks sc (sm_count m)).
Proof.
  intros G. destruct (compress_bisect_add_spec sc G) as (m & E & V). exists m.
  split_and!; [done|by apply check_line_valid|..|by apply flush_one_times];
    destruct V as (Hc & _ & _); unfold win_len in Hc; lia.
Qed.

(** Flushing the step queue.  [queue_flush] succeeds; the queue_step
    commands it appends to the message queue cover the queued steps in order,
    without gaps or duplicates, each of their steps on time; and it stops
    before the end of the queue only once the clock it was given is reached,
    leaving the remaining steps queued. *)
Theorem queue_flush_on_time mc sc :
  good_queue sc -> no_wrap sc ->
  exists ms sc', queue_flush mc sc = Ret 0 sc' /\ flushed sc ms sc' /\
    (sent_count ms < queue_len sc -> mc <= last_step_clock sc').
Proof. apply queue_flush_spec. Qed.

(** ** A concrete queue *)

(** Eight steps of an acceleration from standstill. *)
Definition demo_steps : list Z := [1000; 1414; 1732; 2000; 2236; 2449; 2646; 2828].
Definition demo_sc : stepcompress :=
  (stepcompress_fill 3 25 10 11 stepcompress_alloc) <| queue := fun i => nth (Z.to_nat i) demo_steps 0 |>
    <| queue_end := 1024 |> <| queue_next := 8 |>.

Lemma demo_sc_good : good_queue demo_sc.
Proof.
  constructor; [vm_compute; discriminate| |vm_compute; reflexivity|vm_compute; split; discriminate].
  intros k Hk. change (queue_len demo_sc) with 8 in Hk.
  assert (In k [1; 2; 3; 4; 5; 6; 7]) as Hin by (cbn; lia).
  cbn in Hin. destruct_or! Hin; subst; reflexivity.
Qed.

Lemma demo_sc_no_wrap : no_wrap demo_sc.
Proof. split; vm_compute; [discriminate|reflexivity]. Qed.

Lemma compress_bisect_add_valid_witness :
  exists m, compress_bisect_add demo_sc = Some m /\ check_line demo_sc m = 0 /\ 1 <= sm_count m <= 8.
Proof.
  destruct (compress_bisect_add_valid demo_sc demo_sc_good) as (m & E & C & H & _).
  exists m. split; [exact E|]. split; [exact C|exact H].
Defined.

Lemma queue_flush_on_time_witness :
  exists ms sc', queue_flush UINT64_MAX demo_sc = Ret 0 sc' /\ sent_count ms = 8 /\
    Forall2 (on_time 25) (sent_clocks 0 ms) demo_steps.
Proof.
  destruct (queue_flush_on_time UINT64_MAX demo_sc demo_sc_good demo_sc_no_wrap) as (ms & sc' & E & F & H).
  exists ms, sc'. split; [exact E|].
  assert (Hc : sent_count ms = 8) by exact (flushed_all demo_sc ms sc' F H).
  split; [exact Hc|]. pose proof (fl_times _ _ _ F) as Ft. rewrite Hc in Ft.
  change (queue_clocks demo_sc 8) with demo_steps in Ft. exact Ft.
Defined.
