(* ===== verification/Trapq.v ===== *)
(** * The queue of moves (klippy/chelper/trapq.c)

    A trapezoidal velocity move of the toolhead is up to three [move]s of constant
    acceleration.  A [trapq] holds the moves to come between two sentinels and a
    history of past ones, newest first. *)

From Stdlib Require Import Reals Lra Sorted.
From S2P Require Import Prelude Double Numeric.

Record coord (A : Type) := mk_coord { cx : A; cy : A; cz : A }.
Arguments mk_coord {A}. Arguments cx {A}. Arguments cy {A}. Arguments cz {A}.
#[export] Instance eta_coord A : Eta (coord A) := fun c => mk_coord (cx c) (cy c) (cz c).

Record move (A : Type) := mk_move {
  print_time : A;
  move_t : A;
  start_v : A;
  half_accel : A;
  start_pos : coord A;
  axes_r : coord A }.
Arguments mk_move {A}. Arguments print_time {A}. Arguments move_t {A}. Arguments start_v {A}.
Arguments half_accel {A}. Arguments start_pos {A}. Arguments axes_r {A}.
#[export] Instance eta_move A : Eta (move A) := fun m =>
  mk_move (print_time m) (move_t m) (start_v m) (half_accel m) (start_pos m) (axes_r m).

(** The linked list [moves] is [head_sentinel], [moves], [tail_sentinel]: no
    function removes a sentinel. *)
Record trapq (A : Type) := mk_trapq {
  head_sentinel : move A;
  moves : list (move A);
  tail_sentinel : move A;
  history : list (move A) }.
Arguments mk_trapq {A}. Arguments head_sentinel {A}. Arguments moves {A}.
Arguments tail_sentinel {A}. Arguments history {A}.
#[export] Instance eta_trapq A : Eta (trapq A) := fun tq =>
  mk_trapq (head_sentinel tq) (moves tq) (tail_sentinel tq) (history tq).

Record pull_move (A : Type) := mk_pull_move {
  pm_print_time : A; pm_move_t : A; pm_start_v : A; pm_accel : A;
  pm_start_x : A; pm_start_y : A; pm_start_z : A; pm_x_r : A; pm_y_r : A; pm_z_r : A }.
Arguments mk_pull_move {A}.

Section trapq.
Context {A : Type} `{Num A}.
Local Open Scope num_scope.

Definition coord0 : coord A := mk_coord (nint 0) (nint 0) (nint 0).
Definition move_alloc : move A := mk_move (nint 0) (nint 0) (nint 0) (nint 0) coord0 coord0.

Definition move_get_distance (m : move A) (move_time : A) : A :=
  (start_v m + half_accel m * move_time) * move_time.

Definition move_get_coord (m : move A) (move_time : A) : coord A :=
  let move_dist := move_get_distance m move_time in
  mk_coord (cx (start_pos m) + cx (axes_r m) * move_dist)
           (cy (start_pos m) + cy (axes_r m) * move_dist)
           (cz (start_pos m) + cz (axes_r m) * move_dist).

Definition NEVER_TIME : A := nlit 99999999999999999 10.
Definition MAX_NULL_MOVE : A := nint 1.

(** [m->print_time + m->move_t] *)
Definition move_end (m : move A) : A := print_time m + move_t m.

Definition trapq_alloc : trapq A :=
  mk_trapq (move_alloc <| print_time := nint (-1) |>) []
           (move_alloc <| print_time := NEVER_TIME |> <| move_t := NEVER_TIME |>) [].

(** The move before the tail sentinel. *)
Definition last_move (tq : trapq A) : move A := List.last (moves tq) (head_sentinel tq).

Definition trapq_check_sentinels (tq : trapq A) : trapq A :=
  if nonzero (print_time (tail_sentinel tq)) then tq else
  match moves tq with
  | [] => tq <| tail_sentinel ::= fun t => t <| print_time := NEVER_TIME |> |>
  | _ =>
    let m := last_move tq in
    tq <| tail_sentinel ::= fun t =>
            t <| print_time := move_end m |> <| start_pos := move_get_coord m (move_t m) |> |>
  end.

Definition trapq_add_move (m : move A) (tq : trapq A) : trapq A :=
  let prev := last_move tq in
  let tq :=
    if move_end prev <? print_time m then
      let t := if (print_time prev <=? nint 0) && (MAX_NULL_MOVE <? print_time m)
               then print_time m - MAX_NULL_MOVE else move_end prev in
      let null_move := move_alloc <| start_pos := start_pos m |> <| print_time := t |>
                         <| move_t := print_time m - t |> in
      tq <| moves ::= fun l => l ++ [null_move] |>
    else tq in
  tq <| moves ::= fun l => l ++ [m] |> <| tail_sentinel ::= fun t => t <| print_time := nint 0 |> |>.

(** One of the three parts of a move: the queue, and the time and the position
    at which the part ends. *)
Definition append_part (t v ha : A) (axes_r : coord A) (s : trapq A * A * coord A) : trapq A * A * coord A :=
  let '(tq, print_time, start_pos) := s in
  if nonzero t then
    let m := mk_move print_time t v ha start_pos axes_r in
    (trapq_add_move m tq, print_time + t, move_get_coord m t)
  else s.

Definition trapq_append (print_time accel_t cruise_t decel_t : A) (start_pos axes_r : coord A)
    (start_v cruise_v accel : A) (tq : trapq A) : trapq A :=
  let s := append_part accel_t start_v (nlit 1 2 * accel) axes_r (tq, print_time, start_pos) in
  let s := append_part cruise_t cruise_v (nint 0) axes_r s in
  let s := append_part decel_t cruise_v (nlit (-1) 2 * accel) axes_r s in
  s.1.1.

Definition has_motion (m : move A) : bool := nonzero (start_v m) || nonzero (half_accel m).

(** The loop that moves expired moves to the history. *)
Fixpoint expire_moves (l : list (move A)) (print_time : A) (history : list (move A))
    : list (move A) * list (move A) :=
  match l with
  | [] => ([], history)
  | m :: rest =>
    if print_time <? move_end m then (l, history)
    else expire_moves rest print_time (if has_motion m then m :: history else history)
  end.

(** The loop that frees the old end of the history, given oldest first. *)
Fixpoint expire_history (rev_history : list (move A)) (clear_history_time : A) : list (move A) :=
  match rev_history with
  | [] => []
  | m :: rest =>
    match rest with
    | [] => [m]
    | _ => if clear_history_time <? move_end m then rev_history else expire_history rest clear_history_time
    end
  end.

Definition trapq_finalize_moves (print_time clear_history_time : A) (tq : trapq A) : trapq A :=
  let '(l, h) := expire_moves (moves tq) print_time (history tq) in
  let tq := tq <| moves := l |> <| history := h |> in
  let tq := match l with
            | [] => tq <| tail_sentinel ::= fun t => t <| Trapq.print_time := NEVER_TIME |> |>
            | _ => tq
            end in
  tq <| history ::= fun h => reverse (expire_history (reverse h) clear_history_time) |>.

(** The loop that prunes moves of the history that were interrupted. *)
Fixpoint prune_history (h : list (move A)) (print_time : A) : list (move A) :=
  match h with
  | [] => []
  | m :: rest =>
    if Trapq.print_time m <? print_time then
      (if print_time <? move_end m then m <| move_t := print_time - Trapq.print_time m |> else m) :: rest
    else prune_history rest print_time
  end.

Definition trapq_set_position (print_time : A) (pos : coord A) (tq : trapq A) : trapq A :=
  let tq := trapq_finalize_moves NEVER_TIME (nint 0) tq in
  let tq := tq <| history ::= fun h => prune_history h print_time |> in
  let m := move_alloc <| Trapq.print_time := print_time |> <| start_pos := pos |> in
  tq <| history ::= cons m |>.

Definition copy_pull_move (m : move A) : pull_move A :=
  mk_pull_move (print_time m) (move_t m) (start_v m) (nint 2 * half_accel m)
    (cx (start_pos m)) (cy (start_pos m)) (cz (start_pos m))
    (cx (axes_r m)) (cy (axes_r m)) (cz (axes_r m)).

(** The two loops of [trapq_extract_old], which differ in the moves they pass
    over; [max] counts what is left of the caller's array. *)
Fixpoint extract_loop (skip : move A -> bool) (l : list (move A)) (max : nat) (start_time : A)
    : list (pull_move A) :=
  match l with
  | [] => []
  | m :: l =>
    if (move_end m <=? start_time) || (max =? 0)%nat then []
    else if skip m then extract_loop skip l max start_time
    else match max with
         | O => []
         | S max => copy_pull_move m :: extract_loop skip l max start_time
         end
  end.

Definition trapq_extract_old (max : nat) (start_time end_time : A) (tq : trapq A) : list (pull_move A) :=
  let p := extract_loop (fun m => (end_time <=? print_time m) || negb (has_motion m))
             (reverse (head_sentinel tq :: moves tq)) max start_time in
  p ++ extract_loop (fun m => end_time <=? print_time m) (history tq) (max - length p) start_time.
End trapq.

(** ** The trajectory, in exact arithmetic *)

Section exact.
Local Open Scope R_scope.
Implicit Types (m : move R) (l : list (move R)) (tq : trapq R).

(** Each move starts when the one before it ends. *)
Definition contiguous l : Prop := Sorted (fun m m' => print_time m' = move_end m) l.

Lemma contiguous_snoc l m d :
  contiguous l -> (l <> [] -> print_time m = move_end (List.last l d)) -> contiguous (l ++ [m]).
Proof.
  intros Hl Hm. induction Hl as [|m1 l Hl IH Hh]; cbn; [repeat constructor|].
  destruct l as [|m2 l]; cbn in *.
  - repeat constructor. by apply Hm.
  - constructor; [apply IH; intros _; by apply Hm|]. inversion_clear Hh. by constructor.
Qed.

(** What the code relies on: moves follow each other, the last one starts after
    time 0, and the head sentinel is where [trapq_alloc] put it. *)
Record tq_ok tq : Prop := {
  tq_contiguous : contiguous (moves tq);
  tq_positive : moves tq <> [] -> 0 < print_time (last_move tq);
  tq_head : print_time (head_sentinel tq) = -1 /\ move_t (head_sentinel tq) = 0 }.

Lemma trapq_alloc_ok : tq_ok trapq_alloc.
Proof.
  split; [apply Sorted_nil|done|].
  unfold trapq_alloc, move_alloc. cbn. split; lra.
Qed.

(** A move without motion before [m]. *)
Definition null_before m (n : move R) : Prop :=
  start_v n = 0 /\ half_accel n = 0 /\ start_pos n = start_pos m /\ move_end n = print_time m.

Lemma moves_app_app tq l1 l2 :
  tq <| moves ::= fun l => l ++ l1 |> <| moves ::= fun l => l ++ l2 |> = tq <| moves := moves tq ++ l1 ++ l2 |>.
Proof. unfold set. cbn. by rewrite <- (assoc_L (++)). Qed.

(** Adding a move: the queue grows by the move, after at most one move without
    motion that fills the time since the move before it. *)
Lemma trapq_add_move_shape m tq :
  tq_ok tq -> move_end (last_move tq) <= print_time m ->
  exists gap, trapq_add_move m tq = tq <| moves := moves tq ++ gap ++ [m] |>
      <| tail_sentinel ::= fun t => t <| print_time := nint 0 |> |> /\
    (gap = [] /\ (moves tq <> [] -> print_time m = move_end (last_move tq)) \/
     exists n, gap = [n] /\ null_before m n /\ move_end (last_move tq) < print_time m /\
       (moves tq <> [] -> print_time n = move_end (last_move tq))).
Proof.
  intros [_ Hp _] Hle. unfold trapq_add_move.
  destruct (nltP (move_end (last_move tq)) (print_time m)) as [Hlt|Hlt].
  - eexists [_]. split.
    { rewrite moves_app_app. reflexivity. }
    right. eexists. split; [done|].
    unfold null_before, move_end in *. cbn in *. split_and!; [lra|lra|done|lra|done|].
    intros Hne. specialize (Hp Hne). rcases; (lra || done).
  - exists []. split; [done|]. left. split; [done|]. intros _. lra.
Qed.

Lemma trapq_add_move_ok m tq :
  tq_ok tq -> 0 < print_time m -> move_end (last_move tq) <= print_time m ->
  let tq' := trapq_add_move m tq in
  tq_ok tq' /\ last_move tq' = m /\
  exists gap, moves tq' = moves tq ++ gap ++ [m] /\ Forall (null_before m) gap /\ (length gap <= 1)%nat /\
    (move_end (last_move tq) = print_time m -> gap = []).
Proof.
  intros Hok Hm Hle tq'. destruct (trapq_add_move_shape m tq Hok Hle) as (gap & E & Hg). subst tq'. rewrite E.
  assert (Hl : last_move (trapq_add_move m tq) = m).
  { rewrite E. unfold last_move. cbn. by rewrite (assoc_L (++)), last_app. }
  rewrite E in Hl. destruct Hok as [Hc Hp Hh]. split; [split|split].
  - cbn. destruct Hg as [[-> He]|(n & -> & (Hn1 & Hn2 & Hn3 & Hn4) & _ & He)].
    + apply contiguous_snoc with (head_sentinel tq); done.
    + rewrite (assoc_L (++)). apply contiguous_snoc with (head_sentinel tq).
      * by apply contiguous_snoc with (head_sentinel tq).
      * intros _. by rewrite last_app.
  - intros _. by rewrite Hl.
  - done.
  - done.
  - exists gap. split; [done|]. destruct Hg as [[-> _]|(n & -> & Hn & Hlt & _)]; split_and!; auto; intros; exfalso; lra.
Qed.
(** The point at distance [d] from [sp] in direction [ar]. *)
Definition along (sp ar : coord R) (d : R) : coord R :=
  mk_coord (cx sp + cx ar * d) (cy sp + cy ar * d) (cz sp + cz ar * d).

(** The distance after time [t] of a trapezoidal velocity move: acceleration
    for [ta], cruising for [tc], then deceleration. *)
Definition trapezoid_distance (ta tc start_v cruise_v accel t : R) : R :=
  let da := start_v * ta + accel * ta * ta / 2 in
  if Rle_dec t ta then start_v * t + accel * t * t / 2
  else if Rle_dec t (ta + tc) then da + cruise_v * (t - ta)
  else let u := t - ta - tc in da + cruise_v * tc + cruise_v * u - accel * u * u / 2.

(** From time [pt] on, move [m] is where the distance function [D] says. *)
Definition follows (pt : R) (sp ar : coord R) (D : R -> R) m : Prop :=
  forall t, 0 <= t <= move_t m -> pt <= print_time m + t ->
  move_get_coord m t = along sp ar (D (print_time m + t - pt)).

Section append.
Context (tq0 : trapq R) (pt : R) (sp ar : coord R) (D : R -> R).

(** After the parts that take time [T]. *)
Definition parts_inv (T : R) (s : trapq R * R * coord R) : Prop :=
  let '(tq, p, c) := s in
  p = pt + T /\ c = along sp ar (D T) /\ tq_ok tq /\ move_end (last_move tq) <= p /\
  (0 < T -> move_end (last_move tq) = p) /\
  exists new, moves tq = moves tq0 ++ new /\ Forall (follows pt sp ar D) new /\
    forall t, pt <= t <= p -> 0 < T -> Exists (fun m => print_time m <= t <= move_end m) new.

Lemma append_part_inv T t v ha s :
  0 < pt -> 0 <= T -> 0 <= t -> (forall u, 0 <= u <= t -> D (T + u) = D T + (v + ha * u) * u) ->
  parts_inv T s -> parts_inv (T + t) (append_part t v ha ar s).
Proof.
  destruct s as [[tq p] c]. intros Hpt HT Ht HD (-> & -> & Hok & Hle & Heq & new & Hn & Hf & Hc).
  unfold append_part. destruct (nonzeroP t) as [Ht0|Ht0]; cycle 1.
  { apply Rnot_not_neq in Ht0 || (destruct (Req_dec t 0); [|tauto]); subst. rewrite Rplus_0_r.
    split_and!; eauto. }
  set (m := mk_move (pt + T) t v ha (along sp ar (D T)) ar).
  destruct (trapq_add_move_ok m tq) as (Hok' & Hl & gap & Hg & Hgap & _ & Hg0); [done|cbn; lra|done|].
  assert (Hm : follows pt sp ar D m).
  { intros u Hu _. cbn in Hu |- *. unfold move_get_coord, move_get_distance, along. cbn.
    replace (pt + T + u - pt) with (T + u) by lra. rewrite HD by done. f_equal; lra. }
  split_and!.
  - cbn. lra.
  - specialize (Hm t). cbn in Hm |- *. rewrite Hm by lra. do 2 f_equal. lra.
  - done.
  - rewrite Hl. unfold move_end. cbn. lra.
  - intros _. rewrite Hl. done.
  - exists (new ++ gap ++ [m]). split; [by rewrite Hg, Hn, <- (assoc_L (++))|]. split.
    + rewrite !Forall_app. split_and!; [done| |by constructor].
      destruct (Rlt_dec 0 T) as [HT0|HT0]; [rewrite Hg0 by (by apply Heq); constructor|].
      eapply Forall_impl; [exact Hgap|]. intros n (Hv & Ha & Hs & He) u Hu Hu'.
      cbn in Hs. unfold move_end in He. cbn in He. unfold move_get_coord, move_get_distance.
      rewrite Hs, Hv, Ha. unfold along. cbn. replace (print_time n + u - pt) with T by lra. f_equal; lra.
    + intros u Hu _. cbn in Hu. destruct (Rlt_dec u (pt + T)) as [Hlt|Hlt].
      * apply Exists_app. left. apply Hc; lra.
      * rewrite !Exists_app. right. right. constructor. unfold move_end. cbn. lra.
Qed.
End append.

(** Appending a trapezoidal velocity move: the queue stays contiguous, and from
    [pt] until the move ends some queued move covers every moment and all of them
    agree with the trapezoid. *)
Lemma trapq_append_follows pt ta tc td sp ar sv cv a tq :
  tq_ok tq -> 0 < pt -> move_end (last_move tq) <= pt -> 0 <= ta -> 0 <= tc -> 0 <= td ->
  let D := trapezoid_distance ta tc sv cv a in
  let tq' := trapq_append pt ta tc td sp ar sv cv a tq in
  tq_ok tq' /\ move_end (last_move tq') <= pt + ta + tc + td /\
  exists new, moves tq' = moves tq ++ new /\ Forall (follows pt sp ar D) new /\
    forall t, pt <= t <= pt + ta + tc + td -> 0 < ta + tc + td ->
    Exists (fun m => print_time m <= t <= move_end m) new.
Proof.
  intros Hok Hpt Hle Ha Hc Hd D tq'. subst tq'. unfold trapq_append.
  assert (H0 : parts_inv tq pt sp ar D 0 (tq, pt, sp)).
  { split_and!; [lra| |done|done|lra|].
    - subst D. unfold trapezoid_distance. destruct (Rle_dec 0 ta); [|lra]. destruct sp. unfold along. cbn.
      f_equal; lra.
    - exists []. rewrite app_nil_r. split_and!; [done|constructor|]. intros. lra. }
  apply (append_part_inv tq pt sp ar D 0 ta sv (nlit 1 2 * a)%num) in H0; [|done|lra|done|]; cycle 1.
  { intros u Hu. subst D. unfold trapezoid_distance. cbn. repeat destruct (Rle_dec _ _); lra. }
  apply (append_part_inv tq pt sp ar D _ tc cv (nint 0)%num) in H0; [|done|lra|done|]; cycle 1.
  { intros u Hu. subst D. unfold trapezoid_distance. cbn. repeat destruct (Rle_dec _ _); try lra;
      try (replace u with 0 by lra; lra); replace tc with 0 by lra; try (replace u with 0 by lra); lra. }
  apply (append_part_inv tq pt sp ar D _ td cv (nlit (-1) 2 * a)%num) in H0; [|done|lra|done|]; cycle 1.
  { intros u Hu. subst D. unfold trapezoid_distance. cbn. repeat destruct (Rle_dec _ _); try lra;
      try (replace u with 0 by lra; lra); replace tc with 0 by lra; try (replace u with 0 by lra); lra. }
  destruct (append_part td _ _ _ _) as [[tq' p] c] eqn:E. destruct H0 as (-> & _ & Hok' & Hle' & _ & new & Hn & Hf & He).
  cbn. rewrite !Rplus_0_l, <- !Rplus_assoc in *. split_and!; [done|done|]. exists new. split_and!; [done..|]. intros. apply He; lra.
Qed.
(** The whole list, and that it covers the future once the sentinels are up to
    date. *)
Definition tq_list {A} (tq : trapq A) : list (move A) := head_sentinel tq :: moves tq ++ [tail_sentinel tq].

Lemma check_sentinels_contiguous tq :
  tq_ok tq -> print_time (tail_sentinel tq) = 0 ->
  let tq' := trapq_check_sentinels tq in
  moves tq' = moves tq /\ contiguous (moves tq' ++ [tail_sentinel tq']) /\
  (moves tq <> [] -> start_pos (tail_sentinel tq') = move_get_coord (last_move tq) (move_t (last_move tq))).
Proof.
  intros [Hc _ _] Ht. unfold trapq_check_sentinels. destruct (nonzeroP (print_time (tail_sentinel tq))); [done|].
  destruct (moves tq) as [|m l] eqn:E; cbn.
  - rewrite E. split_and!; [done|repeat constructor|done].
  - rewrite E. split_and!; [done| |done].
    apply contiguous_snoc with (head_sentinel tq); [done|]. rewrite <- E. intros _. done.
Qed.

(** *** Reading the queue back *)

(** Newest first: no later move ends before an earlier one. *)
Definition newest_first l : Prop := Sorted (fun m m' => move_end m' <= move_end m) l.

Definition overlaps (start_time end_time : R) m : Prop := start_time < move_end m /\ print_time m < end_time.
#[local] Instance overlaps_dec s e m : Decision (overlaps s e m).
Proof. unfold overlaps. apply _. Defined.

Lemma newest_first_tail m l : newest_first (m :: l) -> Forall (fun m' => move_end m' <= move_end m) l.
Proof.
  intros Hs%Sorted_StronglySorted; [by inversion_clear Hs|]. intros x y z. lra.
Qed.

Lemma extract_loop_exact (skip : move R -> bool) l max start_time :
  newest_first l ->
  extract_loop skip l max start_time =
  take max (copy_pull_move <$> filter (fun m => start_time < move_end m /\ skip m = false) l).
Proof.
  intros Hs. revert max. induction l as [|m l IH]; intros max; cbn [extract_loop]; [by destruct max|].
  pose proof (newest_first_tail m l Hs) as Hl. apply Sorted_inv in Hs as [Hs _].
  destruct (nleP (move_end m) start_time) as [Hle|Hle]; cbn [orb].
  { rewrite filter_cons_False by lra.
    replace (filter _ l) with (@nil (move R)); [by destruct max|]. symmetry.
    apply filter_none. eapply Forall_impl; [exact Hl|]. cbn beta. intros m' Hm' [Hlt _]. lra. }
  destruct max as [|max]; [done|]. cbn [Nat.eqb]. destruct (skip m) eqn:E.
  - rewrite filter_cons_False by (intros [_ ?]; congruence). apply IH, Hs.
  - rewrite filter_cons_True by (split; [lra|done]). cbn. f_equal. apply IH, Hs.
Qed.

(** What [trapq_extract_old] reads back: the newest [max] moves that overlap the
    requested time, those still queued only if they move, newest first. *)
Lemma trapq_extract_old_exact max start_time end_time tq :
  newest_first (reverse (head_sentinel tq :: moves tq)) -> newest_first (history tq) ->
  trapq_extract_old max start_time end_time tq =
  take max (copy_pull_move <$> filter (overlaps start_time end_time)
    (filter (fun m => has_motion m = true) (reverse (head_sentinel tq :: moves tq)) ++ history tq)).
Proof.
  intros Hm Hh. unfold trapq_extract_old. rewrite !extract_loop_exact by done.
  rewrite filter_app, fmap_app, take_app, length_take, list_filter_filter.
  rewrite (list_filter_iff (fun m => start_time < move_end m /\ _) (fun m => overlaps start_time end_time m /\ has_motion m = true)).
  - rewrite (list_filter_iff (fun m => start_time < move_end m /\ _) (overlaps start_time end_time)).
    + do 2 f_equal. lia.
    + intros m. unfold overlaps. destruct (nleP end_time (print_time m)); split; intros []; split; (done || lra).
  - intros m. unfold overlaps. rewrite orb_false_iff, negb_false_iff.
    destruct (nleP end_time (print_time m)); split; intros [? []]; try done; split_and!; (done || lra).
Qed.

(** *** Expiring moves *)

Lemma expire_moves_spec l pt h :
  exists gone kept, l = gone ++ kept /\
    expire_moves l pt h = (kept, reverse (filter (fun m => has_motion m = true) gone) ++ h) /\
    Forall (fun m => move_end m <= pt) gone /\ (forall m, head kept = Some m -> pt < move_end m).
Proof.
  revert h. induction l as [|m l IH]; intros h; cbn [expire_moves].
  { exists [], []. split_and!; done || constructor. }
  destruct (nltP pt (move_end m)) as [Hlt|Hlt].
  { exists [], (m :: l). split_and!; [done|done|constructor|]. cbn. by intros ? [= <-]. }
  destruct (IH (if has_motion m then m :: h else h)) as (gone & kept & -> & E & Hg & Hk).
  exists (m :: gone), kept. split_and!; [done| |constructor; [lra|done]|done].
  rewrite E. f_equal. destruct (has_motion m) eqn:Em.
  - rewrite filter_cons_True by done. by rewrite reverse_cons, <- (assoc_L (++)).
  - rewrite filter_cons_False by congruence. done.
Qed.

Lemma expire_history_spec r t :
  exists gone, r = gone ++ expire_history r t /\ Forall (fun m => move_end m <= t) gone /\
    (r <> [] -> expire_history r t <> []).
Proof.
  induction r as [|m r IH]; [by exists []|]. destruct r as [|m2 r]; [by exists []|].
  cbn [expire_history]. destruct (nltP t (move_end m)) as [Hlt|Hlt]; [by exists []|].
  destruct IH as (gone & E & Hg & Hn). exists (m :: gone). split_and!; [|constructor; [lra|done]|by intros; apply Hn].
  cbn. by f_equal.
Qed.

(** No motion is lost: what leaves the queue had ended by [pt] and stands in the
    history, newest first, unless it does not move or ended before
    [clear_history_time]; the newest move of the history is always kept. *)
Lemma trapq_finalize_moves_spec pt clear_history_time tq :
  let tq' := trapq_finalize_moves pt clear_history_time tq in
  exists gone old, moves tq = gone ++ moves tq' /\ Forall (fun m => move_end m <= pt) gone /\
    (forall m, head (moves tq') = Some m -> pt < move_end m) /\
    reverse (filter (fun m => has_motion m = true) gone) ++ history tq = history tq' ++ old /\
    Forall (fun m => move_end m <= clear_history_time) old.
Proof.
  unfold trapq_finalize_moves.
  destruct (expire_moves_spec (moves tq) pt (history tq)) as (gone & kept & El & -> & Hg & Hk).
  set (h := _ ++ history tq).
  destruct (expire_history_spec (reverse h) clear_history_time) as (old & Er & Ho & _).
  exists gone, (reverse old). cbn.
  assert (E : h = reverse (expire_history (reverse h) clear_history_time) ++ reverse old).
  { by rewrite <- reverse_app, <- Er, reverse_involutive. }
  destruct kept; cbn in *; split_and!; try done; by apply Forall_reverse.
Qed.

(** All moves end by time [t]. *)
Definition before (t : R) tq : Prop := Forall (fun m => move_end m <= t) (moves tq).

Lemma before_last t tq : tq_ok tq -> 0 <= t -> before t tq -> move_end (last_move tq) <= t.
Proof.
  intros [_ _ [Hh Hh']] Ht. unfold before, last_move. induction (moves tq) as [|m l _] using rev_ind; intros Hb.
  - unfold move_end. cbn. lra.
  - rewrite last_app by done. by apply Forall_app in Hb as [_ Hb%Forall_inv].
Qed.
Lemma before_le t t' tq : t <= t' -> before t tq -> before t' tq.
Proof. intros Hle Hb. apply (Forall_impl _ _ _ Hb). intros m Hm. lra. Qed.

Lemma append_part_before t v ha ar tq p c : tq_ok tq -> 0 < p -> 0 <= t -> before p tq ->
  let s := append_part t v ha ar (tq, p, c) in tq_ok s.1.1 /\ s.1.2 = p + t /\ before (p + t) s.1.1.
Proof.
  intros Hok Hp Ht Hb s. subst s. unfold append_part. destruct (nonzeroP t) as [Hz|Hz]; cbn [fst snd].
  2: { split; [done|]. split; [lra|]. apply (before_le p); [lra|done]. }
  destruct (trapq_add_move_ok (mk_move p t v ha c ar) tq Hok Hp) as (Hok' & _ & gap & E & Hg & _).
  { cbn. apply before_last; [done|lra|done]. }
  split; [done|]. split; [done|]. unfold before. rewrite E, !Forall_app. split; [apply (before_le p); [lra|done]|].
  split; [|apply Forall_singleton; unfold move_end; cbn; lra]. apply (Forall_impl _ _ _ Hg). intros n (_ & _ & _ & ->). cbn. lra.
Qed.
Lemma trapq_append_before pt ta tc td sp ar sv cv a tq : tq_ok tq -> 0 < pt -> 0 <= ta -> 0 <= tc -> 0 <= td -> before pt tq ->
  let tq' := trapq_append pt ta tc td sp ar sv cv a tq in tq_ok tq' /\ before (pt + ta + tc + td) tq'.
Proof.
  intros Hok Hpt Ha Hc Hd Hb tq'. subst tq'. unfold trapq_append.
  set (s1 := append_part ta _ _ _ _). destruct (append_part_before ta sv (nlit 1 2 * a)%num ar tq pt sp Hok Hpt Ha Hb) as (Hok1 & E1 & Hb1).
  fold s1 in Hok1, E1, Hb1. clearbody s1. destruct s1 as [[tq1 p1] c1]. cbn in Hok1, E1, Hb1. subst p1.
  set (s2 := append_part tc _ _ _ _). destruct (append_part_before tc cv (nint 0) ar tq1 (pt + ta) c1 Hok1 ltac:(lra) Hc Hb1) as (Hok2 & E2 & Hb2).
  fold s2 in Hok2, E2, Hb2. clearbody s2. destruct s2 as [[tq2 p2] c2]. cbn in Hok2, E2, Hb2. subst p2.
  destruct (append_part_before td cv (nlit (-1) 2 * a)%num ar tq2 (pt + ta + tc) c2 Hok2 ltac:(lra) Hd Hb2) as (Hok3 & _ & Hb3). by split.
Qed.

Lemma trapq_finalize_ok pt c tq : tq_ok tq -> tq_ok (trapq_finalize_moves pt c tq).
Proof.
  intros [Hc Hp Hh]. destruct (trapq_finalize_moves_spec pt c tq) as (gone & old & E & _).
  assert (Hs : head_sentinel (trapq_finalize_moves pt c tq) = head_sentinel tq).
  { unfold trapq_finalize_moves. destruct (expire_moves _ _ _) as [[|? ?] ?]; done. }
  set (tq' := trapq_finalize_moves pt c tq) in *. clearbody tq'. split; [| |by rewrite Hs].
  - unfold contiguous in *. rewrite E in Hc. clear -Hc. induction gone as [|m l IH]; [done|]. apply IH. by inversion Hc.
  - unfold last_move in *. rewrite Hs. intros Hne. rewrite E in Hp. clear E. induction (moves tq') as [|m l _] using rev_ind; [done|].
    rewrite (assoc_L (++)) in Hp. rewrite !last_app in * by done. apply Hp. by destruct gone, l.
Qed.
Lemma trapq_finalize_before pt c t tq : before t tq -> before t (trapq_finalize_moves pt c tq).
Proof.
  destruct (trapq_finalize_moves_spec pt c tq) as (gone & old & E & _). unfold before. rewrite E. intros Hb. by apply Forall_app in Hb as [_ ?].
Qed.
Lemma trapq_finalize_all pt c tq : before pt tq -> moves (trapq_finalize_moves pt c tq) = [].
Proof.
  intros Hb. destruct (trapq_finalize_moves_spec pt c tq) as (gone & old & E & _ & Hhd & _). unfold before in Hb. rewrite E in Hb.
  destruct (moves (trapq_finalize_moves pt c tq)) as [|m l] eqn:Em; [done|]. specialize (Hhd m eq_refl).
  apply Forall_app in Hb as [_ Hb%Forall_inv]. lra.
Qed.
Lemma trapq_set_position_ok pt pos tq : tq_ok tq -> tq_ok (trapq_set_position pt pos tq).
Proof. intros Hok. destruct (trapq_finalize_ok NEVER_TIME (nint 0) tq Hok). by split. Qed.
Lemma trapq_set_position_before pt pos t tq : before t tq -> before t (trapq_set_position pt pos tq).
Proof. apply (trapq_finalize_before NEVER_TIME (nint 0)). Qed.

(** C24: appending a trapezoidal velocity move to a queue of moves that follow each
    other leaves such a queue: from [pt] until the move ends, the new moves cover
    every moment, and all of them put the toolhead where the acceleration,
    cruise and deceleration formulas do, in exact arithmetic. *)
Theorem trapq_append_trajectory pt ta tc td sp ar sv cv a tq :
  tq_ok tq -> 0 < pt -> move_end (last_move tq) <= pt -> 0 <= ta -> 0 <= tc -> 0 <= td ->
  let D := trapezoid_distance ta tc sv cv a in
  let tq' := trapq_append pt ta tc td sp ar sv cv a tq in
  tq_ok tq' /\ move_end (last_move tq') <= pt + ta + tc + td /\
  exists new, moves tq' = moves tq ++ new /\ Forall (follows pt sp ar D) new /\
    forall t, pt <= t <= pt + ta + tc + td -> 0 < ta + tc + td ->
    Exists (fun m => print_time m <= t <= move_end m) new.
Proof. apply trapq_append_follows. Qed.

Lemma trapq_append_trajectory_witness :
  let tq' := trapq_append 2 1 3 1 (mk_coord 0 0 0) (mk_coord 1 0 0) 0 10 10 trapq_alloc in
  tq_ok tq' /\ move_end (last_move tq') <= 2 + 1 + 3 + 1 /\
  exists new, moves tq' = [] ++ new /\
    Forall (follows 2 (mk_coord 0 0 0) (mk_coord 1 0 0) (trapezoid_distance 1 3 0 10 10)) new /\
    forall t, 2 <= t <= 2 + 1 + 3 + 1 -> 0 < 1 + 3 + 1 ->
    Exists (fun m => print_time m <= t <= move_end m) new.
Proof.
  apply (trapq_append_trajectory 2 1 3 1 _ _ 0 10 10 trapq_alloc); try lra; [apply trapq_alloc_ok|].
  cbn. lra.
Defined.
End exact.
