(* ===== verification/Itersolve.v ===== *)
(** * The iterative solver (klippy/chelper/itersolve.c)

    Finds the times at which a stepper takes its steps: for every move of the
    queue that concerns the stepper, [itersolve_gen_steps_range] searches for the
    times at which the stepper's position passes the half-step points, with the
    secant method backed by bisection. *)

From Stdlib Require Import Reals Lra Sorted.
From S2P Require Import Prelude Double Numeric Trapq Stepcompress.

Definition AF_X : Z := Z.shiftl 1 0.
Definition AF_Y : Z := Z.shiftl 1 1.
Definition AF_Z : Z := Z.shiftl 1 2.

(** What the solver uses of a [struct stepcompress]. *)
Class StepSink (A SC : Type) := {
  sink_step_dir : SC -> Z;
  sink_append : Z -> A -> A -> M SC Z;
  sink_commit : M SC Z }.
#[export] Instance stepcompress_sink : StepSink double stepcompress := {
  sink_step_dir := stepcompress_get_step_dir;
  sink_append := stepcompress_append;
  sink_commit := stepcompress_commit }.

(** A [struct stepper_kinematics] inside its container [P].  A move is passed to
    the callbacks as the list it is linked in and its place there; [None] is a
    walk off that list.  The callbacks see the container and [commanded_pos].
    [tq] is the address of the move queue, 0 for NULL. *)
Record stepper_kinematics (A P : Type) := mk_stepper_kinematics {
  step_dist : A;
  commanded_pos : A;
  last_flush_time : A;
  last_move_time : A;
  sk_tq : Z;
  active_flags : Z;
  gen_steps_pre_active : A;
  gen_steps_post_active : A;
  calc_position_cb : P -> A -> list (move A) -> nat -> A -> option A;
  post_cb : option (P -> A -> P * A);
  container : P }.
Arguments mk_stepper_kinematics {A P}. Arguments step_dist {A P}. Arguments commanded_pos {A P}.
Arguments last_flush_time {A P}. Arguments last_move_time {A P}. Arguments sk_tq {A P}.
Arguments active_flags {A P}. Arguments gen_steps_pre_active {A P}. Arguments gen_steps_post_active {A P}.
Arguments calc_position_cb {A P}. Arguments post_cb {A P}. Arguments container {A P}.
#[export] Instance eta_stepper_kinematics A P : Eta (stepper_kinematics A P) := fun k =>
  mk_stepper_kinematics (step_dist k) (commanded_pos k) (last_flush_time k) (last_move_time k) (sk_tq k)
    (active_flags k) (gen_steps_pre_active k) (gen_steps_post_active k) (calc_position_cb k) (post_cb k)
    (container k).

(** The variables of the search. *)
Record search (A : Type) := mk_search {
  old_time : A; old_position : A;
  guess_time : A; guess_position : A;
  s_sdir : bool;
  is_dir_change : bool;
  have_bracket : bool;
  check_oscillate : bool;
  target : A;
  last_time : A;
  low_time : A;
  high_time : A }.
Arguments mk_search {A}. Arguments old_time {A}. Arguments old_position {A}. Arguments guess_time {A}.
Arguments guess_position {A}. Arguments s_sdir {A}. Arguments is_dir_change {A}. Arguments have_bracket {A}.
Arguments check_oscillate {A}. Arguments target {A}. Arguments last_time {A}. Arguments low_time {A}.
Arguments high_time {A}.
#[export] Instance eta_search A : Eta (search A) := fun s =>
  mk_search (old_time s) (old_position s) (guess_time s) (guess_position s) (s_sdir s) (is_dir_change s)
    (have_bracket s) (check_oscillate s) (target s) (last_time s) (low_time s) (high_time s).

(** How a round of the search ends: with another round, with [break], or with
    an error of [stepcompress_append]. *)
Inductive round (A : Type) : Type := Again (s : search A) | Done (s : search A) | Failed (ret : Z).
Arguments Again {A}. Arguments Done {A}. Arguments Failed {A}.

(** The solver's state: the stepper and its step compressor. *)
Record solver (A P SC : Type) := mk_solver { i_sk : stepper_kinematics A P; i_sc : SC }.
Arguments mk_solver {A P SC}. Arguments i_sk {A P SC}. Arguments i_sc {A P SC}.
#[export] Instance eta_solver A P SC : Eta (solver A P SC) := fun w => mk_solver (i_sk w) (i_sc w).

Section itersolve.
Context {A P SC : Type} `{Num A} `{!StepSink A SC}.
Local Open Scope num_scope.

Definition SEEK_TIME_RESET : A := nlit 100 1000000.
Definition NANO : A := nlit 1 1000000000.

(** [if (x > limit) x = limit;] and [if (x < limit) x = limit;] *)
Definition at_most (limit x : A) : A := if limit <? x then limit else x.
Definition at_least (limit x : A) : A := if x <? limit then limit else x.

(** The guess for the next time, from the secant through the last two guesses,
    checked against the bounds; [None] ends the search. *)
Definition next_guess (end_time : A) (s : search A) : option (A * search A) :=
  let guess_dist := guess_position s - target s in
  let og_dist := old_position s - target s in
  let next_time := (old_time s * guess_dist - guess_time s * og_dist) / (guess_dist - og_dist) in
  if negb ((low_time s <? next_time) && (next_time <? high_time s)) then
    if have_bracket s then
      Some ((low_time s + high_time s) * nlit 1 2, s <| check_oscillate := false |>)
    else if end_time <=? guess_time s then None
    else Some (high_time s, s <| high_time := at_most end_time (nint 2 * high_time s - last_time s) |>)
  else Some (next_time, s).

(** The new bounds after a guess that is not close enough. *)
Definition update_bounds (half_step rel_dist : A) (s : search A) : search A :=
  if nint 0 <? rel_dist then
    let s := if have_bracket s && (old_time s <=? low_time s) then
               (if check_oscillate s
                then s <| old_time := guess_time s |> <| old_position := guess_position s |> else s)
               <| check_oscillate := true |>
             else s in
    s <| high_time := guess_time s |> <| have_bracket := true |>
  else if rel_dist <? nneg (half_step + half_step + nlit 10 1000000000) then
    let sdir := negb (s_sdir s) in
    s <| s_sdir := sdir |>
      <| target := if sdir then target s + half_step + half_step else target s - half_step - half_step |>
      <| low_time := last_time s |> <| high_time := guess_time s |>
      <| is_dir_change := true |> <| have_bracket := true |> <| check_oscillate := false |>
  else s <| low_time := guess_time s |>.

(** "Found next step - submit it", and the bounds for the one after it. *)
Definition submit_step (half_step print_time end_time : A) (s : search A) : M SC (round A) :=
  ret_ <- sink_append (b2z (s_sdir s)) print_time (guess_time s);;
  if truthy ret_ then ret (Failed ret_) else
  let seek_time_delta := nlit 3 2 * (guess_time s - last_time s) in
  let seek_time_delta := at_least NANO seek_time_delta in
  let seek_time_delta := if is_dir_change s then at_most SEEK_TIME_RESET seek_time_delta else seek_time_delta in
  ret (Again (s <| target := if s_sdir s then target s + half_step + half_step
                             else target s - half_step - half_step |>
    <| last_time := guess_time s |> <| low_time := guess_time s |>
    <| high_time := at_most end_time (guess_time s + seek_time_delta) |>
    <| is_dir_change := false |> <| have_bracket := false |> <| check_oscillate := false |>)).

(** One round of the [for] loop; [position] is the stepper's position in the
    move. *)
Definition search_round (position : A -> option A) (half_step print_time end_time : A) (s : search A)
    : M SC (round A) :=
  match next_guess end_time s with
  | None => ret (Done s)
  | Some (next_time, s) =>
    match position next_time with
    | None => crash
    | Some p =>
      let s := s <| old_time := guess_time s |> <| old_position := guess_position s |>
                 <| guess_time := next_time |> <| guess_position := p |> in
      let guess_dist := guess_position s - target s in
      if NANO <? nabs guess_dist then
        let rel_dist := if s_sdir s then guess_dist else nneg guess_dist in
        let s := update_bounds half_step rel_dist s in
        if negb (have_bracket s) || (NANO <? high_time s - low_time s) then
          when negb (is_dir_change s) && (nneg half_step <=? rel_dist) then (sink_commit;;; ret tt);;;
          ret (Again s)
        else submit_step half_step print_time end_time s
      else submit_step half_step print_time end_time s
    end
  end.

Fixpoint search_loop (fuel : nat) (position : A -> option A) (half_step print_time end_time : A)
    (s : search A) : M SC (Z + search A) :=
  match fuel with
  | O => crash
  | S fuel =>
    r <- search_round position half_step print_time end_time s;;
    match r with
    | Again s => search_loop fuel position half_step print_time end_time s
    | Done s => ret (inr s)
    | Failed r => ret (inl r)
    end
  end.

(** The start of the search, at [start] in direction [sdir]. *)
Definition search_init (half_step start end_time commanded_pos : A) (sdir : bool) : search A :=
  mk_search start commanded_pos start commanded_pos sdir false false false
    (commanded_pos + (if sdir then half_step else nneg half_step))
    start start (at_most end_time (start + SEEK_TIME_RESET)).

(** [fuel] bounds the rounds of the search. *)
Definition itersolve_gen_steps_range (fuel : nat) (l : list (move A)) (i : nat) (abs_start abs_end : A)
    : M (solver A P SC) Z := fun w =>
  match l !! i with
  | None => Crash w
  | Some m =>
    let sk := i_sk w in
    let position := calc_position_cb sk (container sk) (commanded_pos sk) l i in
    let half_step := nlit 1 2 * step_dist sk in
    let start := at_least (nint 0) (abs_start - print_time m) in
    let end_time := at_most (move_t m) (abs_end - print_time m) in
    let sdir := truthy (sink_step_dir (i_sc w)) in
    (r <- zoom i_sc (search_loop fuel position half_step (print_time m) end_time
                       (search_init half_step start end_time (commanded_pos sk) sdir));;
     match r with
     | inl r => ret r
     | inr s =>
       modify (fun w => w <| i_sk ::= fun sk =>
         let pos := target s - (if s_sdir s then half_step else nneg half_step) in
         match post_cb sk with
         | None => sk <| commanded_pos := pos |>
         | Some post =>
           let '(c, pos) := post (container sk) pos in
           sk <| container := c |> <| commanded_pos := pos |>
         end |>);;;
       ret 0
     end) w
  end.

Definition check_active (sk : stepper_kinematics A P) (m : move A) : bool :=
  let af := active_flags sk in
  (has AF_X af && nonzero (cx (axes_r m))) || (has AF_Y af && nonzero (cy (axes_r m)))
  || (has AF_Z af && nonzero (cz (axes_r m))).

(** [while (last_flush_time >= m->print_time + m->move_t) m = next(m);] from
    place [i] of the list whose rest is [l]. *)
Fixpoint skip_flushed (l : list (move A)) (last_flush_time : A) (i : nat) : option nat :=
  match l with
  | [] => None
  | m :: l => if move_end m <=? last_flush_time then skip_flushed l last_flush_time (S i) else Some i
  end.

(** [while (--skip_count && pm->print_time > abs_start) pm = prev(pm);]; the
    result is the place of [pm]. *)
Fixpoint walk_back (skip_count : nat) (l : list (move A)) (pm : nat) (abs_start : A) : option nat :=
  match skip_count with
  | O | S O => Some pm
  | S skip_count =>
    match l !! pm with
    | None => None
    | Some m =>
      if abs_start <? print_time m then
        match pm with O => None | S pm => walk_back skip_count l pm abs_start end
      else Some pm
    end
  end.

(** The body of [itersolve_generate_steps]; [range] is
    [itersolve_gen_steps_range]. *)
Section ranges.
Context (range : list (move A) -> nat -> A -> A -> M (solver A P SC) Z).
Context (l : list (move A)).

(** [do { ... } while (pm != m);] over the [n] moves from [pm] on. *)
Fixpoint gen_before (n : nat) (pm : nat) (abs_start flush_time : A) : M (solver A P SC) Z :=
  match n with
  | O => ret 0
  | S n => checked range l pm abs_start flush_time;; gen_before n (S pm) abs_start flush_time
  end.

(** The steps leading up to the activity in move [i], which starts at
    [move_start]. *)
Definition gen_leading (i skip_count : nat) (move_start last_flush_time flush_time force_steps_time : A)
    : M (solver A P SC) Z := fun w =>
  let pre := gen_steps_pre_active (i_sk w) in
  if negb (skip_count =? 0)%nat && nonzero pre then
    let abs_start := at_least force_steps_time (at_least last_flush_time (move_start - pre)) in
    match i with
    | O => Crash w
    | S pm =>
      match walk_back skip_count l pm abs_start with
      | None => Crash w
      | Some pm => gen_before (i - pm) pm abs_start flush_time w
      end
    end
  else Ret 0 w.

(** The [for] loop from move [i] on; [n] bounds the moves left. *)
Fixpoint generate_loop (n i skip_count : nat) (last_flush_time flush_time force_steps_time : A)
    : M (solver A P SC) Z := fun w =>
  match n, l !! i with
  | S n, Some m =>
    let move_start := print_time m in
    let move_end := move_end m in
    if check_active (i_sk w) m then
      (checked gen_leading i skip_count move_start last_flush_time flush_time force_steps_time;;
       checked range l i last_flush_time flush_time;;
       if flush_time <=? move_end then
         modify (fun w => w <| i_sk ::= fun sk => sk <| last_move_time := flush_time |> |>);;; ret 0
       else
         modify (fun w => w <| i_sk ::= fun sk => sk <| last_move_time := move_end |> |>);;;
         (fun w => generate_loop n (S i) 0 last_flush_time flush_time
                     (last_move_time (i_sk w) + gen_steps_post_active (i_sk w)) w)) w
    else
      let forced := move_start <? force_steps_time in
      (checked (if forced then range l i last_flush_time (at_most flush_time force_steps_time) else ret 0);;
       (fun w =>
          if flush_time + gen_steps_pre_active (i_sk w) <=? move_end then Ret 0 w
          else generate_loop n (S i) (if forced then 1 else S skip_count) last_flush_time flush_time
                 force_steps_time w)) w
  | _, _ => Crash w
  end.

Definition generate_steps (flush_time : A) : M (solver A P SC) Z := fun w =>
  let last_flush_time := last_flush_time (i_sk w) in
  let w := w <| i_sk ::= fun sk => sk <| Itersolve.last_flush_time := flush_time |> |> in
  if sk_tq (i_sk w) =? 0 then Ret 0 w else
  match skip_flushed l last_flush_time 0 with
  | None => Crash w
  | Some i =>
    generate_loop (length l) i 0 last_flush_time flush_time
      (last_move_time (i_sk w) + gen_steps_post_active (i_sk w)) w
  end.
End ranges.

(** [trapqs] is the memory of move queues. *)
Definition itersolve_generate_steps (fuel : nat) (trapqs : Z -> trapq A) (flush_time : A)
    : M (solver A P SC) Z := fun w =>
  generate_steps (itersolve_gen_steps_range fuel) (tq_list (trapqs (sk_tq (i_sk w)))) flush_time w.

(** The loop of [itersolve_check_active] over the rest of the list. *)
Fixpoint check_active_loop (sk : stepper_kinematics A P) (l : list (move A)) (flush_time : A) : option A :=
  match l with
  | [] => None
  | m :: l =>
    if check_active sk m then Some (print_time m)
    else if flush_time <=? move_end m then Some (nint 0)
    else check_active_loop sk l flush_time
  end.

(** [None] is a walk off the list. *)
Definition itersolve_check_active (sk : stepper_kinematics A P) (flush_time : A) (trapqs : Z -> trapq A)
    : option A * (Z -> trapq A) :=
  if sk_tq sk =? 0 then (Some (nint 0), trapqs) else
  let tq := trapq_check_sentinels (trapqs (sk_tq sk)) in
  let l := tq_list tq in
  (i ← skip_flushed l (last_flush_time sk) 0; check_active_loop sk (drop i l) flush_time, <[sk_tq sk := tq]> trapqs).

Definition itersolve_is_active_axis (sk : stepper_kinematics A P) (axis : Z) : Z :=
  if (axis <? 120)%Z || (122 <? axis)%Z then 0 else b2z (has (Z.shiftl AF_X (axis - 120)) (active_flags sk)).

Definition itersolve_set_trapq (tq : Z) (dist : A) (sk : stepper_kinematics A P) : stepper_kinematics A P :=
  sk <| sk_tq := tq |> <| step_dist := dist |>.
Definition itersolve_get_trapq (sk : stepper_kinematics A P) : Z := sk_tq sk.

Definition itersolve_calc_position_from_coord (sk : stepper_kinematics A P) (pos : coord A) : option A :=
  let m := move_alloc <| start_pos := pos |> <| move_t := nint 1000 |> in
  calc_position_cb sk (container sk) (commanded_pos sk) [m] 0 (nint 500).
Definition itersolve_set_position (pos : coord A) (sk : stepper_kinematics A P)
    : option (stepper_kinematics A P) :=
  p ← itersolve_calc_position_from_coord sk pos; Some (sk <| commanded_pos := p |>).
Definition itersolve_get_commanded_pos (sk : stepper_kinematics A P) : A := commanded_pos sk.
Definition itersolve_get_gen_steps_pre_active (sk : stepper_kinematics A P) : A := gen_steps_pre_active sk.
Definition itersolve_get_gen_steps_post_active (sk : stepper_kinematics A P) : A := gen_steps_post_active sk.
End itersolve.

(** ** The steps of a range, in exact arithmetic

    The steps submitted, newest first, as direction and time; the sink answers
    each with [answer], an error if not 0. *)

Section search.
Local Open Scope R_scope.
Context (answer : list (bool * R) -> Z).

Record step_log := mk_step_log { log_dir : Z; steps : list (bool * R) }.
#[local] Instance log_sink : StepSink R step_log := {
  sink_step_dir := log_dir;
  sink_append d pt t := fun k =>
    let steps := (truthy d, t) :: steps k in Ret (answer steps) (mk_step_log (log_dir k) steps);
  sink_commit := ret 0%Z }.

Context (pos : R -> R) (h c0 start end_time : R).
Hypothesis start_pos : 0 <= start.

(** Steps up minus steps down. *)
Fixpoint net (L : list (bool * R)) : R :=
  match L with [] => 0 | (d, _) :: L => (if d then 1 else -1) + net L end.

(** The half-step point at which the next step in direction [d] is due. *)
Definition due (L : list (bool * R)) (d : bool) : R := c0 + 2 * h * net L + (if d then h else - h).

(** The time of the step before. *)
Definition previous (L : list (bool * R)) : R := match L with [] => start | (_, t) :: _ => t end.

Definition past (d : bool) (T p : R) : Prop := if d then T < p else p < T.

Definition nano : R := / 1000000000.

(** A step is where the position is within a millionth of a millimetre of the
    half-step point, or at an end of an interval of at most a nanosecond at
    whose end the position has passed the point, and at whose start it has not
    (or the step before was there). *)
Definition located (L : list (bool * R)) (d : bool) (t : R) : Prop :=
  Rabs (pos t - due L d) <= nano \/
  exists lo hi, (t = lo \/ t = hi) /\ lo <= hi <= lo + nano /\ past d (due L d) (pos hi) /\
    (lo = previous L \/ ~ past d (due L d) (pos lo)).

Fixpoint steps_ok (L : list (bool * R)) : Prop :=
  match L with
  | [] => True
  | (d, t) :: L => located L d t /\ previous L <= t <= end_time /\ steps_ok L
  end.

Record search_inv (s : search R) (L : list (bool * R)) : Prop := {
  si_target : target s = due L (s_sdir s);
  si_last : last_time s = previous L;
  si_order : last_time s <= low_time s <= high_time s /\ high_time s <= end_time;
  si_bracket : have_bracket s = true -> past (s_sdir s) (target s) (pos (high_time s));
  si_low : low_time s = last_time s \/ ~ past (s_sdir s) (target s) (pos (low_time s));
  si_guess : have_bracket s = false -> guess_time s = last_time s \/
    (guess_position s = pos (guess_time s) /\
     - (2 * h + 10 * nano) <= (if s_sdir s then guess_position s - target s else target s - guess_position s) <= 0);
  si_guess_end : guess_time s <= end_time;
  si_steps : steps_ok L }.

Lemma at_most_R a b : at_most a b = Rmin a b.
Proof. unfold at_most, Rmin. destruct (nltP a b), (Rle_dec a b); lra. Qed.
Lemma at_least_R a b : at_least a b = Rmax a b.
Proof. unfold at_least, Rmax. destruct (nltP b a), (Rle_dec a b); lra. Qed.

Ltac minmax := unfold Rmin, Rmax in *; repeat destruct (Rle_dec _ _); try lra.

Lemma next_guess_inv s L t s' :
  search_inv s L -> next_guess end_time s = Some (t, s') ->
  search_inv s' L /\ low_time s' <= t <= high_time s'.
Proof.
  intros I E. pose proof I as [Ht Hl [[H1 H2] H3] Hb Hlo Hg Hge Hs]. unfold next_guess in E.
  destruct (negb _) eqn:En.
  - destruct (have_bracket s) eqn:Eb.
    + injection E as <- <-. cbn. split; [|lra]. split; cbn; auto. by intros; congruence.
    + destruct (nleP end_time (guess_time s)) as [|Hlt]; [done|]. injection E as <- <-.
      rewrite at_most_R. cbn. split; [|minmax]. split; cbn; auto; [|congruence]. minmax.
  - injection E as <- <-. apply negb_false_iff, andb_true_iff in En as [E1 E2].
    apply nlt_R in E1, E2. split; [done|]. split; by apply Rlt_le.
Qed.

Lemma ten_nano : nlit 10 1000000000 = 10 * nano.
Proof. unfold nano. cbn. lra. Qed.
Lemma NANO_nano : NANO = nano.
Proof. unfold NANO, nano. cbn. lra. Qed.
Lemma nano_pos : 0 < nano.
Proof. unfold nano. lra. Qed.
Opaque nano.

(** The bounds after a guess at [guess_time], whose position [p] is known. *)
Lemma update_bounds_inv s L s0 t p :
  search_inv s0 L -> s = s0 <| old_time := old_time s |> <| old_position := old_position s |>
    <| guess_time := t |> <| guess_position := p |> ->
  p = pos t -> low_time s0 <= t <= high_time s0 ->
  let rel_dist := if s_sdir s then guess_position s - target s else - (guess_position s - target s) in
  let s' := update_bounds h rel_dist s in
  search_inv s' L /\ guess_time s' = t /\ guess_position s' = p /\
  (have_bracket s' = true -> t = low_time s' \/ t = high_time s').
Proof.
  intros I Es -> Ht rel_dist s'. destruct s0 as [ot op gt gp d dc hb co T la lo hi]. subst s'.
  destruct s as [ot' op' gt' gp' d' dc' hb' co' T' la' lo' hi']. unfold set in Es. cbn in Es.
  injection Es as -> -> -> -> -> -> -> -> -> ->. subst rel_dist.
  destruct I as [I1 I2 [[I3 I4] I5] I6 Il I7 I9 I8]. cbn in *. unfold update_bounds.
  rewrite ten_nano. pose proof nano_pos as Hn. cbn.
  match goal with |- context [Rltb ?x ?y] => destruct (RltbP x y) as [Hr|Hr] end.
  { destruct (hb && _), co.
    all: split; [split; cbn; [exact I1|exact I2|lra| |exact Il|congruence|lra|exact I8]|].
    all: try (split; [reflexivity|split; [reflexivity|intros _; by right]]).
    all: intros _; unfold past; destruct d; lra. }
  match goal with |- context [Rltb ?x ?y] => destruct (RltbP x y) as [Hf|Hf] end.
  { split; [split; cbn; [|exact I2|lra| |by left|congruence|lra|exact I8]|].
    - rewrite I1. unfold due. destruct d; cbn; lra.
    - intros _. unfold past. destruct d; cbn; lra.
    - split; [reflexivity|split; [reflexivity|intros _; by right]]. }
  split; [split; cbn; [exact I1|exact I2|lra|exact I6| | |lra|exact I8]|].
  - right. unfold past. destruct d; lra.
  - intros _. right. split; [reflexivity|]. destruct d; lra.
  - split; [reflexivity|split; [reflexivity|intros _; by left]].
Qed.

Definition round_ok (L : list (bool * R)) (o : outcome step_log (round R)) : Prop :=
  match o with
  | Ret (Again s) k => search_inv s (steps k)
  | Ret (Done s) k => search_inv s (steps k) /\ have_bracket s = false /\ end_time <= guess_time s
  | Ret (Failed r) k => truthy r = true /\ steps_ok (steps k)
  | _ => False
  end.

Lemma truthy_b2z b : truthy (b2z b) = b.
Proof. by destruct b. Qed.

Lemma submit_step_inv s k pt :
  target s = due (steps k) (s_sdir s) -> last_time s = previous (steps k) -> steps_ok (steps k) ->
  located (steps k) (s_sdir s) (guess_time s) ->
  last_time s <= guess_time s <= end_time -> round_ok (steps k) (submit_step h pt end_time s k).
Proof.
  intros I1 I2 I8 Hl Hg. unfold submit_step, bind, sink_append, log_sink.
  rewrite truthy_b2z.
  assert (Hs : steps_ok ((s_sdir s, guess_time s) :: steps k)).
  { cbn. rewrite <- I2. split_and!; (done || lra). }
  destruct (truthy (answer _)) eqn:Ea; [by split|]. rewrite !at_most_R, at_least_R. unfold round_ok, ret.
  split; try exact Hs.
  - cbn. rewrite I1. unfold due. destruct (s_sdir s); cbn [net]; lra.
  - done.
  - cbn. split; [split; [lra|]|apply Rmin_l].
    apply Rmin_glb; [lra|]. destruct (is_dir_change s); minmax.
  - done.
  - by left.
  - by left.
  - cbn. lra.
Qed.

Lemma search_round_inv s k pt :
  search_inv s (steps k) -> round_ok (steps k) (search_round (fun t => Some (pos t)) h pt end_time s k).
Proof.
  intros I. unfold search_round. destruct (next_guess end_time s) as [[t s1]|] eqn:E.
  - destruct (next_guess_inv _ _ _ _ I E) as (I1 & Ht). cbv zeta.
    set (s2 := s1 <| old_time := _ |> <| old_position := _ |> <| guess_time := t |> <| guess_position := pos t |>).
    destruct (update_bounds_inv s2 (steps k) s1 t (pos t) I1 eq_refl eq_refl Ht) as (I3 & Hg & Hp & Hb).
    pose proof I1 as [T1 T2 [[T3 T4] T5] _ _ _ _ T8].
    destruct (nltP NANO (nabs (guess_position s2 - target s2)%num)) as [Hfar|Hclose].
    + cbn [nneg nsub Num_R] in *. set (s3 := update_bounds h _ s2) in *.
      destruct (_ || _) eqn:Eb; [by destruct (_ && _)|].
      apply orb_false_iff in Eb as [Eb1 Eb2]. apply negb_false_iff in Eb1. specialize (Hb Eb1).
      apply nlt_R_false in Eb2. rewrite NANO_nano in Eb2. pose proof nano_pos.
      destruct I3 as [Q1 Q2 [[Q3 Q4] Q5] Q6 Ql _ _ Q8].
      apply submit_step_inv; [done|done|done| |rewrite Hg; destruct Hb; lra].
      right. exists (low_time s3), (high_time s3). rewrite Hg, <- Q1, <- Q2. split_and!; auto; lra.
    + apply submit_step_inv; [done|done|done| |cbn; lra].
      rewrite NANO_nano in Hclose. left. cbn in *. rewrite <- T1. lra.
  - cbn. split; [done|]. unfold next_guess in E. destruct (negb _); [|done].
    destruct (have_bracket s); [done|]. split; [done|]. by destruct (nleP end_time (guess_time s)).
Qed.

Definition loop_ok (o : outcome step_log (Z + search R)) : Prop :=
  match o with
  | Ret (inr s) k => search_inv s (steps k) /\ have_bracket s = false /\ guess_time s = end_time
  | Ret (inl r) k => truthy r = true /\ steps_ok (steps k)
  | Crash k => steps_ok (steps k)
  | Halt _ _ => False
  end.

Lemma search_loop_inv fuel s k pt :
  search_inv s (steps k) -> loop_ok (search_loop fuel (fun t => Some (pos t)) h pt end_time s k).
Proof.
  revert s k. induction fuel as [|fuel IH]; intros s k I; cbn [search_loop]; [apply I|].
  unfold bind. pose proof (search_round_inv s k pt I) as Hr.
  destruct (search_round _ _ _ _ s k) as [[s'|s'|r] k'| |]; cbn in Hr |- *; [by apply IH| |done..].
  destruct Hr as (I' & Hb & He). split_and!; [done..|]. pose proof (si_guess_end _ _ I'). lra.
Qed.

Lemma search_loop_ext position fuel s k pt :
  (forall t, position t = Some (pos t)) ->
  search_loop fuel position h pt end_time s k = search_loop fuel (fun t => Some (pos t)) h pt end_time s k.
Proof.
  intros Hp. revert s k. induction fuel as [|fuel IH]; intros s k; [done|]. cbn [search_loop].
  assert (Er : search_round position h pt end_time s k = search_round (fun t => Some (pos t)) h pt end_time s k).
  { unfold search_round. destruct (next_guess end_time s) as [[t s1]|]; [by rewrite Hp|done]. }
  unfold bind. rewrite Er. clear Er. destruct (search_round _ _ _ _ s k) as [[s'| |] k'| |]; [apply IH|done..].
Qed.

Lemma search_init_inv d :
  start <= end_time -> search_inv (search_init h start end_time c0 d) [].
Proof.
  intros Hle. split; cbn; rewrite ?at_most_R; auto; try lra; try done.
  - unfold due. cbn. destruct d; lra.
  - cbn. minmax.
Qed.

(** The search ends at once in a range that ends before it starts. *)
Lemma search_empty_range fuel d k pt :
  end_time < start ->
  search_loop (S fuel) (fun t => Some (pos t)) h pt end_time (search_init h start end_time c0 d) k
  = Ret (inr (search_init h start end_time c0 d)) k.
Proof.
  intros Hlt. cbn [search_loop]. unfold search_round, next_guess. cbn [search_init guess_position target
    old_position old_time guess_time low_time high_time have_bracket].
  match goal with |- context [nlt _ ?x && _] => assert (Hx : x = 0) end.
  { cbn. unfold Rdiv. rewrite Rminus_diag. lra. }
  rewrite Hx. destruct (nltP start 0); [lra|]. cbn [andb negb].
  destruct (nleP end_time start); [done|lra].
Qed.

(** A whole search. *)
Definition search_exact (o : outcome step_log (Z + search R)) : Prop :=
  match o with
  | Ret (inr s) k =>
    let c := target s - (if s_sdir s then h else - h) in
    steps_ok (steps k) /\ c = c0 + 2 * h * net (steps k) /\
    (end_time <= previous (steps k) \/ Rabs (pos end_time - c) <= h + 10 * nano)
  | Ret (inl r) k => truthy r = true /\ steps_ok (steps k)
  | Crash k => steps_ok (steps k)
  | Halt _ _ => False
  end.

Lemma search_from_start position fuel d k pt :
  (forall t, position t = Some (pos t)) -> steps k = [] ->
  search_exact (search_loop (S fuel) position h pt end_time (search_init h start end_time c0 d) k).
Proof.
  intros Hp Hk. rewrite search_loop_ext by exact Hp. destruct (Rlt_dec end_time start) as [Hlt|Hle].
  { rewrite search_empty_range by exact Hlt. cbn. rewrite Hk. split_and!; [done| |left; cbn; lra].
    destruct d; cbn; lra. }
  pose proof (search_loop_inv (S fuel) (search_init h start end_time c0 d) k pt) as Hl.
  rewrite Hk in Hl. specialize (Hl (search_init_inv d ltac:(lra))).
  destruct (search_loop _ _ _ _ _ _ _) as [[r|s] k'| |]; [done| |done..].
  destruct Hl as ([I1 I2 _ _ _ I7 _ I8] & Hb & Hg). specialize (I7 Hb).
  assert (Hc : target s - (if s_sdir s then h else - h) = c0 + 2 * h * net (steps k')).
  { rewrite I1. unfold due. destruct (s_sdir s); lra. }
  split_and!; [done|done|]. destruct I7 as [Hlast|[Hpos Hrel]]; [left; lra|].
  right. rewrite Hpos, Hg in Hrel. pose proof nano_pos. apply Rabs_le. destruct (s_sdir s); lra.
Qed.

(** *** Continuous positions *)

(** A step is where the position is within a millionth of a millimetre of the
    half-step point, or within a nanosecond of where it is at that point, or of
    the step before. *)
Definition on_time (L : list (bool * R)) (d : bool) (t : R) : Prop :=
  Rabs (pos t - due L d) <= nano \/
  exists t', Rabs (t' - t) <= nano /\ (pos t' = due L d \/ t' = previous L).

Lemma located_on_time L d t : continuity pos -> located L d t -> on_time L d t.
Proof.
  intros Hc [Hn|(lo & hi & Ht & Hw & Hhi & Hlo)]; [by left|]. right.
  assert (Hnear : forall u, lo <= u <= hi -> Rabs (u - t) <= nano).
  { intros u Hu. apply Rabs_le. destruct Ht; subst; lra. }
  destruct Hlo as [->|Hlo]; [exists (previous L); split; [apply Hnear; lra|by right]|].
  assert (Hc' : continuity (fun u => pos u - due L d)).
  { apply continuity_minus; [done|]. apply continuity_const. by intros ??. }
  destruct (IVT_cor _ lo hi Hc') as (u & Hu & Eu); [lra| |].
  { unfold past in *. destruct d; nra. }
  exists u. split; [by apply Hnear|]. left. lra.
Qed.

Fixpoint steps_on_time (L : list (bool * R)) : Prop :=
  match L with
  | [] => True
  | (d, t) :: L => on_time L d t /\ previous L <= t <= end_time /\ steps_on_time L
  end.

Lemma steps_ok_on_time L : continuity pos -> steps_ok L -> steps_on_time L.
Proof.
  intros Hc. induction L as [|[d t] L IH]; [done|]. cbn. intros (Hl & Ht & Hs).
  split_and!; auto; [by apply located_on_time|lra..].
Qed.
End search.

Section range.
Local Open Scope R_scope.
Context {P : Type} (answer : list (bool * R) -> Z).
#[local] Existing Instance log_sink.

(** What a range comes to: the steps that were submitted, also when the search
    is stopped by an error or has not ended, are on time and in order; when it
    ends, the commanded position has moved by one step distance for each, and the
    stepper is within half a step of it where the range ends. *)
Definition range_exact (pos : R -> R) (sd c0 start end_time : R) (o : outcome (solver R P step_log) Z) : Prop :=
  let L := steps (i_sc (final o)) in
  steps_on_time pos (sd / 2) c0 start end_time L /\
  (o = Ret 0%Z (final o) ->
    commanded_pos (i_sk (final o)) = c0 + sd * net L /\
    (end_time <= previous start L \/
     Rabs (pos end_time - commanded_pos (i_sk (final o))) <= sd / 2 + 10 * nano)).

Lemma gen_steps_range_exact fuel l i m abs_start abs_end (w : solver R P step_log) pos :
  let sk := i_sk w in
  let start := Rmax 0 (abs_start - print_time m) in
  let end_time := Rmin (move_t m) (abs_end - print_time m) in
  l !! i = Some m -> steps (i_sc w) = [] -> post_cb sk = None -> continuity pos ->
  (forall t, calc_position_cb sk (container sk) (commanded_pos sk) l i t = Some (pos t)) ->
  range_exact pos (step_dist sk) (commanded_pos sk) start end_time
    (itersolve_gen_steps_range (StepSink0 := log_sink answer) (S fuel) l i abs_start abs_end w).
Proof.
  intros sk start end_time Hm Hs Hpost Hc Hpos. unfold itersolve_gen_steps_range. rewrite Hm.
  assert (Eh : (nlit 1 2 * step_dist sk)%num = step_dist sk / 2) by (cbn; lra).
  assert (Es : at_least (nint 0) (abs_start - print_time m)%num = start)
    by (rewrite at_least_R, nint_R; reflexivity).
  assert (Ee : at_most (move_t m) (abs_end - print_time m)%num = end_time) by apply at_most_R.
  cbv zeta. fold sk. rewrite Eh, Es, Ee.
  pose proof (search_from_start answer pos (step_dist sk / 2) (commanded_pos sk) start end_time
    (Rmax_l _ _) (calc_position_cb sk (container sk) (commanded_pos sk) l i) fuel
    (truthy (log_dir (i_sc w))) (i_sc w) (print_time m) Hpos Hs) as Hx.
  unfold range_exact, bind, zoom. cbn [sink_step_dir log_sink]. destruct (search_loop _ _ _ _ _ _ _) as [[r|s] k|msg k|k]; cbn in Hx.
  - destruct Hx as [Hr Hx]. split; [by apply steps_ok_on_time|]. intros E. injection E as ->. done.
  - destruct Hx as (Hx & Hcp & Hend). cbn. split; [by apply steps_ok_on_time|]. intros _.
    fold sk. rewrite Hpost. cbn. rewrite Hcp in *. split; [lra|]. done.
  - done.
  - split; [by apply steps_ok_on_time|done].
Qed.
End range.

(** ** The ranges of a call, in exact arithmetic

    [itersolve_generate_steps] decides for which parts of which moves steps are
    searched.  Here it runs with a [range] that records its arguments, newest
    first. *)

Section windows.
Local Open Scope R_scope.
Context {P : Type}.
Definition window : Type := nat * R * R.
Definition range_log (l : list (move R)) (i : nat) (s e : R) : M (solver R P (list window)) Z := fun w =>
  Ret 0%Z (w <| i_sc ::= cons (i, s, e) |>).

Context (l : list (move R)) (lf flush : R).

(** The times a range covers. *)
Definition in_window (x : window) (t : R) : Prop :=
  let '(j, s, e) := x in
  exists m, l !! j = Some m /\ Rmax s (print_time m) <= t <= Rmin e (move_end m).
Definition covered (L : list window) (t : R) : Prop := Exists (fun x => in_window x t) L.
(** Time does not go back from one range to the next. *)
Definition ordered (L : list window) : Prop :=
  StronglySorted (fun y x => forall t u, in_window x t -> in_window y u -> t <= u) L.

Definition below (B : R) (L : list window) : Prop := Forall (fun x => forall t, in_window x t -> t <= B) L.

(** The moves follow each other after the head sentinel, up to a last one
    without motion that ends after all times of interest. *)
Record list_ok (sk : stepper_kinematics R P) : Prop := {
  lo_next : forall j m m', (1 <= j)%nat -> l !! j = Some m -> l !! S j = Some m' -> print_time m' = move_end m;
  lo_time : forall j m, l !! j = Some m -> 0 <= move_t m;
  lo_head : exists m, l !! 0%nat = Some m /\ move_end m <= lf;
  lo_tail : exists m, last l = Some m /\ check_active sk m = false /\ lf < move_end m /\
    flush + gen_steps_pre_active sk <= move_end m;
  lo_params : 0 <= gen_steps_pre_active sk /\ 0 <= gen_steps_post_active sk /\ lf < flush }.

(** The start of the first move. *)
Definition first_start : R := match l !! 1%nat with Some m => print_time m | None => 0 end.

(** Steps may be needed at [t] because of a stepper that was active until
    [last_move], or of an active move from place [i0] up to [i]. *)
Definition needed (sk : stepper_kinematics R P) (force : R) (i0 i : nat) (t : R) : Prop :=
  t < force \/ exists j m, (i0 <= j < i)%nat /\ l !! j = Some m /\ check_active sk m = true /\
    print_time m - gen_steps_pre_active sk < t < move_end m + gen_steps_post_active sk.

Definition due_in (t : R) : Prop := lf < t <= flush /\ first_start <= t.

(** At place [i], after [k] moves without activity; [x] is [last_move_time]. *)
Record ranges_inv (sk : stepper_kinematics R P) (force0 : R) (i0 i k : nat) (x : R) (L : list window) : Prop := {
  ri_place : (1 <= i0 <= i - k)%nat /\ (k <= i)%nat;
  ri_inside : Forall (fun x => forall t, in_window x t -> lf <= t <= flush) L;
  ri_below : below (Rmax (x + gen_steps_post_active sk) lf) L;
  ri_before : forall m, l !! i = Some m -> below (print_time m) L;
  ri_ordered : ordered L;
  ri_covered : forall t m, l !! i = Some m -> due_in t -> t < print_time m ->
    needed sk force0 i0 i t -> covered L t;
  ri_active : force0 <= x + gen_steps_post_active sk /\ forall j m, (i0 <= j < i)%nat -> l !! j = Some m ->
    check_active sk m = true -> move_end m <= x;
  ri_last : x + gen_steps_post_active sk <= force0 \/
    exists j m, (i0 <= j < i)%nat /\ l !! j = Some m /\ check_active sk m = true /\ x = move_end m;
  ri_skipped : forall m, l !! (i - k)%nat = Some m ->
    print_time m <= Rmax (x + gen_steps_post_active sk) (Rmax lf first_start) }.

(** *** Finding the move at a time *)

Lemma find_move sk a b m m' t :
  list_ok sk -> (1 <= a < b)%nat -> l !! a = Some m -> l !! b = Some m' ->
  print_time m <= t <= print_time m' ->
  exists j mj, (a <= j < b)%nat /\ l !! j = Some mj /\ print_time mj <= t <= move_end mj.
Proof.
  intros Hl Hab. revert m. remember (b - a)%nat as n eqn:En.
  revert a Hab En. induction n as [|n IH]; intros a Hab En m Ha Hb Ht; [lia|].
  destruct (l !! S a) as [ma|] eqn:Ea; cycle 1.
  { apply lookup_ge_None in Ea. apply lookup_lt_Some in Hb. lia. }
  assert (Hn : print_time ma = move_end m) by (apply (lo_next _ Hl a m ma); [lia|done..]).
  destruct (Rle_dec t (move_end m)) as [Hle|Hgt].
  { exists a, m. split; [lia|]. split; [done|]. lra. }
  destruct (decide (S a = b)) as [<-|Hne]; [rewrite Ea in Hb; injection Hb as <-; exfalso; lra|].
  destruct (IH (S a) ltac:(lia) ltac:(lia) ma Ea Hb) as (j & mj & ? & ? & ?); [lra|].
  exists j, mj. split; [lia|done].
Qed.

Lemma starts_grow sk a b m m' :
  list_ok sk -> (1 <= a <= b)%nat -> l !! a = Some m -> l !! b = Some m' -> print_time m <= print_time m'.
Proof.
  intros Hl Hab. revert m. remember (b - a)%nat as n eqn:En. revert a Hab En.
  induction n as [|n IH]; intros a Hab En m Ha Hb.
  { replace b with a in Hb by lia. rewrite Ha in Hb. injection Hb as <-. lra. }
  destruct (l !! S a) as [ma|] eqn:Ea; cycle 1.
  { apply lookup_ge_None in Ea. apply lookup_lt_Some in Hb. lia. }
  assert (Hn : print_time ma = move_end m) by (apply (lo_next _ Hl a m ma); [lia|done..]).
  pose proof (lo_time _ Hl a m Ha). specialize (IH (S a) ltac:(lia) ltac:(lia) ma Ea Hb).
  unfold move_end in Hn. cbn in Hn. lra.
Qed.

(** *** Adding ranges *)

Lemma below_le B B' L : B <= B' -> below B L -> below B' L.
Proof. intros HB HL. eapply Forall_impl; [exact HL|]. intros x Hx t Ht. specialize (Hx t Ht). lra. Qed.

Lemma add_window L B j s e m :
  ordered L -> below B L -> l !! j = Some m -> B <= Rmax s (print_time m) -> ordered ((j, s, e) :: L).
Proof.
  intros Ho Hb Hm HB. constructor; [done|]. eapply Forall_impl; [exact Hb|].
  intros x Hx t u Ht (m' & Hm' & Hu). rewrite Hm in Hm'. injection Hm' as <-. specialize (Hx t Ht). lra.
Qed.

Lemma in_window_bounds j s e m t :
  l !! j = Some m -> in_window (j, s, e) t -> s <= t <= e /\ print_time m <= t <= move_end m.
Proof.
  intros Hm (m' & Hm' & Ht). rewrite Hm in Hm'. injection Hm' as <-.
  pose proof (Rmax_l s (print_time m)). pose proof (Rmax_r s (print_time m)).
  pose proof (Rmin_l e (move_end m)). pose proof (Rmin_r e (move_end m)). lra.
Qed.

Lemma in_window_intro j s e m t :
  l !! j = Some m -> s <= t <= e -> print_time m <= t <= move_end m -> in_window (j, s, e) t.
Proof. intros Hm H1 H2. exists m. split; [done|]. split; [apply Rmax_lub|apply Rmin_glb]; lra. Qed.

(** The ranges of the moves from [pm] up to [i]. *)
Definition block (n pm : nat) (s e : R) : list window := reverse ((fun j => (j, s, e)) <$> seq pm n).

Lemma block_S n pm s e : block (S n) pm s e = block n (S pm) s e ++ [(pm, s, e)].
Proof. unfold block. cbn [seq]. by rewrite fmap_cons, reverse_cons. Qed.

Lemma gen_before_log n pm s e (w : solver R P (list window)) :
  gen_before range_log l n pm s e w = Ret 0%Z (w <| i_sc ::= fun L => block n pm s e ++ L |>).
Proof.
  revert pm w. induction n as [|n IH]; intros pm w; cbn [gen_before]; [by destruct w|].
  unfold bind at 1. cbn [range_log]. change (truthy 0) with false. cbn iota. rewrite IH, block_S.
  destruct w as [k L]. unfold set. cbn. by rewrite <- (assoc_L (++)).
Qed.

Lemma add_block sk n pm s e m m' L B :
  list_ok sk -> (1 <= pm)%nat -> ordered L -> below B L -> l !! pm = Some m -> l !! (pm + n)%nat = Some m' ->
  B <= Rmax s (print_time m) -> B <= print_time m' ->
  ordered (block n pm s e ++ L) /\ below (print_time m') (block n pm s e ++ L).
Proof.
  intros Hl. revert pm m L B. induction n as [|n IH]; intros pm m L B Hpm Ho Hb Hm Hm' HB HB'.
  { split; [done|]. by apply below_le with B. }
  destruct (l !! S pm) as [m1|] eqn:E1; cycle 1.
  { apply lookup_ge_None in E1. apply lookup_lt_Some in Hm'. lia. }
  rewrite block_S, <- (assoc_L (++)).
  assert (Hn : print_time m1 = move_end m) by (apply (lo_next _ Hl pm m m1); done).
  assert (Ho1 : ordered ((pm, s, e) :: L)) by (by apply add_window with B m).
  assert (Hg : print_time m <= print_time m1) by (apply (starts_grow sk pm (S pm)); (done || lia)).
  assert (Hg' : print_time m1 <= print_time m') by (apply (starts_grow sk (S pm) (pm + S n)); (done || lia)).
  apply (IH (S pm) m1 ((pm, s, e) :: L) (Rmax B (print_time m1))); [lia|done| |done| | |].
  - constructor; [|by apply below_le with B; [apply Rmax_l|]].
    intros t Ht. destruct (in_window_bounds _ _ _ m _ Hm Ht) as [_ Ht']. pose proof (Rmax_r B (print_time m1)). lra.
  - rewrite <- Hm'. f_equal. lia.
  - apply Rmax_lub; [|apply Rmax_r]. etransitivity; [exact HB|]. by apply Rle_max_compat_l.
  - apply Rmax_lub; done.
Qed.

Lemma block_covers n pm s e j m t :
  (pm <= j < pm + n)%nat -> l !! j = Some m -> s <= t <= e -> print_time m <= t <= move_end m ->
  covered (block n pm s e) t.
Proof.
  intros Hj Hm H1 H2. apply Exists_exists. exists (j, s, e). split; [|by apply in_window_intro with m].
  unfold block. rewrite elem_of_reverse, list_elem_of_fmap. exists j. split; [done|].
  apply elem_of_seq. lia.
Qed.

Lemma walk_back_spec k pm a :
  (1 <= k <= pm)%nat -> (pm < length l)%nat ->
  exists q, walk_back k l pm a = Some q /\ (pm + 1 - k <= q <= pm)%nat /\
    (q = (pm + 1 - k)%nat \/ exists m, l !! q = Some m /\ print_time m <= a).
Proof.
  revert pm. induction k as [|k IH]; intros pm Hk Hpm; [lia|]. cbn [walk_back].
  destruct k as [|k]; [exists pm; split_and!; [done|lia..|left; lia]|].
  destruct (lookup_lt_is_Some_2 l pm Hpm) as [m Hm]. rewrite Hm.
  destruct (nltP a (print_time m)) as [Hlt|Hle].
  - destruct pm as [|pm]; [lia|]. destruct (IH pm) as (q & E & Hq & Hqm); [lia..|].
    exists q. split_and!; [done|lia..|]. destruct Hqm as [->|Hqm]; [left; lia|by right].
  - exists pm. split_and!; [done|lia..|]. right. exists m. split; [done|lra].
Qed.

(** A call is complete: it returns, its ranges lie in the time to flush and in
    order, they cover all of it at which steps may be needed, and the end of the
    activity is noted for the next call. *)
Definition ranges_done (sk : stepper_kinematics R P) (force0 : R) (i0 : nat)
    (o : outcome (solver R P (list window)) Z) : Prop :=
  exists x L, o = Ret 0%Z (mk_solver (sk <| last_move_time := x |>) L) /\ ordered L /\
    Forall (fun y => forall t, in_window y t -> lf <= t <= flush) L /\
    (forall t, due_in t -> needed sk force0 i0 (length l) t -> covered L t) /\
    (forall j m, (i0 <= j)%nat -> l !! j = Some m -> check_active sk m = true -> move_end m < flush ->
      move_end m <= x).

Lemma covered_app L1 L2 t : covered (L1 ++ L2) t <-> covered L1 t \/ covered L2 t.
Proof. apply Exists_app. Qed.

(** The ranges that lead up to the activity in move [i]. *)
Lemma gen_leading_spec sk force0 i0 i k x L m :
  list_ok sk -> ranges_inv sk force0 i0 i k x L -> l !! i = Some m ->
  exists B, gen_leading range_log l i k (print_time m) lf flush (x + gen_steps_post_active sk)
      (mk_solver (sk <| last_move_time := x |>) L) =
    Ret 0%Z (mk_solver (sk <| last_move_time := x |>) (B ++ L)) /\
  ordered (B ++ L) /\ below (print_time m) (B ++ L) /\
  Forall (fun y => forall t, in_window y t -> lf <= t <= flush) (B ++ L) /\
  (forall t, due_in t -> print_time m - gen_steps_pre_active sk < t < print_time m -> covered (B ++ L) t).
Proof.
  intros Hl I Hm. set (pre := gen_steps_pre_active sk). set (force := x + gen_steps_post_active sk).
  assert (Hold : forall t, due_in t -> print_time m - pre < t < print_time m -> t < force -> covered L t).
  { intros t Ht Htm Htf. apply (ri_covered _ _ _ _ _ _ _ I t m); auto; [lra|].
    destruct (ri_last _ _ _ _ _ _ _ I) as [Hf|(j & mj & Hj & Emj & Hact & Hx)]; [left; unfold force in *; lra|].
    right. exists j, mj. split; [done|]. split; [done|]. split; [done|].
    pose proof (starts_grow sk j i mj m Hl ltac:(pose proof (ri_place _ _ _ _ _ _ _ I); lia) Emj Hm).
    unfold pre, force in *. lra. }
  unfold gen_leading. cbn [i_sk]. change (gen_steps_pre_active (sk <| last_move_time := x |>)) with pre.
  destruct (negb (k =? 0)%nat && nonzero pre) eqn:Ek.
  - apply andb_true_iff in Ek as [Ek _]. apply negb_true_iff, Nat.eqb_neq in Ek.
    destruct (ri_place _ _ _ _ _ _ _ I) as [Hi0 Hki]. destruct i as [|i]; [lia|].
    rewrite !at_least_R. change (print_time m - pre)%num with (print_time m - pre).
    set (abs_start := Rmax force (Rmax lf (print_time m - pre))).
    assert (Ha : force <= abs_start /\ lf <= abs_start).
    { split; [apply Rmax_l|]. etransitivity; [|apply Rmax_r]. apply Rmax_l. }
    pose proof (lookup_lt_Some _ _ _ Hm) as Hlen.
    destruct (walk_back_spec k i abs_start) as (q & -> & Hq & Hqm); [lia..|].
    destruct (lookup_lt_is_Some_2 l q) as [mq Emq]; [lia|].
    rewrite gen_before_log. exists (block (S i - q) q abs_start flush).
    destruct (add_block sk (S i - q) q abs_start flush mq m L (Rmin (Rmax force lf) (print_time m)))
      as [Ho Hb]; [done|lia|apply I| |done| | |apply Rmin_r|].
    { apply Forall_forall. intros y Hy t Ht. apply Rmin_glb.
      - eapply Forall_forall in Hy; [|apply (ri_below _ _ _ _ _ _ _ I)]. by apply Hy.
      - eapply Forall_forall in Hy; [|by apply (ri_before _ _ _ _ _ _ _ I m)]. by apply Hy. }
    { rewrite <- Hm. f_equal. lia. }
    { etransitivity; [apply Rmin_l|]. etransitivity; [|apply Rmax_l]. apply Rmax_lub; apply Ha. }
    split_and!; [done|done|done| |].
    + apply Forall_app. split; [|apply I]. apply Forall_forall. intros y Hy t Ht. unfold block in Hy.
      rewrite elem_of_reverse, list_elem_of_fmap in Hy. destruct Hy as (j & -> & _).
      destruct Ht as (mj & Hmj & Ht). destruct (in_window_bounds j abs_start flush mj t) as [? _]; [done|by exists mj|]. lra.
    + intros t Ht [Hpre Htm]. apply covered_app. destruct (Rlt_dec t force) as [Hf|Hf].
      { right. apply Hold; (done || lra). }
      assert (Hat : abs_start <= t).
      { unfold due_in in Ht. apply Rmax_lub; [lra|]. apply Rmax_lub; lra. }
      assert (Hqt : print_time mq <= t).
      { destruct Hqm as [->|(mq' & E & Hle)]; [|rewrite Emq in E; injection E as <-; lra].
        pose proof (ri_skipped _ _ _ _ _ _ _ I mq) as Hs. unfold due_in in Ht.
        etransitivity; [apply Hs; rewrite <- Emq; f_equal; lia|]. repeat apply Rmax_lub; unfold force in *; lra. }
      left. destruct (find_move sk q (S i) mq m t) as (j & mj & Hj & Emj & Hjt); [done|lia|done|done|lra|].
      apply block_covers with j mj; [lia|done| |done]. unfold due_in in Ht. lra.
  - exists []. split_and!; [done|apply I|by apply I|apply I|].
    intros t Ht [Hpre Htm]. cbn. apply andb_false_iff in Ek as [Ek|Ek].
    + apply negb_false_iff, Nat.eqb_eq in Ek. subst k. apply Hold; [done|lra|].
      pose proof (ri_skipped _ _ _ _ _ _ _ I m) as Hs. rewrite Nat.sub_0_r in Hs. specialize (Hs Hm).
      fold force in Hs. unfold due_in in Ht. revert Hs. unfold Rmax. repeat destruct (Rle_dec _ _); lra.
    + destruct (nonzeroP pre) as [|Hp]; [done|]. destruct (Req_dec pre 0); [lra|tauto].
Qed.

Lemma ends_before sk a b m m' :
  list_ok sk -> (1 <= a < b)%nat -> l !! a = Some m -> l !! b = Some m' -> move_end m <= print_time m'.
Proof.
  intros Hl Hab Ha Hb. destruct (l !! S a) as [ma|] eqn:Ea; cycle 1.
  { apply lookup_ge_None in Ea. apply lookup_lt_Some in Hb. lia. }
  rewrite <- (lo_next _ Hl a m ma) by (done || lia). by apply (starts_grow sk (S a) b); [|lia|..].
Qed.

Lemma start_le_end sk j m : list_ok sk -> l !! j = Some m -> print_time m <= move_end m.
Proof. intros Hl Hm. pose proof (lo_time _ Hl j m Hm). unfold move_end. cbn. lra. Qed.

(** There is a move after [i] unless it is the last one. *)
Lemma next_move sk i m :
  list_ok sk -> (1 <= i)%nat -> l !! i = Some m ->
  (check_active sk m = false /\ flush + gen_steps_pre_active sk <= move_end m) \/
  exists m1, l !! S i = Some m1 /\ print_time m1 = move_end m.
Proof.
  intros Hl Hi Hm. destruct (l !! S i) as [m1|] eqn:E.
  - right. exists m1. split; [done|]. by apply (lo_next _ Hl i m m1).
  - left. destruct (lo_tail _ Hl) as (z & Hz & Hact & _ & Hend). rewrite last_lookup in Hz.
    apply lookup_ge_None in E. pose proof (lookup_lt_Some _ _ _ Hm).
    replace (pred (length l)) with i in Hz by lia. rewrite Hm in Hz. by injection Hz as ->.
Qed.

Section loop.
Context (sk : stepper_kinematics R P) (force0 : R) (i0 : nat).
Hypothesis Hl : list_ok sk.
Hypothesis Hi0 : forall m, l !! i0 = Some m -> lf < move_end m.
Hypothesis Hforce0 : force0 <= lf + gen_steps_post_active sk.

(** After an active move: everything up to its end that is needed is covered. *)
Lemma active_covered i k x L m :
  ranges_inv sk force0 i0 i k x L -> l !! i = Some m -> check_active sk m = true ->
  exists L1, (forall K : Z -> M (solver R P (list window)) Z,
    (checked gen_leading range_log l i k (print_time m) lf flush (x + gen_steps_post_active sk);;
     bind (range_log l i lf flush) K) (mk_solver (sk <| last_move_time := x |>) L)
    = K 0%Z (mk_solver (sk <| last_move_time := x |>) L1)) /\
  ordered L1 /\ below (move_end m) L1 /\
  Forall (fun y => forall t, in_window y t -> lf <= t <= flush) L1 /\
  (forall t, due_in t -> t <= move_end m ->
    print_time m - gen_steps_pre_active sk < t \/ needed sk force0 i0 i t -> covered L1 t).
Proof.
  intros I Hm Hact. destruct (gen_leading_spec sk force0 i0 i k x L m Hl I Hm) as (B & E & Ho & Hb & Hin & Hc).
  exists ((i, lf, flush) :: B ++ L). split_and!.
  - intros K. rewrite (bind_ret _ _ _ _ _ E). done.
  - apply add_window with (print_time m) m; auto. apply Rmax_r.
  - constructor; [|apply below_le with (print_time m); [by apply (start_le_end sk i)|done]].
    intros t Ht. by apply (in_window_bounds i lf flush m).
  - constructor; [|done]. intros t Ht. by apply (in_window_bounds i lf flush m).
  - intros t Ht Hte Hn. destruct (Rle_dec (print_time m) t) as [Hge|Hlt].
    { constructor. apply in_window_intro with m; auto. unfold due_in in Ht. lra. }
    apply Exists_cons. right. destruct Hn as [Hn|Hn]; [apply Hc; (done || lra)|].
    apply covered_app. right. by apply (ri_covered _ _ _ _ _ _ _ I t m); [| |lra|].
Qed.

(** After a move without activity. *)
Lemma inactive_covered i k x L m :
  ranges_inv sk force0 i0 i k x L -> l !! i = Some m -> check_active sk m = false ->
  let force := x + gen_steps_post_active sk in
  let forced := nlt (print_time m) force in
  exists L1, (forall K : M (solver R P (list window)) Z,
    (checked (if forced then range_log l i lf (at_most flush force) else ret 0%Z);; K)
      (mk_solver (sk <| last_move_time := x |>) L)
    = K (mk_solver (sk <| last_move_time := x |>) L1)) /\
  ordered L1 /\ below (Rmax force lf) L1 /\ below (move_end m) L1 /\
  Forall (fun y => forall t, in_window y t -> lf <= t <= flush) L1 /\
  (forall t, due_in t -> t <= move_end m -> needed sk force0 i0 i t -> covered L1 t).
Proof.
  intros I Hm Hact force forced. pose proof (start_le_end sk i m Hl Hm) as Hse.
  assert (Hn : forall t, needed sk force0 i0 i t -> t < force).
  { intros t [Ht|(j & mj & Hj & Emj & Ha & _ & Ht)]; destruct (ri_active _ _ _ _ _ _ _ I) as [H0 Ha0].
    - unfold force. lra.
    - specialize (Ha0 j mj Hj Emj Ha). unfold force. lra. }
  destruct (nltP (print_time m) force) as [Hf|Hf].
  - exists ((i, lf, at_most flush force) :: L). rewrite at_most_R.
    assert (Hw : forall t, in_window (i, lf, Rmin flush force) t -> lf <= t <= flush /\ t <= force /\ t <= move_end m).
    { intros t Ht. destruct (in_window_bounds i _ _ m _ Hm Ht) as [H1 H2].
      pose proof (Rmin_l flush force). pose proof (Rmin_r flush force). lra. }
    split_and!.
    + unfold forced. intros K. destruct (nltP (print_time m) force); [done|lra].
    + apply add_window with (print_time m) m; [apply I|by apply I|done|apply Rmax_r].
    + constructor; [|apply I]. intros t Ht. destruct (Hw t Ht) as (_ & Hle & _). etransitivity; [exact Hle|apply Rmax_l].
    + constructor; [|by apply below_le with (print_time m); [|apply I]]. intros t Ht. by destruct (Hw t Ht) as (_ & _ & Hle).
    + constructor; [|apply I]. intros t Ht. by destruct (Hw t Ht) as (Hle & _).
    + intros t Ht Hte Hnt. destruct (Rlt_dec t (print_time m)) as [Hle|Hgt].
      { apply Exists_cons. right. by apply (ri_covered _ _ _ _ _ _ _ I t m). }
      constructor. apply in_window_intro with m; [done| |lra]. unfold due_in in Ht. specialize (Hn t Hnt).
      split; [lra|]. apply Rmin_glb; lra.
  - exists L. split_and!.
    + unfold forced. intros K. destruct (nltP (print_time m) force); [lra|done].
    + apply I.
    + apply I.
    + by apply below_le with (print_time m); [|apply I].
    + apply I.
    + intros t Ht Hte Hnt. specialize (Hn t Hnt). apply (ri_covered _ _ _ _ _ _ _ I t m); auto. lra.
Qed.

Lemma needed_S i m t : l !! i = Some m -> check_active sk m = false ->
  needed sk force0 i0 (S i) t -> needed sk force0 i0 i t.
Proof.
  intros Hm Ha [Ht|(j & mj & Hj & Emj & Hact & Ht)]; [by left|]. right. exists j, mj.
  split; [|done]. destruct (decide (j = i)) as [->|]; [|lia]. congruence.
Qed.

Lemma active_next i k x L L1 m m1 :
  ranges_inv sk force0 i0 i k x L -> l !! i = Some m -> check_active sk m = true ->
  l !! S i = Some m1 -> print_time m1 = move_end m ->
  ordered L1 -> below (move_end m) L1 -> Forall (fun y => forall t, in_window y t -> lf <= t <= flush) L1 ->
  (forall t, due_in t -> t <= move_end m ->
    print_time m - gen_steps_pre_active sk < t \/ needed sk force0 i0 i t -> covered L1 t) ->
  ranges_inv sk force0 i0 (S i) 0 (move_end m) L1.
Proof.
  intros I Hm Hact Hm1 Hnext Ho Hb Hin Hc. destruct (lo_params _ Hl) as (Hpre & Hpost & _).
  destruct (ri_place _ _ _ _ _ _ _ I) as [Hp1 Hp2].
  assert (Hlf : lf < move_end m).
  { destruct (decide (i0 = i)) as [->|Hne]; [by apply Hi0|].
    destruct (lookup_lt_is_Some_2 l i0) as [mi Emi]; [apply lookup_lt_Some in Hm; lia|].
    pose proof (Hi0 mi Emi). pose proof (ends_before sk i0 i mi m Hl ltac:(lia) Emi Hm).
    pose proof (start_le_end sk i m Hl Hm). lra. }
  split; auto.
  - lia.
  - apply below_le with (move_end m); [|done]. etransitivity; [|apply Rmax_l]. lra.
  - intros m' Hm'. rewrite Hm1 in Hm'. injection Hm' as <-. by rewrite Hnext.
  - intros t m' Hm' Ht Hle Hn. rewrite Hm1 in Hm'. injection Hm' as <-. apply Hc; [done|lra|].
    destruct Hn as [Hn|(j & mj & Hj & Emj & Ha & Hjt)]; [by right; left|].
    destruct (decide (j = i)) as [->|]; [rewrite Hm in Emj; injection Emj as <-; left; lra|].
    right. right. exists j, mj. split; [lia|done].
  - split; [lra|]. intros j mj Hj Emj Ha. destruct (decide (j = i)) as [->|].
    { rewrite Hm in Emj. injection Emj as <-. lra. }
    pose proof (ends_before sk j i mj m Hl ltac:(lia) Emj Hm). pose proof (start_le_end sk i m Hl Hm). lra.
  - right. exists i, m. split; [lia|done].
  - intros m' Hm'. rewrite Nat.sub_0_r, Hm1 in Hm'. injection Hm' as <-. rewrite Hnext.
    etransitivity; [|apply Rmax_l]. lra.
Qed.

Lemma inactive_next i k k' x L L1 m m1 :
  ranges_inv sk force0 i0 i k x L -> l !! i = Some m -> check_active sk m = false ->
  l !! S i = Some m1 -> print_time m1 = move_end m ->
  k' = S k \/ (k' = 1%nat /\ print_time m < x + gen_steps_post_active sk) ->
  ordered L1 -> below (Rmax (x + gen_steps_post_active sk) lf) L1 -> below (move_end m) L1 ->
  Forall (fun y => forall t, in_window y t -> lf <= t <= flush) L1 ->
  (forall t, due_in t -> t <= move_end m -> needed sk force0 i0 i t -> covered L1 t) ->
  ranges_inv sk force0 i0 (S i) k' x L1.
Proof.
  intros I Hm Hact Hm1 Hnext Hk Ho Hb1 Hb2 Hin Hc. destruct (ri_place _ _ _ _ _ _ _ I) as [Hp1 Hp2].
  split; auto.
  - destruct Hk as [->|[-> _]]; lia.
  - intros m' Hm'. rewrite Hm1 in Hm'. injection Hm' as <-. by rewrite Hnext.
  - intros t m' Hm' Ht Hle Hn. rewrite Hm1 in Hm'. injection Hm' as <-. apply Hc; [done|lra|].
    by apply needed_S with m.
  - destruct (ri_active _ _ _ _ _ _ _ I) as [H0 Ha0]. split; [done|]. intros j mj Hj Emj Ha.
    destruct (decide (j = i)) as [->|]; [congruence|]. apply Ha0 with j; [lia|done..].
  - destruct (ri_last _ _ _ _ _ _ _ I) as [?|(j & mj & Hj & ?)]; [by left|]. right. exists j, mj. split; [lia|done].
  - intros m' Hm'. destruct Hk as [->|[-> Hf]].
    + apply (ri_skipped _ _ _ _ _ _ _ I). by rewrite <- Hm'.
    + replace (S i - 1)%nat with i in Hm' by lia. rewrite Hm in Hm'. injection Hm' as <-.
      etransitivity; [|apply Rmax_l]. lra.
Qed.

Lemma generate_loop_done n i k x L :
  ranges_inv sk force0 i0 i k x L -> (i < length l <= i + n)%nat ->
  ranges_done sk force0 i0 (generate_loop range_log l n i k lf flush (x + gen_steps_post_active sk)
    (mk_solver (sk <| last_move_time := x |>) L)).
Proof.
  revert i k x L. induction n as [|n IH]; intros i k x L I Hn; [lia|].
  destruct (lookup_lt_is_Some_2 l i) as [m Hm]; [lia|]. cbn [generate_loop]. rewrite Hm.
  destruct (lo_params _ Hl) as (Hpre & Hpost & Hlff). destruct (ri_place _ _ _ _ _ _ _ I) as [Hp1 Hp2].
  change (check_active (i_sk _) m) with (check_active sk m).
  destruct (check_active sk m) eqn:Hact.
  - destruct (active_covered i k x L m I Hm Hact) as (L1 & -> & Ho & Hb & Hin & Hc).
    change (truthy 0) with false. cbn iota. destruct (nleP flush (move_end m)) as [Hle|Hgt].
    + exists flush, L1. split_and!; [done..| |].
      * intros t Ht Hnd. apply Hc; [done|unfold due_in in Ht; lra|].
        destruct Hnd as [Hf|(j & mj & Hj & Emj & Ha & Hjt)]; [by right; left|].
        destruct (decide (j < i)%nat); [right; right; exists j, mj; by split; [lia|]|]. left.
        pose proof (starts_grow sk i j m mj Hl ltac:(lia) Hm Emj). lra.
      * intros. lra.
    + destruct (next_move sk i m Hl ltac:(lia) Hm) as [[? _]|(m1 & Hm1 & Hnext)]; [congruence|].
      apply (IH (S i) 0%nat (move_end m) L1); [by apply active_next with k x L m1|].
      pose proof (lookup_lt_Some _ _ _ Hm1). lia.
  - destruct (inactive_covered i k x L m I Hm Hact) as (L1 & -> & Ho & Hb1 & Hb2 & Hin & Hc). cbv beta.
    change (gen_steps_pre_active (i_sk _)) with (gen_steps_pre_active sk).
    change (flush + gen_steps_pre_active sk)%num with (flush + gen_steps_pre_active sk).
    destruct (nleP (flush + gen_steps_pre_active sk) (move_end m)) as [Hle|Hgt].
    + exists x, L1. split_and!; [done..| |].
      * intros t Ht Hnd. apply Hc; [done|unfold due_in in Ht; lra|].
        destruct Hnd as [Hf|(j & mj & Hj & Emj & Ha & Hjt)]; [by left|].
        destruct (decide (j < i)%nat); [right; exists j, mj; by split; [lia|]|]. exfalso.
        destruct (decide (j = i)) as [->|]; [congruence|].
        pose proof (ends_before sk i j m mj Hl ltac:(lia) Hm Emj). unfold due_in in Ht. lra.
      * intros j mj Hj Emj Ha Hlt. destruct (decide (j < i)%nat); [by apply (ri_active _ _ _ _ _ _ _ I) with j|].
        destruct (decide (j = i)) as [->|]; [congruence|]. exfalso.
        pose proof (ends_before sk i j m mj Hl ltac:(lia) Hm Emj). pose proof (start_le_end sk j mj Hl Emj). lra.
    + destruct (next_move sk i m Hl ltac:(lia) Hm) as [[_ ?]|(m1 & Hm1 & Hnext)]; [lra|].
      apply (IH (S i) _ x L1); [|pose proof (lookup_lt_Some _ _ _ Hm1); lia].
      apply inactive_next with k L m m1; auto.
      change (x + gen_steps_post_active sk)%num with (x + gen_steps_post_active sk).
      destruct (nltP (print_time m) (x + gen_steps_post_active sk)); auto.
Qed.
End loop.

Lemma skip_flushed_spec l' i :
  match skip_flushed l' lf i with
  | None => Forall (fun m => move_end m <= lf) l'
  | Some i0 => (i <= i0)%nat /\ Forall (fun m => move_end m <= lf) (take (i0 - i) l') /\
      exists m, l' !! (i0 - i)%nat = Some m /\ lf < move_end m
  end.
Proof.
  revert i. induction l' as [|m l' IH]; intros i; [constructor|]. cbn [skip_flushed].
  destruct (nleP (move_end m) lf) as [Hle|Hgt].
  - specialize (IH (S i)). destruct (skip_flushed l' lf (S i)) as [i0|]; [|by constructor].
    destruct IH as (Hi & Ht & m0 & Hm0 & Hlt). split; [lia|].
    replace (i0 - i)%nat with (S (i0 - S i)) by lia. cbn. split; [by constructor|eauto].
  - split; [lia|]. rewrite Nat.sub_diag. split; [constructor|]. exists m. split; [done|lra].
Qed.

Lemma ranges_inv_init sk i0 m x :
  list_ok sk -> (1 <= i0)%nat -> l !! i0 = Some m -> Forall (fun m => move_end m <= lf) (take i0 l) ->
  ranges_inv sk (x + gen_steps_post_active sk) i0 i0 0 x [].
Proof.
  intros Hl Hi Hm Hf.
  assert (Hs : print_time m <= Rmax lf first_start).
  { unfold first_start. destruct (decide (i0 = 1%nat)) as [->|Hne]; [rewrite Hm; apply Rmax_r|].
    destruct (lookup_lt_is_Some_2 l (i0 - 1)) as [mp Emp]; [apply lookup_lt_Some in Hm; lia|].
    rewrite (lo_next _ Hl (i0 - 1) mp m) by (lia || done || (rewrite <- Hm; f_equal; lia)).
    etransitivity; [|apply Rmax_l]. apply (Forall_lookup_1 _ _ (i0 - 1) mp Hf).
    rewrite lookup_take_lt by lia. done. }
  split; try (by constructor); try lia.
  - intros t m' Hm' Ht Hlt. rewrite Hm in Hm'. injection Hm' as <-. exfalso. unfold due_in in Ht.
    revert Hs. unfold Rmax. destruct (Rle_dec _ _); lra.
  - split; [lra|]. intros j mj Hj. lia.
  - intros m' Hm'. rewrite Nat.sub_0_r, Hm in Hm'. injection Hm' as <-. etransitivity; [exact Hs|apply Rmax_r].
Qed.

(** A call of [itersolve_generate_steps]: [force0] is where the activity of the
    earlier calls ends. *)
Lemma generate_steps_done (w : solver R P (list window)) :
  let sk := i_sk w in
  i_sc w = [] -> sk_tq sk <> 0%Z -> last_flush_time sk = lf -> last_move_time sk <= lf -> list_ok sk ->
  exists i0, skip_flushed l lf 0 = Some i0 /\
  ranges_done (sk <| last_flush_time := flush |>) (last_move_time sk + gen_steps_post_active sk) i0
    (generate_steps range_log l flush w).
Proof.
  destruct w as [sk L]. cbn [i_sk i_sc]. intros -> Htq Hlf Hlm Hl.
  pose proof (skip_flushed_spec l 0) as Hs. unfold generate_steps. cbn [i_sk].
  destruct (Z.eqb_spec (sk_tq (i_sk (set i_sk (fun sk => sk <| last_flush_time := flush |>) (mk_solver sk (@nil window))))) 0)
    as [E|_]; [done|]. rewrite Hlf.
  destruct (skip_flushed l lf 0) as [i0|]; cycle 1.
  { exfalso. destruct (lo_tail _ Hl) as (z & Hz & _ & Hlt & _). apply last_Some_elem_of in Hz.
    rewrite Forall_forall in Hs. specialize (Hs z Hz). lra. }
  exists i0. split; [done|]. rewrite Nat.sub_0_r in Hs. destruct Hs as (_ & Ht & m0 & Hm0 & Hlt).
  assert (Hi0 : (1 <= i0)%nat).
  { destruct i0; [|lia]. destruct (lo_head _ Hl) as (hd & Hhd & Hle). rewrite Hm0 in Hhd. injection Hhd as <-. lra. }
  set (sk' := sk <| last_flush_time := flush |>).
  assert (Hl' : list_ok sk') by (destruct Hl; by split).
  assert (E : set i_sk (fun sk => sk <| last_flush_time := flush |>) (mk_solver sk (@nil window))
    = mk_solver (sk' <| last_move_time := last_move_time sk |>) []) by (by destruct sk).
  rewrite E. apply (generate_loop_done sk' (last_move_time sk + gen_steps_post_active sk) i0 Hl').
  - intros m Hm. rewrite Hm0 in Hm. by injection Hm as <-.
  - cbn. lra.
  - by apply (ranges_inv_init sk' i0 m0 (last_move_time sk)).
  - apply lookup_lt_Some in Hm0. lia.
Qed.
End windows.

(** ** Statements *)

Section statements.
Local Open Scope R_scope.

(** A queue whose sentinels are up to date, for a call with [flush]. *)
Definition queue_ready {P} (tq : trapq R) (sk : stepper_kinematics R P) (flush : R) : Prop :=
  tq_ok tq /\ contiguous (moves tq ++ [tail_sentinel tq]) /\
  Forall (fun m => 0 <= move_t m) (moves tq ++ [tail_sentinel tq]) /\
  check_active sk (tail_sentinel tq) = false /\
  flush + gen_steps_pre_active sk <= move_end (tail_sentinel tq) /\
  0 <= gen_steps_pre_active sk /\ 0 <= gen_steps_post_active sk /\ -1 <= last_flush_time sk < flush.

Lemma contiguous_next l j (m m' : move R) :
  contiguous l -> l !! j = Some m -> l !! S j = Some m' -> print_time m' = move_end m.
Proof.
  intros Hc. revert j. induction Hc as [|m1 l Hc IH Hh]; intros j Hm Hm'; [done|].
  destruct j as [|j]; [|by apply (IH j)]. cbn in Hm, Hm'. injection Hm as ->.
  destruct l as [|m2 l]; [done|]. injection Hm' as ->. by inversion Hh.
Qed.

Lemma queue_ready_list {P} (tq : trapq R) (sk : stepper_kinematics R P) flush :
  queue_ready tq sk flush -> list_ok (tq_list tq) (last_flush_time sk) flush sk.
Proof.
  intros (Hok & Hc & Ht & Hact & Hend & Hpre & Hpost & Hlf). destruct (tq_head _ Hok) as [Hh1 Hh2].
  assert (He : move_end (head_sentinel tq) = -1) by (unfold move_end; cbn; lra).
  split.
  - intros j m m' Hj Hm Hm'. destruct j as [|j]; [lia|]. by apply (contiguous_next _ j m m' Hc).
  - intros j m Hm. destruct j as [|j]; cbn in Hm; [injection Hm as <-; lra|].
    by apply (Forall_lookup_1 _ _ _ _ Ht Hm).
  - exists (head_sentinel tq). split; [done|]. lra.
  - exists (tail_sentinel tq). split; [unfold tq_list; by rewrite app_comm_cons, last_snoc|].
    split; [done|]. split; [lra|done].
  - split; [done|]. split; [done|lra].
Qed.

(** C19: every step the solver submits for a move is on time, in exact arithmetic:
    for a continuous stepper position it is where the position is within a
    millionth of a millimetre of the next half-step point, or within a nanosecond
    of where it reaches that point (or of the step before); steps are in order
    and inside the range, also when the search is stopped by an error or has not
    ended.  When it ends the commanded position has moved by exactly one step
    distance for each step, and the stepper is within half a step of it (plus
    0.00001 micrometres) where the range ends. *)
Theorem itersolve_steps_on_time {P} answer fuel l i m abs_start abs_end (w : solver R P step_log) pos :
  let sk := i_sk w in
  let start := Rmax 0 (abs_start - print_time m) in
  let end_time := Rmin (move_t m) (abs_end - print_time m) in
  l !! i = Some m -> steps (i_sc w) = [] -> post_cb sk = None -> continuity pos ->
  (forall t, calc_position_cb sk (container sk) (commanded_pos sk) l i t = Some (pos t)) ->
  range_exact pos (step_dist sk) (commanded_pos sk) start end_time
    (itersolve_gen_steps_range (StepSink0 := log_sink answer) (S fuel) l i abs_start abs_end w).
Proof. apply gen_steps_range_exact. Qed.

(** C20: for a queue of moves that follow each other, a call that generates steps
    up to [flush] returns, and the ranges it searches lie in the time since the
    last call, go forward in time, and cover every moment at which a step may be
    needed: while a move concerns the stepper, and for the configured time before
    and after. *)
Theorem itersolve_ranges_cover {P} (tq : trapq R) (w : solver R P (list window)) flush :
  let sk := i_sk w in
  i_sc w = [] -> sk_tq sk <> 0%Z -> last_move_time sk <= last_flush_time sk -> queue_ready tq sk flush ->
  exists i0, skip_flushed (tq_list tq) (last_flush_time sk) 0 = Some i0 /\
  ranges_done (tq_list tq) (last_flush_time sk) flush (sk <| last_flush_time := flush |>)
    (last_move_time sk + gen_steps_post_active sk) i0 (generate_steps range_log (tq_list tq) flush w).
Proof.
  intros sk H1 H2 H3 H4. by apply generate_steps_done; [..|apply queue_ready_list].
Qed.

(** A move of 1 second along x at 10 mm/s from time 2, and a stepper of the x
    axis with steps of 0.1 mm that needs steps half a second before and after. *)
Definition wit_move : move R := mk_move 2 1 10 0 (mk_coord 0 0 0) (mk_coord 1 0 0).
Definition wit_sk (pre post : R) : stepper_kinematics R unit :=
  mk_stepper_kinematics (1 / 10) 0 0 0 1 AF_X pre post
    (fun _ _ l i t => m ← l !! i; Some (cx (move_get_coord m t))) None tt.
Definition wit_tq : trapq R :=
  mk_trapq (mk_move (-1) 0 0 0 (mk_coord 0 0 0) (mk_coord 0 0 0)) [wit_move]
    (mk_move 3 1000 0 0 (mk_coord 10 0 0) (mk_coord 0 0 0)) [].

Lemma itersolve_steps_on_time_witness :
  range_exact (fun t => 0 + 1 * ((10 + 0 * t) * t)) (1 / 10) 0 (Rmax 0 (0 - 2)) (Rmin 1 (3 - 2))
    (itersolve_gen_steps_range (StepSink0 := log_sink (fun _ => 0%Z)) 1001 (tq_list wit_tq) 1 0 3
      (mk_solver (wit_sk 0 0) (mk_step_log 1 []))).
Proof.
  apply (itersolve_steps_on_time (fun _ => 0%Z) 1000 (tq_list wit_tq) 1 wit_move 0 3
    (mk_solver (wit_sk 0 0) (mk_step_log 1 []))); try reflexivity.
  reg.
Defined.

Lemma itersolve_ranges_cover_witness :
  exists i0, skip_flushed (tq_list wit_tq) 0 0 = Some i0 /\
  ranges_done (tq_list wit_tq) 0 (5 / 2) ((wit_sk (1 / 2) (1 / 2)) <| last_flush_time := 5 / 2 |>) (0 + 1 / 2) i0
    (generate_steps range_log (tq_list wit_tq) (5 / 2) (mk_solver (wit_sk (1 / 2) (1 / 2)) [])).
Proof.
  apply (itersolve_ranges_cover wit_tq (mk_solver (wit_sk (1 / 2) (1 / 2)) []) (5 / 2)); cbn; [done|done|lra|].
  unfold queue_ready, move_end. cbn. split; [|split_and!; try lra].
  - split; cbn; [repeat constructor|intros _; lra|split; lra].
  - repeat constructor. unfold move_end. cbn. lra.
  - repeat constructor; cbn; lra.
  - unfold check_active. cbn. destruct (nonzeroP 0); [done|]. done.
Defined.
End statements.
