(* ===== verification/Kinematics.v ===== *)
(** * Kinematics (klippy/chelper/kin_*.c)

    Each kinematics gives the position of a stepper for a place of the toolhead:
    the callbacks of the iterative solver. *)

From Stdlib Require Import Reals Lra.
From S2P Require Import Prelude Double Numeric Trapq Itersolve.

Section kinematics.
Context {A : Type} `{Num A}.
Local Open Scope num_scope.

(** The callbacks of the simple kinematics look at the move alone. *)
Definition on_move {P} (f : P -> A -> move A -> A -> A) (c : P) (commanded_pos : A) (l : list (move A)) (i : nat)
    (move_time : A) : option A :=
  m ← l !! i; Some (f c commanded_pos m move_time).
(** A callback that was not set is NULL. *)
Definition no_callback {P} (c : P) (commanded_pos : A) (l : list (move A)) (i : nat) (move_time : A) : option A := None.

(** A struct filled with zeros. *)
Definition sk_zero {P} (c : P) : stepper_kinematics A P :=
  mk_stepper_kinematics (nint 0) (nint 0) (nint 0) (nint 0) 0 0 (nint 0) (nint 0) no_callback None c.

(** ** Cartesian *)

Definition cart_stepper_x_calc_position (_ : unit) (_ : A) (m : move A) (move_time : A) : A :=
  cx (move_get_coord m move_time).
Definition cart_stepper_y_calc_position (_ : unit) (_ : A) (m : move A) (move_time : A) : A :=
  cy (move_get_coord m move_time).
Definition cart_stepper_z_calc_position (_ : unit) (_ : A) (m : move A) (move_time : A) : A :=
  cz (move_get_coord m move_time).

Definition cartesian_stepper_alloc (axis : string) : stepper_kinematics A unit :=
  let sk := sk_zero tt in
  if bool_decide (axis = "x"%string)
  then sk <| calc_position_cb := on_move cart_stepper_x_calc_position |> <| active_flags := AF_X |>
  else if bool_decide (axis = "y"%string)
  then sk <| calc_position_cb := on_move cart_stepper_y_calc_position |> <| active_flags := AF_Y |>
  else if bool_decide (axis = "z"%string)
  then sk <| calc_position_cb := on_move cart_stepper_z_calc_position |> <| active_flags := AF_Z |>
  else sk.

(** ** CoreXY and CoreXZ *)

Definition corexy_stepper_plus_calc_position (_ : unit) (_ : A) (m : move A) (move_time : A) : A :=
  let c := move_get_coord m move_time in cx c + cy c.
Definition corexy_stepper_minus_calc_position (_ : unit) (_ : A) (m : move A) (move_time : A) : A :=
  let c := move_get_coord m move_time in cx c - cy c.
Definition corexy_stepper_alloc (type : string) : stepper_kinematics A unit :=
  let sk := sk_zero tt in
  let sk := if bool_decide (type = "+"%string)
            then sk <| calc_position_cb := on_move corexy_stepper_plus_calc_position |>
            else if bool_decide (type = "-"%string)
            then sk <| calc_position_cb := on_move corexy_stepper_minus_calc_position |> else sk in
  sk <| active_flags := Z.lor AF_X AF_Y |>.

Definition corexz_stepper_plus_calc_position (_ : unit) (_ : A) (m : move A) (move_time : A) : A :=
  let c := move_get_coord m move_time in cx c + cz c.
Definition corexz_stepper_minus_calc_position (_ : unit) (_ : A) (m : move A) (move_time : A) : A :=
  let c := move_get_coord m move_time in cx c - cz c.
Definition corexz_stepper_alloc (type : string) : stepper_kinematics A unit :=
  let sk := sk_zero tt in
  let sk := if bool_decide (type = "+"%string)
            then sk <| calc_position_cb := on_move corexz_stepper_plus_calc_position |>
            else if bool_decide (type = "-"%string)
            then sk <| calc_position_cb := on_move corexz_stepper_minus_calc_position |> else sk in
  sk <| active_flags := Z.lor AF_X AF_Z |>.

(** ** Delta, deltesian and cable winch *)

Record delta_stepper := mk_delta_stepper { ds_arm2 : A; tower_x : A; tower_y : A }.
Definition delta_stepper_calc_position (ds : delta_stepper) (_ : A) (m : move A) (move_time : A) : A :=
  let c := move_get_coord m move_time in
  let dx := tower_x ds - cx c in
  let dy := tower_y ds - cy c in
  nsqrt (ds_arm2 ds - dx * dx - dy * dy) + cz c.
Definition delta_stepper_alloc (arm2 tower_x tower_y : A) : stepper_kinematics A delta_stepper :=
  (sk_zero (mk_delta_stepper arm2 tower_x tower_y))
    <| calc_position_cb := on_move delta_stepper_calc_position |>
    <| active_flags := Z.lor (Z.lor AF_X AF_Y) AF_Z |>.

Record deltesian_stepper := mk_deltesian_stepper { dt_arm2 : A; arm_x : A }.
Definition deltesian_stepper_calc_position (ds : deltesian_stepper) (_ : A) (m : move A) (move_time : A) : A :=
  let c := move_get_coord m move_time in
  let dx := cx c - arm_x ds in
  nsqrt (dt_arm2 ds - dx * dx) + cz c.
Definition deltesian_stepper_alloc (arm2 arm_x : A) : stepper_kinematics A deltesian_stepper :=
  (sk_zero (mk_deltesian_stepper arm2 arm_x))
    <| calc_position_cb := on_move deltesian_stepper_calc_position |>
    <| active_flags := Z.lor AF_X AF_Z |>.

(** The container of a winch is its anchor. *)
Definition winch_stepper_calc_position (anchor : coord A) (_ : A) (m : move A) (move_time : A) : A :=
  let c := move_get_coord m move_time in
  let dx := cx anchor - cx c in
  let dy := cy anchor - cy c in
  let dz := cz anchor - cz c in
  nsqrt (dx * dx + dy * dy + dz * dz).
Definition winch_stepper_alloc (anchor_x anchor_y anchor_z : A) : stepper_kinematics A (coord A) :=
  (sk_zero (mk_coord anchor_x anchor_y anchor_z))
    <| calc_position_cb := on_move winch_stepper_calc_position |>
    <| active_flags := Z.lor (Z.lor AF_X AF_Y) AF_Z |>.

(** ** Generic cartesian: the container is the coefficients *)

Definition generic_cartesian_stepper_calc_position (a : coord A) (_ : A) (m : move A) (move_time : A) : A :=
  let c := move_get_coord m move_time in cx a * cx c + cy a * cy c + cz a * cz c.
Definition generic_cartesian_stepper_set_coeffs (a_x a_y a_z : A) (cs : stepper_kinematics A (coord A))
    : stepper_kinematics A (coord A) :=
  let flags := if nonzero a_x then Z.lor 0 AF_X else 0 in
  let flags := if nonzero a_y then Z.lor flags AF_Y else flags in
  let flags := if nonzero a_z then Z.lor flags AF_Z else flags in
  cs <| container := mk_coord a_x a_y a_z |> <| active_flags := flags |>.
Definition generic_cartesian_stepper_alloc (a_x a_y a_z : A) : stepper_kinematics A (coord A) :=
  generic_cartesian_stepper_set_coeffs a_x a_y a_z
    ((sk_zero (mk_coord (nint 0) (nint 0) (nint 0)))
       <| calc_position_cb := on_move generic_cartesian_stepper_calc_position |>).

(** ** Polar and rotary delta: [atan2], [cos], [sin] and pi are of the C library *)

Section trigonometry.
Context (atan2 : A -> A -> A) (cos sin : A -> A) (M_PI : A).

Definition polar_stepper_radius_calc_position (_ : unit) (_ : A) (m : move A) (move_time : A) : A :=
  let c := move_get_coord m move_time in nsqrt (cx c * cx c + cy c * cy c).
Definition polar_stepper_angle_calc_position (_ : unit) (commanded_pos : A) (m : move A) (move_time : A) : A :=
  let c := move_get_coord m move_time in
  let angle := atan2 (cy c) (cx c) in
  if M_PI <? angle - commanded_pos then angle - nint 2 * M_PI
  else if angle - commanded_pos <? nneg M_PI then angle + nint 2 * M_PI
  else angle.
Definition polar_stepper_angle_post_fixup (u : unit) (commanded_pos : A) : unit * A :=
  (u, if commanded_pos <? nneg M_PI then commanded_pos + nint 2 * M_PI
      else if M_PI <? commanded_pos then commanded_pos - nint 2 * M_PI else commanded_pos).
Definition polar_stepper_alloc (type : string) : stepper_kinematics A unit :=
  let sk := sk_zero tt in
  let sk := if bool_decide (type = "r"%string)
            then sk <| calc_position_cb := on_move polar_stepper_radius_calc_position |>
            else if bool_decide (type = "a"%string)
            then sk <| calc_position_cb := on_move polar_stepper_angle_calc_position |>
                    <| post_cb := Some polar_stepper_angle_post_fixup |>
            else sk in
  sk <| active_flags := Z.lor AF_X AF_Y |>.

Definition rotary_two_arm_calc (dx dy upper_arm2 lower_arm2 : A) : A :=
  let inv_dy := nint 1 / dy in
  let c1 := nlit 1 2 * inv_dy * (dx * dx + dy * dy + upper_arm2 - lower_arm2) in
  let c2 := dx * inv_dy in
  let scale := c2 * c2 + nint 1 in
  let scaled_elbow_x := c1 * c2 + nsqrt (scale * upper_arm2 - c1 * c1) in
  let scaled_elbow_y := c1 * scale - c2 * scaled_elbow_x in
  atan2 scaled_elbow_y scaled_elbow_x.

Record rotary_stepper := mk_rotary_stepper {
  rs_cos : A; rs_sin : A; shoulder_radius : A; shoulder_height : A; upper_arm2 : A; lower_arm2 : A }.
Definition rotary_stepper_calc_position (rs : rotary_stepper) (_ : A) (m : move A) (move_time : A) : A :=
  let c := move_get_coord m move_time in
  let sjz := cy c * rs_cos rs - cx c * rs_sin rs in
  let sjx := cx c * rs_cos rs + cy c * rs_sin rs - shoulder_radius rs in
  let sjy := cz c - shoulder_height rs in
  rotary_two_arm_calc sjx sjy (upper_arm2 rs) (lower_arm2 rs - sjz * sjz).
Definition rotary_delta_stepper_alloc (shoulder_radius shoulder_height angle upper_arm lower_arm : A)
    : stepper_kinematics A rotary_stepper :=
  (sk_zero (mk_rotary_stepper (cos angle) (sin angle) shoulder_radius shoulder_height
     (upper_arm * upper_arm) (lower_arm * lower_arm)))
    <| calc_position_cb := on_move rotary_stepper_calc_position |>
    <| active_flags := Z.lor (Z.lor AF_X AF_Y) AF_Z |>.
End trigonometry.

(** ** Dual carriages: a kinematics on a scaled and shifted place *)

Definition DUMMY_T : A := nint 500.

(** The scratch move of the container: [move_t] is 1000, the rest zero but for
    [start_pos]. *)
Definition dummy_move (pos : coord A) : move A := move_alloc <| move_t := nint 2 * DUMMY_T |> <| start_pos := pos |>.
Definition orig_position {P} (orig : stepper_kinematics A P) (pos : coord A) : option A :=
  calc_position_cb orig (container orig) (commanded_pos orig) [dummy_move pos] 0 DUMMY_T.

(** [orig_sk] is [None] before [dual_carriage_set_sk]. *)
Record dual_carriage_stepper (P : Type) := mk_dual_carriage_stepper {
  dc_orig_sk : option (stepper_kinematics A P);
  x_scale : A; x_offs : A; y_scale : A; y_offs : A }.
Arguments mk_dual_carriage_stepper {P}. Arguments dc_orig_sk {P}. Arguments x_scale {P}.
Arguments x_offs {P}. Arguments y_scale {P}. Arguments y_offs {P}.
#[export] Instance eta_dual_carriage_stepper P : Eta (dual_carriage_stepper P) := fun d =>
  mk_dual_carriage_stepper (dc_orig_sk d) (x_scale d) (x_offs d) (y_scale d) (y_offs d).

Definition dual_carriage_calc_position {P} (dc : dual_carriage_stepper P) (_ : A) (l : list (move A)) (i : nat)
    (move_time : A) : option A :=
  m ← l !! i;
  orig ← dc_orig_sk dc;
  let pos := move_get_coord m move_time in
  orig_position orig (mk_coord (cx pos * x_scale dc + x_offs dc) (cy pos * y_scale dc + y_offs dc) (cz pos)).

Definition dual_carriage_set_sk {P} (orig : stepper_kinematics A P)
    (sk : stepper_kinematics A (dual_carriage_stepper P)) : stepper_kinematics A (dual_carriage_stepper P) :=
  sk <| calc_position_cb := dual_carriage_calc_position |> <| active_flags := active_flags orig |>
     <| container ::= fun dc => dc <| dc_orig_sk := Some orig |> |>.

(** The flags of an axis: removed for a zero scale, restored if the original
    kinematics has them.  [None] is a NULL [orig_sk]. *)
Definition scale_flags {P} (scale : A) (flag : Z) (sk : stepper_kinematics A (dual_carriage_stepper P)) : option Z :=
  if nonzero scale then
    orig ← dc_orig_sk (container sk);
    Some (if has flag (active_flags orig) then Z.lor (active_flags sk) flag else active_flags sk)
  else Some (Z.ldiff (active_flags sk) flag).

Definition dual_carriage_set_transform {P} (axis : string) (scale offs : A)
    (sk : stepper_kinematics A (dual_carriage_stepper P))
    : option (Z * stepper_kinematics A (dual_carriage_stepper P)) :=
  if bool_decide (axis = "x"%string) then
    let sk := sk <| container ::= fun dc => dc <| x_scale := scale |> <| x_offs := offs |> |> in
    flags ← scale_flags scale AF_X sk; Some (0, sk <| active_flags := flags |>)
  else if bool_decide (axis = "y"%string) then
    let sk := sk <| container ::= fun dc => dc <| y_scale := scale |> <| y_offs := offs |> |> in
    flags ← scale_flags scale AF_Y sk; Some (0, sk <| active_flags := flags |>)
  else Some (-1, sk).

Definition dual_carriage_alloc (P : Type) : stepper_kinematics A (dual_carriage_stepper P) :=
  sk_zero (mk_dual_carriage_stepper None (nint 1) (nint 0) (nint 1) (nint 0)).
End kinematics.
Arguments mk_dual_carriage_stepper {A P}. Arguments dc_orig_sk {A P}. Arguments x_scale {A P}.
Arguments x_offs {A P}. Arguments y_scale {A P}. Arguments y_offs {A P}. Arguments dual_carriage_stepper A P : clear implicits.

(** ** What the solver relies on, in exact arithmetic *)

Section exact.
Local Open Scope R_scope.

(** The position is defined and continuous on every move, and a move that does
    not concern the stepper leaves it where it is. *)
Definition kin_ok {P} (sk : stepper_kinematics R P) : Prop :=
  forall l i m, l !! i = Some m -> exists pos, continuity pos /\
    (forall t, calc_position_cb sk (container sk) (commanded_pos sk) l i t = Some (pos t)) /\
    (check_active sk m = false -> forall t, pos t = pos 0).

Lemma continuity_sqrt : continuity sqrt.
Proof.
  intros x. destruct (Rle_dec 0 x) as [H|H]; [by apply continuity_pt_sqrt|].
  intros eps He. exists (- x). split; [lra|]. intros y [_ Hy]. cbn in *. unfold Rdist in *.
  rewrite (sqrt_neg_0 x), (sqrt_neg_0 y) by (apply Rabs_def2 in Hy; lra). rewrite Rminus_0_r, Rabs_R0. lra.
Qed.

(** Coordinates of a move are polynomials of time. *)
Lemma continuity_coord (m : move R) :
  continuity (fun t => cx (move_get_coord m t)) /\ continuity (fun t => cy (move_get_coord m t)) /\
  continuity (fun t => cz (move_get_coord m t)).
Proof. unfold move_get_coord, move_get_distance. cbn. split_and!; reg. Qed.

(** A coordinate along which the move does not go. *)
Lemma still_coord (m : move R) t :
  (cx (axes_r m) = 0 -> cx (move_get_coord m t) = cx (move_get_coord m 0)) /\
  (cy (axes_r m) = 0 -> cy (move_get_coord m t) = cy (move_get_coord m 0)) /\
  (cz (axes_r m) = 0 -> cz (move_get_coord m t) = cz (move_get_coord m 0)).
Proof. unfold move_get_coord. cbn. split_and!; intros ->; lra. Qed.

Lemma check_active_false {P} (sk : stepper_kinematics R P) m :
  check_active sk m = false ->
  (has AF_X (active_flags sk) = true -> cx (axes_r m) = 0) /\
  (has AF_Y (active_flags sk) = true -> cy (axes_r m) = 0) /\
  (has AF_Z (active_flags sk) = true -> cz (axes_r m) = 0).
Proof.
  unfold check_active. rewrite !orb_false_iff, !andb_false_iff. intros [[H1 H2] H3].
  split_and!; intros Hf; [destruct H1 as [H|H]|destruct H2 as [H|H]|destruct H3 as [H|H]]; try congruence.
  all: match type of H with nonzero ?x = false => destruct (nonzeroP x) as [|Hn]; [done|] end.
  all: apply Rnot_gt_ge in Hn || (match goal with |- ?x = 0 => destruct (Req_dec x 0); tauto end).
Qed.

Lemma cont_plus f g : continuity f -> continuity g -> continuity (fun t => f t + g t).
Proof. apply continuity_plus. Qed.
Lemma cont_minus f g : continuity f -> continuity g -> continuity (fun t => f t - g t).
Proof. apply continuity_minus. Qed.
Lemma cont_mult f g : continuity f -> continuity g -> continuity (fun t => f t * g t).
Proof. apply continuity_mult. Qed.
Lemma cont_sqrt f : continuity f -> continuity (fun t => sqrt (f t)).
Proof. intros Hf. apply (continuity_comp f sqrt Hf continuity_sqrt). Qed.
Lemma cont_const c : continuity (fun _ => c).
Proof. apply continuity_const. by intros ??. Qed.

(** The position is a function of the place of the toolhead: it moves
    continuously with it, and depends only on the coordinates that the flags
    name. *)
Record place_kin {P} (sk : stepper_kinematics R P) (g : coord R -> R) : Prop := {
  pk_place : forall l i m t, l !! i = Some m ->
    calc_position_cb sk (container sk) (commanded_pos sk) l i t = Some (g (move_get_coord m t));
  pk_continuous : forall x y z, continuity x -> continuity y -> continuity z ->
    continuity (fun t => g (mk_coord (x t) (y t) (z t)));
  pk_flags : forall p q, (has AF_X (active_flags sk) = true -> cx p = cx q) ->
    (has AF_Y (active_flags sk) = true -> cy p = cy q) -> (has AF_Z (active_flags sk) = true -> cz p = cz q) ->
    g p = g q }.

Lemma place_kin_ok {P} (sk : stepper_kinematics R P) g : place_kin sk g -> kin_ok sk.
Proof.
  intros [Hp Hc Hf] l i m Hm. exists (fun t => g (move_get_coord m t)). split_and!.
  - destruct (continuity_coord m) as (Hx & Hy & Hz). exact (Hc _ _ _ Hx Hy Hz).
  - intros t. by apply Hp.
  - intros Ha t. apply check_active_false in Ha as (Ax & Ay & Az). destruct (still_coord m t) as (Sx & Sy & Sz).
    apply Hf; auto.
Qed.

Lemma on_move_place {P} (sk : stepper_kinematics R P) f g :
  calc_position_cb sk = on_move f ->
  (forall m t, f (container sk) (commanded_pos sk) m t = g (move_get_coord m t)) ->
  forall l i m t, l !! i = Some m ->
  calc_position_cb sk (container sk) (commanded_pos sk) l i t = Some (g (move_get_coord m t)).
Proof. intros -> Hf l i m t Hm. unfold on_move. rewrite Hm. cbn. by rewrite Hf. Qed.

Definition delta_place (arm2 tower_x tower_y : R) (c : coord R) : R :=
  sqrt (arm2 - (tower_x - cx c) * (tower_x - cx c) - (tower_y - cy c) * (tower_y - cy c)) + cz c.
Definition deltesian_place (arm2 arm_x : R) (c : coord R) : R :=
  sqrt (arm2 - (cx c - arm_x) * (cx c - arm_x)) + cz c.
Definition winch_place (x y z : R) (c : coord R) : R :=
  sqrt ((x - cx c) * (x - cx c) + (y - cy c) * (y - cy c) + (z - cz c) * (z - cz c)).
Definition radius_place (c : coord R) : R := sqrt (cx c * cx c + cy c * cy c).

(** The three obligations. *)
Ltac kin_cont :=
  intros ? ? ? ? ? ?; unfold delta_place, deltesian_place, winch_place, radius_place; cbn;
  repeat first
    [ eassumption | apply cont_const | apply cont_minus | apply cont_plus | apply cont_mult | apply cont_sqrt ].
Ltac kin_flags :=
  let p := fresh "p" in let q := fresh "q" in
  intros p q Hx Hy Hz; unfold delta_place, deltesian_place, winch_place, radius_place; cbn;
  rewrite ?Hx, ?Hy, ?Hz by reflexivity; reflexivity.
Ltac kin :=
  match goal with |- place_kin ?sk ?g =>
    refine (Build_place_kin _ sk g (on_move_place sk _ g eq_refl (fun _ _ => eq_refl)) _ _); [kin_cont|kin_flags]
  end.

Lemma cartesian_place :
  place_kin (cartesian_stepper_alloc "x") cx /\ place_kin (cartesian_stepper_alloc "y") cy /\
  place_kin (cartesian_stepper_alloc "z") cz.
Proof. split_and!; kin. Qed.

Lemma corexy_place :
  place_kin (corexy_stepper_alloc "+") (fun c => cx c + cy c) /\
  place_kin (corexy_stepper_alloc "-") (fun c => cx c - cy c).
Proof. split; kin. Qed.

Lemma corexz_place :
  place_kin (corexz_stepper_alloc "+") (fun c => cx c + cz c) /\
  place_kin (corexz_stepper_alloc "-") (fun c => cx c - cz c).
Proof. split; kin. Qed.

Lemma delta_ok arm2 tower_x tower_y :
  place_kin (delta_stepper_alloc arm2 tower_x tower_y) (delta_place arm2 tower_x tower_y).
Proof. kin. Qed.

Lemma deltesian_ok arm2 arm_x : place_kin (deltesian_stepper_alloc arm2 arm_x) (deltesian_place arm2 arm_x).
Proof. kin. Qed.

Lemma winch_ok x y z : place_kin (winch_stepper_alloc x y z) (winch_place x y z).
Proof. kin. Qed.

Lemma polar_radius_ok atan2 pi : place_kin (polar_stepper_alloc atan2 pi "r") radius_place.
Proof. kin. Qed.

(** *** Generic cartesian and dual carriages *)

Lemma coeff_flags (a_x a_y a_z : R) :
  let sk := generic_cartesian_stepper_alloc a_x a_y a_z in
  has AF_X (active_flags sk) = nonzero a_x /\ has AF_Y (active_flags sk) = nonzero a_y /\
  has AF_Z (active_flags sk) = nonzero a_z.
Proof.
  unfold generic_cartesian_stepper_alloc, generic_cartesian_stepper_set_coeffs. cbn [active_flags set].
  by destruct (nonzero a_x), (nonzero a_y), (nonzero a_z).
Qed.

Lemma coeff_mult (a u v : R) : (nonzero a = true -> u = v) -> a * u = a * v.
Proof.
  intros H. destruct (nonzeroP a) as [|Hn]; [by rewrite H|]. destruct (Req_dec a 0) as [->|]; [lra|tauto].
Qed.

Lemma generic_cartesian_place a_x a_y a_z :
  place_kin (generic_cartesian_stepper_alloc a_x a_y a_z) (fun c => a_x * cx c + a_y * cy c + a_z * cz c).
Proof.
  refine (Build_place_kin _ (generic_cartesian_stepper_alloc a_x a_y a_z) _
    (on_move_place (generic_cartesian_stepper_alloc a_x a_y a_z) _ (fun c => a_x * cx c + a_y * cy c + a_z * cz c) eq_refl
    (fun _ _ => eq_refl)) _ _); [kin_cont|].
  destruct (coeff_flags a_x a_y a_z) as (-> & -> & ->). intros p q Hx Hy Hz.
  by rewrite (coeff_mult a_x _ _ Hx), (coeff_mult a_y _ _ Hy), (coeff_mult a_z _ _ Hz).
Qed.

(** The place a carriage is at when the toolhead is at [c]. *)
Definition carriage_place {P} (dc : dual_carriage_stepper R P) (c : coord R) : coord R :=
  mk_coord (cx c * x_scale dc + x_offs dc) (cy c * y_scale dc + y_offs dc) (cz c).

Lemma orig_position_place {P} (orig : stepper_kinematics R P) g pos :
  place_kin orig g -> orig_position orig pos = Some (g pos).
Proof.
  intros Hk. unfold orig_position. rewrite (pk_place _ _ Hk [dummy_move pos] 0 (dummy_move pos)) by done.
  f_equal. apply (pk_flags _ _ Hk); intros _; unfold move_get_coord; cbn; lra.
Qed.

(** A dual carriage whose flags name the coordinates it follows: those of the
    original kinematics with a scale that is not zero. *)
Definition carriage_flags {P} (orig : stepper_kinematics R P) (sk : stepper_kinematics R (dual_carriage_stepper R P)) : Prop :=
  let dc := container sk in
  (has AF_X (active_flags orig) = true -> nonzero (x_scale dc) = true -> has AF_X (active_flags sk) = true) /\
  (has AF_Y (active_flags orig) = true -> nonzero (y_scale dc) = true -> has AF_Y (active_flags sk) = true) /\
  (has AF_Z (active_flags orig) = true -> has AF_Z (active_flags sk) = true).

Lemma dual_carriage_place {P} (orig : stepper_kinematics R P) g (sk : stepper_kinematics R (dual_carriage_stepper R P)) :
  place_kin orig g -> calc_position_cb sk = dual_carriage_calc_position -> dc_orig_sk (container sk) = Some orig ->
  carriage_flags orig sk -> place_kin sk (fun c => g (carriage_place (container sk) c)).
Proof.
  intros Hk Hcb Ho (Fx & Fy & Fz). split.
  - intros l i m t Hm. rewrite Hcb. unfold dual_carriage_calc_position. rewrite Hm, Ho. cbn -[orig_position].
    by rewrite (orig_position_place orig g).
  - intros x y z Hx Hy Hz. unfold carriage_place. cbn. apply (pk_continuous _ _ Hk); [| |done].
    + apply cont_plus; [apply cont_mult; [done|apply cont_const]|apply cont_const].
    + apply cont_plus; [apply cont_mult; [done|apply cont_const]|apply cont_const].
  - intros p q Hx Hy Hz. apply (pk_flags _ _ Hk); unfold carriage_place; cbn; intros Hf; [| |auto].
    + rewrite !(Rmult_comm _ (x_scale _)). f_equal. apply coeff_mult. auto.
    + rewrite !(Rmult_comm _ (y_scale _)). f_equal. apply coeff_mult. auto.
Qed.

Lemma has_lor f a b : has f (Z.lor a b) = has f a || has f b.
Proof.
  unfold has, truthy. rewrite Z.land_lor_distr_l.
  destruct (Z.eqb_spec (Z.lor (Z.land a f) (Z.land b f)) 0%Z) as [E|E].
  - by apply Z.lor_eq_0_iff in E as [-> ->].
  - destruct (Z.eqb_spec (Z.land a f) 0%Z), (Z.eqb_spec (Z.land b f) 0%Z); try done.
    exfalso. apply E. by apply Z.lor_eq_0_iff.
Qed.

Lemma has_ldiff_other f g a : Z.land f g = 0%Z -> has f (Z.ldiff a g) = has f a.
Proof.
  intros H. unfold has, truthy. do 2 f_equal. apply Z.bits_inj'. intros n Hn. rewrite !Z.land_spec, Z.ldiff_spec.
  apply (f_equal (fun x => Z.testbit x n)) in H. rewrite Z.land_spec, Z.bits_0 in H.
  destruct (Z.testbit f n), (Z.testbit g n), (Z.testbit a n); done.
Qed.

(** The flags stay right through changes of the transform. *)
Lemma set_transform_flags {P} (orig : stepper_kinematics R P) axis scale offs sk r sk' :
  dc_orig_sk (container sk) = Some orig -> carriage_flags orig sk ->
  dual_carriage_set_transform axis scale offs sk = Some (r, sk') ->
  carriage_flags orig sk' /\ dc_orig_sk (container sk') = Some orig /\ calc_position_cb sk' = calc_position_cb sk.
Proof.
  intros Ho (Fx & Fy & Fz) E. unfold dual_carriage_set_transform in E.
  destruct (bool_decide (axis = "x"%string)); [|destruct (bool_decide (axis = "y"%string))].
  1-2: unfold scale_flags in E; cbn in E; rewrite Ho in E; cbn in E.
  3: { injection E as _ <-. done. }
  all: unfold carriage_flags; destruct (nonzero scale) eqn:En; injection E as _ <-; cbn; rewrite ?En; (split; [|done]).
  - destruct (has AF_X (active_flags orig)); rewrite ?has_lor, ?orb_true_iff; intuition done.
  - rewrite (has_ldiff_other AF_Y), (has_ldiff_other AF_Z) by done. intuition done.
  - destruct (has AF_Y (active_flags orig)); rewrite ?has_lor, ?orb_true_iff; intuition done.
  - rewrite (has_ldiff_other AF_X), (has_ldiff_other AF_Z) by done. intuition done.
Qed.

(** *** Geometry *)

(** The arm of a delta reaches from the carriage to the toolhead. *)
Lemma delta_arm_length arm2 tx ty c :
  (tx - cx c) * (tx - cx c) + (ty - cy c) * (ty - cy c) <= arm2 ->
  let carriage := delta_place arm2 tx ty c in
  (carriage - cz c) * (carriage - cz c) + (tx - cx c) * (tx - cx c) + (ty - cy c) * (ty - cy c) = arm2.
Proof.
  intros Hle carriage. unfold carriage, delta_place.
  match goal with |- context [sqrt ?x] => pose proof (sqrt_def x ltac:(lra)) as Hs; set (s := sqrt x) in * end. nra.
Qed.

(** Every kinematics without trigonometry serves the iterative solver, in exact
    arithmetic in which the root of a negative number is zero: the position of the
    stepper is continuous on every move, and does not change during a move that
    [check_active] reports not to concern it.  A dual carriage inherits this from the kinematics it transforms,
    if its flags name the coordinates with a scale that is not zero, which
    [dual_carriage_set_transform] keeps. *)
Theorem kinematics_sound :
  (forall axis, axis ∈ ["x"; "y"; "z"]%string -> kin_ok (cartesian_stepper_alloc axis)) /\
  (forall type, type ∈ ["+"; "-"]%string -> kin_ok (corexy_stepper_alloc type) /\ kin_ok (corexz_stepper_alloc type)) /\
  (forall arm2 tx ty, kin_ok (delta_stepper_alloc arm2 tx ty)) /\
  (forall arm2 ax, kin_ok (deltesian_stepper_alloc arm2 ax)) /\
  (forall x y z, kin_ok (winch_stepper_alloc x y z)) /\
  (forall atan2 pi, kin_ok (polar_stepper_alloc atan2 pi "r")) /\
  (forall a_x a_y a_z, kin_ok (generic_cartesian_stepper_alloc a_x a_y a_z)) /\
  (forall P (orig : stepper_kinematics R P) g sk, place_kin orig g ->
     calc_position_cb sk = dual_carriage_calc_position -> dc_orig_sk (container sk) = Some orig ->
     carriage_flags orig sk -> kin_ok sk /\
     forall axis scale offs r sk', dual_carriage_set_transform axis scale offs sk = Some (r, sk') -> kin_ok sk').
Proof.
  split_and!.
  - intros axis. rewrite !elem_of_cons. destruct cartesian_place as (Hx & Hy & Hz).
    intros [->|[->|[->|[]%not_elem_of_nil]]]; eapply place_kin_ok; eassumption.
  - intros type. rewrite !elem_of_cons. destruct corexy_place as [? ?], corexz_place as [? ?].
    intros [->|[->|[]%not_elem_of_nil]]; split; eapply place_kin_ok; eassumption.
  - intros. eapply place_kin_ok, delta_ok.
  - intros. eapply place_kin_ok, deltesian_ok.
  - intros. eapply place_kin_ok, winch_ok.
  - intros. eapply place_kin_ok, polar_radius_ok.
  - intros. eapply place_kin_ok, generic_cartesian_place.
  - intros P orig g sk Hk Hcb Ho Hf. split; [eapply place_kin_ok, dual_carriage_place; eassumption|].
    intros axis scale offs r sk' E. destruct (set_transform_flags orig axis scale offs sk r sk' Ho Hf E) as (Hf' & Ho' & Hc).
    eapply place_kin_ok, dual_carriage_place; try eassumption. congruence.
Qed.
End exact.
