(* ===== verification/Shaper.v ===== *)
(** * Input shapers (klippy/chelper/kin_shaper.c)

    An input shaper replaces the motion of an axis by a weighted mean of the motion
    at a few shifted times, its pulses. *)

From stdpp Require Import sorting.
From Stdlib Require Import Reals Lra Sorted.
From S2P Require Import Prelude Double Numeric Trapq Itersolve Kinematics.

(** [pulses] has the [num_pulses] pulses that are in use, as time and weight. *)
Record shaper_pulses (A : Type) := mk_shaper_pulses {
  p_ind : nat;
  pulses : list (A * A) }.
Arguments mk_shaper_pulses {A}. Arguments p_ind {A}. Arguments pulses {A}.
#[export] Instance eta_shaper_pulses A : Eta (shaper_pulses A) := fun p => mk_shaper_pulses (p_ind p) (pulses p).
Definition num_pulses {A} (sp : shaper_pulses A) : nat := length (pulses sp).

(** The container of a shaped stepper.  [is_m] is the place in the scratch move:
    the callback of a single axis leaves the other coordinates, which the original
    kinematics of that axis does not read, as they are. *)
Record input_shaper (A P : Type) := mk_input_shaper {
  is_orig_sk : option (stepper_kinematics A P);
  is_m : coord A;
  sp_x : shaper_pulses A;
  sp_y : shaper_pulses A;
  sp_z : shaper_pulses A }.
Arguments mk_input_shaper {A P}. Arguments is_orig_sk {A P}. Arguments is_m {A P}. Arguments sp_x {A P}.
Arguments sp_y {A P}. Arguments sp_z {A P}.
#[export] Instance eta_input_shaper A P : Eta (input_shaper A P) := fun s =>
  mk_input_shaper (is_orig_sk s) (is_m s) (sp_x s) (sp_y s) (sp_z s).

Section shaper.
Context {A : Type} `{Num A}.
Local Open Scope num_scope.

Definition MAX_PULSES : Z := 10.

(** The place of the first pulse with positive time. *)
Fixpoint first_positive (l : list (A * A)) : nat :=
  match l with
  | [] => O
  | (t, _) :: l => if nint 0 <? t then O else S (first_positive l)
  end.

Definition shift_pulses (sp : shaper_pulses A) : shaper_pulses A :=
  let ts := foldl (fun ts p => ts + p.2 * p.1) (nint 0) (pulses sp) in
  let l := (fun p => (p.1 - ts, p.2)) <$> pulses sp in
  mk_shaper_pulses (first_positive l) l.

Fixpoint increasing (t : list A) : bool :=
  match t with
  | t1 :: (t2 :: _) as rest => if t2 <=? t1 then false else increasing rest
  | _ => true
  end.

(** [n] pulses with weights [a] and times [t]. *)
Definition init_shaper (n : Z) (a t : list A) (sp : shaper_pulses A) : Z * shaper_pulses A :=
  if (n <? 0)%Z || (MAX_PULSES <? n)%Z then (-1, sp <| pulses := [] |>) else
  let a := take (Z.to_nat n) a in
  let t := take (Z.to_nat n) t in
  if negb (increasing t) then (-1, sp) else
  let sum_a := foldl nadd (nint 0) a in
  let inv_a := nint 1 / sum_a in
  let l := reverse (zip_with (fun a t => (nneg t, a * inv_a)) a t) in
  (0, shift_pulses (sp <| pulses := l |>)).

(** [axis - 'x'] *)
Inductive axis : Type := X | Y | Z_.
Definition get_axis (ax : axis) (c : coord A) : A := match ax with X => cx c | Y => cy c | Z_ => cz c end.
Definition get_axis_position (m : move A) (ax : axis) (move_time : A) : A :=
  get_axis ax (start_pos m) + get_axis ax (axes_r m) * move_get_distance m move_time.

(** [while (t < 0.) { prev = prev(prev); t += prev->move_t; }] *)
Fixpoint walk_prev (l : list (move A)) (i : nat) (t : A) : option (nat * A) :=
  if t <? nint 0 then
    match i with
    | O => None
    | S i => match l !! i with None => None | Some m => walk_prev l i (t + move_t m) end
    end
  else Some (i, t).
(** [while (t > m->move_t) { t -= m->move_t; m = next(m); }] over the moves left. *)
Fixpoint walk_next (rest : list (move A)) (i : nat) (t : A) : option (nat * A) :=
  match rest with
  | [] => None
  | m :: rest => if move_t m <? t then walk_next rest (S i) (t - move_t m) else Some (i, t)
  end.

(** The loops over the pulses before and after the move's time. *)
Fixpoint sum_before (l : list (move A)) (ax : axis) (ps : list (A * A)) (i : nat) (t res : A) : option A :=
  match ps with
  | [] => Some res
  | (pt, a) :: ps =>
    '(i, t) ← walk_prev l i (t + pt);
    m ← l !! i;
    sum_before l ax ps i (t - pt) (res + a * get_axis_position m ax t)
  end.
Fixpoint sum_after (l : list (move A)) (ax : axis) (ps : list (A * A)) (i : nat) (t res : A) : option A :=
  match ps with
  | [] => Some res
  | (pt, a) :: ps =>
    '(i, t) ← walk_next (drop i l) i (t + pt);
    m ← l !! i;
    sum_after l ax ps i (t - pt) (res + a * get_axis_position m ax t)
  end.

(** [None] is a walk off the list of moves. *)
Definition calc_position (l : list (move A)) (i : nat) (ax : axis) (move_time : A) (sp : shaper_pulses A)
    : option A :=
  res ← sum_before l ax (reverse (take (p_ind sp) (pulses sp))) i move_time (nint 0);
  sum_after l ax (drop (p_ind sp) (pulses sp)) i move_time res.

(** ** The callbacks *)

Section callbacks.
Context {P : Type}.
Implicit Types shp : input_shaper A P.

Definition no_pulses (sp : shaper_pulses A) : bool := (num_pulses sp =? 0)%nat.

(** The original kinematics on the move itself, or at a place. *)
Definition unshaped shp (l : list (move A)) (i : nat) (t : A) : option A :=
  orig ← is_orig_sk shp; calc_position_cb orig (container orig) (commanded_pos orig) l i t.
Definition shaped_at shp (pos : coord A) : option A :=
  orig ← is_orig_sk shp; orig_position orig pos.

Definition shaper_x_calc_position shp (_ : A) (l : list (move A)) (i : nat) (t : A) : option A :=
  if no_pulses (sp_x shp) then unshaped shp l i t
  else x ← calc_position l i X t (sp_x shp); shaped_at shp ((is_m shp) <| cx := x |>).
Definition shaper_y_calc_position shp (_ : A) (l : list (move A)) (i : nat) (t : A) : option A :=
  if no_pulses (sp_y shp) then unshaped shp l i t
  else y ← calc_position l i Y t (sp_y shp); shaped_at shp ((is_m shp) <| cy := y |>).
Definition shaper_z_calc_position shp (_ : A) (l : list (move A)) (i : nat) (t : A) : option A :=
  if no_pulses (sp_z shp) then unshaped shp l i t
  else z ← calc_position l i Z_ t (sp_z shp); shaped_at shp ((is_m shp) <| cz := z |>).
Definition shaper_xyz_calc_position shp (_ : A) (l : list (move A)) (i : nat) (t : A) : option A :=
  if no_pulses (sp_x shp) && no_pulses (sp_y shp) && no_pulses (sp_z shp) then unshaped shp l i t else
  m ← l !! i;
  let pos := move_get_coord m t in
  x ← (if no_pulses (sp_x shp) then Some (cx pos) else calc_position l i X t (sp_x shp));
  y ← (if no_pulses (sp_y shp) then Some (cy pos) else calc_position l i Y t (sp_y shp));
  z ← (if no_pulses (sp_z shp) then Some (cz pos) else calc_position l i Z_ t (sp_z shp));
  shaped_at shp (mk_coord x y z).

(** A NULL [orig_sk] or callback is not reached: the fixup is only set for an
    original kinematics that has one. *)
Definition shaper_commanded_pos_post_fixup shp (commanded_pos : A) : input_shaper A P * A :=
  match is_orig_sk shp with
  | Some orig =>
    match post_cb orig with
    | Some post =>
      let '(c, pos) := post (container orig) commanded_pos in
      (shp <| is_orig_sk := Some (orig <| container := c |> <| Itersolve.commanded_pos := pos |>) |>, pos)
    | None => (shp, commanded_pos)
    end
  | None => (shp, commanded_pos)
  end.

(** The last and the first pulse, zero without any. *)
Definition last_t (sp : shaper_pulses A) : A := default (nint 0) (fst <$> last (pulses sp)).
Definition first_t (sp : shaper_pulses A) : A := default (nint 0) (fst <$> head (pulses sp)).

(** [a > b ? a : b] *)
Definition larger (a b : A) : A := if b <? a then a else b.

Definition shaper_note_generation_time (sk : stepper_kinematics A (input_shaper A P))
    : stepper_kinematics A (input_shaper A P) :=
  let shp := container sk in
  let on flag sp := has flag (active_flags sk) && negb (no_pulses sp) in
  let pre := if on AF_X (sp_x shp) then last_t (sp_x shp) else nint 0 in
  let post := if on AF_X (sp_x shp) then nneg (first_t (sp_x shp)) else nint 0 in
  let '(pre, post) := if on AF_Y (sp_y shp)
    then (larger (last_t (sp_y shp)) pre, larger (nneg (first_t (sp_y shp))) post) else (pre, post) in
  let '(pre, post) := if on AF_Z (sp_z shp)
    then (larger (last_t (sp_z shp)) pre, larger (nneg (first_t (sp_z shp))) post) else (pre, post) in
  sk <| gen_steps_pre_active := pre |> <| gen_steps_post_active := post |>.

Definition AF_XYZ : Z := Z.lor (Z.lor AF_X AF_Y) AF_Z.

(** The callback for the flags of the original kinematics. *)
Definition axis_callback (flags : Z) : input_shaper A P -> A -> list (move A) -> nat -> A -> option A :=
  if (flags =? AF_X)%Z then shaper_x_calc_position
  else if (flags =? AF_Y)%Z then shaper_y_calc_position
  else if (flags =? AF_Z)%Z then shaper_z_calc_position
  else shaper_xyz_calc_position.

(** [None] is a NULL [orig_sk]. *)
Definition input_shaper_update_sk (sk : stepper_kinematics A (input_shaper A P))
    : option (stepper_kinematics A (input_shaper A P)) :=
  orig ← is_orig_sk (container sk);
  let kin_flags := Z.land (active_flags orig) AF_XYZ in
  Some (shaper_note_generation_time
          (sk <| calc_position_cb := axis_callback kin_flags |> <| active_flags := active_flags orig |>)).

Definition input_shaper_set_sk (orig : stepper_kinematics A P) (sk : stepper_kinematics A (input_shaper A P))
    : Z * stepper_kinematics A (input_shaper A P) :=
  let fl := active_flags orig in
  if (fl =? AF_X)%Z || (fl =? AF_Y)%Z || (fl =? AF_Z)%Z || has AF_XYZ fl then
    let sk := sk <| calc_position_cb := axis_callback fl |> <| active_flags := fl |>
                 <| container ::= fun shp => shp <| is_orig_sk := Some orig |> |>
                 <| commanded_pos := commanded_pos orig |> <| last_flush_time := last_flush_time orig |>
                 <| last_move_time := last_move_time orig |> in
    (0, match post_cb orig with
        | Some _ => sk <| post_cb := Some shaper_commanded_pos_post_fixup |>
        | None => sk
        end)
  else (-1, sk).

Definition set_axis_shaper (ax : axis) (sp : shaper_pulses A) shp : input_shaper A P :=
  match ax with X => shp <| sp_x := sp |> | Y => shp <| sp_y := sp |> | Z_ => shp <| sp_z := sp |> end.
Definition get_axis_shaper (ax : axis) shp : shaper_pulses A :=
  match ax with X => sp_x shp | Y => sp_y shp | Z_ => sp_z shp end.
Definition KIN_FLAGS (ax : axis) : Z := match ax with X => AF_X | Y => AF_Y | Z_ => AF_Z end.

(** [ax] is [None] for a character other than x, y and z; the result is [None]
    for a NULL [orig_sk]. *)
Definition input_shaper_set_shaper_params (ax : option axis) (n : Z) (a t : list A)
    (sk : stepper_kinematics A (input_shaper A P)) : option (Z * stepper_kinematics A (input_shaper A P)) :=
  match ax with
  | None => Some (-1, sk)
  | Some ax =>
    orig ← is_orig_sk (container sk);
    if has (KIN_FLAGS ax) (active_flags orig) then
      let '(status, sp) := init_shaper n a t (get_axis_shaper ax (container sk)) in
      Some (status, shaper_note_generation_time (sk <| container ::= set_axis_shaper ax sp |>))
    else Some (0, sk)
  end.

Definition input_shaper_alloc : stepper_kinematics A (input_shaper A P) :=
  let none := mk_shaper_pulses 0 [] in sk_zero (mk_input_shaper None coord0 none none none).
End callbacks.
End shaper.

(** ** Exact shapers *)

Section exact.
Local Open Scope R_scope.

Definition rsum (l : list R) : R := foldr Rplus 0 l.

Lemma rsum_app l1 l2 : rsum (l1 ++ l2) = rsum l1 + rsum l2.
Proof. unfold rsum. induction l1 as [|x l1 IH]; cbn; [lra|]. rewrite IH. lra. Qed.
Lemma rsum_reverse l : rsum (reverse l) = rsum l.
Proof. induction l as [|x l IH]; [done|]. rewrite reverse_cons, rsum_app, IH. unfold rsum. cbn. lra. Qed.
Lemma foldl_sum {B} (f : B -> R) l acc : foldl (fun s b => s + f b) acc l = acc + rsum (f <$> l).
Proof.
  unfold rsum. revert acc. induction l as [|b l IH]; intros acc; cbn; [lra|]. rewrite IH. lra.
Qed.

(** Weight and weighted time of pulses. *)
Definition weight (ps : list (R * R)) : R := rsum (snd <$> ps).
Definition moment (ps : list (R * R)) : R := rsum ((fun p => p.2 * p.1) <$> ps).

(** A normalised shaper: the weights add up to 1, the mean time is 0, the times
    increase and [p_ind] is the place of the first positive one. *)
Record shaper_ok (sp : shaper_pulses R) : Prop := {
  so_weight : weight (pulses sp) = 1;
  so_moment : moment (pulses sp) = 0;
  so_sorted : StronglySorted (fun p q => p.1 < q.1) (pulses sp);
  so_before : Forall (fun p => p.1 <= 0) (take (p_ind sp) (pulses sp));
  so_after : Forall (fun p => 0 < p.1) (drop (p_ind sp) (pulses sp)) }.

Lemma first_positive_spec (l : list (R * R)) :
  StronglySorted (fun p q => p.1 < q.1) l ->
  Forall (fun p => p.1 <= 0) (take (first_positive l) l) /\ Forall (fun p => 0 < p.1) (drop (first_positive l) l).
Proof.
  induction 1 as [|[t a] l Hs IH Hf]; [split; constructor|]. cbn [first_positive]. rewrite nint_R.
  destruct (nltP 0 t) as [Ht|Ht].
  - split; [constructor|]. cbn. constructor; [done|]. eapply Forall_impl; [exact Hf|]. cbn. intros p Hp. lra.
  - cbn. destruct IH as [IH1 IH2]. split; [constructor; [cbn; lra|done]|done].
Qed.

Lemma increasing_sorted (t : list R) : increasing t = true -> StronglySorted Rlt t.
Proof.
  intros Hi. apply Sorted_StronglySorted; [exact Rlt_trans|].
  induction t as [|t1 t IH]; [constructor|]. destruct t as [|t2 t]; [repeat constructor|].
  cbn [increasing] in Hi. destruct (nleP t2 t1); [done|]. constructor; [by apply IH|]. constructor. lra.
Qed.

Lemma pulses_sorted (a t : list R) (k : R) :
  StronglySorted Rlt t ->
  StronglySorted (fun p q => p.1 < q.1) (reverse (zip_with (fun a t => (- t, a * k)) a t)).
Proof.
  intros Hs. revert a. induction Hs as [|t0 t Hs IH Hf]; intros a.
  { rewrite zip_with_nil_r. constructor. }
  destruct a as [|a0 a]; [constructor|]. cbn [zip_with]. rewrite reverse_cons.
  apply StronglySorted_app_2; [|by apply IH|repeat constructor].
  intros p q Hp Hq. apply list_elem_of_singleton in Hq as ->. rewrite elem_of_reverse in Hp.
  apply elem_of_zip_with in Hp as (a1 & t1 & -> & _ & Ht1). cbn. rewrite Forall_forall in Hf. specialize (Hf t1 Ht1). lra.
Qed.

Lemma weight_scaled a t k : length a = length t ->
  weight (reverse (zip_with (fun a t => (- t, a * k)) a t)) = rsum a * k.
Proof.
  unfold weight. rewrite fmap_reverse, rsum_reverse. unfold rsum. revert t.
  induction a as [|a0 a IH]; intros [|t0 t] Hl; try done; cbn; [lra|]. rewrite IH by (cbn in Hl; lia). lra.
Qed.

Lemma shifted_weight ts ps : weight ((fun p => (p.1 - ts, p.2)) <$> ps) = weight ps.
Proof. unfold weight. rewrite <- list_fmap_compose. done. Qed.
Lemma shifted_moment ts ps : moment ((fun p => (p.1 - ts, p.2)) <$> ps) = moment ps - ts * weight ps.
Proof. unfold moment, weight, rsum. induction ps as [|[t a] ps IH]; cbn in *; [lra|]. rewrite IH. lra. Qed.
Lemma shifted_sorted ts ps :
  StronglySorted (fun p q : R * R => p.1 < q.1) ps ->
  StronglySorted (fun p q : R * R => p.1 < q.1) ((fun p => (p.1 - ts, p.2)) <$> ps).
Proof.
  induction 1 as [|p ps Hs IH Hf]; [constructor|]. cbn. constructor; [done|]. apply Forall_fmap.
  eapply Forall_impl; [exact Hf|]. cbn. intros q Hq. lra.
Qed.

Lemma shift_pulses_ok sp :
  weight (pulses sp) = 1 -> StronglySorted (fun p q => p.1 < q.1) (pulses sp) -> shaper_ok (shift_pulses sp).
Proof.
  intros Hw Hs. unfold shift_pulses. rewrite nint_R.
  assert (Ets : foldl (fun (ts : R) (p : R * R) => (ts + p.2 * p.1)%num) 0 (pulses sp) = moment (pulses sp)).
  { change (foldl (fun (ts : R) (p : R * R) => ts + p.2 * p.1) 0 (pulses sp) = moment (pulses sp)).
    rewrite (foldl_sum (fun p : R * R => p.2 * p.1)). unfold moment. lra. }
  rewrite Ets. set (ts := moment (pulses sp)).
  set (l := (fun p => ((p.1 - ts)%num, p.2)) <$> pulses sp).
  assert (Hl : StronglySorted (fun p q => p.1 < q.1) l) by (by apply shifted_sorted).
  destruct (first_positive_spec l Hl) as [Hb Ha].
  split; cbn; auto.
  - unfold l. change (weight ((fun p => (p.1 - ts, p.2)) <$> pulses sp) = 1). by rewrite shifted_weight.
  - unfold l. change (moment ((fun p => (p.1 - ts, p.2)) <$> pulses sp) = 0). rewrite shifted_moment, Hw. unfold ts. lra.
Qed.

(** A shaper that is accepted is normalised. *)
Lemma init_shaper_ok n a t sp sp' :
  (0 <= n)%Z -> length a = Z.to_nat n -> length t = Z.to_nat n -> rsum a <> 0 ->
  init_shaper n a t sp = (0%Z, sp') -> shaper_ok sp'.
Proof.
  intros Hn Ha Ht Hsum E. unfold init_shaper in E. destruct (_ || _); [done|].
  rewrite !take_ge in E by lia. destruct (increasing t) eqn:Ei; cbn [negb] in E; [|done]. injection E as <-.
  apply shift_pulses_ok.
  - assert (Es : foldl nadd (nint 0) a = rsum a).
    { change (foldl (fun s b : R => s + id b) (nint 0) a = rsum a). rewrite foldl_sum, nint_R, list_fmap_id. lra. }
    change (weight (reverse (zip_with (fun x t => (- t, x * (nint 1 / foldl nadd (nint 0) a)%num)) a t)) = 1).
    rewrite Es.
    rewrite weight_scaled by congruence. rewrite nint_R. cbn. by field.
  - cbn [pulses set]. apply (pulses_sorted a t _ (increasing_sorted t Ei)).
Qed.

(** *** The shaped position *)

Section convolution.
Context (l : list (move R)) (lo hi : nat) (ax : axis).

(** The moves from [lo] to [hi] follow each other. *)
Record moves_ok : Prop := {
  mv_next : forall j m m', (lo <= j)%nat -> l !! j = Some m -> l !! S j = Some m' -> print_time m' = move_end m;
  mv_time : forall j m, l !! j = Some m -> 0 <= move_t m }.
Hypothesis Hok : moves_ok.

(** The queued motion puts the axis at [x] at time [tau]. *)
Definition at_time (tau x : R) : Prop :=
  exists j m, (lo <= j <= hi)%nat /\ l !! j = Some m /\ print_time m <= tau <= move_end m /\
    x = get_axis_position m ax (tau - print_time m).

Lemma walk_prev_spec i m t tau mlo :
  (lo <= i)%nat -> l !! i = Some m -> l !! lo = Some mlo -> print_time m + t = tau -> t <= move_t m ->
  print_time mlo <= tau ->
  exists j u mj, walk_prev l i t = Some (j, u) /\ (lo <= j <= i)%nat /\ l !! j = Some mj /\
    print_time mj + u = tau /\ 0 <= u <= move_t mj.
Proof.
  revert m t. induction i as [|i IH]; intros m t Hi Hm Hlo Htau Ht Hge; cbn [walk_prev]; rewrite nint_R;
    destruct (nltP t 0) as [Hneg|Hpos].
  - exfalso. assert (lo = 0%nat) as -> by lia. rewrite Hm in Hlo. injection Hlo as <-. lra.
  - exists 0%nat, t, m. split_and!; (done || lia || lra).
  - destruct (decide (lo = S i)) as [->|Hne]; [rewrite Hm in Hlo; injection Hlo as <-; exfalso; lra|].
    destruct (lookup_lt_is_Some_2 l i) as [m' Hm']; [apply lookup_lt_Some in Hm; lia|]. rewrite Hm'.
    assert (Hn : print_time m = move_end m') by (apply (mv_next Hok i m' m); [lia|done..]).
    unfold move_end in Hn. cbn in Hn.
    destruct (IH m' (t + move_t m')) as (j & u & mj & E & Hj & Hmj & Hu & Hu'); [lia|done|done|lra|lra|done|].
    exists j, u, mj. split; [exact E|]. split; [lia|done].
  - exists (S i), t, m. split_and!; (done || lia || lra).
Qed.

Lemma walk_next_spec i m t tau mhi :
  (lo <= i <= hi)%nat -> l !! i = Some m -> l !! hi = Some mhi -> print_time m + t = tau -> 0 <= t ->
  tau <= move_end mhi ->
  exists j u mj, walk_next (drop i l) i t = Some (j, u) /\ (i <= j <= hi)%nat /\ l !! j = Some mj /\
    print_time mj + u = tau /\ 0 <= u <= move_t mj.
Proof.
  remember (hi - i)%nat as n eqn:En. revert i m t En. induction n as [|n IH]; intros i m t En Hi Hm Hhi Htau Ht Hle.
  - assert (i = hi) as -> by lia. rewrite Hm in Hhi. injection Hhi as <-. rewrite (drop_S l m hi Hm). cbn [walk_next].
    unfold move_end in Hle. cbn in Hle. destruct (nltP (move_t m) t) as [|Hn]; [exfalso; lra|].
    exists hi, t, m. split_and!; (done || lia || lra).
  - rewrite (drop_S l m i Hm). cbn [walk_next]. destruct (nltP (move_t m) t) as [Hlt|Hn].
    + destruct (lookup_lt_is_Some_2 l (S i)) as [m' Hm']; [apply lookup_lt_Some in Hhi; lia|].
      assert (Hx : print_time m' = move_end m) by (apply (mv_next Hok i m m'); [lia|done..]).
      unfold move_end in Hx. cbn in Hx.
      destruct (IH (S i) m' (t - move_t m)) as (j & u & mj & E & Hj & Hmj & Hu & Hu'); [lia|lia|done|done|lra|lra|done|].
      exists j, u, mj. split; [exact E|]. split; [lia|done].
    + exists i, t, m. split_and!; (done || lia || lra).
Qed.

Lemma at_time_intro tau j u mj :
  (lo <= j <= hi)%nat -> l !! j = Some mj -> print_time mj + u = tau -> 0 <= u <= move_t mj ->
  at_time tau (get_axis_position mj ax u).
Proof.
  intros Hj Hm Hu Hr. exists j, mj. split; [done|]. split; [done|]. split; [unfold move_end; cbn; lra|].
  f_equal. lra.
Qed.

(** The weighted sum of positions. *)
Definition weighted (ps : list (R * R)) (xs : list R) : R := rsum (zip_with (fun p x => p.2 * x) ps xs).

Lemma sum_before_spec ps i m t res tau mlo :
  (lo <= i <= hi)%nat -> l !! i = Some m -> l !! lo = Some mlo -> print_time m + t = tau ->
  StronglySorted (fun p q => q.1 < p.1) ps -> Forall (fun p => t + p.1 <= move_t m) ps ->
  Forall (fun p => print_time mlo <= tau + p.1) ps ->
  exists xs, sum_before l ax ps i t res = Some (res + weighted ps xs) /\ Forall2 (fun p x => at_time (tau + p.1) x) ps xs.
Proof.
  intros Hi Hm Hlo Htau Hs. revert i m t res Hi Hm Htau.
  induction Hs as [|[pt a] ps Hs IH Hf]; intros i m t res Hi Hm Htau Ht Hge.
  { exists []. split; [cbn; unfold weighted, rsum; cbn; f_equal; lra|constructor]. }
  inversion_clear Ht as [|? ? Ht1 _]. inversion_clear Hge as [|? ? Hge1 Hge2]. cbn in Ht1, Hge1.
  destruct (walk_prev_spec i m (t + pt) (tau + pt) mlo) as (j & u & mj & E & Hj & Hmj & Hu & Hu'); [lia|done|done|lra|done|done|].
  cbn [sum_before]. change (t + pt)%num with (t + pt). rewrite E. cbn [mbind option_bind]. rewrite Hmj. cbn [mbind option_bind].
  destruct (IH j mj (u - pt) (res + a * get_axis_position mj ax u)) as (xs & Ex & Hxs); [lia|done|lra| |done|].
  { eapply Forall_impl; [exact Hf|]. cbn. intros q Hq. lra. }
  exists (get_axis_position mj ax u :: xs). split.
  - etransitivity; [exact Ex|]. f_equal. unfold weighted, rsum. cbn [zip_with foldr snd]. lra.
  - constructor; [|done]. apply at_time_intro with j; (done || lia).
Qed.

Lemma sum_after_spec ps i m t res tau mhi :
  (lo <= i <= hi)%nat -> l !! i = Some m -> l !! hi = Some mhi -> print_time m + t = tau ->
  StronglySorted (fun p q => p.1 < q.1) ps -> Forall (fun p => 0 <= t + p.1) ps ->
  Forall (fun p => tau + p.1 <= move_end mhi) ps ->
  exists xs, sum_after l ax ps i t res = Some (res + weighted ps xs) /\ Forall2 (fun p x => at_time (tau + p.1) x) ps xs.
Proof.
  intros Hi Hm Hhi Htau Hs. revert i m t res Hi Hm Htau.
  induction Hs as [|[pt a] ps Hs IH Hf]; intros i m t res Hi Hm Htau Ht Hle.
  { exists []. split; [cbn; unfold weighted, rsum; cbn; f_equal; lra|constructor]. }
  inversion_clear Ht as [|? ? Ht1 _]. inversion_clear Hle as [|? ? Hle1 Hle2]. cbn in Ht1. cbn -[move_end] in Hle1.
  destruct (walk_next_spec i m (t + pt) (tau + pt) mhi) as (j & u & mj & E & Hj & Hmj & Hu & Hu'); [lia|done|done|lra|done|done|].
  cbn [sum_after]. change (t + pt)%num with (t + pt). rewrite E. cbn [mbind option_bind]. rewrite Hmj. cbn [mbind option_bind].
  destruct (IH j mj (u - pt) (res + a * get_axis_position mj ax u)) as (xs & Ex & Hxs); [lia|done|lra| |done|].
  { eapply Forall_impl; [exact Hf|]. cbn. intros q Hq. lra. }
  exists (get_axis_position mj ax u :: xs). split.
  - etransitivity; [exact Ex|]. f_equal. unfold weighted, rsum. cbn [zip_with foldr snd]. lra.
  - constructor; [|done]. apply at_time_intro with j; (done || lia).
Qed.

Lemma weighted_app ps1 ps2 xs1 xs2 :
  length ps1 = length xs1 -> weighted (ps1 ++ ps2) (xs1 ++ xs2) = weighted ps1 xs1 + weighted ps2 xs2.
Proof. intros Hl. unfold weighted. by rewrite zip_with_app, rsum_app. Qed.

Lemma weighted_reverse ps xs : length ps = length xs -> weighted (reverse ps) (reverse xs) = weighted ps xs.
Proof.
  intros Hl. unfold weighted. rewrite <- rsum_reverse. f_equal. revert xs Hl.
  induction ps as [|p ps IH]; intros [|x xs] Hl; try done. rewrite !reverse_cons, zip_with_app.
  - cbn. rewrite reverse_app. cbn. rewrite IH by (cbn in Hl; lia). done.
  - rewrite !length_reverse. cbn in Hl. lia.
Qed.

Lemma sorted_reverse (ps : list (R * R)) :
  StronglySorted (fun p q => p.1 < q.1) ps -> StronglySorted (fun p q => q.1 < p.1) (reverse ps).
Proof.
  induction 1 as [|p ps Hs IH Hf]; [constructor|]. rewrite reverse_cons. apply StronglySorted_app_2; [|done|repeat constructor].
  intros x y Hx Hy. apply list_elem_of_singleton in Hy as ->. rewrite elem_of_reverse in Hx.
  rewrite Forall_forall in Hf. by apply Hf.
Qed.

(** The shaped position is the weighted mean of the positions at the times of the
    pulses. *)
Lemma calc_position_convolution i m t sp mlo mhi :
  (lo <= i <= hi)%nat -> l !! i = Some m -> l !! lo = Some mlo -> l !! hi = Some mhi ->
  0 <= t <= move_t m -> shaper_ok sp ->
  Forall (fun p => print_time mlo <= print_time m + t + p.1 <= move_end mhi) (pulses sp) ->
  exists xs, calc_position l i ax t sp = Some (weighted (pulses sp) xs) /\
    Forall2 (fun p x => at_time (print_time m + t + p.1) x) (pulses sp) xs.
Proof.
  intros Hi Hm Hlo Hhi Ht [_ _ Hs Hb Ha] Hcov. set (k := p_ind sp) in *.
  rewrite <- (take_drop k (pulses sp)) in Hs, Hcov. apply StronglySorted_app in Hs as (_ & Hs1 & Hs2).
  apply Forall_app in Hcov as [Hc1 Hc2].
  destruct (sum_before_spec (reverse (take k (pulses sp))) i m t (nint 0) (print_time m + t) mlo)
    as (xs1 & E1 & H1); auto.
  { by apply sorted_reverse. }
  { apply Forall_reverse. eapply Forall_impl; [exact Hb|]. cbn. intros p Hp. lra. }
  { apply Forall_reverse. eapply Forall_impl; [exact Hc1|]. cbn. intros p Hp. lra. }
  destruct (sum_after_spec (drop k (pulses sp)) i m t (nint 0 + weighted (reverse (take k (pulses sp))) xs1)
    (print_time m + t) mhi) as (xs2 & E2 & H2); auto.
  { eapply Forall_impl; [exact Ha|]. cbn. intros p Hp. lra. }
  { eapply Forall_impl; [exact Hc2|]. cbn. intros p Hp. lra. }
  assert (Hl1 : length (take k (pulses sp)) = length (reverse xs1)).
  { apply Forall2_length in H1. rewrite length_reverse in H1. by rewrite length_reverse. }
  exists (reverse xs1 ++ xs2). unfold calc_position. fold k. rewrite E1. cbn [mbind option_bind]. split.
  - rewrite E2. f_equal. rewrite <- (take_drop k (pulses sp)) at 3. rewrite weighted_app by done.
    rewrite <- (weighted_reverse (take k (pulses sp))), reverse_involutive by done. rewrite nint_R. lra.
  - rewrite <- (take_drop k (pulses sp)) at 1. apply Forall2_app; [|done].
    rewrite <- (reverse_involutive (take k (pulses sp))). by apply Forall2_reverse.
Qed.

(** Motion at constant speed is not changed. *)
Lemma weighted_line ps xs x0 v :
  Forall2 (fun p x => x = x0 + v * p.1) ps xs -> weighted ps xs = x0 * weight ps + v * moment ps.
Proof.
  unfold weighted, weight, moment, rsum. induction 1 as [|[pt a] x ps xs -> Hf IH]; cbn in *; [lra|]. rewrite IH. lra.
Qed.
End convolution.

(** C22: an input shaper that [init_shaper] accepts is a weighted mean of the motion,
    in exact arithmetic: its weights add up to 1, and the shaped position is the
    weighted sum of the queued positions at the times of the pulses, found by
    walking to the moves that cover them.  Motion at constant speed is not
    changed. *)
Theorem shaper_weighted_mean l lo hi ax i m t n a ts sp0 sp mlo mhi :
  moves_ok l lo -> (lo <= i <= hi)%nat -> l !! i = Some m -> l !! lo = Some mlo -> l !! hi = Some mhi ->
  0 <= t <= move_t m ->
  (0 <= n)%Z -> length a = Z.to_nat n -> length ts = Z.to_nat n -> rsum a <> 0 -> init_shaper n a ts sp0 = (0%Z, sp) ->
  Forall (fun p => print_time mlo <= print_time m + t + p.1 <= move_end mhi) (pulses sp) ->
  weight (pulses sp) = 1 /\
  (exists xs, calc_position l i ax t sp = Some (weighted (pulses sp) xs) /\
     Forall2 (fun p x => at_time l lo hi ax (print_time m + t + p.1) x) (pulses sp) xs) /\
  (forall x0 v, (forall tau x, at_time l lo hi ax tau x -> x = x0 + v * (tau - (print_time m + t))) ->
     calc_position l i ax t sp = Some x0).
Proof.
  intros Hok Hi Hm Hlo Hhi Ht Hn Ha Hts Hsum Hinit Hcov. pose proof (init_shaper_ok n a ts sp0 sp Hn Ha Hts Hsum Hinit) as Hsp.
  destruct (calc_position_convolution l lo hi ax Hok i m t sp mlo mhi Hi Hm Hlo Hhi Ht Hsp Hcov) as (xs & E & Hxs).
  destruct Hsp as [Hw Hmo _ _ _]. split; [done|]. split; [by exists xs|].
  intros x0 v Hline. rewrite E. f_equal. rewrite (weighted_line _ _ x0 v), Hw, Hmo; [lra|].
  eapply Forall2_impl; [exact Hxs|]. cbn beta. intros p x Hx. rewrite (Hline _ _ Hx). f_equal. f_equal. lra.
Qed.

(** A constant speed move and a shaper with two pulses a tenth of a second
    apart. *)
Definition wit_line : move R := mk_move 1 10 5 0 (mk_coord 0 0 0) (mk_coord 1 0 0).
Definition wit_list : list (move R) := [wit_line].
Definition wit_sp : shaper_pulses R := (init_shaper 2 [1; 1] [0; 1 / 10] (mk_shaper_pulses 0 [])).2.

Lemma shaper_weighted_mean_witness :
  weight (pulses wit_sp) = 1 /\
  (exists xs, calc_position wit_list 0 X 4 wit_sp = Some (weighted (pulses wit_sp) xs) /\
     Forall2 (fun p x => at_time wit_list 0 0 X (1 + 4 + p.1) x) (pulses wit_sp) xs) /\
  (forall x0 v, (forall tau x, at_time wit_list 0 0 X tau x -> x = x0 + v * (tau - (1 + 4))) ->
     calc_position wit_list 0 X 4 wit_sp = Some x0).
Proof.
  assert (Hi : increasing [0; 1 / 10] = true).
  { cbn [increasing]. destruct (nleP (1 / 10) 0); [lra|done]. }
  apply (shaper_weighted_mean wit_list 0 0 X 0 wit_line 4 2 [1; 1] [0; 1 / 10]
    (mk_shaper_pulses 0 []) wit_sp wit_line wit_line); try reflexivity; try lia; cbn; try lra.
  - split; [intros [|j] m m' _ Hm Hm'; done|]. intros [|j] m Hm; [injection Hm as <-; cbn; lra|done].
  - unfold wit_sp, init_shaper. change (increasing (take (Z.to_nat 2) [0; 1 / 10])) with (increasing [0; 1 / 10]).
    rewrite Hi. reflexivity.
  - unfold wit_sp, init_shaper. change (increasing (take (Z.to_nat 2) [0; 1 / 10])) with (increasing [0; 1 / 10]).
    rewrite Hi. change (take (Z.to_nat 2) [1; 1]) with [1; 1]. change (take (Z.to_nat 2) [0; 1 / 10]) with [0; 1 / 10].
    cbn. replace (1 / 1 / (0 / 1 + 1 + 1)) with (1 / 2) by lra. repeat constructor; cbn; lra.
Defined.
End exact.
