(* ===== verification/Extruder.v ===== *)
(** * Extruder kinematics (klippy/chelper/kin_extruder.c)

    The position of an extruder stepper: the nominal position plus the pressure
    advance times the velocity, averaged over time with a triangular weight. *)

From Stdlib Require Import Reals Lra.
From S2P Require Import Prelude Double Numeric Trapq Itersolve Kinematics Shaper.

Record pa_params (A : Type) := mk_pa_params { pressure_advance : A; active_print_time : A }.
Arguments mk_pa_params {A}. Arguments pressure_advance {A}. Arguments active_print_time {A}.

Record extruder_stepper (A : Type) := mk_extruder_stepper {
  pa_list : list (pa_params A);
  half_smooth_time : A;
  inv_half_smooth_time2 : A }.
Arguments mk_extruder_stepper {A}. Arguments pa_list {A}. Arguments half_smooth_time {A}.
Arguments inv_half_smooth_time2 {A}.
#[export] Instance eta_extruder_stepper A : Eta (extruder_stepper A) := fun e =>
  mk_extruder_stepper (pa_list e) (half_smooth_time e) (inv_half_smooth_time2 e).

Section extruder.
Context {A : Type} `{Num A}.
Local Open Scope num_scope.

Definition extruder_integrate (base start_v half_accel start end_ : A) : A :=
  let half_v := nlit 1 2 * start_v in
  let sixth_a := (nint 1 / nint 3) * half_accel in
  let si := start * (base + start * (half_v + start * sixth_a)) in
  let ei := end_ * (base + end_ * (half_v + end_ * sixth_a)) in
  ei - si.

Definition extruder_integrate_time (base start_v half_accel start end_ : A) : A :=
  let half_b := nlit 1 2 * base in
  let third_v := (nint 1 / nint 3) * start_v in
  let eighth_a := nlit 1 4 * half_accel in
  let si := start * start * (half_b + start * (third_v + start * eighth_a)) in
  let ei := end_ * end_ * (half_b + end_ * (third_v + end_ * eighth_a)) in
  ei - si.

(** The parameters in force at [print_time], from the newest back to the first;
    the list is given newest first. *)
Fixpoint find_pa (rev_list : list (pa_params A)) (print_time : A) : option (pa_params A) :=
  match rev_list with
  | [] => None
  | pa :: rest =>
    match rest with
    | [] => Some pa
    | _ => if print_time <? active_print_time pa then find_pa rest print_time else Some pa
    end
  end.

(** [None] is an empty list of parameters. *)
Definition pa_move_integrate (m : move A) (pas : list (pa_params A)) (base start end_ time_offset : A) : option A :=
  let start := if start <? nint 0 then nint 0 else start in
  let end_ := if move_t m <? end_ then move_t m else end_ in
  pa ← (if nonzero (cy (axes_r m)) then pressure_advance <$> find_pa (reverse pas) (print_time m) else Some (nint 0));
  let base := base + pa * start_v m in
  let start_v := start_v m + pa * nint 2 * half_accel m in
  let ha := half_accel m in
  let iext := extruder_integrate base start_v ha start end_ in
  let wgt_ext := extruder_integrate_time base start_v ha start end_ in
  Some (wgt_ext - time_offset * iext).

(** "Integrate over previous moves": from the move before place [i] on. *)
Fixpoint integrate_prev (l : list (move A)) (pas : list (pa_params A)) (i : nat) (start start_base res : A) : option A :=
  if start <? nint 0 then
    match i with
    | O => None
    | S i =>
      prev ← l !! i;
      let start := start + move_t prev in
      let base := cx (start_pos prev) - start_base in
      v ← pa_move_integrate prev pas base start (move_t prev) start;
      integrate_prev l pas i start start_base (res + v)
    end
  else Some res.

(** "Integrate over future moves": [m] is followed by [rest]. *)
Fixpoint integrate_next (m : move A) (rest : list (move A)) (pas : list (pa_params A)) (end_ start_base res : A)
    : option A :=
  if move_t m <? end_ then
    match rest with
    | [] => None
    | next :: rest =>
      let end_ := end_ - move_t m in
      let base := cx (start_pos next) - start_base in
      v ← pa_move_integrate next pas base (nint 0) end_ end_;
      integrate_next next rest pas end_ start_base (res - v)
    end
  else Some res.

(** [None] is a walk off the list of moves. *)
Definition pa_range_integrate (l : list (move A)) (i : nat) (move_time : A) (pas : list (pa_params A)) (hst : A)
    : option A :=
  m ← l !! i;
  let start := move_time - hst in
  let end_ := move_time + hst in
  let start_base := cx (start_pos m) in
  v1 ← pa_move_integrate m pas (nint 0) start move_time start;
  let res := nint 0 + v1 in
  v2 ← pa_move_integrate m pas (nint 0) move_time end_ end_;
  let res := res - v2 in
  res ← integrate_prev l pas i start start_base res;
  integrate_next m (drop (S i) l) pas end_ start_base res.

Definition extruder_calc_position (es : extruder_stepper A) (_ : A) (l : list (move A)) (i : nat) (move_time : A)
    : option A :=
  m ← l !! i;
  let hst := half_smooth_time es in
  if negb (nonzero hst) then Some (cx (start_pos m) + move_get_distance m move_time) else
  area ← pa_range_integrate l i move_time (pa_list es) hst;
  Some (cx (start_pos m) + area * inv_half_smooth_time2 es).

(** "Cleanup old pressure advance parameters" *)
Fixpoint cleanup_pa (l : list (pa_params A)) (cleanup_time : A) : list (pa_params A) :=
  match l with
  | first_pa :: (next_pa :: _) as rest =>
    if cleanup_time <=? active_print_time next_pa then l else cleanup_pa rest cleanup_time
  | _ => l
  end.

(** [None] is an empty list of parameters. *)
Definition extruder_set_pressure_advance (print_time pressure_advance smooth_time : A)
    (sk : stepper_kinematics A (extruder_stepper A)) : option (stepper_kinematics A (extruder_stepper A)) :=
  let hst := smooth_time * nlit 1 2 in
  let old_hst := half_smooth_time (container sk) in
  let sk := sk <| container ::= fun es => es <| half_smooth_time := hst |> |>
               <| gen_steps_pre_active := hst |> <| gen_steps_post_active := hst |> in
  let cleanup_time := last_flush_time sk - (if hst <? old_hst then old_hst else hst) in
  let sk := sk <| container ::= fun es => es <| pa_list ::= fun l => cleanup_pa l cleanup_time |> |> in
  if negb (nonzero hst) then Some sk else
  let sk := sk <| container ::= fun es => es <| inv_half_smooth_time2 := nint 1 / (hst * hst) |> |> in
  last_pa ← last (pa_list (container sk));
  if neq (Extruder.pressure_advance last_pa) pressure_advance then Some sk else
  Some (sk <| container ::= fun es => es <| pa_list ::= fun l => l ++ [mk_pa_params pressure_advance print_time] |> |>).

Definition extruder_stepper_alloc : stepper_kinematics A (extruder_stepper A) :=
  (sk_zero (mk_extruder_stepper [mk_pa_params (nint 0) (nint 0)] (nint 0) (nint 0)))
    <| calc_position_cb := extruder_calc_position |> <| active_flags := AF_X |>.
End extruder.

(** ** Exact extruders *)

Section exact.
Local Open Scope R_scope.

(** *** Integrals *)

(** [I] is the integral of [f] from [a] to [b]. *)
Definition integral (f : R -> R) (a b I : R) : Prop := exists pr : Riemann_integrable f a b, RiemannInt pr = I.

Lemma integral_primitive (f g F : R -> R) a b :
  a <= b -> continuity f -> continuity g -> (forall x, derivable_pt_lim F x (g x)) ->
  (forall x, a < x < b -> f x = g x) -> integral f a b (F b - F a).
Proof.
  intros Hab Hf Hg HF Hfg.
  assert (pr : Riemann_integrable f a b) by (apply continuity_implies_RiemannInt; [done|intros; apply Hf]).
  exists pr.
  pose (dF := fun x => exist (fun l => derivable_pt_abs F x l) (g x) (HF x) : derivable_pt F x).
  assert (HdF : continuity (derive F dF)) by exact Hg.
  pose (C := mkC1 HdF).
  assert (prg : Riemann_integrable (derive C (diff0 C)) a b)
    by (apply continuity_implies_RiemannInt; [done|intros; apply Hg]).
  rewrite (RiemannInt_P18 pr prg Hab); [apply (FTC_Riemann C prg)|]. intros x Hx. by apply Hfg.
Qed.

Lemma integral_split f a b c I J :
  a <= b <= c -> integral f a b I -> integral f b c J -> integral f a c (I + J).
Proof.
  intros Habc [p1 <-] [p2 <-]. exists (RiemannInt_P21 (proj1 Habc) (proj2 Habc) p1 p2).
  symmetry. apply RiemannInt_P26.
Qed.

(** The parameters a move uses, and the position of the comment above the code. *)
Definition pa_of (pas : list (pa_params R)) (m : move R) : R :=
  if nonzero (cy (axes_r m)) then
    match find_pa (reverse pas) (print_time m) with Some pa => pressure_advance pa | None => 0 end
  else 0.
Definition pa_position pas (m : move R) (x : R) : R :=
  cx (start_pos m) + move_get_distance m x + pa_of pas m * (start_v m + 2 * half_accel m * x).
Definition triangle (h d : R) : R := Rmax 0 (h - Rabs d).

(** A primitive of [(base + x * (v + x * ha)) * (x - off)]. *)
Definition prim (base v ha off x : R) : R :=
  x * x * (base / 2 + x * (v / 3 + x * (ha / 4))) - off * (x * (base + x * (v / 2 + x * (ha / 3)))).

Lemma prim_derivative base v ha off sh x :
  derivable_pt_lim (fun y => prim base v ha off (y - sh)) x ((base + (x - sh) * (v + (x - sh) * ha)) * ((x - sh) - off)).
Proof.
  unfold prim.
  set (f := fun y : R => y - sh). set (df := 1).
  assert (Df : derivable_pt_lim f x 1).
  { unfold f. replace 1 with (1 - 0) by lra.
    apply (derivable_pt_lim_minus id (fct_cte sh)); [apply derivable_pt_lim_id|apply derivable_pt_lim_const]. }
  assert (Dm : forall g1 g2 d1 d2, derivable_pt_lim g1 x d1 -> derivable_pt_lim g2 x d2 ->
    derivable_pt_lim (fun y => g1 y * g2 y) x (d1 * g2 x + g1 x * d2)) by (intros; by apply (derivable_pt_lim_mult _ _)).
  assert (Dp : forall c g d, derivable_pt_lim g x d -> derivable_pt_lim (fun y => c + g y) x d).
  { intros c g d Hd. replace d with (0 + d) by lra.
    apply (derivable_pt_lim_plus (fct_cte c) g); [apply derivable_pt_lim_const|done]. }
  assert (Dc : forall c, derivable_pt_lim (fun _ => c) x 0) by (intros c; apply (derivable_pt_lim_const c)).
  assert (D1 := Dp (base / 2) _ _ (Dm _ _ _ _ Df (Dp (v / 3) _ _ (Dm _ _ _ _ Df (Dc (ha / 4)))))).
  assert (D2 := Dp base _ _ (Dm _ _ _ _ Df (Dp (v / 2) _ _ (Dm _ _ _ _ Df (Dc (ha / 3)))))).
  assert (D := derivable_pt_lim_minus _ _ _ _ _ (Dm _ _ _ _ (Dm _ _ _ _ Df Df) D1)
                 (Dm _ _ _ _ (Dc off) (Dm _ _ _ _ Df D2))).
  unfold f in D. cbv beta in D.
  match type of D with derivable_pt_lim ?F _ ?d =>
    replace ((base + (x - sh) * (v + (x - sh) * ha)) * ((x - sh) - off)) with d by field; exact D end.
Qed.

Lemma prim_shift base c v ha off s e :
  prim (base - c) v ha off e - prim (base - c) v ha off s =
  prim base v ha off e - prim base v ha off s - c * (((e - off) * (e - off) - (s - off) * (s - off)) / 2).
Proof. unfold prim. field. Qed.

Lemma triangle_continuous h f : continuity f -> continuity (fun x => triangle h (f x)).
Proof.
  intros Hf x.
  apply (continuity_pt_locally_ext (fun x => (h - Rabs (f x) + Rabs (h - Rabs (f x))) * (1 / 2)) _ 1); [lra| |].
  { intros y _. unfold triangle, Rmax, Rabs. repeat destruct Rcase_abs; destruct Rle_dec; lra. }
  assert (Ha : continuity (fun x => Rabs (f x))) by (apply (continuity_comp f Rabs); [done|apply Rcontinuity_abs]).
  assert (Hd : continuity (fun x => h - Rabs (f x))) by (apply cont_minus; [apply cont_const|done]).
  apply cont_mult; [|apply cont_const]. apply cont_plus; [done|].
  apply (continuity_comp (fun x => h - Rabs (f x)) Rabs); [done|apply Rcontinuity_abs].
Qed.

(** The code's integral over a part of a move. *)
Lemma pa_move_integrate_prim m pas base start end_ off :
  pas <> [] ->
  pa_move_integrate m pas base start end_ off =
  let b := base + pa_of pas m * start_v m in
  let v := start_v m + pa_of pas m * 2 * half_accel m in
  Some (prim b v (half_accel m) off (Rmin (move_t m) end_) - prim b v (half_accel m) off (Rmax 0 start)).
Proof.
  intros Hpas. unfold pa_move_integrate.
  assert (Epa : (if nonzero (cy (axes_r m)) then pressure_advance <$> find_pa (reverse pas) (print_time m) else Some (nint 0))
    = Some (pa_of pas m)).
  { unfold pa_of. destruct (nonzero _); [|by rewrite nint_R].
    assert (Hf : is_Some (find_pa (reverse pas) (print_time m))).
    { assert (Hr : reverse pas <> []) by (intros E; apply Hpas; by rewrite <- (reverse_involutive pas), E).
      destruct (reverse pas) as [|p l]; [done|]. clear. revert p.
      induction l as [|q l IH]; intros p; cbn [find_pa]; [by eexists|]. destruct (_ <? _)%num; [apply IH|by eexists]. }
    destruct Hf as [pa ->]. done. }
  rewrite Epa. cbn [mbind option_bind]. cbv zeta. f_equal.
  rewrite !nint_R.
  replace (if (start <? 0)%num then 0 else start) with (Rmax 0 start)
    by (unfold Rmax; destruct (nltP start 0), (Rle_dec 0 start); lra).
  replace (if (move_t m <? end_)%num then move_t m else end_) with (Rmin (move_t m) end_)
    by (unfold Rmin; destruct (nltP (move_t m) end_), (Rle_dec (move_t m) end_); lra).
  unfold extruder_integrate, extruder_integrate_time, prim. rewrite !nint_R. cbn [nadd nsub nmul ndiv nlit Num_R]. field.
Qed.

Section smoothing.
Context (pas : list (pa_params R)) (h T : R).
Hypothesis Hpas : pas <> [].
Hypothesis Hh : 0 < h.

Definition clip (mt y : R) : R := Rmax 0 (Rmin mt y).

(** What a move adds to the integral of the position less [c]. *)
Definition contrib (c : R) (m : move R) : R :=
  let tau := T - print_time m in
  let P := prim (cx (start_pos m) - c + pa_of pas m * start_v m) (start_v m + pa_of pas m * 2 * half_accel m) (half_accel m) in
  let at_ := clip (move_t m) in
  P (tau - h) (at_ tau) - P (tau - h) (at_ (tau - h)) - (P (tau + h) (at_ (tau + h)) - P (tau + h) (at_ tau)).

Ltac clips := unfold clip, Rmax, Rmin, triangle in *; repeat destruct Rle_dec; try lra.

(** The integrand of a move, and the terms of its position. *)
Definition smoothed (m : move R) (x : R) : R := pa_position pas m (x - print_time m) * triangle h (x - T).
Definition move_prim (m : move R) : R -> R -> R :=
  prim (cx (start_pos m) - 0 + pa_of pas m * start_v m) (start_v m + pa_of pas m * 2 * half_accel m) (half_accel m).

Lemma pa_position_continuous m : continuity (fun x => pa_position pas m (x - print_time m)).
Proof.
  unfold pa_position, move_get_distance. cbn [nadd nmul Num_R].
  assert (Hx : continuity (fun x => x - print_time m))
    by (apply cont_minus; [apply derivable_continuous, derivable_id|apply cont_const]).
  repeat first [exact Hx | apply cont_const | apply cont_plus | apply cont_mult].
Qed.
Lemma smoothed_continuous m : continuity (smoothed m).
Proof.
  apply cont_mult; [apply pa_position_continuous|].
  apply triangle_continuous, cont_minus; [apply derivable_continuous, derivable_id|apply cont_const].
Qed.

Lemma part_integral m k off a b :
  a <= b -> (forall x, a < x < b -> triangle h (print_time m + x - T) = k * (x - off)) ->
  integral (smoothed m) (print_time m + a) (print_time m + b) (k * (move_prim m off b - move_prim m off a)).
Proof.
  intros Hab Htr. set (p := print_time m). set (P := move_prim m).
  replace (k * (P off b - P off a)) with (k * P off (p + b - p) - k * P off (p + a - p))
    by (replace (p + b - p) with b by lra; replace (p + a - p) with a by lra; lra).
  apply (integral_primitive _ (fun x => k * (pa_position pas m (x - p) * (x - p - off))) (fun x => k * P off (x - p)));
    [lra|apply smoothed_continuous| | |].
  - apply cont_mult; [apply cont_const|]. apply cont_mult; [apply pa_position_continuous|].
    repeat first [apply cont_minus | apply cont_const]. apply derivable_continuous, derivable_id.
  - intros x. apply derivable_pt_lim_scal. unfold P, move_prim.
    replace (pa_position pas m (x - p)) with
      (cx (start_pos m) - 0 + pa_of pas m * start_v m + (x - p) * (start_v m + pa_of pas m * 2 * half_accel m + (x - p) * half_accel m))
      by (unfold pa_position, move_get_distance; cbn [nadd nmul Num_R]; ring).
    apply prim_derivative.
  - intros x Hx. unfold smoothed. fold p. replace (triangle h (x - T)) with (k * (x - p - off)); [ring|].
    rewrite <- Htr by lra. f_equal. fold p. lra.
Qed.

Lemma contrib_integral m : 0 <= move_t m -> integral (smoothed m) (print_time m) (move_end m) (contrib 0 m).
Proof.
  intros Hm. set (p := print_time m). set (tau := T - p). set (P := move_prim m).
  set (c0 := clip (move_t m) (tau - h)). set (c1 := clip (move_t m) tau). set (c2 := clip (move_t m) (tau + h)).
  assert (Hc : 0 <= c0 <= c1 /\ c1 <= c2 <= move_t m) by (unfold c0, c1, c2; clips).
  replace (contrib 0 m) with (0 * (P 0 c0 - P 0 0) + (1 * (P (tau - h) c1 - P (tau - h) c0) +
      (-1 * (P (tau + h) c2 - P (tau + h) c1) + 0 * (P 0 (move_t m) - P 0 c2))))
    by (unfold contrib; fold p; fold tau; unfold P, move_prim; fold c0; fold c1; fold c2; lra).
  replace p with (p + 0) at 1 by lra. unfold move_end. cbn [nadd Num_R]. fold p.
  apply (integral_split _ _ (p + c0)); [lra|apply part_integral; [lra|]|].
  { intros x Hx. fold p. replace (p + x - T) with (x - tau) by (unfold tau; lra). unfold c0 in Hx. unfold triangle, Rabs, Rmax.
    destruct Rcase_abs, Rle_dec; clips. }
  apply (integral_split _ _ (p + c1)); [lra|apply part_integral; [lra|]|].
  { intros x Hx. fold p. replace (p + x - T) with (x - tau) by (unfold tau; lra). unfold c0, c1 in Hx. unfold triangle, Rabs, Rmax.
    destruct Rcase_abs, Rle_dec; clips. }
  apply (integral_split _ _ (p + c2)); [lra|apply part_integral; [lra|]|apply part_integral; [lra|]].
  all: intros x Hx; fold p; replace (p + x - T) with (x - tau) by (unfold tau; lra); unfold c1, c2 in Hx; unfold triangle, Rabs, Rmax.
  all: destruct Rcase_abs, Rle_dec; clips.
Qed.

(** The weight up to [y] after the middle. *)
Definition mass (y : R) : R :=
  if Rle_dec y (- h) then 0 else if Rle_dec y 0 then (y + h) * (y + h) / 2
  else if Rle_dec y h then h * h - (h - y) * (h - y) / 2 else h * h.

Lemma contrib_shift c m : 0 <= move_t m ->
  contrib c m = contrib 0 m - c * (mass (move_end m - T) - mass (print_time m - T)).
Proof.
  intros Hm. unfold contrib, move_end. cbn [nadd Num_R].
  replace (cx (start_pos m) - 0) with (cx (start_pos m)) by lra.
  replace (cx (start_pos m) - c + pa_of pas m * start_v m) with (cx (start_pos m) + pa_of pas m * start_v m - c) by lra.
  rewrite !prim_shift. set (tau := T - print_time m).
  replace (print_time m - T) with (- tau) by (unfold tau; lra).
  replace (print_time m + move_t m - T) with (move_t m - tau) by (unfold tau; lra).
  match goal with |- ?a - c * ?x - (?b - c * ?y) = ?a - ?b - c * ?z => enough (x - y = z) as <- by lra end.
  unfold mass. clips; nra.
Qed.

Lemma contrib_before c m : 0 <= move_t m -> move_end m <= T - h -> contrib c m = 0.
Proof.
  intros Hm Hb. unfold move_end in Hb. cbn in Hb. unfold contrib. set (tau := T - print_time m) in *.
  assert (clip (move_t m) tau = move_t m /\ clip (move_t m) (tau - h) = move_t m /\ clip (move_t m) (tau + h) = move_t m)
    as (-> & -> & ->) by (unfold tau; clips). lra.
Qed.
Lemma contrib_after c m : 0 <= move_t m -> T + h <= print_time m -> contrib c m = 0.
Proof.
  intros Hm Hb. unfold contrib. set (tau := T - print_time m) in *.
  assert (clip (move_t m) tau = 0 /\ clip (move_t m) (tau - h) = 0 /\ clip (move_t m) (tau + h) = 0)
    as (-> & -> & ->) by (unfold tau; clips). lra.
Qed.

(** The moves of [l] follow each other from time [a] to time [b]. *)
Fixpoint chain (a : R) (l : list (move R)) (b : R) : Prop :=
  match l with
  | [] => a = b
  | m :: l => print_time m = a /\ 0 <= move_t m /\ chain (move_end m) l b
  end.

Lemma chain_app a l1 l2 b : chain a (l1 ++ l2) b <-> exists c, chain a l1 c /\ chain c l2 b.
Proof.
  revert a. induction l1 as [|m l1 IH]; intros a; cbn [chain app].
  - split; [intros; by exists a|intros (c & -> & ?); done].
  - rewrite IH. naive_solver.
Qed.
Lemma chain_le a l b : chain a l b -> a <= b.
Proof.
  revert a. induction l as [|m l IH]; intros a; cbn [chain]; [lra|]. intros (<- & Hm & Hc).
  apply IH in Hc. unfold move_end in Hc. cbn in Hc. lra.
Qed.

Lemma contrib_total c a l b : chain a l b ->
  rsum (contrib c <$> l) = rsum (contrib 0 <$> l) - c * (mass (b - T) - mass (a - T)).
Proof.
  revert a. induction l as [|m l IH]; intros a; cbn [chain]; [intros ->; unfold rsum; cbn; lra|]. intros (<- & Hm & Hc).
  apply IH in Hc. unfold rsum in *. cbn [fmap list_fmap foldr]. rewrite Hc, (contrib_shift c m Hm). lra.
Qed.
Lemma contribs_before c a l b : chain a l b -> b <= T - h -> rsum (contrib c <$> l) = 0.
Proof.
  revert a. induction l as [|m l IH]; intros a; cbn [chain]; [done|]. intros (<- & Hm & Hc) Hb.
  unfold rsum in *. cbn [fmap list_fmap foldr]. rewrite (IH _ Hc Hb), contrib_before; [lra|done|].
  apply chain_le in Hc. lra.
Qed.
Lemma contribs_after c a l b : chain a l b -> T + h <= a -> rsum (contrib c <$> l) = 0.
Proof.
  revert a. induction l as [|m l IH]; intros a; cbn [chain]; [done|]. intros (<- & Hm & Hc) Hb.
  unfold rsum in *. cbn [fmap list_fmap foldr]. rewrite (IH _ Hc), contrib_after; [lra|done..|].
  unfold move_end. cbn. lra.
Qed.

Lemma integrate_prev_spec a seg E pre rest sb start res :
  chain a seg E -> a <= T - h -> E <= T -> start = T - h - E ->
  integrate_prev (pre ++ seg ++ rest) pas (length pre + length seg) start sb res =
  Some (res + rsum (contrib sb <$> seg)).
Proof.
  revert E rest start res. induction seg as [|m seg IH] using rev_ind; intros E rest start res Hc Ha HE ->.
  - cbn [chain] in Hc. subst a. cbn [fmap list_fmap]. unfold rsum. cbn [foldr].
    destruct (length pre + length (@nil (move R)))%nat; cbn [integrate_prev]; rewrite nint_R;
      (destruct (nltP (T - h - E) 0); [exfalso; lra|f_equal; lra]).
  - apply chain_app in Hc as Hc'. destruct Hc' as (d & Hc1 & Hp & Hm & He). cbn [chain] in He.
    rewrite length_app, Nat.add_assoc, Nat.add_1_r. cbn [integrate_prev]. rewrite nint_R.
    destruct (nltP (T - h - E) 0) as [Hlt|Hge].
    + rewrite <- (assoc_L (++)), (assoc_L (++) pre seg), <- length_app, lookup_app_r, Nat.sub_diag by lia.
      cbn [app lookup list_lookup mbind option_bind]. rewrite (pa_move_integrate_prim m pas _ _ _ _ Hpas). cbv zeta.
      cbn [mbind option_bind nadd nsub Num_R]. rewrite <- (assoc_L (++)), length_app.
      unfold move_end in He. cbn in He. rewrite (IH d) by (done || lra). f_equal.
      rewrite fmap_app, rsum_app. set (S := rsum (contrib sb <$> seg)). unfold rsum. cbn [fmap list_fmap foldr]. unfold contrib.
      replace (T - h - E + move_t m) with (T - print_time m - h) by lra. cbv zeta.
      set (tau := T - print_time m) in *.
      replace (clip (move_t m) tau) with (move_t m) by (unfold tau; clips).
      replace (clip (move_t m) (tau + h)) with (move_t m) by (unfold tau; clips).
      replace (clip (move_t m) (tau - h)) with (Rmax 0 (tau - h)) by (unfold tau; clips).
      rewrite (Rmin_left (move_t m)) by lra. lra.
    + f_equal. rewrite (contribs_before sb a _ E Hc) by lra. lra.
Qed.

Lemma integrate_next_spec m seg b rest sb end_ res :
  0 <= move_t m -> chain (move_end m) seg b -> T + h <= b -> T <= move_end m -> end_ = T + h - print_time m ->
  integrate_next m (seg ++ rest) pas end_ sb res = Some (res + rsum (contrib sb <$> seg)).
Proof.
  revert m end_ res. induction seg as [|m' seg IH]; intros m end_ res Hm Hc Hb HT ->; cbn [chain] in Hc; unfold move_end in Hc.
  - assert (Hs : integrate_next m rest pas (T + h - print_time m) sb res = Some res).
    { destruct rest; cbn [integrate_next]; (destruct (nltP (move_t m) (T + h - print_time m)); [cbn in Hc; exfalso; lra|done]). }
    cbn [app]. rewrite Hs. f_equal. unfold rsum. cbn. lra.
  - destruct Hc as (Hp & Hm' & Hc). cbn [app integrate_next]. fold (move_end m') in Hc. cbn [nadd Num_R] in Hp.
    unfold move_end in HT. cbn [nadd Num_R] in HT.
    destruct (nltP (move_t m) (T + h - print_time m)) as [Hlt|Hge].
    + rewrite (pa_move_integrate_prim m' pas _ _ _ _ Hpas). cbv zeta. rewrite nint_R. cbn [mbind option_bind nadd nsub Num_R].
      rewrite IH; [|done|done|done|unfold move_end; cbn; lra|lra]. f_equal.
      unfold rsum. cbn [fmap list_fmap foldr]. set (S := foldr Rplus 0 _). unfold contrib. cbv zeta.
      replace (T + h - print_time m - move_t m) with (T - print_time m' + h) by lra.
      set (tau := T - print_time m') in *.
      replace (clip (move_t m') tau) with 0 by (unfold tau; clips).
      replace (clip (move_t m') (tau - h)) with 0 by (unfold tau; clips).
      replace (clip (move_t m') (tau + h)) with (Rmin (move_t m') (tau + h)) by (unfold tau; clips).
      rewrite (Rmax_left 0 0) by lra. lra.
    + assert (Hz : rsum (contrib sb <$> m' :: seg) = 0); [|rewrite Hz; f_equal; lra].
      apply (contribs_after sb (print_time m') _ b); [done|lra].
Qed.

Lemma pa_range_integrate_spec a seg1 m seg2 b pre post t :
  chain a (seg1 ++ m :: seg2) b -> 0 <= t <= move_t m -> T = print_time m + t -> a <= T - h -> T + h <= b ->
  pa_range_integrate (pre ++ seg1 ++ m :: seg2 ++ post) (length pre + length seg1) t pas h =
  Some (rsum (contrib 0 <$> seg1 ++ m :: seg2) - cx (start_pos m) * (h * h)).
Proof.
  intros Hc Ht HT Ha Hb. set (sb := cx (start_pos m)).
  replace (h * h) with (mass (b - T) - mass (a - T))
    by (unfold mass; repeat destruct Rle_dec; try lra; assert (b - T = h) as -> by lra; nra).
  rewrite <- (contrib_total sb a _ b Hc).
  apply chain_app in Hc as (c & Hc1 & Hp & Hm & Hc2).
  unfold pa_range_integrate.
  assert (Hi : (pre ++ seg1 ++ m :: seg2 ++ post) !! (length pre + length seg1)%nat = Some m).
  { by rewrite (assoc_L (++)), <- length_app, lookup_app_r, Nat.sub_diag by lia. }
  rewrite Hi. cbn [mbind option_bind]. rewrite !(pa_move_integrate_prim m pas _ _ _ _ Hpas).
  cbv zeta. cbn [mbind option_bind]. rewrite !nint_R. cbn [nadd nsub Num_R].
  rewrite (integrate_prev_spec a seg1 c) by (done || lra). cbn [mbind option_bind].
  assert (Hd : drop (S (length pre + length seg1)) (pre ++ seg1 ++ m :: seg2 ++ post) = seg2 ++ post).
  { rewrite (assoc_L (++)), <- length_app, drop_app_ge by lia.
    by replace (S (length (pre ++ seg1)) - length (pre ++ seg1))%nat with 1%nat by lia. }
  rewrite Hd, (integrate_next_spec m seg2 b) by (done || unfold move_end; cbn; lra). f_equal.
  rewrite fmap_app, rsum_app. fold sb. set (S1 := rsum (contrib sb <$> seg1)). unfold rsum. cbn [fmap list_fmap foldr].
  set (S2 := foldr Rplus 0 _). unfold contrib. cbv zeta. fold sb.
  replace (T - print_time m) with t by lra.
  replace (clip (move_t m) t) with t by clips.
  replace (clip (move_t m) (t - h)) with (Rmax 0 (t - h)) by clips.
  replace (clip (move_t m) (t + h)) with (Rmin (move_t m) (t + h)) by clips.
  rewrite (Rmin_right (move_t m) t), (Rmax_right 0 t) by lra. replace (sb - sb) with 0 by lra. lra.
Qed.
End smoothing.

(** *** Configured extruders *)

Record extruder_ok (es : extruder_stepper R) : Prop := {
  eo_pas : pa_list es <> [];
  eo_inv : half_smooth_time es <> 0 -> inv_half_smooth_time2 es = 1 / (half_smooth_time es * half_smooth_time es) }.

Lemma cleanup_pa_nonempty (l : list (pa_params R)) c : l <> [] -> cleanup_pa l c <> [].
Proof.
  induction l as [|p l IH]; [done|]. intros _. destruct l as [|q l]; [done|]. cbn [cleanup_pa].
  destruct (_ <=? _)%num; [done|]. by apply IH.
Qed.

Lemma find_pa_keeps (l1 l2 : list (pa_params R)) q t :
  active_print_time q <= t -> find_pa (l1 ++ q :: l2) t = find_pa (l1 ++ [q]) t.
Proof.
  intros Hq. induction l1 as [|p l1 IH]; cbn [app find_pa].
  - destruct l2; [done|]. destruct (nltP t (active_print_time q)); [exfalso; lra|done].
  - destruct (l1 ++ q :: l2) eqn:E1; [by destruct l1|]. destruct (l1 ++ [q]) eqn:E2; [by destruct l1|].
    destruct (_ <? _)%num; [|done]. exact IH.
Qed.

(** Only parameters that no later move uses are dropped. *)
Lemma cleanup_pa_keeps (l : list (pa_params R)) c t :
  (forall q, q ∈ l -> active_print_time q < c -> active_print_time q <= t) ->
  find_pa (reverse (cleanup_pa l c)) t = find_pa (reverse l) t.
Proof.
  induction l as [|p l IH]; intros Hl; [done|]. destruct l as [|q l]; [done|]. cbn [cleanup_pa].
  destruct (nleP c (active_print_time q)) as [|Hlt]; [done|].
  transitivity (find_pa (reverse (q :: l)) t); [apply IH; intros r Hr; apply Hl; by right|].
  rewrite (reverse_cons (q :: l) p), !(reverse_cons l q), <- (assoc_L (++)). symmetry. apply find_pa_keeps.
  apply Hl; [by right; left|lra].
Qed.

Lemma extruder_set_inv (sk sk' : stepper_kinematics R (extruder_stepper R)) pt pa smooth :
  extruder_ok (container sk) -> 0 < smooth -> extruder_set_pressure_advance pt pa smooth sk = Some sk' ->
  let h := smooth / 2 in
  let cleanup_time := last_flush_time sk - Rmax (half_smooth_time (container sk)) h in
  let l := cleanup_pa (pa_list (container sk)) cleanup_time in
  container sk' = mk_extruder_stepper (pa_list (container sk')) h (1 / (h * h)) /\
  gen_steps_pre_active sk' = h /\ gen_steps_post_active sk' = h /\
  (pa_list (container sk') = l /\ (exists q, last l = Some q /\ pressure_advance q = pa) \/
   pa_list (container sk') = l ++ [mk_pa_params pa pt]).
Proof.
  intros [Hne _] Hs E h c l. unfold extruder_set_pressure_advance in E. cbn [nmul nlit ndiv nsub Num_R] in E.
  replace (smooth * (1 / 2)) with h in E by (unfold h; lra). rewrite !nint_R in E.
  replace (if (h <? half_smooth_time (container sk))%num then half_smooth_time (container sk) else h)
    with (Rmax (half_smooth_time (container sk)) h) in E
    by (unfold Rmax; destruct (nltP h (half_smooth_time (container sk))), Rle_dec; lra).
  destruct (nonzeroP h) as [_|Hz]; [cbn [negb] in E|exfalso; apply Hz; unfold h; lra].
  destruct sk as [? ? ? ? ? ? ? ? ? ? es]. cbn -[cleanup_pa Rmax] in *. fold c in E. fold l in E.
  assert (Hl : l <> []) by (by apply cleanup_pa_nonempty).
  destruct (last l) as [q|] eqn:El; [|by apply last_None in El].
  cbn [mbind option_bind] in E. destruct (ReqbP (pressure_advance q) pa) as [Hq|Hq]; injection E as <-; cbn -[cleanup_pa].
  - split; [done|]. split; [done|]. split; [done|]. left. split; [done|]. by exists q.
  - split; [done|]. split; [done|]. split; [done|]. by right.
Qed.

Lemma find_pa_snoc (l : list (pa_params R)) p t :
  l <> [] -> find_pa (reverse (l ++ [p])) t = if (t <? active_print_time p)%num then find_pa (reverse l) t else Some p.
Proof.
  intros Hl. rewrite reverse_snoc. cbn [find_pa]. destruct (reverse l) eqn:E; [|done].
  exfalso. apply Hl. by rewrite <- (reverse_involutive l), E.
Qed.

Lemma extruder_set_pas (sk sk' : stepper_kinematics R (extruder_stepper R)) pt pa smooth m :
  extruder_ok (container sk) -> 0 < smooth -> extruder_set_pressure_advance pt pa smooth sk = Some sk' ->
  Forall (fun q => active_print_time q <= pt) (pa_list (container sk)) ->
  let cleanup_time := last_flush_time sk - Rmax (half_smooth_time (container sk)) (smooth / 2) in
  (forall q, q ∈ pa_list (container sk) -> active_print_time q < cleanup_time -> active_print_time q <= print_time m) ->
  pa_of (pa_list (container sk')) m =
  if nonzero (cy (axes_r m)) then (if Rle_dec pt (print_time m) then pa else pa_of (pa_list (container sk)) m) else 0.
Proof.
  intros Hok Hs E Hts c Hm. destruct (extruder_set_inv sk sk' pt pa smooth Hok Hs E) as (_ & _ & _ & Hl).
  destruct Hok as [Hne _]. fold c in Hl. assert (Hk := cleanup_pa_keeps _ _ _ Hm). assert (Hn := cleanup_pa_nonempty _ c Hne).
  unfold pa_of. destruct (nonzero _); [|done]. destruct Hl as [[-> (q & Hq & Epa)]| ->].
  - rewrite Hk. destruct Rle_dec as [Hle|]; [|done]. rewrite <- Hk.
    apply last_Some in Hq as [l' El]. rewrite El, reverse_snoc. cbn [find_pa].
    assert (Hin : q ∈ pa_list (container sk)).
    { assert (Hq' : q ∈ cleanup_pa (pa_list (container sk)) c) by (rewrite El; apply elem_of_app; right; by left).
      revert Hq'. clear. induction (pa_list (container sk)) as [|p l IH]; [done|]. destruct l as [|p' l]; [done|].
      cbn [cleanup_pa]. destruct (_ <=? _)%num; [done|]. intros Hq. right. by apply IH. }
    rewrite Forall_forall in Hts. specialize (Hts q Hin). cbn in Hts.
    destruct (reverse l'); [done|]. destruct (nltP (print_time m) (active_print_time q)); [exfalso; lra|done].
  - rewrite find_pa_snoc by done. cbn [active_print_time].
    destruct (nltP (print_time m) pt), Rle_dec; try (exfalso; lra); [by rewrite Hk|done].
Qed.

Lemma extruder_set_some (sk : stepper_kinematics R (extruder_stepper R)) pt pa smooth :
  extruder_ok (container sk) -> is_Some (extruder_set_pressure_advance pt pa smooth sk).
Proof.
  intros [Hne _]. unfold extruder_set_pressure_advance. destruct (negb _); [by eexists|].
  destruct sk as [? ? ? ? ? ? ? ? ? ? es]. cbn -[cleanup_pa]. 
  match goal with |- context [last (cleanup_pa _ ?c)] => assert (Hl := cleanup_pa_nonempty _ c Hne) end.
  destruct (last _) as [q|] eqn:El; [|by apply last_None in El]. cbn [mbind option_bind].
  destruct (Reqb _ _); by eexists.
Qed.

Definition wit_extrusion : move R :=
  mk_move 0 1 5 0 (mk_coord 0 0 0) (mk_coord 1 1 0).

(** C23: The extruder follows the formula of its comment.  After
    [extruder_set_pressure_advance] with a positive smooth time, at any time
    [T] within the queued motion with the motion queued half a smooth time to
    either side, the position is the integral over the moves of the nominal
    position plus the pressure advance times the velocity, weighted by the
    triangle of half width [smooth_time / 2] around [T], divided by the
    weight's total; and the step generator is told that window.  When the print
    times of the calls do not go back, the pressure advance of a move is the new
    value if it starts at or after the given print time, and stays the old one
    for the earlier moves, unless a parameter older than the cleanup time became
    active after the move started. *)
Theorem extruder_smooth_position (sk sk' : stepper_kinematics R (extruder_stepper R)) pt pa smooth
    a seg1 m seg2 b pre post t cp :
  extruder_ok (container sk) -> 0 < smooth -> extruder_set_pressure_advance pt pa smooth sk = Some sk' ->
  let h := smooth / 2 in
  let T := print_time m + t in
  let pas := pa_list (container sk') in
  chain a (seg1 ++ m :: seg2) b -> 0 <= t <= move_t m -> a <= T - h -> T + h <= b ->
  extruder_ok (container sk') /\ gen_steps_pre_active sk' = h /\ gen_steps_post_active sk' = h /\
  (exists Is,
     extruder_calc_position (container sk') cp (pre ++ seg1 ++ m :: seg2 ++ post) (length pre + length seg1) t =
       Some (rsum Is / (h * h)) /\
     Forall2 (fun m => integral (fun x => pa_position pas m (x - print_time m) * triangle h (x - T)) (print_time m) (move_end m))
       (seg1 ++ m :: seg2) Is) /\
  (Forall (fun q => active_print_time q <= pt) (pa_list (container sk)) ->
   let cleanup_time := last_flush_time sk - Rmax (half_smooth_time (container sk)) h in
   forall m, (forall q, q ∈ pa_list (container sk) -> active_print_time q < cleanup_time -> active_print_time q <= print_time m) ->
   cy (axes_r m) <> 0 ->
   pa_of pas m = if Rle_dec pt (print_time m) then pa else pa_of (pa_list (container sk)) m).
Proof.
  intros Hok Hs E h T pas Hc Ht Ha Hb. assert (Hpos : 0 < h) by (unfold h; lra).
  destruct (extruder_set_inv sk sk' pt pa smooth Hok Hs E) as (Ees & Epre & Epost & Hl). fold h in Ees, Epre, Epost, Hl.
  assert (Hpas : pas <> []).
  { unfold pas. destruct Hl as [[-> _]| ->]; [by apply cleanup_pa_nonempty, Hok|]. intros [_ ?]%app_eq_nil. done. }
  split; [split; [done|by rewrite Ees]|]. split; [done|]. split; [done|]. split.
  - exists (contrib pas h T 0 <$> seg1 ++ m :: seg2). split.
    + unfold extruder_calc_position. rewrite Ees. fold pas. cbn [half_smooth_time inv_half_smooth_time2 pa_list].
      rewrite (assoc_L (++) pre), <- length_app, list_lookup_middle by done. rewrite <- (assoc_L (++)), length_app.
      cbn [mbind option_bind]. destruct (nonzeroP h) as [_|Hz]; [cbn [negb]|exfalso; lra].
      rewrite (pa_range_integrate_spec pas h T Hpas Hpos a _ _ _ b) by done. cbn [mbind option_bind nadd nmul Num_R].
      f_equal. field. lra.
    + apply Forall2_fmap_r, Forall_Forall2_diag, Forall_forall. intros mv Hmv.
      apply (contrib_integral pas h T Hpos). clear -Hc Hmv. revert a Hc. induction (seg1 ++ m :: seg2) as [|m0 l IH]; intros a Hc.
      * by apply elem_of_nil in Hmv.
      * destruct Hc as (_ & Hm0 & Hc). apply elem_of_cons in Hmv as [->|Hmv]; [done|]. by apply (IH Hmv _ Hc).
  - intros Hts c mv Hmv Hax. unfold pas. rewrite (extruder_set_pas sk sk' pt pa smooth mv Hok Hs E Hts Hmv).
    by destruct (nonzeroP (cy (axes_r mv))).
Qed.

Lemma extruder_smooth_position_witness : exists sk' Is,
  extruder_set_pressure_advance 0 (1 / 20) (1 / 25) extruder_stepper_alloc = Some sk' /\
  extruder_calc_position (container sk') 0 [wit_extrusion] 0 (1 / 2) = Some (rsum Is / (1 / 25 / 2 * (1 / 25 / 2))).
Proof.
  assert (Hok : extruder_ok (container (extruder_stepper_alloc (A := R)))).
  { split; [done|]. cbn. intros Hz. exfalso. apply Hz. lra. }
  destruct (extruder_set_some extruder_stepper_alloc 0 (1 / 20) (1 / 25) Hok) as [sk' E].
  destruct (extruder_smooth_position extruder_stepper_alloc sk' 0 (1 / 20) (1 / 25)
    0 [] wit_extrusion [] 1 [] [] (1 / 2) 0) as (_ & _ & _ & (Is & Ec & _) & _); [done|lra|done| |cbn; lra..|].
  - cbn. lra.
  - exists sk', Is. split; [exact E|exact Ec].
Defined.
End exact.
