(* ===== verification/Lookahead.v ===== *)
(** * Move requests and look-ahead (klippy/toolhead.py, klippy/kinematics/extruder.py)

    A [Move] has limits on the squares of its speeds.  The look-ahead queue plans
    the speeds at the junctions so that the toolhead can stop after the last move,
    and turns the moves at the front of the queue into trapezoids.  [None] is an
    exception (a division by zero or the root of a negative number). *)

From Stdlib Require Import Reals Lra.
From S2P Require Import Prelude Double Numeric.

(** What a move uses of the toolhead. *)
Record limits (A : Type) := mk_limits {
  max_velocity : A;
  max_accel : A;
  min_cruise_ratio : A;
  square_corner_velocity : A;
  th_junction_deviation : A;
  mcr_pseudo_accel : A }.
Arguments mk_limits {A}. Arguments max_velocity {A}. Arguments max_accel {A}. Arguments min_cruise_ratio {A}.
Arguments square_corner_velocity {A}. Arguments th_junction_deviation {A}. Arguments mcr_pseudo_accel {A}.
#[export] Instance eta_limits A : Eta (limits A) := fun l =>
  mk_limits (max_velocity l) (max_accel l) (min_cruise_ratio l) (square_corner_velocity l) (th_junction_deviation l) (mcr_pseudo_accel l).

Record Move (A : Type) := mk_Move {
  mv_start_pos : list A;
  mv_end_pos : list A;
  accel : A;
  junction_deviation : A;
  timing_callbacks : list Z;
  is_kinematic_move : bool;
  axes_d : list A;
  move_d : A;
  mv_axes_r : list A;
  min_move_t : A;
  max_start_v2 : A;
  max_cruise_v2 : A;
  delta_v2 : A;
  next_junction_v2 : A;
  max_mcr_start_v2 : A;
  mcr_delta_v2 : A }.
Arguments mk_Move {A}. Arguments mv_start_pos {A}. Arguments mv_end_pos {A}. Arguments accel {A}. Arguments junction_deviation {A}.
Arguments timing_callbacks {A}. Arguments is_kinematic_move {A}. Arguments axes_d {A}. Arguments move_d {A}. Arguments mv_axes_r {A}.
Arguments min_move_t {A}. Arguments max_start_v2 {A}. Arguments max_cruise_v2 {A}. Arguments delta_v2 {A}.
Arguments next_junction_v2 {A}. Arguments max_mcr_start_v2 {A}. Arguments mcr_delta_v2 {A}.
#[export] Instance eta_Move A : Eta (Move A) := fun m =>
  mk_Move (mv_start_pos m) (mv_end_pos m) (accel m) (junction_deviation m) (timing_callbacks m) (is_kinematic_move m)
    (axes_d m) (move_d m) (mv_axes_r m) (min_move_t m) (max_start_v2 m) (max_cruise_v2 m) (delta_v2 m)
    (next_junction_v2 m) (max_mcr_start_v2 m) (mcr_delta_v2 m).

(** What [set_junction] stores in a move. *)
Record junction (A : Type) := mk_junction {
  start_v : A; cruise_v : A; end_v : A; accel_t : A; cruise_t : A; decel_t : A }.
Arguments mk_junction {A}. Arguments start_v {A}. Arguments cruise_v {A}. Arguments end_v {A}.
Arguments accel_t {A}. Arguments cruise_t {A}. Arguments decel_t {A}.

Section toolhead.
Context {A : Type} `{Num A}.
Local Open Scope num_scope.

(** Python's [min], [max], [/] and [math.sqrt]. *)
Definition pymin (x y : A) : A := if y <? x then y else x.
Definition pymax (x y : A) : A := if x <? y then y else x.
Definition pydiv (x y : A) : option A := if nonzero y then Some (x / y) else None.
Definition pysqrt (x : A) : option A := if x <? nint 0 then None else Some (nsqrt x).
Definition sq (x : A) : A := x * x.
Definition axis (l : list A) (i : nat) : A := default (nint 0) (l !! i).

(** ** Limits *)

Definition calc_junction_deviation (th : limits A) : option (limits A) :=
  let scv2 := sq (square_corner_velocity th) in
  jd ← pydiv (scv2 * (nsqrt (nint 2) - nint 1)) (max_accel th);
  Some (th <| th_junction_deviation := jd |> <| mcr_pseudo_accel := max_accel th * (nint 1 - min_cruise_ratio th) |>).
Definition set_max_velocities (max_velocity_ max_accel_ square_corner_velocity_ min_cruise_ratio_ : option A) (th : limits A)
    : option (limits A) :=
  calc_junction_deviation
    (th <| max_velocity := default (max_velocity th) max_velocity_ |> <| max_accel := default (max_accel th) max_accel_ |>
        <| square_corner_velocity := default (square_corner_velocity th) square_corner_velocity_ |>
        <| min_cruise_ratio := default (min_cruise_ratio th) min_cruise_ratio_ |>).

(** ** Move *)

Definition sum_squares (l : list A) : A := foldl (fun s d => s + d * d) (nint 0) l.
Definition max_abs (l : list A) : option A :=
  match l with [] => None | d :: l => Some (foldl (fun m d => pymax m (nabs d)) (nabs d) l) end.

Definition Move_init (th : limits A) (start_pos end_pos : list A) (speed : A) : option (Move A) :=
  let velocity := pymin speed (max_velocity th) in
  let axes_d := zip_with (fun sp ep => ep - sp) start_pos end_pos in
  d ← pysqrt (sum_squares (take 3 axes_d));
  '(end_pos, axes_d, d, inv_move_d, acc, velocity, kinematic) ←
    (if d <? nlit 1 1000000000 then
       d ← max_abs (drop 3 axes_d);
       Some (take 3 start_pos ++ drop 3 end_pos, replicate 3 (nint 0) ++ drop 3 axes_d, d,
             if nonzero d then nint 1 / d else nint 0, nlit 999999999 10, speed, false)
     else inv ← pydiv (nint 1) d; Some (end_pos, axes_d, d, inv, max_accel th, velocity, true));
  t ← pydiv d velocity;
  Some (mk_Move start_pos end_pos acc (th_junction_deviation th) [] kinematic axes_d d ((fun x => x * inv_move_d) <$> axes_d) t
          (nint 0) (sq velocity) (nint 2 * d * acc) (nlit 9999999999 10) (nint 0) (nint 2 * d * mcr_pseudo_accel th)).

Definition limit_speed (speed acc : A) (m : Move A) : option (Move A) :=
  let speed2 := sq speed in
  m ← (if speed2 <? max_cruise_v2 m
       then t ← pydiv (move_d m) speed; Some (m <| max_cruise_v2 := speed2 |> <| min_move_t := t |>)
       else Some m);
  let m := m <| accel ::= fun a => pymin a acc |> in
  let m := m <| delta_v2 := nint 2 * move_d m * accel m |> in
  Some (m <| mcr_delta_v2 ::= fun x => pymin x (delta_v2 m) |>).

Definition limit_next_junction_speed (speed : A) (m : Move A) : Move A :=
  m <| next_junction_v2 ::= fun x => pymin x (sq speed) |>.

(** ** Extra axes *)

Record PrinterExtruder := mk_PrinterExtruder {
  can_extrude : bool;
  nozzle_diameter : A;
  max_extrude_ratio : A;
  max_e_velocity : A;
  max_e_accel : A;
  max_e_dist : A;
  instant_corner_v : A }.
Inductive extra_axis : Type := Dummy | Extruder (e : PrinterExtruder).

Inductive move_error : Type := No_extruder | Extrude_below_minimum_temp | Extrude_only_move_too_long | Move_exceeds_maximum_extrusion | Python_error.
Definition or_error {B} (o : option B) : B + move_error := match o with Some m => inl m | None => inr Python_error end.

Definition extruder_check_move (e : PrinterExtruder) (ea_index : nat) (m : Move A) : Move A + move_error :=
  if negb (can_extrude e) then inr Extrude_below_minimum_temp else
  let axis_r := axis (mv_axes_r m) ea_index in
  let axis_d := axis (axes_d m) ea_index in
  if (negb (nonzero (axis (axes_d m) 0)) && negb (nonzero (axis (axes_d m) 1))) || (axis_r <? nint 0) then
    if max_e_dist e <? nabs axis_d then inr Extrude_only_move_too_long else
    or_error (inv ← pydiv (nint 1) (nabs axis_r); limit_speed (max_e_velocity e * inv) (max_e_accel e * inv) m)
  else if max_extrude_ratio e <? axis_r then
    if axis_d <=? nozzle_diameter e * max_extrude_ratio e then inl m else inr Move_exceeds_maximum_extrusion
  else inl m.
Definition check_move (ea : extra_axis) (ea_index : nat) (m : Move A) : Move A + move_error :=
  match ea with Dummy => inr No_extruder | Extruder e => extruder_check_move e ea_index m end.

(** [calc_junction] of an extra axis. *)
Definition ea_calc_junction (ea : extra_axis) (prev_move m : Move A) (ea_index : nat) : A :=
  match ea with
  | Dummy => max_cruise_v2 m
  | Extruder e =>
    let diff_r := axis (mv_axes_r m) ea_index - axis (mv_axes_r prev_move) ea_index in
    if nonzero diff_r then sq (instant_corner_v e / nabs diff_r) else max_cruise_v2 m
  end.

(** ** Junctions *)

(** The "approximated centripetal velocity" at the junction. *)
Definition centripetal_limit (prev_move m : Move A) (max_start_v2 : A) : option A :=
  let r := axis (mv_axes_r m) in
  let pr := axis (mv_axes_r prev_move) in
  let junction_cos_theta := nneg (r 0%nat * pr 0%nat + r 1%nat * pr 1%nat + r 2%nat * pr 2%nat) in
  sin_theta_d2 ← pysqrt (pymax (nlit 5 10 * (nint 1 - junction_cos_theta)) (nint 0));
  cos_theta_d2 ← pysqrt (pymax (nlit 5 10 * (nint 1 + junction_cos_theta)) (nint 0));
  let one_minus_sin_theta_d2 := nint 1 - sin_theta_d2 in
  if (nint 0 <? one_minus_sin_theta_d2) && (nint 0 <? cos_theta_d2) then
    R_jd ← pydiv sin_theta_d2 one_minus_sin_theta_d2;
    let move_jd_v2 := R_jd * junction_deviation m * accel m in
    let pmove_jd_v2 := R_jd * junction_deviation prev_move * accel prev_move in
    quarter_tan_theta_d2 ← pydiv (nlit 25 100 * sin_theta_d2) cos_theta_d2;
    let move_centripetal_v2 := delta_v2 m * quarter_tan_theta_d2 in
    let pmove_centripetal_v2 := delta_v2 prev_move * quarter_tan_theta_d2 in
    Some (foldl pymin max_start_v2 [move_jd_v2; pmove_jd_v2; move_centripetal_v2; pmove_centripetal_v2])
  else Some max_start_v2.

Definition calc_junction (extra_axes : list extra_axis) (prev_move m : Move A) : option (Move A) :=
  if negb (is_kinematic_move m) || negb (is_kinematic_move prev_move) then Some m else
  let ea_v2 := imap (fun e_index ea => ea_calc_junction ea prev_move m (e_index + 3)) extra_axes in
  let v2 := foldl pymin (max_cruise_v2 m)
    ([max_cruise_v2 prev_move; next_junction_v2 prev_move; max_start_v2 prev_move + delta_v2 prev_move] ++ ea_v2) in
  v2 ← centripetal_limit prev_move m v2;
  Some (m <| max_start_v2 := v2 |> <| max_mcr_start_v2 := pymin v2 (max_mcr_start_v2 prev_move + mcr_delta_v2 prev_move) |>).

Definition set_junction (start_v2 cruise_v2 end_v2 : A) (m : Move A) : option (junction A) :=
  half_inv_accel ← pydiv (nlit 5 10) (accel m);
  let accel_d := (cruise_v2 - start_v2) * half_inv_accel in
  let decel_d := (cruise_v2 - end_v2) * half_inv_accel in
  let cruise_d := move_d m - accel_d - decel_d in
  start_v ← pysqrt start_v2;
  cruise_v ← pysqrt cruise_v2;
  end_v ← pysqrt end_v2;
  accel_t ← pydiv accel_d ((start_v + cruise_v) * nlit 5 10);
  cruise_t ← pydiv cruise_d cruise_v;
  decel_t ← pydiv decel_d ((end_v + cruise_v) * nlit 5 10);
  Some (mk_junction start_v cruise_v end_v accel_t cruise_t decel_t).

(** ** The look-ahead queue *)

Record LookAheadQueue := mk_LookAheadQueue { queue : list (Move A); junction_flush : A }.
#[export] Instance eta_LookAheadQueue : Eta LookAheadQueue := fun q => mk_LookAheadQueue (queue q) (junction_flush q).

Definition LOOKAHEAD_FLUSH_TIME : A := nlit 150 1000.
Definition lookahead_init : LookAheadQueue := mk_LookAheadQueue [] LOOKAHEAD_FLUSH_TIME.
Definition reset (q : LookAheadQueue) : LookAheadQueue := mk_LookAheadQueue [] LOOKAHEAD_FLUSH_TIME.
Definition set_flush_time (flush_time : A) (q : LookAheadQueue) : LookAheadQueue := q <| junction_flush := flush_time |>.
Definition is_empty (q : LookAheadQueue) : bool := match queue q with [] => true | _ => false end.
Definition get_last (q : LookAheadQueue) : option (Move A) := last (queue q).

(** The variables of the loop from the last move to the first. *)
Record planning := mk_planning {
  next_start_v2 : A;
  next_mcr_start_v2 : A;
  peak_cruise_v2 : A;
  pending_cv2_assign : nat;
  flush_count : nat;
  update_flush_count : bool }.
#[export] Instance eta_planning : Eta planning := fun p =>
  mk_planning (next_start_v2 p) (next_mcr_start_v2 p) (peak_cruise_v2 p) (pending_cv2_assign p) (flush_count p) (update_flush_count p).
(** An entry of [junction_info]: the move, [start_v2], [cruise_v2] and
    [next_start_v2]. *)
Definition info : Type := Move A * A * option A * A.

Definition plan_move (i : nat) (m : Move A) (p : planning) : planning * info :=
  let reachable_start_v2 := next_start_v2 p + delta_v2 m in
  let start_v2 := pymin (max_start_v2 m) reachable_start_v2 in
  let pending := S (pending_cv2_assign p) in
  let reach_mcr_start_v2 := next_mcr_start_v2 p + mcr_delta_v2 m in
  let mcr_start_v2 := pymin (max_mcr_start_v2 m) reach_mcr_start_v2 in
  let '(cruise_v2, p') :=
    if mcr_start_v2 <? reach_mcr_start_v2 then
      let p' :=
        if (next_mcr_start_v2 p <? mcr_start_v2 + mcr_delta_v2 m) || (1 <? pending)%nat then
          (if update_flush_count p && nonzero (peak_cruise_v2 p)
           then p <| flush_count := (i + pending)%nat |> <| update_flush_count := false |> else p)
          <| peak_cruise_v2 := (mcr_start_v2 + reach_mcr_start_v2) * nlit 5 10 |>
        else p in
      (Some (foldl pymin ((start_v2 + reachable_start_v2) * nlit 5 10) [max_cruise_v2 m; peak_cruise_v2 p']),
       p' <| pending_cv2_assign := 0%nat |>)
    else (None, p <| pending_cv2_assign := pending |>) in
  (p' <| next_start_v2 := start_v2 |> <| next_mcr_start_v2 := mcr_start_v2 |>, (m, start_v2, cruise_v2, next_start_v2 p)).
(** The moves of the queue from place [i] on. *)
Fixpoint plan (n : nat) (lazy : bool) (i : nat) (l : list (Move A)) : planning * list info :=
  match l with
  | [] => (mk_planning (nint 0) (nint 0) (nint 0) 0 n lazy, [])
  | m :: l =>
    let '(p, infos) := plan n lazy (S i) l in
    let '(p, x) := plan_move i m p in (p, x :: infos)
  end.

(** "Traverse queue in forward direction to propagate cruise_v2" *)
Fixpoint propagate (prev_cruise_v2 : A) (l : list info) : option (list (Move A * junction A)) :=
  match l with
  | [] => Some []
  | (m, start_v2, cruise_v2, next_start_v2) :: l =>
    let c := match cruise_v2 with Some c => c | None => pymin prev_cruise_v2 start_v2 end in
    j ← set_junction (pymin start_v2 c) c (pymin next_start_v2 c) m;
    r ← propagate c l;
    Some ((m, j) :: r)
  end.

Definition flush (lazy : bool) (q : LookAheadQueue) : option (list (Move A * junction A) * LookAheadQueue) :=
  let q := q <| junction_flush := LOOKAHEAD_FLUSH_TIME |> in
  let '(p, infos) := plan (length (queue q)) lazy 0 (queue q) in
  if update_flush_count p || (flush_count p =? 0)%nat then Some ([], q) else
  r ← propagate (nint 0) (take (flush_count p) infos);
  Some (r, q <| queue ::= drop (flush_count p) |>).

Definition add_move (extra_axes : list extra_axis) (m : Move A) (q : LookAheadQueue) : option (bool * LookAheadQueue) :=
  match last (queue q) with
  | None => Some (false, q <| queue := [m] |>)
  | Some prev =>
    m ← calc_junction extra_axes prev m;
    let q := q <| queue ::= fun l => l ++ [m] |> <| junction_flush ::= fun t => t - min_move_t m |> in
    Some (junction_flush q <=? nint 0, q)
  end.
End toolhead.

(** ** Exact planning *)

Section exact.
Local Open Scope R_scope.
Abbreviation move := (Move R).

Lemma pymin_R (x y : R) : pymin x y = Rmin x y.
Proof. unfold pymin, Rmin. destruct (nltP y x), (Rle_dec x y); lra. Qed.
Lemma pymax_R (x y : R) : pymax x y = Rmax x y.
Proof. unfold pymax, Rmax. destruct (nltP x y), (Rle_dec x y); lra. Qed.
Lemma pydiv_R (x y : R) : y <> 0 -> pydiv x y = Some (x / y).
Proof. intros Hy. unfold pydiv. by destruct (nonzeroP y). Qed.
Lemma pysqrt_R (x : R) : 0 <= x -> pysqrt x = Some (sqrt x).
Proof. intros Hx. unfold pysqrt. rewrite nint_R. destruct (nltP x 0); [lra|done]. Qed.

(** A move with a distance and positive limits. *)
Record move_ok (m : move) : Prop := {
  mo_d : 0 < move_d m;
  mo_accel : 0 < accel m;
  mo_delta : delta_v2 m = 2 * move_d m * accel m;
  mo_cruise : 0 < max_cruise_v2 m;
  mo_start : 0 <= max_start_v2 m <= max_cruise_v2 m;
  mo_mcr_start : 0 <= max_mcr_start_v2 m <= max_start_v2 m;
  mo_mcr_delta : 0 < mcr_delta_v2 m <= delta_v2 m }.

Lemma delta_pos m : move_ok m -> 0 < delta_v2 m.
Proof. intros [? ? -> _ _ _ _]. apply Rmult_lt_0_compat; lra. Qed.

(** [j] moves [m] over its distance from speed [sqrt v] to speed [sqrt w]: it
    accelerates, cruises and decelerates with the acceleration of the move and
    within its limits. *)
Record profile (m : move) (v w : R) (j : junction R) : Prop := {
  pr_start : start_v j * start_v j = v;
  pr_end : end_v j * end_v j = w;
  pr_speeds : 0 <= start_v j <= cruise_v j /\ 0 <= end_v j <= cruise_v j /\ 0 < cruise_v j;
  pr_limit : cruise_v j * cruise_v j <= max_cruise_v2 m;
  pr_junction : v <= max_start_v2 m;
  pr_times : 0 <= accel_t j /\ 0 <= cruise_t j /\ 0 <= decel_t j;
  pr_accel : start_v j + accel m * accel_t j = cruise_v j;
  pr_decel : cruise_v j - accel m * decel_t j = end_v j;
  pr_distance : (start_v j + cruise_v j) / 2 * accel_t j + cruise_v j * cruise_t j + (cruise_v j + end_v j) / 2 * decel_t j = move_d m }.

(** The time to change between two speeds. *)
Lemma ramp_time a x y : 0 < a -> 0 <= x -> 0 < y -> (y * y - x * x) * (5 / 10 / a) / ((x + y) * (5 / 10)) = (y - x) / a.
Proof. intros. field. lra. Qed.

Lemma set_junction_profile m s c e : move_ok m ->
  0 <= s <= c -> 0 <= e <= c -> 0 < c <= max_cruise_v2 m -> s <= max_start_v2 m -> (c - s) + (c - e) <= delta_v2 m ->
  exists j, set_junction s c e m = Some j /\ profile m s e j.
Proof.
  intros Hm Hs He Hc Hst Hd. pose proof (mo_accel m Hm) as Ha. pose proof (mo_d m Hm) as Hmd. pose proof (mo_delta m Hm) as Hdel.
  assert (Hsq : 0 < sqrt c) by (apply sqrt_lt_R0; lra).
  assert (Hss : 0 <= sqrt s <= sqrt c) by (split; [apply sqrt_pos|apply sqrt_le_1; lra]).
  assert (Hse : 0 <= sqrt e <= sqrt c) by (split; [apply sqrt_pos|apply sqrt_le_1; lra]).
  pose proof (sqrt_sqrt s ltac:(lra)) as Es. pose proof (sqrt_sqrt c ltac:(lra)) as Ec. pose proof (sqrt_sqrt e ltac:(lra)) as Ee.
  unfold set_junction. rewrite pydiv_R by lra. cbn [mbind option_bind]. rewrite !pysqrt_R by lra. cbn [mbind option_bind].
  rsimpl. rewrite !pydiv_R by lra. cbn [mbind option_bind]. eexists. split; [reflexivity|].
  set (a := accel m) in *. set (d := move_d m) in *. set (x := sqrt s) in *. set (y := sqrt c) in *. set (z := sqrt e) in *.
  assert (Hx := ramp_time a x y Ha ltac:(lra) Hsq). assert (Hz := ramp_time a z y Ha ltac:(lra) Hsq).
  rewrite Es, Ec in Hx. rewrite Ee, Ec in Hz. clearbody x y z.
  assert (Hcr : d - (c - s) * (5 / 10 / a) - (c - e) * (5 / 10 / a) = (delta_v2 m - ((c - s) + (c - e))) / (2 * a)).
  { rewrite Hdel. fold a d. field. lra. }
  split; cbn [start_v cruise_v end_v accel_t cruise_t decel_t]; try done; try lra; rewrite ?Hx, ?Hz; fold a d.
  - rewrite Hcr. repeat split; repeat apply Rle_mult_inv_pos; lra.
  - field. lra.
  - field. lra.
  - rewrite <- Es, <- Ec, <- Ee. field. lra.
Qed.
(** The fastest start of a list of moves that can still stop at its end, and
    the same for the pseudo acceleration of the minimum cruise ratio. *)
Fixpoint top_start (l : list move) : R :=
  match l with [] => 0 | m :: l => Rmin (max_start_v2 m) (top_start l + delta_v2 m) end.
Fixpoint top_mcr (l : list move) : R :=
  match l with [] => 0 | m :: l => Rmin (max_mcr_start_v2 m) (top_mcr l + mcr_delta_v2 m) end.

Lemma top_mcr_le l : Forall move_ok l -> 0 <= top_mcr l <= top_start l.
Proof.
  induction 1 as [|m l Hm _ IH]; cbn; [lra|]. destruct Hm. unfold Rmin. repeat destruct (Rle_dec _ _); lra.
Qed.
Lemma top_mcr_app l r : Forall move_ok r -> top_mcr l <= top_mcr (l ++ r).
Proof.
  intros Hr. induction l as [|m l IH]; cbn; [apply (top_mcr_le r Hr)|]. unfold Rmin. repeat destruct (Rle_dec _ _); lra.
Qed.

(** The limits of a move by the one in front of it. *)
Definition junction_ok (prev m : move) : Prop :=
  max_start_v2 m <= max_cruise_v2 prev /\ max_start_v2 m <= max_start_v2 prev + delta_v2 prev /\
  max_mcr_start_v2 m = Rmin (max_start_v2 m) (max_mcr_start_v2 prev + mcr_delta_v2 prev).
Fixpoint linked (l : list move) : Prop :=
  match l with a :: (b :: _) as l' => junction_ok a b /\ linked l' | _ => True end.

Lemma linked_tail m l : linked (m :: l) -> linked l.
Proof. by destruct l as [|b l]; [|intros [_ ?]]. Qed.
Lemma linked_drop n l : linked l -> linked (drop n l).
Proof. revert l. induction n as [|n IH]; intros [|m l] H; try done. apply IH. by eapply linked_tail. Qed.
Lemma linked_snoc l a b : linked (l ++ [a]) -> junction_ok a b -> linked ((l ++ [a]) ++ [b]).
Proof.
  intros Hl Hj. induction l as [|x l IH]; [done|]. cbn [app] in *. pose proof (linked_tail _ _ Hl) as Ht. specialize (IH Ht).
  destruct (l ++ [a]) as [|y l'] eqn:E; [by destruct l|]. cbn [app] in *. split; [apply Hl|exact IH].
Qed.

(** The first move can accelerate; its speed at the start is not limited by the
    minimum cruise ratio. *)
Definition free (l : list move) : Prop :=
  match l with [] => False | m :: l => max_mcr_start_v2 m < top_mcr l + mcr_delta_v2 m end.
Definition valley (l : list move) : Prop :=
  match l with [] => False | m :: _ => max_mcr_start_v2 m = max_start_v2 m end.
Definition cut_ok (l : list move) : Prop := l = [] \/ (valley l /\ free l).

Lemma valley_top l : Forall move_ok l -> valley l -> free l -> top_start l = top_mcr l /\ top_start l = default 0 (max_start_v2 <$> head l).
Proof.
  intros Hl Hv Hf. pose proof (top_mcr_le l Hl) as Hle. destruct l as [|m l]; [done|]. cbn in *. inv Hl. destruct H1.
  revert Hle. unfold Rmin. repeat destruct (Rle_dec _ _); lra.
Qed.
Lemma cut_top l : Forall move_ok l -> cut_ok l -> top_start l = top_mcr l.
Proof. intros Hl [->|[Hv Hf]]; [done|]. by apply valley_top. Qed.
(** A new peak starts in front of a valley. *)
Lemma peak_cut m l : linked (m :: l) -> l = [] \/ free l -> top_mcr l < max_mcr_start_v2 m + mcr_delta_v2 m -> cut_ok l.
Proof.
  intros Hk [->|Hf] Hlt; [by left|]. right. split; [|done]. destruct l as [|b l]; [done|]. destruct Hk as [(_ & _ & Hb) _].
  cbn in *. revert Hlt Hb. unfold Rmin. repeat destruct (Rle_dec _ _); lra.
Qed.

(** The variables of the backward loop after the moves [l]. *)
Record planned (n : nat) (lazy : bool) (i : nat) (l : list move) (p : planning) : Prop := {
  pl_start : next_start_v2 p = top_start l;
  pl_mcr : next_mcr_start_v2 p = top_mcr l;
  pl_pending : (pending_cv2_assign p <= length l)%nat;
  pl_free : pending_cv2_assign p = 0%nat -> l = [] \/ (free l /\ top_mcr l <= peak_cruise_v2 p);
  pl_full : (0 < pending_cv2_assign p)%nat ->
    cut_ok (drop (pending_cv2_assign p) l) /\ top_start (drop (pending_cv2_assign p) l) <= top_mcr l /\ 0 < top_mcr l /\ ~ free l;
  pl_peak : if decide (drop (pending_cv2_assign p) l = []) then peak_cruise_v2 p = 0 else 0 < peak_cruise_v2 p;
  pl_flush : if update_flush_count p || negb lazy then update_flush_count p = lazy /\ flush_count p = n
             else exists c, flush_count p = (i + c)%nat /\ (0 < c < length l)%nat /\ cut_ok (drop c l) }.

(** The speed squared at the cruise of a move that can accelerate. *)
Definition cruise_of (m : move) (l : list move) (peak : R) : R :=
  Rmin (Rmin ((top_start (m :: l) + (top_start l + delta_v2 m)) / 2) (max_cruise_v2 m)) peak.
Definition new_peak (m : move) (l : list move) : R := (max_mcr_start_v2 m + (top_mcr l + mcr_delta_v2 m)) / 2.

Lemma plan_move_cases i m l p : next_start_v2 p = top_start l -> next_mcr_start_v2 p = top_mcr l ->
  let k := pending_cv2_assign p in let ts := top_start (m :: l) in let ms := top_mcr (m :: l) in
  (~ free (m :: l) /\
   plan_move i m p = (mk_planning ts ms (peak_cruise_v2 p) (S k) (flush_count p) (update_flush_count p), (m, ts, None, top_start l))) \/
  (free (m :: l) /\ ((0 < k)%nat \/ top_mcr l < max_mcr_start_v2 m + mcr_delta_v2 m) /\
   let hit := update_flush_count p && nonzero (peak_cruise_v2 p) in
   plan_move i m p = (mk_planning ts ms (new_peak m l) 0 (if hit then (i + S k)%nat else flush_count p) (update_flush_count p && negb hit),
                      (m, ts, Some (cruise_of m l (new_peak m l)), top_start l))) \/
  (free (m :: l) /\ k = 0%nat /\ max_mcr_start_v2 m + mcr_delta_v2 m <= top_mcr l /\
   plan_move i m p = (mk_planning ts ms (peak_cruise_v2 p) 0 (flush_count p) (update_flush_count p),
                      (m, ts, Some (cruise_of m l (peak_cruise_v2 p)), top_start l))).
Proof.
  destruct p as [ns nm pk k fc uf]. cbn [next_start_v2 next_mcr_start_v2 pending_cv2_assign peak_cruise_v2 flush_count update_flush_count].
  intros -> ->. unfold plan_move, free, new_peak, cruise_of. cbn [top_start top_mcr foldl]. cbn. rewrite !pymin_R.
  replace (5 / 10) with (/ 2) by lra. destruct (Rlt_dec (max_mcr_start_v2 m) (top_mcr l + mcr_delta_v2 m)) as [Hf|Hf].
  - right. rewrite (Rmin_left (max_mcr_start_v2 m)) by lra. destruct (RltbP (max_mcr_start_v2 m) (top_mcr l + mcr_delta_v2 m)); [|done].
    destruct (RltbP (top_mcr l) (max_mcr_start_v2 m + mcr_delta_v2 m)) as [Hp|Hp]; [left|destruct k as [|k]; [right|left]];
      cbn [orb]; (split; [done|]); (split; [first [done|by right|left; lia]|]); try (split; [lra|done]);
      destruct (uf && nonzero pk); by rewrite ?andb_true_r, ?andb_false_r.
  - left. rewrite (Rmin_right (max_mcr_start_v2 m)) by lra.
    destruct (RltbP (top_mcr l + mcr_delta_v2 m) (top_mcr l + mcr_delta_v2 m)); [lra|done].
Qed.

Lemma plan_spec n lazy i l : Forall move_ok l -> linked l -> planned n lazy i l (plan n lazy i l).1.
Proof.
  intros Hl. revert i. induction Hl as [|m l Hm Hl IH]; intros i Hk.
  { split; cbn; try done; try lia; try lra; auto; [|by destruct lazy]. rewrite decide_True by done. lra. }
  specialize (IH (S i) (linked_tail _ _ Hk)). cbn [plan]. destruct (plan n lazy (S i) l) as [p infos]. cbn [fst] in IH.
  destruct IH as [Hs Hc Hn Hfr Hfu Hpk Hfl].
  pose proof (top_mcr_le l Hl) as Hle. pose proof (mo_mcr_delta m Hm) as Hd. pose proof (mo_mcr_start m Hm) as Hms.
  assert (Hcut : (0 < pending_cv2_assign p)%nat \/ top_mcr l < max_mcr_start_v2 m + mcr_delta_v2 m -> cut_ok (drop (pending_cv2_assign p) l)).
  { destruct (Nat.eq_0_gt_0_cases (pending_cv2_assign p)) as [H0|H0]; [|by intros _; apply Hfu]. rewrite H0, drop_0. intros [?|?]; [lia|].
    eapply peak_cut; [done| |done]. destruct (Hfr H0) as [?|[? _]]; auto. }
  assert (Hlater : if update_flush_count p || negb lazy then update_flush_count p = lazy /\ flush_count p = n
    else exists c, flush_count p = (i + c)%nat /\ (0 < c < S (length l))%nat /\ cut_ok (drop c (m :: l))).
  { destruct (update_flush_count p || negb lazy); [done|]. destruct Hfl as (c & -> & Hlt & ?). exists (S c). repeat split; try lia. done. }
  destruct (plan_move_cases i m l p Hs Hc) as [[Hf ->]|[(Hf & Hor & ->)|(Hf & H0 & Hge & ->)]]; cbn [fst];
    split; cbn [next_start_v2 next_mcr_start_v2 peak_cruise_v2 pending_cv2_assign flush_count update_flush_count drop length]; try done; try lia.
  - intros _. cbn [free top_mcr] in *. rewrite Rmin_right by lra. split; [apply Hcut; lra|]. split; [|split; [lra|done]].
    destruct (Nat.eq_0_gt_0_cases (pending_cv2_assign p)) as [H0|H0].
    + rewrite H0, drop_0 in Hcut |- *. rewrite (cut_top l Hl); [lra|]. apply Hcut. lra.
    + destruct (Hfu H0) as (_ & ? & _). lra.
  - intros _. right. split; [done|]. cbn [free top_mcr] in *. unfold new_peak. rewrite Rmin_left by lra. lra.
  - cbn [free] in Hf. rewrite decide_False by done. unfold new_peak. lra.
  - destruct (update_flush_count p) eqn:Eu; cbn [andb orb] in *; [|done]. destruct (nonzeroP (peak_cruise_v2 p)) as [Hz|Hz]; [|done].
    cbn [negb andb orb]. destruct Hfl as [<- _]. cbn [negb]. eexists. split; [done|]. cbn [drop]. split; [|by apply Hcut].
    assert (drop (pending_cv2_assign p) l <> []) as Hne by (intros E; rewrite decide_True in Hpk by done; lra).
    destruct (decide (length l <= pending_cv2_assign p)%nat); [by rewrite drop_ge in Hne|lia].
  - intros _. right. split; [done|]. destruct (Hfr H0) as [->|[_ ?]]; cbn [free top_mcr] in *; [lra|]. rewrite Rmin_left by lra. lra.
  - rewrite decide_False by done. rewrite H0, drop_0 in Hpk. rewrite decide_False in Hpk; [done|]. intros ->. cbn in *. lra.
Qed.
(** Moves that follow each other: the speed at the end of one is the speed at
    the start of the next. *)
Fixpoint chain (v : R) (r : list (move * junction R)) (w : R) : Prop :=
  match r with [] => v = w | (m, j) :: r => exists u, profile m v u j /\ chain u r w end.
Lemma chain_concat v r u r' w : chain v r u -> chain u r' w -> chain v (r ++ r') w.
Proof. revert v. induction r as [|[m j] r IH]; cbn; intros v; [by intros ->|]. intros (x & ? & ?) ?. exists x. auto. Qed.

(** The first move of the list can reach its speed at the end. *)
Lemma junction_reach m l : Forall move_ok (m :: l) -> linked (m :: l) ->
  top_start l <= max_cruise_v2 m /\ top_start l <= top_start (m :: l) + delta_v2 m /\
  top_mcr l <= max_mcr_start_v2 m + mcr_delta_v2 m /\ top_start (m :: l) <= max_start_v2 m.
Proof.
  intros Hl Hk. inv Hl. pose proof (top_mcr_le l H2) as Hle. destruct H1.
  destruct l as [|b l]; [|destruct Hk as [(? & ? & ?) _]]; cbn in *; revert Hle; unfold Rmin in *; repeat destruct (Rle_dec _ _); lra.
Qed.

Lemma accel_profile m l peak : Forall move_ok (m :: l) -> linked (m :: l) -> 0 < peak ->
  let c := cruise_of m l peak in
  0 < c /\ Rmin (top_start (m :: l)) c = Rmin (top_start (m :: l)) peak /\ (Rmin (top_start l) c = Rmin (top_start l) peak) /\
  exists j, set_junction (pymin (top_start (m :: l)) c) c (pymin (top_start l) c) m = Some j /\
            profile m (Rmin (top_start (m :: l)) c) (Rmin (top_start l) c) j.
Proof.
  intros Hl Hk Hp c. destruct (junction_reach m l Hl Hk) as (H1 & H2 & _ & H4). pose proof (top_mcr_le (m :: l) Hl) as Hle.
  inv Hl. pose proof (top_mcr_le l H5) as Hle'. pose proof (delta_pos m H3) as Hd. pose proof (mo_cruise m H3). pose proof (mo_start m H3).
  assert (Hts : top_start (m :: l) <= top_start l + delta_v2 m) by apply Rmin_r.
  rewrite !pymin_R. set (ts := top_start (m :: l)) in *. set (tl := top_start l) in *.
  assert (Hc : c <= (ts + (tl + delta_v2 m)) / 2 /\ c <= max_cruise_v2 m /\ c <= peak /\ 0 < c /\
    Rmin ts c = Rmin ts peak /\ Rmin tl c = Rmin tl peak).
  { unfold c, cruise_of. fold ts tl. unfold Rmin. repeat destruct (Rle_dec _ _); lra. }
  destruct Hc as (? & ? & ? & ? & ? & ?). clearbody c ts tl. do 3 (split; [done|]).
  apply set_junction_profile; try done; unfold Rmin; repeat destruct (Rle_dec _ _); lra.
Qed.

Lemma decel_profile m l prev : Forall move_ok (m :: l) -> 0 < prev -> 0 < top_mcr (m :: l) ->
  let c := Rmin prev (top_start (m :: l)) in
  0 < c /\ Rmin (top_start (m :: l)) c = c /\
  exists j, set_junction (pymin (top_start (m :: l)) c) c (pymin (top_start l) c) m = Some j /\ profile m c (Rmin (top_start l) c) j.
Proof.
  intros Hl Hp Hm c. pose proof (top_mcr_le (m :: l) Hl) as Hle. inv Hl. pose proof (top_mcr_le l H2) as Hle'.
  pose proof (delta_pos m H1) as Hd. pose proof (mo_cruise m H1). pose proof (mo_start m H1).
  assert (Hts : top_start (m :: l) <= top_start l + delta_v2 m /\ top_start (m :: l) <= max_start_v2 m) by (split; [apply Rmin_r|apply Rmin_l]).
  rewrite !pymin_R. set (ts := top_start (m :: l)) in *. set (tl := top_start l) in *.
  assert (Hc : c <= ts /\ c <= prev /\ 0 < c) by (unfold c, Rmin; repeat destruct (Rle_dec _ _); lra).
  destruct Hc as (? & ? & ?). clearbody c ts tl. rewrite (Rmin_right ts) by done. do 2 (split; [done|]).
  apply set_junction_profile; try done; unfold Rmin; repeat destruct (Rle_dec _ _); lra.
Qed.
(** The speed squared at the start of the planned moves when the move in front
    of them cruises at [prev]. *)
Definition entry (l : list move) (p : planning) (prev : R) : R :=
  Rmin (top_start l) (if decide (pending_cv2_assign p = 0%nat) then peak_cruise_v2 p else prev).
Definition feeds (l : list move) (p : @planning R) (prev : R) : Prop :=
  (0 < pending_cv2_assign p)%nat -> 0 < prev /\ top_start (drop (pending_cv2_assign p) l) <= prev.

(** The start of moves that are cut off or in front of which a peak starts. *)
Lemma entry_cut n lazy i l p prev : Forall move_ok l -> planned n lazy i l p -> pending_cv2_assign p = 0%nat -> cut_ok l ->
  entry l p prev = top_start l.
Proof.
  intros Hl Hp H0 Hc. unfold entry. rewrite decide_True by done. apply Rmin_left. rewrite (cut_top l Hl Hc).
  destruct (pl_free _ _ _ _ _ Hp H0) as [->|[_ ?]]; [|done]. pose proof (pl_peak _ _ _ _ _ Hp) as Hpk.
  rewrite H0 in Hpk. cbn in Hpk |- *. rewrite decide_True in Hpk by done. lra.
Qed.

(** One move of the forward loop. *)
Definition cruise_at (prev : R) (x : info) : R := let '(_, s, cv, _) := x in match cv with Some c => c | None => Rmin prev s end.
Definition step_ok (m : move) (l : list move) (p p' : planning) (x : info) (prev : R) : Prop :=
  let c := cruise_at prev x in
  feeds l p c /\ x.1.1.1 = m /\
  exists j, set_junction (pymin (x.1.1.2) c) c (pymin x.2 c) m = Some j /\ profile m (entry (m :: l) p' prev) (entry l p c) j.

Lemma entry_pending l (p : @planning R) prev : (0 < pending_cv2_assign p)%nat -> entry l p prev = Rmin (top_start l) prev.
Proof. intros H. unfold entry. by rewrite decide_False by lia. Qed.

Lemma step_decel n lazy i m l p prev : Forall move_ok (m :: l) -> linked (m :: l) ->
  let p' := mk_planning (top_start (m :: l)) (top_mcr (m :: l)) (peak_cruise_v2 p) (S (pending_cv2_assign p)) (flush_count p) (update_flush_count p) in
  planned n lazy (S i) l p -> planned n lazy i (m :: l) p' -> feeds (m :: l) p' prev ->
  step_ok m l p p' (m, top_start (m :: l), None, top_start l) prev.
Proof.
  intros Hml Hk p' Hp Hp' Hf. destruct (pl_full _ _ _ _ _ Hp' (Nat.lt_0_succ _)) as (Hcut & Hts & Hm0 & _).
  destruct (Hf (Nat.lt_0_succ _)) as [Hprev Hprev']. subst p'. cbn [pending_cv2_assign drop] in *.
  destruct (decel_profile m l prev Hml Hprev Hm0) as (Hc & _ & j & Ej & Hj). pose proof (top_mcr_le (m :: l) Hml) as Hle.
  set (c := Rmin prev (top_start (m :: l))) in *.
  assert (Htop : top_start (drop (pending_cv2_assign p) l) <= c) by (unfold c, Rmin; destruct (Rle_dec _ _); lra).
  split; [by intros _|]. split; [done|]. exists j. cbn [fst snd cruise_at]. fold c. split; [done|].
  rewrite entry_pending by (cbn; lia). rewrite Rmin_comm. fold c.
  destruct (Nat.eq_0_gt_0_cases (pending_cv2_assign p)) as [H0|H0]; [|by rewrite entry_pending].
  rewrite H0, drop_0 in *. rewrite (entry_cut _ _ _ _ _ _ (Forall_inv_tail Hml) Hp H0 Hcut). by rewrite (Rmin_left (top_start l) c) in Hj.
Qed.

Lemma step_accel n lazy i m l p p' peak prev : Forall move_ok (m :: l) -> linked (m :: l) ->
  planned n lazy (S i) l p -> planned n lazy i (m :: l) p' -> pending_cv2_assign p' = 0%nat -> peak_cruise_v2 p' = peak ->
  (pending_cv2_assign p = 0%nat /\ peak = peak_cruise_v2 p) \/ (peak = new_peak m l /\ cut_ok (drop (pending_cv2_assign p) l)) ->
  step_ok m l p p' (m, top_start (m :: l), Some (cruise_of m l peak), top_start l) prev.
Proof.
  intros Hml Hk Hp Hp' H0' Epk Hor. pose proof (pl_peak _ _ _ _ _ Hp') as Hpk. rewrite H0', decide_False, Epk in Hpk by done.
  destruct (accel_profile m l peak Hml Hk Hpk) as (Hc & Hes & Hee & j & Ej & Hj). set (c := cruise_of m l peak) in *.
  destruct (junction_reach m l Hml Hk) as (H1 & H2 & H3 & _). pose proof (Forall_inv_tail Hml) as Hl. pose proof (top_mcr_le l Hl) as Hle.
  assert (Hent : entry (m :: l) p' prev = Rmin (top_start (m :: l)) c) by (unfold entry; by rewrite H0', decide_True, Epk).
  assert (Hnew : peak = new_peak m l -> top_mcr l <= c).
  { intros E. unfold c, cruise_of. rewrite E. unfold new_peak. clear -H1 H2 H3 Hle. unfold Rmin. repeat destruct (Rle_dec _ _); lra. }
  unfold step_ok. cbn [cruise_at fst snd]. fold c. rewrite Hent.
  destruct (Nat.eq_0_gt_0_cases (pending_cv2_assign p)) as [H0|H0].
  - split; [intros ?; lia|]. split; [done|]. exists j. split; [done|]. destruct Hor as [[_ E]|[E Hcut]].
    + unfold entry at 1. rewrite H0, decide_True by done. by rewrite <- E, <- Hee.
    + rewrite H0, drop_0 in Hcut. rewrite (entry_cut _ _ _ _ _ _ Hl Hp H0 Hcut). rewrite (Rmin_left (top_start l)) in Hj; [done|].
      rewrite (cut_top l Hl Hcut). auto.
  - destruct Hor as [[? _]|[E Hcut]]; [lia|]. destruct (pl_full _ _ _ _ _ Hp H0) as (_ & Hts & _).
    split; [intros _; split; [done|]; specialize (Hnew E); lra|]. split; [done|]. exists j. by rewrite entry_pending.
Qed.

Lemma plan_step n lazy i m l p p' x prev : Forall move_ok (m :: l) -> linked (m :: l) ->
  planned n lazy (S i) l p -> planned n lazy i (m :: l) p' -> plan_move i m p = (p', x) -> feeds (m :: l) p' prev -> step_ok m l p p' x prev.
Proof.
  intros Hml Hk Hp Hp' Ex Hf.
  destruct (plan_move_cases i m l p (pl_start _ _ _ _ _ Hp) (pl_mcr _ _ _ _ _ Hp)) as [[_ E]|[(Hfr & Hor & E)|(_ & H0 & _ & E)]];
    rewrite E in Ex; inv Ex.
  - by eapply step_decel.
  - eapply step_accel; try done. right. split; [done|].
    destruct (Nat.eq_0_gt_0_cases (pending_cv2_assign p)) as [H0|H0]; [|by apply (pl_full _ _ _ _ _ Hp)].
    rewrite H0, drop_0. apply (peak_cut m); [done| |destruct Hor; [lia|done]]. destruct (pl_free _ _ _ _ _ Hp H0) as [?|[? _]]; auto.
  - eapply step_accel; try done. by left.
Qed.

Lemma propagate_spec n lazy i l : Forall move_ok l -> linked l ->
  let '(p, infos) := plan n lazy i l in
  forall prev c, cut_ok (drop c l) -> feeds l p prev ->
  exists r, propagate prev (take c infos) = Some r /\ chain (entry l p prev) r (top_start (drop c l)) /\ r.*1 = take c l.
Proof.
  intros Hl. revert i. induction Hl as [|m l Hm Hl IH]; intros i Hk.
  { pose proof (plan_spec n lazy i [] (Forall_nil_2 _) I) as Hp. cbn [plan] in *. intros prev c _ _. rewrite !take_nil, drop_nil. exists [].
    split; [done|split; [|done]]. cbn [chain]. apply (entry_cut _ _ _ _ _ _ (Forall_nil_2 _) Hp); [done|by left]. }
  pose proof (linked_tail _ _ Hk) as Hk'. pose proof (Forall_cons_2 _ _ _ Hm Hl) as Hml.
  pose proof (plan_spec n lazy i (m :: l) Hml Hk) as Hp'. pose proof (plan_spec n lazy (S i) l Hl Hk') as Hp.
  specialize (IH (S i) Hk'). cbn [plan] in Hp' |- *. destruct (plan n lazy (S i) l) as [p infos]. cbn [fst] in Hp.
  destruct (plan_move i m p) as [p' x] eqn:Ex. cbn [fst] in Hp'. intros prev [|c] Hc Hf; cbn [take drop] in *.
  - exists []. split; [done|split; [|done]]. cbn [chain]. apply (entry_cut _ _ _ _ _ _ Hml Hp'); [|done].
    destruct (Nat.eq_0_gt_0_cases (pending_cv2_assign p')) as [?|H0]; [done|]. destruct (pl_full _ _ _ _ _ Hp' H0) as (_ & _ & _ & Hn).
    by destruct Hc as [?|[_ ?]].
  - destruct (plan_step _ _ _ _ _ _ _ _ _ Hml Hk Hp Hp' Ex Hf) as (Hf' & Em & j & Ej & Hj). destruct (IH _ c Hc Hf') as (r & Er & Hr & El).
    destruct x as [[[m' s] cv] nx]. cbn [fst snd cruise_at] in *. subst m'. exists ((m, j) :: r). cbn [propagate].
    replace (match cv with Some c => c | None => pymin prev s end) with (match cv with Some c => c | None => Rmin prev s end)
      by (destruct cv; by rewrite ?pymin_R).
    rewrite Ej. cbn [mbind option_bind]. rewrite Er. split; [done|]. split; [by eexists|]. cbn. by rewrite El.
Qed.
(** ** The queue *)

(** The queued moves go on from the speed [sqrt v] of the last flushed move. *)
Record queue_ok (v : R) (l : list move) : Prop := {
  qo_moves : Forall move_ok l;
  qo_linked : linked l;
  qo_cut : cut_ok l;
  qo_start : top_start l = v }.

Lemma queue_ok_nil : queue_ok 0 [].
Proof. split; try done. by left. Qed.

Lemma plan_length n lazy i l : length (plan (A:=R) n lazy i l).2 = length l.
Proof.
  revert i. induction l as [|m l IH]; intros i; [done|]. cbn [plan length]. rewrite <- (IH (S i)).
  destruct (plan n lazy (S i) l) as [p infos]. by destruct (plan_move i m p).
Qed.

Lemma flush_ok lazy q v : queue_ok v (queue q) ->
  exists r q' w, flush lazy q = Some (r, q') /\ chain v r w /\ queue_ok w (queue q') /\ r.*1 ++ queue q' = queue q /\
    junction_flush q' = LOOKAHEAD_FLUSH_TIME /\ (lazy = false -> queue q' = [] /\ w = 0).
Proof.
  intros [Hl Hk Hc Hv]. pose proof (plan_spec (length (queue q)) lazy 0 (queue q) Hl Hk) as Hp.
  pose proof (propagate_spec (length (queue q)) lazy 0 (queue q) Hl Hk) as Hpr.
  unfold flush. change (queue (q <| junction_flush := LOOKAHEAD_FLUSH_TIME |>)) with (queue q). destruct (plan (length (queue q)) lazy 0 (queue q)) as [p infos]. cbn [fst] in Hp.
  assert (Hpend : queue q <> [] -> pending_cv2_assign p = 0%nat).
  { intros Hne. destruct (Nat.eq_0_gt_0_cases (pending_cv2_assign p)) as [?|H0]; [done|].
    destruct (pl_full _ _ _ _ _ Hp H0) as (_ & _ & _ & Hn). by destruct Hc as [?|[_ ?]]. }
  assert (Hp0 : pending_cv2_assign p = 0%nat).
  { destruct (decide (queue q = [])) as [E|?]; [|auto]. pose proof (pl_pending _ _ _ _ _ Hp) as Hle. rewrite E in Hle. cbn in Hle. lia. }
  assert (Hcount : update_flush_count p || (flush_count p =? 0)%nat = false ->
    cut_ok (drop (flush_count p) (queue q)) /\ (lazy = false -> flush_count p = length (queue q))).
  { intros [Eu E0]%orb_false_iff. pose proof (pl_flush _ _ _ _ _ Hp) as Hfl. rewrite Eu in Hfl. destruct lazy; cbn in Hfl.
    - destruct Hfl as (c & -> & _ & Hcut). by split.
    - destruct Hfl as [_ ->]. split; [|done]. left. by apply drop_ge. }
  destruct (update_flush_count p || (flush_count p =? 0)%nat) eqn:Eu.
  - exists [], (q <| junction_flush := LOOKAHEAD_FLUSH_TIME |>), v. split; [done|]. split; [done|]. split; [by split|]. do 2 (split; [done|]).
    intros ->. apply orb_true_iff in Eu. pose proof (pl_flush _ _ _ _ _ Hp) as Hfl. rewrite orb_true_r in Hfl. destruct Hfl as [Hu Hfc].
    rewrite Hu in Eu. destruct Eu as [?|Eu%Nat.eqb_eq]; [done|]. rewrite Eu in Hfc. destruct q as [[|? ?] ?]; cbn in *; [by subst|lia].
  - destruct (Hcount eq_refl) as [Hcut Hall]. destruct (Hpr (nint 0) (flush_count p) Hcut) as (r & Er & Hr & Em); [intros ?; lia|].
    rewrite Er. rewrite (entry_cut _ _ _ _ _ _ Hl Hp Hp0 Hc), Hv in Hr. cbn [mbind option_bind].
    eexists r, _, _. split; [done|]. split; [exact Hr|]. cbn [queue junction_flush]. repeat split.
    + by apply Forall_drop.
    + by apply linked_drop.
    + done.
    + rewrite Em. apply take_drop.
    + rewrite (Hall H). by apply drop_ge.
    + rewrite (Hall H). by rewrite drop_ge.
Qed.
(** The planned speeds do not depend on other fields of a move. *)
Record same_plan (m m' : move) : Prop := {
  pl_d : move_d m' = move_d m;
  pl_accel : accel m' = accel m;
  pl_delta : delta_v2 m' = delta_v2 m;
  pl_cruise : max_cruise_v2 m' = max_cruise_v2 m;
  pl_max_start : max_start_v2 m' = max_start_v2 m;
  pl_max_mcr : max_mcr_start_v2 m' = max_mcr_start_v2 m;
  pl_mcr_delta : mcr_delta_v2 m' = mcr_delta_v2 m }.
Lemma same_plan_refl m : same_plan m m.
Proof. by split. Qed.
Lemma same_plan_tops l l' : Forall2 same_plan l l' -> top_start l' = top_start l /\ top_mcr l' = top_mcr l.
Proof. induction 1 as [|m m' l l' [] _ [IH1 IH2]]; [done|]. cbn. split; congruence. Qed.
Lemma queue_ok_same v l l' : Forall2 same_plan l l' -> queue_ok v l -> queue_ok v l'.
Proof.
  intros Hs [Hm Hk Hc Hv]. destruct (same_plan_tops l l' Hs) as [E1 E2]. split; [| |destruct Hc as [->|[Hva Hf]]|congruence].
  - clear -Hs Hm. induction Hs as [|m m' l l' [] _ IH]; [constructor|]. apply Forall_cons in Hm as [[] Hm]. apply Forall_cons. split; [split; congruence|auto].
  - clear -Hs Hk. induction Hs as [|m m' l l' Hmm Hs IH]; [done|]. pose proof (linked_tail _ _ Hk) as Ht. destruct Hs as [|b b' l l' Hbb Hs]; [done|].
    split; [|by apply IH]. destruct Hk as [(K1 & K2 & K3) _], Hmm, Hbb. unfold junction_ok. split_and!; congruence.
  - left. by inv Hs.
  - right. destruct Hs as [|m m' l l' Hmm Hs]; [done|]. destruct (same_plan_tops l l' Hs) as [_ E]. destruct Hmm. unfold valley, free in *. split; congruence.
Qed.
Lemma alter_last_same f l : (forall m, same_plan m (f m)) -> Forall2 same_plan l (alter f (pred (length l)) l).
Proof.
  intros Hf. apply Forall2_same_length_lookup_2; [by rewrite length_alter|]. intros i x y Hx Hy.
  rewrite list_lookup_alter in Hy. case_decide; subst; rewrite Hx in Hy; cbn in Hy; inv Hy; [done|apply same_plan_refl].
Qed.

(** A move that was not queued yet, and what stays of it when it is queued. *)
Record fresh (m : move) : Prop := {
  fr_ok : move_ok m;
  fr_start : max_start_v2 m = 0;
  fr_mcr : max_mcr_start_v2 m = 0;
  fr_next : 0 <= next_junction_v2 m;
  fr_deviation : 0 <= junction_deviation m }.
Record same_path (m m' : move) : Prop := {
  sp_start : mv_start_pos m' = mv_start_pos m;
  sp_end : mv_end_pos m' = mv_end_pos m;
  sp_kin : is_kinematic_move m' = is_kinematic_move m;
  sp_d : axes_d m' = axes_d m /\ move_d m' = move_d m /\ mv_axes_r m' = mv_axes_r m;
  sp_accel : accel m' = accel m;
  sp_cruise : max_cruise_v2 m' = max_cruise_v2 m }.
Lemma same_path_refl m : same_path m m.
Proof. by split. Qed.
(** What a queued move keeps for the junction with the next. *)
Definition extendable (m : move) : Prop := 0 <= next_junction_v2 m /\ 0 <= junction_deviation m.

Lemma foldl_pymin_le (l : list R) x : foldl pymin x l <= x /\ Forall (fun y => foldl pymin x l <= y) l.
Proof.
  revert x. induction l as [|y l IH]; intros x; cbn [foldl]; [split; [lra|constructor]|].
  destruct (IH (pymin x y)) as [Hle Hall]. rewrite pymin_R in *. pose proof (Rmin_l x y). pose proof (Rmin_r x y).
  split; [lra|]. constructor; [lra|done].
Qed.
Lemma foldl_pymin_ge (b : R) l x : b <= x -> Forall (Rle b) l -> b <= foldl pymin x l.
Proof.
  revert x. induction l as [|y l IH]; intros x Hx Hl; [done|]. inv Hl. apply IH; [|done]. rewrite pymin_R. by apply Rmin_glb.
Qed.

Lemma ea_calc_junction_nonneg ea prev m i : move_ok m -> 0 <= ea_calc_junction (A:=R) ea prev m i.
Proof.
  intros Hm. pose proof (mo_cruise m Hm). destruct ea as [|e]; cbn [ea_calc_junction]; [lra|].
  destruct (nonzero _); [|lra]. apply Rle_0_sqr.
Qed.

Lemma centripetal_ok prev m v : move_ok prev -> move_ok m -> extendable prev -> extendable m -> 0 <= v ->
  exists v', centripetal_limit prev m v = Some v' /\ 0 <= v' <= v.
Proof.
  intros Hp Hm [_ Hjp] [_ Hjm] Hv. unfold centripetal_limit. rsimpl.
  set (ct := - _). assert (Hmax : forall x, 0 <= pymax x 0) by (intros x; unfold pymax; destruct (nltP x 0); lra).
  rewrite !pysqrt_R by apply Hmax. cbn [mbind option_bind].
  set (sn := sqrt _). set (cs := sqrt _). assert (0 <= sn) by apply sqrt_pos. assert (0 <= cs) by apply sqrt_pos. clearbody sn cs.
  destruct (nltP 0 (1 - sn)) as [Hs|Hs]; [|exists v; split; [done|lra]].
  destruct (nltP 0 cs) as [Hc|Hc]; [|exists v; split; [done|lra]].
  cbn [andb]. rewrite !pydiv_R by lra. cbn [mbind option_bind]. eexists. split; [done|].
  assert (HR : 0 <= sn / (1 - sn)) by (apply Rle_mult_inv_pos; lra).
  assert (HT : 0 <= 25 / 100 * sn / cs) by (apply Rle_mult_inv_pos; lra).
  revert HR HT. generalize (sn / (1 - sn)), (25 / 100 * sn / cs). intros R_jd quarter_tan HR HT.
  pose proof (mo_accel _ Hp). pose proof (mo_accel _ Hm). pose proof (delta_pos _ Hp). pose proof (delta_pos _ Hm).
  split; [|apply foldl_pymin_le]. apply foldl_pymin_ge; [done|]. rewrite !Forall_cons.
  repeat split; try apply Forall_nil_2; repeat apply Rmult_le_pos; lra.
Qed.

Lemma calc_junction_ok ea prev m : move_ok prev -> extendable prev -> fresh m ->
  exists m', calc_junction ea prev m = Some m' /\ move_ok m' /\ extendable m' /\ junction_ok prev m' /\ same_path m m' /\ min_move_t m' = min_move_t m.
Proof.
  intros Hp Hep [Hm Hs Hc Hn Hj]. pose proof (mo_cruise _ Hp). pose proof (mo_start _ Hp). pose proof (delta_pos _ Hp). pose proof (mo_cruise _ Hm).
  pose proof (mo_mcr_start _ Hp). pose proof (mo_mcr_delta _ Hp).
  unfold calc_junction. destruct (negb _ || negb _).
  { exists m. split; [done|]. repeat split; try done; try apply Hm; unfold junction_ok; rewrite ?Hs, ?Hc; try lra. rewrite Rmin_left; lra. }
  set (l := _ ++ imap _ _). assert (Hl : Forall (Rle 0) l).
  { apply Forall_app. split; [rewrite !Forall_cons; repeat split; try apply Forall_nil_2; try apply Hep; rsimpl; lra|]. apply Forall_lookup. intros i x Hx.
    apply list_lookup_imap_Some in Hx as (e & _ & ->). by apply ea_calc_junction_nonneg. }
  destruct (foldl_pymin_le l (max_cruise_v2 m)) as [Hle Hall]. apply Forall_app in Hall as [Hall _]. inv Hall. inv H8. inv H10.
  destruct (centripetal_ok prev m (foldl pymin (max_cruise_v2 m) l) Hp Hm Hep (conj Hn Hj)) as (v & -> & Hv); [by apply foldl_pymin_ge; [lra|]|].
  cbn [mbind option_bind]. eexists. split; [done|]. rsimpl. rewrite pymin_R.
  repeat split; cbn [max_start_v2 max_cruise_v2 max_mcr_start_v2 delta_v2 mcr_delta_v2 move_d accel next_junction_v2 junction_deviation]; try done; try apply Hm; try lra.
  all: cbn; unfold Rmin; repeat destruct (Rle_dec _ _); lra.
Qed.

(** Appending a move leaves the speed at the front as it is. *)
Lemma queue_ok_snoc v l a b : queue_ok v (l ++ [a]) -> move_ok b -> junction_ok a b -> queue_ok v ((l ++ [a]) ++ [b]).
Proof.
  intros [Hl Hk Hc Hv] Hb Hj. destruct Hc as [?|[Hva Hf]]; [by destruct l|].
  assert (Hb' : Forall move_ok [b]) by by apply Forall_singleton. assert (Hl' : Forall move_ok ((l ++ [a]) ++ [b])) by by apply Forall_app.
  assert (Hva' : valley ((l ++ [a]) ++ [b])) by by destruct l.
  assert (Hf' : free ((l ++ [a]) ++ [b])).
  { destruct (l ++ [a]) as [|x r]; [done|]. cbn [app free] in *. pose proof (top_mcr_app r [b] Hb'). lra. }
  split; [done|by apply linked_snoc|right; done|]. rewrite (proj2 (valley_top _ Hl' Hva' Hf')), <- Hv, (proj2 (valley_top _ Hl Hva Hf)). by destruct l.
Qed.
Lemma queue_ok_first m : fresh m -> queue_ok 0 [m].
Proof.
  intros [Hm Hs Hc _ _]. pose proof (mo_mcr_delta m Hm). pose proof (delta_pos m Hm). split; [by apply Forall_singleton|done| |].
  - right. cbn. rewrite Hs, Hc. split; [done|lra].
  - cbn. rewrite Hs. apply Rmin_left. lra.
Qed.

Lemma add_move_ok ea m q v : queue_ok v (queue q) -> Forall extendable (queue q) -> fresh m ->
  exists b q' m', add_move ea m q = Some (b, q') /\ queue q' = queue q ++ [m'] /\ same_path m m' /\
    queue_ok v (queue q') /\ Forall extendable (queue q') /\
    b = match queue q with [] => false | _ => (junction_flush q - min_move_t m <=? 0)%num end.
Proof.
  intros Hq Hex Hm. unfold add_move. destruct (last (queue q)) as [prev|] eqn:El.
  - apply last_Some in El as [l El]. rewrite El in *.
    destruct (calc_junction_ok ea prev m) as (m' & -> & Hm' & Hex' & Hj & Hsp & Ht); [| |done|].
    { apply (qo_moves _ _) in Hq. by apply Forall_app in Hq as [_ Hq%Forall_inv]. }
    { by apply Forall_app in Hex as [_ Hx%Forall_inv]. }
    cbn [mbind option_bind]. eexists _, _, m'. split; [done|]. cbn. rewrite El, Ht. split; [done|]. split; [done|].
    split; [by apply queue_ok_snoc|]. split; [apply Forall_app; split; [done|by apply Forall_singleton]|]. rewrite Rdiv_1_r. by destruct l.
  - apply last_None in El. rewrite El in *. exists false, (q <| queue := [m] |>), m. split; [done|]. cbn. split; [done|]. split; [by apply same_path_refl|].
    rewrite <- (qo_start _ _ Hq). cbn. split; [by apply queue_ok_first|]. split; [|done]. apply Forall_singleton. split; apply Hm.
Qed.
(** ** New moves *)

(** The limits a configuration allows; 99999999.9 is the acceleration of a move
    of the extra axes alone. *)
Record limits_ok (th : limits R) : Prop := {
  lo_velocity : 0 < max_velocity th;
  lo_accel : 0 < max_accel th <= 999999999 / 10;
  lo_ratio : 0 <= min_cruise_ratio th < 1;
  lo_deviation : 0 <= th_junction_deviation th;
  lo_pseudo : 0 < mcr_pseudo_accel th <= max_accel th }.

Lemma calc_junction_deviation_ok th : 0 < max_velocity th -> 0 < max_accel th <= 999999999 / 10 -> 0 <= min_cruise_ratio th < 1 ->
  exists th', calc_junction_deviation th = Some th' /\ limits_ok th'.
Proof.
  intros Hv Ha Hr. unfold calc_junction_deviation. rewrite pydiv_R by lra. cbn [mbind option_bind]. eexists. split; [done|].
  assert (1 <= sqrt 2) by (rewrite <- sqrt_1; apply sqrt_le_1; lra). split; cbn -[sq]; rewrite ?Rdiv_1_r; try done.
  - apply Rle_mult_inv_pos; [|lra]. apply Rmult_le_pos; [apply Rle_0_sqr|]. cbn. lra.
  - split; [apply Rmult_lt_0_compat; lra|]. rewrite <- (Rmult_1_r (max_accel th)) at 2. apply Rmult_le_compat_l; lra.
Qed.

Lemma max_abs_nonneg (l : list R) d : max_abs l = Some d -> 0 <= d.
Proof.
  destruct l as [|x l]; intros Hd; inv Hd. assert (0 <= Rabs x) as Hx by apply Rabs_pos. cbn. revert Hx. generalize (Rabs x).
  induction l as [|y l IH]; intros z Hz; [done|]. cbn. apply IH. unfold pymax. destruct (nltP z (Rabs y)); [apply Rabs_pos|done].
Qed.

Lemma fresh_intro sp ep jd k ad d ar v a mp : 0 < d -> 0 < v -> 0 < a -> 0 <= jd -> 0 < mp <= a ->
  fresh (mk_Move sp ep a jd [] k ad d ar (d / v) (nint 0) (sq v) (nint 2 * d * a)%num (nlit 9999999999 10) (nint 0) (nint 2 * d * mp)%num).
Proof.
  intros Hd Hv Ha Hj Hm. assert (0 < v * v) by (by apply Rmult_lt_0_compat). assert (0 < d * mp) by (apply Rmult_lt_0_compat; lra).
  assert (d * mp <= d * a) by (apply Rmult_le_compat_l; lra). rewrite !nint_R. rsimpl.
  repeat split; cbn; try lra; fold (Rsqr v); unfold sq, Rsqr; cbn; lra.
Qed.

(** What [Move] makes of a request that has a distance. *)
Lemma Move_init_ok th sp ep speed m : Move_init th sp ep speed = Some m -> 0 < speed -> limits_ok th -> nonzero (move_d m) = true ->
  fresh m /\ mv_start_pos m = sp /\ mv_axes_r m = (fun x => x / move_d m) <$> axes_d m /\
  let ad := zip_with (fun s e => e - s) sp ep in
  if is_kinematic_move m then
    mv_end_pos m = ep /\ axes_d m = ad /\ accel m = max_accel th /\
    max_cruise_v2 m <= max_velocity th * max_velocity th /\ max_cruise_v2 m <= speed * speed
  else mv_end_pos m = take 3 sp ++ drop 3 ep /\ axes_d m = replicate 3 0 ++ drop 3 ad.
Proof.
  unfold Move_init. intros Hi Hs [Hv Ha _ Hj Hp] Hnz. rewrite pymin_R in Hi.
  destruct (pysqrt _) as [d|] eqn:Ed; [|done]. cbn [mbind option_bind] in Hi.
  assert (Hmin : 0 < Rmin speed (max_velocity th)) by by apply Rmin_pos.
  destruct (nltP d (nlit 1 1000000000)) as [Hd|Hd].
  - destruct (max_abs _) as [d'|] eqn:Ed'; [|done]. cbn [mbind option_bind] in Hi. rewrite pydiv_R in Hi by lra. cbn [mbind option_bind] in Hi.
    inv Hi. cbn [move_d] in Hnz. apply max_abs_nonneg in Ed'. rewrite Hnz. destruct (nonzeroP d') as [Hz|]; [|done].
    split; [apply fresh_intro; try lra; cbn; lra|]. split; [done|]. split; [|cbn; by rewrite ?Rdiv_1_r]. cbn [mv_axes_r axes_d move_d fmap list_fmap].
    do 3 (f_equal; [field; lra|]). apply list_fmap_ext. intros _ x _. field. lra.
  - cbn in Hd. rewrite !pydiv_R in Hi by (rsimpl; lra). cbn [mbind option_bind] in Hi. rewrite pydiv_R in Hi by lra. cbn [mbind option_bind] in Hi. inv Hi.
    split; [apply fresh_intro; lra|]. split; [done|]. split; [apply list_fmap_ext; intros _ x _; cbn; field; lra|]. cbn. repeat split.
    + unfold sq. apply Rmult_le_compat; try apply Rmin_r; lra.
    + unfold sq. apply Rmult_le_compat; try apply Rmin_l; lra.
Qed.

(** [m'] is [m] with lower limits. *)
Record restricts (m m' : move) : Prop := {
  rs_fresh : fresh m';
  rs_path : mv_start_pos m' = mv_start_pos m /\ mv_end_pos m' = mv_end_pos m /\ is_kinematic_move m' = is_kinematic_move m;
  rs_d : axes_d m' = axes_d m /\ move_d m' = move_d m /\ mv_axes_r m' = mv_axes_r m;
  rs_limits : max_cruise_v2 m' <= max_cruise_v2 m /\ accel m' <= accel m }.
Lemma restricts_refl m : fresh m -> restricts m m.
Proof. split; [done|done|done|lra]. Qed.
Lemma restricts_trans m1 m2 m3 : restricts m1 m2 -> restricts m2 m3 -> restricts m1 m3.
Proof. intros [? (? & ? & ?) (? & ? & ?) ?] [? (? & ? & ?) (? & ? & ?) ?]. split; [done|split_and!; congruence|split_and!; congruence|lra]. Qed.

Lemma limit_speed_ok speed acc m : fresh m -> 0 < speed -> 0 < acc ->
  exists m', limit_speed speed acc m = Some m' /\ restricts m m' /\ max_cruise_v2 m' <= speed * speed /\ accel m' <= acc.
Proof.
  intros [[Hd Ha Hde Hc Hst Hms Hmd] Hs Hmc Hn Hj] Hsp Hac. unfold limit_speed. rewrite pydiv_R by lra.
  assert (Hsq : 0 < sq speed) by by apply Rmult_lt_0_compat.
  assert (Hmin : 0 < Rmin (accel m) acc) by by apply Rmin_pos. pose proof (Rmin_l (accel m) acc). pose proof (Rmin_r (accel m) acc).
  assert (Hdel : 0 < 2 * move_d m * Rmin (accel m) acc) by (apply Rmult_lt_0_compat; lra).
  assert (Hmcr : 0 < Rmin (mcr_delta_v2 m) (2 * move_d m * Rmin (accel m) acc)) by (apply Rmin_pos; lra).
  pose proof (Rmin_r (mcr_delta_v2 m) (2 * move_d m * Rmin (accel m) acc)).
  assert (Ef : sq speed = speed * speed) by done.
  destruct (nltP (sq speed) (max_cruise_v2 m)); cbn [mbind option_bind]; eexists; (split; [done|]);
    repeat split; cbn; rewrite ?pymin_R, ?Rdiv_1_r; try done; try lra.
Qed.

(** The limits of the extruder. *)
Definition axis_ok (ea : @extra_axis R) : Prop := match ea with Dummy => True | Extruder e => 0 < max_e_velocity e /\ 0 < max_e_accel e end.
Lemma check_move_ok ea i m m' : axis_ok ea -> fresh m -> axis (mv_axes_r m) i <> 0 -> check_move ea i m = inl m' -> restricts m m' /\ ea <> Dummy.
Proof.
  destruct ea as [|e]; [done|]. intros [Hv Ha] Hf Hr. cbn [check_move]. unfold extruder_check_move. destruct (negb (can_extrude e)); [done|].
  assert (Hab : 0 < Rabs (axis (mv_axes_r m) i)) by by apply Rabs_pos_lt. assert (Hinv : 0 < 1 / Rabs (axis (mv_axes_r m) i)) by (apply Rdiv_lt_0_compat; lra).
  destruct (_ || _).
  - destruct (nlt _ _); [done|]. rewrite pydiv_R by (cbn; lra). cbn [mbind option_bind]. rewrite nint_R.
    set (ir := 1 / Rabs (axis (mv_axes_r m) i)) in *.
    destruct (limit_speed_ok (max_e_velocity e * ir) (max_e_accel e * ir) m Hf) as (m1 & E & Hr1 & _); [by apply Rmult_lt_0_compat..|].
    intros E'. assert (E1 : or_error (limit_speed (max_e_velocity e * ir) (max_e_accel e * ir) m) = inl m') by exact E'.
    rewrite E in E1. cbn in E1. by inv E1.
  - destruct (nlt _ _); [|intros E; inv E; split; [by apply restricts_refl|done]].
    destruct (nle _ _); [|done]. intros E. inv E. split; [by apply restricts_refl|done].
Qed.
End exact.
