(* ===== verification/Toolhead.v ===== *)
(** * The toolhead (klippy/toolhead.py, klippy/extras/motion_queuing.py)

    [ToolHead] and [PrinterMotionQueuing] as one state: a request becomes a move of
    the look-ahead queue, planned moves become moves of the trapezoid queue, and
    the motion queuing code has steps generated up to a time that only grows.
    [Halt] is a raised exception.  The reactor may run other code wherever a
    function pauses: a function that pauses is given as its parts between pauses,
    and [step] runs the parts of all functions in any order.  The reactor's clock
    and the estimate of the micro-controller's time are arbitrary readings. *)

From Stdlib Require Import Reals Lra.
From S2P Require Import Prelude Double Numeric Trapq Lookahead.

Inductive queuing_state : Type := Main | NeedPrime | Priming.
#[export] Instance queuing_state_eq_dec : EqDecision queuing_state.
Proof. solve_decision. Defined.

Record PrinterMotionQueuing (A : Type) := mk_PrinterMotionQueuing {
  clear_history_time : A;
  kin_flush_delay : A;
  mq_can_pause : bool;
  flush_timer : A;
  do_kick_flush_timer : bool;
  last_flush_time : A;
  last_step_gen_time : A;
  need_flush_time : A;
  need_step_gen_time : A;
  drip_start_times : list A }.
Arguments mk_PrinterMotionQueuing {A}. Arguments clear_history_time {A}. Arguments kin_flush_delay {A}. Arguments mq_can_pause {A}.
Arguments flush_timer {A}. Arguments do_kick_flush_timer {A}. Arguments last_flush_time {A}. Arguments last_step_gen_time {A}.
Arguments need_flush_time {A}. Arguments need_step_gen_time {A}. Arguments drip_start_times {A}.
#[export] Instance eta_PrinterMotionQueuing A : Eta (PrinterMotionQueuing A) := fun q =>
  mk_PrinterMotionQueuing (clear_history_time q) (kin_flush_delay q) (mq_can_pause q) (flush_timer q) (do_kick_flush_timer q)
    (last_flush_time q) (last_step_gen_time q) (need_flush_time q) (need_step_gen_time q) (drip_start_times q).

(** What happens, in order: the start of a planned move and the calls to other
    objects. *)
Inductive call (A : Type) : Type :=
| Start_move (print_time : A) (m : Move A) (j : junction A)
| Sync_print_time (curtime est_print_time print_time : A)
| Trapq_append (print_time : A) (m : Move A) (j : junction A)
| Process_move (print_time : A) (m : Move A) (j : junction A) (ea_index : nat)
| Timing_callback (cb : Z) (print_time : A)
| Gen_steps (flush_time step_gen_time clear_history_time : A).
Arguments Start_move {A}. Arguments Sync_print_time {A}. Arguments Trapq_append {A}. Arguments Process_move {A}. Arguments Timing_callback {A}. Arguments Gen_steps {A}.

Record ToolHead (A : Type) := mk_ToolHead {
  lookahead : @LookAheadQueue A;
  commanded_pos : list A;
  th_limits : limits A;
  check_stall_time : A;
  print_stall : Z;
  can_pause : bool;
  need_check_pause : A;
  print_time : A;
  special_queuing_state : queuing_state;
  priming_timer : option A;
  th_trapq : trapq A;
  extra_axes : list (@extra_axis A);
  mq : PrinterMotionQueuing A;
  is_shutdown : bool;
  reads : nat;
  calls : list (call A) }.
Arguments mk_ToolHead {A}. Arguments lookahead {A}. Arguments commanded_pos {A}. Arguments th_limits {A}. Arguments check_stall_time {A}.
Arguments print_stall {A}. Arguments can_pause {A}. Arguments need_check_pause {A}. Arguments print_time {A}. Arguments special_queuing_state {A}.
Arguments priming_timer {A}. Arguments th_trapq {A}. Arguments extra_axes {A}. Arguments mq {A}. Arguments is_shutdown {A}.
Arguments reads {A}. Arguments calls {A}.
#[export] Instance eta_ToolHead A : Eta (ToolHead A) := fun w =>
  mk_ToolHead (lookahead w) (commanded_pos w) (th_limits w) (check_stall_time w) (print_stall w) (can_pause w) (need_check_pause w)
    (print_time w) (special_queuing_state w) (priming_timer w) (th_trapq w) (extra_axes w) (mq w) (is_shutdown w) (reads w) (calls w).

(** ** Cartesian kinematics (klippy/kinematics/cartesian.py) *)

Section cartesian.
Context {A : Type} `{Num A}.
Local Open Scope num_scope.

Record CartKinematics := mk_CartKinematics {
  cart_limits : list (A * A);
  max_z_velocity : A;
  max_z_accel : A }.

Definition out_of_range (r : A * A) (x : A) : bool := (x <? r.1) || (r.2 <? x).
Definition axis_range (k : CartKinematics) (i : nat) : A * A := default (nint 0, nint 0) (cart_limits k !! i).
Fixpoint check_endstops_axes (k : CartKinematics) (m : Move A) (l : list nat) : option string :=
  match l with
  | [] => None
  | i :: l =>
    if nonzero (axis (axes_d m) i) && out_of_range (axis_range k i) (axis (mv_end_pos m) i) then
      if (axis_range k i).2 <? (axis_range k i).1 then Some "Must home axis first"%string else Some "Move out of range"%string
    else check_endstops_axes k m l
  end.
Definition check_endstops (k : CartKinematics) (m : Move A) : option string := check_endstops_axes k m [0; 1; 2]%nat.

Definition cart_check_move (k : CartKinematics) (m : Move A) : Move A + string :=
  let e1 := if out_of_range (axis_range k 0) (axis (mv_end_pos m) 0) || out_of_range (axis_range k 1) (axis (mv_end_pos m) 1)
            then check_endstops k m else None in
  match e1 with
  | Some e => inr e
  | None =>
    if negb (nonzero (axis (axes_d m) 2)) then inl m else
    match check_endstops k m with
    | Some e => inr e
    | None =>
      match (z_ratio ← pydiv (move_d m) (nabs (axis (axes_d m) 2));
             limit_speed (max_z_velocity k * z_ratio) (max_z_accel k * z_ratio) m) with
      | Some m => inl m
      | None => inr "ZeroDivisionError"%string
      end
    end
  end.
End cartesian.
Arguments CartKinematics : clear implicits.

(** ** The operations *)

Section toolhead.
Context {A : Type} `{Num A}.
(** The readings of the reactor's clock and of the estimated print time, by the
    number of readings before. *)
Variable clock : nat -> A.
Variable estimate : nat -> A -> A.
(** [check_move] of the kinematics, the flush callbacks of other objects and
    whether [steppersyncmgr_gen_steps] fails. *)
Variable kin_check_move : Move A -> Move A + string.
Variable other_callbacks : A -> A -> PrinterMotionQueuing A -> PrinterMotionQueuing A.
Variable gen_steps_error : A -> A -> A -> bool.
Local Open Scope num_scope.
Abbreviation op := (M (ToolHead A)).

Definition BUFFER_TIME_HIGH : A := nint 1.
Definition BUFFER_TIME_START : A := nlit 250 1000.
Definition PRIMING_CMD_TIME : A := nlit 100 1000.
Definition BGFLUSH_LOW_TIME : A := nlit 200 1000.
Definition BGFLUSH_HIGH_TIME : A := nlit 400 1000.
Definition BGFLUSH_SG_LOW_TIME : A := nlit 450 1000.
Definition BGFLUSH_SG_HIGH_TIME : A := nlit 700 1000.
Definition BGFLUSH_EXTRA_TIME : A := nlit 250 1000.
Definition MOVE_HISTORY_EXPIRE : A := nint 30.
Definition MIN_KIN_TIME : A := nlit 100 1000.
Definition STEPCOMPRESS_FLUSH_TIME : A := nlit 50 1000.
Definition SDS_CHECK_TIME : A := nlit 1 1000.
Definition DRIP_SEGMENT_TIME : A := nlit 50 1000.
Definition DRIP_TIME : A := nlit 100 1000.
Definition reactor_NOW : A := nint 0.
Definition reactor_NEVER : A := nint 9999999999999999.

(** list.remove *)
Fixpoint remove_first (x : A) (l : list A) : list A :=
  match l with [] => [] | y :: l => if neq x y then l else y :: remove_first x l end.

Definition monotonic : op A := fun w => Ret (clock (reads w)) (w <| reads ::= S |>).
Definition estimated_print_time (eventtime : A) : op A := fun w => Ret (estimate (reads w) eventtime) (w <| reads ::= S |>).
Definition lift {B} (o : option B) : op B := match o with Some b => ret b | None => shutdown "Python error"%string end.
Definition emit (c : call A) : op unit := modify (fun w => w <| calls ::= fun l => l ++ [c] |>).
Definition set_mq (f : PrinterMotionQueuing A -> PrinterMotionQueuing A) : op unit := modify (fun w => w <| mq ::= f |>).
Definition is_special (w : ToolHead A) : bool := match special_queuing_state w with Main => false | _ => true end.

(** [invoke_shutdown] runs the handlers of klippy:shutdown. *)
Definition invoke_shutdown : op unit := modify (fun w =>
  w <| is_shutdown := true |> <| can_pause := false |> <| lookahead ::= reset |> <| mq ::= fun q => q <| mq_can_pause := false |> |>).
(** try: m except: logging.exception, invoke_shutdown; return [b] *)
Definition try_shutdown {B} (m : op B) (b : B) : op B := fun w =>
  match m w with Halt _ w => (invoke_shutdown ;;; ret b) w | o => o end.

(** ** Motion queuing *)

Definition note_mcu_movequeue_activity (mq_time : A) (is_step_gen : bool) : op unit := set_mq (fun q =>
  let mq_time := if is_step_gen then mq_time + kin_flush_delay q else mq_time in
  let q := if is_step_gen then q <| need_step_gen_time ::= fun t => pymax t mq_time |> else q in
  let q := q <| need_flush_time ::= fun t => pymax t mq_time |> in
  if do_kick_flush_timer q then q <| do_kick_flush_timer := false |> <| flush_timer := reactor_NOW |> else q).

Definition calc_step_gen_restart (est_print_time : A) : op A := gets (fun w =>
  pymax (est_print_time + MIN_KIN_TIME) (last_step_gen_time (mq w)) + kin_flush_delay (mq w)).

(** [check_step_generation_scan_windows], given the windows of the steppers that
    have a trapq. *)
Definition check_step_generation_scan_windows (windows : list (A * A)) : op unit := set_mq (fun q =>
  q <| kin_flush_delay := foldl (fun d '(pre_active, post_active) => pymax (pymax d pre_active) post_active) SDS_CHECK_TIME windows |>).

(** [stats] *)
Definition mq_stats (eventtime : A) : op unit :=
  est_print_time <- estimated_print_time eventtime ;;
  set_mq (fun q => q <| clear_history_time := pymax (nint 0) (est_print_time - MOVE_HISTORY_EXPIRE) |>).

(** ** Print time tracking *)

Definition advance_move_time (next_print_time : A) : op unit := modify (fun w => w <| print_time ::= fun t => pymax t next_print_time |>).

Definition calc_print_time : op unit :=
  curtime <- monotonic ;;
  est_print_time <- estimated_print_time curtime ;;
  kin_time <- calc_step_gen_restart est_print_time ;;
  let min_print_time := pymax (est_print_time + BUFFER_TIME_START) kin_time in
  t <- gets print_time ;;
  when t <? min_print_time then
    (modify (fun w => w <| print_time := min_print_time |>) ;;;
     emit (Sync_print_time curtime est_print_time min_print_time)).
(** ** Moves *)

Definition pos3 (l : list A) : coord A := mk_coord (axis l 0) (axis l 1) (axis l 2).
(** The call of [trapq_append] for a move. *)
Definition append_move (t : A) (m : Move A) (j : junction A) : op unit :=
  modify (fun w => w <| th_trapq ::= trapq_append t (accel_t j) (cruise_t j) (decel_t j) (pos3 (mv_start_pos m)) (pos3 (mv_axes_r m))
                                       (Lookahead.start_v j) (cruise_v j) (accel m) |>) ;;;
  emit (Trapq_append t m j).

(** [PrinterExtruder.process_move] on the extruder's queue. *)
Definition extruder_process_move (t : A) (m : Move A) (j : junction A) (ea_index : nat) (tq : trapq A) : trapq A :=
  let axis_r := axis (mv_axes_r m) ea_index in
  let can_pressure_advance := (nint 0 <? axis_r) && (nonzero (axis (axes_d m) 0) || nonzero (axis (axes_d m) 1)) in
  trapq_append t (accel_t j) (cruise_t j) (decel_t j) (mk_coord (axis (mv_start_pos m) ea_index) (nint 0) (nint 0))
    (mk_coord (nint 1) (if can_pressure_advance then nint 1 else nint 0) (nint 0))
    (Lookahead.start_v j * axis_r) (cruise_v j * axis_r) (accel m * axis_r) tq.

(** The extra axes from [ea_index] on; [DummyExtruder] has no [process_move]. *)
Fixpoint process_extra (t : A) (m : Move A) (j : junction A) (ea_index : nat) (l : list (@extra_axis A)) : op unit :=
  match l with
  | [] => ret tt
  | ea :: l =>
    d <- lift (axes_d m !! ea_index) ;;
    (when nonzero d then match ea with Dummy => shutdown "AttributeError"%string | Extruder _ => emit (Process_move t m j ea_index) end) ;;;
    process_extra t m j (S ea_index) l
  end.
Fixpoint run_callbacks (l : list Z) (t : A) : op unit :=
  match l with [] => ret tt | cb :: l => emit (Timing_callback cb t) ;;; run_callbacks l t end.
(** The calls for a move that starts at [t]. *)
Definition start_move (t : A) (m : Move A) (j : junction A) : op unit :=
  emit (Start_move t m j) ;;;
  (when is_kinematic_move m then append_move t m j) ;;;
  eas <- gets extra_axes ;;
  process_extra t m j 3 eas.
Fixpoint queue_moves (l : list (Move A * junction A)) (next_move_time : A) : op A :=
  match l with
  | [] => ret next_move_time
  | (m, j) :: l =>
    start_move next_move_time m j ;;;
    let next_move_time := next_move_time + accel_t j + cruise_t j + decel_t j in
    run_callbacks (timing_callbacks m) next_move_time ;;;
    queue_moves l next_move_time
  end.

Definition flush_queue (lazy : bool) : op (list (Move A * junction A)) := fun w =>
  match flush lazy (lookahead w) with
  | Some (moves, q) => Ret moves (w <| lookahead := q |>)
  | None => Halt "Python error"%string w
  end.

(** "Resync print_time if necessary" and "Queue moves into trapezoid motion queue" *)
Definition resync : op unit :=
  special <- gets is_special ;;
  when special then
    (modify (fun w => w <| special_queuing_state := Main |> <| need_check_pause := nint (-1) |>) ;;; calc_print_time).
Definition start_moves (moves : list (Move A * junction A)) : op unit :=
  resync ;;;
  t <- gets print_time ;;
  next_move_time <- queue_moves moves t ;;
  advance_move_time next_move_time ;;;
  note_mcu_movequeue_activity next_move_time true.
Definition process_lookahead (lazy : bool) : op unit :=
  moves <- flush_queue lazy ;;
  match moves with [] => ret tt | _ => start_moves moves end.

(** The end of [_flush_lookahead]. *)
Definition to_need_prime (is_runout : bool) (prev_print_time : A) (w : ToolHead A) : ToolHead A :=
  w <| special_queuing_state := NeedPrime |> <| need_check_pause := nint (-1) |> <| lookahead ::= set_flush_time BUFFER_TIME_HIGH |>
    <| check_stall_time := if is_runout && negb (neq prev_print_time (print_time w)) then print_time w else nint 0 |>.
Definition flush_lookahead (is_runout : bool) : op unit :=
  prev_print_time <- gets print_time ;;
  process_lookahead false ;;;
  modify (to_need_prime is_runout prev_print_time).

Definition handle_step_flush (flush_time step_gen_time : A) : op unit := fun w =>
  if is_special w then Ret tt w else
  if print_time w - kin_flush_delay (mq w) - nlit 1 1000 <=? step_gen_time then flush_lookahead true w else Ret tt w.

Definition get_last_move_time : op A :=
  special <- gets is_special ;;
  (if special : bool then flush_lookahead false ;;; calc_print_time else process_lookahead false) ;;;
  gets print_time.

(** ** Generating steps *)

Definition advance_flush_time (want_flush_time want_step_gen_time : A) : op unit :=
  q <- gets mq ;;
  let flush_time := foldl pymax want_flush_time [last_flush_time q; want_step_gen_time - STEPCOMPRESS_FLUSH_TIME] in
  let step_gen_time := foldl pymax want_step_gen_time [last_step_gen_time q; flush_time] in
  handle_step_flush flush_time step_gen_time ;;;
  set_mq (other_callbacks flush_time step_gen_time) ;;;
  q <- gets mq ;;
  let trapq_free_time := step_gen_time - kin_flush_delay q in
  let clear := if mq_can_pause q then clear_history_time q else pymax (nint 0) (trapq_free_time - MOVE_HISTORY_EXPIRE) in
  emit (Gen_steps flush_time step_gen_time clear) ;;;
  if gen_steps_error flush_time step_gen_time clear then
    invoke_shutdown ;;; shutdown "Internal error in stepcompress"%string
  else
    set_mq (fun q => q <| last_flush_time := flush_time |> <| last_step_gen_time := step_gen_time |>) ;;;
    modify (fun w => w <| th_trapq ::= trapq_finalize_moves trapq_free_time clear |>).

(** What [_await_flush_time] does before it pauses: [Some] time to pause until. *)
Definition await_flush_time (want_flush_time : A) : op (option A) :=
  q <- gets mq ;;
  if (want_flush_time <=? last_flush_time q) || negb (mq_can_pause q) then ret None else
  systime <- monotonic ;;
  est_print_time <- estimated_print_time systime ;;
  let wait := want_flush_time - BGFLUSH_HIGH_TIME - est_print_time in
  if wait <=? nint 0 then ret None else ret (Some (systime + pymin (nint 1) wait)).

Definition flush_handler (eventtime : A) : op A := try_shutdown (
  est_print_time <- estimated_print_time eventtime ;;
  q <- gets mq ;;
  let aggr_sg_time := need_step_gen_time q - nint 2 * kin_flush_delay q in
  (if last_step_gen_time q <? aggr_sg_time then
     let want_sg_time := est_print_time + BGFLUSH_SG_HIGH_TIME in
     let batch_time := BGFLUSH_SG_HIGH_TIME - BGFLUSH_SG_LOW_TIME in
     let next_batch_time := last_step_gen_time q + batch_time in
     let want_sg_time :=
       if est_print_time <? next_batch_time then
         if want_sg_time + nlit 5 1000 <? next_batch_time then last_step_gen_time q else next_batch_time
       else want_sg_time in
     let want_sg_time := pymin want_sg_time aggr_sg_time in
     when last_step_gen_time q <? want_sg_time then advance_flush_time (nint 0) want_sg_time
   else
     let want_flush_time := pymin (est_print_time + BGFLUSH_HIGH_TIME) (need_flush_time q + BGFLUSH_EXTRA_TIME) in
     when last_flush_time q <? want_flush_time then advance_flush_time want_flush_time (nint 0)) ;;;
  q <- gets mq ;;
  if last_step_gen_time q <? need_step_gen_time q - nint 2 * kin_flush_delay q then
    ret (eventtime + (last_step_gen_time q - BGFLUSH_SG_LOW_TIME) - est_print_time)
  else
    set_mq (fun q => q <| do_kick_flush_timer := true |>) ;;;
    if need_flush_time q + BGFLUSH_EXTRA_TIME <=? last_flush_time q then ret reactor_NEVER
    else ret (eventtime + (last_flush_time q - BGFLUSH_LOW_TIME) - est_print_time)) reactor_NEVER.
(** ** Priming and pausing *)

Definition priming_handler : op A := fun w =>
  let w := w <| priming_timer := None |> in
  try_shutdown ((if decide (special_queuing_state w = Priming) then flush_lookahead true else ret tt) ;;; ret reactor_NEVER) reactor_NEVER w.

Definition check_priming_state (eventtime : A) : op unit :=
  empty <- gets (fun w => is_empty (lookahead w)) ;;
  if empty : bool then ret tt else
  est_print_time <- estimated_print_time eventtime ;;
  modify (fun w =>
    let w := if nonzero (check_stall_time w) then
               (if est_print_time <? check_stall_time w then w <| print_stall ::= Z.succ |> else w) <| check_stall_time := nint 0 |>
             else w in
    let will_pause_time := print_time w - est_print_time - BUFFER_TIME_HIGH in
    w <| special_queuing_state := Priming |> <| need_check_pause := nint (-1) |>
      <| priming_timer := Some (eventtime + pymax (nint 0) will_pause_time + PRIMING_CMD_TIME) |>).

(** The parts of [_check_pause]: up to the loop, one round of it, and after it. *)
Definition check_pause_begin : op A :=
  eventtime <- monotonic ;;
  special <- gets is_special ;;
  (when special then check_priming_state eventtime) ;;;
  ret eventtime.
Inductive poll : Type := Poll_done | Poll_return | Poll_pause (waketime : A).
Definition check_pause_poll (eventtime : A) : op poll :=
  est_print_time <- estimated_print_time eventtime ;;
  t <- gets print_time ;;
  let pause_time := t - est_print_time - BUFFER_TIME_HIGH in
  if pause_time <=? nint 0 then ret Poll_done else
  cp <- gets can_pause ;;
  if negb cp then modify (fun w => w <| need_check_pause := reactor_NEVER |>) ;;; ret Poll_return else
  ret (Poll_pause (eventtime + pymax (nlit 5 1000) (pymin (nint 1) pause_time))).
(** Whether it yields. *)
Definition check_pause_end (did_pause : bool) : op bool :=
  special <- gets is_special ;;
  if special : bool then ret false else
  modify (fun w => w <| need_check_pause := print_time w |>) ;;; ret (negb did_pause).

(** ** Movement commands *)

Fixpoint check_extra (ea_index : nat) (l : list (@extra_axis A)) (m : Move A) : op (Move A) :=
  match l with
  | [] => ret m
  | ea :: l =>
    d <- lift (axes_d m !! ea_index) ;;
    m <- (if nonzero d then match check_move ea ea_index m with inl m => ret m | inr _ => shutdown "Move error"%string end else ret m) ;;
    check_extra (S ea_index) l m
  end.

Definition add_to_queue (m : Move A) : op bool := fun w =>
  match add_move (extra_axes w) m (lookahead w) with
  | Some (want_flush, q) => Ret want_flush (w <| lookahead := q |>)
  | None => Halt "Python error"%string w
  end.
Definition kin_check (m : Move A) : op (Move A) := match kin_check_move m with inl m => ret m | inr e => shutdown e end.

(** Whether it goes on to [_check_pause]. *)
Definition move (newpos : list A) (speed : A) : op bool :=
  w <- gets (fun w => w) ;;
  m <- lift (Move_init (th_limits w) (commanded_pos w) newpos speed) ;;
  if negb (nonzero (move_d m)) then ret false else
  m <- (if is_kinematic_move m then kin_check m else ret m) ;;
  m <- check_extra 3 (extra_axes w) m ;;
  modify (fun w => w <| commanded_pos := mv_end_pos m |>) ;;;
  want_flush <- add_to_queue m ;;
  (when want_flush then process_lookahead true) ;;;
  gets (fun w => need_check_pause w <? print_time w).

(** [coord[i] is not None] for the axes to change. *)
Fixpoint merge_pos (curpos : list A) (coord : list (option A)) : list A :=
  match curpos, coord with
  | _ :: l, Some x :: c => x :: merge_pos l c
  | p :: l, None :: c => p :: merge_pos l c
  | l, _ => l
  end.
Definition manual_move (coord : list (option A)) (speed : A) : op bool :=
  curpos <- gets commanded_pos ;; move (merge_pos curpos coord) speed.

(** [dwell] up to its [_check_pause]. *)
Definition dwell (delay : A) : op unit :=
  flush_lookahead false ;;;
  t <- get_last_move_time ;;
  advance_move_time (t + pymax (nint 0) delay).

(** [set_position] after [flush_step_generation]. *)
Definition set_position (newpos : list A) : op unit := modify (fun w =>
  w <| th_trapq ::= trapq_set_position (print_time w) (pos3 newpos) |> <| commanded_pos := take 3 newpos ++ drop 3 (commanded_pos w) |>).

Definition th_limit_next_junction_speed (speed : A) : op unit := modify (fun w =>
  w <| lookahead ::= fun q => q <| queue ::= fun l => alter (limit_next_junction_speed speed) (pred (length l)) l |> |>).

Definition register_lookahead_callback (cb : Z) : op unit := fun w =>
  match get_last (lookahead w) with
  | None => (t <- get_last_move_time ;; emit (Timing_callback cb t)) w
  | Some _ => Ret tt (w <| lookahead ::= fun q => q <| queue ::= fun l =>
      alter (fun m => m <| timing_callbacks ::= fun c => c ++ [cb] |>) (pred (length l)) l |> |>)
  end.

Definition th_set_max_velocities (v a scv mcr : option A) : op unit := fun w =>
  match set_max_velocities v a scv mcr (th_limits w) with
  | Some l => Ret tt (w <| th_limits := l |>)
  | None => Halt "ZeroDivisionError"%string w
  end.

Definition set_extruder (extruder : @extra_axis A) (extrude_pos : A) : op unit := modify (fun w =>
  w <| extra_axes ::= <[0%nat := extruder]> |> <| commanded_pos ::= <[3%nat := extrude_pos]> |>).
Definition add_extra_axis (ea : @extra_axis A) (axis_pos : A) : op unit :=
  flush_lookahead false ;;;
  modify (fun w => w <| extra_axes ::= fun l => l ++ [ea] |> <| commanded_pos ::= fun l => l ++ [axis_pos] |>).
(** The axis at place [i] of [extra_axes]. *)
Definition remove_extra_axis (i : nat) : op unit :=
  flush_lookahead false ;;;
  modify (fun w => w <| extra_axes ::= delete i |> <| commanded_pos ::= delete (i + 3)%nat |>).

(** ** Drip moves *)

Fixpoint drip_append (l : list (Move A * junction A)) (end_time : A) : op A :=
  match l with
  | [] => ret end_time
  | (m, j) :: l =>
    emit (Start_move end_time m j) ;;;
    append_move end_time m j ;;;
    drip_append l (end_time + accel_t j + cruise_t j + decel_t j)
  end.
Definition drip_load_trapq (submit_move : Move A) : op (A * A) :=
  (when nonzero (move_d submit_move) then
    (modify (fun w => w <| commanded_pos := mv_end_pos submit_move |>) ;;; add_to_queue submit_move ;;; ret tt)) ;;;
  moves <- flush_queue false ;;
  calc_print_time ;;;
  start_time <- gets print_time ;;
  end_time <- drip_append moves start_time ;;
  modify (fun w => w <| lookahead ::= reset |>) ;;;
  ret (start_time, end_time).

(** The start of [drip_move]: the new move. *)
Definition drip_check (newpos : list A) (speed : A) : op (Move A) :=
  w <- gets (fun w => w) ;;
  m <- lift (Move_init (th_limits w) (commanded_pos w) (take 3 newpos ++ drop 3 (commanded_pos w)) speed) ;;
  if nonzero (move_d m) then kin_check m else ret m.
(** From the end of its [dwell] to the pause of [drip_update_time]. *)
Definition drip_start (m : Move A) : op (A * A) :=
  process_lookahead false ;;;
  times <- drip_load_trapq m ;;
  set_mq (fun q => q <| drip_start_times ::= fun l => l ++ [times.1] |>) ;;;
  ret times.
(** [drip_update_time] after [_await_flush_time], a round of its loop (the new
    [flush_time], or the time to wait until), and its end with [wipe_trapq]. *)
Definition drip_open (start_time : A) : op unit :=
  set_mq (fun q => q <| flush_timer := reactor_NEVER |> <| do_kick_flush_timer := false |>) ;;;
  advance_flush_time (start_time - SDS_CHECK_TIME) start_time.
Definition drip_round (flush_time end_time : A) : op (A + A) :=
  curtime <- monotonic ;;
  est_print_time <- estimated_print_time curtime ;;
  let wait_time := flush_time - est_print_time - DRIP_TIME in
  cp <- gets (fun w => mq_can_pause (mq w)) ;;
  if (nint 0 <? wait_time) && cp then ret (inr (curtime + wait_time)) else
  let flush_time := pymin (flush_time + DRIP_SEGMENT_TIME) end_time in
  note_mcu_movequeue_activity flush_time true ;;;
  advance_flush_time (flush_time - SDS_CHECK_TIME) flush_time ;;;
  ret (inl flush_time).
Definition wipe_trapq : op unit := modify (fun w => w <| th_trapq ::= trapq_finalize_moves reactor_NEVER (nint 0) |>).
Definition drip_close (start_time flush_time : A) : op unit :=
  set_mq (fun q => q <| flush_timer := reactor_NOW |>) ;;;
  d <- gets (fun w => kin_flush_delay (mq w)) ;;
  advance_flush_time (flush_time + d) (nint 0) ;;;
  set_mq (fun q => q <| drip_start_times ::= fun l => remove_first start_time l |>) ;;;
  wipe_trapq.
(** ** The initial state *)

Definition mq_init (fileoutput : bool) : PrinterMotionQueuing A :=
  mk_PrinterMotionQueuing (nint 0) SDS_CHECK_TIME (negb fileoutput) reactor_NEVER true (nint 0) (nint 0) (nint 0) (nint 0) [].
Definition toolhead_init (fileoutput : bool) (max_velocity max_accel min_cruise_ratio square_corner_velocity : A) : option (ToolHead A) :=
  li ← calc_junction_deviation (mk_limits max_velocity max_accel min_cruise_ratio square_corner_velocity (nint 0) (nint 0));
  Some (mk_ToolHead (set_flush_time BUFFER_TIME_HIGH lookahead_init) (replicate 4 (nint 0)) li (nint 0) 0 (negb fileoutput) (nint (-1))
          (nint 0) NeedPrime None trapq_alloc [Dummy] (mq_init fileoutput) false 0 []).
End toolhead.

(** ** Exact arithmetic *)

Section exact.
Local Open Scope R_scope.
Variable clock : nat -> R.
Variable estimate : nat -> R -> R.
Implicit Types (w : ToolHead R) (m : Move R) (j : junction R) (tq : trapq R).

(** The moves that were started, and the calls that concern neither them nor
    the trapezoid queue. *)
Definition started (l : list (call R)) : list (Move R * junction R) :=
  omap (fun c => match c with Start_move _ m j => Some (m, j) | _ => None end) l.
Definition quiet (c : call R) : Prop := match c with Start_move _ _ _ | Trapq_append _ _ _ => False | _ => True end.
Definition on_time (h : R) (c : call R) : Prop := match c with Trapq_append t _ _ => h <= t | _ => True end.

(** Steps may have been generated from moves up to this time. *)
Definition horizon w : R := last_step_gen_time (mq w) + kin_flush_delay (mq w).

(** A move ends where it was asked to, and its extra axes exist. *)
Definition path_ok m : Prop := is_kinematic_move m = true -> pos3 (mv_end_pos m) = along (pos3 (mv_start_pos m)) (pos3 (mv_axes_r m)) (move_d m).
Definition axes_fit (l : list (@extra_axis R)) m : Prop :=
  forall i ea, l !! i = Some ea -> exists d, axes_d m !! (3 + i)%nat = Some d /\ (nonzero d = true -> ea <> Dummy).
Definition queued_ok (l : list (@extra_axis R)) m : Prop := extendable m /\ axes_fit l m /\ path_ok m.

(** The moves that were accepted: those started and those in the queue. *)
Definition accepted w : list (Move R) := (started (calls w)).*1 ++ queue (lookahead w).

Record inv w : Prop := {
  i_limits : limits_ok (th_limits w);
  i_axes : Forall axis_ok (extra_axes w);
  i_pos : length (commanded_pos w) = (3 + length (extra_axes w))%nat;
  i_queue : exists v, queue_ok v (queue (lookahead w)) /\ chain 0 (started (calls w)) v;
  i_queued : Forall (queued_ok (extra_axes w)) (queue (lookahead w));
  i_started : Forall (fun x => path_ok x.1) (started (calls w));
  i_tq : tq_ok (th_trapq w);
  i_step_gen : 0 <= last_step_gen_time (mq w);
  i_delay : SDS_CHECK_TIME <= kin_flush_delay (mq w);
  i_main : special_queuing_state w = Main -> horizon w <= print_time w;
  i_time : 0 <= print_time w;
  i_last : if decide (drip_start_times (mq w) = []) then before (print_time w) (th_trapq w)
           else queue (lookahead w) = [] /\ before reactor_NEVER (th_trapq w) }.

(** What an operation of the toolhead leaves as it is. *)
Record runs w w' : Prop := {
  r_limits : th_limits w' = th_limits w;
  r_axes : extra_axes w' = extra_axes w;
  r_pos : commanded_pos w' = commanded_pos w;
  r_step_gen : last_step_gen_time (mq w') = last_step_gen_time (mq w);
  r_delay : kin_flush_delay (mq w') = kin_flush_delay (mq w);
  r_drip : drip_start_times (mq w') = drip_start_times (mq w);
  r_shutdown : is_shutdown w' = is_shutdown w;
  r_time : print_time w <= print_time w';
  r_calls : exists new, calls w' = calls w ++ new /\ Forall (on_time (horizon w)) new }.

Lemma started_app l l' : started (l ++ l') = started l ++ started l'.
Proof. apply omap_app. Qed.
Lemma started_quiet l : Forall quiet l -> started l = [].
Proof. induction 1 as [|c l Hc _ IH]; [done|]. by destruct c. Qed.
Lemma quiet_on_time h l : Forall quiet l -> Forall (on_time h) l.
Proof. intros Hl. apply (Forall_impl _ _ _ Hl). by intros []. Qed.

Lemma runs_refl w : runs w w.
Proof. split; try done. exists []. by rewrite app_nil_r. Qed.
Lemma runs_horizon w w' : runs w w' -> horizon w' = horizon w.
Proof. intros H. unfold horizon. by rewrite (r_step_gen _ _ H), (r_delay _ _ H). Qed.
Lemma runs_trans w1 w2 w3 : runs w1 w2 -> runs w2 w3 -> runs w1 w3.
Proof.
  intros H1 H2. pose proof (runs_horizon _ _ H1) as Hh. destruct H1 as [? ? ? ? ? ? ? ? (n1 & E1 & Hn1)], H2 as [? ? ? ? ? ? ? ? (n2 & E2 & Hn2)].
  split; try congruence; [lra|]. exists (n1 ++ n2). rewrite E2, E1, (assoc_L (++)). split; [done|]. apply Forall_app. by rewrite <- Hh at 2.
Qed.

Lemma calc_print_time_ok w : exists r pt new,
  calc_print_time clock estimate w = Ret tt (w <| reads := r |> <| print_time := pt |> <| calls := calls w ++ new |>) /\
  print_time w <= pt /\ horizon w <= pt /\ Forall quiet new.
Proof.
  destruct w as [la cp li cs ps can nc pt sq pr tq ea q sh rd ca]. unfold horizon. cbn [print_time mq calls].
  unfold calc_print_time, bind, monotonic, estimated_print_time, calc_step_gen_restart, gets. cbn [reads print_time mq].
  cbn -[pymax nadd nlt BUFFER_TIME_START MIN_KIN_TIME]. set (mt := pymax _ (_ + kin_flush_delay q)%num).
  assert (Hmt : last_step_gen_time q + kin_flush_delay q <= mt).
  { unfold mt. rewrite !pymax_R. eapply Rle_trans; [|apply Rmax_r]. apply Rplus_le_compat_r, Rmax_r. }
  destruct (nltP pt mt) as [Hlt|Hlt].
  - eexists (S (S rd)), mt, [_]. split; [done|]. split; [lra|]. split; [done|]. by apply Forall_singleton.
  - exists (S (S rd)), pt, []. rewrite app_nil_r. split; [reflexivity|]. split; [lra|]. split; [lra|]. by apply Forall_nil_2.
Qed.

(** *** Starting moves *)

Lemma process_extra_ok t m j i l w : (forall k ea, l !! k = Some ea -> exists d, axes_d m !! (i + k)%nat = Some d /\ (nonzero d = true -> ea <> Dummy)) ->
  exists new, process_extra t m j i l w = Ret tt (w <| calls := calls w ++ new |>) /\ Forall quiet new.
Proof.
  revert i w. induction l as [|ea l IH]; intros i w Hfit.
  { exists []. rewrite app_nil_r. split; [by destruct w|by apply Forall_nil_2]. }
  destruct (Hfit 0%nat ea eq_refl) as (d & Ed & Hd). rewrite Nat.add_0_r in Ed. cbn [process_extra]. unfold bind at 1. rewrite Ed. cbn [lift ret].
  assert (Hn : exists n, (when nonzero d then match ea with Dummy => shutdown "AttributeError"%string | Extruder _ => emit (Process_move t m j i) end) w
    = Ret tt (w <| calls := calls w ++ n |>) /\ Forall quiet n).
  { destruct (nonzero d); [|exists []; rewrite app_nil_r; split; [by destruct w|by apply Forall_nil_2]].
    destruct ea; [by destruct (Hd eq_refl)|]. eexists [_]. split; [done|by apply Forall_singleton]. }
  destruct Hn as (n & En & Hn). rewrite (bind_ret _ _ _ _ _ En).
  destruct (IH (S i) (w <| calls := calls w ++ n |>)) as (new & -> & Hnew).
  { intros k ea' Hk. destruct (Hfit (S k) ea' Hk) as (d' & ? & ?). exists d'. by rewrite Nat.add_succ_comm in *. }
  exists (n ++ new). split; [|by apply Forall_app]. cbn. by rewrite (assoc_L (++)).
Qed.
Lemma run_callbacks_ok cbs t w : exists new, run_callbacks cbs t w = Ret tt (w <| calls := calls w ++ new |>) /\ Forall quiet new.
Proof.
  revert w. induction cbs as [|cb l IH]; intros w.
  { exists []. rewrite app_nil_r. split; [by destruct w|by apply Forall_nil_2]. }
  cbn [run_callbacks]. unfold bind. cbn [emit modify]. destruct (IH (w <| calls ::= fun l => l ++ [Timing_callback cb t] |>)) as (new & -> & Hnew).
  exists (Timing_callback cb t :: new). split; [|by apply Forall_cons]. cbn. by rewrite <- (assoc_L (++)).
Qed.

Lemma append_move_ok t m v u j w : tq_ok (th_trapq w) -> 0 < t -> before t (th_trapq w) -> profile m v u j ->
  exists tq', append_move t m j w = Ret tt (w <| th_trapq := tq' |> <| calls := calls w ++ [Trapq_append t m j] |>) /\
    tq_ok tq' /\ before (t + accel_t j + cruise_t j + decel_t j) tq'.
Proof.
  intros Htq Ht Hle Hp. destruct (pr_times _ _ _ _ Hp) as (? & ? & ?).
  edestruct (trapq_append_before t (accel_t j) (cruise_t j) (decel_t j) (pos3 (mv_start_pos m)) (pos3 (mv_axes_r m)) (Lookahead.start_v j) (cruise_v j) (accel m))
    as (Hok & Hend); [exact Htq|done|done|done|done|done|]. eexists. split; [done|]. by split.
Qed.

(** The state after new calls and moves of the trapezoid queue. *)
Definition grow w tq (new : list (call R)) : ToolHead R := w <| th_trapq := tq |> <| calls := calls w ++ new |>.
Lemma grow_grow w tq tq' n n' : grow (grow w tq n) tq' n' = grow w tq' (n ++ n').
Proof. unfold grow. cbn. by rewrite (assoc_L (++)). Qed.
Lemma grow_calls w new : w <| calls := calls w ++ new |> = grow w (th_trapq w) new.
Proof. by destruct w. Qed.
Lemma grow_nil w : w = grow w (th_trapq w) [].
Proof. destruct w. unfold grow. cbn. by rewrite app_nil_r. Qed.

(** One planned move. *)
Lemma start_move_ok t m v u j w : profile m v u j -> axes_fit (extra_axes w) m -> tq_ok (th_trapq w) -> 0 < t -> before t (th_trapq w) ->
  exists tq' new,
    start_move t m j w = Ret tt (grow w tq' new) /\
    tq_ok tq' /\ before (t + accel_t j + cruise_t j + decel_t j) tq' /\ started new = [(m, j)] /\ Forall (on_time t) new.
Proof.
  intros Hp Hfit Htq Ht Hle. destruct (pr_times _ _ _ _ Hp) as (? & ? & ?). unfold start_move.
  assert (E1 : emit (Start_move t m j) w = Ret tt (grow w (th_trapq w) [Start_move t m j])) by (rewrite <- grow_calls; done).
  rewrite (bind_ret _ _ _ _ _ E1). set (w1 := grow _ _ _).
  assert (H2 : exists tq' n, (when is_kinematic_move m then append_move t m j) w1 = Ret tt (grow w1 tq' n) /\ tq_ok tq' /\
    before (t + accel_t j + cruise_t j + decel_t j) tq' /\ started n = [] /\ Forall (on_time t) n).
  { destruct (is_kinematic_move m).
    - destruct (append_move_ok t m v u j w1 Htq Ht Hle Hp) as (tq' & -> & ? & ?). exists tq', [Trapq_append t m j].
      do 4 (split; [done|]). apply Forall_singleton. cbn. lra.
    - exists (th_trapq w), []. split; [exact (f_equal (Ret tt) (grow_nil w1))|]. split; [done|]. split; [apply (before_le t); [lra|done]|]. split; [done|by apply Forall_nil_2]. }
  destruct H2 as (tq' & n & E2 & Htq' & Hend & Hs & Ho). rewrite (bind_ret _ _ _ _ _ E2).
  destruct (process_extra_ok t m j 3 (extra_axes w) (grow w1 tq' n) Hfit) as (n' & E3 & Hq).
  exists tq', ([Start_move t m j] ++ n ++ n'). split.
  - change ((process_extra t m j 3 (extra_axes w)) (grow w1 tq' n) = Ret tt (grow w tq' ([Start_move t m j] ++ n ++ n'))).
    rewrite E3, grow_calls. unfold w1. by rewrite !grow_grow, (assoc_L (++)).
  - rewrite !started_app, Hs, (started_quiet n' Hq). do 3 (split; [done|]). apply Forall_app. split; [by apply Forall_singleton|].
    apply Forall_app. split; [done|by apply quiet_on_time].
Qed.

Lemma queue_moves_ok l t v u w : chain v l u -> Forall (fun x => axes_fit (extra_axes w) x.1) l ->
  tq_ok (th_trapq w) -> 0 < t -> before t (th_trapq w) ->
  exists t' tq' new, queue_moves l t w = Ret t' (grow w tq' new) /\
    t <= t' /\ tq_ok tq' /\ before t' tq' /\ started new = l /\ Forall (on_time t) new.
Proof.
  revert t v w. induction l as [|[m j] l IH]; intros t v w Hch Hfit Htq Ht Hle.
  { exists t, (th_trapq w), []. rewrite <- grow_nil. do 2 (split; [done|]). do 3 (split; [done|]). by apply Forall_nil_2. }
  destruct Hch as (x & Hp & Hch). apply Forall_cons in Hfit as [Hf Hfit]. cbn [fst] in Hf. destruct (pr_times _ _ _ _ Hp) as (? & ? & ?).
  destruct (start_move_ok t m v x j w Hp Hf Htq Ht Hle) as (tq1 & n1 & E1 & Htq1 & Hend1 & Hs1 & Ho1).
  set (t1 := t + accel_t j + cruise_t j + decel_t j) in *.
  destruct (run_callbacks_ok (timing_callbacks m) t1 (grow w tq1 n1)) as (n2 & E2 & Hq2).
  destruct (IH t1 x (grow w tq1 (n1 ++ n2))) as (t' & tq' & n3 & E3 & Ht' & Htq' & Hend' & Hs3 & Ho3); try done; try (unfold t1; lra).
  exists t', tq', (n1 ++ n2 ++ n3). split.
  - cbn [queue_moves]. rewrite (bind_ret _ _ _ _ _ E1). change (t + accel_t j + cruise_t j + decel_t j)%num with t1.
    rewrite (bind_ret _ _ _ _ _ E2), grow_calls, grow_grow. change (th_trapq (grow w tq1 n1)) with tq1. rewrite E3, grow_grow. by rewrite (assoc_L (++)).
  - split; [unfold t1 in *; lra|]. do 2 (split; [done|]). rewrite !started_app, Hs1, Hs3, (started_quiet n2 Hq2). split; [done|].
    rewrite !Forall_app. split; [done|]. split; [by apply quiet_on_time|]. apply (Forall_impl _ _ _ Ho3). intros []; cbn; unfold t1; lra || done.
Qed.
Lemma SDS_pos : 0 < SDS_CHECK_TIME.
Proof. unfold SDS_CHECK_TIME. cbn. lra. Qed.
Lemma inv_horizon w : inv w -> 0 < horizon w.
Proof. intros Hi. pose proof (i_step_gen w Hi). pose proof (i_delay w Hi). pose proof SDS_pos. unfold horizon. lra. Qed.

(** What the toolhead relies on of the motion queuing state. *)
Definition same_core (q q' : PrinterMotionQueuing R) : Prop :=
  last_step_gen_time q' = last_step_gen_time q /\ kin_flush_delay q' = kin_flush_delay q /\ drip_start_times q' = drip_start_times q.
Lemma note_ok t b w : exists q, note_mcu_movequeue_activity t b w = Ret tt (w <| mq := q |>) /\ same_core (mq w) q.
Proof. eexists. split; [reflexivity|]. destruct b; cbn; by destruct (do_kick_flush_timer (mq w)). Qed.

(** Becoming ready to start moves. *)
Lemma resync_ok w : (special_queuing_state w = Main -> horizon w <= print_time w) -> exists w1,
  resync clock estimate w = Ret tt w1 /\
  runs w w1 /\ special_queuing_state w1 = Main /\ horizon w <= print_time w1 /\ th_trapq w1 = th_trapq w /\ lookahead w1 = lookahead w /\
  exists n, calls w1 = calls w ++ n /\ Forall quiet n.
Proof.
  intros Hi. unfold resync, bind at 1. cbn [gets]. unfold is_special. destruct (special_queuing_state w) eqn:Es.
  1: { exists w. split; [done|]. split; [apply runs_refl|]. split; [done|]. split; [by apply Hi|]. do 2 (split; [done|]). exists []. rewrite app_nil_r. split; [done|by apply Forall_nil_2]. }
  all: unfold bind; cbn [modify]; set (w0 := w <| special_queuing_state := Main |> <| need_check_pause := _ |>);
    destruct (calc_print_time_ok w0) as (r & pt & n & -> & Hpt & Hh & Hq); eexists; (split; [done|]); (split; [|do 4 (split; [done|]); by exists n]);
    split; try done; exists n; split; [done|]; by apply quiet_on_time.
Qed.

(** A non-empty list of planned moves. *)
Lemma start_moves_ok w r v u : (special_queuing_state w = Main -> horizon w <= print_time w) -> 0 < horizon w ->
  tq_ok (th_trapq w) -> before (print_time w) (th_trapq w) -> chain v r u -> Forall (fun x => axes_fit (extra_axes w) x.1) r ->
  exists w', start_moves clock estimate r w = Ret tt w' /\
    runs w w' /\ special_queuing_state w' = Main /\ horizon w <= print_time w' /\ lookahead w' = lookahead w /\
    tq_ok (th_trapq w') /\ before (print_time w') (th_trapq w') /\ started (calls w') = started (calls w) ++ r.
Proof.
  intros Hi Hpos Htq Hl Hch Hfit. destruct (resync_ok w Hi) as (w1 & E1 & Hr & Hs & Hh & Etq & Ela & n & En & Hq). pose proof (r_time _ _ Hr).
  destruct (queue_moves_ok r (print_time w1) v u w1 Hch) as (t' & tq' & new & E2 & Ht' & Htq' & Hend & Hst & Ho).
  { by rewrite (r_axes _ _ Hr). } { by rewrite Etq. } { lra. } { rewrite Etq. by apply (before_le (print_time w)). }
  unfold start_moves. rewrite (bind_ret _ _ _ _ _ E1). unfold bind at 1. cbn [gets]. rewrite (bind_ret _ _ _ _ _ E2).
  unfold bind at 1. cbn [advance_move_time modify]. set (w2 := _ <| print_time ::= _ |>).
  destruct (note_ok t' true w2) as (q & -> & Hq1 & Hq2 & Hq3). exists (w2 <| mq := q |>).
  assert (Ept : print_time w2 = t') by (unfold w2; cbn; rewrite pymax_R; by apply Rmax_right).
  split; [done|]. split; [|cbn in *; rewrite Ept, En, !started_app, (started_quiet n Hq), Hst, app_nil_r; do 2 (split; [try done; lra|]); done].
  apply (runs_trans _ w1 _ Hr). split; try done; [change (print_time w1 <= print_time w2); lra|]. exists new. split; [done|].
  apply (Forall_impl _ _ _ Ho). rewrite (runs_horizon _ _ Hr). intros []; cbn; lra || done.
Qed.

Lemma process_lookahead_ok lazy w : inv w ->
  exists w', process_lookahead clock estimate lazy w = Ret tt w' /\ runs w w' /\ inv w' /\ (lazy = false -> queue (lookahead w') = []) /\
    (special_queuing_state w' = special_queuing_state w \/ special_queuing_state w' = Main) /\ accepted w' = accepted w.
Proof.
  intros Hi. destruct (i_queue w Hi) as (v & Hq & Hch). destruct (flush_ok lazy (lookahead w) v Hq) as (r & q' & u & Ef & Hr & Hq' & Eq & _ & Hlz).
  assert (Hqd : Forall (queued_ok (extra_axes w)) (r.*1 ++ queue q')) by (rewrite Eq; by apply i_queued). apply Forall_app in Hqd as [Hqr Hqq].
  set (w1 := w <| lookahead := q' |>). unfold process_lookahead. assert (E1 : flush_queue lazy w = Ret r w1) by (unfold flush_queue; by rewrite Ef).
  rewrite (bind_ret _ _ _ _ _ E1). destruct r as [|x r].
  - exists w1. split; [done|]. split; [by destruct (runs_refl w); split|]. split; [|split; [intros E; by destruct (Hlz E)|split; [by left|]]].
    2: { unfold accepted. cbn in *. by rewrite Eq. }
    cbn in Hr. subst u. destruct Hi. split; try done; [by exists v|]. cbn in *. by rewrite Eq.
  - set (rs := x :: r) in *.
    assert (Hdrip : drip_start_times (mq w) = []).
    { pose proof (i_last w Hi) as Hl. destruct (decide (drip_start_times (mq w) = [])); [done|]. destruct Hl as [Hl _]. by rewrite Hl in Eq. }
    pose proof (i_last w Hi) as Hl. rewrite decide_True in Hl by done.
    rewrite Forall_fmap in Hqr.
    destruct (start_moves_ok w1 rs v u) as (w' & E' & Hruns & Hmain & Hh & Ela & Htq & Hend & Hst); try done.
    { by apply (i_main w Hi). } { by apply (inv_horizon w). } { by apply (i_tq w). } { apply (Forall_impl _ _ _ Hqr). by intros y (_ & ? & _). }
    exists w'. split; [done|]. assert (Hruns' : runs w w') by (by destruct Hruns; split). split; [done|]. split; [|split; [|split; [by right|]]].
    2: { intros E. rewrite Ela. by apply Hlz. }
    2: { unfold accepted. rewrite Hst, Ela, fmap_app, <- (assoc_L (++)). cbn [lookahead queue]. change (lookahead w1) with q'. by rewrite Eq. }
    destruct Hi, Hruns'. split; try congruence; rewrite ?r_axes0, ?r_limits0, ?r_pos0, ?r_drip0, ?r_delay0, ?r_step_gen0, ?Ela, ?Hst; try done.
    + exists u. split; [done|]. by apply (chain_concat _ _ v).
    + apply Forall_app. split; [done|]. apply (Forall_impl _ _ _ Hqr). by intros y (_ & _ & ?).
    + intros _. by rewrite (runs_horizon _ _ Hruns).
    + lra.
    + by rewrite decide_True.
Qed.
(** Changes of what [inv] does not look at. *)
Lemma inv_frame w w' : runs w w' -> inv w -> queue (lookahead w') = queue (lookahead w) -> started (calls w') = started (calls w) ->
  th_trapq w' = th_trapq w -> (special_queuing_state w' = Main -> horizon w' <= print_time w') -> inv w'.
Proof.
  intros Hr Hi Eq Es Et Hm. destruct Hi, Hr. split; rewrite ?r_axes0, ?r_limits0, ?r_pos0, ?r_drip0, ?r_delay0, ?r_step_gen0, ?Eq, ?Es, ?Et; try done; [lra|].
  destruct (decide _); [|done]. by apply (before_le (print_time w)).
Qed.

Lemma flush_lookahead_ok b w : inv w ->
  exists w', flush_lookahead clock estimate b w = Ret tt w' /\ runs w w' /\ inv w' /\ queue (lookahead w') = [] /\ special_queuing_state w' = NeedPrime /\
    accepted w' = accepted w.
Proof.
  intros Hi. destruct (process_lookahead_ok false w Hi) as (w1 & E1 & Hr & Hi1 & Hq & _ & Hacc). specialize (Hq eq_refl).
  unfold flush_lookahead. unfold bind at 1. cbn [gets]. rewrite (bind_ret _ _ _ _ _ E1). cbn [modify].
  exists (to_need_prime b (print_time w) w1). split; [done|]. assert (Hr2 : runs w1 (to_need_prime b (print_time w) w1)) by (destruct (runs_refl w1); by split).
  split; [by eapply runs_trans|]. split; [|done]. by apply (inv_frame w1).
Qed.

Lemma handle_step_flush_ok ft sg w : inv w ->
  exists w', handle_step_flush clock estimate ft sg w = Ret tt w' /\ runs w w' /\ inv w' /\
    (special_queuing_state w' = Main -> sg + kin_flush_delay (mq w) <= print_time w').
Proof.
  intros Hi. unfold handle_step_flush, is_special. destruct (special_queuing_state w) eqn:Es.
  2,3: exists w; split; [done|]; split; [apply runs_refl|]; split; [done|by rewrite Es].
  destruct (nleP (print_time w - kin_flush_delay (mq w) - nlit 1 1000)%num sg) as [Hle|Hle].
  - destruct (flush_lookahead_ok true w Hi) as (w' & -> & Hr & Hi' & _ & Hs & _). exists w'. by rewrite Hs.
  - exists w. split; [done|]. split; [apply runs_refl|]. split; [done|]. intros _. cbn in Hle. lra.
Qed.

Lemma calc_print_time_inv w : inv w -> exists w', calc_print_time clock estimate w = Ret tt w' /\ runs w w' /\ inv w' /\ horizon w <= print_time w' /\
  queue (lookahead w') = queue (lookahead w) /\ special_queuing_state w' = special_queuing_state w.
Proof.
  intros Hi. destruct (calc_print_time_ok w) as (r & pt & n & -> & Hpt & Hh & Hq). eexists. split; [done|].
  assert (Hr : runs w (w <| reads := r |> <| print_time := pt |> <| calls := calls w ++ n |>)).
  { split; try done. exists n. split; [done|by apply quiet_on_time]. }
  split; [done|]. split; [|done]. apply (inv_frame w); try done. cbn. by rewrite started_app, (started_quiet n Hq), app_nil_r.
Qed.

Lemma get_last_move_time_ok w : inv w -> exists w', get_last_move_time clock estimate w = Ret (print_time w') w' /\ runs w w' /\ inv w' /\
  horizon w <= print_time w' /\ queue (lookahead w') = [].
Proof.
  intros Hi. unfold get_last_move_time. unfold bind at 1. cbn [gets]. unfold is_special. destruct (special_queuing_state w) eqn:Es.
  - destruct (process_lookahead_ok false w Hi) as (w1 & E1 & Hr & Hi1 & Hq & Hs & _). rewrite (bind_ret _ _ _ _ _ E1). exists w1. split; [done|].
    do 2 (split; [done|]). split; [|by apply Hq]. rewrite <- (runs_horizon _ _ Hr). apply i_main; [done|]. destruct Hs; congruence.
  - destruct (flush_lookahead_ok false w Hi) as (w1 & E1 & Hr & Hi1 & Hq & Hs & _). rewrite bind_assoc, (bind_ret _ _ _ _ _ E1).
    destruct (calc_print_time_inv w1 Hi1) as (w2 & E2 & Hr2 & Hi2 & Hh & Eq & _). rewrite (bind_ret _ _ _ _ _ E2). exists w2. split; [done|].
    split; [by eapply runs_trans|]. split; [done|]. rewrite <- (runs_horizon _ _ Hr). split; [done|congruence].
  - destruct (flush_lookahead_ok false w Hi) as (w1 & E1 & Hr & Hi1 & Hq & Hs & _). rewrite bind_assoc, (bind_ret _ _ _ _ _ E1).
    destruct (calc_print_time_inv w1 Hi1) as (w2 & E2 & Hr2 & Hi2 & Hh & Eq & _). rewrite (bind_ret _ _ _ _ _ E2). exists w2. split; [done|].
    split; [by eapply runs_trans|]. split; [done|]. rewrite <- (runs_horizon _ _ Hr). split; [done|congruence].
Qed.
(** *** Generating steps *)

(** The new calls append moves only after time [h]. *)
Definition grows h w w' : Prop := exists new, calls w' = calls w ++ new /\ Forall (on_time h) new.
Lemma grows_trans h w1 w2 w3 : grows h w1 w2 -> grows h w2 w3 -> grows h w1 w3.
Proof. intros (n1 & E1 & H1) (n2 & E2 & H2). exists (n1 ++ n2). rewrite E2, E1, (assoc_L (++)). split; [done|by apply Forall_app]. Qed.
Lemma grows_later h h' w w' : h <= h' -> grows h' w w' -> grows h w w'.
Proof. intros Hle (n & E & Hn). exists n. split; [done|]. apply (Forall_impl _ _ _ Hn). intros []; cbn; done || lra. Qed.

(** An operation that may generate steps. *)
Record advances w w' : Prop := {
  a_drip : drip_start_times (mq w') = drip_start_times (mq w);
  a_horizon : horizon w <= horizon w';
  a_shutdown : is_shutdown w' = is_shutdown w;
  a_calls : grows (horizon w) w w' }.
Lemma runs_advances w w' : runs w w' -> advances w w'.
Proof. intros Hr. pose proof (runs_horizon _ _ Hr). destruct Hr. split; try done. lra. Qed.
Lemma advances_trans w1 w2 w3 : advances w1 w2 -> advances w2 w3 -> advances w1 w3.
Proof.
  intros [] []. split; try congruence; [lra|]. eapply grows_trans; [done|]. by apply (grows_later _ (horizon w2)).
Qed.

(** An operation returns with the invariant or shuts the printer down. *)
Definition good {B} w (o : outcome (ToolHead R) B) : Prop :=
  match o with
  | Ret _ w' => inv w' /\ advances w w'
  | Halt _ w' => (is_shutdown w' = true \/ inv w') /\ grows (horizon w) w w'
  | Crash _ => False
  end.
Lemma good_bind {B C} w w1 (m : M (ToolHead R) B) (k : B -> M (ToolHead R) C) : advances w w1 -> good w1 (m w1) ->
  (forall b w2, m w1 = Ret b w2 -> inv w2 -> advances w w2 -> good w (k b w2)) -> good w (bind m k w1).
Proof.
  intros Ha Hg Hk. unfold bind. destruct (m w1) as [b w2|msg w2|w2] eqn:E; [|split; [apply Hg|]|done].
  - destruct Hg as [Hi Ha2]. apply Hk; [done|done|by apply (advances_trans _ w1)].
  - destruct Hg as [_ Hg]. eapply grows_trans; [apply Ha|]. eapply grows_later; [apply Ha|done].
Qed.

Variable other_callbacks : R -> R -> PrinterMotionQueuing R -> PrinterMotionQueuing R.
Variable gen_steps_error : R -> R -> R -> bool.
(** Other objects only note activity in their callbacks. *)
Hypothesis other_core : forall f s q, same_core q (other_callbacks f s q).

Lemma advance_flush_time_ok a b w : inv w -> good w (advance_flush_time clock estimate other_callbacks gen_steps_error a b w).
Proof.
  intros Hi. unfold advance_flush_time. unfold bind at 1. cbn [gets foldl]. set (ft := pymax _ _). set (sg := pymax _ _).
  assert (Hsg : last_step_gen_time (mq w) <= sg) by (unfold sg; rewrite !pymax_R; eapply Rle_trans; [apply Rmax_r|apply Rmax_l]).
  destruct (handle_step_flush_ok ft sg w Hi) as (w1 & E1 & Hr & Hi1 & Hm). rewrite (bind_ret _ _ _ _ _ E1). clearbody ft sg.
  destruct (other_core ft sg (mq w1)) as (Hc1 & Hc2 & Hc3). unfold bind. cbn [set_mq modify gets emit].
  set (w2 := w1 <| mq ::= other_callbacks ft sg |>). change (mq w2) with (other_callbacks ft sg (mq w1)). rewrite Hc2.
  set (free := (sg - _)%num). set (clear := if mq_can_pause _ then _ else _). destruct Hr as [Hl He Hp Hsg' Hd Hdr Hs Ht (n & En & Hn)].
  assert (Hg : grows (horizon w) w (w2 <| calls ::= fun l => l ++ [Gen_steps ft sg clear] |>)).
  { exists (n ++ [Gen_steps ft sg clear]). cbn. rewrite En, (assoc_L (++)). split; [done|]. apply Forall_app. split; [done|by apply Forall_singleton]. }
  destruct (gen_steps_error ft sg clear); [split; [by left|done]|]. split.
  - pose proof (i_step_gen w Hi). destruct Hi1 as [Q1 Q2 Q3 Q4 Q5 Q6 Q7 Q8 Q9 Q10 Q11 Q12].
    split; try done; cbn in *; rewrite ?started_app, ?app_nil_r, ?Hc1, ?Hc2, ?Hc3; try done.
    + by apply trapq_finalize_ok.
    + lra.
    + unfold horizon. cbn. intros E. rewrite Hc2, Hd. by apply Hm.
    + destruct (decide _); [by apply trapq_finalize_before|]. split; [apply Q12|apply trapq_finalize_before, Q12].
  - split; try done; cbn in *; [by rewrite Hc3|]. unfold horizon. cbn. rewrite Hc2, Hd. lra.
Qed.
(** *** New moves *)

(** A request with its distances; it ends where it was asked to. *)
Record made (n : nat) m : Prop := {
  ma_fresh : fresh m;
  ma_path : path_ok m;
  ma_ratio : mv_axes_r m = (fun x => x / move_d m) <$> axes_d m;
  ma_length : length (axes_d m) = (3 + n)%nat }.
Lemma made_restricts n m m' : made n m -> restricts m m' -> made n m'.
Proof.
  intros [Hf Hp Hr Hl] [? (E1 & E2 & E3) (E4 & E5 & E6) _]. split; [done| |by rewrite E4, E5, E6|by rewrite E4].
  unfold path_ok. by rewrite E1, E2, E3, E5, E6.
Qed.

Lemma Move_init_made th sp ep speed m n : Move_init th sp ep speed = Some m -> 0 < speed -> limits_ok th -> nonzero (move_d m) = true ->
  length sp = (3 + n)%nat -> length ep = (3 + n)%nat -> made n m /\ length (mv_end_pos m) = (3 + n)%nat.
Proof.
  intros Hm Hs Hth Hnz Hsp Hep. destruct (Move_init_ok th sp ep speed m Hm Hs Hth Hnz) as (Hf & Es & Er & Hk).
  pose proof (mo_d m (fr_ok m Hf)) as Hd. destruct sp as [|x0 [|x1 [|x2 sp]]]; try (cbn in Hsp; lia). destruct ep as [|y0 [|y1 [|y2 ep]]]; try (cbn in Hep; lia).
  destruct (is_kinematic_move m) eqn:Ek.
  - destruct Hk as (Ee & Ea & _). split; [|by rewrite Ee]. split; [done| |done|].
    + intros _. rewrite Er, Ee, Es, Ea. unfold pos3, along, axis. cbn. f_equal; field; lra.
    + rewrite Ea. cbn. rewrite length_zip_with. cbn in Hsp, Hep. lia.
  - destruct Hk as (Ee & Ea). split.
    + split; [done|by intros E; rewrite Ek in E|done|]. rewrite Ea. cbn. rewrite drop_0, length_zip_with. cbn in Hsp, Hep. lia.
    + rewrite Ee. cbn. cbn in Hep. by rewrite drop_0.
Qed.

(** What [check_move] of the kinematics promises. *)
Class Kinematics (check : Move R -> Move R + string) : Prop :=
  kin_check_ok : forall m m', fresh m -> check m = inl m' -> restricts m m'.

#[export] Instance cart_kinematics k : TCEq (Rltb 0 (max_z_velocity k)) true -> TCEq (Rltb 0 (max_z_accel k)) true -> Kinematics (cart_check_move k).
Proof.
  rewrite !TCEq_eq. destruct (RltbP 0 (max_z_velocity k)) as [Hv|]; [|done]. destruct (RltbP 0 (max_z_accel k)) as [Ha|]; [|done].
  intros _ _ m m' Hf. unfold cart_check_move. destruct (if _ || _ then _ else _); [done|].
  destruct (nonzeroP (axis (axes_d m) 2)) as [Hz|]; cbn [negb]; [|intros E; inv E; by apply restricts_refl].
  destruct (check_endstops k m); [done|]. pose proof (mo_d m (fr_ok m Hf)) as Hd. assert (Hab : 0 < Rabs (axis (axes_d m) 2)) by by apply Rabs_pos_lt.
  rewrite pydiv_R by (cbn; lra). cbn [mbind option_bind]. set (zr := move_d m / nabs (axis (axes_d m) 2)).
  assert (Hzr : 0 < zr) by (by apply Rdiv_lt_0_compat).
  destruct (limit_speed_ok (max_z_velocity k * zr) (max_z_accel k * zr) m Hf) as (m1 & E & Hr & _); [by apply Rmult_lt_0_compat..|].
  change (max_z_velocity k * zr)%num with (max_z_velocity k * zr). change (max_z_accel k * zr)%num with (max_z_accel k * zr). rewrite E. intros E1. by inv E1.
Qed.

Lemma ratio_nonzero n m i d : made n m -> axes_d m !! i = Some d -> nonzero d = true -> axis (mv_axes_r m) i <> 0.
Proof.
  intros Hm Hd Hz. unfold axis. rewrite (ma_ratio n m Hm), list_lookup_fmap, Hd. cbn. destruct (nonzeroP d) as [Hd0|]; [|done].
  pose proof (mo_d m (fr_ok m (ma_fresh n m Hm))). intros E. apply Hd0. replace d with (d / move_d m * move_d m) by (field; lra). rewrite E. lra.
Qed.

Lemma check_extra_ok n l i m w : made n m -> Forall axis_ok l -> (i + length l <= 3 + n)%nat ->
  (exists m', check_extra i l m w = Ret m' w /\ restricts m m' /\
     forall k ea, l !! k = Some ea -> exists d, axes_d m !! (i + k)%nat = Some d /\ (nonzero d = true -> ea <> Dummy)) \/
  exists e, check_extra i l m w = Halt e w.
Proof.
  revert i m. induction l as [|ea l IH]; intros i m Hm Hl Hi; [left; exists m; split; [done|split; [apply restricts_refl, (ma_fresh n m Hm)|done]]|].
  apply Forall_cons in Hl as [Hea Hl]. cbn [check_extra length] in *. destruct (lookup_lt_is_Some_2 (axes_d m) i) as [d Ed].
  { rewrite (ma_length n m Hm). lia. }
  assert (Eb : forall k : R -> M (ToolHead R) (Move R), bind (lift (axes_d m !! i)) k w = k d w) by (intros k; unfold bind; by rewrite Ed).
  rewrite !Eb. assert (Hc : (exists m1, (if nonzero d then match check_move ea i m with inl m => ret m | inr _ => shutdown "Move error"%string end else ret m) w = Ret m1 w /\
      restricts m m1 /\ (nonzero d = true -> ea <> Dummy)) \/
    exists e, (if nonzero d then match check_move ea i m with inl m => ret m | inr _ => shutdown "Move error"%string end else ret m) w = Halt e w).
  { destruct (nonzero d) eqn:Ez; [|left; exists m; split; [done|split; [apply restricts_refl, (ma_fresh n m Hm)|done]]].
    destruct (check_move ea i m) as [m1|e] eqn:Ec; [left|right; by eexists].
    destruct (check_move_ok ea i m m1 Hea (ma_fresh n m Hm) (ratio_nonzero n m i d Hm Ed Ez) Ec) as [? ?]. by exists m1. }
  destruct Hc as [(m1 & E1 & Hr1 & Hd1)|(e & E1)]; [|right; exists e; exact (bind_halt _ _ _ _ _ E1)].
  destruct (IH (S i) m1 (made_restricts _ _ _ Hm Hr1) Hl ltac:(lia)) as [(m' & E2 & Hr2 & Hfit)|(e & E2)]; [left|right; exists e; by rewrite (bind_ret _ _ _ _ _ E1)].
  exists m'. split; [by rewrite (bind_ret _ _ _ _ _ E1)|]. split; [by eapply restricts_trans|]. intros [|k] ea' Hk.
  - cbn in Hk. inv Hk. exists d. by rewrite Nat.add_0_r.
  - destruct (Hfit k ea' Hk) as (d' & ? & ?). exists d'. rewrite <- Nat.add_succ_comm. destruct (rs_d _ _ Hr1) as (<- & _). done.
Qed.
Lemma advances_refl w : advances w w.
Proof. apply runs_advances, runs_refl. Qed.
Lemma runs_good {B} w w' (b : B) : runs w w' -> inv w' -> good w (Ret b w').
Proof. intros Hr Hi. split; [done|by apply runs_advances]. Qed.
Lemma halt_good {B} w e : inv w -> good (B:=B) w (Halt e w).
Proof. intros Hi. split; [by right|apply (a_calls _ _ (advances_refl w))]. Qed.

(** A checked move enters the queue. *)
Lemma add_to_queue_ok m w : inv w -> drip_start_times (mq w) = [] -> made (length (extra_axes w)) m -> length (mv_end_pos m) = (3 + length (extra_axes w))%nat ->
  axes_fit (extra_axes w) m ->
  exists b w', (modify (fun w => w <| commanded_pos := mv_end_pos m |>) ;;; add_to_queue m) w = Ret b w' /\ inv w' /\ advances w w' /\
    drip_start_times (mq w') = [] /\ queue (lookahead w') <> [].
Proof.
  intros Hi Hdr Hm Hlen Hfit. destruct (i_queue w Hi) as (v & Hq & Hch). pose proof (i_queued w Hi) as Hqd.
  destruct (add_move_ok (extra_axes w) m (lookahead w) v Hq) as (b & q' & m' & E & Eq & Hsp & Hq' & Hex & _); [|apply (ma_fresh _ _ Hm)|].
  { apply (Forall_impl _ _ _ Hqd). by intros x (? & _). }
  unfold bind, add_to_queue. cbn [modify]. set (w1 := w <| commanded_pos := mv_end_pos m |>).
  change (lookahead w1) with (lookahead w). change (extra_axes w1) with (extra_axes w). rewrite E.
  eexists b, _. split; [reflexivity|]. assert (Hne : queue q' <> []) by (rewrite Eq; by destruct (queue (lookahead w))).
  split; [|split; [by destruct (advances_refl w); split|done]].
  assert (Hm' : queued_ok (extra_axes w) m').
  { split; [by rewrite Eq in Hex; apply Forall_app in Hex as [_ Hex%Forall_inv]|]. destruct Hsp as [E1 E2 E3 (E4 & E5 & E6) _ _].
    split; [unfold axes_fit; by rewrite E4|]. unfold path_ok. rewrite E1, E2, E3, E5, E6. apply (ma_path _ _ Hm). }
  pose proof (i_last w Hi) as Hl. destruct Hi. split; try done; cbn.
  - by exists v.
  - rewrite Eq. apply Forall_app. split; [done|by apply Forall_singleton].
  - by rewrite decide_True in Hl |- *.
Qed.

Section kinematics.
Variable kin_check_move : Move R -> Move R + string.
Context `{!Kinematics kin_check_move}.

Lemma kin_check_cases n m w : made n m ->
  (exists m', kin_check kin_check_move m w = Ret m' w /\ restricts m m') \/ exists e, kin_check kin_check_move m w = Halt e w.
Proof.
  intros Hm. unfold kin_check. destruct (kin_check_move m) as [m'|e] eqn:E; [left|right; by exists e]. exists m'. split; [done|].
  apply (kin_check_ok m m' (ma_fresh n m Hm) E).
Qed.

(** A request is refused without effect, or queued. *)
Definition settled {B} w (o : outcome (ToolHead R) B) : Prop :=
  (exists e, o = Halt e w) \/ exists b w', o = Ret b w' /\ inv w' /\ advances w w'.
Lemma move_cases newpos speed w : inv w -> drip_start_times (mq w) = [] -> 0 < speed -> length newpos = length (commanded_pos w) ->
  settled w (move clock estimate kin_check_move newpos speed w).
Proof.
  intros Hi Hdr Hs Hlen. pose proof (i_pos w Hi) as Hpos. unfold move. unfold bind at 1. cbn [gets].
  destruct (Move_init (th_limits w) (commanded_pos w) newpos speed) as [m|] eqn:Em; cbn [lift]; [|left; by eexists].
  unfold bind at 1. cbn [ret]. destruct (nonzero (move_d m)) eqn:Ed; cbn [negb]; [|right; eexists _, w; split; [reflexivity|]; split; [done|apply advances_refl]].
  destruct (Move_init_made (th_limits w) (commanded_pos w) newpos speed m (length (extra_axes w)) Em Hs (i_limits w Hi) Ed Hpos) as [Hm Hend]; [by rewrite Hlen|].
  assert (Hk : (exists m', (if is_kinematic_move m then kin_check kin_check_move m else ret m) w = Ret m' w /\ restricts m m') \/
    exists e, (if is_kinematic_move m then kin_check kin_check_move m else ret m) w = Halt e w).
  { destruct (is_kinematic_move m); [by apply (kin_check_cases _ m w Hm)|]. left. exists m. split; [done|]. apply restricts_refl, (ma_fresh _ _ Hm). }
  destruct Hk as [(m1 & E1 & Hr1)|(e & E1)]; [|left; exists e; exact (bind_halt _ _ _ _ _ E1)]. rewrite !(bind_ret _ _ _ _ _ E1).
  destruct (check_extra_ok _ (extra_axes w) 3 m1 w (made_restricts _ _ _ Hm Hr1) (i_axes w Hi)) as [(m2 & E2 & Hr2 & Hfit)|(e & E2)]; [lia| |left; exists e; exact (bind_halt _ _ _ _ _ E2)].
  right. rewrite (bind_ret _ _ _ _ _ E2). pose proof (made_restricts _ _ _ (made_restricts _ _ _ Hm Hr1) Hr2) as Hm2.
  destruct (rs_path _ _ Hr1) as (_ & Ee1 & _). destruct (rs_path _ _ Hr2) as (_ & Ee2 & _).
  destruct (add_to_queue_ok m2 w Hi Hdr Hm2) as (b & w1 & E3 & Hi1 & Ha1 & Hdr1 & _).
  { by rewrite Ee2, Ee1. } { intros k ea Hk. destruct (Hfit k ea Hk) as (d & ? & ?). exists d. by rewrite (proj1 (rs_d _ _ Hr2)). }
  rewrite <- bind_assoc, (bind_ret _ _ _ _ _ E3). destruct b.
  - destruct (process_lookahead_ok true w1 Hi1) as (w2 & E4 & Hr & Hi2 & _). rewrite (bind_ret _ _ _ _ _ E4). eexists _, w2.
    split; [reflexivity|]. split; [done|]. by eapply advances_trans, runs_advances.
  - eexists _, w1. split; [reflexivity|]. by split.
Qed.
Lemma move_good newpos speed w : inv w -> drip_start_times (mq w) = [] -> 0 < speed -> length newpos = length (commanded_pos w) ->
  good w (move clock estimate kin_check_move newpos speed w).
Proof.
  intros Hi Hdr Hs Hlen. destruct (move_cases newpos speed w Hi Hdr Hs Hlen) as [(e & ->)|(b & w' & -> & Hi' & Ha)]; [by apply halt_good|by split].
Qed.
Lemma move_running newpos speed w : inv w -> drip_start_times (mq w) = [] -> 0 < speed -> length newpos = length (commanded_pos w) ->
  is_shutdown (final (move clock estimate kin_check_move newpos speed w)) = is_shutdown w.
Proof.
  intros Hi Hdr Hs Hlen. destruct (move_cases newpos speed w Hi Hdr Hs Hlen) as [(e & ->)|(b & w' & -> & _ & Ha)]; [done|by destruct Ha].
Qed.

(** *** The other operations *)

Lemma same_good {B} w w' (b : B) : runs w w' -> inv w -> queue (lookahead w') = queue (lookahead w) -> started (calls w') = started (calls w) ->
  th_trapq w' = th_trapq w -> (special_queuing_state w' = Main -> special_queuing_state w = Main) -> good w (Ret b w').
Proof.
  intros Hr Hi Eq Es Et Hs. apply runs_good; [done|]. apply (inv_frame w); try done. intros E. rewrite (runs_horizon _ _ Hr).
  pose proof (i_main w Hi (Hs E)). pose proof (r_time _ _ Hr). lra.
Qed.
Ltac framed := apply same_good; try done; split; try done; by exists []; rewrite app_nil_r; split; [|apply Forall_nil_2].

Lemma clock_good w : inv w -> good w (monotonic clock w).
Proof. intros Hi. framed. Qed.
Lemma estimate_good t w : inv w -> good w (estimated_print_time estimate t w).
Proof. intros Hi. framed. Qed.
Lemma note_good t b w : inv w -> good w (note_mcu_movequeue_activity t b w).
Proof.
  intros Hi. destruct (note_ok t b w) as (q & -> & H1 & H2 & H3). framed.
Qed.
Lemma gets_good {B} (f : ToolHead R -> B) w : inv w -> good w (gets f w).
Proof. intros Hi. framed. Qed.
Lemma ret_good {B} (b : B) w : inv w -> good w (ret b w).
Proof. intros Hi. framed. Qed.
Lemma set_mq_good f w : (forall q, same_core q (f q)) -> inv w -> good w (set_mq f w).
Proof. intros Hf Hi. destruct (Hf (mq w)) as (H1 & H2 & H3). framed. Qed.
Lemma good_trans {B} w w1 (o : outcome (ToolHead R) B) : advances w w1 -> good w1 o -> good w o.
Proof.
  intros Ha. destruct o as [b w2|e w2|w2]; [|intros [Hs Hg]; split; [done|]|done].
  - intros [Hi Ha2]. split; [done|by eapply advances_trans].
  - eapply grows_trans; [apply Ha|]. eapply grows_later; [apply Ha|done].
Qed.
Lemma good_seq {B C} w (m : M (ToolHead R) B) (k : B -> M (ToolHead R) C) : good w (m w) ->
  (forall b w1, m w = Ret b w1 -> inv w1 -> advances w w1 -> good w1 (k b w1)) -> good w (bind m k w).
Proof.
  intros Hm Hk. apply good_bind; [apply advances_refl|done|]. intros b w1 E Hi Ha. apply (good_trans w w1); [done|by apply Hk].
Qed.
Ltac branch := cbv zeta; match goal with |- good _ ((if ?b then _ else _) _) => destruct b end.
(** Run one operation and go on from its result. *)
Ltac go_on lem := apply good_seq; [by apply lem|intros ? ? _ ? _].

Lemma mq_stats_good t w : inv w -> good w (mq_stats estimate t w).
Proof. intros Hi. go_on estimate_good. by apply set_mq_good. Qed.
Lemma flush_lookahead_good b w : inv w -> good w (flush_lookahead clock estimate b w).
Proof. intros Hi. destruct (flush_lookahead_ok b w Hi) as (w' & -> & Hr & Hi' & _). by apply runs_good. Qed.
Lemma get_last_move_time_good w : inv w -> good w (get_last_move_time clock estimate w).
Proof. intros Hi. destruct (get_last_move_time_ok w Hi) as (w' & -> & Hr & Hi' & _). by apply runs_good. Qed.
Lemma advance_move_time_good t w : inv w -> good w (advance_move_time t w).
Proof.
  intros Hi. assert (print_time w <= pymax (print_time w) t) by (rewrite pymax_R; apply Rmax_l). framed.
Qed.
Lemma dwell_good d w : inv w -> good w (dwell clock estimate d w).
Proof. intros Hi. go_on flush_lookahead_good. go_on get_last_move_time_good. by apply advance_move_time_good. Qed.

Lemma await_good t w : inv w -> good w (await_flush_time clock estimate t w).
Proof.
  intros Hi. go_on @gets_good. branch; [by apply ret_good|]. go_on clock_good. go_on estimate_good. branch; by apply ret_good.
Qed.
Lemma check_pause_begin_good w : inv w -> good w (check_pause_begin clock estimate w).
Proof.
  intros Hi. go_on clock_good. apply good_seq; [by apply gets_good|]. intros sp w8 E1 Hi1 _. apply good_seq; [|intros; by apply ret_good].
  destruct sp; [|by apply ret_good]. unfold check_priming_state. apply good_seq; [by apply gets_good|]. intros e w9 E2 Hi2 _. destruct e; [by apply ret_good|].
  apply good_seq; [by apply estimate_good|]. intros est w10 _ Hi3 _. unfold modify. cbv beta zeta.
  destruct (nonzero (check_stall_time w10)); [destruct (nlt est (check_stall_time w10))|]; framed.
Qed.
Lemma check_pause_poll_good t w : inv w -> good w (check_pause_poll estimate t w).
Proof.
  intros Hi. go_on estimate_good. go_on @gets_good. branch; [by apply ret_good|]. go_on @gets_good. branch; [|by apply ret_good].
  apply good_seq; [framed|]. intros. by apply ret_good.
Qed.
Lemma check_pause_end_good b w : inv w -> good w (check_pause_end b w).
Proof.
  intros Hi. apply good_seq; [by apply gets_good|]. intros sp w8 E1 Hi1 _. destruct sp; [by apply ret_good|]. apply good_seq; [framed|]. intros. by apply ret_good.
Qed.
Lemma priming_body_good w : inv w ->
  good w (((if decide (special_queuing_state w = Priming) then flush_lookahead clock estimate true else ret tt) ;;; ret (reactor_NEVER : R)) (w <| priming_timer := None |>)).
Proof.
  intros Hi. assert (Hg : good w (Ret tt (w <| priming_timer := None |>))) by framed. destruct Hg as [Hi1 Ha].
  apply (good_trans _ _ _ Ha), good_seq; [|intros; by apply ret_good]. destruct (decide _); [by apply flush_lookahead_good|by apply ret_good].
Qed.

(** *** Drip moves *)

Abbreviation advance := (advance_flush_time clock estimate other_callbacks gen_steps_error).
Lemma flush_handler_inner t w : inv w -> exists body, flush_handler clock estimate other_callbacks gen_steps_error t w = try_shutdown body reactor_NEVER w /\ good w (body w).
Proof.
  intros Hi. eexists. split; [reflexivity|]. go_on estimate_good. go_on @gets_good. apply good_seq.
  - branch; branch; by apply advance_flush_time_ok || by apply ret_good.
  - intros _ w9 _ Hi2 _. go_on @gets_good. branch; [by apply ret_good|]. apply good_seq; [by apply set_mq_good|].
    intros. branch; by apply ret_good.
Qed.
Lemma drip_open_good t w : inv w -> good w (drip_open clock estimate other_callbacks gen_steps_error t w).
Proof. intros Hi. apply good_seq; [by apply set_mq_good|]. intros. by apply advance_flush_time_ok. Qed.
Lemma drip_round_good f e w : inv w -> good w (drip_round clock estimate other_callbacks gen_steps_error f e w).
Proof.
  intros Hi. go_on clock_good. go_on estimate_good. go_on @gets_good. branch; [by apply ret_good|].
  go_on note_good. apply good_seq; [by apply advance_flush_time_ok|]. intros. by apply ret_good.
Qed.
(** The move a drip move adds, if it has a distance. *)
Definition drip_move_ok w m : Prop :=
  nonzero (move_d m) = true ->
  made (length (extra_axes w)) m /\ length (mv_end_pos m) = (3 + length (extra_axes w))%nat /\ axes_fit (extra_axes w) m.

Lemma drip_check_ok newpos speed w m w' : inv w -> 0 < speed -> (3 <= length newpos)%nat ->
  drip_check kin_check_move newpos speed w = Ret m w' -> drip_move_ok w m.
Proof.
  intros Hi Hs Hlen E Hz. pose proof (i_pos w Hi) as Hpos. unfold drip_check in E. unfold bind at 1 in E. cbn [gets] in E.
  destruct (Move_init _ _ _ _) as [m0|] eqn:Em; [|done]. unfold bind in E. cbn [lift ret] in E. set (ep := take 3 newpos ++ drop 3 (commanded_pos w)) in *.
  assert (Hep : length ep = (3 + length (extra_axes w))%nat) by (unfold ep; rewrite length_app, length_take, length_drop; lia).
  assert (Hz0 : nonzero (move_d m0) = true) by (destruct (nonzero (move_d m0)) eqn:E0; [done|]; cbn in E; inv E; congruence).
  rewrite Hz0 in E. destruct (Move_init_made _ _ _ _ _ _ Em Hs (i_limits w Hi) Hz0 Hpos Hep) as [Hm Hend].
  destruct (kin_check_cases _ m0 w Hm) as [(m1 & E1 & Hr)|(e & E1)]; rewrite E1 in E; [|done]. injection E as E _. subst m1.
  split; [by eapply made_restricts|]. destruct (rs_path _ _ Hr) as (_ & -> & _). split; [done|]. intros i ea Hea. rewrite (proj1 (rs_d _ _ Hr)).
  exists 0. split; [|destruct (nonzeroP 0); [lra|done]].
  assert (Hi3 : zip_with (fun s e => e - s) (commanded_pos w) ep !! (3 + i)%nat = Some 0).
  { apply lookup_lt_Some in Hea. destruct (lookup_lt_is_Some_2 (commanded_pos w) (3 + i)) as [x Hx]; [lia|]. apply lookup_zip_with_Some.
    exists x, x. split; [lra|]. split; [done|]. unfold ep. rewrite lookup_app_r; rewrite length_take; [|lia]. rewrite lookup_drop, <- Hx. f_equal. lia. }
  destruct (Move_init_ok _ _ _ _ _ Em Hs (i_limits w Hi) Hz0) as (_ & _ & _ & Hk). destruct (is_kinematic_move m0); [by destruct Hk as (_ & -> & _)|].
  destruct Hk as (_ & ->). rewrite lookup_app_r by (rewrite length_replicate; lia). rewrite length_replicate, lookup_drop, <- Hi3. f_equal. lia.
Qed.

Lemma drip_append_ok l t v u w : chain v l u -> tq_ok (th_trapq w) -> 0 < t -> before t (th_trapq w) ->
  exists t' tq' new, drip_append l t w = Ret t' (grow w tq' new) /\ tq_ok tq' /\ before t' tq' /\ started new = l /\ Forall (on_time t) new.
Proof.
  revert t v w. induction l as [|[m j] l IH]; intros t v w Hch Htq Ht Hle.
  { exists t, (th_trapq w), []. rewrite <- grow_nil. do 4 (split; [done|]). by apply Forall_nil_2. }
  destruct Hch as (x & Hp & Hch). destruct (pr_times _ _ _ _ Hp) as (? & ? & ?). set (w1 := grow w (th_trapq w) [Start_move t m j]).
  destruct (append_move_ok t m v x j w1 Htq Ht Hle Hp) as (tq1 & E1 & Htq1 & Hend1). fold (grow w1 tq1 [Trapq_append t m j]) in E1.
  destruct (IH (t + accel_t j + cruise_t j + decel_t j) x (grow w1 tq1 [Trapq_append t m j])) as (t' & tq' & n3 & E3 & Htq' & Hend' & Hs3 & Ho3); try done; [lra|].
  exists t', tq', ([Start_move t m j; Trapq_append t m j] ++ n3). split.
  - cbn [drip_append]. assert (E0 : emit (Start_move t m j) w = Ret tt w1) by (unfold w1; rewrite <- grow_calls; done).
    rewrite (bind_ret _ _ _ _ _ E0), (bind_ret _ _ _ _ _ E1). change (t + accel_t j + cruise_t j + decel_t j)%num with (t + accel_t j + cruise_t j + decel_t j).
    rewrite E3. unfold w1. by rewrite !grow_grow.
  - do 2 (split; [done|]). rewrite started_app, Hs3. split; [done|]. apply Forall_app. split; [repeat apply Forall_cons_2; try apply Forall_nil_2; cbn; try done; lra|].
    apply (Forall_impl _ _ _ Ho3). intros []; cbn; lra || done.
Qed.
(** [inv] while the moves of a drip move are in the queue, up to [end_time]. *)
Definition drip_inv (end_time : R) w : Prop :=
  before end_time (th_trapq w) /\ forall q', kin_flush_delay q' = kin_flush_delay (mq w) -> last_step_gen_time q' = last_step_gen_time (mq w) ->
  drip_start_times q' <> [] -> end_time <= reactor_NEVER -> inv (w <| mq := q' |>).

Lemma drip_flush_ok w : inv w -> drip_start_times (mq w) = [] ->
  exists s e w', (moves <- flush_queue false ;; calc_print_time clock estimate ;;; start_time <- gets print_time ;; end_time <- drip_append moves start_time ;;
      modify (fun w => w <| lookahead ::= reset |>) ;;; ret (start_time, end_time)) w = Ret (s, e) w' /\
    drip_inv e w' /\ mq w' = mq w /\ is_shutdown w' = is_shutdown w /\ grows (horizon w) w w'.
Proof.
  intros Hi Hdr. destruct (i_queue w Hi) as (v & Hq & Hch). destruct (flush_ok false (lookahead w) v Hq) as (r & q' & u & Ef & Hr & _ & Eq & _ & Hlz).
  destruct (Hlz eq_refl) as [Eq' ->]. rewrite Eq', app_nil_r in Eq. pose proof (i_queued w Hi) as Hqd. rewrite <- Eq, Forall_fmap in Hqd.
  set (w1 := w <| lookahead := q' |>). assert (E1 : flush_queue false w = Ret r w1) by (unfold flush_queue; by rewrite Ef). rewrite (bind_ret _ _ _ _ _ E1).
  destruct (calc_print_time_ok w1) as (rd & pt & n & E2 & Hpt & Hh & Hn). set (w2 := _ <| calls := _ |>) in E2. rewrite (bind_ret _ _ _ _ _ E2).
  unfold bind at 1. cbn [gets]. pose proof (i_last w Hi) as Hl. rewrite decide_True in Hl by done. pose proof (inv_horizon w Hi) as Hpos.
  change (print_time w1) with (print_time w) in Hpt. change (horizon w1) with (horizon w) in Hh.
  destruct (drip_append_ok r pt v 0 w2) as (e & tq' & new & E3 & Htq & Hb & Hs & Ho); [done|apply (i_tq w Hi)|lra|by apply (before_le (print_time w))|].
  change (print_time w2) with pt. rewrite (bind_ret _ _ _ _ _ E3). unfold bind. cbn [modify ret].
  eexists pt, e, _. split; [reflexivity|].
  assert (Ec : calls (grow w2 tq' new) = calls w ++ n ++ new) by (cbn; by rewrite (assoc_L (++))).
  assert (Es : started (calls (grow w2 tq' new)) = started (calls w) ++ r) by (by rewrite Ec, !started_app, (started_quiet n Hn), Hs).
  split; [split; [done|]|].
  - intros q2 Hd Hsg Hne Hnv. destruct Hi. split; try done; cbn [th_limits extra_axes commanded_pos lookahead queue calls mq th_trapq print_time reset]; rewrite ?Hd, ?Hsg; try done.
    + exists 0. split; [apply queue_ok_nil|]. change (chain 0 (started (calls (grow w2 tq' new))) 0). rewrite Es. by apply (chain_concat _ _ v).
    + change (Forall (fun x => path_ok x.1) (started (calls (grow w2 tq' new)))). rewrite Es. apply Forall_app. split; [done|].
      apply (Forall_impl _ _ _ Hqd). by intros y (_ & _ & ?).
    + change (0 <= last_step_gen_time q2). by rewrite Hsg.
    + change (SDS_CHECK_TIME <= kin_flush_delay q2). by rewrite Hd.
    + intros _. change (last_step_gen_time q2 + kin_flush_delay q2 <= pt). rewrite Hd, Hsg. exact Hh.
    + change (0 <= pt). lra.
    + rewrite decide_False by done. split; [done|]. by apply (before_le e).
  - do 2 (split; [done|]). exists (n ++ new). split; [exact Ec|]. apply Forall_app. split; [by apply quiet_on_time|].
    apply (Forall_impl _ _ _ Ho). intros []; cbn; lra || done.
Qed.

Lemma drip_start_ok m w : inv w -> drip_start_times (mq w) = [] -> drip_move_ok w m ->
  exists s e w', drip_start clock estimate m w = Ret (s, e) w' /\ grows (horizon w) w w' /\ is_shutdown w' = is_shutdown w /\
    drip_start_times (mq w') = [s] /\ (e <= reactor_NEVER -> inv w').
Proof.
  intros Hi Hdr Hm. destruct (process_lookahead_ok false w Hi) as (w1 & E1 & Hr & Hi1 & _). unfold drip_start. rewrite (bind_ret _ _ _ _ _ E1).
  assert (Hdr1 : drip_start_times (mq w1) = []) by by rewrite (r_drip _ _ Hr).
  assert (Ha : exists w2, (when nonzero (move_d m) then (modify (fun w => w <| commanded_pos := mv_end_pos m |>) ;;; add_to_queue m ;;; ret tt)) w1 = Ret tt w2 /\
    inv w2 /\ advances w1 w2 /\ drip_start_times (mq w2) = []).
  { destruct (nonzero (move_d m)) eqn:Ez; [|exists w1; split; [done|]; split; [done|]; split; [apply advances_refl|done]].
    destruct (Hm Ez) as (Hma & Hlen & Hfit). rewrite <- (r_axes _ _ Hr) in Hma, Hlen, Hfit.
    destruct (add_to_queue_ok m w1 Hi1 Hdr1 Hma Hlen Hfit) as (b & w2 & E2 & Hi2 & Ha2 & Hdr2 & _). exists w2.
    rewrite <- bind_assoc, (bind_ret _ _ _ _ _ E2). done. }
  destruct Ha as (w2 & E2 & Hi2 & Ha2 & Hdr2). destruct (drip_flush_ok w2 Hi2 Hdr2) as (s & e & w3 & E3 & (Hb & Hinv) & Emq & Esh & Hg).
  assert (E4 : drip_load_trapq clock estimate m w1 = Ret (s, e) w3) by (unfold drip_load_trapq; rewrite (bind_ret _ _ _ _ _ E2); exact E3).
  rewrite (bind_ret _ _ _ _ _ E4). exists s, e. eexists. split; [reflexivity|]. cbn [fst].
  split; [|split; [|split]].
  - eapply grows_trans; [exact (r_calls _ _ Hr)|]. rewrite <- (runs_horizon _ _ Hr). eapply grows_trans; [exact (a_calls _ _ Ha2)|].
    eapply grows_later; [exact (a_horizon _ _ Ha2)|exact Hg].
  - change (is_shutdown w3 = is_shutdown w). by rewrite Esh, (a_shutdown _ _ Ha2), (r_shutdown _ _ Hr).
  - change (drip_start_times (mq w3) ++ [s] = [s]). by rewrite Emq, Hdr2.
  - intros Hle. apply (Hinv ((mq w3) <| drip_start_times ::= fun l => l ++ [s] |>)); try done. cbn. by destruct (drip_start_times (mq w3)).
Qed.

(** What every step keeps. *)
Definition safe {B} w (o : outcome (ToolHead R) B) : Prop :=
  crashed o = false /\ grows (horizon w) w (final o) /\ (is_shutdown (final o) = false -> inv (final o)).
Lemma good_safe {B} w (o : outcome (ToolHead R) B) : good w o -> safe w o.
Proof.
  destruct o as [b w'|e w'|w']; [intros [Hi Ha]|intros [Hs Hg]|done]; split; try done; cbn; [split; [apply Ha|done]|].
  split; [done|]. intros E. destruct Hs; [congruence|done].
Qed.
Lemma try_safe {B} w w1 (body : M (ToolHead R) B) b : good w (body w1) -> safe w (try_shutdown body b w1).
Proof.
  intros Hg. unfold try_shutdown. destruct (body w1) as [b' w'|e w'|w'] eqn:E; [by apply good_safe| |done].
  destruct Hg as [_ Hg]. split; [done|]. split; [exact Hg|]. cbn. done.
Qed.

Lemma drip_close_safe s f w : inv w -> drip_start_times (mq w) = [s] -> safe w (drip_close clock estimate other_callbacks gen_steps_error s f w).
Proof.
  intros Hi Hdr. unfold drip_close. set (w1 := w <| mq ::= fun q => q <| flush_timer := reactor_NOW |> |>).
  assert (Hg1 : good w (Ret tt w1)) by by apply (set_mq_good (fun q => q <| flush_timer := reactor_NOW |>)). destruct Hg1 as [Hi1 Ha1].
  unfold bind at 1. cbn [set_mq modify]. unfold bind at 1. cbn [gets]. fold w1.
  pose proof (good_trans _ _ _ Ha1 (advance_flush_time_ok (f + kin_flush_delay (mq w1)) (nint 0) w1 Hi1)) as Hg2.
  change (f + kin_flush_delay (mq w1))%num with (f + kin_flush_delay (mq w1)).
  destruct (advance_flush_time clock estimate other_callbacks gen_steps_error (f + kin_flush_delay (mq w1)) (nint 0) w1) as [[] w2|e w2|w2] eqn:E2; [|rewrite (bind_halt _ _ _ _ _ E2); by apply good_safe|done].
  rewrite (bind_ret _ _ _ _ _ E2). destruct Hg2 as [Hi2 Ha2]. unfold bind. cbn [set_mq modify]. split; [done|]. split; [exact (a_calls _ _ Ha2)|].
  intros _. cbn [final]. pose proof (a_drip _ _ Ha2) as Hd2. rewrite Hdr in Hd2. pose proof (i_last w2 Hi2) as Hl. rewrite Hd2, decide_False in Hl by done.
  assert (Er : remove_first s (drip_start_times (mq w2)) = []) by (rewrite Hd2; cbn; by destruct (ReqbP s s)).
  assert (Em : moves (trapq_finalize_moves reactor_NEVER (nint 0) (th_trapq w2)) = []) by (apply trapq_finalize_all, Hl).
  destruct Hi2. split; try done.
  - cbn [th_trapq]. by apply trapq_finalize_ok.
  - rewrite decide_True by exact Er. unfold before. cbn [th_trapq print_time]. change (Forall (fun x => move_end x <= print_time w2) (moves (trapq_finalize_moves reactor_NEVER (nint 0) (th_trapq w2)))).
    rewrite Em. by apply Forall_nil_2.
Qed.
(** *** Settings *)

Lemma grows_refl h w w' : calls w' = calls w -> grows h w w'.
Proof. intros E. exists []. rewrite app_nil_r. split; [done|by apply Forall_nil_2]. Qed.

Lemma set_position_safe newpos w : inv w -> (3 <= length newpos)%nat -> safe w (set_position newpos w).
Proof.
  intros Hi Hlen. split; [done|]. split; [by apply grows_refl|]. intros _. destruct Hi. split; try done.
  - change (length (take 3 newpos ++ drop 3 (commanded_pos w)) = (3 + length (extra_axes w))%nat). rewrite length_app, length_take, length_drop. lia.
  - by apply trapq_set_position_ok.
  - cbn [set_position modify final mq drip_start_times]. destruct (decide _); [by apply trapq_set_position_before|]. split; [apply i_last0|apply trapq_set_position_before, i_last0].
Qed.

(** A change of the last queued move that its plan does not depend on. *)
Lemma alter_last_safe f w : inv w -> (forall m, same_plan m (f m)) ->
  (forall m, 0 <= next_junction_v2 m -> 0 <= next_junction_v2 (f m)) -> (forall m, same_path m (f m) /\ junction_deviation (f m) = junction_deviation m) ->
  safe w (Ret tt (w <| lookahead ::= fun q => q <| queue ::= fun l => alter f (pred (length l)) l |> |>)).
Proof.
  intros Hi Hf Hn Hp. split; [done|]. split; [by apply grows_refl|]. intros _. destruct Hi as [Q1 Q2 Q3 (v & Hq & Hch) Q5 Q6 Q7 Q8 Q9 Q10 Q11 Q12]. split; try done; cbn [final lookahead queue].
  - exists v. split; [|done]. by apply (queue_ok_same v (queue (lookahead w))), Hq; apply alter_last_same.
  - apply Forall_lookup. intros i x. cbn. rewrite list_lookup_alter. rewrite Forall_lookup in Q5.
    destruct (decide (pred (length (queue (lookahead w))) = i)); [|by apply Q5].
    intros (y & Hy & ->)%fmap_Some. destruct (Q5 _ _ Hy) as ((K1 & K2) & K3 & K4). destruct (Hp y) as [[E1 E2 E3 (E4 & E5 & E6) _ _] E7].
    split; [split; [by apply Hn|by rewrite E7]|]. split; [unfold axes_fit; by rewrite E4|]. unfold path_ok. by rewrite E1, E2, E3, E5, E6.
  - destruct (decide _); [done|]. destruct Q12 as [E0 ?]. split; [|done]. cbn. by rewrite E0.
Qed.
Lemma limit_next_safe speed w : inv w -> safe w (th_limit_next_junction_speed speed w).
Proof.
  intros Hi. apply alter_last_safe; [done|by split| |by split]. intros m Hm. cbn. rewrite pymin_R. apply Rmin_glb; [done|]. apply Rle_0_sqr.
Qed.
Lemma register_callback_safe cb w : inv w -> safe w (register_lookahead_callback clock estimate cb w).
Proof.
  intros Hi. unfold register_lookahead_callback. destruct (get_last (lookahead w)); [by apply alter_last_safe|]. apply good_safe. go_on get_last_move_time_good.
  apply same_good; try done; cbn; [|by rewrite started_app, app_nil_r]. split; try done. eexists [_]. split; [done|by apply Forall_singleton].
Qed.

Lemma set_max_velocities_safe v a scv mcr w : inv w -> (forall x, v = Some x -> 0 < x) -> (forall x, a = Some x -> 0 < x <= 999999999 / 10) ->
  (forall x, mcr = Some x -> 0 <= x < 1) -> safe w (th_set_max_velocities v a scv mcr w).
Proof.
  intros Hi Hv Ha Hm. unfold th_set_max_velocities. pose proof (i_limits w Hi) as [L1 L2 L3 _ _]. unfold set_max_velocities.
  set (th := _ <| min_cruise_ratio := _ |>). destruct (calc_junction_deviation_ok th) as (th' & -> & Hth).
  - cbn. destruct v; [by apply Hv|done].
  - cbn. destruct a; [by apply Ha|done].
  - cbn. destruct mcr; [by apply Hm|done].
  - split; [done|]. split; [by apply grows_refl|]. intros _. destruct Hi. by split.
Qed.

Lemma scan_windows_safe l w : inv w -> special_queuing_state w <> Main -> safe w (check_step_generation_scan_windows l w).
Proof.
  intros Hi Hs. split; [done|]. split; [by apply grows_refl|]. intros _. destruct Hi. split; try done. cbn [check_step_generation_scan_windows set_mq modify final mq kin_flush_delay].
  change (SDS_CHECK_TIME <= foldl (fun d '(pre_active, post_active) => pymax (pymax d pre_active) post_active) SDS_CHECK_TIME l).
  assert (Hge : forall b d : R, b <= d -> b <= foldl (fun d '(pre_active, post_active) => pymax (pymax d pre_active) post_active) d l); [|by apply Hge].
  intros b. induction l as [|[p q] l IH]; intros d Hd; [done|]. cbn [foldl]. apply IH. rewrite !pymax_R.
  eapply Rle_trans; [exact Hd|]. eapply Rle_trans; apply Rmax_l.
Qed.

Lemma set_extruder_safe ea pos w : inv w -> queue (lookahead w) = [] -> axis_ok ea -> safe w (set_extruder ea pos w).
Proof.
  intros Hi Hq Hea. split; [done|]. split; [by apply grows_refl|]. intros _. destruct Hi. split; try done; cbn.
  - by apply Forall_insert.
  - by rewrite !length_insert.
  - rewrite Hq. by apply Forall_nil_2.
Qed.
Lemma add_extra_axis_safe ea pos w : inv w -> axis_ok ea -> safe w (add_extra_axis clock estimate ea pos w).
Proof.
  intros Hi Hea. destruct (flush_lookahead_ok false w Hi) as (w1 & E1 & Hr & Hi1 & Hq & Hs). unfold add_extra_axis. rewrite (bind_ret _ _ _ _ _ E1).
  split; [done|]. split; [exact (r_calls _ _ Hr)|]. intros _. destruct Hi1. split; try done; cbn.
  - apply Forall_app. split; [done|by apply Forall_singleton].
  - rewrite !length_app. cbn. lia.
  - rewrite Hq. by apply Forall_nil_2.
Qed.
Lemma remove_extra_axis_safe i w : inv w -> (i < length (extra_axes w))%nat -> safe w (remove_extra_axis clock estimate i w).
Proof.
  intros Hi Hlt. destruct (flush_lookahead_ok false w Hi) as (w1 & E1 & Hr & Hi1 & Hq & Hs). unfold remove_extra_axis. rewrite (bind_ret _ _ _ _ _ E1).
  rewrite <- (r_axes _ _ Hr) in Hlt. split; [done|]. split; [exact (r_calls _ _ Hr)|]. intros _. destruct Hi1. split; try done; cbn.
  - by apply Forall_delete.
  - rewrite !length_delete; [lia|by apply lookup_lt_is_Some_2|]. apply lookup_lt_is_Some_2. lia.
  - rewrite Hq. by apply Forall_nil_2.
Qed.
(** ** The reactor *)

Abbreviation dflush := (advance_flush_time clock estimate other_callbacks gen_steps_error).
(** One part of a function, between two pauses.  Moves are requested only when
    no drip move is under way (the G-Code mutex), and the scan windows and the
    extruder only change after [flush_step_generation].  The [dwell] between the
    check of a drip move and its start changes nothing that the check reads. *)
Inductive step w : ToolHead R -> Prop :=
| Step_move newpos speed : drip_start_times (mq w) = [] -> 0 < speed -> length newpos = length (commanded_pos w) ->
    step w (final (move clock estimate kin_check_move newpos speed w))
| Step_dwell delay : step w (final (dwell clock estimate delay w))
| Step_flush_lookahead b : step w (final (flush_lookahead clock estimate b w))
| Step_get_last_move_time : step w (final (get_last_move_time clock estimate w))
| Step_flush_all_steps flush_time : step w (final (dflush flush_time 0 w))
| Step_await t : step w (final (await_flush_time clock estimate t w))
| Step_flush_handler eventtime : step w (final (flush_handler clock estimate other_callbacks gen_steps_error eventtime w))
| Step_priming_handler : step w (final (priming_handler clock estimate w))
| Step_check_pause_begin : step w (final (check_pause_begin clock estimate w))
| Step_check_pause_poll t : step w (final (check_pause_poll estimate t w))
| Step_check_pause_end b : step w (final (check_pause_end b w))
| Step_stats t : step w (final (mq_stats estimate t w))
| Step_note t b : step w (final (note_mcu_movequeue_activity t b w))
| Step_scan_windows l : special_queuing_state w <> Main -> step w (final (check_step_generation_scan_windows l w))
| Step_set_position newpos : (3 <= length newpos)%nat -> step w (final (set_position newpos w))
| Step_limit_next speed : step w (final (th_limit_next_junction_speed speed w))
| Step_register cb : step w (final (register_lookahead_callback clock estimate cb w))
| Step_set_max_velocities v a scv mcr : (forall x, v = Some x -> 0 < x) -> (forall x, a = Some x -> 0 < x <= 999999999 / 10) ->
    (forall x, mcr = Some x -> 0 <= x < 1) -> step w (final (th_set_max_velocities v a scv mcr w))
| Step_set_extruder ea pos : queue (lookahead w) = [] -> axis_ok ea -> step w (final (set_extruder ea pos w))
| Step_add_extra_axis ea pos : axis_ok ea -> step w (final (add_extra_axis clock estimate ea pos w))
| Step_remove_extra_axis i : (i < length (extra_axes w))%nat -> step w (final (remove_extra_axis clock estimate i w))
| Step_drip_start newpos speed m s e w' : drip_start_times (mq w) = [] -> 0 < speed -> (3 <= length newpos)%nat ->
    drip_check kin_check_move newpos speed w = Ret m w -> drip_start clock estimate m w = Ret (s, e) w' -> e <= reactor_NEVER -> step w w'
| Step_drip_open t : step w (final (drip_open clock estimate other_callbacks gen_steps_error t w))
| Step_drip_round f e : step w (final (drip_round clock estimate other_callbacks gen_steps_error f e w))
| Step_drip_close s f : drip_start_times (mq w) = [s] -> step w (final (drip_close clock estimate other_callbacks gen_steps_error s f w))
| Step_shutdown : step w (final (invoke_shutdown w)).

Inductive reachable : ToolHead R -> Prop :=
| Reach_init fileoutput mv ma mcr scv w : 0 < mv -> 0 < ma <= 999999999 / 10 -> 0 <= mcr < 1 ->
    toolhead_init fileoutput mv ma mcr scv = Some w -> reachable w
| Reach_step w w' : reachable w -> is_shutdown w = false -> step w w' -> reachable w'.

Lemma init_inv fileoutput mv ma mcr scv w : 0 < mv -> 0 < ma <= 999999999 / 10 -> 0 <= mcr < 1 -> toolhead_init fileoutput mv ma mcr scv = Some w -> inv w.
Proof.
  intros Hv Ha Hm. unfold toolhead_init. destruct (calc_junction_deviation_ok (mk_limits mv ma mcr scv (nint 0) (nint 0))) as (li & -> & Hli); [done..|].
  intros E. cbn [mbind option_bind] in E. inv E. split; cbn; try done; try lra.
  all: first [by apply Forall_singleton|by apply Forall_nil_2|apply trapq_alloc_ok|exists 0; split; [apply queue_ok_nil|done]|idtac].
Qed.

Lemma step_safe w w' : inv w -> step w w' -> grows (horizon w) w w' /\ (is_shutdown w' = false -> inv w').
Proof.
  intros Hi Hs. assert (Hg : forall B (o : outcome (ToolHead R) B), safe w o -> grows (horizon w) w (final o) /\ (is_shutdown (final o) = false -> inv (final o))).
  { intros B o (_ & ? & ?). by split. }
  destruct Hs.
  all: try (apply Hg, good_safe; first [by apply move_good|by apply dwell_good|by apply flush_lookahead_good|by apply get_last_move_time_good|by apply advance_flush_time_ok|by apply await_good|by apply check_pause_begin_good|by apply check_pause_poll_good|by apply check_pause_end_good|by apply mq_stats_good|by apply note_good|by apply drip_open_good|by apply drip_round_good]).
  - destruct (flush_handler_inner eventtime w Hi) as (body & E & Hb). apply Hg. rewrite E. by apply try_safe.
  - apply Hg. apply (try_safe w (w <| priming_timer := None |>)). exact (priming_body_good w Hi).
  - by apply Hg, scan_windows_safe.
  - by apply Hg, set_position_safe.
  - by apply Hg, limit_next_safe.
  - by apply Hg, register_callback_safe.
  - by apply Hg, set_max_velocities_safe.
  - by apply Hg, set_extruder_safe.
  - by apply Hg, add_extra_axis_safe.
  - by apply Hg, remove_extra_axis_safe.
  - destruct (drip_start_ok m w Hi H) as (s' & e' & w1 & E & Hgr & _ & _ & Hi'); [by eapply drip_check_ok|]. rewrite E in H3. inv H3. by split; auto.
  - by apply Hg, drip_close_safe.
  - split; [by apply grows_refl|done].
Qed.

Lemma reachable_inv w : reachable w -> is_shutdown w = false -> inv w.
Proof.
  induction 1 as [fileoutput mv ma mcr scv w Hv Ha Hm E|w w' Hr IH Hs Hst]; intros Hs'; [by eapply init_inv|].
  by apply (step_safe w w' (IH Hs) Hst).
Qed.

(** C3: steps are never generated from moves that are not queued yet: in every
    reachable state, whatever the toolhead, the background flushing, the priming
    timer, dwells, homing moves and changes of settings do in any order, and
    whatever the clocks read, every move a step puts in the trapezoid queue starts
    at or after the time up to which steps were generated plus the window of later
    moves that a step depends on. *)
Theorem toolhead_never_late w w' : reachable w -> is_shutdown w = false -> step w w' ->
  exists new, calls w' = calls w ++ new /\
    forall t m j, Trapq_append t m j ∈ new -> last_step_gen_time (mq w) + kin_flush_delay (mq w) <= t.
Proof.
  intros Hr Hs Hst. destruct (step_safe w w' (reachable_inv w Hr Hs) Hst) as [(new & E & Hn) _]. exists new. split; [done|].
  intros t m j Hin. rewrite Forall_forall in Hn. exact (Hn _ Hin).
Qed.

(** C4: the planned motion is continuous and within limits: in every reachable
    state the moves started so far begin at rest, each one follows a trapezoid of
    its own acceleration, speed limit and distance to the requested end, and starts
    with the speed at which the one before it ends; the trapezoid queue is
    contiguous; flushing the look-ahead queue never fails, starts every accepted
    move and comes to rest. *)
Theorem toolhead_motion w : reachable w -> is_shutdown w = false ->
  (exists v, chain 0 (started (calls w)) v) /\ Forall (fun x => path_ok x.1) (started (calls w)) /\ tq_ok (th_trapq w) /\
  forall b, exists w', flush_lookahead clock estimate b w = Ret tt w' /\ chain 0 (started (calls w')) 0 /\
    (started (calls w')).*1 = (started (calls w)).*1 ++ queue (lookahead w).
Proof.
  intros Hr Hs. pose proof (reachable_inv w Hr Hs) as Hi. destruct (i_queue w Hi) as (v & _ & Hch). split; [by exists v|].
  split; [apply (i_started w Hi)|]. split; [apply (i_tq w Hi)|]. intros b.
  destruct (flush_lookahead_ok b w Hi) as (w' & E & _ & Hi' & Hq & _ & Hacc). exists w'. split; [done|].
  destruct (i_queue w' Hi') as (v' & Hq' & Hch'). rewrite Hq in Hq'. pose proof (qo_start _ _ Hq') as E0. cbn in E0. subst v'. split; [done|].
  unfold accepted in Hacc. by rewrite Hq, app_nil_r in Hacc.
Qed.
End kinematics.
End exact.

(** ** A printer *)

Section printer.
Context {A : Type} `{Num A}.
(** A clock that stands still, a Cartesian printer and no other objects. *)
Definition wit_clock (_ : nat) : A := nint 0.
Definition wit_estimate (_ : nat) (eventtime : A) : A := eventtime.
Definition wit_callbacks (_ _ : A) (q : PrinterMotionQueuing A) : PrinterMotionQueuing A := q.
Definition wit_error (_ _ _ : A) : bool := false.
Definition wit_kin : CartKinematics A := mk_CartKinematics (replicate 3 (nint 0, nint 200)) (nint 5) (nint 100).
Definition wit_toolhead : option (ToolHead A) := toolhead_init false (nint 300) (nint 3000) (nlit 1 2) (nint 5).
Definition wit_move (newpos : list A) (w : ToolHead A) : ToolHead A :=
  final (move wit_clock wit_estimate (cart_check_move wit_kin) newpos (nint 100) w).
Definition wit_flush (w : ToolHead A) : ToolHead A := final (flush_lookahead wit_clock wit_estimate true w).
Definition wit_log (w : ToolHead A) : list (nat * bool) :=
  omap (fun c => match c with
                 | Start_move t _ j => Some (0%nat, nlt (nint 0) (end_v j))
                 | Trapq_append t _ _ => Some (1%nat, nle BUFFER_TIME_START t)
                 | _ => None
                 end) (calls w).
End printer.

(** In floating point: two moves along a line are started without a stop between
    them, and the second one ends at rest. *)
Lemma printer_run :
  (wit_log ∘ wit_flush ∘ wit_move (nint <$> [20; 0; 0; 0]) ∘ wit_move (nint <$> [10; 0; 0; 0]) <$> wit_toolhead (A:=double))
  = Some [(0%nat, true); (1%nat, true); (0%nat, false); (1%nat, true)].
Proof. vm_compute. reflexivity. Qed.

#[export] Instance wit_kinematics : Kinematics (cart_check_move (wit_kin (A:=R))).
Proof.
  apply cart_kinematics; apply TCEq_eq; unfold wit_kin; cbn [max_z_velocity max_z_accel]; rewrite nint_R;
    match goal with |- Rltb ?x ?y = _ => destruct (RltbP x y) end; done || lra.
Qed.
Lemma wit_toolhead_ok : exists w : ToolHead R, wit_toolhead = Some w /\ is_shutdown w = false /\ inv w /\ drip_start_times (mq w) = [] /\ length (commanded_pos w) = 4%nat.
Proof.
  assert (H : exists w : ToolHead R, wit_toolhead = Some w).
  { unfold wit_toolhead, toolhead_init. destruct (calc_junction_deviation_ok (mk_limits (nint 300) (nint 3000) (nlit 1 2) (nint 5) (nint 0) (nint 0))) as (li & -> & _);
      [rewrite ?nint_R; cbn; lra..|]. by eexists. }
  destruct H as [w E]. exists w. split; [done|]. assert (Hi : inv w) by (apply (init_inv false (nint 300) (nint 3000) (nlit 1 2) (nint 5)); [rewrite ?nint_R; cbn; lra..|exact E]).
  unfold wit_toolhead, toolhead_init in E. destruct (calc_junction_deviation _); [|done]. cbn in E. inv E. done.
Qed.

Lemma wit_reach (w : ToolHead R) : wit_toolhead = Some w ->
  let w1 := wit_move [10; 0; 0; 0]%R w in
  reachable wit_clock wit_estimate wit_callbacks wit_error (cart_check_move wit_kin) w1 /\ is_shutdown w1 = false.
Proof.
  intros E. destruct wit_toolhead_ok as (w' & E' & Hs & Hi & Hd & Hl). rewrite E in E'. injection E' as Ew. subst w'. cbv zeta.
  assert (Hr : reachable wit_clock wit_estimate wit_callbacks wit_error (cart_check_move wit_kin) w)
    by (apply (Reach_init _ _ _ _ _ false (nint 300) (nint 3000) (nlit 1 2) (nint 5)); [rewrite ?nint_R; cbn; lra..|exact E]).
  split.
  - apply (Reach_step _ _ _ _ _ w); [done|done|]. apply Step_move; [done|rewrite nint_R; lra|by rewrite Hl].
  - rewrite <- Hs. apply (move_running wit_clock wit_estimate (cart_check_move wit_kin)); [done|done|rewrite nint_R; lra|by rewrite Hl].
Qed.
Lemma wit_core (f s : R) q : same_core q (wit_callbacks f s q).
Proof. done. Qed.

Lemma toolhead_never_late_witness : exists w : ToolHead R, wit_toolhead = Some w /\
  let w1 := wit_move [10; 0; 0; 0]%R w in
  exists new, calls (wit_flush w1) = calls w1 ++ new /\
    forall t m j, Trapq_append t m j ∈ new -> (last_step_gen_time (mq w1) + kin_flush_delay (mq w1) <= t)%R.
Proof.
  destruct wit_toolhead_ok as (w & E & _). exists w. split; [done|]. destruct (wit_reach w E) as [Hr Hs].
  apply (toolhead_never_late wit_clock wit_estimate wit_callbacks wit_error wit_core (cart_check_move wit_kin) _ _ Hr Hs). apply Step_flush_lookahead.
Defined.

Lemma toolhead_motion_witness : exists w : ToolHead R, wit_toolhead = Some w /\
  let w1 := wit_move [10; 0; 0; 0]%R w in
  (exists v, chain 0 (started (calls w1)) v) /\ Forall (fun x => path_ok x.1) (started (calls w1)) /\ tq_ok (th_trapq w1) /\
  forall b, exists w', flush_lookahead wit_clock wit_estimate b w1 = Ret tt w' /\ chain 0 (started (calls w')) 0 /\
    (started (calls w')).*1 = (started (calls w1)).*1 ++ queue (lookahead w1).
Proof.
  destruct wit_toolhead_ok as (w & E & _). exists w. split; [done|]. destruct (wit_reach w E) as [Hr Hs].
  apply (toolhead_motion wit_clock wit_estimate wit_callbacks wit_error wit_core (cart_check_move wit_kin) _ Hr Hs).
Defined.
