(* ===== verification/Forward.v ===== *)
(** * Forward kinematics (klippy/kinematics/, klippy/mathutil.py)

    The host asks where the toolhead is by feeding the positions of the steppers
    to [calc_position] of the printer's kinematics.  Each Python class is modelled
    with the stepper callbacks its constructor sets up (Kinematics.v) and its
    [calc_position]; the theorem composes the two. *)

From Stdlib Require Import Reals Lra RNsatz.
From S2P Require Import Prelude Double Numeric Trapq Itersolve Kinematics Lookahead.

Section forward.
Context {A : Type} `{Num A}.
Local Open Scope num_scope.

(** ** Vectors (mathutil.py) *)

Definition matrix_cross (m1 m2 : coord A) : coord A :=
  mk_coord (cy m1 * cz m2 - cz m1 * cy m2) (cz m1 * cx m2 - cx m1 * cz m2) (cx m1 * cy m2 - cy m1 * cx m2).
Definition matrix_dot (m1 m2 : coord A) : A := cx m1 * cx m2 + cy m1 * cy m2 + cz m1 * cz m2.
Definition matrix_magsq (m1 : coord A) : A := sq (cx m1) + sq (cy m1) + sq (cz m1).
Definition matrix_add (m1 m2 : coord A) : coord A := mk_coord (cx m1 + cx m2) (cy m1 + cy m2) (cz m1 + cz m2).
Definition matrix_sub (m1 m2 : coord A) : coord A := mk_coord (cx m1 - cx m2) (cy m1 - cy m2) (cz m1 - cz m2).
Definition matrix_mul (m1 : coord A) (s : A) : coord A := mk_coord (cx m1 * s) (cy m1 * s) (cz m1 * s).

(** [None] is an exception: other than three spheres, a division by zero or the
    root of a negative number. *)
Definition trilateration (sphere_coords : list (coord A)) (radius2 : list A) : option (coord A) :=
  match sphere_coords, radius2 with
  | [sphere_coord1; sphere_coord2; sphere_coord3], r0 :: r1 :: r2 :: _ =>
    let s21 := matrix_sub sphere_coord2 sphere_coord1 in
    let s31 := matrix_sub sphere_coord3 sphere_coord1 in
    d ← pysqrt (matrix_magsq s21);
    inv_d ← pydiv (nint 1) d;
    let ex := matrix_mul s21 inv_d in
    let i := matrix_dot ex s31 in
    let vect_ey := matrix_sub s31 (matrix_mul ex i) in
    mag_ey ← pysqrt (matrix_magsq vect_ey);
    inv_ey ← pydiv (nint 1) mag_ey;
    let ey := matrix_mul vect_ey inv_ey in
    let ez := matrix_cross ex ey in
    let j := matrix_dot ey s31 in
    x ← pydiv (r0 - r1 + sq d) (nint 2 * d);
    y ← pydiv (r0 - r2 - sq x + sq (x - i) + sq j) (nint 2 * j);
    z ← pysqrt (r0 - sq x - sq y);
    let z := nneg z in
    Some (matrix_add sphere_coord1 (matrix_add (matrix_mul ex x) (matrix_add (matrix_mul ey y) (matrix_mul ez z))))
  | _, _ => None
  end.

(** ** The kinematics *)

(** What the constructor of a kinematics sets up: the position of each stepper
    during a move of the trapezoid queue, and [calc_position] of the positions in
    the order of [rails]. *)
Record kinematics := mk_kinematics {
  rails : list (list (move A) -> nat -> A -> option A);
  calc_position : list A -> option (coord A) }.

Definition setup_itersolve {P} (sk : stepper_kinematics A P) : list (move A) -> nat -> A -> option A :=
  calc_position_cb sk (container sk) (commanded_pos sk).

(** [cartesian.py], without a dual carriage. *)
Definition cart_calc_position (pos : list A) : option (coord A) :=
  match pos with [x; y; z] => Some (mk_coord x y z) | _ => None end.
Definition cart_kinematics : kinematics :=
  mk_kinematics [setup_itersolve (cartesian_stepper_alloc "x"); setup_itersolve (cartesian_stepper_alloc "y");
                 setup_itersolve (cartesian_stepper_alloc "z")] cart_calc_position.

Definition corexy_calc_position (pos : list A) : option (coord A) :=
  match pos with
  | [p0; p1; p2] => Some (mk_coord (nlit 5 10 * (p0 + p1)) (nlit 5 10 * (p0 - p1)) p2)
  | _ => None
  end.
Definition corexy_kinematics : kinematics :=
  mk_kinematics [setup_itersolve (corexy_stepper_alloc "+"); setup_itersolve (corexy_stepper_alloc "-");
                 setup_itersolve (cartesian_stepper_alloc "z")] corexy_calc_position.

Definition corexz_calc_position (pos : list A) : option (coord A) :=
  match pos with
  | [p0; p1; p2] => Some (mk_coord (nlit 5 10 * (p0 + p2)) p1 (nlit 5 10 * (p0 - p2)))
  | _ => None
  end.
Definition corexz_kinematics : kinematics :=
  mk_kinematics [setup_itersolve (corexz_stepper_alloc "+"); setup_itersolve (cartesian_stepper_alloc "y");
                 setup_itersolve (corexz_stepper_alloc "-")] corexz_calc_position.

(** [primary]: there is a second carriage, on a fourth rail, and it is the primary
    one.  The constructors are modelled without a dual carriage. *)
Definition hybrid_corexy_calc_position (primary : bool) (pos : list A) : option (coord A) :=
  p1 ← pos !! 1%nat; p2 ← pos !! 2%nat;
  if primary then p3 ← pos !! 3%nat; Some (mk_coord (p3 - p1) p1 p2)
  else p0 ← pos !! 0%nat; Some (mk_coord (p0 + p1) p1 p2).
Definition hybrid_corexy_kinematics : kinematics :=
  mk_kinematics [setup_itersolve (corexy_stepper_alloc "-"); setup_itersolve (cartesian_stepper_alloc "y");
                 setup_itersolve (cartesian_stepper_alloc "z")] (hybrid_corexy_calc_position false).

Definition hybrid_corexz_calc_position (primary : bool) (pos : list A) : option (coord A) :=
  p1 ← pos !! 1%nat; p2 ← pos !! 2%nat;
  if primary then p3 ← pos !! 3%nat; Some (mk_coord (p3 - p2) p1 p2)
  else p0 ← pos !! 0%nat; Some (mk_coord (p0 + p2) p1 p2).
Definition hybrid_corexz_kinematics : kinematics :=
  mk_kinematics [setup_itersolve (corexz_stepper_alloc "-"); setup_itersolve (cartesian_stepper_alloc "y");
                 setup_itersolve (cartesian_stepper_alloc "z")] (hybrid_corexz_calc_position false).

(** [towers] and [arm2] are as the constructor computes them. *)
Definition delta_actuator_to_cartesian (towers : list (A * A)) (arm2 : list A) (spos : list A) : option (coord A) :=
  trilateration (zip_with (fun t sp => mk_coord t.1 t.2 sp) towers spos) arm2.
Definition delta_kinematics (towers : list (A * A)) (arm2 : list A) : kinematics :=
  mk_kinematics (zip_with (fun a t => setup_itersolve (delta_stepper_alloc a t.1 t.2)) arm2 towers)
    (delta_actuator_to_cartesian towers arm2).

Definition winch_calc_position (anchors : list (coord A)) (pos : list A) : option (coord A) :=
  trilateration (take 3 anchors) ((fun sp => sp * sp) <$> take 3 pos).
Definition winch_kinematics (anchors : list (coord A)) : kinematics :=
  mk_kinematics ((fun a => setup_itersolve (winch_stepper_alloc (cx a) (cy a) (cz a))) <$> anchors)
    (winch_calc_position anchors).

(** The arms reach [arm_x0] to the left and [arm_x1] to the right. *)
Definition deltesian_actuator_to_cartesian (arm_x0 arm_x1 arm2_0 arm2_1 sp0 sp1 : A) : option (A * A) :=
  let dx := arm_x0 + arm_x1 in
  let dz := sp1 - sp0 in
  pivots ← pysqrt (sq dx + sq dz);
  xt ← pydiv (sq pivots + arm2_0 - arm2_1) (nint 2 * pivots);
  zt ← pysqrt (arm2_0 - sq xt);
  a ← pydiv (xt * dx) pivots;
  b ← pydiv (zt * dz) pivots;
  c ← pydiv (xt * dz) pivots;
  e ← pydiv (zt * dx) pivots;
  Some (a + b - arm_x0, c - e + sp0).
Definition deltesian_calc_position (arm_x0 arm_x1 arm2_0 arm2_1 : A) (sp : list A) : option (coord A) :=
  match sp with
  | [sp0; sp1; sp2] =>
    '(x, z) ← deltesian_actuator_to_cartesian arm_x0 arm_x1 arm2_0 arm2_1 sp0 sp1; Some (mk_coord x sp2 z)
  | _ => None
  end.
Definition deltesian_kinematics (arm_x0 arm_x1 arm2_0 arm2_1 : A) : kinematics :=
  mk_kinematics [setup_itersolve (deltesian_stepper_alloc arm2_0 (nneg arm_x0));
                 setup_itersolve (deltesian_stepper_alloc arm2_1 arm_x1);
                 setup_itersolve (cartesian_stepper_alloc "y")]
    (deltesian_calc_position arm_x0 arm_x1 arm2_0 arm2_1).

(** The positions of all steppers at [move_time] of the [i]-th move. *)
Definition stepper_positions (k : kinematics) (l : list (move A)) (i : nat) (move_time : A) : option (list A) :=
  mapM (fun rail => rail l i move_time) (rails k).
End forward.
Arguments kinematics : clear implicits.

(** ** Round trips, in exact arithmetic *)

Section exact.
Local Open Scope R_scope.

(** At every place that satisfies [ok], the positions of the steppers give back
    the place. *)
Definition tracks (k : kinematics R) (ok : coord R -> Prop) : Prop :=
  forall l i m t, l !! i = Some m -> ok (move_get_coord m t) ->
  exists pos, stepper_positions k l i t = Some pos /\ calc_position k pos = Some (move_get_coord m t).

(** *** Trilateration *)

Lemma sq_R (x : R) : sq x = x * x. Proof. done. Qed.

(** The squared distance of two places. *)
Definition dist2 (p q : coord R) : R := matrix_magsq (matrix_sub p q).

(** The side of the plane through three places on which [trilateration] looks. *)
Definition below (s1 s2 s3 p : coord R) : Prop :=
  matrix_dot (matrix_sub p s1) (matrix_cross (matrix_sub s2 s1) (matrix_sub s3 s1)) <= 0.
Definition not_collinear (s1 s2 s3 : coord R) : Prop :=
  0 < matrix_magsq (matrix_cross (matrix_sub s2 s1) (matrix_sub s3 s1)).

Ltac vec := unfold matrix_add, matrix_mul, matrix_sub, matrix_cross, matrix_magsq, matrix_dot, sq in *;
  cbn [cx cy cz nadd nsub nmul nneg Num_R] in *.

(** Coordinates with respect to an orthonormal basis. *)
Lemma basis_expand (ex ey s : coord R) :
  matrix_magsq ex = 1 -> matrix_magsq ey = 1 -> matrix_dot ex ey = 0 ->
  let ez := matrix_cross ex ey in
  matrix_add (matrix_mul ex (matrix_dot s ex)) (matrix_add (matrix_mul ey (matrix_dot s ey)) (matrix_mul ez (matrix_dot s ez))) = s /\
  matrix_dot s ez * matrix_dot s ez =
    matrix_magsq s - matrix_dot s ex * matrix_dot s ex - matrix_dot s ey * matrix_dot s ey.
Proof.
  destruct ex as [a0 a1 a2], ey as [b0 b1 b2], s as [s0 s1 s2]. vec. intros H1 H2 H3. split; [f_equal; nsatz|nsatz].
Qed.

Lemma magsq_nonneg (a : coord R) : 0 <= matrix_magsq a.
Proof. destruct a as [x y z]. vec. nra. Qed.

Lemma dot_comm (a b : coord R) : matrix_dot a b = matrix_dot b a.
Proof. vec. ring. Qed.
Lemma dot_self (a : coord R) : matrix_dot a a = matrix_magsq a.
Proof. vec. ring. Qed.
Lemma dot_mul (s a : coord R) q : matrix_dot s (matrix_mul a q) = q * matrix_dot s a.
Proof. vec. ring. Qed.
Lemma dot_sub (s a b : coord R) : matrix_dot s (matrix_sub a b) = matrix_dot s a - matrix_dot s b.
Proof. vec. ring. Qed.
Lemma lagrange (a b : coord R) :
  matrix_magsq (matrix_cross a b) = matrix_magsq a * matrix_magsq b - matrix_dot a b * matrix_dot a b.
Proof. vec. ring. Qed.

(** Scaling a vector to length one. *)
Lemma unit_axis (a : coord R) :
  0 < matrix_magsq a ->
  let d := sqrt (matrix_magsq a) in let e := matrix_mul a (1 / d) in
  0 < d /\ d * d = matrix_magsq a /\ matrix_magsq e = 1 /\ (forall s, matrix_dot s a = d * matrix_dot s e).
Proof.
  intros Ha d e. assert (Hd : 0 < d) by (by apply sqrt_lt_R0).
  assert (Hdd : d * d = matrix_magsq a) by (apply sqrt_sqrt; lra).
  assert (He : forall s, matrix_dot s a = d * matrix_dot s e) by (intros s; unfold e; rewrite dot_mul; field; lra).
  split_and!; try done. rewrite <- dot_self. apply (Rmult_eq_reg_l d); [|lra]. rewrite <- He.
  unfold e. rewrite dot_comm, dot_mul, dot_self, <- Hdd. field. lra.
Qed.

(** The basis [trilateration] builds from two vectors. *)
Lemma basis_of (a b : coord R) :
  0 < matrix_magsq (matrix_cross a b) ->
  let d := sqrt (matrix_magsq a) in let ex := matrix_mul a (1 / d) in let i := matrix_dot ex b in
  let v := matrix_sub b (matrix_mul ex i) in let n := sqrt (matrix_magsq v) in let ey := matrix_mul v (1 / n) in
  0 < d /\ d * d = matrix_magsq a /\ 0 < n /\ n * n = matrix_magsq b - i * i /\
  matrix_magsq ex = 1 /\ matrix_magsq ey = 1 /\ matrix_dot ex ey = 0 /\
  (forall s, matrix_dot s a = d * matrix_dot s ex) /\ (forall s, matrix_dot s b = n * matrix_dot s ey + i * matrix_dot s ex) /\
  (forall s, matrix_dot s (matrix_cross a b) = d * n * matrix_dot s (matrix_cross ex ey)).
Proof.
  intros Hc d ex i v n ey. pose proof (lagrange a b) as HL. pose proof (magsq_nonneg a). pose proof (magsq_nonneg b).
  assert (Ha : 0 < matrix_magsq a).
  { destruct (Req_dec (matrix_magsq a) 0) as [E|]; [|lra]. rewrite E in HL.
    pose proof (Rle_0_sqr (matrix_dot a b)). unfold Rsqr in *. lra. }
  destruct (unit_axis a Ha) as (Hd & Hdd & Hex & Hdot). fold d ex in Hd, Hdd, Hex, Hdot.
  assert (Hab : matrix_dot a b = d * i) by (unfold i; by rewrite dot_comm, Hdot, dot_comm).
  assert (Hv : matrix_magsq v = matrix_magsq b - i * i).
  { rewrite <- dot_self. unfold v. rewrite dot_sub, dot_mul, !(dot_comm (matrix_sub _ _)), !dot_sub, !dot_mul, !dot_self, Hex.
    rewrite (dot_comm b ex). fold i. ring. }
  assert (Hvp : 0 < matrix_magsq v).
  { rewrite HL, Hab in Hc. apply (Rmult_lt_reg_l (matrix_magsq a)); [done|]. rewrite Hv.
    replace (matrix_magsq a * (matrix_magsq b - i * i)) with (matrix_magsq a * matrix_magsq b - d * i * (d * i)) by (rewrite <- Hdd; ring).
    lra. }
  destruct (unit_axis v Hvp) as (Hn & Hnn & Hey & Hdotv). fold n ey in Hn, Hnn, Hey, Hdotv.
  assert (Hb : forall s, matrix_dot s b = n * matrix_dot s ey + i * matrix_dot s ex).
  { intros s. rewrite <- Hdotv. unfold v. rewrite dot_sub, dot_mul. ring. }
  split_and!; try done; [lra| |].
  - apply (Rmult_eq_reg_l n); [|lra]. rewrite <- Hdotv. unfold v. rewrite dot_sub, dot_mul, dot_self, Hex. fold i. ring.
  - intros s. unfold ey, v, ex. set (q := 1 / d). set (r := 1 / n).
    transitivity ((q * d) * (r * n) * matrix_dot s (matrix_cross a b)); [unfold q, r; field; lra|].
    destruct s, a, b; vec; ring.
Qed.

(** When the place is at the given distances from three centres that are not on
    one line, and on the right side of them, [trilateration] finds it. *)
Lemma trilateration_exact (s1 s2 s3 p : coord R) rest :
  not_collinear s1 s2 s3 -> below s1 s2 s3 p ->
  trilateration [s1; s2; s3] (dist2 p s1 :: dist2 p s2 :: dist2 p s3 :: rest) = Some p.
Proof.
  unfold not_collinear, below. set (a := matrix_sub s2 s1). set (b := matrix_sub s3 s1). set (s := matrix_sub p s1).
  intros Hc Hb. destruct (basis_of a b Hc) as (Hd & Hdd & Hn & Hnn & Hex & Hey & Hxy & Da & Db & Dz).
  unfold trilateration. cbv zeta. fold a b.
  set (d := sqrt (matrix_magsq a)) in *. set (ex := matrix_mul a (1 / d)) in *. set (i := matrix_dot ex b) in *.
  set (v := matrix_sub b (matrix_mul ex i)) in *. set (n := sqrt (matrix_magsq v)) in *. set (ey := matrix_mul v (1 / n)) in *.
  rewrite (pysqrt_R (matrix_magsq a)) by apply magsq_nonneg. fold d. cbn [mbind option_bind].
  rewrite (pydiv_R (nint 1) d) by lra. cbn [mbind option_bind]. rewrite nint_R. fold ex i v.
  rewrite (pysqrt_R (matrix_magsq v)) by apply magsq_nonneg. fold n. cbn [mbind option_bind].
  rewrite (pydiv_R 1 n) by lra. cbn [mbind option_bind]. fold ey.
  rewrite (pydiv_R _ (nint 2 * d)%num) by (rsimpl; lra). cbn [mbind option_bind].
  assert (Ex : (dist2 p s1 - dist2 p s2 + sq d)%num / (nint 2 * d)%num = matrix_dot s ex).
  { rewrite nint_R. rsimpl. rewrite sq_R, Hdd. replace (dist2 p s1 - dist2 p s2 + matrix_magsq a) with (2 * matrix_dot s a)
      by (unfold dist2, s, a; vec; ring). rewrite Da. field. lra. }
  rewrite Ex. assert (Ej : matrix_dot ey b = n).
  { rewrite Db, (dot_comm ey ex), Hxy, dot_self, Hey. ring. }
  rewrite Ej. set (x := matrix_dot s ex) in *.
  rewrite (pydiv_R _ (nint 2 * n)%num) by (rsimpl; lra). cbn [mbind option_bind].
  assert (Ey : (dist2 p s1 - dist2 p s3 - sq x + sq (x - i)%num + sq n)%num / (nint 2 * n)%num = matrix_dot s ey).
  { rewrite nint_R. rsimpl. rewrite !sq_R, Hnn.
    replace (dist2 p s1 - dist2 p s3) with (2 * matrix_dot s b - matrix_magsq b) by (unfold dist2, s, b; vec; ring).
    rewrite Db. fold x. field. lra. }
  rewrite Ey. destruct (basis_expand ex ey s Hex Hey Hxy) as [Hs Hz]. fold x in Hs, Hz.
  assert (Ez : (dist2 p s1 - sq x - sq (matrix_dot s ey))%num = matrix_dot s (matrix_cross ex ey) * matrix_dot s (matrix_cross ex ey)).
  { rewrite Hz. unfold dist2. fold s. done. }
  rewrite Ez, pysqrt_R by apply Rle_0_sqr. cbn [mbind option_bind].
  assert (Hle : matrix_dot s (matrix_cross ex ey) <= 0).
  { rewrite Dz in Hb. assert (0 < d * n) by (by apply Rmult_lt_0_compat). nra. }
  change (sqrt (?u * ?u)) with (sqrt (Rsqr u)). rewrite sqrt_Rsqr_abs, Rabs_left1 by done.
  change (nneg (- ?u)) with (- - u). rewrite Ropp_involutive, Hs. unfold s. destruct p, s1. vec. do 2 f_equal; lra.
Qed.

(** *** The round trip of each kinematics *)

(** The stepper's position is a function of the place of the toolhead. *)
Definition rail_place (rail : list (move R) -> nat -> R -> option R) (g : coord R -> R) : Prop :=
  forall l i m t, l !! i = Some m -> rail l i t = Some (g (move_get_coord m t)).

Lemma place_rail {P} (sk : stepper_kinematics R P) g : place_kin sk g -> rail_place (setup_itersolve sk) g.
Proof. intros Hk l i m t Hm. by apply (pk_place _ _ Hk). Qed.

Lemma tracks_intro (k : kinematics R) gs ok :
  Forall2 rail_place (rails k) gs -> (forall c, ok c -> calc_position k ((fun g => g c) <$> gs) = Some c) -> tracks k ok.
Proof.
  intros Hr Hc l i m t Hm Hok. exists ((fun g => g (move_get_coord m t)) <$> gs). split; [|by apply Hc].
  unfold stepper_positions. clear Hc Hok. induction Hr as [|rail g rails gs H _ IH]; [done|].
  cbn. rewrite (H l i m t Hm). cbn. cbn in IH. by rewrite IH.
Qed.

Lemma coord_eta (c : coord R) : mk_coord (cx c) (cy c) (cz c) = c.
Proof. by destruct c. Qed.

Lemma linear_rails :
  rail_place (setup_itersolve (cartesian_stepper_alloc "x")) cx /\
  rail_place (setup_itersolve (cartesian_stepper_alloc "y")) cy /\
  rail_place (setup_itersolve (cartesian_stepper_alloc "z")) cz /\
  rail_place (setup_itersolve (corexy_stepper_alloc "+")) (fun c => cx c + cy c) /\
  rail_place (setup_itersolve (corexy_stepper_alloc "-")) (fun c => cx c - cy c) /\
  rail_place (setup_itersolve (corexz_stepper_alloc "+")) (fun c => cx c + cz c) /\
  rail_place (setup_itersolve (corexz_stepper_alloc "-")) (fun c => cx c - cz c).
Proof. split_and!; apply place_rail; first [apply cartesian_place|apply corexy_place|apply corexz_place]. Qed.

Ltac linear gs := apply (tracks_intro _ gs);
  [ cbn [rails app]; repeat constructor; apply linear_rails
  | intros c _; cbn; f_equal; destruct c; cbn; f_equal; lra ].

Lemma cart_tracks : tracks cart_kinematics (fun _ => True).
Proof. linear [cx; cy; cz : coord R -> R]. Qed.
Lemma corexy_tracks : tracks corexy_kinematics (fun _ => True).
Proof. linear [fun c : coord R => cx c + cy c; fun c => cx c - cy c; cz]. Qed.
Lemma corexz_tracks : tracks corexz_kinematics (fun _ => True).
Proof. linear [fun c : coord R => cx c + cz c; cy; fun c => cx c - cz c]. Qed.
Lemma hybrid_corexy_tracks : tracks hybrid_corexy_kinematics (fun _ => True).
Proof. linear [fun c : coord R => cx c - cy c; cy; cz]. Qed.
Lemma hybrid_corexz_tracks : tracks hybrid_corexz_kinematics (fun _ => True).
Proof. linear [fun c : coord R => cx c - cz c; cy; cz]. Qed.

(** The carriage of a tower when the toolhead is at [c]. *)
Definition carriage (a : R) (t : R * R) (c : coord R) : coord R := mk_coord t.1 t.2 (delta_place a t.1 t.2 c).
Definition tower_reach (a : R) (t : R * R) (c : coord R) : Prop :=
  (t.1 - cx c) * (t.1 - cx c) + (t.2 - cy c) * (t.2 - cy c) <= a.
(** Twice the signed area of the triangle of towers. *)
Definition tower_area (t1 t2 t3 : R * R) : R := (t2.1 - t1.1) * (t3.2 - t1.2) - (t2.2 - t1.2) * (t3.1 - t1.1).

Lemma carriage_dist a t c : tower_reach a t c -> dist2 c (carriage a t c) = a.
Proof.
  intros Hr. rewrite <- (delta_arm_length a t.1 t.2 c Hr) at 2. unfold dist2, carriage. vec. ring.
Qed.

Lemma carriages_not_collinear a1 a2 a3 t1 t2 t3 c :
  tower_area t1 t2 t3 <> 0 -> not_collinear (carriage a1 t1 c) (carriage a2 t2 c) (carriage a3 t3 c).
Proof.
  intros Ha. pose proof (Rlt_0_sqr _ Ha) as Hsq. unfold not_collinear, carriage, tower_area, Rsqr in *. vec.
  match goal with |- 0 < ?x * ?x + ?y * ?y + _ => pose proof (Rle_0_sqr x); pose proof (Rle_0_sqr y) end.
  unfold Rsqr in *. lra.
Qed.

Lemma delta_tracks a1 a2 a3 t1 t2 t3 :
  tower_area t1 t2 t3 <> 0 ->
  tracks (delta_kinematics [t1; t2; t3] [a1; a2; a3]) (fun c =>
    tower_reach a1 t1 c /\ tower_reach a2 t2 c /\ tower_reach a3 t3 c /\
    below (carriage a1 t1 c) (carriage a2 t2 c) (carriage a3 t3 c) c).
Proof.
  intros Ht. apply (tracks_intro _ [delta_place a1 t1.1 t1.2; delta_place a2 t2.1 t2.2; delta_place a3 t3.1 t3.2]).
  - cbn [delta_kinematics rails zip_with]. repeat constructor; apply place_rail, delta_ok.
  - intros c (R1 & R2 & R3 & Hb). cbn [delta_kinematics calc_position fmap list_fmap]. unfold delta_actuator_to_cartesian.
    cbn [zip_with]. fold (carriage a1 t1 c) (carriage a2 t2 c) (carriage a3 t3 c).
    pose proof (trilateration_exact _ _ _ c [] (carriages_not_collinear a1 a2 a3 t1 t2 t3 c Ht) Hb) as H.
    by rewrite (carriage_dist _ _ _ R1), (carriage_dist _ _ _ R2), (carriage_dist _ _ _ R3) in H.
Qed.

(** A toolhead inside the triangle of towers, which are numbered counterclockwise,
    is on the right side of the carriages. *)
Lemma inside_below a1 a2 a3 t1 t2 t3 u1 u2 u3 c :
  0 <= tower_area t1 t2 t3 -> 0 <= u1 -> 0 <= u2 -> 0 <= u3 -> u1 + u2 + u3 = 1 ->
  cx c = u1 * t1.1 + u2 * t2.1 + u3 * t3.1 -> cy c = u1 * t1.2 + u2 * t2.2 + u3 * t3.2 ->
  below (carriage a1 t1 c) (carriage a2 t2 c) (carriage a3 t3 c) c.
Proof.
  intros Ha H1 H2 H3 Hu Hx Hy. unfold below, carriage, delta_place.
  set (h1 := sqrt _). set (h2 := sqrt (a2 - _ - _)). set (h3 := sqrt (a3 - _ - _)).
  assert (P1 : 0 <= h1) by apply sqrt_pos. assert (P2 : 0 <= h2) by apply sqrt_pos. assert (P3 : 0 <= h3) by apply sqrt_pos.
  clearbody h1 h2 h3. vec. rewrite Hx, Hy. replace u1 with (1 - u2 - u3) in * by lra.
  match goal with |- ?x <= 0 => replace x with (- (tower_area t1 t2 t3 * ((1 - u2 - u3) * h1 + u2 * h2 + u3 * h3)))
    by (unfold tower_area; ring) end.
  assert (0 <= (1 - u2 - u3) * h1) by (by apply Rmult_le_pos). assert (0 <= u2 * h2) by (by apply Rmult_le_pos).
  assert (0 <= u3 * h3) by (by apply Rmult_le_pos). apply Ropp_le_cancel. rewrite Ropp_0, Ropp_involutive.
  apply Rmult_le_pos; [done|lra].
Qed.

Lemma winch_tracks a1 a2 a3 rest :
  not_collinear a1 a2 a3 -> tracks (winch_kinematics (a1 :: a2 :: a3 :: rest)) (below a1 a2 a3).
Proof.
  intros Ha. set (g := fun a : coord R => winch_place (cx a) (cy a) (cz a)).
  apply (tracks_intro _ (g <$> (a1 :: a2 :: a3 :: rest))).
  - cbn [winch_kinematics rails]. induction (a1 :: a2 :: a3 :: rest) as [|a l IH]; [constructor|].
    cbn [fmap list_fmap]. constructor; [apply place_rail, winch_ok|exact IH].
  - intros c Hb. cbn [winch_kinematics calc_position fmap list_fmap]. unfold winch_calc_position. cbn [take fmap list_fmap].
    assert (Hd : forall a, (g a c * g a c)%num = dist2 c a).
    { intros a. unfold g, winch_place. rsimpl. rewrite sqrt_sqrt; [unfold dist2; vec; ring|].
      repeat apply Rplus_le_le_0_compat; apply Rle_0_sqr. }
    rewrite !Hd. by apply (trilateration_exact _ _ _ c []).
Qed.

(** The two pivots of a deltesian: [px] is the distance of the toolhead from the
    left one, and the pivots are [h0] and [h1] above it. *)
Lemma deltesian_exact arm_x0 arm_x1 px h0 h1 z :
  0 < arm_x0 + arm_x1 -> 0 <= px <= arm_x0 + arm_x1 -> 0 <= h0 -> 0 <= h1 ->
  deltesian_actuator_to_cartesian arm_x0 arm_x1 (px * px + h0 * h0)
    ((arm_x0 + arm_x1 - px) * (arm_x0 + arm_x1 - px) + h1 * h1) (h0 + z) (h1 + z) = Some (px - arm_x0, z).
Proof.
  intros Hdx Hpx Hh0 Hh1. unfold deltesian_actuator_to_cartesian. cbv zeta. cbn [nadd nsub nmul Num_R].
  rewrite nint_R, !sq_R. set (dx := arm_x0 + arm_x1) in *.
  replace (h1 + z - (h0 + z)) with (h1 - h0) by ring. set (dz := h1 - h0).
  assert (Hpos : 0 < dx * dx + dz * dz) by (pose proof (Rle_0_sqr dz); unfold Rsqr in *; nra).
  rewrite pysqrt_R by lra. cbn [mbind option_bind]. set (L := sqrt (dx * dx + dz * dz)).
  assert (HL : 0 < L) by (by apply sqrt_lt_R0). assert (HLL : L * L = dx * dx + dz * dz) by (apply sqrt_sqrt; lra).
  assert (Hinv : 1 / L * L = 1) by (field; lra).
  rewrite pydiv_R by lra. cbn [mbind option_bind].
  assert (Ex : (L * L + (px * px + h0 * h0) - ((dx - px) * (dx - px) + h1 * h1)) / (2 * L) = (dx * px - h0 * dz) / L).
  { rewrite HLL. unfold dz. field. lra. }
  rewrite sq_R. cbn [nsub nmul Num_R]. rewrite HLL in Ex |- *. rewrite Ex. set (w := px * dz + h0 * dx).
  assert (Hw : 0 <= w).
  { unfold w, dz. replace (px * (h1 - h0) + h0 * dx) with (px * h1 + (dx - px) * h0) by ring.
    apply Rplus_le_le_0_compat; apply Rmult_le_pos; lra. }
  assert (Ez : px * px + h0 * h0 - (dx * px - h0 * dz) / L * ((dx * px - h0 * dz) / L) = w / L * (w / L)).
  { apply (Rmult_eq_reg_l (L * L)); [|nra]. transitivity (L * L * (px * px + h0 * h0) - (dx * px - h0 * dz) * (dx * px - h0 * dz));
      [field; lra|]. transitivity (w * w); [rewrite HLL; unfold w; ring|field; lra]. }
  assert (HwL : 0 <= w / L) by (apply Rmult_le_pos; [done|]; left; by apply Rinv_0_lt_compat).
  rewrite sq_R, Ez, pysqrt_R, sqrt_square by (done || apply Rle_0_sqr). cbn [mbind option_bind].
  rewrite !pydiv_R by lra. cbn [mbind option_bind]. f_equal. f_equal; apply (Rmult_eq_reg_l (L * L)); try nra.
  - transitivity ((dx * px - h0 * dz) * dx + w * dz - L * L * arm_x0); [field; lra|]. rewrite HLL. unfold w. ring.
  - transitivity ((dx * px - h0 * dz) * dz - w * dx + L * L * (h0 + z)); [field; lra|]. rewrite HLL. unfold w. ring.
Qed.

Lemma deltesian_tracks arm_x0 arm_x1 arm2_0 arm2_1 :
  0 < arm_x0 -> 0 < arm_x1 ->
  tracks (deltesian_kinematics arm_x0 arm_x1 arm2_0 arm2_1) (fun c =>
    - arm_x0 <= cx c <= arm_x1 /\ (cx c + arm_x0) * (cx c + arm_x0) <= arm2_0 /\ (cx c - arm_x1) * (cx c - arm_x1) <= arm2_1).
Proof.
  intros H0 H1. apply (tracks_intro _ [deltesian_place arm2_0 (- arm_x0); deltesian_place arm2_1 arm_x1; cy]).
  - cbn [deltesian_kinematics rails]. repeat constructor; [apply place_rail, deltesian_ok..|apply linear_rails].
  - intros c (Hx & R0 & R1). cbn [deltesian_kinematics calc_position fmap list_fmap deltesian_calc_position].
    unfold deltesian_place. set (h0 := sqrt (arm2_0 - _)). set (h1 := sqrt (arm2_1 - _)).
    assert (P0 : 0 <= h0) by apply sqrt_pos. assert (P1 : 0 <= h1) by apply sqrt_pos.
    assert (Q0 : h0 * h0 = arm2_0 - (cx c - - arm_x0) * (cx c - - arm_x0)) by (apply sqrt_sqrt; lra).
    assert (Q1 : h1 * h1 = arm2_1 - (cx c - arm_x1) * (cx c - arm_x1)) by (apply sqrt_sqrt; lra).
    pose proof (deltesian_exact arm_x0 arm_x1 (cx c + arm_x0) h0 h1 (cz c) ltac:(lra) ltac:(lra) P0 P1) as H.
    replace ((cx c + arm_x0) * (cx c + arm_x0) + h0 * h0) with arm2_0 in H by lra.
    replace ((arm_x0 + arm_x1 - (cx c + arm_x0)) * (arm_x0 + arm_x1 - (cx c + arm_x0)) + h1 * h1) with arm2_1 in H by lra.
    rewrite H. cbn [mbind option_bind]. f_equal. destruct c; cbn; f_equal; lra.
Qed.

(** C21: the host finds the toolhead where it is, in exact arithmetic.  At any time
    of any move, [calc_position] of the positions the C code gives for the steppers
    that the constructor of the kinematics sets up is the place of the toolhead.
    This holds everywhere for cartesian, corexy, corexz and the hybrid kinematics
    without a dual carriage.
    For a delta it holds where the arms reach and the toolhead is below the plane
    of the carriages (such as inside a triangle of towers numbered
    counterclockwise), for winches below the plane of the first three anchors, and
    for a deltesian where the arms reach and the toolhead is between the pivots.
    There no exception is raised. *)
Theorem calc_position_tracks :
  tracks cart_kinematics (fun _ => True) /\
  tracks corexy_kinematics (fun _ => True) /\ tracks corexz_kinematics (fun _ => True) /\
  tracks hybrid_corexy_kinematics (fun _ => True) /\ tracks hybrid_corexz_kinematics (fun _ => True) /\
  (forall a1 a2 a3 t1 t2 t3, tower_area t1 t2 t3 <> 0 ->
     tracks (delta_kinematics [t1; t2; t3] [a1; a2; a3]) (fun c =>
       tower_reach a1 t1 c /\ tower_reach a2 t2 c /\ tower_reach a3 t3 c /\
       below (carriage a1 t1 c) (carriage a2 t2 c) (carriage a3 t3 c) c)) /\
  (forall a1 a2 a3 rest, not_collinear a1 a2 a3 ->
     tracks (winch_kinematics (a1 :: a2 :: a3 :: rest)) (below a1 a2 a3)) /\
  (forall arm_x0 arm_x1 arm2_0 arm2_1, 0 < arm_x0 -> 0 < arm_x1 ->
     tracks (deltesian_kinematics arm_x0 arm_x1 arm2_0 arm2_1) (fun c =>
       - arm_x0 <= cx c <= arm_x1 /\ (cx c + arm_x0) * (cx c + arm_x0) <= arm2_0 /\
       (cx c - arm_x1) * (cx c - arm_x1) <= arm2_1)).
Proof.
  split_and!; [apply cart_tracks|apply corexy_tracks|apply corexz_tracks|apply hybrid_corexy_tracks
    |apply hybrid_corexz_tracks|apply delta_tracks|apply winch_tracks|apply deltesian_tracks].
Qed.

(** A delta with towers at (-3,-2), (3,-2) and (0,4), arms of length 5, and the
    toolhead on its way through (0,0,10). *)
Definition demo_move : move R := move_alloc <| start_pos := mk_coord 0 0 10 |>.

Lemma demo_place : move_get_coord demo_move 0 = mk_coord 0 0 10.
Proof. unfold move_get_coord, demo_move. cbn. f_equal; lra. Qed.

Lemma calc_position_tracks_witness :
  exists pos, stepper_positions (delta_kinematics [(-3, -2); (3, -2); (0, 4)] [25; 25; 25]) [demo_move] 0 0 = Some pos /\
    delta_actuator_to_cartesian [(-3, -2); (3, -2); (0, 4)] [25; 25; 25] pos = Some (mk_coord 0 0 10).
Proof.
  destruct calc_position_tracks as (_ & _ & _ & _ & _ & Hd & _).
  rewrite <- demo_place. apply (Hd 25 25 25 (-3, -2) (3, -2) (0, 4)); [unfold tower_area; cbn; lra|reflexivity|].
  rewrite demo_place. unfold tower_reach. cbn [cx cy fst snd]. split; [lra|]. split; [lra|]. split; [lra|].
  apply (inside_below 25 25 25 (-3, -2) (3, -2) (0, 4) (1 / 3) (1 / 3) (1 / 3)); unfold tower_area; cbn; lra.
Defined.
End exact.
