(* ===== verification/Heaters.v ===== *)
(** * Heaters (klippy/extras/heaters.py, klippy/extras/verify_heater.py)

    A [Heater] turns each temperature report into a command for the PWM output of
    its micro-controller, by a bang-bang or PID controller.  [HeaterCheck] looks
    at the temperature once a second and shuts the printer down when a heater does
    not heat.  A raised exception is [None]. *)

From Stdlib Require Import Reals Lra.
From S2P Require Import Prelude Double Numeric Lookahead.

Record ControlBangBang (A : Type) := mk_ControlBangBang { bb_max_power : A; max_delta : A; heating : bool }.
Arguments mk_ControlBangBang {A}. Arguments bb_max_power {A}. Arguments max_delta {A}. Arguments heating {A}.
#[export] Instance eta_ControlBangBang A : Eta (ControlBangBang A) := fun c => mk_ControlBangBang (bb_max_power c) (max_delta c) (heating c).

Record ControlPID (A : Type) := mk_ControlPID {
  pid_max_power : A;
  Kp : A;
  Ki : A;
  Kd : A;
  min_deriv_time : A;
  temp_integ_max : A;
  prev_temp : A;
  prev_temp_time : A;
  prev_temp_deriv : A;
  prev_temp_integ : A }.
Arguments mk_ControlPID {A}. Arguments pid_max_power {A}. Arguments Kp {A}. Arguments Ki {A}. Arguments Kd {A}. Arguments min_deriv_time {A}.
Arguments temp_integ_max {A}. Arguments prev_temp {A}. Arguments prev_temp_time {A}. Arguments prev_temp_deriv {A}. Arguments prev_temp_integ {A}.
#[export] Instance eta_ControlPID A : Eta (ControlPID A) := fun c =>
  mk_ControlPID (pid_max_power c) (Kp c) (Ki c) (Kd c) (min_deriv_time c) (temp_integ_max c) (prev_temp c) (prev_temp_time c)
    (prev_temp_deriv c) (prev_temp_integ c).

Inductive control_algo (A : Type) : Type := Watermark (c : ControlBangBang A) | Pid (c : ControlPID A).
Arguments Watermark {A}. Arguments Pid {A}.

(** [sent] holds the calls of [mcu_pwm.set_pwm], the last one first. *)
Record Heater (A : Type) := mk_Heater {
  min_temp : A;
  max_temp : A;
  pwm_delay : A;
  min_extrude_temp : A;
  can_extrude_ : bool;
  max_power : A;
  min_pwm_change : A;
  smooth_time : A;
  inv_smooth_time : A;
  verify_mainthread_time : A;
  last_temp : A;
  smoothed_temp : A;
  target_temp : A;
  last_temp_time : A;
  next_pwm_time : A;
  last_pwm_value : A;
  control : control_algo A;
  sent : list (A * A) }.
Arguments mk_Heater {A}. Arguments min_temp {A}. Arguments max_temp {A}. Arguments pwm_delay {A}. Arguments min_extrude_temp {A}.
Arguments can_extrude_ {A}. Arguments max_power {A}. Arguments min_pwm_change {A}. Arguments smooth_time {A}. Arguments inv_smooth_time {A}.
Arguments verify_mainthread_time {A}. Arguments last_temp {A}. Arguments smoothed_temp {A}. Arguments target_temp {A}. Arguments last_temp_time {A}.
Arguments next_pwm_time {A}. Arguments last_pwm_value {A}. Arguments control {A}. Arguments sent {A}.
#[export] Instance eta_Heater A : Eta (Heater A) := fun h =>
  mk_Heater (min_temp h) (max_temp h) (pwm_delay h) (min_extrude_temp h) (can_extrude_ h) (max_power h) (min_pwm_change h) (smooth_time h)
    (inv_smooth_time h) (verify_mainthread_time h) (last_temp h) (smoothed_temp h) (target_temp h) (last_temp_time h) (next_pwm_time h)
    (last_pwm_value h) (control h) (sent h).

Record HeaterCheck (A : Type) := mk_HeaterCheck {
  hysteresis : A;
  max_error_ : A;
  heating_gain : A;
  check_gain_time : A;
  approaching_target : bool;
  starting_approach : bool;
  last_target : A;
  goal_temp : A;
  error : A;
  goal_systime : A }.
Arguments mk_HeaterCheck {A}. Arguments hysteresis {A}. Arguments max_error_ {A}. Arguments heating_gain {A}. Arguments check_gain_time {A}.
Arguments approaching_target {A}. Arguments starting_approach {A}. Arguments last_target {A}. Arguments goal_temp {A}. Arguments error {A}.
Arguments goal_systime {A}.
#[export] Instance eta_HeaterCheck A : Eta (HeaterCheck A) := fun c =>
  mk_HeaterCheck (hysteresis c) (max_error_ c) (heating_gain c) (check_gain_time c) (approaching_target c) (starting_approach c)
    (last_target c) (goal_temp c) (error c) (goal_systime c).

Section heaters.
Context {A : Type} `{Num A}.
Local Open Scope num_scope.

Definition MAX_HEAT_TIME : A := nint 3.
Definition AMBIENT_TEMP : A := nint 25.
Definition PID_PARAM_BASE : A := nint 255.
Definition MAX_MAINTHREAD_TIME : A := nint 5.
Definition QUELL_STALE_TIME : A := nint 7.
Definition MIN_PWM_CHANGE_RATIO : A := nlit 5 100.
Definition PID_SETTLE_DELTA : A := nint 1.
Definition PID_SETTLE_SLOPE : A := nlit 1 10.
Definition never_checked : A := nint (-999).

Definition bang_bang_init (max_power max_delta : A) : ControlBangBang A := mk_ControlBangBang max_power max_delta false.
Definition pid_init (max_power pid_Kp pid_Ki pid_Kd smooth_time : A) : ControlPID A :=
  let ki := pid_Ki / PID_PARAM_BASE in
  mk_ControlPID max_power (pid_Kp / PID_PARAM_BASE) ki (pid_Kd / PID_PARAM_BASE) smooth_time
    (if nonzero ki then max_power / ki else nint 0) AMBIENT_TEMP (nint 0) (nint 0) (nint 0).
Definition heater_init (min_temp max_temp pwm_delay min_extrude_temp : A) (is_fileoutput : bool) (max_power smooth_time : A) (c : control_algo A) : option (Heater A) :=
  inv_smooth_time ← pydiv (nint 1) smooth_time;
  Some (mk_Heater min_temp max_temp pwm_delay min_extrude_temp ((min_extrude_temp <=? nint 0) || is_fileoutput) max_power
          (max_power * MIN_PWM_CHANGE_RATIO) smooth_time inv_smooth_time never_checked (nint 0) (nint 0) (nint 0) (nint 0) (nint 0) (nint 0) c []).

(** ** Output *)

Definition set_pwm (read_time value : A) (h : Heater A) : Heater A :=
  let value := if (target_temp h <=? nint 0) || (verify_mainthread_time h <? read_time) then nint 0 else value in
  if ((read_time <? next_pwm_time h) || negb (nonzero (last_pwm_value h))) && (nabs (value - last_pwm_value h) <? min_pwm_change h) then h else
  let pwm_time := read_time + pwm_delay h in
  h <| next_pwm_time := pwm_time + MAX_HEAT_TIME - (nint 3 * pwm_delay h + nlit 1 1000) |> <| last_pwm_value := value |>
    <| sent ::= cons (pwm_time, value) |>.

(** [temperature_update] of the controllers. *)
Definition bang_bang_heating (temp target : A) (c : ControlBangBang A) : bool :=
  if heating c && (target + max_delta c <=? temp) then false
  else if negb (heating c) && (temp <=? target - max_delta c) then true else heating c.
Definition bang_bang_update (read_time temp target : A) (c : ControlBangBang A) (h : Heater A) : Heater A :=
  let c := c <| heating := bang_bang_heating temp target c |> in
  set_pwm read_time (if heating c then bb_max_power c else nint 0) (h <| control := Watermark c |>).
Definition pid_update (read_time temp target : A) (c : ControlPID A) (h : Heater A) : option (Heater A) :=
  let time_diff := read_time - prev_temp_time c in
  let temp_diff := temp - prev_temp c in
  temp_deriv ← (if min_deriv_time c <=? time_diff then pydiv temp_diff time_diff
                else pydiv (prev_temp_deriv c * (min_deriv_time c - time_diff) + temp_diff) (min_deriv_time c));
  let temp_err := target - temp in
  let temp_integ := prev_temp_integ c + temp_err * time_diff in
  let temp_integ := pymax (nint 0) (pymin (temp_integ_max c) temp_integ) in
  let co := Kp c * temp_err + Ki c * temp_integ - Kd c * temp_deriv in
  let bounded_co := pymax (nint 0) (pymin (pid_max_power c) co) in
  let h := set_pwm read_time bounded_co h in
  let c := c <| prev_temp := temp |> <| prev_temp_time := read_time |> <| prev_temp_deriv := temp_deriv |> in
  Some (h <| control := Pid (if neq co bounded_co then c <| prev_temp_integ := temp_integ |> else c) |>).
Definition temperature_update (read_time temp target : A) (h : Heater A) : option (Heater A) :=
  match control h with
  | Watermark c => Some (bang_bang_update read_time temp target c h)
  | Pid c => pid_update read_time temp target c h
  end.

Definition temperature_callback (read_time temp : A) (h : Heater A) : option (Heater A) :=
  let time_diff := read_time - last_temp_time h in
  let h := h <| last_temp := temp |> <| last_temp_time := read_time |> in
  h ← temperature_update read_time temp (target_temp h) h;
  let temp_diff := temp - smoothed_temp h in
  let adj_time := pymin (time_diff * inv_smooth_time h) (nint 1) in
  let h := h <| smoothed_temp ::= fun t => t + temp_diff * adj_time |> in
  Some (h <| can_extrude_ := min_extrude_temp h <=? smoothed_temp h |>).

(** ** Commands *)

Definition handle_shutdown (h : Heater A) : Heater A := h <| verify_mainthread_time := never_checked |>.
Definition set_temp (degrees : A) (h : Heater A) : option (Heater A) :=
  if nonzero degrees && ((degrees <? min_temp h) || (max_temp h <? degrees)) then None else Some (h <| target_temp := degrees |>).
Definition get_temp (est_print_time : A) (h : Heater A) : A * A :=
  if last_temp_time h <? est_print_time - QUELL_STALE_TIME then (nint 0, target_temp h) else (smoothed_temp h, target_temp h).
Definition set_control (c : control_algo A) (h : Heater A) : Heater A * control_algo A :=
  (h <| control := c |> <| target_temp := nint 0 |>, control h).
Definition alter_target (target : A) (h : Heater A) : Heater A :=
  h <| target_temp := if nonzero target then pymax (min_temp h) (pymin (max_temp h) target) else target |>.
(** [stats], as long as the main thread runs and the printer is not shut down. *)
Definition heater_stats (is_shutdown : bool) (est_print_time : A) (h : Heater A) : Heater A :=
  if is_shutdown then h else h <| verify_mainthread_time := est_print_time + MAX_MAINTHREAD_TIME |>.
Definition check_busy (h : Heater A) : bool :=
  match control h with
  | Watermark c => smoothed_temp h <? target_temp h - max_delta c
  | Pid c => (PID_SETTLE_DELTA <? nabs (target_temp h - smoothed_temp h)) || (PID_SETTLE_SLOPE <? nabs (prev_temp_deriv c))
  end.

(** ** Checks *)

Definition check_init (hysteresis max_error heating_gain check_gain_time : A) : HeaterCheck A :=
  mk_HeaterCheck hysteresis max_error heating_gain check_gain_time false false (nint 0) (nint 0) (nint 0) (nint 9999999999999999).
(** [None] is [heater_fault], which shuts the printer down; otherwise the next
    event is a second later. *)
Definition check_event (eventtime temp target : A) (c : HeaterCheck A) : option (HeaterCheck A) :=
  if (target - hysteresis c <=? temp) || (target <=? nint 0) then
    let c := c <| approaching_target := false |> <| starting_approach := false |> in
    let c := if temp <=? target + hysteresis c then c <| error := nint 0 |> else c in
    Some (c <| last_target := target |>)
  else
    let c := c <| error ::= fun e => e + (target - hysteresis c - temp) |> in
    c ← (if negb (approaching_target c) then
           if negb (neq target (last_target c)) then
             Some (c <| approaching_target := true |> <| starting_approach := true |> <| goal_temp := temp + heating_gain c |>
                     <| goal_systime := eventtime + check_gain_time c |>)
           else if max_error_ c <=? error c then None else Some c
         else if goal_temp c <=? temp then
           Some (c <| starting_approach := false |> <| error := nint 0 |> <| goal_temp := temp + heating_gain c |>
                   <| goal_systime := eventtime + check_gain_time c |>)
         else if goal_systime c <=? eventtime then Some (c <| approaching_target := false |>)
         else if starting_approach c then Some (c <| goal_temp ::= fun g => pymin g (temp + heating_gain c) |>)
         else Some c);
    Some (c <| last_target := target |>).
End heaters.

(** ** Exact arithmetic *)

Section exact.
Local Open Scope R_scope.
Implicit Types (h : Heater R).

(** The controller has the heater's maximum power. *)
Definition control_ok (P : R) (c : control_algo R) : Prop :=
  match c with Watermark c => bb_max_power c = P /\ 0 < max_delta c | Pid c => pid_max_power c = P /\ 0 < min_deriv_time c end.

(** The commands sent, last one first: powers in range, and a heater that is on
    gets its next command in time. *)
Fixpoint commands_ok (P : R) (l : list (R * R)) : Prop :=
  match l with
  | [] => True
  | (t, v) :: l => 0 <= v <= P /\ (match l with (t', v') :: _ => v' <> 0 -> t < t' + MAX_HEAT_TIME | [] => True end) /\ commands_ok P l
  end.

Record heater_inv (P d : R) h : Prop := {
  hi_power : max_power h = P;
  hi_change : min_pwm_change h = P * MIN_PWM_CHANGE_RATIO;
  hi_delay : pwm_delay h = d;
  hi_control : control_ok P (control h);
  hi_sent : commands_ok P (sent h);
  hi_last : match sent h with
            | [] => last_pwm_value h = 0
            | (t, v) :: _ => last_pwm_value h = v /\ next_pwm_time h = t + MAX_HEAT_TIME - (3 * d + 1 / 1000) /\ (v <> 0 -> last_temp_time h < next_pwm_time h)
            end }.

Section power.
Context (P d : R) (HP : 0 < P) (Hd : 0 < d) (Hd' : 2 * d < 2999 / 1000).

(** The command is sent, or the last one stands. *)
Lemma set_pwm_cases r v h : exists val, (target_temp h <= 0 \/ verify_mainthread_time h < r \/ v = 0 -> val = 0) /\ (0 <= v <= P -> 0 <= val <= P) /\
  (set_pwm r v h = h /\ (r < next_pwm_time h \/ last_pwm_value h = 0) /\ Rabs (val - last_pwm_value h) < min_pwm_change h \/
   set_pwm r v h = h <| next_pwm_time := r + pwm_delay h + MAX_HEAT_TIME - (nint 3 * pwm_delay h + nlit 1 1000)%num |> <| last_pwm_value := val |>
                     <| sent ::= cons (r + pwm_delay h, val) |>).
Proof.
  unfold set_pwm. set (val := if _ || _ then _ else _). exists val. split; [|split].
  - unfold val. rewrite nint_R. destruct (nleP (target_temp h) 0), (nltP (verify_mainthread_time h) r); cbn [orb]; tauto.
  - unfold val. intros Hv. destruct (_ || _); rewrite ?nint_R; lra.
  - destruct (_ && _) eqn:E; [left|by right]. apply andb_true_iff in E as [E1 E2]. split; [done|]. split; [|by apply nlt_R in E2].
    apply orb_true_iff in E1 as [E1|E1]; [left; by apply nlt_R in E1|right]. destruct (nonzeroP (last_pwm_value h)) as [|Hz]; [done|]. destruct (Req_dec_T (last_pwm_value h) 0); tauto.
Qed.

(** The part of the state after a report that [set_pwm] sees. *)
Record reported r h : Prop := {
  re_power : max_power h = P;
  re_change : min_pwm_change h = P * MIN_PWM_CHANGE_RATIO;
  re_delay : pwm_delay h = d;
  re_control : control_ok P (control h);
  re_sent : commands_ok P (sent h);
  re_time : last_temp_time h = r;
  re_last : match sent h with
            | [] => last_pwm_value h = 0
            | (t, x) :: _ => last_pwm_value h = x /\ next_pwm_time h = t + MAX_HEAT_TIME - (3 * d + 1 / 1000) /\ (x <> 0 -> r < next_pwm_time h + 2 * d)
            end }.
(** What a report that should turn the heater off leaves. *)
Definition turned_off (r next : R) h' : Prop :=
  Rabs (last_pwm_value h') < P * MIN_PWM_CHANGE_RATIO /\ (next <= r -> last_pwm_value h' = 0).

Lemma set_pwm_inv r v h : 0 <= v <= P -> reported r h ->
  let h' := set_pwm r v h in
  heater_inv P d h' /\ (target_temp h <= 0 \/ verify_mainthread_time h < r \/ v = 0 -> turned_off r (next_pwm_time h) h').
Proof.
  intros Hv [E1 E2 E3 Hc Hs Et Hl] h'. subst h'. destruct (set_pwm_cases r v h) as (val & Hoff & Hval & Hcase). specialize (Hval Hv).
  assert (Hch : 0 < P * MIN_PWM_CHANGE_RATIO) by (apply Rmult_lt_0_compat; [done|unfold MIN_PWM_CHANGE_RATIO; cbn; lra]).
  destruct Hcase as [(-> & Hk & Hn)| ->].
  - rewrite E2 in Hn. split.
    + split; try done. destruct (sent h) as [|[t x] l]; [done|]. destruct Hl as (Ex & En & Hx). split; [done|]. split; [done|]. intros Hnz. rewrite Et. destruct Hk as [?|?]; [done|congruence].
    + intros Ho. rewrite (Hoff Ho), Rminus_0_l, Rabs_Ropp in Hn. split; [done|]. intros Hle. destruct Hk; [lra|done].
  - split; [split; try done; cbn|].
    + split; [done|]. split; [|done]. destruct (sent h) as [|[t x] l]; [done|]. destruct Hl as (Ex & En & Hx). intros Hnz. specialize (Hx Hnz). rewrite E3. unfold MAX_HEAT_TIME in *. cbn in *. lra.
    + rewrite E3, Et. split; [done|]. unfold MAX_HEAT_TIME. cbn. split; [lra|]. intros _. lra.
    + intros Ho. rewrite (Hoff Ho). split; cbn; [rewrite Rabs_R0; lra|done].
Qed.
(** A report that asks for no power. *)
Definition should_be_off (r temp : R) h : Prop :=
  target_temp h <= 0 \/ verify_mainthread_time h < r \/
  match control h with Watermark c => target_temp h + max_delta c <= temp | Pid _ => False end.

Lemma turned_off_frame r next h h' : last_pwm_value h' = last_pwm_value h -> turned_off r next h -> turned_off r next h'.
Proof. unfold turned_off. by intros ->. Qed.

Lemma temperature_update_ok r temp h : reported r h ->
  exists h', temperature_update r temp (target_temp h) h = Some h' /\ heater_inv P d h' /\ (should_be_off r temp h -> turned_off r (next_pwm_time h) h').
Proof.
  intros Hr. unfold temperature_update. pose proof (re_control _ _ Hr) as Hc. destruct (control h) as [c|c] eqn:Ec.
  - eexists. split; [done|]. destruct Hc as [HcP Hdel]. unfold bang_bang_update. set (c' := c <| heating := _ |>). set (h1 := h <| control := Watermark c' |>).
    assert (Hr1 : reported r h1) by (destruct Hr; split; try done; by rewrite HcP).
    assert (Hp : forall b : bool, 0 <= (if b then bb_max_power c' else nint 0) <= P) by (intros []; [change (bb_max_power c') with (bb_max_power c); lra|rewrite nint_R; lra]).
    destruct (set_pwm_inv r _ h1 (Hp (heating c')) Hr1) as [Hi Ho]. split; [done|]. intros Hs. apply Ho. unfold should_be_off in Hs. rewrite Ec in Hs.
    destruct Hs as [?|[?|Hs]]; [by left|by right; left|]. right; right. change (heating c') with (bang_bang_heating temp (target_temp h) c). unfold bang_bang_heating.
    destruct (heating c); cbn [andb negb].
    + destruct (nleP (target_temp h + max_delta c)%num temp) as [|Hn]; [by rewrite nint_R|]. by destruct Hn.
    + destruct (nleP temp (target_temp h - max_delta c)%num) as [Hn|]; [cbn in Hn; lra|by rewrite nint_R].
  - destruct Hc as [HcP Hmin]. unfold pid_update.
    assert (Hdiv : exists td, (if (min_deriv_time c <=? r - prev_temp_time c)%num then pydiv (temp - prev_temp c)%num (r - prev_temp_time c)%num
      else pydiv (prev_temp_deriv c * (min_deriv_time c - (r - prev_temp_time c)) + (temp - prev_temp c))%num (min_deriv_time c)) = Some td).
    { destruct (nleP (min_deriv_time c) (r - prev_temp_time c)%num) as [Hle|]; rewrite pydiv_R; [by eexists|cbn in *; lra|by eexists|lra]. }
    destruct Hdiv as [td ->]. cbn [mbind option_bind]. eexists. split; [done|].
    set (co := (Kp c * _ + _ - _)%num). set (b := pymax _ _).
    assert (Hb : 0 <= b <= P).
    { unfold b, pymax. rewrite pymin_R, nint_R, HcP. pose proof (Rmin_l P co). destruct (nltP 0 (Rmin P co)); lra. }
    destruct (set_pwm_inv r b h Hb Hr) as [Hi Ho]. split.
    + destruct Hi. split; try done. cbn. match goal with |- context [Reqb ?x ?y] => by destruct (Reqb x y) end.
    + intros Hs. apply (turned_off_frame _ _ (set_pwm r b h)); [done|]. apply Ho. unfold should_be_off in Hs. rewrite Ec in Hs. tauto.
Qed.

(** While the heater is on, reports arrive at least every two report times. *)
Lemma temperature_callback_ok r temp h : heater_inv P d h -> (last_pwm_value h <> 0 -> r - last_temp_time h <= 2 * d) ->
  exists h', temperature_callback r temp h = Some h' /\ heater_inv P d h' /\ (should_be_off r temp h -> turned_off r (next_pwm_time h) h').
Proof.
  intros Hi Hgap. unfold temperature_callback. set (h1 := h <| last_temp := temp |> <| last_temp_time := r |>).
  assert (Hr : reported r h1).
  { destruct Hi as [Q1 Q2 Q3 Q4 Q5 Q6]. split; try done. cbn. destruct (sent h) as [|[t x] l]; [done|]. destruct Q6 as (Ex & ? & Hx). do 2 (split; [done|]). rewrite Ex in Hgap. intros Hnz. specialize (Hx Hnz). specialize (Hgap Hnz). lra. }
  destruct (temperature_update_ok r temp h1 Hr) as (h2 & E & Hi2 & Ho). change (target_temp h1) with (target_temp h) in E |- *. rewrite E. cbn [mbind option_bind].
  eexists. split; [done|]. split; [destruct Hi2; by split|]. intros Hs. apply (turned_off_frame _ _ h2); [done|]. by apply Ho.
Qed.

(** *** Runs *)

Inductive event : Type :=
| Report (read_time temp : R)
| Set_temp (degrees : R)
| Alter_target (target : R)
| Set_control (c : control_algo R)
| Stats (is_shutdown : bool) (est_print_time : R)
| Shutdown_event.
Definition allowed (e : event) h : Prop :=
  match e with Report r _ => last_pwm_value h <> 0 -> r - last_temp_time h <= 2 * d | Set_control c => control_ok P c | _ => True end.
(** A refused temperature changes nothing. *)
Definition run_event (e : event) h : Heater R :=
  match e with
  | Report r t => default h (temperature_callback r t h)
  | Set_temp x => default h (set_temp x h)
  | Alter_target x => alter_target x h
  | Set_control c => (set_control c h).1
  | Stats s t => heater_stats s t h
  | Shutdown_event => handle_shutdown h
  end.
Inductive runs_from (h0 : Heater R) : Heater R -> Prop :=
| Run_init : runs_from h0 h0
| Run_event h e : runs_from h0 h -> allowed e h -> runs_from h0 (run_event e h).

Lemma run_event_inv e h : heater_inv P d h -> allowed e h -> heater_inv P d (run_event e h).
Proof.
  intros Hi Ha. destruct e as [r t|x|x|c|s t|]; cbn [run_event].
  - destruct (temperature_callback_ok r t h Hi Ha) as (h' & -> & Hi' & _). done.
  - unfold set_temp. destruct (_ && _); [done|]. destruct Hi. by split.
  - destruct Hi. by split.
  - destruct Hi. by split.
  - destruct s; [done|]. destruct Hi. by split.
  - destruct Hi. by split.
Qed.
Lemma runs_inv h0 h : heater_inv P d h0 -> runs_from h0 h -> heater_inv P d h.
Proof. intros H0. induction 1; [done|]. by apply run_event_inv. Qed.
End power.

Lemma heater_init_inv mn mx d me fo P st c : st <> 0 -> control_ok P c -> exists h, heater_init mn mx d me fo P st c = Some h /\ heater_inv P d h.
Proof.
  intros Hst Hc. unfold heater_init. rewrite pydiv_R by done. cbn [mbind option_bind]. eexists. split; [done|]. split; try done. cbn. lra.
Qed.
(** *** Checks *)

Implicit Types (c : HeaterCheck R).
(** The events of the check timer: time, temperature and target; [None] when one
    of them found a fault. *)
Fixpoint run_checks c (l : list (R * R * R)) : option (HeaterCheck R) :=
  match l with [] => Some c | (t, temp, target) :: l => c ← check_event t temp target c; run_checks c l end.
(** Each event is at least a second after the one before it. *)
Fixpoint spaced (t : R) (l : list (R * R * R)) : Prop :=
  match l with [] => True | (t', _, _) :: l => t <= t' /\ spaced (t' + 1) l end.
Lemma spaced_app t l l' : spaced t (l ++ l') -> spaced t l.
Proof. revert t. induction l as [|[[t1 temp] target] l IH]; intros t; [done|]. intros [? ?]. split; [done|]. by apply IH. Qed.

Section cold.
Context (hy me gain G T delta lo hi : R).
Context (Hgain : hi < lo + gain) (HG : 0 <= G) (HT : 0 < T) (Hdelta : 0 < delta) (Hme : 0 <= me).

(** What [check_event] keeps: a goal is set at most [G] ahead. *)
Record check_inv (t : R) c : Prop := {
  ci_params : hysteresis c = hy /\ max_error_ c = me /\ heating_gain c = gain /\ check_gain_time c = G;
  ci_error : 0 <= error c;
  ci_goal : approaching_target c = true -> goal_systime c <= t + G }.
Lemma check_event_inv t temp target c c' : check_inv t c -> check_event t temp target c = Some c' -> check_inv (t + 1) c'.
Proof.
  intros [(E1 & E2 & E3 & E4) He Hg]. unfold check_event.
  match goal with |- context [if ?b then _ else _] => destruct b eqn:En end.
  - intros E. inv E. match goal with |- context [if ?b then _ else _] => destruct b end; split; cbn; done || lra.
  - apply orb_false_iff in En as [En _]. apply nle_R_false in En. cbn in En. cbn. destruct (approaching_target c) eqn:Ea; cbn.
    + specialize (Hg eq_refl). rcases; cbn; try destruct (starting_approach c); cbn; intros E; inv E; split; cbn; intros; try done; try congruence; lra.
    + rcases; cbn; intros E; inv E; split; cbn; intros; try done; try congruence; lra.
Qed.

Definition cold (e : R * R * R) : Prop := let '(_, temp, target) := e in target = T /\ lo <= temp <= hi /\ temp + hy + delta <= T.
(** [n] more cold events, the first at [t] or later, are enough for a fault. *)
Definition enough (t n : R) c : Prop :=
  (approaching_target c = false /\ last_target c = T /\ 1 <= n /\ (me - error c) / delta + 1 <= n) \/
  (approaching_target c = false /\ last_target c <> T /\ G + 3 + me / delta <= n) \/
  (approaching_target c = true /\ hi < goal_temp c /\ 2 + me / delta <= n /\ goal_systime c - t + 3 + me / delta <= n) \/
  (approaching_target c = true /\ G + 3 + me / delta <= n /\ goal_systime c - t + G + 4 + me / delta <= n).

Lemma enough_later t t' n c : t <= t' -> enough t n c -> enough t' n c.
Proof. unfold enough. intros Ht [?|[?|[?|?]]]; [by left|by right; left|right; right; left|do 3 right]; intuition lra. Qed.

Lemma enough_start t c : check_inv t c -> enough t (2 * G + 4 + me / delta) c.
Proof.
  intros [_ He Hg].
  assert (Hq : 0 <= me / delta) by (apply Rle_mult_inv_pos; done).
  assert (He' : (me - error c) / delta <= me / delta) by (apply Rmult_le_compat_r; [left; by apply Rinv_0_lt_compat|lra]).
  unfold enough. destruct (approaching_target c); [specialize (Hg eq_refl); do 3 right; intuition lra|].
  destruct (Req_dec_T (last_target c) T); [left; intuition lra|right; left; intuition lra].
Qed.

(** A cold event that is not a fault leaves one event fewer to wait for. *)
Lemma enough_step t n c temp target c' : check_inv t c -> cold (t, temp, target) -> enough t n c ->
  check_event t temp target c = Some c' -> enough (t + 1) (n - 1) c'.
Proof.
  intros [(E1 & E2 & E3 & E4) He _] (-> & Ht & Hc) Hn. unfold check_event.
  assert (Hq : 0 <= me / delta) by (apply Rle_mult_inv_pos; done).
  assert (Herr : forall e, error c + delta <= e -> (me - e) / delta + 1 <= (me - error c) / delta).
  { intros e Hle. replace ((me - error c) / delta) with ((me - error c - delta) / delta + 1) by (field; lra).
    apply Rplus_le_compat_r, Rmult_le_compat_r; [left; by apply Rinv_0_lt_compat|lra]. }
  assert (He' : (me - error c) / delta <= me / delta) by (apply Rmult_le_compat_r; [left; by apply Rinv_0_lt_compat|lra]).
  match goal with |- context [if ?b then _ else _] => destruct b eqn:En end.
  { apply orb_true_iff in En as [En|En]; apply nle_R in En; rewrite ?nint_R in En; cbn in *; lra. }
  clear En. cbn. rewrite E1. specialize (Herr (error c + (T - hy - temp)) ltac:(lra)).
  destruct Hn as [(Ea & El & H1 & H2)|[(Ea & El & H1)|[(Ea & Hg & H1 & H2)|(Ea & H1 & H2)]]]; rewrite Ea; cbn.
  - rewrite El. destruct (ReqbP T T) as [_|]; [|done]. cbn. rcases; [done|]. intros E. inv E. left. cbn.
    assert (0 < (me - (error c + (T - hysteresis c - temp))) / delta) by (apply Rdiv_lt_0_compat; lra). intuition lra.
  - destruct (ReqbP T (last_target c)); [congruence|]. cbn. intros E. inv E. right; right; left. cbn. intuition lra.
  - destruct (RlebP (goal_temp c) temp); [lra|]. destruct (RlebP (goal_systime c) t).
    + intros E. inv E. left. cbn. intuition lra.
    + intros E. right; right; left. destruct (starting_approach c); inv E; cbn; rewrite ?pymin_R; [|intuition lra].
      split; [done|]. split; [apply Rmin_glb_lt; lra|lra].
  - destruct (RlebP (goal_temp c) temp); [intros E; inv E; right; right; left; cbn; intuition lra|]. destruct (RlebP (goal_systime c) t).
    + intros E. inv E. left. cbn. intuition lra.
    + intros E. do 3 right. destruct (starting_approach c); inv E; cbn; intuition lra.
Qed.

Lemma cold_run l : forall t n c, check_inv t c -> spaced t l -> Forall cold l -> enough t n c -> n <= INR (length l) -> run_checks c l = None.
Proof.
  induction l as [|[[t' temp] target] l IH]; intros t n c Hi Hs Hc Hn Hl.
  - exfalso. cbn in Hl. assert (Hq : 0 <= me / delta) by (apply Rle_mult_inv_pos; done). unfold enough in Hn. intuition lra.
  - destruct Hs as [Ht Hs]. apply Forall_cons in Hc as [Hc1 Hc]. cbn [run_checks].
    assert (Hi' : check_inv t' c) by (destruct Hi; split; [done..|]; intuition lra).
    destruct (check_event t' temp target c) as [c'|] eqn:E; [|done]. cbn [mbind option_bind].
    eapply IH; [by eapply check_event_inv|done|done|eapply enough_step; [done|done|by eapply enough_later|done]|]. cbn [length] in Hl. rewrite S_INR in Hl. lra.
Qed.
End cold.

Lemma run_checks_inv hy me gain G l : 0 <= G -> forall t c c', check_inv hy me gain G t c -> spaced t l -> run_checks c l = Some c' ->
  exists t', check_inv hy me gain G t' c' /\ forall l', spaced t (l ++ l') -> spaced t' l'.
Proof.
  intros HG. induction l as [|[[t' temp] target] l IH]; intros t c c' Hi Hs E.
  - inv E. by exists t.
  - destruct Hs as [Ht Hs]. cbn [run_checks] in E. destruct (check_event t' temp target c) as [c1|] eqn:Ec; [|done].
    destruct (IH (t' + 1) c1 c') as (t2 & Hi2 & Hl); [|done|done|exists t2; split; [done|]; intros l' [_ Hs']; by apply Hl].
    eapply check_event_inv; [|exact Ec]; [done..|]. destruct Hi; split; [done..|]; intuition lra.
Qed.

Lemma run_checks_app l l' : forall c, run_checks c (l ++ l') = run_checks c l ≫= fun c => run_checks c l'.
Proof. induction l as [|[[t temp] target] l IH]; intros c; [done|]. cbn. destruct (check_event t temp target c); [apply IH|done]. Qed.

(** A check once a second. *)
Fixpoint ticks (n : nat) (t temp target : R) : list (R * R * R) :=
  match n with 0%nat => [] | S n => (t, temp, target) :: ticks n (t + 1) temp target end.
Lemma ticks_spaced n : forall t temp target, spaced t (ticks n t temp target).
Proof. induction n; intros; [done|]. split; [lra|apply IHn]. Qed.
Lemma ticks_then n n' temp target temp' target' : forall t t', t + INR n <= t' -> spaced t (ticks n t temp target ++ ticks n' t' temp' target').
Proof.
  induction n as [|n IH]; intros t t' Ht.
  - cbn in *. destruct n'; [done|]. split; [lra|apply ticks_spaced].
  - rewrite S_INR in Ht. split; [lra|]. apply IH. lra.
Qed.
Lemma ticks_Forall (Q : R * R * R -> Prop) n temp target : (forall t, Q (t, temp, target)) -> forall t, Forall Q (ticks n t temp target).
Proof. intros HQ. induction n; intros t; [apply Forall_nil_2|]. apply Forall_cons. split; [apply HQ|apply IHn]. Qed.
Lemma ticks_length n : forall t temp target, length (ticks n t temp target) = n.
Proof. induction n; intros; [done|]. cbn. by rewrite IHn. Qed.

(** C5: Let a heater that is on be reported to at most twice [pwm_delay] after the
    last report, and let that be less than 2.999 seconds.  Whatever temperatures are
    requested, with either controller: every command of the heater's output has a power between
    zero and its maximum, and a command with power is followed by the next one
    before the three seconds [MAX_HEAT_TIME] after which the micro-controller would
    shut down.  Each report is handled without an exception; when the target is
    off, the time the main thread vouches for is over (five seconds after its last
    run, or at once at a shutdown), or a bang-bang controller measures [max_delta]
    above its target, the output is left below a twentieth of the maximum power,
    and at zero once the last command is up for renewal. *)
Theorem heater_output_safe mn mx d me fo P st ctl h0 h : 0 < P -> 0 < d -> 2 * d < 2999 / 1000 -> st <> 0 -> control_ok P ctl ->
  heater_init mn mx d me fo P st ctl = Some h0 -> runs_from P d h0 h ->
  commands_ok P (sent h) /\
  forall r temp, (last_pwm_value h <> 0 -> r - last_temp_time h <= 2 * d) ->
    exists h', temperature_callback r temp h = Some h' /\ commands_ok P (sent h') /\ (should_be_off r temp h -> turned_off P r (next_pwm_time h) h').
Proof.
  intros HP Hd Hd' Hst Hc E Hrun. destruct (heater_init_inv mn mx d me fo P st ctl Hst Hc) as (h1 & E1 & Hi). assert (h1 = h0) as -> by congruence.
  pose proof (runs_inv P d HP Hd Hd' h0 h Hi Hrun) as Hh. split; [apply Hh|]. intros r temp Hr.
  destruct (temperature_callback_ok P d HP Hd Hd' r temp h Hh Hr) as (h' & E' & Hi' & Ho). exists h'. split; [done|]. split; [apply Hi'|done].
Qed.

(** C6: A heater that does not heat is found in bounded time.  After any history
    of the checks, when the target stays at [T] while the temperature stays in a
    band narrower than [heating_gain] and [delta] or more below the tolerated
    difference, the printer is shut down within twice [check_gain_time] plus four
    plus [max_error / delta] checks, which are a second apart. *)
Theorem heater_fault_in_time hy me gain G T delta lo hi t past l :
  hi < lo + gain -> 0 <= G -> 0 < T -> 0 < delta -> 0 <= me ->
  spaced t (past ++ l) -> Forall (cold hy T delta lo hi) l -> 2 * G + 4 + me / delta <= INR (length l) ->
  run_checks (check_init hy me gain G) (past ++ l) = None.
Proof.
  intros Hgain HG HT Hdelta Hme Hs Hc Hn. rewrite run_checks_app. destruct (run_checks _ past) as [c|] eqn:E; [|done]. cbn [mbind option_bind].
  assert (H0 : check_inv hy me gain G t (check_init hy me gain G)) by (split; [done|cbn; lra|done]).
  destruct (run_checks_inv hy me gain G past HG t _ c H0 (spaced_app _ _ _ Hs) E) as (t' & Hi & Hl).
  eapply (cold_run hy me gain G T delta lo hi); [done..|apply Hl, Hs|done| |exact Hn]. by apply (enough_start hy me gain G).
Qed.

(** ** Examples *)

(** A heater of full power whose sensor reports three times a second. *)
Definition wit_heater : Heater R :=
  mk_Heater 0 300 (3 / 10) 170 (nle 170 (nint 0) || false) 1 (1 * MIN_PWM_CHANGE_RATIO) 1 (nint 1 / 1) (nint (-999)) (nint 0) (nint 0) (nint 0) (nint 0) (nint 0) (nint 0)
    (Watermark (bang_bang_init 1 2)) [].
Lemma heater_output_safe_witness : let h := run_event (Report 4 20) (run_event (Stats false 0) (run_event (Set_temp 200) wit_heater)) in
  commands_ok 1 (sent h) /\
  forall r temp, (last_pwm_value h <> 0 -> r - last_temp_time h <= 2 * (3 / 10)) ->
    exists h', temperature_callback r temp h = Some h' /\ commands_ok 1 (sent h') /\ (should_be_off r temp h -> turned_off 1 r (next_pwm_time h) h').
Proof.
  intros h. apply (heater_output_safe 0 300 (3 / 10) 170 false 1 1 (Watermark (bang_bang_init 1 2)) wit_heater h); try lra.
  - split; cbn; [done|lra].
  - unfold heater_init. rewrite pydiv_R by lra. reflexivity.
  - unfold h. apply Run_event; [apply Run_event; [apply Run_event; [apply Run_init|done]|done]|]. intros Hn. destruct Hn.
    cbn. unfold set_temp. destruct (_ && _); cbn; lra.
Defined.

(** A heater that is turned on after ten seconds and stays at 20 degrees. *)
Lemma heater_fault_in_time_witness : run_checks (check_init 5 120 2 20) (ticks 10 0 20 0 ++ ticks 60 100 20 200) = None.
Proof.
  apply (heater_fault_in_time 5 120 2 20 200 10 20 21 0); try lra.
  - apply ticks_then. rewrite INR_IZR_INZ. change (Z.of_nat 10) with 10%Z. lra.
  - apply ticks_Forall. intros t. split; [done|]. split; lra.
  - rewrite ticks_length, INR_IZR_INZ. change (Z.of_nat 60) with 60%Z. lra.
Defined.
End exact.
