(* ===== verification/Clocksync.v ===== *)
(** * Clock synchronisation (klippy/clocksync.py)

    [ClockSync] extends the 32-bit clock of the responses of a micro-controller to
    64 bits, and estimates its frequency by a decaying linear regression of the
    clock over the times the queries were sent.  [SecondarySync] adjusts the clock
    of a further micro-controller to the print time of the main one.

    The clock averages start as Python integers; they are written as numbers of
    the arithmetic, in which counters below 2^53 are exact.  [None] is an exception
    (a division by zero, the root of a negative number or an integer of an
    infinite number). *)

From Stdlib Require Import Reals Lra.
From S2P Require Import Prelude Double Numeric Lookahead.

(** Python's [int] of a float. *)
Class Integral (A : Type) := ntrunc : A -> option Z.
#[export] Instance Integral_double : Integral double := trunc.
Definition Rtrunc (x : R) : Z := if Rlt_dec x 0 then - Int_part (- x) else Int_part x.
#[export] Instance Integral_R : Integral R := fun x => Some (Rtrunc x).

Record ClockSync (A : Type) := mk_ClockSync {
  mcu_freq : A;
  queries_pending : Z;
  last_clock : Z;
  time_avg : A;
  time_variance : A;
  clock_avg : A;
  clock_covariance : A;
  prediction_variance : A;
  last_prediction_time : A;
  min_half_rtt : A;
  min_rtt_time : A;
  clock_est : A * A * A;
  sent_est : list (A * A * Z) }.
Arguments mk_ClockSync {A}. Arguments mcu_freq {A}. Arguments queries_pending {A}. Arguments last_clock {A}. Arguments time_avg {A}.
Arguments time_variance {A}. Arguments clock_avg {A}. Arguments clock_covariance {A}. Arguments prediction_variance {A}.
Arguments last_prediction_time {A}. Arguments min_half_rtt {A}. Arguments min_rtt_time {A}. Arguments clock_est {A}. Arguments sent_est {A}.
#[export] Instance eta_ClockSync A : Eta (ClockSync A) := fun c =>
  mk_ClockSync (mcu_freq c) (queries_pending c) (last_clock c) (time_avg c) (time_variance c) (clock_avg c) (clock_covariance c)
    (prediction_variance c) (last_prediction_time c) (min_half_rtt c) (min_rtt_time c) (clock_est c) (sent_est c).

(** The parameters of a clock response: its clock, and the times its query was
    sent and it was received. *)
Record clock_params (A : Type) := mk_clock_params { p_clock : Z; p_sent_time : A; p_receive_time : A }.
Arguments mk_clock_params {A}. Arguments p_clock {A}. Arguments p_sent_time {A}. Arguments p_receive_time {A}.

Record SecondarySync (A : Type) := mk_SecondarySync { base_sync : ClockSync A; clock_adj : A * A; last_sync_time : A }.
Arguments mk_SecondarySync {A}. Arguments base_sync {A}. Arguments clock_adj {A}. Arguments last_sync_time {A}.
#[export] Instance eta_SecondarySync A : Eta (SecondarySync A) := fun s => mk_SecondarySync (base_sync s) (clock_adj s) (last_sync_time s).

Section clocksync.
Context {A : Type} `{Num A} `{Integral A}.
Local Open Scope num_scope.

Definition RTT_AGE : A := nlit 10 1000000 / (nint 60 * nint 60).
Definition DECAY : A := nint 1 / nint 30.
Definition TRANSMIT_EXTRA : A := nlit 1 1000.

(** The 64-bit clock of a 32-bit clock that is not before [last]. *)
Definition extend_clock (last clock32 : Z) : Z := last + Z.land (clock32 - last) 0xffffffff.

Definition clocksync_init : ClockSync A :=
  mk_ClockSync (nint 1) 0 0 (nint 0) (nint 0) (nint 0) (nint 0) (nint 0) (nint 0) (nlit 9999999999 10) (nint 0)
    (nint 0, nint 0, nint 0) [].

(** ** Responses *)

(** The last part of [_update_regression]. *)
Definition add_sample (sent_time : A) (clock : Z) (c : ClockSync A) : ClockSync A :=
  let diff_sent_time := sent_time - time_avg c in
  let diff_clock := nint clock - clock_avg c in
  c <| time_avg ::= fun t => t + DECAY * diff_sent_time |>
    <| time_variance ::= fun v => (nint 1 - DECAY) * (v + sq diff_sent_time * DECAY) |>
    <| clock_avg ::= fun a => a + DECAY * diff_clock |>
    <| clock_covariance ::= fun v => (nint 1 - DECAY) * (v + diff_sent_time * diff_clock * DECAY) |>.
(** Whether the sample is used. *)
Definition update_regression (sent_time : A) (clock : Z) (c : ClockSync A) : option (bool * ClockSync A) :=
  let old_freq := (clock_est c).2 in
  let exp_clock := (sent_time - time_avg c) * old_freq + clock_avg c in
  let clock_diff2 := sq (nint clock - exp_clock) in
  if (nint 25 * prediction_variance c <? clock_diff2) && (sq (nlit 500 1000000 * mcu_freq c) <? clock_diff2) then
    _ ← pysqrt (prediction_variance c);
    if (exp_clock <? nint clock) && (sent_time <? last_prediction_time c + nint 10) then Some (false, c)
    else Some (true, add_sample sent_time clock (c <| prediction_variance := sq (nlit 1 1000 * mcu_freq c) |>))
  else
    Some (true, add_sample sent_time clock (c <| last_prediction_time := sent_time |>
                <| prediction_variance ::= fun v => (nint 1 - DECAY) * (v + clock_diff2 * DECAY) |>)).

Definition update_best_rtt (sent_time receive_time : A) (c : ClockSync A) : ClockSync A :=
  let half_rtt := nlit 5 10 * (receive_time - sent_time) in
  let aged_rtt := (sent_time - min_rtt_time c) * RTT_AGE in
  if half_rtt <? min_half_rtt c + aged_rtt then c <| min_half_rtt := half_rtt |> <| min_rtt_time := sent_time |> else c.

Definition handle_clock (params : clock_params A) (c : ClockSync A) : option (ClockSync A) :=
  let c := c <| queries_pending := 0 |> in
  let clock := extend_clock (last_clock c) (p_clock params) in
  let c := c <| last_clock := clock |> in
  let sent_time := p_sent_time params in
  if negb (nonzero sent_time) then Some c else
  '(ret, c) ← update_regression sent_time clock c;
  if negb ret then Some c else
  new_freq ← pydiv (clock_covariance c) (time_variance c);
  pred_stddev ← pysqrt (prediction_variance c);
  est_clock ← ntrunc (clock_avg c - nint 3 * pred_stddev);
  let c := c <| sent_est ::= cons (new_freq, time_avg c + TRANSMIT_EXTRA, est_clock) |> in
  let c := update_best_rtt sent_time (p_receive_time params) c in
  Some (c <| clock_est := (time_avg c + min_half_rtt c, clock_avg c, new_freq) |>).

(** [connect]: the answer to [get_uptime], and the answers to eight [get_clock]. *)
Definition connect_start (freq : A) (high clock : Z) (sent_time : A) (c : ClockSync A) : ClockSync A :=
  let last := Z.lor (Z.shiftl high 32) clock in
  c <| mcu_freq := freq |> <| last_clock := last |> <| clock_avg := nint last |> <| time_avg := sent_time |>
    <| clock_est := (sent_time, nint last, freq) |> <| prediction_variance := sq (nlit 1 1000 * freq) |>.
Fixpoint connect_clocks (l : list (clock_params A)) (c : ClockSync A) : option (ClockSync A) :=
  match l with
  | [] => Some c
  | params :: l => c ← handle_clock params (c <| last_prediction_time := nint (-9999) |>); connect_clocks l c
  end.
Definition connect (freq : A) (high clock : Z) (sent_time : A) (l : list (clock_params A)) (c : ClockSync A) : option (ClockSync A) :=
  connect_clocks (take 8 l) (connect_start freq high clock sent_time c).
Definition connect_file (pace : bool) (freq monotonic : A) (c : ClockSync A) : ClockSync A :=
  c <| mcu_freq := freq |> <| clock_est := (nint 0, nint 0, freq) |>
    <| sent_est ::= cons (if pace then freq else nint 1000000000000, monotonic, 0) |>.
Definition get_clock_event (eventtime : A) (c : ClockSync A) : A * ClockSync A :=
  (eventtime + nlit 9839 10000, c <| queries_pending ::= Z.succ |>).

(** ** Conversions *)

Definition print_time_to_clock (print_time : A) (c : ClockSync A) : option Z := ntrunc (print_time * mcu_freq c).
Definition clock_to_print_time (clock : Z) (c : ClockSync A) : option A := pydiv (nint clock) (mcu_freq c).
Definition get_clock (eventtime : A) (c : ClockSync A) : option Z :=
  let '(sample_time, clock, freq) := clock_est c in ntrunc (clock + (eventtime - sample_time) * freq).
Definition estimate_clock_systime (reqclock : Z) (c : ClockSync A) : option A :=
  let '(sample_time, clock, freq) := clock_est c in t ← pydiv (nint reqclock - clock) freq; Some (t + sample_time).
Definition estimated_print_time (eventtime : A) (c : ClockSync A) : option A :=
  clock ← get_clock eventtime c; clock_to_print_time clock c.
Definition clock32_to_clock64 (clock32 : Z) (c : ClockSync A) : Z :=
  let clock_diff := Z.land (clock32 - last_clock c) 0xffffffff in
  last_clock c + (clock_diff - Z.shiftl (Z.land clock_diff 0x80000000) 1).
Definition is_active (c : ClockSync A) : bool := (queries_pending c <=? 4)%Z.

(** ** Secondary micro-controllers *)

Definition secondary_init : SecondarySync A := mk_SecondarySync clocksync_init (nint 0, nint 1) (nint 0).
Definition sec_print_time_to_clock (print_time : A) (s : SecondarySync A) : option Z :=
  let '(adjusted_offset, adjusted_freq) := clock_adj s in ntrunc ((print_time - adjusted_offset) * adjusted_freq).
Definition sec_clock_to_print_time (clock : Z) (s : SecondarySync A) : option A :=
  let '(adjusted_offset, adjusted_freq) := clock_adj s in t ← pydiv (nint clock) adjusted_freq; Some (t + adjusted_offset).
Definition sec_estimated_print_time (eventtime : A) (s : SecondarySync A) : option A :=
  clock ← get_clock eventtime (base_sync s); sec_clock_to_print_time clock s.

(** The print times between which the adjusted clock approaches the estimate. *)
Definition sync_times (main_sync : ClockSync A) (print_time eventtime : A) (s : SecondarySync A) : option (A * A) :=
  let '(ser_time, ser_clock, ser_freq) := clock_est main_sync in
  let est_main_clock := (eventtime - ser_time) * ser_freq + ser_clock in
  est_print_time ← pydiv est_main_clock (mcu_freq main_sync);
  let sync1_print_time := pymax print_time est_print_time in
  Some (sync1_print_time,
        pymax (pymax (sync1_print_time + nint 4) (last_sync_time s)) (print_time + nlit 25 10 * (print_time - est_print_time))).
Definition sync_sys_time (main_sync : ClockSync A) (sync2_print_time : A) : option A :=
  let '(ser_time, ser_clock, ser_freq) := clock_est main_sync in
  t ← pydiv (sync2_print_time * mcu_freq main_sync - ser_clock) ser_freq; Some (ser_time + t).
Definition sec_calibrate_clock (main_sync : ClockSync A) (print_time eventtime : A) (s : SecondarySync A) : option (SecondarySync A) :=
  '(sync1_print_time, sync2_print_time) ← sync_times main_sync print_time eventtime s;
  sync2_sys_time ← sync_sys_time main_sync sync2_print_time;
  sync1_clock ← sec_print_time_to_clock sync1_print_time s;
  sync2_clock ← get_clock sync2_sys_time (base_sync s);
  adjusted_freq ← pydiv (nint (sync2_clock - sync1_clock)) (sync2_print_time - sync1_print_time);
  t ← pydiv (nint sync1_clock) adjusted_freq;
  Some (s <| clock_adj := (sync1_print_time - t, adjusted_freq) |> <| last_sync_time := sync2_print_time |>).
(** [curtime] is the time at which the connection is complete. *)
Definition sec_connect (main_sync : ClockSync A) (freq : A) (high clock : Z) (sent_time : A) (l : list (clock_params A)) (curtime : A)
    (s : SecondarySync A) : option (SecondarySync A) :=
  c ← connect freq high clock sent_time l (base_sync s);
  let s := s <| base_sync := c |> <| clock_adj := (nint 0, mcu_freq c) |> in
  main_print_time ← estimated_print_time curtime main_sync;
  local_print_time ← sec_estimated_print_time curtime s;
  sec_calibrate_clock main_sync (nint 0) curtime (s <| clock_adj := (main_print_time - local_print_time, mcu_freq c) |>).
Definition sec_connect_file (pace : bool) (freq monotonic : A) (s : SecondarySync A) : SecondarySync A :=
  s <| base_sync ::= connect_file pace freq monotonic |> <| clock_adj := (nint 0, freq) |>.
End clocksync.

(** ** Exact arithmetic *)

Section exact.
Local Open Scope R_scope.
Implicit Types (c : ClockSync R) (s : SecondarySync R).

Lemma Rtrunc_bounds x : Rabs (IZR (Rtrunc x) - x) < 1.
Proof.
  unfold Rtrunc. destruct (Rlt_dec x 0).
  - rewrite opp_IZR. destruct (base_Int_part (- x)). apply Rabs_def1; lra.
  - destruct (base_Int_part x). apply Rabs_def1; lra.
Qed.
Lemma Int_part_IZR z : Int_part (IZR z) = z.
Proof. symmetry. apply Int_part_spec. lra. Qed.
Lemma Rtrunc_IZR z : Rtrunc (IZR z) = z.
Proof. unfold Rtrunc. destruct (Rlt_dec (IZR z) 0); [rewrite <-opp_IZR, Int_part_IZR; lia|apply Int_part_IZR]. Qed.
Lemma Int_part_mono x y : x <= y -> (Int_part x <= Int_part y)%Z.
Proof.
  intros Hxy. destruct (base_Int_part x), (base_Int_part y). apply Zlt_succ_le, lt_IZR. unfold Z.succ. rewrite plus_IZR. lra.
Qed.
Lemma Int_part_nonneg x : 0 <= x -> (0 <= Int_part x)%Z.
Proof. intros Hx. apply Int_part_mono in Hx. by rewrite (Int_part_IZR 0) in Hx. Qed.
Lemma Rtrunc_mono x y : x <= y -> (Rtrunc x <= Rtrunc y)%Z.
Proof.
  intros Hxy. unfold Rtrunc. destruct (Rlt_dec x 0), (Rlt_dec y 0); try lra.
  - assert (Int_part (- y) <= Int_part (- x))%Z by (apply Int_part_mono; lra). lia.
  - assert (0 <= Int_part (- x))%Z by (apply Int_part_nonneg; lra). assert (0 <= Int_part y)%Z by (apply Int_part_nonneg; lra). lia.
  - by apply Int_part_mono.
Qed.

(** *** The 64-bit clock *)

Lemma extend_clock_exact last k : (last <= k < last + 2 ^ 32)%Z -> extend_clock last (k mod 2 ^ 32) = k.
Proof.
  intros Hk. unfold extend_clock. change 0xffffffff%Z with (Z.ones 32). rewrite Z.land_ones by lia.
  rewrite Zminus_mod_idemp_l, Z.mod_small; lia.
Qed.
Lemma land_sign x : Z.land x 0x80000000 = if Z.testbit x 31 then 0x80000000%Z else 0%Z.
Proof.
  apply Z.bits_inj'. intros n Hn. change 0x80000000%Z with (2 ^ 31)%Z. rewrite Z.land_spec, Z.pow2_bits_eqb by lia.
  destruct (Z.eqb_spec 31 n) as [<-|Hne]; [rewrite andb_true_r|rewrite andb_false_r].
  - destruct (Z.testbit x 31); [by rewrite Z.pow2_bits_true|by rewrite Z.bits_0].
  - destruct (Z.testbit x 31); [by rewrite Z.pow2_bits_false|by rewrite Z.bits_0].
Qed.
Lemma clock32_to_clock64_exact c k : (- 2 ^ 31 <= k - last_clock c < 2 ^ 31)%Z -> clock32_to_clock64 (k mod 2 ^ 32) c = k.
Proof.
  intros Hk. unfold clock32_to_clock64. change 0xffffffff%Z with (Z.ones 32). rewrite Z.land_ones by lia. rewrite Zminus_mod_idemp_l.
  set (d := (k - last_clock c)%Z) in *. replace k with (last_clock c + d)%Z by lia. f_equal.
  rewrite land_sign, Z.testbit_eqb by lia. destruct (Z.eqb_spec (d mod 2 ^ 32 / 2 ^ 31 mod 2) 1) as [E|E]; rewrite Z.shiftl_mul_pow2 by lia; Z.div_mod_to_equations; lia.
Qed.

(** *** The regression *)

Section regression.
Context (F fl fh p rtt : R).
Context (HF : fl <= F <= fh) (Hfl : 0 < fl) (Hp : 0 < p) (Hrtt : 0 <= rtt) (Hdrift : (fh - fl) * (30 * p) <= 5 / 10000 * F).

(** [y] ticks in [x] seconds is a rate between [fl] and [fh]. *)
Definition rate (x y : R) : Prop := fl * x <= y <= fh * x.
Lemma rate_add x y x' y' : rate x y -> rate x' y' -> rate (x + x') (y + y').
Proof. unfold rate. lra. Qed.
Lemma rate_scale a x y : 0 <= a -> rate x y -> rate (a * x) (a * y).
Proof. unfold rate. intros Ha [? ?]. split; [replace (fl * (a * x)) with (a * (fl * x)) by ring|replace (fh * (a * x)) with (a * (fh * x)) by ring]; by apply Rmult_le_compat_l. Qed.

(** After the clock response [n] and the last sample: at [t] the counter was [k]. *)
Record sync_inv (n : Z) (t : R) (k : Z) c : Prop := {
  si_clock : last_clock c = n;
  si_freq : mcu_freq c = F;
  si_time : 0 <= t;
  si_lag : 0 <= t - time_avg c <= 29 * p;
  si_rate : rate (t - time_avg c) (IZR k - clock_avg c);
  si_variance : 0 <= time_variance c;
  si_covariance : rate (time_variance c) (clock_covariance c);
  si_prediction : 0 <= prediction_variance c;
  si_rtt : 0 <= min_half_rtt c /\ min_rtt_time c <= t;
  si_est : exists h f, clock_est c = (time_avg c + h, clock_avg c, f) /\ fl <= f <= fh /\ 0 <= h <= rtt / 2 }.

(** The prediction from an estimate of the frequency. *)
Lemma prediction_error f x y : fl <= f <= fh -> 0 <= x -> rate x y -> - ((fh - fl) * x) <= y - x * f <= (fh - fl) * x.
Proof.
  intros Hf Hx [H1 H2]. assert (fl * x <= f * x <= fh * x) by (split; apply Rmult_le_compat_r; lra). lra.
Qed.
Lemma sq_le a b : Rabs a <= b -> sq a <= sq b.
Proof. intros Hab. unfold sq. cbn. pose proof (Rabs_pos a). apply Rsqr_le_abs_1. rewrite (Rabs_right b); lra. Qed.

(** A sample at most [p] after the last one, at a rate in range. *)
Definition next_sample (t : R) (k : Z) (t' : R) (k' : Z) : Prop := t < t' <= t + p /\ rate (t' - t) (IZR k' - IZR k).

(** No sample of a steady clock is discarded, and the regression stays in range. *)
Lemma update_regression_ok n t k t' k' c : sync_inv n t k c -> next_sample t k t' k' ->
  exists c', update_regression t' k' c = Some (true, c') /\
    last_clock c' = n /\ mcu_freq c' = F /\ 0 <= t' - time_avg c' <= 29 * p /\ rate (t' - time_avg c') (IZR k' - clock_avg c') /\
    0 < time_variance c' /\ rate (time_variance c') (clock_covariance c') /\ 0 <= prediction_variance c' /\
    min_half_rtt c' = min_half_rtt c /\ min_rtt_time c' = min_rtt_time c.
Proof.
  intros [E1 E2 E0 El Er Ev Ec Ep Em (h & f & Ee & Ef & Eh)] [Ht Hr]. unfold update_regression. rewrite Ee. cbn [snd].
  pose proof (rate_add _ _ _ _ Er Hr) as Hd. set (dt := t' - time_avg c). set (dc := IZR k' - clock_avg c).
  replace (t - time_avg c + (t' - t)) with dt in Hd by (unfold dt; ring). replace (IZR k - clock_avg c + (IZR k' - IZR k)) with dc in Hd by (unfold dc; ring).
  assert (Hdt : 0 < dt <= 30 * p) by (unfold dt; lra).
  assert (Hx : Rabs (dc - dt * f) <= 500 / 1000000 * F).
  { assert (0 <= dt) as H0 by lra. pose proof (prediction_error f _ _ Ef H0 Hd). assert ((fh - fl) * dt <= (fh - fl) * (30 * p)) by (apply Rmult_le_compat_l; lra).
    apply Rabs_le. lra. }
  set (diff := nsub (nint k') _). assert (Ed : diff = dc - dt * f) by (unfold diff; rsimpl; unfold dc, dt; ring).
  rewrite E2. replace (sq (nmul (nlit 500 1000000) F) <? sq diff)%num with false.
  2:{ symmetry. apply nlt_R_false. rewrite Ed. by apply sq_le. }
  rewrite andb_false_r. eexists. split; [done|]. unfold add_sample. cbn. fold dt.
  replace (IZR k' / 1 - clock_avg c) with dc by (unfold dc; lra). replace (IZR k' / 1 - (dt * f + clock_avg c)) with (dc - dt * f) by (unfold dc; lra).
  replace (1 / 1 / (30 / 1)) with (1 / 30) by lra. replace (1 / 1 - 1 / 30) with (29 / 30) by lra.
  replace (t' - (time_avg c + 1 / 30 * dt)) with (29 / 30 * dt) by (unfold dt; lra).
  replace (IZR k' - (clock_avg c + 1 / 30 * dc)) with (29 / 30 * dc) by (unfold dc; lra).
  assert (Hsq : 0 < dt * dt) by (apply Rmult_lt_0_compat; lra). assert (Hpq : 0 <= (dc - dt * f) * (dc - dt * f)) by apply Rle_0_sqr.
  split_and!; try done; try lra.
  - apply rate_scale; [lra|done].
  - apply rate_scale; [lra|]. apply rate_add; [done|]. rewrite !(Rmult_comm _ (1 / 30)). apply rate_scale; [lra|]. apply rate_scale; [lra|done].
Qed.

(** A response whose counter is not yet a whole turn ahead. *)
Definition next_count (n n' : Z) : Prop := (n <= n' < n + 2 ^ 32)%Z.

(** A response to a query that was resent only counts. *)
Lemma handle_clock_untimed n t k n' r c : sync_inv n t k c -> next_count n n' ->
  exists c', handle_clock (mk_clock_params (n' mod 2 ^ 32) 0 r) c = Some c' /\ sync_inv n' t k c'.
Proof.
  intros Hi Hn. unfold handle_clock. cbn [p_clock p_sent_time last_clock]. destruct (nonzeroP 0) as [|_]; [done|]. cbn [negb].
  eexists. split; [done|]. destruct Hi as [E1 ?]. split; try done. cbn. rewrite E1. by apply extend_clock_exact.
Qed.

Lemma update_best_rtt_ok t' r c : 0 <= r - t' <= rtt -> 0 <= min_half_rtt c -> min_rtt_time c <= t' ->
  let c' := update_best_rtt t' r c in
  0 <= min_half_rtt c' <= rtt / 2 /\ min_rtt_time c' <= t' /\ exists h m, c' = c <| min_half_rtt := h |> <| min_rtt_time := m |>.
Proof.
  intros Hr Hm Ht. unfold update_best_rtt, RTT_AGE. destruct (nltP (nlit 5 10 * (r - t'))%num (min_half_rtt c + (t' - min_rtt_time c) * (nlit 10 1000000 / (nint 60 * nint 60)))%num) as [Hl|Hl]; cbn in *.
  - split; [lra|]. split; [lra|]. by eexists _, _.
  - assert (0 <= (t' - min_rtt_time c) * (10 / 1000000 / (60 / 1 * (60 / 1)))) by (apply Rmult_le_pos; lra).
    split; [lra|]. split; [lra|]. exists (min_half_rtt c), (min_rtt_time c). by destruct c.
Qed.

Lemma rate_quotient v w : 0 < v -> rate v w -> fl <= w / v <= fh.
Proof. intros Hv [H1 H2]. assert (w = w / v * v) by (field; lra). split; apply (Rmult_le_reg_r v); lra. Qed.
Lemma handle_clock_timed n t k t' k' r c : sync_inv n t k c -> next_count n k' -> next_sample t k t' k' -> 0 <= r - t' <= rtt ->
  exists c', handle_clock (mk_clock_params (k' mod 2 ^ 32) t' r) c = Some c' /\ sync_inv k' t' k' c'.
Proof.
  intros Hi Hn Hs Hr. unfold handle_clock. cbn [p_clock p_sent_time last_clock p_receive_time].
  destruct (nonzeroP t') as [_|Hz]; [|destruct Hz; destruct Hs, Hi; lra]. cbn [negb].
  set (c0 := c <| queries_pending := 0%Z |> <| last_clock := _ |>).
  assert (Ex : extend_clock (last_clock (c <| queries_pending := 0%Z |>)) (k' mod 2 ^ 32) = k') by (cbn; rewrite (si_clock _ _ _ _ Hi); by apply extend_clock_exact).
  rewrite Ex. assert (Hi0 : sync_inv k' t k c0) by (destruct Hi; split; try done; cbn; by rewrite Ex).
  destruct (update_regression_ok _ _ _ _ _ _ Hi0 Hs) as (c1 & -> & G1 & G2 & G3 & G4 & G5 & G6 & G7 & G8 & G9). cbn [mbind option_bind negb].
  rewrite pydiv_R by lra. cbn [mbind option_bind]. rewrite pysqrt_R by done. cbn [mbind option_bind ntrunc Integral_R].
  eexists. split; [done|]. set (c2 := c1 <| sent_est ::= _ |>).
  destruct (update_best_rtt_ok t' r c2 Hr) as (B1 & B2 & h & m & E); [cbn; rewrite G8; by destruct Hi0 as [_ _ _ _ _ _ _ _ [??] _]| |].
  { cbn. rewrite G9. destruct Hi0 as [_ _ _ _ _ _ _ _ [??] _]. destruct Hs. lra. }
  rewrite E in *. cbn in B1, B2. split; cbn; try done; try lra.
  - destruct Hi0, Hs. lra.
  - exists h, (clock_covariance c1 / time_variance c1). split; [done|]. split; [by apply rate_quotient|lra].
Qed.

(** *** Runs *)

(** The state after [connect] has started, any number of clock responses and
    queries; the counter of the last response, and the time and the counter of
    the last sample. *)
Inductive clock_run : Z -> R -> Z -> ClockSync R -> Prop :=
| Cr_connect n t : 0 <= t -> (0 <= n)%Z ->
    clock_run n t n (connect_start F (n / 2 ^ 32) (n mod 2 ^ 32) t clocksync_init)
| Cr_connecting n t k c : clock_run n t k c -> clock_run n t k (c <| last_prediction_time := nint (-9999) |>)
| Cr_query n t k c x : clock_run n t k c -> clock_run n t k (get_clock_event x c).2
| Cr_sample n t k c t' k' r c' : clock_run n t k c -> next_count n k' -> next_sample t k t' k' -> 0 <= r - t' <= rtt ->
    handle_clock (mk_clock_params (k' mod 2 ^ 32) t' r) c = Some c' -> clock_run k' t' k' c'
| Cr_untimed n t k c n' r c' : clock_run n t k c -> next_count n n' ->
    handle_clock (mk_clock_params (n' mod 2 ^ 32) 0 r) c = Some c' -> clock_run n' t k c'.

Lemma connect_start_inv n t : 0 <= t -> (0 <= n)%Z -> sync_inv n t n (connect_start F (n / 2 ^ 32) (n mod 2 ^ 32) t clocksync_init).
Proof.
  intros Ht Hn. assert (En : Z.lor (Z.shiftl (n / 2 ^ 32) 32) (n mod 2 ^ 32) = n).
  { rewrite lor_add_shift; [|lia|by apply Z.mod_pos_bound]. pose proof (Z.div_mod n (2 ^ 32)). lia. }
  split; cbn; try done; rewrite ?En; try (unfold rate; lra).
  - apply Rle_0_sqr.
  - exists 0, F. split; [by rewrite Rplus_0_r|]. lra.
Qed.
Lemma clock_run_inv n t k c : clock_run n t k c -> sync_inv n t k c.
Proof.
  induction 1 as [n t Ht Hn|n t k c _ Hi|n t k c x _ Hi|n t k c t' k' r c' _ Hi Hn Hs Hr E|n t k c n' r c' _ Hi Hn E].
  - by apply connect_start_inv.
  - destruct Hi; by split.
  - destruct Hi; by split.
  - destruct (handle_clock_timed _ _ _ _ _ _ _ Hi Hn Hs Hr) as (c1 & E1 & Hi1). congruence.
  - destruct (handle_clock_untimed _ _ _ _ r _ Hi Hn) as (c1 & E1 & Hi1). congruence.
Qed.

(** The estimated clock, [x] after the last sample. *)
Lemma get_clock_accurate n t k c x k' : sync_inv n t k c -> next_sample t k x k' ->
  exists z, get_clock x c = Some z /\ Rabs (IZR z - IZR k') <= (fh - fl) * (30 * p) + fh * (rtt / 2) + 1.
Proof.
  intros [_ _ _ El Er _ _ _ _ (h & f & Ee & Ef & Eh)] [Ht Hr]. unfold get_clock. rewrite Ee. eexists. split; [done|].
  pose proof (rate_add _ _ _ _ Er Hr) as Hd. replace (t - time_avg c + (x - t)) with (x - time_avg c) in Hd by ring.
  replace (IZR k - clock_avg c + (IZR k' - IZR k)) with (IZR k' - clock_avg c) in Hd by ring.
  assert (H0 : 0 <= x - time_avg c) by lra. pose proof (prediction_error f _ _ Ef H0 Hd) as Hx. cbn.
  assert (Hb : (fh - fl) * (x - time_avg c) <= (fh - fl) * (30 * p)) by (apply Rmult_le_compat_l; lra).
  assert (Hh : 0 <= f * h <= fh * (rtt / 2)) by (split; [apply Rmult_le_pos; lra|apply Rmult_le_compat; lra]).
  set (e := clock_avg c + _). pose proof (Rtrunc_bounds e) as Hz. apply Rabs_def2 in Hz.
  assert (e = clock_avg c + (x - time_avg c) * f - f * h) by (unfold e; ring). apply Rabs_le. lra.
Qed.
End regression.

(** *** Secondary clocks *)

Lemma sync_times_ok main pt et s x1 x2 : sync_times main pt et s = Some (x1, x2) -> pt <= x1 /\ x1 + 4 <= x2 /\ last_sync_time s <= x2.
Proof.
  unfold sync_times. destruct (clock_est main) as [[a b] f]. destruct (pydiv _ _) as [e|]; [|done]. cbn [mbind option_bind]. rewrite !pymax_R.
  intros [= <- <-]. rsimpl. set (q := Rmax (Rmax _ _) _). pose proof (Rmax_l pt e).
  assert (Rmax (Rmax pt e + 4 / 1) (last_sync_time s) <= q) by apply Rmax_l.
  pose proof (Rmax_l (Rmax pt e + 4 / 1) (last_sync_time s)). pose proof (Rmax_r (Rmax pt e + 4 / 1) (last_sync_time s)). lra.
Qed.
Lemma sync_sys_time_ok main x2 sys : (clock_est main).2 <> 0 -> sync_sys_time main x2 = Some sys ->
  get_clock sys main = print_time_to_clock x2 main.
Proof.
  unfold sync_sys_time, get_clock, print_time_to_clock. destruct (clock_est main) as [[a b] f]. cbn [snd]. intros Hf. rewrite pydiv_R by done.
  cbn [mbind option_bind]. intros [= <-]. rsimpl. f_equal. field. done.
Qed.
Lemma sec_clock_mono s x y : 0 < (clock_adj s).2 -> x <= y -> exists zx zy,
  sec_print_time_to_clock x s = Some zx /\ sec_print_time_to_clock y s = Some zy /\ (zx <= zy)%Z.
Proof.
  unfold sec_print_time_to_clock. destruct (clock_adj s) as [o f]. cbn [snd]. intros Hf Hxy. eexists _, _. split; [done|]. split; [done|].
  apply Rtrunc_mono. cbn. apply Rmult_le_compat_r; lra.
Qed.

(** The new mapping goes through both points. *)
Lemma calibrate_points main pt et s x1 x2 sys z1 z2 :
  sync_times main pt et s = Some (x1, x2) -> sync_sys_time main x2 = Some sys ->
  sec_print_time_to_clock x1 s = Some z1 -> get_clock sys (base_sync s) = Some z2 -> (z1 < z2)%Z ->
  exists s', sec_calibrate_clock main pt et s = Some s' /\ base_sync s' = base_sync s /\ last_sync_time s' = x2 /\ 0 < (clock_adj s').2 /\
    sec_print_time_to_clock x1 s' = Some z1 /\ sec_print_time_to_clock x2 s' = Some z2.
Proof.
  intros E1 E2 E3 E4 Hc. destruct (sync_times_ok _ _ _ _ _ _ E1) as (_ & H4 & _). unfold sec_calibrate_clock. rewrite E1. cbn [mbind option_bind]. rewrite E2.
  cbn [mbind option_bind]. rewrite E3. cbn [mbind option_bind]. rewrite E4. cbn [mbind option_bind].
  assert (Hd : 0 < IZR (z2 - z1)) by (apply IZR_lt; lia). rewrite pydiv_R by (cbn; lra). cbn [mbind option_bind]. rewrite nint_R. cbn [nsub Num_R].
  set (f := IZR (z2 - z1) / (x2 - x1)). assert (Hf : 0 < f) by (apply Rdiv_lt_0_compat; lra). rewrite pydiv_R by lra. cbn [mbind option_bind].
  eexists. split; [done|]. do 3 (split; [done|]). rewrite nint_R. unfold sec_print_time_to_clock. cbn.
  assert (Ex : forall x z, (x - x1) * f = IZR z - IZR z1 -> ntrunc ((x - (x1 - IZR z1 / f)) * f) = Some z).
  { intros x z Hx. replace ((x - (x1 - IZR z1 / f)) * f) with ((x - x1) * f + IZR z1) by (field; lra). rewrite Hx.
    replace (IZR z - IZR z1 + IZR z1) with (IZR z) by ring. unfold ntrunc, Integral_R. by rewrite Rtrunc_IZR. }
  split; apply Ex; [lra|]. unfold f. rewrite minus_IZR. field. lra.
Qed.

(** *** A resent query of the uptime *)

Section resent.
Context (F T K : R) (n : Z) (HT : 0 < T) (HK : 0 <= K).

(** Answers to queries sent between [T] and [3 / 2 * T], while the counter goes
    from [m] on to at most [K] more than [n]. *)
Fixpoint answers (m : Z) (l : list (R * Z * R)) : Prop :=
  match l with
  | [] => True
  | (t, k, r) :: l => T <= t <= 3 / 2 * T /\ (m <= k < m + 2 ^ 32)%Z /\ IZR k <= IZR n + K /\ answers k l
  end.
Definition answer (a : R * Z * R) : clock_params R := let '(t, k, r) := a in mk_clock_params (k mod 2 ^ 32) t r.

(** After [i] samples the average time is still far back. *)
Record lagging (i : R) (m : Z) c : Prop := {
  la_clock : last_clock c = m;
  la_count : (n <= m)%Z /\ IZR n <= clock_avg c;
  la_time : 0 <= time_avg c <= i * (T / 20);
  la_variance : 0 <= time_variance c;
  la_covariance : clock_covariance c <= 2 * K / T * time_variance c;
  la_prediction : 0 <= prediction_variance c }.

(** While the connection is set up, every sample is used. *)
Lemma connect_regression i m t k c : lagging i m c -> 0 <= i <= 7 -> T <= t <= 3 / 2 * T -> (m <= k)%Z -> IZR k <= IZR n + K -> last_prediction_time c = -9999 ->
  exists c', update_regression t k c = Some (true, c') /\ lagging (i + 1) m c' /\ 0 < time_variance c'.
Proof.
  intros [E1 [E2 E2'] E3 E4 E5 E6] Hi Ht Hk HkK El. set (dt := t - time_avg c). set (dc := IZR k - clock_avg c).
  assert (Hi20 : i * (T / 20) <= 7 * (T / 20)) by (apply Rmult_le_compat_r; lra). assert (Hdt : T / 2 <= dt) by (unfold dt; lra).
  assert (Hkn : IZR n <= IZR k) by (apply IZR_le; lia). assert (Hsq : 0 < dt * dt) by (apply Rmult_lt_0_compat; lra).
  assert (Hdc : dt * dc <= 2 * K / T * (dt * dt)).
  { replace (2 * K / T * (dt * dt)) with (dt * (K * (dt / (T / 2)))) by (field; lra). apply Rmult_le_compat_l; [lra|].
    apply Rle_trans with (K * 1); [unfold dc; lra|]. apply Rmult_le_compat_l; [done|]. apply (Rmult_le_reg_r (T / 2)); [lra|]. replace (dt / (T / 2) * (T / 2)) with dt by (field; lra). lra. }
  assert (Hadd : forall c1, time_avg c1 = time_avg c -> clock_avg c1 = clock_avg c -> time_variance c1 = time_variance c -> clock_covariance c1 = clock_covariance c ->
    last_clock c1 = m -> 0 <= prediction_variance c1 -> lagging (i + 1) m (add_sample t k c1) /\ 0 < time_variance (add_sample t k c1)).
  { intros c1 A1 A2 A3 A4 A5 A6. split; [split|]; cbn; rewrite ?A1, ?A2, ?A3, ?A4; fold dt; try done.
    - split; [done|]. lra.
    - fold dt. unfold dt in *. lra.
    - lra.
    - replace (IZR k / 1 - clock_avg c) with dc by (unfold dc; lra). lra.
    - lra. }
  unfold update_regression. destruct (_ && _).
  - rewrite pysqrt_R by done. cbn [mbind option_bind]. rewrite El. replace (t <? -9999 + nint 10)%num with false by (symmetry; apply nlt_R_false; rsimpl; lra).
    rewrite andb_false_r. eexists. split; [done|]. apply Hadd; try done. cbn. apply Rle_0_sqr.
  - eexists. split; [done|]. apply Hadd; try done. cbn. set (q := IZR k / 1 - _). pose proof (Rle_0_sqr q). unfold Rsqr in *. lra.
Qed.

Lemma connect_answer i m t k r c : lagging i m c -> 0 <= i <= 7 -> T <= t <= 3 / 2 * T -> (m <= k < m + 2 ^ 32)%Z -> IZR k <= IZR n + K ->
  exists c', handle_clock (mk_clock_params (k mod 2 ^ 32) t r) (c <| last_prediction_time := nint (-9999) |>) = Some c' /\ lagging (i + 1) k c' /\
    (clock_est c').2 <= 2 * K / T.
Proof.
  intros Hl Hi Ht Hk HkK. unfold handle_clock. cbn [p_clock p_sent_time last_clock p_receive_time].
  destruct (nonzeroP t) as [_|Hz]; [|destruct Hz; lra]. cbn [negb]. set (c0 := c <| last_prediction_time := _ |> <| queries_pending := _ |> <| last_clock := _ |>).
  set (x := extend_clock _ _) in *. assert (Ex : x = k) by (unfold x; cbn; rewrite (la_clock _ _ _ Hl); by apply extend_clock_exact).
  assert (Hl0 : lagging i k c0) by (destruct Hl as [? [??]]; split; try done; split; [lia|done]). rewrite Ex.
  destruct (connect_regression i k t k c0 Hl0 Hi Ht) as (c1 & -> & Hl1 & Hv); [done..|cbn; lra|]. cbn [mbind option_bind negb].
  rewrite pydiv_R by lra. cbn [mbind option_bind]. rewrite pysqrt_R by apply Hl1. cbn [mbind option_bind ntrunc Integral_R].
  eexists. split; [done|]. unfold update_best_rtt. split.
  - destruct Hl1. match goal with |- context [if ?b then _ else _] => destruct b end; by split.
  - cbn. apply (Rmult_le_reg_r (time_variance c1)); [done|]. replace (clock_covariance c1 / time_variance c1 * time_variance c1) with (clock_covariance c1) by (field; lra). apply Hl1.
Qed.

Lemma connect_answers l : forall i m c, lagging i m c -> 0 <= i -> i + INR (length l) <= 8 -> answers m l -> (l <> [] \/ (clock_est c).2 <= 2 * K / T) ->
  exists c', connect_clocks (answer <$> l) c = Some c' /\ (clock_est c').2 <= 2 * K / T.
Proof.
  induction l as [|[[t k] r] l IH]; intros i m c Hl Hi Hn Ha He.
  - destruct He as [|He]; [done|]. by exists c.
  - destruct Ha as (Ht & Hk & HkK & Ha). cbn [length] in Hn. rewrite S_INR in Hn. pose proof (pos_INR (length l)).
    destruct (connect_answer i m t k r c Hl) as (c1 & E & Hl1 & He1); [lra|done..|]. cbn [fmap list_fmap answer connect_clocks]. rewrite E. cbn [mbind option_bind].
    apply (IH (i + 1) k c1); [done|lra|lra|done|by right].
Qed.
End resent.

(** *** Properties *)

(** C7: While the counter of the micro-controller advances by [fl] to [fh] ticks
    per second from sample to sample, with a nominal frequency in that range,
    samples at most [p] seconds apart and a drift below half a millisecond over
    [30 * p] seconds: after any number of clock responses and queries since the
    connection, those of resent queries included, the 64-bit clock is the counter
    of the last response, the frequency estimate is between [fl] and [fh], the
    clock estimated for a time until the next sample is off by at most the drift
    over [30 * p] seconds, half a round trip and one tick, a 32-bit clock within
    half a turn of the last one is extended exactly, and the next response is
    handled without an exception. *)
Theorem clock_estimate_accurate F fl fh p rtt n t k c :
  fl <= F <= fh -> 0 < fl -> 0 < p -> 0 <= rtt -> (fh - fl) * (30 * p) <= 5 / 10000 * F -> clock_run F fl fh p rtt n t k c ->
  last_clock c = n /\ fl <= (clock_est c).2 <= fh /\
  (forall k', (- 2 ^ 31 <= k' - n < 2 ^ 31)%Z -> clock32_to_clock64 (k' mod 2 ^ 32) c = k') /\
  (forall x k', next_sample fl fh p t k x k' ->
     (exists z, get_clock x c = Some z /\ Rabs (IZR z - IZR k') <= (fh - fl) * (30 * p) + fh * (rtt / 2) + 1) /\
     (forall r, next_count n k' -> 0 <= r - x <= rtt -> exists c', handle_clock (mk_clock_params (k' mod 2 ^ 32) x r) c = Some c')).
Proof.
  intros HF Hfl Hp Hrtt Hdrift Hrun. assert (Hi : sync_inv F fl fh p rtt n t k c) by (by eapply clock_run_inv).
  pose proof (si_clock _ _ _ _ _ _ _ _ _ Hi) as En. split; [done|]. split; [by destruct (si_est _ _ _ _ _ _ _ _ _ Hi) as (h & f & -> & ? & _)|].
  split; [intros k' Hk'; apply clock32_to_clock64_exact; by rewrite En|]. intros x k' Hs. split; [by eapply get_clock_accurate|].
  intros r Hn Hr. assert (exists c', handle_clock (mk_clock_params (k' mod 2 ^ 32) x r) c = Some c' /\ sync_inv F fl fh p rtt k' x k' c') as (c' & E & _); [|by exists c'].
  by eapply handle_clock_timed.
Qed.

(** C8: A calibration of a secondary clock is continuous.  Let [x1] and [x2] be the
    print times it synchronises at, and let the clock [z2] that the secondary
    micro-controller is estimated to have for [x2] be after the present clock [z1]
    of [x1], so that the adjusted frequency is positive.  [x1] is not before the
    requested print time and [x2] at least four seconds later.  The new clock of
    [x1] is the old one, the new clock does not decrease with the print time, and the new
    clocks of print times from [x1] on are not before the old ones of print times up
    to [x1].  At [x2] it is the estimate for the system time at which the main
    micro-controller is estimated to have that print time. *)
Theorem calibrate_clock_continuous main pt et s x1 x2 sys z1 z2 :
  (clock_est main).2 <> 0 -> 0 < (clock_adj s).2 -> sync_times main pt et s = Some (x1, x2) -> sync_sys_time main x2 = Some sys ->
  sec_print_time_to_clock x1 s = Some z1 -> get_clock sys (base_sync s) = Some z2 -> (z1 < z2)%Z ->
  exists s', sec_calibrate_clock main pt et s = Some s' /\ pt <= x1 /\ x1 + 4 <= x2 /\ last_sync_time s <= x2 /\ last_sync_time s' = x2 /\
    sec_print_time_to_clock x1 s' = Some z1 /\ sec_print_time_to_clock x2 s' = Some z2 /\
    get_clock sys main = print_time_to_clock x2 main /\
    (forall x y, x <= y -> exists zx zy, sec_print_time_to_clock x s' = Some zx /\ sec_print_time_to_clock y s' = Some zy /\ (zx <= zy)%Z) /\
    (forall x y, x <= x1 <= y -> exists zx zy, sec_print_time_to_clock x s = Some zx /\ sec_print_time_to_clock y s' = Some zy /\ (zx <= zy)%Z).
Proof.
  intros Hm Ha E1 E2 E3 E4 Hz. destruct (sync_times_ok _ _ _ _ _ _ E1) as (H1 & H2 & H3).
  destruct (calibrate_points main pt et s x1 x2 sys z1 z2 E1 E2 E3 E4 Hz) as (s' & E & Eb & El & Hf & P1 & P2).
  exists s'. do 7 (split; [done|]). split; [by apply sync_sys_time_ok|]. split; [intros x y; by apply sec_clock_mono|].
  intros x y [Hx Hy]. destruct (sec_clock_mono s x x1 Ha Hx) as (a & b & Ea & Eb1 & Hab). destruct (sec_clock_mono s' x1 y Hf Hy) as (a' & b' & Ea' & Eb' & Hab').
  exists a, b'. split; [done|]. split; [done|]. assert (b = z1) by congruence. assert (a' = z1) by congruence. lia.
Qed.

(** C40: [connect] takes the time at which the query of the uptime was sent even
    when it is 0 because the query was resent.  The frequency estimate after each
    of the eight answers is then at most the ticks counted since divided by half the
    system time, whatever the frequency of the micro-controller. *)
Theorem connect_resent_uptime F T K n l : 0 < T -> 0 <= K -> (0 <= n)%Z -> (0 < length l <= 8)%nat -> answers T K n n l ->
  exists c, connect F (n / 2 ^ 32) (n mod 2 ^ 32) 0 (answer <$> l) clocksync_init = Some c /\ (clock_est c).2 <= 2 * K / T.
Proof.
  intros HT HK Hn Hl Ha. unfold connect. rewrite take_ge by (rewrite length_fmap; lia).
  apply (connect_answers T K n HT HK l 0 n); [|lra| |done|by left; destruct l; [cbn in Hl; lia|]].
  - assert (HF : F <= F <= F) by lra. destruct (connect_start_inv F F F 1 0 HF ltac:(lra) ltac:(lra) n 0 ltac:(lra) Hn) as [S1 _ _ _ S2 _ _ S3 _ _].
    split; cbn in *; try done; unfold rate in *; try lra. split; [done|]. rewrite S1. lra.
  - rewrite Rplus_0_l, INR_IZR_INZ. apply IZR_le. lia.
Qed.

(** ** Examples *)

(** A clock of 1000 ticks per second, half a second after the connection. *)
Definition wit_clock : ClockSync R := connect_start 1000 (5000000000 / 2 ^ 32) (5000000000 mod 2 ^ 32) 100 clocksync_init.
Lemma clock_estimate_accurate_witness :
  last_clock wit_clock = 5000000000%Z /\ 999 / 1000 * 1000 <= (clock_est wit_clock).2 <= 1001 / 1000 * 1000 /\
  clock32_to_clock64 (5000000100 mod 2 ^ 32) wit_clock = 5000000100%Z /\
  exists z, get_clock (201 / 2) wit_clock = Some z /\ Rabs (IZR z - IZR 5000000500) <= 2.
Proof.
  destruct (clock_estimate_accurate 1000 (999995 / 1000) (1000005 / 1000) 1 (1 / 1000) 5000000000 100 5000000000 wit_clock) as (E1 & E2 & E3 & E4); try lra.
  { apply Cr_connect; [lra|lia]. }
  split; [done|]. split; [lra|]. split; [apply E3; lia|]. destruct (E4 (201 / 2) 5000000500%Z) as [(z & Ez & Hz) _].
  { unfold next_sample, rate. lra. }
  exists z. split; [done|]. lra.
Defined.

(** A secondary clock that runs at 2010 instead of 2000 ticks per second. *)
Definition wit_main : ClockSync R := clocksync_init <| mcu_freq := 1000 |> <| clock_est := (0, 0, 1000) |>.
Definition wit_secondary : SecondarySync R := mk_SecondarySync (clocksync_init <| mcu_freq := 2000 |> <| clock_est := (0, 0, 2010) |>) (0, 2000) 0.
Lemma ntrunc_IZR x z : x = IZR z -> ntrunc x = Some z.
Proof. intros ->. unfold ntrunc, Integral_R. by rewrite Rtrunc_IZR. Qed.
Lemma calibrate_clock_continuous_witness : exists s', sec_calibrate_clock wit_main 10 2 wit_secondary = Some s' /\
  sec_print_time_to_clock 10 s' = Some 20000%Z /\ sec_print_time_to_clock 30 s' = Some 60300%Z.
Proof.
  destruct (calibrate_clock_continuous wit_main 10 2 wit_secondary 10 30 30 20000 60300) as (s' & E & _ & _ & _ & _ & P1 & P2 & _); cbn; try lra; try lia.
  - unfold sync_times. cbn. rewrite pydiv_R by lra. cbn [mbind option_bind]. rewrite !pymax_R. f_equal.
    assert (Er : Rmax 10 (((2 - 0) * 1000 + 0) / 1000) = 10) by (apply Rmax_left; lra). rewrite Er. f_equal. rewrite (Rmax_left (10 + 4 / 1) 0) by lra. rewrite Rmax_right; lra.
  - unfold sync_sys_time. cbn. rewrite pydiv_R by lra. cbn [mbind option_bind]. f_equal. lra.
  - apply ntrunc_IZR. cbn. lra.
  - apply ntrunc_IZR. cbn. lra.
  - exists s'. split; [done|]. done.
Defined.

(** A host that has been up for a day, whose eight queries take a second. *)
Lemma connect_resent_uptime_witness : exists c,
  connect 16000000 0 1000 0 (answer <$> [(86400, 1600000%Z, 86401); (86401, 16000000%Z, 86402)]) clocksync_init = Some c /\ (clock_est c).2 <= 371.
Proof.
  destruct (connect_resent_uptime 16000000 86400 16000000 1000 [(86400, 1600000%Z, 86401); (86401, 16000000%Z, 86402)]) as (c & E & Hf); try lra; try lia; [cbn; lia| |].
  - cbn. repeat split; lra || lia.
  - exists c. split; [exact E|]. lra.
Defined.
End exact.

(** Eight answers, 50 milliseconds apart, of a clock of 16 MHz, on doubles. *)
Definition wit_answers : list (clock_params double) :=
  (fun i => mk_clock_params (800000 * i) (lit (100000 + 50 * i) 1000) (lit (100001 + 50 * i) 1000)) <$> [1; 2; 3; 4; 5; 6; 7; 8]%Z.
Lemma connect_double : (c ← connect (of_Z 16000000) 0 0 (of_Z 100) wit_answers clocksync_init; get_clock (of_Z 101) c) = Some 15992000%Z.
Proof. vm_compute. reflexivity. Qed.
