(* ===== verification/Sched.v ===== *)
(** * The timer list, tasks and shutdown handling (src/sched.c)

    Timers are C structs linked through their [next] pointers, so the model
    keeps a memory of timer structs indexed by their identity and manipulates
    the pointers exactly as the code does.  The refinement theorems relate
    that memory to the list of pending timers it represents. *)

From S2P Require Import Prelude Clock.

(** ** State *)

(** Identity of a [struct timer]: the three static timers of sched.c and the
    ones embedded in other objects. *)
Inductive tid : Set :=
| T_periodic | T_sentinel | T_deleted
| T_user (n : nat).
#[export] Instance tid_eq_dec : EqDecision tid.
Proof. solve_decision. Defined.

Record timer := mk_timer {
  next : option tid;
  waketime : Z }.
#[export] Instance eta_timer : Eta timer := fun t => mk_timer (next t) (waketime t).

Record sched := mk_sched {
  timers : tid -> timer;
  timer_list : tid;
  last_insert : tid;
  tasks_status : Z;
  tasks_busy : Z;
  shutdown_status : Z;
  shutdown_reason : Z }.
#[export] Instance eta_sched : Eta sched := fun s =>
  mk_sched (timers s) (timer_list s) (last_insert s) (tasks_status s) (tasks_busy s)
    (shutdown_status s) (shutdown_reason s).

Abbreviation nxt s t := (next (timers s t)).
Abbreviation wake s t := (waketime (timers s t)).

Definition set_next (t : tid) (p : option tid) (m : tid -> timer) : tid -> timer :=
  <[t := (m t) <| next := p |>]> m.
Definition set_waketime (t : tid) (w : Z) (m : tid -> timer) : tid -> timer :=
  <[t := (m t) <| waketime := w |>]> m.

Definition SF_DONE : Z := 0.
Definition SF_RESCHEDULE : Z := 1.
Definition TS_IDLE : Z := -1.
Definition TS_REQUESTED : Z := 0.
Definition TS_RUNNING : Z := 1.

(** The static initialisers. *)
Definition timers_init : tid -> timer := fun t =>
  match t with
  | T_periodic => mk_timer (Some T_sentinel) 0
  | T_sentinel => mk_timer None 0x80000000
  | T_deleted | T_user _ => mk_timer None 0
  end.
Definition sched_init : sched :=
  mk_sched timers_init T_periodic T_periodic 0 0 0 0.

(** ** Shutdown state *)

Definition sched_is_shutdown (s : sched) : bool := truthy (shutdown_status s).

Definition sched_try_shutdown (reason : string) : M sched unit := fun s =>
  if negb (truthy (shutdown_status s)) then Halt reason s else Ret tt s.

Definition sched_clear_shutdown : M sched unit := fun s =>
  if negb (truthy (shutdown_status s)) then Halt "Shutdown cleared when not shutdown" s
  else if shutdown_status s =? 2 then Ret tt s
  else Ret tt (s <| shutdown_status := 0 |>).

(** ** Tasks *)

Definition sched_wake_tasks (s : sched) : sched := s <| tasks_status := TS_REQUESTED |>.

Definition sched_check_set_tasks_busy (s : sched) : Z * sched :=
  if TS_REQUESTED <=? tasks_busy s then (1, s)
  else (0, s <| tasks_busy := tasks_status s |>).

(** A [struct task_wake] is one byte. *)
Definition sched_wake_task (s : sched) (w : Z) : sched * Z := (sched_wake_tasks s, 1).
Definition sched_check_wake (w : Z) : Z * Z := if negb (truthy w) then (0, w) else (1, 0).

(** ** Timers *)

(** The [for (;;)] loop of [insert_timer]: the final [prev] and [pos]. *)
Fixpoint insert_timer_loop (fuel : nat) (m : tid -> timer) (pos : tid) (w : Z)
    : option (tid * tid) :=
  match fuel with
  | O => None
  | S fuel =>
    let prev := pos in
    match next (m pos) with
    | None => None
    | Some pos =>
      if timer_is_before w (waketime (m pos)) then Some (prev, pos)
      else insert_timer_loop fuel m pos w
    end
  end.

Definition insert_timer (fuel : nat) (pos t : tid) (w : Z) : M sched unit := fun s =>
  match insert_timer_loop fuel (timers s) pos w with
  | None => Crash s
  | Some (prev, pos) =>
    Ret tt (s <| timers ::= fun m => set_next prev (Some t) (set_next t (Some pos) m) |>)
  end.

(** [now] is the value [timer_read_time()] returns. *)
Definition sched_add_timer (fuel : nat) (now : Z) (add : tid) : M sched unit := fun s =>
  let w := wake s add in
  let tl := timer_list s in
  if timer_is_before w (wake s tl) then
    match (when timer_is_before w now then sched_try_shutdown "Timer too close") s with
    | Ret _ s =>
      let m := timers s in
      let m := if decide (tl = T_deleted)
               then set_next add (next (m T_deleted)) m
               else set_next add (Some tl) m in
      let m := set_waketime T_deleted w m in
      let m := set_next T_deleted (Some add) m in
      Ret tt (s <| timers := m |> <| timer_list := T_deleted |>)
    | o => o
    end
  else insert_timer fuel tl add w s.

(** The search loop of [sched_del_timer]; the memory afterwards. *)
Fixpoint del_timer_loop (fuel : nat) (m : tid -> timer) (pos del : tid)
    : option (tid -> timer) :=
  match fuel with
  | O => None
  | S fuel =>
    match next (m pos) with
    | None => Some m
    | Some n =>
      if decide (n = del) then Some (set_next pos (next (m del)) m)
      else del_timer_loop fuel m n del
    end
  end.

Definition sched_del_timer (fuel : nat) (del : tid) : M sched unit := fun s =>
  let fin s := Ret tt (if decide (last_insert s = del)
                       then s <| last_insert := T_periodic |> else s) in
  if decide (timer_list s = del) then
    let m := set_waketime T_deleted (wake s del) (timers s) in
    let m := set_next T_deleted (next (m del)) m in
    fin (s <| timers := m |> <| timer_list := T_deleted |>)
  else
    match del_timer_loop fuel (timers s) (timer_list s) del with
    | None => Crash s
    | Some m => fin (s <| timers := m |>)
    end.

Section events.
Context (CONFIG_CLOCK_FREQ : Z).

Definition periodic_event : M sched Z := fun s =>
  let s := sched_wake_tasks s in
  let w := u32 (wake s T_periodic + timer_from_us CONFIG_CLOCK_FREQ 100000) in
  let m := set_waketime T_periodic w (timers s) in
  let m := set_waketime T_sentinel (u32 (waketime (m T_periodic) + 0x80000000)) m in
  Ret SF_RESCHEDULE (s <| timers := m |>).

Definition sentinel_event : M sched Z := shutdown "sentinel timer called".
Definition deleted_event : M sched Z := ret SF_DONE.

(** The callback stored in [t->func]; the callbacks of other objects are
    the argument [user]. *)
Definition timer_func (user : nat -> M sched Z) (t : tid) : M sched Z :=
  match t with
  | T_periodic => periodic_event
  | T_sentinel => sentinel_event
  | T_deleted => deleted_event
  | T_user n => user n
  end.

(** Second half of [sched_timer_dispatch]: update [timer_list] once the
    callback of [t] has returned [res]. *)
Definition dispatch_update (fuel : nat) (t : tid) (res : Z) : M sched Z := fun s =>
  let updated_waketime := wake s t in
  match nxt s t with
  | None => Crash s
  | Some n =>
    if res =? SF_DONE then
      Ret (wake s n)
        (let s := s <| timer_list := n |> in
         if decide (last_insert s = t) then s <| last_insert := n |> else s)
    else if negb (timer_is_before updated_waketime (wake s n)) then
      let next_waketime := wake s n in
      let s := s <| timer_list := n |> in
      let pos := last_insert s in
      let pos := if timer_is_before updated_waketime (wake s pos)
                 then timer_list s else pos in
      (insert_timer fuel pos t updated_waketime;;;
       modify (fun s => s <| last_insert := t |>);;;
       ret next_waketime) s
    else Ret updated_waketime s
  end.

Definition sched_timer_dispatch (fuel : nat) (user : nat -> M sched Z) : M sched Z :=
  t <- gets timer_list;;
  res <- timer_func user t;;
  dispatch_update fuel t res.
End events.

Definition sched_timer_reset (s : sched) : sched :=
  let s := s <| timer_list := T_deleted |> in
  let m := set_waketime T_deleted (wake s T_periodic) (timers s) in
  let m := set_next T_deleted (Some T_periodic) m in
  let m := set_next T_periodic (Some T_sentinel) m in
  s <| last_insert := T_periodic |> <| timers := m |>.

(** [run_shutdown]; [shutdownfuncs] is the generated [ctr_run_shutdownfuncs]. *)
Definition run_shutdown (reason : Z) (shutdownfuncs : M sched unit) : M sched unit := fun s =>
  let s := if negb (truthy (shutdown_status s)) then s <| shutdown_reason := reason |> else s in
  let s := s <| shutdown_status := 2 |> in
  let s := sched_timer_reset s in
  (shutdownfuncs;;; modify (fun s => s <| shutdown_status := 1 |>)) s.

(** ** The list of pending timers *)

Fixpoint linked (m : tid -> timer) (l : list tid) : Prop :=
  match l with
  | [] => True
  | t :: l' => next (m t) = Some (hd T_sentinel l') /\ linked m l'
  end.

(** [t] placed after every timer of [l] that is not later. *)
Fixpoint insert_sorted (k : tid -> Z) (t : tid) (l : list tid) : list tid :=
  match l with
  | [] => [t]
  | x :: l' => if k t <? k x then t :: l else x :: insert_sorted k t l'
  end.

Fixpoint sorted (k : tid -> Z) (l : list tid) : Prop :=
  match l with
  | [] => True
  | t :: l' => Forall (fun u => k t <= k u) l' /\ sorted k l'
  end.

Abbreviation wkey base s := (fun t => key base (wake s t)).

(** The timer list is well formed and holds exactly the timers [l], in order
    of their wake times within the window starting at [base]. *)
Record sched_inv (base : Z) (s : sched) (l : list tid) : Prop := {
  inv_head : timer_list s = hd T_sentinel l;
  inv_linked : linked (timers s) l;
  inv_nodup : NoDup l;
  inv_no_sentinel : T_sentinel ∉ l;
  inv_periodic : T_periodic ∈ l;
  inv_deleted : T_deleted ∉ tail l;
  inv_sorted : sorted (wkey base s) l;
  inv_window : Forall (fun t => in_window base (wake s t)) l;
  inv_sentinel_next : nxt s T_sentinel = None;
  inv_sentinel_wake : wake s T_sentinel = u32 (wake s T_periodic + 0x80000000);
  inv_last_insert : last_insert s ∈ l;
  inv_last_not_deleted : last_insert s <> T_deleted }.

(** ** Memory lemmas *)

Section memory.
Implicit Types m : tid -> timer.

Lemma next_set_next_eq m t p : next (set_next t p m t) = p.
Proof. unfold set_next. by rewrite fn_lookup_insert. Qed.
Lemma next_set_next_ne m t u p : t <> u -> next (set_next t p m u) = next (m u).
Proof. intros H. unfold set_next. by rewrite fn_lookup_insert_ne. Qed.
Lemma waketime_set_next m t u p : waketime (set_next t p m u) = waketime (m u).
Proof.
  unfold set_next. destruct (decide (t = u)) as [->|].
  - by rewrite fn_lookup_insert.
  - by rewrite fn_lookup_insert_ne.
Qed.
Lemma next_set_waketime m t u w : next (set_waketime t w m u) = next (m u).
Proof.
  unfold set_waketime. destruct (decide (t = u)) as [->|].
  - by rewrite fn_lookup_insert.
  - by rewrite fn_lookup_insert_ne.
Qed.
Lemma waketime_set_waketime_eq m t w : waketime (set_waketime t w m t) = w.
Proof. unfold set_waketime. by rewrite fn_lookup_insert. Qed.
Lemma waketime_set_waketime_ne m t u w :
  t <> u -> waketime (set_waketime t w m u) = waketime (m u).
Proof. intros H. unfold set_waketime. by rewrite fn_lookup_insert_ne. Qed.
End memory.

Create Rewrite HintDb mem.
#[export] Hint Rewrite next_set_next_eq waketime_set_next next_set_waketime
  waketime_set_waketime_eq : mem.
#[export] Hint Rewrite next_set_next_ne waketime_set_waketime_ne using congruence : mem.

(** ** Linked lists *)

Lemma linked_ext m m' l :
  (forall t, t ∈ l -> next (m' t) = next (m t)) -> linked m l -> linked m' l.
Proof.
  induction l as [|t l IH]; intros He; cbn; [done|]. intros [H1 H2]. split.
  - rewrite He by set_solver. done.
  - apply IH; [|done]. intros u Hu. apply He. set_solver.
Qed.

Lemma linked_app_r m l1 l2 : linked m (l1 ++ l2) -> linked m l2.
Proof. induction l1 as [|t l1 IH]; cbn; [done|]. intros [_ H]. auto. Qed.

Lemma hd_app_cons (d t : tid) l1 l2 : hd d (l1 ++ t :: l2) = hd t l1.
Proof. by destruct l1. Qed.

(** Storing a new node behind [p]. *)
Lemma linked_insert m l1 p t l2 :
  NoDup (l1 ++ p :: l2) -> t ∉ l1 ++ p :: l2 -> linked m (l1 ++ p :: l2) ->
  linked (set_next p (Some t) (set_next t (Some (hd T_sentinel l2)) m)) (l1 ++ p :: t :: l2).
Proof.
  induction l1 as [|x l1 IH]; intros Hd Ht Hl; cbn in *.
  - destruct Hl as [_ Hl]. apply NoDup_cons in Hd as [Hp _].
    assert (p <> t) by set_solver. autorewrite with mem. split_and!; [done|by autorewrite with mem|].
    apply (linked_ext m); [|done]. intros u Hu.
    rewrite !next_set_next_ne by set_solver. done.
  - destruct Hl as [Hx Hl]. apply NoDup_cons in Hd as [Hxd Hd].
    split; [|apply IH; [done|set_solver|done]].
    rewrite !next_set_next_ne by set_solver. rewrite Hx, !hd_app_cons. done.
Qed.

(** Unlinking the node behind [p]. *)
Lemma linked_remove m l1 p t l2 :
  NoDup (l1 ++ p :: t :: l2) -> linked m (l1 ++ p :: t :: l2) ->
  linked (set_next p (next (m t)) m) (l1 ++ p :: l2).
Proof.
  induction l1 as [|x l1 IH]; intros Hd Hl; cbn in *.
  - destruct Hl as (_ & Ht & Hl). apply NoDup_cons in Hd as [Hp _].
    rewrite next_set_next_eq. split; [done|].
    apply (linked_ext m); [|done]. intros u Hu. by rewrite next_set_next_ne by set_solver.
  - destruct Hl as [Hx Hl]. apply NoDup_cons in Hd as [Hxd Hd].
    split; [|by apply IH]. rewrite next_set_next_ne by set_solver. by rewrite Hx, !hd_app_cons.
Qed.

(** ** Sorted lists *)

Lemma sorted_ext k k' l : (forall t, t ∈ l -> k' t = k t) -> sorted k l -> sorted k' l.
Proof.
  induction l as [|t l IH]; intros He; cbn; [done|]. intros [H1 H2]. split.
  - rewrite Forall_forall in *. intros u Hu. rewrite !He by set_solver. auto.
  - apply IH; [|done]. intros u Hu. apply He. set_solver.
Qed.

Lemma sorted_app k l1 l2 :
  sorted k (l1 ++ l2) <->
  sorted k l1 /\ sorted k l2 /\ (forall x y, x ∈ l1 -> y ∈ l2 -> k x <= k y).
Proof.
  induction l1 as [|t l1 IH]; cbn.
  - split; [|tauto]. intros H. split_and!; [done..|]. intros x y Hx. set_solver.
  - rewrite Forall_app, IH. split.
    + intros ((F1 & F2) & S1 & S2 & H). split_and!; [done..|].
      intros x y Hx Hy. rewrite elem_of_cons in Hx. destruct Hx as [->|Hx]; [|auto].
      rewrite Forall_forall in F2. auto.
    + intros ((F1 & S1) & S2 & H). split_and!; [done| |done|done|].
      * rewrite Forall_forall. intros y Hy. apply H; set_solver.
      * intros x y Hx Hy. apply H; set_solver.
Qed.

Lemma sorted_sublist k l l' : l' `sublist_of` l -> sorted k l -> sorted k l'.
Proof.
  induction 1 as [|x l1 l2 Hsub IH|x l1 l2 Hsub IH]; cbn; [done| |tauto]. intros [HF HS]. split; [|auto].
  rewrite Forall_forall in *. intros u Hu. apply HF. by eapply elem_of_sublist.
Qed.

Lemma insert_sorted_split k t l1 l2 :
  Forall (fun x => k x <= k t) l1 -> (forall x, hd_error l2 = Some x -> k t < k x) ->
  insert_sorted k t (l1 ++ l2) = l1 ++ t :: l2.
Proof.
  intros H1 H2. induction H1 as [|x l1 Hx H1 IH]; cbn.
  - destruct l2 as [|y l2]; [done|]. cbn.
    rewrite (proj2 (Z.ltb_lt _ _)); [done|]. by apply H2.
  - rewrite (proj2 (Z.ltb_ge _ _)) by done. by rewrite IH.
Qed.

Lemma insert_sorted_perm k t l : insert_sorted k t l ≡ₚ t :: l.
Proof.
  induction l as [|x l IH]; cbn; [done|]. destruct (k t <? k x); [done|].
  rewrite IH. constructor.
Qed.

Lemma insert_sorted_sorted k t l : sorted k l -> sorted k (insert_sorted k t l).
Proof.
  induction l as [|x l IH]; cbn; [done|]. intros [H1 H2].
  destruct (Z.ltb_spec (k t) (k x)) as [Hlt|Hge]; cbn.
  - split; [|done]. constructor; [lia|]. eapply Forall_impl; [exact H1|]. cbn. intros; lia.
  - split; [|by apply IH]. rewrite insert_sorted_perm. constructor; [lia|done].
Qed.

Lemma insert_sorted_ext k k' t l :
  (forall u, u ∈ t :: l -> k' u = k u) -> insert_sorted k' t l = insert_sorted k t l.
Proof.
  induction l as [|x l IH]; intros He; cbn; [done|].
  rewrite !He by set_solver. destruct (_ <? _); [done|]. f_equal. apply IH. set_solver.
Qed.

(** ** The search of insert_timer *)

Lemma insert_timer_loop_spec base m p l w fuel :
  linked m (p :: l) ->
  waketime (m T_sentinel) = u32 (waketime (m T_periodic) + 0x80000000) ->
  in_window base w -> in_window base (waketime (m T_periodic)) ->
  Forall (fun t => in_window base (waketime (m t))) l ->
  T_periodic ∈ l \/ key base (waketime (m T_periodic)) <= key base w ->
  (length l < fuel)%nat ->
  exists l0 prev l2,
    insert_timer_loop fuel m p w = Some (prev, hd T_sentinel l2) /\
    p :: l = l0 ++ prev :: l2 /\
    Forall (fun x => key base (waketime (m x)) <= key base w) (tail (l0 ++ [prev])) /\
    (forall x, hd_error l2 = Some x -> key base w < key base (waketime (m x))).
Proof.
  intros Hlk Hsw Hw Hper. revert p Hlk fuel.
  induction l as [|x l IH]; intros p [Hn Hlk] fuel Hwin Hstop Hf;
    (destruct fuel as [|fuel]; [lia|]); cbn [insert_timer_loop]; rewrite Hn; cbn [hd].
  - rewrite Hsw, (timer_is_before_sentinel base) by done.
    rewrite (proj2 (Z.leb_le _ _)) by (destruct Hstop; [set_solver|done]).
    exists [], p, []. split_and!; [done..|constructor|done].
  - apply Forall_cons in Hwin as [Hx Hwin].
    rewrite (timer_is_before_key base) by done.
    destruct (Z.ltb_spec (key base w) (key base (waketime (m x)))) as [Hlt|Hge].
    + exists [], p, (x :: l). split_and!; [done..|constructor|]. cbn. by intros ? [= <-].
    + destruct (IH x Hlk fuel Hwin) as (l0 & prev & l2 & -> & Hsplit & Hle & Hgt).
      { rewrite elem_of_cons in Hstop. destruct Hstop as [[<-|?]|?]; auto. }
      { cbn in Hf. lia. }
      exists (p :: l0), prev, l2. split_and!; [done|by rewrite Hsplit| |done].
      cbn [tail app]. destruct l0 as [|y l0]; cbn in *; injection Hsplit as <- Hl.
      * by repeat constructor.
      * by constructor.
Qed.

Lemma insert_timer_spec base s la p lb t fuel :
  let L := la ++ p :: lb in
  linked (timers s) L -> NoDup L -> t ∉ L -> sorted (wkey base s) L ->
  Forall (fun t => in_window base (wake s t)) (t :: L) ->
  in_window base (wake s T_periodic) ->
  wake s T_sentinel = u32 (wake s T_periodic + 0x80000000) ->
  T_periodic ∈ L \/ key base (wake s T_periodic) <= key base (wake s t) ->
  key base (wake s p) <= key base (wake s t) ->
  (length L <= fuel)%nat ->
  exists m',
    insert_timer fuel p t (wake s t) s = Ret tt (s <| timers := m' |>) /\
    (forall u, waketime (m' u) = wake s u) /\
    linked m' (insert_sorted (wkey base s) t L) /\
    (forall u, u ∉ t :: L -> next (m' u) = nxt s u).
Proof.
  intros L Hlk Hd Ht Hs Hwin Hper Hsw Hstop Hp Hf.
  apply Forall_cons in Hwin as [Htw Hwin].
  pose proof (proj1 (sorted_app _ la (p :: lb)) Hs) as (_ & [Hsp _] & Hsa).
  assert (Hla : Forall (fun x => key base (wake s x) <= key base (wake s t)) (la ++ [p])).
  { rewrite Forall_forall. intros x Hx. rewrite elem_of_app, list_elem_of_singleton in Hx.
    destruct Hx as [Hx| ->]; [|done]. specialize (Hsa x p Hx ltac:(set_solver)). lia. }
  destruct (insert_timer_loop_spec base (timers s) p lb (wake s t) fuel)
    as (l0 & prev & l2 & E & Hsplit & Hle & Hgt).
  - by apply linked_app_r in Hlk.
  - done.
  - done.
  - done.
  - apply Forall_app in Hwin as [_ Hwin]. by apply Forall_cons in Hwin as [_ ?].
  - destruct Hstop as [Hstop|]; [|by right].
    unfold L in Hstop. rewrite elem_of_app, elem_of_cons in Hstop.
    destruct Hstop as [Hin|[<-|Hin]]; [right|by right|by left].
    rewrite Forall_forall in Hla. apply Hla. set_solver.
  - unfold L in Hf. rewrite length_app in Hf. cbn in Hf. lia.
  - unfold insert_timer. rewrite E. eexists. split; [done|].
    assert (HL : L = (la ++ l0) ++ prev :: l2) by (unfold L; by rewrite Hsplit, app_assoc).
    assert (Hins : insert_sorted (wkey base s) t L = (la ++ l0) ++ prev :: t :: l2).
    { rewrite HL. change (prev :: ?l) with ([prev] ++ l). rewrite !app_assoc.
      rewrite insert_sorted_split; [by rewrite <- !app_assoc| |done].
      rewrite <- app_assoc. apply Forall_app in Hla as [Hla Hpw].
      apply Forall_app; split; [done|].
      destruct (l0 ++ [prev]) as [|y r] eqn:Er; [constructor|].
      assert (y = p) as -> by (destruct l0; cbn in *; congruence).
      constructor; [|done]. by apply Forall_singleton in Hpw. }
    split_and!.
    + intros u. by rewrite !waketime_set_next.
    + rewrite Hins. apply linked_insert; by rewrite <- HL.
    + intros u Hu. rewrite HL in Hu. rewrite !next_set_next_ne by set_solver. done.
Qed.

(** ** Refinement of the timer operations

    [pending l] is what callers see of the list: the placeholder
    [deleted_timer] can only be its first element. *)

Definition pending (l : list tid) : list tid :=
  match l with T_deleted :: l' => l' | _ => l end.

(** State outside the timer list. *)
Definition same_status (s s' : sched) : Prop :=
  tasks_status s' = tasks_status s /\ tasks_busy s' = tasks_busy s /\
  shutdown_status s' = shutdown_status s /\ shutdown_reason s' = shutdown_reason s.

Definition same_wake (s s' : sched) : Prop :=
  forall u, u <> T_deleted -> wake s' u = wake s u.

(** What one component may rely on: [s'] represents the list [q] of pending
    timers and differs from [s] only in how the list is linked. *)
Definition represents (base : Z) (s s' : sched) (q : list tid) : Prop :=
  exists l', sched_inv base s' l' /\ pending l' = q /\ same_wake s s' /\ same_status s s'.

Lemma pending_cases l :
  (exists l1, l = T_deleted :: l1 /\ pending l = l1) \/ (hd T_sentinel l <> T_deleted /\ pending l = l).
Proof. destruct l as [|[] l]; cbn; eauto; right; (split; [congruence|done]). Qed.

Lemma sched_inv_cons base s l :
  sched_inv base s l -> exists t l1, l = t :: l1 /\ timer_list s = t.
Proof.
  intros [Hh]. destruct l as [|t l1]; [set_solver|]. by exists t, l1.
Qed.

Lemma pending_subset l u : u ∈ pending l -> u ∈ l.
Proof. destruct (pending_cases l) as [(l1 & -> & ->)|(_ & ->)]; set_solver. Qed.

Lemma pending_elem l u : u <> T_deleted -> u ∈ l -> u ∈ pending l.
Proof. destruct (pending_cases l) as [(l1 & -> & ->)|(_ & ->)]; set_solver. Qed.

Lemma sched_inv_pending base s l :
  sched_inv base s l ->
  T_deleted ∉ pending l /\ NoDup (pending l) /\ sorted (wkey base s) (pending l) /\
  linked (timers s) (pending l).
Proof.
  intros []. destruct (pending_cases l) as [(l1 & -> & ->)|(Hne & ->)].
  - apply NoDup_cons in inv_nodup0 as [? ?]. cbn in inv_sorted0, inv_linked0. tauto.
  - split; [|tauto]. destruct l as [|h l1]; [set_solver|]. cbn in *.
    rewrite elem_of_cons. intros [?|?]; congruence.
Qed.

(** A state whose memory differs only in links keeps the wake-time facts. *)
Lemma sched_inv_relink base s l m' l' tl :
  sched_inv base s l ->
  (forall u, waketime (m' u) = wake s u) ->
  tl = hd T_sentinel l' -> linked m' l' -> NoDup l' -> T_sentinel ∉ l' -> T_deleted ∉ tail l' ->
  (forall u, u ∈ l -> u <> T_deleted -> u ∈ l') ->
  sorted (wkey base s) l' -> Forall (fun t => in_window base (wake s t)) l' ->
  next (m' T_sentinel) = nxt s T_sentinel ->
  sched_inv base (s <| timers := m' |> <| timer_list := tl |>) l'.
Proof.
  intros [] Hw Htl Hlk Hd Hns Hdel Hsub Hs Hwin Hsn.
  constructor; cbn; try done.
  - apply Hsub; [done|congruence].
  - apply (sorted_ext (wkey base s)); [|done]. intros u _. by rewrite Hw.
  - eapply Forall_impl; [exact Hwin|]. intros u. by rewrite Hw.
  - by rewrite Hsn.
  - by rewrite !Hw.
  - by apply Hsub.
Qed.

Section add_timer.
Context (base : Z) (s : sched) (l : list tid) (n : nat).
Let t := T_user n.
Context (Hinv : sched_inv base s l) (Ht : t ∉ l) (Hwin : in_window base (wake s t)).

Lemma insert_sorted_pending :
  timer_is_before (wake s t) (wake s (timer_list s)) = false ->
  pending (insert_sorted (wkey base s) t l) = insert_sorted (wkey base s) t (pending l) /\
  hd T_sentinel (insert_sorted (wkey base s) t l) = timer_list s /\
  tail (insert_sorted (wkey base s) t l) ≡ₚ t :: tail l /\
  key base (wake s (timer_list s)) <= key base (wake s t).
Proof.
  destruct (sched_inv_cons base s l Hinv) as (h & l1 & -> & Hh). destruct Hinv.
  rewrite Hh. apply Forall_cons in inv_window0 as [Hhw _].
  rewrite (timer_is_before_key base) by done. intros Hge%Z.ltb_ge.
  cbn [insert_sorted]. rewrite (proj2 (Z.ltb_ge _ _)) by done.
  split_and!; [|done|apply insert_sorted_perm|done].
  destruct h; cbn; try done; by rewrite (proj2 (Z.ltb_ge _ _)) by done.
Qed.

(** The insertion behind the head. *)
Lemma add_timer_behind fuel :
  (length l <= fuel)%nat ->
  timer_is_before (wake s t) (wake s (timer_list s)) = false ->
  exists s', insert_timer fuel (timer_list s) t (wake s t) s = Ret tt s' /\
    represents base s s' (insert_sorted (wkey base s) t (pending l)).
Proof.
  intros Hf Hb. destruct (insert_sorted_pending Hb) as (Hp & Hhd & Htl & Hk).
  destruct (sched_inv_cons base s l Hinv) as (h & l1 & -> & Hh).
  pose proof Hinv as []. rewrite Hh in *.
  destruct (insert_timer_spec base s [] h l1 t fuel) as (m' & E & Hw & Hlk & Hfr);
    [done..|by constructor| | |by left|done|done|].
  { rewrite Forall_forall in inv_window0. by apply inv_window0. }
  { done. }
  rewrite E. eexists. split; [done|]. exists (insert_sorted (wkey base s) t (h :: l1)).
  split_and!; [|done|intros u _; apply Hw|done].
  replace (s <| timers := m' |>) with (s <| timers := m' |> <| timer_list := h |>)
    by (rewrite <- Hh; by destruct s).
  apply (sched_inv_relink base s (h :: l1)); try done.
  - rewrite insert_sorted_perm. by constructor.
  - rewrite insert_sorted_perm. rewrite elem_of_cons. by intros [[=]|].
  - rewrite Htl. rewrite elem_of_cons. by intros [[=]|].
  - intros u Hu _. rewrite insert_sorted_perm. set_solver.
  - by apply insert_sorted_sorted.
  - rewrite insert_sorted_perm. by constructor.
  - apply Hfr. rewrite elem_of_cons. by intros [[=]|].
Qed.

(** The insertion in front of the head: [deleted_timer] becomes the head. *)
Definition add_front_memory : tid -> timer :=
  let m := timers s in
  let m := if decide (timer_list s = T_deleted)
           then set_next t (next (m T_deleted)) m
           else set_next t (Some (timer_list s)) m in
  let m := set_waketime T_deleted (wake s t) m in
  set_next T_deleted (Some t) m.

Lemma add_front_memory_wake u :
  waketime (add_front_memory u) = if decide (u = T_deleted) then wake s t else wake s u.
Proof.
  unfold add_front_memory. rewrite waketime_set_next.
  destruct (decide (u = T_deleted)) as [->|Hu]; [by rewrite waketime_set_waketime_eq|].
  rewrite waketime_set_waketime_ne by congruence.
  case_decide; by rewrite waketime_set_next.
Qed.

Lemma add_front_memory_next u :
  u <> T_deleted -> u <> t -> next (add_front_memory u) = nxt s u.
Proof.
  intros Hu Hut. unfold add_front_memory.
  rewrite next_set_next_ne, next_set_waketime by congruence.
  case_decide; by rewrite next_set_next_ne by congruence.
Qed.

Lemma add_front_linked : linked add_front_memory (T_deleted :: t :: pending l).
Proof.
  destruct (sched_inv_cons base s l Hinv) as (h & l1 & El & Hh). pose proof Hinv as [].
  destruct (sched_inv_pending base s l Hinv) as (Hp & _ & _ & Hpl).
  cbn [linked]. split_and!.
  - unfold add_front_memory. by rewrite next_set_next_eq.
  - unfold add_front_memory. rewrite next_set_next_ne, next_set_waketime by done.
    rewrite Hh. case_decide as Hdel; rewrite next_set_next_eq.
    + rewrite Hdel in El. rewrite El in inv_linked0 |- *. cbn. by destruct inv_linked0.
    + rewrite El. destruct h; done.
  - apply (linked_ext (timers s)).
    + intros u Hu. apply add_front_memory_next; [set_solver|].
      intros ->. by apply Ht, pending_subset.
    + done.
Qed.

Lemma add_timer_front :
  timer_is_before (wake s t) (wake s (timer_list s)) = true ->
  represents base s (s <| timers := add_front_memory |> <| timer_list := T_deleted |>)
    (insert_sorted (wkey base s) t (pending l)).
Proof.
  intros Hb. destruct (sched_inv_cons base s l Hinv) as (h & l1 & El & Hh).
  pose proof add_front_linked as Hlk. pose proof Hinv as [].
  assert (Hkeys : Forall (fun u => key base (wake s t) < key base (wake s u)) l).
  { rewrite El in *. cbn in inv_sorted0. destruct inv_sorted0 as [Hle _].
    apply Forall_cons in inv_window0 as [Hhw _].
    rewrite Hh, (timer_is_before_key base) in Hb by done. apply Z.ltb_lt in Hb.
    constructor; [done|]. eapply Forall_impl; [exact Hle|]. cbn. intros; lia. }
  assert (Hpk : Forall (fun u => key base (wake s t) < key base (wake s u)) (pending l)).
  { rewrite Forall_forall in *. intros u Hu. by apply Hkeys, pending_subset. }
  destruct (sched_inv_pending base s l Hinv) as (Hpd & Hnd & Hps & _).
  exists (T_deleted :: t :: pending l). split_and!.
  - constructor; cbn [timers timer_list last_insert set].
    + done.
    + exact Hlk.
    + rewrite !NoDup_cons. split_and!; [|intros Hx%pending_subset; by apply Ht|done].
      rewrite elem_of_cons. by intros [[=]|].
    + rewrite !elem_of_cons. intros [[=]|[[=]|?%pending_subset]]. done.
    + rewrite !elem_of_cons. right; right. by apply pending_elem.
    + cbn. rewrite elem_of_cons. by intros [[=]|].
    + assert (Ed : waketime (add_front_memory T_deleted) = wake s t) by apply add_front_memory_wake.
      assert (Eo : forall u, u <> T_deleted -> waketime (add_front_memory u) = wake s u).
      { intros u Hu. rewrite add_front_memory_wake. by rewrite decide_False. }
      assert (Hq : Forall (fun u => key base (wake s t) <= key base (waketime (add_front_memory u)))
                     (pending l)).
      { rewrite Forall_forall in *. intros u Hu. rewrite Eo by set_solver.
        specialize (Hpk u Hu). lia. }
      cbn [sorted]. rewrite Ed, (Eo t) by done. split_and!; [constructor; [|done]|done|].
      * by rewrite (Eo t).
      * apply (sorted_ext (wkey base s)); [|done]. intros u Hu. by rewrite Eo by set_solver.
    + rewrite Forall_forall in *. intros u. rewrite !elem_of_cons, add_front_memory_wake.
      case_decide; [done|]. intros [?|[->|Hu%pending_subset]]; [done..|auto].
    + rewrite add_front_memory_next by done. done.
    + rewrite !add_front_memory_wake. by rewrite !decide_False by done.
    + rewrite !elem_of_cons. right; right. by apply pending_elem.
    + done.
  - cbn [pending]. destruct (pending l) as [|x q]; [done|]. cbn.
    apply Forall_cons in Hpk as [Hx _]. by rewrite (proj2 (Z.ltb_lt _ _)).
  - intros u Hu. cbn. rewrite add_front_memory_wake. by rewrite decide_False.
  - done.
Qed.
End add_timer.

Lemma add_timer_cases base s l n now fuel :
  sched_inv base s l -> T_user n ∉ l -> in_window base (wake s (T_user n)) -> (length l <= fuel)%nat ->
  sched_add_timer fuel now (T_user n) s = Halt "Timer too close" s \/
  exists s', sched_add_timer fuel now (T_user n) s = Ret tt s' /\
    represents base s s' (insert_sorted (wkey base s) (T_user n) (pending l)).
Proof.
  intros Hinv Ht Hwin Hf. unfold sched_add_timer.
  destruct (timer_is_before (wake s (T_user n)) (wake s (timer_list s))) eqn:Hb.
  - pose proof (add_timer_front base s l n Hinv Ht Hwin Hb) as Hrep.
    unfold sched_try_shutdown. destruct (timer_is_before _ now); [|right; by eexists].
    destruct (truthy (shutdown_status s)); [right; by eexists|by left].
  - right. by apply (add_timer_behind base s l n).
Qed.

(** Scheduling a timer.  A timer that would become the first one while
    its time has already passed shuts a running machine down and changes
    nothing; otherwise [sched_add_timer] returns with the timer inserted in the
    pending list right after the timers that are not later, and nothing else
    about the pending timers changed. *)
Theorem sched_add_timer_refines base s l n now fuel :
  let t := T_user n in
  sched_inv base s l -> t ∉ l -> in_window base (wake s t) -> (length l <= fuel)%nat ->
  if timer_is_before (wake s t) (wake s (timer_list s)) &&
     timer_is_before (wake s t) now && negb (sched_is_shutdown s)
  then sched_add_timer fuel now t s = Halt "Timer too close" s
  else exists s', sched_add_timer fuel now t s = Ret tt s' /\
         represents base s s' (insert_sorted (wkey base s) t (pending l)).
Proof.
  intros t Hinv Ht Hwin Hf. unfold sched_add_timer, sched_is_shutdown.
  destruct (timer_is_before (wake s t) (wake s (timer_list s))) eqn:Hb; cbn [andb].
  - pose proof (add_timer_front base s l n Hinv Ht Hwin Hb) as Hrep.
    unfold sched_try_shutdown. destruct (timer_is_before (wake s t) now); cbn [andb].
    + destruct (truthy (shutdown_status s)); cbn [negb]; [|done].
      eexists. split; [done|exact Hrep].
    + eexists. split; [done|exact Hrep].
  - by apply (add_timer_behind base s l n).
Qed.

(** ** Removing a timer *)

Lemma del_timer_loop_absent m p l del fuel :
  linked m (p :: l) -> next (m T_sentinel) = None ->
  del ∉ l -> del <> T_sentinel -> (length l + 1 < fuel)%nat ->
  del_timer_loop fuel m p del = Some m.
Proof.
  revert p fuel. induction l as [|x l IH]; intros p fuel [Hn Hlk] Hsn Hd Hds Hf;
    (destruct fuel as [|fuel]; [lia|]); cbn [del_timer_loop]; rewrite Hn; cbn [hd] in *.
  - rewrite decide_False by done. destruct fuel; [cbn in Hf; lia|]. cbn. by rewrite Hsn.
  - rewrite decide_False by set_solver. apply IH; [done..|set_solver|done|cbn in Hf; lia].
Qed.

Lemma del_timer_loop_present m p l1 del l2 fuel :
  linked m (p :: l1 ++ del :: l2) -> del ∉ l1 -> (length l1 < fuel)%nat ->
  exists l0 prev, p :: l1 = l0 ++ [prev] /\
    del_timer_loop fuel m p del = Some (set_next prev (next (m del)) m).
Proof.
  revert p fuel. induction l1 as [|x l1 IH]; intros p fuel [Hn Hlk] Hd Hf;
    (destruct fuel as [|fuel]; [lia|]); cbn [del_timer_loop app hd] in *; rewrite Hn.
  - exists [], p. by rewrite decide_True.
  - rewrite decide_False by set_solver.
    destruct (IH x fuel Hlk) as (l0 & prev & E & ->); [set_solver|cbn in Hf; lia|].
    exists (p :: l0), prev. by rewrite E.
Qed.

Definition remove_timer (t : tid) (l : list tid) : list tid := filter (fun u => u <> t) l.

Lemma remove_timer_absent t l : t ∉ l -> remove_timer t l = l.
Proof.
  unfold remove_timer. induction l as [|x l IH]; [done|]. intros H.
  rewrite filter_cons, decide_True by set_solver. f_equal. set_solver.
Qed.

Lemma remove_timer_split t l1 l2 :
  t ∉ l1 -> t ∉ l2 -> remove_timer t (l1 ++ t :: l2) = l1 ++ l2.
Proof.
  intros H1 H2. pose proof (remove_timer_absent t l1 H1) as E1.
  pose proof (remove_timer_absent t l2 H2) as E2. unfold remove_timer in *.
  rewrite filter_app, filter_cons, decide_False, E1, E2 by tauto. done.
Qed.

(** A sublist of the pending timers, relinked, is again well formed. *)
Lemma sched_inv_sublist base s l m' l' li :
  sched_inv base s l -> l' `sublist_of` l ->
  (forall u, u ∈ l' -> waketime (m' u) = wake s u) ->
  waketime (m' T_sentinel) = wake s T_sentinel -> waketime (m' T_periodic) = wake s T_periodic ->
  next (m' T_sentinel) = nxt s T_sentinel ->
  linked m' l' -> T_deleted ∉ tail l' -> T_periodic ∈ l' -> li ∈ l' -> li <> T_deleted ->
  sched_inv base (s <| timers := m' |> <| timer_list := hd T_sentinel l' |>
                    <| last_insert := li |>) l'.
Proof.
  intros [] Hsub Hw Hws Hwp Hsn Hlk Hdel Hper Hli Hlid.
  assert (Hin : forall u, u ∈ l' -> u ∈ l) by (intros u Hu; by eapply elem_of_sublist).
  constructor; cbn; try done.
  - by eapply sublist_NoDup.
  - intros ?%Hin. done.
  - apply (sorted_ext (wkey base s)); [intros u Hu; by rewrite Hw|].
    by eapply sorted_sublist.
  - rewrite Forall_forall in *. intros u Hu. rewrite Hw by done. auto.
  - by rewrite Hsn.
  - by rewrite Hws, Hwp.
Qed.

Section del_timer.
Context (base : Z) (s : sched) (l : list tid) (n : nat).
Let t := T_user n.
Context (Hinv : sched_inv base s l).

Lemma last_insert_fix (l' : list tid) :
  T_periodic ∈ l' -> (forall u, u ∈ l -> u <> t -> u <> T_deleted -> u ∈ l') ->
  let li := if decide (last_insert s = t) then T_periodic else last_insert s in
  li ∈ l' /\ li <> T_deleted.
Proof.
  intros Hp Hsub li. pose proof Hinv as []. unfold li. case_decide; [done|].
  split; [by apply Hsub|done].
Qed.

(** Deleting the next timer to run leaves [deleted_timer] in its place. *)
Lemma del_timer_head l1 :
  l = t :: l1 ->
  let m := set_waketime T_deleted (wake s t) (timers s) in
  let m := set_next T_deleted (next (m t)) m in
  let li := if decide (last_insert s = t) then T_periodic else last_insert s in
  represents base s
    (s <| timers := m |> <| timer_list := T_deleted |> <| last_insert := li |>) l1.
Proof.
  intros El m1 m li. pose proof last_insert_fix as Hfix. pose proof Hinv as []. rewrite El in *.
  destruct inv_linked0 as [Hn Hlk]. apply NoDup_cons in inv_nodup0 as [Htl Hd].
  destruct inv_sorted0 as [Hk Hs]. apply Forall_cons in inv_window0 as [Htw Hwin].
  cbn [tail] in inv_deleted0.
  assert (Hwd : waketime (m T_deleted) = wake s t).
  { unfold m, m1. by autorewrite with mem. }
  assert (Hw : forall u, u <> T_deleted -> waketime (m u) = wake s u).
  { intros u Hu. unfold m, m1. by autorewrite with mem. }
  assert (Hnx : forall u, u <> T_deleted -> next (m u) = nxt s u).
  { intros u Hu. unfold m, m1. by autorewrite with mem. }
  assert (Hper : T_periodic ∈ T_deleted :: l1) by set_solver.
  destruct (Hfix (T_deleted :: l1) Hper ltac:(set_solver)) as [Hli Hlid].
  exists (T_deleted :: l1). split_and!; [constructor; cbn; try done| |intros u Hu; by apply Hw|done].
  - split.
    + unfold m, m1. autorewrite with mem. done.
    + apply (linked_ext (timers s)); [|done]. intros u Hu. apply Hnx. set_solver.
  - by constructor.
  - set_solver.
  - split.
    + rewrite Forall_forall in *. intros u Hu. rewrite Hwd, Hw by set_solver. by apply Hk.
    + apply (sorted_ext (wkey base s)); [|done]. intros u Hu. by rewrite Hw by set_solver.
  - rewrite Forall_forall in *. intros u. rewrite elem_of_cons. intros [->|Hu].
    + by rewrite Hwd.
    + rewrite Hw by set_solver. by apply Hwin.
  - done.
Qed.

(** Unlinking a timer behind the head. *)
Lemma del_timer_behind h l1 l2 fuel :
  l = h :: l1 ++ t :: l2 -> (length l <= fuel)%nat ->
  let li := if decide (last_insert s = t) then T_periodic else last_insert s in
  exists m, del_timer_loop fuel (timers s) h t = Some m /\
    represents base s (s <| timers := m |> <| timer_list := h |> <| last_insert := li |>)
      (pending (h :: l1 ++ l2)).
Proof.
  intros El Hf li. pose proof last_insert_fix as Hfix. pose proof Hinv as []. rewrite El in *.
  assert (Ht1 : t ∉ l1 /\ h <> t).
  { clear -inv_nodup0. apply NoDup_cons in inv_nodup0 as [H1 H2].
    apply NoDup_app in H2 as (_ & H2 & _). split; [intros H; by apply (H2 t); [|left]|].
    intros ->. apply H1. rewrite elem_of_app, elem_of_cons. auto. }
  destruct Ht1 as [Ht1 Hht].
  destruct (del_timer_loop_present (timers s) h l1 t l2 fuel) as (l0 & prev & Hl0 & ->);
    [done..|cbn in Hf; rewrite length_app in Hf; cbn in Hf; lia|].
  eexists. split; [done|].
  set (m := set_next prev (next (timers s t)) (timers s)).
  assert (Hl1 : h :: l1 ++ t :: l2 = l0 ++ prev :: t :: l2).
  { change (h :: l1 ++ t :: l2) with ((h :: l1) ++ t :: l2). rewrite Hl0, <- app_assoc. done. }
  assert (Hl2 : h :: l1 ++ l2 = l0 ++ prev :: l2).
  { change (h :: l1 ++ l2) with ((h :: l1) ++ l2). rewrite Hl0, <- app_assoc. done. }
  assert (Hsub : (h :: l1 ++ l2) `sublist_of` (h :: l1 ++ t :: l2)).
  { constructor. apply sublist_app; [done|by constructor]. }
  assert (Hper : T_periodic ∈ h :: l1 ++ l2) by set_solver.
  destruct (Hfix (h :: l1 ++ l2) Hper) as [Hli Hlid].
  { intros u Hu Hut _. clear -Hu Hut. set_solver. }
  exists (h :: l1 ++ l2). split_and!; [|done|intros u _; unfold m; apply waketime_set_next|done].
  change h with (hd T_sentinel (h :: l1 ++ l2)) at 1.
  apply (sched_inv_sublist base s (h :: l1 ++ t :: l2)); [done..| | | | | | | | |].
  all: try (intros; unfold m; apply waketime_set_next).
  - unfold m. rewrite next_set_next_ne; [done|]. intros ->.
    apply inv_no_sentinel0. rewrite Hl1, elem_of_app, elem_of_cons. auto.
  - rewrite Hl2. unfold m. apply linked_remove; by rewrite <- Hl1.
  - cbn [tail] in *. clear -inv_deleted0. set_solver.
  - done.
  - done.
  - done.
Qed.
End del_timer.

Lemma remove_pending base s l n :
  sched_inv base s l ->
  (T_user n ∉ l -> remove_timer (T_user n) (pending l) = pending l) /\
  (forall l1, l = T_user n :: l1 -> remove_timer (T_user n) (pending l) = l1) /\
  (forall h l1 l2, l = h :: l1 ++ T_user n :: l2 ->
     remove_timer (T_user n) (pending l) = pending (h :: l1 ++ l2)).
Proof.
  intros Hinv. pose proof (inv_nodup _ _ _ Hinv) as Hd. split_and!.
  - intros Ht. apply remove_timer_absent. by intros ?%pending_subset.
  - intros l1 ->. apply NoDup_cons in Hd as [Ht _]. cbn [pending].
    apply (remove_timer_split _ [] l1); [set_solver|done].
  - intros h l1 l2 ->. change (h :: l1 ++ T_user n :: l2) with ((h :: l1) ++ T_user n :: l2) in Hd.
    apply NoDup_app in Hd as (_ & Hd1 & Hd2). apply NoDup_cons in Hd2 as [Hd2 _].
    assert (Ht1 : T_user n ∉ h :: l1).
    { intros H. apply (Hd1 _ H). rewrite elem_of_cons. auto. }
    rewrite not_elem_of_cons in Ht1. destruct Ht1 as [Hth Ht1].
    destruct h; cbn [pending]; try (by apply remove_timer_split).
    all: change (?h :: l1 ++ ?l) with ((h :: l1) ++ l); apply remove_timer_split; [|done].
    all: rewrite not_elem_of_cons; auto.
Qed.

Lemma del_timer_ok base s l n fuel :
  sched_inv base s l -> (length l < fuel)%nat ->
  exists s', sched_del_timer fuel (T_user n) s = Ret tt s' /\
    represents base s s' (remove_timer (T_user n) (pending l)).
Proof.
  intros Hinv Hf. destruct (sched_inv_cons base s l Hinv) as (h & l1 & El & Hh).
  destruct (remove_pending base s l n Hinv) as (R1 & R2 & R3).
  unfold sched_del_timer. rewrite Hh. case_decide as Eh.
  - subst h. eexists. split; [done|]. rewrite (R2 l1) by congruence.
    pose proof (del_timer_head base s l n Hinv l1 ltac:(congruence)) as Hr. cbv zeta in Hr.
    cbn [last_insert set] in *. by case_decide; destruct s.
  - destruct (decide (T_user n ∈ l1)) as [Hin|Hnin].
    + apply list_elem_of_split in Hin as (la & lb & ->).
      destruct (del_timer_behind base s l n Hinv h la lb fuel El ltac:(lia)) as (m & E & Hr).
      rewrite E. eexists. split; [done|]. rewrite (R3 h la lb El).
      destruct s; cbn in *; subst. by case_decide.
    + pose proof Hinv as []. rewrite (del_timer_loop_absent _ h l1) by (subst; done || (cbn in *; lia)).
      eexists. split; [done|]. rewrite R1 by (subst; set_solver).
      exists l. rewrite decide_False.
      * split_and!; [by destruct s|done..].
      * cbn. intros E. rewrite El, E in inv_last_insert0. set_solver.
Qed.

(** Removing a timer.  Whether or not the timer is pending,
    [sched_del_timer] returns, leaves exactly the other timers pending in the
    same order, and changes no wake time. *)
Theorem sched_del_timer_refines base s l n fuel :
  let t := T_user n in
  sched_inv base s l -> (length l < fuel)%nat ->
  exists s', sched_del_timer fuel t s = Ret tt s' /\
    represents base s s' (remove_timer t (pending l)).
Proof. intros t. apply del_timer_ok. Qed.

(** ** Dispatching a timer

    While the callback of the first timer [t] runs, the list is well formed
    except that the wake time of [t] may already be its next one. *)

Record sched_running (base : Z) (s : sched) (t : tid) (l : list tid) : Prop := {
  run_head : timer_list s = t;
  run_linked : linked (timers s) (t :: l);
  run_nodup : NoDup (t :: l);
  run_no_sentinel : T_sentinel ∉ t :: l;
  run_periodic : T_periodic ∈ t :: l;
  run_deleted : T_deleted ∉ l;
  run_sorted : sorted (wkey base s) l;
  run_window : Forall (fun t => in_window base (wake s t)) (t :: l);
  run_sentinel_next : nxt s T_sentinel = None;
  run_sentinel_wake : wake s T_sentinel = u32 (wake s T_periodic + 0x80000000);
  run_last_insert : last_insert s ∈ t :: l;
  run_last_not_deleted : last_insert s <> T_deleted }.

Lemma sched_inv_running base s t l : sched_inv base s (t :: l) -> sched_running base s t l.
Proof. intros []. constructor; try done. by destruct inv_sorted0. Qed.

Section dispatch.
Context (base : Z) (s : sched) (t : tid) (l : list tid).
Context (Hrun : sched_running base s t l).

(** The search restarted at the timer being moved itself. *)
Lemma insert_timer_self fuel x l1 w :
  l = x :: l1 -> timer_is_before w (wake s x) = false ->
  insert_timer (S fuel) t t w s = insert_timer fuel x t w s.
Proof.
  intros El Hb. pose proof Hrun as []. unfold insert_timer. cbn [insert_timer_loop].
  destruct run_linked0 as [Hn _]. rewrite Hn, El. cbn [hd]. by rewrite Hb.
Qed.

Lemma running_stop :
  T_periodic ∈ l \/ key base (wake s T_periodic) <= key base (wake s t).
Proof.
  pose proof Hrun as []. rewrite elem_of_cons in run_periodic0.
  destruct run_periodic0 as [<-|?]; [right; lia|by left].
Qed.

(** Re-inserting from any starting point the code may choose gives the same
    list as inserting from the head. *)
Lemma insert_timer_from fuel x l1 pos :
  l = x :: l1 -> key base (wake s x) <= key base (wake s t) ->
  pos = t \/ (pos ∈ l /\ key base (wake s pos) <= key base (wake s t)) ->
  (length l < fuel)%nat ->
  exists m',
    insert_timer fuel pos t (wake s t) s = Ret tt (s <| timers := m' |>) /\
    (forall u, waketime (m' u) = wake s u) /\
    linked m' (insert_sorted (wkey base s) t l) /\
    (forall u, u ∉ t :: l -> next (m' u) = nxt s u).
Proof.
  intros El Hx Hpos Hf. pose proof running_stop as Hstop. pose proof Hrun as [].
  destruct run_linked0 as [_ Hlk]. apply NoDup_cons in run_nodup0 as [Htl Hd].
  pose proof run_window0 as Hw. apply Forall_cons in Hw as [Htw Hlw].
  assert (Hper : in_window base (wake s T_periodic)).
  { rewrite Forall_forall in run_window0. by apply run_window0. }
  assert (Hgo : forall pos fuel, pos ∈ l -> key base (wake s pos) <= key base (wake s t) ->
    (length l <= fuel)%nat -> exists m',
      insert_timer fuel pos t (wake s t) s = Ret tt (s <| timers := m' |>) /\
      (forall u, waketime (m' u) = wake s u) /\
      linked m' (insert_sorted (wkey base s) t l) /\
      (forall u, u ∉ t :: l -> next (m' u) = nxt s u)).
  { intros pos' fuel' Hin Hk Hf'. apply list_elem_of_split in Hin as (la & lb & E).
    rewrite E in *. by apply insert_timer_spec. }
  destruct Hpos as [->|[Hin Hk]]; [|apply Hgo; [done..|lia]].
  destruct fuel as [|fuel]; [lia|].
  rewrite (insert_timer_self fuel x l1) by
    (done || (rewrite (timer_is_before_key base); [by apply Z.ltb_ge|done|];
      rewrite Forall_forall in Hlw; apply Hlw; rewrite El; set_solver)).
  apply Hgo; [rewrite El; set_solver|done|lia].
Qed.

(** What [dispatch_update] must achieve. *)
Definition dispatched_to (o : outcome sched Z) (l' : list tid) : Prop :=
  exists s', o = Ret (wake s (hd T_sentinel l')) s' /\ sched_inv base s' l' /\
    (forall u, wake s' u = wake s u) /\ same_status s s'.

Lemma dispatch_done fuel :
  t <> T_periodic -> dispatched_to (dispatch_update fuel t SF_DONE s) l.
Proof.
  intros Ht. pose proof Hrun as []. destruct run_linked0 as [Hn Hlk].
  apply NoDup_cons in run_nodup0 as [Htl Hd]. apply Forall_cons in run_window0 as [Htw Hlw].
  assert (Hp : T_periodic ∈ l) by set_solver.
  unfold dispatch_update. rewrite Hn. cbn [Z.eqb SF_DONE].
  destruct l as [|x l1]; [set_solver|]. cbn [hd].
  eexists. split; [done|]. split_and!; [|intros u; by case_decide|by case_decide].
  cbn [last_insert set]. case_decide as Hli; constructor; cbn; try done.
  - set_solver.
  - intros H. apply run_deleted0. set_solver.
  - set_solver.
  - set_solver.
  - set_solver.
  - intros H. apply run_deleted0. set_solver.
  - set_solver.
Qed.

Lemma dispatch_reschedule fuel res :
  res <> SF_DONE -> t <> T_deleted -> (length l < fuel)%nat ->
  dispatched_to (dispatch_update fuel t res s) (insert_sorted (wkey base s) t l).
Proof.
  intros Hres Ht Hf. pose proof insert_timer_from as Hfrom. pose proof Hrun as [].
  pose proof run_linked0 as [Hn Hlk]. pose proof run_nodup0 as [Htl Hd]%NoDup_cons.
  pose proof run_window0 as [Htw Hlw]%Forall_cons.
  unfold dispatch_update. rewrite Hn. rewrite (proj2 (Z.eqb_neq _ _)) by done.
  destruct l as [|x l1]; cbn [hd insert_sorted].
  - assert (t = T_periodic) as -> by set_solver.
    rewrite run_sentinel_wake0, (timer_is_before_sentinel base) by done.
    rewrite (proj2 (Z.leb_le _ _)) by lia. cbn [negb].
    exists s. split_and!; [done| |done|done]. by constructor.
  - pose proof Hlw as [Hxw Hl1w]%Forall_cons.
    rewrite (timer_is_before_key base) by done.
    destruct (Z.ltb_spec (key base (wake s t)) (key base (wake s x))) as [Hlt|Hge]; cbn [negb].
    + exists s. split_and!; [done| |done|done]. constructor; try done.
      split; [|done]. destruct run_sorted0 as [Hx _]. constructor; [lia|].
      eapply Forall_impl; [exact Hx|]. cbn. intros; lia.
    + set (s1 := s <| timer_list := x |>).
      set (pos := if timer_is_before _ _ then _ else _).
      assert (Hpos : pos = t \/ (pos ∈ x :: l1 /\ key base (wake s pos) <= key base (wake s t))).
      { unfold pos. destruct (timer_is_before (wake s t) (wake s1 (last_insert s1))) eqn:Hb.
        - right. cbn. split; [set_solver|done].
        - rewrite elem_of_cons in run_last_insert0.
          destruct run_last_insert0 as [Heq|Hin]; [by left|right]. split; [done|].
          cbn in Hb. rewrite (timer_is_before_key base) in Hb; [by apply Z.ltb_ge in Hb|done|].
          rewrite Forall_forall in Hlw. by apply Hlw. }
      destruct (Hfrom fuel x l1 pos eq_refl Hge Hpos Hf) as (m' & E & Hw & Hlk' & Hfr).
      assert (E1 : insert_timer fuel pos t (wake s t) s1 = Ret tt (s1 <| timers := m' |>)).
      { unfold insert_timer in *. change (timers s1) with (timers s).
        destruct (insert_timer_loop fuel (timers s) pos (wake s t)) as [[prev q]|]; [|done].
        injection E as <-. done. }
      unfold bind. rewrite E1. unfold modify, ret.
      assert (Hperm : insert_sorted (wkey base s) t (x :: l1) ≡ₚ t :: x :: l1)
        by apply insert_sorted_perm.
      cbn [insert_sorted] in Hperm, Hlk'.
      rewrite (proj2 (Z.ltb_ge _ _)) in Hperm, Hlk' by done.
      eexists. split_and!; [done| |intros u; apply Hw|done].
      constructor; cbn [timers timer_list last_insert set].
      * done.
      * done.
      * by rewrite Hperm.
      * by rewrite Hperm.
      * by rewrite Hperm.
      * cbn [tail]. rewrite insert_sorted_perm. set_solver.
      * apply (sorted_ext (wkey base s)); [intros u _; by rewrite Hw|].
        pose proof (insert_sorted_sorted (wkey base s) t (x :: l1) run_sorted0) as Hs.
        cbn [insert_sorted] in Hs. by rewrite (proj2 (Z.ltb_ge _ _)) in Hs.
      * rewrite Hperm. eapply Forall_impl; [exact run_window0|]. intros u. by rewrite Hw.
      * rewrite Hfr by done. done.
      * by rewrite !Hw.
      * rewrite Hperm. set_solver.
      * done.
Qed.
End dispatch.

Lemma timer_func_done freq user t s res s1 :
  timer_func freq user t s = Ret res s1 ->
  (res = SF_DONE -> t <> T_periodic) /\ (res <> SF_DONE -> t <> T_deleted).
Proof. intros H. destruct t; cbn in H; split; intros Hr; try done; by injection H as <- <-. Qed.

Lemma dispatch_running base freq fuel user s t l res s1 l1 :
  sched_inv base s (t :: l) -> timer_func freq user t s = Ret res s1 ->
  sched_running base s1 t l1 -> (length l1 < fuel)%nat ->
  let l' := if res =? SF_DONE then l1 else insert_sorted (wkey base s1) t l1 in
  exists s', sched_timer_dispatch freq fuel user s = Ret (wake s' (hd T_sentinel l')) s' /\
    sched_inv base s' l' /\ (forall u, wake s' u = wake s1 u) /\ same_status s1 s'.
Proof.
  intros Hinv Hcb Hrun Hf l'. destruct (timer_func_done _ _ _ _ _ _ Hcb) as [H1 H2].
  assert (Hd : dispatched_to base s1 (dispatch_update fuel t res s1) l').
  { unfold l'. destruct (Z.eqb_spec res SF_DONE) as [->|Hne].
    - apply dispatch_done; auto.
    - apply dispatch_reschedule; auto. }
  destruct Hd as (s' & E & Hi & Hw & Hst). exists s'. split_and!; [|done..].
  unfold sched_timer_dispatch, bind, gets. rewrite (inv_head _ _ _ Hinv). cbn [hd].
  by rewrite Hcb, E, Hw.
Qed.

(** One timer dispatch.  Whatever the callback of the first timer did, as
    long as it left the other timers well linked, the dispatcher returns the
    wake time of the timer that is now first; the timer is gone if the callback
    returned SF_DONE and otherwise is back in its sorted place, although the
    search for that place starts at the last inserted timer. *)
Theorem sched_timer_dispatch_refines base freq fuel user s t l res s1 l1 :
  sched_inv base s (t :: l) -> timer_func freq user t s = Ret res s1 ->
  sched_running base s1 t l1 -> (length l1 < fuel)%nat ->
  let l' := if res =? SF_DONE then l1 else insert_sorted (wkey base s1) t l1 in
  exists s', sched_timer_dispatch freq fuel user s = Ret (wake s' (hd T_sentinel l')) s' /\
    sched_inv base s' l' /\ (forall u, wake s' u = wake s1 u) /\ same_status s1 s'.
Proof. apply dispatch_running. Qed.

(** *** The callbacks of sched.c and simple user callbacks keep the list linked *)

Lemma running_set_waketime base s n l w :
  sched_running base s (T_user n) l -> in_window base w ->
  sched_running base (s <| timers ::= set_waketime (T_user n) w |>) (T_user n) l.
Proof.
  intros [] Hw. set (m := set_waketime (T_user n) w (timers s)).
  assert (Hm : forall u, u <> T_user n -> waketime (m u) = wake s u).
  { intros u Hu. unfold m. by rewrite waketime_set_waketime_ne. }
  assert (Hn : forall u, next (m u) = nxt s u) by (intros; unfold m; apply next_set_waketime).
  pose proof run_nodup0 as [Hnl _]%NoDup_cons. apply Forall_cons in run_window0 as [_ Hl].
  constructor; cbn [timers timer_list last_insert set]; try done; fold m.
  - apply (linked_ext (timers s)); [|done]. intros u _. apply Hn.
  - apply (sorted_ext (wkey base s)); [|done]. intros u Hu. rewrite Hm; [done|]. by intros ->.
  - constructor; [unfold m; by rewrite waketime_set_waketime_eq|].
    rewrite Forall_forall in *. intros u Hu. rewrite Hm; [by apply Hl|]. by intros ->.
Qed.

Lemma running_periodic base freq s l :
  sched_running base s T_periodic l ->
  in_window base (u32 (wake s T_periodic + timer_from_us freq 100000)) ->
  exists s1, periodic_event freq s = Ret SF_RESCHEDULE s1 /\
    sched_running base s1 T_periodic l /\
    wake s1 T_periodic = u32 (wake s T_periodic + timer_from_us freq 100000) /\
    (forall u, u <> T_periodic -> u <> T_sentinel -> wake s1 u = wake s u) /\
    tasks_status s1 = TS_REQUESTED.
Proof.
  intros [] Hw. unfold periodic_event, sched_wake_tasks. cbn [timers set].
  set (w := u32 (wake s T_periodic + timer_from_us freq 100000)) in *.
  eexists. split; [done|]. cbn [timers set].
  set (m := set_waketime T_sentinel _ _).
  assert (Hp : waketime (m T_periodic) = w) by (unfold m; by autorewrite with mem).
  assert (Hm : forall u, u <> T_periodic -> u <> T_sentinel -> waketime (m u) = wake s u).
  { intros u H1 H2. unfold m. by autorewrite with mem. }
  assert (Hs : waketime (m T_sentinel) = u32 (w + 0x80000000)).
  { unfold m. by autorewrite with mem. }
  assert (Hn : forall u, next (m u) = nxt s u) by (intros; unfold m; by autorewrite with mem).
  pose proof run_nodup0 as [Hnl _]%NoDup_cons. apply Forall_cons in run_window0 as [_ Hl].
  assert (Hms : forall u, u ∈ l -> waketime (m u) = wake s u).
  { intros u Hu. apply Hm; intros ->; [done|]. apply run_no_sentinel0. set_solver. }
  split_and!; [|done..]. constructor; cbn [timers timer_list last_insert set]; try done.
  - apply (linked_ext (timers s)); [|done]. intros u _. apply Hn.
  - apply (sorted_ext (wkey base s)); [|done]. intros u Hu. by rewrite Hms.
  - constructor; [by rewrite Hp|]. rewrite Forall_forall in *. intros u Hu. rewrite Hms; auto.
Qed.

(** ** Reset *)

Lemma sched_timer_reset_inv base s :
  nxt s T_sentinel = None -> wake s T_sentinel = u32 (wake s T_periodic + 0x80000000) ->
  in_window base (wake s T_periodic) ->
  sched_inv base (sched_timer_reset s) [T_deleted; T_periodic].
Proof.
  intros Hsn Hsw Hp. unfold sched_timer_reset. cbn [timers set].
  set (m := set_next T_periodic _ _).
  assert (Hd : waketime (m T_deleted) = wake s T_periodic) by (unfold m; by autorewrite with mem).
  assert (Hm : forall u, u <> T_deleted -> waketime (m u) = wake s u).
  { intros u Hu. unfold m. by autorewrite with mem. }
  constructor; cbn [timers timer_list last_insert set tail].
  - done.
  - unfold m. cbn [linked hd]. split_and!; [by autorewrite with mem..|done].
  - repeat constructor; set_solver.
  - set_solver.
  - set_solver.
  - set_solver.
  - cbn [sorted]. rewrite Hd, Hm by done. split_and!; [constructor; [|constructor]|constructor|done].
    rewrite Hm by done. lia.
  - repeat constructor; by rewrite ?Hd, ?Hm.
  - unfold m. by autorewrite with mem.
  - by rewrite !Hm.
  - set_solver.
  - done.
Qed.

Lemma sched_init_inv : sched_inv 0 sched_init [T_periodic].
Proof.
  constructor; cbn [sched_init timers timer_list last_insert tail]; try done; try set_solver.
  - repeat constructor; set_solver.
  - by repeat constructor.
Qed.

(** ** Callbacks

    While the callback of the first timer runs, it may remove other timers and
    add idle ones behind itself: end stops and triggers remove the timers of the
    steppers they stop. *)

Section running.
Context (base : Z) (s : sched) (n : nat) (l : list tid).
Let t := T_user n.
Context (Hrun : sched_running base s t l).

(** Unlinking timers behind the running one. *)
Lemma running_sublist m' l' li :
  l' `sublist_of` l -> (forall u, waketime (m' u) = wake s u) -> next (m' T_sentinel) = nxt s T_sentinel ->
  linked m' (t :: l') -> T_periodic ∈ l' -> li ∈ t :: l' -> li <> T_deleted ->
  sched_running base (s <| timers := m' |> <| last_insert := li |>) t l'.
Proof.
  intros Hsub Hw Hsn Hlk Hper Hli Hlid. pose proof Hrun as [].
  assert (Hin : forall u, u ∈ t :: l' -> u ∈ t :: l).
  { intros u. rewrite !elem_of_cons. intros [->|Hu]; [by left|right]. by eapply elem_of_sublist. }
  constructor; cbn; try done.
  - eapply sublist_NoDup; [exact run_nodup0|by constructor].
  - intros ?%Hin. done.
  - by right.
  - intros Hd. apply run_deleted0. by eapply elem_of_sublist.
  - apply (sorted_ext (wkey base s)); [intros u _; by rewrite Hw|]. by eapply sorted_sublist.
  - rewrite Forall_forall in *. intros u Hu. rewrite Hw. auto.
  - by rewrite Hsn.
  - by rewrite !Hw.
Qed.

Lemma running_del m fuel :
  m <> n -> (length l + 1 < fuel)%nat ->
  exists s', sched_del_timer fuel (T_user m) s = Ret tt s' /\ sched_running base s' t (remove_timer (T_user m) l) /\
    (forall u, wake s' u = wake s u).
Proof.
  intros Hm Hf. pose proof running_sublist as Hsubl. pose proof Hrun as []. unfold sched_del_timer. rewrite run_head0, decide_False by (intros [=]; done).
  assert (Hp : T_periodic ∈ remove_timer (T_user m) l).
  { unfold remove_timer. apply list_elem_of_filter. split; [done|]. rewrite elem_of_cons in run_periodic0. by destruct run_periodic0. }
  assert (Hli : forall l', (forall u, u ∈ t :: l -> u <> T_user m -> u ∈ t :: l') -> T_periodic ∈ l' ->
    (if decide (last_insert s = T_user m) then T_periodic else last_insert s) ∈ t :: l' /\
    (if decide (last_insert s = T_user m) then T_periodic else last_insert s) <> T_deleted).
  { intros l' Hl' Hpl. case_decide; [split; [by right|done]|]. split; [by apply Hl'|done]. }
  destruct (decide (T_user m ∈ l)) as [Hin|Hnin].
  - apply list_elem_of_split in Hin as (la & lb & El). rewrite El in *.
    pose proof run_nodup0 as Hnd. change (t :: la ++ T_user m :: lb) with ((t :: la) ++ T_user m :: lb) in Hnd.
    apply NoDup_app in Hnd as (_ & Hd1 & Hd2). apply NoDup_cons in Hd2 as [Hmb _].
    assert (Hma : T_user m ∉ la) by (intros H; apply (Hd1 (T_user m)); [by right|by left]).
    destruct (del_timer_loop_present (timers s) t la (T_user m) lb fuel) as (l0 & prev & Hl0 & ->);
      [done|done|rewrite length_app in Hf; cbn in Hf; lia|].
    rewrite remove_timer_split in * by done.
    assert (Hl1 : t :: la ++ T_user m :: lb = l0 ++ prev :: T_user m :: lb).
    { change (t :: la ++ T_user m :: lb) with ((t :: la) ++ T_user m :: lb). by rewrite Hl0, <- app_assoc. }
    assert (Hl2 : t :: la ++ lb = l0 ++ prev :: lb).
    { change (t :: la ++ lb) with ((t :: la) ++ lb). by rewrite Hl0, <- app_assoc. }
    destruct (Hli (la ++ lb)) as [L1 L2]; [set_solver|done|].
    eexists. split; [done|]. split; [|intros u; cbn [last_insert set]; case_decide; cbn; by autorewrite with mem].
    assert (Hr : sched_running base (s <| timers := set_next prev (next (timers s (T_user m))) (timers s) |>
      <| last_insert := if decide (last_insert s = T_user m) then T_periodic else last_insert s |>) t (la ++ lb)).
    { apply Hsubl; [|intros u; apply waketime_set_next| | |done..].
      - apply sublist_app; [done|by constructor].
      - rewrite next_set_next_ne; [done|]. intros ->. apply run_no_sentinel0. rewrite Hl1, elem_of_app, elem_of_cons. auto.
      - rewrite Hl2. apply linked_remove; by rewrite <- Hl1. }
    cbn [last_insert set]. revert Hr. case_decide; by destruct s.
  - rewrite (del_timer_loop_absent _ t l) by done. rewrite remove_timer_absent in * by done.
    rewrite decide_False; cbn [last_insert set].
    + eexists. split; [done|]. split; [|done]. by destruct s.
    + intros E. rewrite E, elem_of_cons in run_last_insert0. destruct run_last_insert0 as [[=]|]; [by subst|done].
Qed.

Lemma running_add m now fuel :
  T_user m ∉ t :: l -> in_window base (wake s (T_user m)) -> timer_is_before (wake s (T_user m)) (wake s t) = false ->
  (length l < fuel)%nat ->
  exists s', sched_add_timer fuel now (T_user m) s = Ret tt s' /\
    sched_running base s' t (insert_sorted (wkey base s) (T_user m) l) /\ (forall u, wake s' u = wake s u).
Proof.
  intros Hm Hw Hb Hf. pose proof Hrun as []. unfold sched_add_timer. rewrite run_head0, Hb. unfold insert_timer.
  pose proof run_window0 as [_ Hlw]%Forall_cons.
  assert (Hp : T_periodic ∈ l) by (rewrite elem_of_cons in run_periodic0; by destruct run_periodic0).
  destruct (insert_timer_loop_spec base (timers s) t l (wake s (T_user m)) fuel) as (l0 & prev & l2 & E & Hs & Hle & Hgt);
    [done|done|done| |done|by left|done|].
  { rewrite Forall_forall in run_window0. by apply run_window0. }
  rewrite E. eexists. split; [done|]. split; [|intros u; cbn; by autorewrite with mem].
  assert (Hins : t :: insert_sorted (wkey base s) (T_user m) l = l0 ++ prev :: T_user m :: l2).
  { destruct l0 as [|x l0]; cbn in Hs; injection Hs as -> ->; cbn [app tail] in *.
    - by rewrite (insert_sorted_split _ _ [] l2).
    - f_equal. change (l0 ++ prev :: l2) with (l0 ++ [prev] ++ l2). rewrite app_assoc.
      rewrite insert_sorted_split by done. by rewrite <- app_assoc. }
  assert (Hpm : insert_sorted (wkey base s) (T_user m) l ≡ₚ T_user m :: l) by apply insert_sorted_perm.
  constructor; cbn [timers timer_list last_insert set]; try done.
  - rewrite Hins. apply linked_insert; by rewrite <- Hs.
  - rewrite Hpm. rewrite NoDup_cons in run_nodup0 |- *. rewrite NoDup_cons. destruct run_nodup0. set_solver.
  - rewrite Hpm. set_solver.
  - rewrite Hpm. set_solver.
  - rewrite Hpm. set_solver.
  - apply (sorted_ext (wkey base s)); [intros u _; by autorewrite with mem|]. by apply insert_sorted_sorted.
  - rewrite Hpm. rewrite Forall_forall in *. intros u Hu. rewrite !waketime_set_next. rewrite !elem_of_cons in Hu.
    destruct Hu as [->|[->|Hu]]; [apply run_window0; by left|done|by apply Hlw].
  - rewrite !next_set_next_ne; [done| |].
    + done.
    + intros ->. apply run_no_sentinel0. rewrite Hs, elem_of_app, elem_of_cons. auto.
  - by rewrite !waketime_set_next.
  - rewrite Hpm. set_solver.
Qed.
End running.

(** ** Reachable states

    One step of the machine as the timer list sees it.  [P] is the set of timers
    of other objects that are scheduled, as their owners see it: added and since
    then neither removed nor finished by their callback.  The premises are what
    the callers of sched.c must respect: a timer's wake time is only written while
    it is not scheduled or while its own callback runs, only timers that are not
    scheduled are added, and wake times lie within 2^31 ticks. *)

Definition same_timers (s s' : sched) : Prop :=
  timers s' = timers s /\ timer_list s' = timer_list s /\ last_insert s' = last_insert s.

(** One action of the callback of timer [n].  It does not remove its own timer,
    and a timer it adds is not before the time at which it is known to be next. *)
Inductive callback_step (base : Z) (n : nat) : gset nat * sched -> gset nat * sched -> Prop :=
| cb_wake P s w :
    in_window base w -> callback_step base n (P, s) (P, s <| timers ::= set_waketime (T_user n) w |>)
| cb_write P s m w :
    m ∉ P -> callback_step base n (P, s) (P, s <| timers ::= set_waketime (T_user m) w |>)
| cb_add P s m now fuel s' :
    m ∉ P -> in_window base (wake s (T_user m)) -> timer_is_before (wake s (T_user m)) (wake s (T_user n)) = false ->
    sched_add_timer fuel now (T_user m) s = Ret tt s' -> callback_step base n (P, s) ({[m]} ∪ P, s')
| cb_del P s m fuel s' :
    m <> n -> sched_del_timer fuel (T_user m) s = Ret tt s' -> callback_step base n (P, s) (P ∖ {[m]}, s')
| cb_status P s s' : same_timers s s' -> callback_step base n (P, s) (P, s').

Inductive sched_step (freq : Z) : Z * gset nat * sched -> Z * gset nat * sched -> Prop :=
| step_write base P s n w :
    n ∉ P -> sched_step freq (base, P, s) (base, P, s <| timers ::= set_waketime (T_user n) w |>)
| step_add base P s n now fuel s' :
    n ∉ P -> in_window base (wake s (T_user n)) ->
    sched_add_timer fuel now (T_user n) s = Ret tt s' -> sched_step freq (base, P, s) (base, {[n]} ∪ P, s')
| step_del base P s n fuel s' :
    sched_del_timer fuel (T_user n) s = Ret tt s' -> sched_step freq (base, P, s) (base, P ∖ {[n]}, s')
| step_dispatch base P s fuel user n res s1 P1 nw s' :
    (* the callback of an object's timer *)
    timer_list s = T_user n -> user n s = Ret res s1 -> rtc (callback_step base n) (P, s) (P1, s1) ->
    sched_timer_dispatch freq fuel user s = Ret nw s' ->
    sched_step freq (base, P, s) (base, if res =? SF_DONE then P1 ∖ {[n]} else P1, s')
| step_static base P s fuel user nw s' :
    (* the periodic or the deleted timer *)
    (forall n, timer_list s <> T_user n) -> in_window base (u32 (wake s T_periodic + timer_from_us freq 100000)) ->
    sched_timer_dispatch freq fuel user s = Ret nw s' -> sched_step freq (base, P, s) (base, P, s')
| step_status base P s s' : same_timers s s' -> sched_step freq (base, P, s) (base, P, s')
| step_reset base P s : sched_step freq (base, P, s) (base, ∅, sched_timer_reset s)
| step_time base P s d :
    (* the clock reaches a time no later than the first timer *)
    0 <= d <= key base (wake s (timer_list s)) -> sched_step freq (base, P, s) (base + d, P, s).

(** The list holds exactly the timers that are scheduled. *)
Definition holds (P : gset nat) (l : list tid) : Prop := forall n, T_user n ∈ l <-> n ∈ P.
Definition sched_ok (base : Z) (P : gset nat) (s : sched) : Prop := exists l, sched_inv base s l /\ holds P l.

Lemma sched_inv_write base s l n w :
  sched_inv base s l -> T_user n ∉ l ->
  sched_inv base (s <| timers ::= set_waketime (T_user n) w |>) l.
Proof.
  intros [] Hn. set (m := set_waketime (T_user n) w (timers s)).
  assert (Hm : forall u, u <> T_user n -> waketime (m u) = wake s u).
  { intros u Hu. unfold m. by rewrite waketime_set_waketime_ne by congruence. }
  constructor; cbn [timers timer_list last_insert set]; try done; fold m.
  - apply (linked_ext (timers s)); [|done]. intros u _. unfold m. apply next_set_waketime.
  - apply (sorted_ext (wkey base s)); [|done]. intros u Hu. rewrite Hm; [done|]. by intros ->.
  - rewrite Forall_forall in *. intros u Hu. rewrite Hm; [auto|]. by intros ->.
Qed.

Lemma sched_inv_time base s l d :
  sched_inv base s l -> 0 <= d <= key base (wake s (timer_list s)) ->
  sched_inv (base + d) s l.
Proof.
  intros Hinv Hd. destruct (sched_inv_cons _ _ _ Hinv) as (h & l1 & El & Hh).
  pose proof Hinv as []. rewrite Hh in Hd.
  assert (Hk : forall u, u ∈ l -> key (base + d) (wake s u) = key base (wake s u) - d).
  { intros u Hu. apply key_shift. split; [lia|]. rewrite El in *.
    destruct inv_sorted0 as [Hs _]. rewrite elem_of_cons in Hu.
    destruct Hu as [->|Hu]; [lia|]. rewrite Forall_forall in Hs. specialize (Hs u Hu). cbn in Hs. lia. }
  constructor; try done.
  - clear -inv_sorted0 Hk. induction l as [|x l IH]; cbn in *; [done|].
    destruct inv_sorted0 as [HF HS]. split; [|apply IH; [done|set_solver]].
    rewrite Forall_forall in *. intros u Hu. rewrite !Hk by set_solver. specialize (HF u Hu). lia.
  - rewrite Forall_forall in *. intros u Hu. unfold in_window in *. rewrite Hk by done.
    specialize (inv_window0 u Hu). lia.
Qed.

(** Results do not depend on the fuel beyond what is needed. *)
Lemma insert_timer_loop_fuel f1 f2 m p w r :
  insert_timer_loop f1 m p w = Some r -> (f1 <= f2)%nat -> insert_timer_loop f2 m p w = Some r.
Proof.
  revert p f2. induction f1 as [|f1 IH]; intros p f2; cbn; [done|]. intros H Hf.
  destruct f2 as [|f2]; [lia|]. cbn. destruct (next (m p)); [|done].
  destruct (timer_is_before _ _); [done|]. apply IH; [done|lia].
Qed.

Lemma del_timer_loop_fuel f1 f2 m p d r :
  del_timer_loop f1 m p d = Some r -> (f1 <= f2)%nat -> del_timer_loop f2 m p d = Some r.
Proof.
  revert p f2. induction f1 as [|f1 IH]; intros p f2; cbn; [done|]. intros H Hf.
  destruct f2 as [|f2]; [lia|]. cbn. destruct (next (m p)); [|done].
  destruct (decide _); [done|]. apply IH; [done|lia].
Qed.

Lemma insert_timer_fuel f1 f2 p t w s r s' :
  insert_timer f1 p t w s = Ret r s' -> (f1 <= f2)%nat -> insert_timer f2 p t w s = Ret r s'.
Proof.
  unfold insert_timer. destruct (insert_timer_loop f1 _ p w) as [r1|] eqn:E; [|done].
  intros H Hf. by rewrite (insert_timer_loop_fuel _ _ _ _ _ _ E Hf).
Qed.

Lemma sched_add_timer_fuel f1 f2 now t s s' :
  sched_add_timer f1 now t s = Ret tt s' -> (f1 <= f2)%nat -> sched_add_timer f2 now t s = Ret tt s'.
Proof.
  unfold sched_add_timer. destruct (timer_is_before _ (wake s (timer_list s))); [done|].
  apply insert_timer_fuel.
Qed.

Lemma sched_del_timer_fuel f1 f2 t s s' :
  sched_del_timer f1 t s = Ret tt s' -> (f1 <= f2)%nat -> sched_del_timer f2 t s = Ret tt s'.
Proof.
  unfold sched_del_timer. case_decide; [done|].
  destruct (del_timer_loop f1 _ _ t) as [r1|] eqn:E; [|done].
  intros H1 Hf. by rewrite (del_timer_loop_fuel _ _ _ _ _ _ E Hf).
Qed.

Lemma dispatch_update_fuel f1 f2 t res s r s' :
  dispatch_update f1 t res s = Ret r s' -> (f1 <= f2)%nat -> dispatch_update f2 t res s = Ret r s'.
Proof.
  unfold dispatch_update. destruct (nxt s t); [|done]. destruct (res =? SF_DONE); [done|].
  destruct (negb _); [|done]. unfold bind.
  destruct (insert_timer f1 _ _ _ _) as [a s1| |] eqn:E; [|done..].
  intros H Hf. by rewrite (insert_timer_fuel _ _ _ _ _ _ _ _ E Hf).
Qed.

Lemma sched_timer_dispatch_fuel freq f1 f2 user s r s' :
  sched_timer_dispatch freq f1 user s = Ret r s' -> (f1 <= f2)%nat ->
  sched_timer_dispatch freq f2 user s = Ret r s'.
Proof.
  unfold sched_timer_dispatch, bind, gets.
  destruct (timer_func freq user (timer_list s) s); [|done..]. apply dispatch_update_fuel.
Qed.

(** *** The steps keep the list *)

Lemma holds_pending P l : holds P l -> holds P (pending l).
Proof.
  intros Hl n. rewrite <- (Hl n). split; [apply pending_subset|]. by apply pending_elem.
Qed.
Lemma holds_pending_inv P l : holds P (pending l) -> holds P l.
Proof. intros Hl n. rewrite <- (Hl n). split; [by apply pending_elem|apply pending_subset]. Qed.
Lemma holds_insert P k n l : holds P l -> holds ({[n]} ∪ P) (insert_sorted k (T_user n) l).
Proof. intros Hl m. rewrite insert_sorted_perm, elem_of_cons, (Hl m), elem_of_union, elem_of_singleton. by split; intros [[=]|]; auto. Qed.
Lemma holds_remove P n l : holds P l -> holds (P ∖ {[n]}) (remove_timer (T_user n) l).
Proof.
  intros Hl m. unfold remove_timer. rewrite list_elem_of_filter, (Hl m), elem_of_difference, elem_of_singleton.
  split; intros [H1 H2]; split; try done; congruence.
Qed.

Lemma ok_represents base s s' P q : represents base s s' q -> holds P q -> sched_ok base P s'.
Proof. intros (l' & Hi & <- & _) Hq. exists l'. split; [done|]. by apply holds_pending_inv. Qed.

Lemma ok_add base P s n now fuel s' :
  sched_ok base P s -> n ∉ P -> in_window base (wake s (T_user n)) ->
  sched_add_timer fuel now (T_user n) s = Ret tt s' -> sched_ok base ({[n]} ∪ P) s'.
Proof.
  intros (l & Hi & Hl) Hn Hw H. apply (sched_add_timer_fuel _ (max fuel (length l))) in H; [|lia].
  assert (Ht : T_user n ∉ l) by (by rewrite (Hl n)).
  destruct (add_timer_cases base s l n now (max fuel (length l)) Hi Ht Hw ltac:(lia)) as [E|(s1 & E & Hr)];
    rewrite E in H; [done|]. injection H as <-. eapply ok_represents; [done|]. by apply holds_insert, holds_pending.
Qed.

Lemma ok_del base P s n fuel s' :
  sched_ok base P s -> sched_del_timer fuel (T_user n) s = Ret tt s' -> sched_ok base (P ∖ {[n]}) s'.
Proof.
  intros (l & Hi & Hl) H. apply (sched_del_timer_fuel _ (max fuel (S (length l)))) in H; [|lia].
  destruct (del_timer_ok base s l n (max fuel (S (length l))) Hi ltac:(lia)) as (s1 & E & Hr).
  rewrite E in H. injection H as <-. eapply ok_represents; [done|]. by apply holds_remove, holds_pending.
Qed.

Lemma ok_write base P s n w :
  sched_ok base P s -> n ∉ P -> sched_ok base P (s <| timers ::= set_waketime (T_user n) w |>).
Proof. intros (l & Hi & Hl) Hn. exists l. split; [|done]. apply sched_inv_write; [done|]. by rewrite (Hl n). Qed.

(** While the callback of [n] runs. *)
Definition running_ok (base : Z) (P : gset nat) (n : nat) (s : sched) : Prop :=
  exists l, sched_running base s (T_user n) l /\ holds P (T_user n :: l).

Lemma running_same base s s' t l : same_timers s s' -> sched_running base s t l -> sched_running base s' t l.
Proof. intros (E1 & E2 & E3) []. constructor; by rewrite ?E1, ?E2, ?E3. Qed.

Lemma running_write base s n l m w :
  sched_running base s (T_user n) l -> T_user m ∉ T_user n :: l ->
  sched_running base (s <| timers ::= set_waketime (T_user m) w |>) (T_user n) l.
Proof.
  intros [] Hm. set (m' := set_waketime (T_user m) w (timers s)).
  assert (Hw : forall u, u <> T_user m -> waketime (m' u) = wake s u).
  { intros u Hu. unfold m'. by rewrite waketime_set_waketime_ne by congruence. }
  constructor; cbn [timers timer_list last_insert set]; try done; fold m'.
  - apply (linked_ext (timers s)); [|done]. intros u _. unfold m'. apply next_set_waketime.
  - apply (sorted_ext (wkey base s)); [|done]. intros u Hu. rewrite Hw; [done|]. intros ->. set_solver.
  - rewrite Forall_forall in *. intros u Hu. rewrite Hw; [auto|]. intros ->. set_solver.
Qed.

Lemma callback_step_ok base n a b :
  callback_step base n a b -> running_ok base a.1 n a.2 -> running_ok base b.1 n b.2.
Proof.
  destruct 1 as [P s w Hw|P s m w Hm|P s m now fuel s' Hm Hw Hb E|P s m fuel s' Hm E|P s s' Hs]; cbn [fst snd]; intros (l & Hr & Hl).
  - exists l. split; [|done]. by apply running_set_waketime.
  - exists l. split; [|done]. apply running_write; [done|]. by rewrite (Hl m).
  - assert (Ht : T_user m ∉ T_user n :: l) by (by rewrite (Hl m)).
    destruct (running_add base s n l Hr m now (max fuel (S (length l))) Ht Hw Hb ltac:(lia)) as (s1 & E1 & Hr1 & _).
    apply (sched_add_timer_fuel _ (max fuel (S (length l)))) in E; [|lia]. rewrite E in E1. injection E1 as <-.
    eexists. split; [exact Hr1|]. intros k. specialize (Hl k). rewrite elem_of_cons in Hl |- *.
    rewrite insert_sorted_perm, elem_of_cons, elem_of_union, elem_of_singleton, <- Hl.
    split; [intros [?|[[=]|?]]; auto|intros [->|[?|?]]; auto].
  - destruct (running_del base s n l Hr m (max fuel (S (S (length l)))) Hm ltac:(lia)) as (s1 & E1 & Hr1 & _).
    apply (sched_del_timer_fuel _ (max fuel (S (S (length l))))) in E; [|lia]. rewrite E in E1. injection E1 as <-.
    eexists. split; [exact Hr1|]. intros k. specialize (Hl k). rewrite elem_of_cons in Hl |- *.
    unfold remove_timer. rewrite list_elem_of_filter, elem_of_difference, elem_of_singleton, <- Hl.
    split; [intros [[= ->]|[H1 ?]]; split; auto; congruence|intros [[?|?] H2]; [by left|right; split; [congruence|done]]].
  - exists l. split; [by eapply running_same|done].
Qed.

Lemma callback_ok base n a b :
  rtc (callback_step base n) a b -> running_ok base a.1 n a.2 -> running_ok base b.1 n b.2.
Proof. induction 1; eauto using callback_step_ok. Qed.

(** Dispatching an object's timer. *)
Lemma ok_dispatch base freq fuel user P s n res s1 P1 nw s' :
  sched_ok base P s -> timer_list s = T_user n -> user n s = Ret res s1 -> rtc (callback_step base n) (P, s) (P1, s1) ->
  sched_timer_dispatch freq fuel user s = Ret nw s' -> sched_ok base (if res =? SF_DONE then P1 ∖ {[n]} else P1) s'.
Proof.
  intros (l & Hi & Hl) Ht Hu Hc Hd. destruct (sched_inv_cons _ _ _ Hi) as (t & l1 & -> & Et). rewrite Et in Ht. subst t.
  destruct (callback_ok _ _ _ _ Hc) as (l2 & Hr & Hl2); [exists l1; split; [by apply sched_inv_running|done]|]. cbn [fst snd] in *.
  destruct (dispatch_running base freq (max fuel (S (length l2))) user s (T_user n) l1 res s1 l2) as (s2 & E2 & Hi2 & _);
    [done|done|done|lia|].
  rewrite (sched_timer_dispatch_fuel _ _ _ _ _ _ _ Hd) in E2 by lia. injection E2 as -> ->.
  eexists. split; [exact Hi2|]. pose proof (run_nodup _ _ _ _ Hr) as [Hn _]%NoDup_cons.
  destruct (res =? SF_DONE); intros k; specialize (Hl2 k); rewrite elem_of_cons in Hl2.
  - rewrite elem_of_difference, elem_of_singleton, <- Hl2. split; [intros Hk; split; [by right|]|intros [[[= ->]|] ?]; done]. by intros ->.
  - rewrite insert_sorted_perm, elem_of_cons. done.
Qed.

Lemma ok_static base freq fuel user P s nw s' :
  sched_ok base P s -> (forall n, timer_list s <> T_user n) ->
  in_window base (u32 (wake s T_periodic + timer_from_us freq 100000)) ->
  sched_timer_dispatch freq fuel user s = Ret nw s' -> sched_ok base P s'.
Proof.
  intros (l & Hi & Hl) Ht Hp Hd. destruct (sched_inv_cons _ _ _ Hi) as (t & l1 & -> & Et).
  pose proof (sched_inv_running _ _ _ _ Hi) as Hrun.
  assert (Hcb : exists r s1, timer_func freq user t s = Ret r s1 /\ sched_running base s1 t l1).
  { destruct t as [| | |n].
    - destruct (running_periodic _ freq _ _ Hrun Hp) as (s1 & E & Hr & _). eauto.
    - exfalso. apply (inv_no_sentinel _ _ _ Hi). set_solver.
    - exists SF_DONE, s. done.
    - by destruct (Ht n). }
  destruct Hcb as (r & s1 & Ecb & Hr).
  destruct (dispatch_running base freq (max fuel (S (length l1))) user s t l1 r s1 l1) as (s2 & E2 & Hi2 & _); [done..|lia|].
  rewrite (sched_timer_dispatch_fuel _ _ _ _ _ _ _ Hd) in E2 by lia. injection E2 as -> ->.
  eexists. split; [exact Hi2|]. intros k. rewrite <- (Hl k), elem_of_cons.
  assert (T_user k <> t) by (intros <-; by destruct (Ht k)).
  destruct (r =? SF_DONE); [by split; [right|intros [|]]|]. by rewrite insert_sorted_perm, elem_of_cons.
Qed.

Lemma sched_step_ok freq a b :
  sched_step freq a b -> sched_ok a.1.1 a.1.2 a.2 -> sched_ok b.1.1 b.1.2 b.2.
Proof.
  destruct 1; cbn [fst snd]; intros Hok.
  - by apply ok_write.
  - by eapply ok_add.
  - by eapply ok_del.
  - by eapply ok_dispatch.
  - by eapply ok_static.
  - destruct Hok as (l & Hi & Hl). exists l. split; [|done]. destruct H as (E1 & E2 & E3), Hi. constructor; by rewrite ?E1, ?E2, ?E3.
  - destruct Hok as (l & Hi & Hl). eexists. split.
    + destruct Hi. apply sched_timer_reset_inv; [done..|]. rewrite Forall_forall in inv_window0. by apply inv_window0.
    + intros n. rewrite !elem_of_cons. split; [by intros [[=]|[[=]|?%not_elem_of_nil]]|set_solver].
  - destruct Hok as (l & Hi & Hl). exists l. split; [by apply sched_inv_time|done].
Qed.

Lemma holds_length base P s l : sched_inv base s l -> holds P l -> (length l <= size P + 2)%nat.
Proof.
  intros Hi Hl. assert (Hs : l ⊆+ T_periodic :: T_deleted :: (T_user <$> elements P)).
  { apply NoDup_submseteq; [apply Hi|]. intros [| | |n] Hu; [by left| |by right; left|].
    - by destruct (inv_no_sentinel _ _ _ Hi).
    - right; right. apply list_elem_of_fmap_2, elem_of_elements. by apply Hl. }
  apply submseteq_length in Hs. cbn [length] in Hs. rewrite length_fmap in Hs. unfold size, set_size. cbn. lia.
Qed.

Lemma sched_reachable_ok freq base P s :
  rtc (sched_step freq) (0, ∅, sched_init) (base, P, s) -> sched_ok base P s.
Proof.
  intros Hr. change (sched_ok (base, P, s).1.1 (base, P, s).1.2 (base, P, s).2). revert Hr. generalize (base, P, s). apply rtc_ind_r.
  - exists [T_periodic]. split; [apply sched_init_inv|]. intros n. cbn. set_solver.
  - intros a b _ Hs Ha. by eapply sched_step_ok.
Qed.

(** C9: the timer list is never corrupted.  In every state the scheduler can
    reach from its static initialiser by writing wake times of idle timers,
    adding, removing, dispatching, resetting and letting time pass, where
    callbacks may themselves remove other timers and add timers behind
    themselves, the links from [timer_list] lead through distinct timers sorted by
    wake time to the sentinel.  They are exactly the timers that were added and
    neither removed nor finished since, beside the scheduler's own, so the sentinel
    is never dispatched, and calls end within as many steps as there are timers. *)
Theorem sched_reachable_inv freq base P s :
  rtc (sched_step freq) (0, ∅, sched_init) (base, P, s) ->
  (exists l, sched_inv base s l /\ (forall n, T_user n ∈ l <-> n ∈ P)) /\ timer_list s <> T_sentinel /\
  (forall n fuel, (size P + 2 < fuel)%nat ->
     (exists s', sched_del_timer fuel (T_user n) s = Ret tt s') /\
     (forall now, n ∉ P -> in_window base (wake s (T_user n)) ->
        sched_add_timer fuel now (T_user n) s = Halt "Timer too close" s \/
        exists s', sched_add_timer fuel now (T_user n) s = Ret tt s')).
Proof.
  intros Hr. destruct (sched_reachable_ok _ _ _ _ Hr) as (l & Hi & Hl). pose proof (holds_length _ _ _ _ Hi Hl) as Hn.
  split; [by exists l|]. split.
  { destruct (sched_inv_cons _ _ _ Hi) as (t & l1 & -> & ->). intros ->. apply (inv_no_sentinel _ _ _ Hi). by left. }
  intros n fuel Hf. split.
  - destruct (del_timer_ok base s l n fuel Hi ltac:(lia)) as (s' & E & _). eauto.
  - intros now Hni Hw. destruct (add_timer_cases base s l n now fuel Hi ltac:(by rewrite (Hl n)) Hw ltac:(lia)) as [?|(s' & E & _)]; eauto.
Qed.

(** No call changes the wake time of another object's timer. *)
Lemma sched_add_timer_wake fuel now t s s' u :
  sched_add_timer fuel now t s = Ret tt s' -> u <> T_deleted -> wake s' u = wake s u.
Proof.
  unfold sched_add_timer, insert_timer, sched_try_shutdown. intros H Hu.
  destruct (timer_is_before _ (wake s (timer_list s))).
  - destruct (timer_is_before _ now); [destruct (negb _); [done|]|]; cbn in H; injection H as <-;
      cbn [timers timer_list set]; case_decide; by autorewrite with mem.
  - destruct (insert_timer_loop _ _ _ _) as [[prev pos]|]; [|done]. injection H as <-.
    cbn [timers set]. by autorewrite with mem.
Qed.

Lemma del_timer_loop_wake fuel m pos del m' u :
  del_timer_loop fuel m pos del = Some m' -> waketime (m' u) = waketime (m u).
Proof.
  revert pos. induction fuel as [|fuel IH]; intros pos; cbn; [done|].
  destruct (next (m pos)) as [n|]; [|by intros [= ->]]. case_decide; [|apply IH].
  intros [= <-]. by autorewrite with mem.
Qed.

Lemma sched_del_timer_wake fuel t s s' u :
  sched_del_timer fuel t s = Ret tt s' -> u <> T_deleted -> wake s' u = wake s u.
Proof.
  unfold sched_del_timer. intros H Hu. case_decide.
  - injection H as <-. case_decide; cbn [timers set]; by autorewrite with mem.
  - destruct (del_timer_loop _ _ _ _) as [m'|] eqn:E; [|done]. injection H as <-.
    case_decide; cbn [timers set]; by apply (del_timer_loop_wake _ _ _ _ _ u E).
Qed.

Lemma dispatch_update_wake fuel t res s nw s' u :
  dispatch_update fuel t res s = Ret nw s' -> wake s' u = wake s u.
Proof.
  unfold dispatch_update, insert_timer. destruct (nxt s t) as [n|]; [|done]. destruct (res =? SF_DONE).
  { injection 1 as _ <-. by case_decide. }
  destruct (negb _); [|by injection 1 as _ <-]. unfold bind, modify, ret.
  destruct (insert_timer_loop _ _ _ _) as [[prev pos]|]; [|done]. injection 1 as _ <-.
  cbn [timers set]. by autorewrite with mem.
Qed.

(** ** What the owner of a timer can rely on *)

Lemma linked_unique m l l' :
  linked m l -> linked m l' -> T_sentinel ∉ l -> T_sentinel ∉ l' -> hd T_sentinel l = hd T_sentinel l' -> l = l'.
Proof.
  revert l'. induction l as [|t l IH]; intros [|t' l'] H1 H2 N1 N2 E; cbn in *; [done|subst; set_solver..|].
  subst t'. f_equal. destruct H1 as [E1 H1], H2 as [E2 H2]. apply IH; [done|done|set_solver|set_solver|congruence].
Qed.

(** The set of scheduled timers is determined by the links in memory. *)
Lemma ok_unique base base' P P' s : sched_ok base P s -> sched_ok base' P' s -> P = P'.
Proof.
  intros (l & Hi & Hl) (l' & Hi' & Hl'). assert (l = l') as <-.
  { apply (linked_unique (timers s)); [apply Hi|apply Hi'|apply Hi|apply Hi'|].
    by rewrite <- (inv_head _ _ _ Hi), <- (inv_head _ _ _ Hi'). }
  apply set_eq. intros n. by rewrite <- (Hl n), <- (Hl' n).
Qed.

(** Timer [n] is on the list [timer_list] leads to, which is well formed. *)
Definition scheduled (base : Z) (s : sched) (n : nat) : Prop := exists P, sched_ok base P s /\ n ∈ P.

Lemma ok_scheduled base P s n : sched_ok base P s -> scheduled base s n <-> n ∈ P.
Proof. intros H. split; [|by exists P]. intros (P' & H' & Hn). by rewrite (ok_unique _ _ _ _ _ H H'). Qed.

Lemma scheduled_window base s n : scheduled base s n -> in_window base (wake s (T_user n)).
Proof. intros (P & (l & Hi & Hl) & Hn). pose proof (inv_window _ _ _ Hi) as H. rewrite Forall_forall in H. by apply H, Hl. Qed.

Lemma scheduled_head base s n :
  scheduled base s n -> key base (wake s (timer_list s)) <= key base (wake s (T_user n)).
Proof.
  intros (P & (l & Hi & Hl) & Hn). destruct (sched_inv_cons _ _ _ Hi) as (t & l1 & -> & ->).
  apply Hl in Hn. rewrite elem_of_cons in Hn. destruct Hn as [<-|Hn]; [done|].
  pose proof (inv_sorted _ _ _ Hi) as [H _]. rewrite Forall_forall in H. by apply H.
Qed.

Lemma ok_same base P s s' : same_timers s s' -> sched_ok base P s -> sched_ok base P s'.
Proof. intros H. by apply (sched_step_ok 0 (base, P, s) (base, P, s') (step_status _ _ _ _ _ H)). Qed.

Lemma ok_reset base P s : sched_ok base P s -> sched_ok base ∅ (sched_timer_reset s).
Proof. intros H. by apply (sched_step_ok 0 (base, P, s) (base, ∅, sched_timer_reset s) (step_reset _ _ _ _)). Qed.

Lemma ok_dispatch_update base fuel P s n res s1 nw s' :
  sched_ok base P s -> timer_list s = T_user n -> rtc (callback_step base n) (P, s) (P, s1) ->
  dispatch_update fuel (T_user n) res s1 = Ret nw s' ->
  sched_ok base (if res =? SF_DONE then P ∖ {[n]} else P) s'.
Proof.
  intros Hok Ht Hc Hd. apply (ok_dispatch base 0 fuel (fun _ _ => Ret res s1) P s n res s1 P nw); try done.
  unfold sched_timer_dispatch, bind, gets. by rewrite Ht.
Qed.

(** Steps only move the time forward, and not beyond a scheduled timer. *)
Lemma sched_step_time freq base P s base' P' s' n :
  sched_step freq (base, P, s) (base', P', s') -> sched_ok base P s -> n ∈ P ->
  exists d, base' = base + d /\ 0 <= d <= key base (wake s (T_user n)).
Proof.
  intros Hs Hok Hn. pose proof (u32_range (wake s (T_user n) - base)) as Hk. fold (key base (wake s (T_user n))) in Hk.
  inversion Hs; subst; try (exists 0; split; lia).
  exists d. split; [done|]. pose proof (scheduled_head base s' n) as Hh.
  rewrite (ok_scheduled _ _ _ n Hok) in Hh. specialize (Hh Hn). lia.
Qed.

(** ** Concrete runs *)

(** The initial state with the wake time of object timer [n] written. *)
Definition demo_write (n : nat) (w : Z) (s : sched) : sched :=
  s <| timers ::= set_waketime (T_user n) w |>.

Lemma demo_inv n w : sched_inv 0 (demo_write n w sched_init) [T_periodic].
Proof. apply sched_inv_write; [apply sched_init_inv|set_solver]. Qed.

Lemma sched_add_timer_refines_witness :
  let s := demo_write 0 500 sched_init in
  exists s', sched_add_timer 1 0 (T_user 0) s = Ret tt s' /\
    represents 0 s s' [T_periodic; T_user 0].
Proof.
  refine (sched_add_timer_refines 0 (demo_write 0 500 sched_init) [T_periodic] 0 0 1 (demo_inv 0 500) _ _ _).
  - set_solver.
  - done.
  - done.
Defined.

Lemma sched_del_timer_refines_witness :
  let s := demo_write 0 500 sched_init in
  exists s', sched_del_timer 2 (T_user 0) s = Ret tt s' /\ represents 0 s s' [T_periodic].
Proof.
  refine (sched_del_timer_refines 0 (demo_write 0 500 sched_init) [T_periodic] 0 2 (demo_inv 0 500) _).
  cbn. lia.
Defined.

Lemma sched_timer_dispatch_refines_witness :
  exists s', sched_timer_dispatch 1000000 1 (fun _ => ret SF_DONE) sched_init = Ret 100000 s' /\
    sched_inv 0 s' [T_periodic].
Proof.
  destruct (running_periodic 0 1000000 sched_init []) as (s1 & E & Hr & Hw & _).
  - apply sched_inv_running, sched_init_inv.
  - done.
  - destruct (sched_timer_dispatch_refines 0 1000000 1 (fun _ => ret SF_DONE) sched_init
      T_periodic [] SF_RESCHEDULE s1 [] sched_init_inv E Hr ltac:(cbn; lia)) as (s' & E' & Hi & Hw' & _).
    exists s'. split; [|exact Hi]. rewrite E'. cbn [hd insert_sorted Z.eqb SF_RESCHEDULE SF_DONE].
    rewrite Hw', Hw. done.
Defined.

(** Two timers are added, the periodic timer runs, then the callback of the first
    object removes the second one, which is next, and finishes. *)
Definition demo_user (n : nat) : M sched Z :=
  sched_del_timer 10 (T_user 4);;; ret SF_DONE.

Definition run_to {A} (c : M sched A) (s : sched) : sched :=
  match c s with Ret _ s' | Halt _ s' => s' | Crash _ => s end.

Lemma run_to_ret {A} (c : M sched A) (s : sched) :
  match c s with Ret _ _ => true | _ => false end = true -> exists a, c s = Ret a (run_to c s).
Proof. unfold run_to. destruct (c s); [eauto|done..]. Qed.

Definition demo_s1 : sched := demo_write 4 300 (demo_write 3 200 sched_init).
Definition demo_s2 : sched := run_to (sched_add_timer 10 0 (T_user 3)) demo_s1.
Definition demo_s3 : sched := run_to (sched_add_timer 10 0 (T_user 4)) demo_s2.
Definition demo_s4 : sched := run_to (sched_timer_dispatch 1000000 10 demo_user) demo_s3.
Definition demo_s5 : sched := run_to (sched_timer_dispatch 1000000 10 demo_user) demo_s4.

Definition demo_added : gset nat := {[4%nat]} ∪ ({[3%nat]} ∪ ∅).

Lemma demo_run :
  rtc (sched_step 1000000) (0, ∅, sched_init) (0, demo_added ∖ {[4%nat]} ∖ {[3%nat]}, demo_s5).
Proof.
  apply rtc_l with (0, ∅, demo_write 3 200 sched_init); [by apply step_write|].
  apply rtc_l with (0, ∅, demo_s1); [by apply step_write|].
  apply rtc_l with (0, {[3%nat]} ∪ ∅, demo_s2).
  { apply step_add with 0 10%nat; [done|by vm_compute|]. by destruct (run_to_ret (sched_add_timer 10 0 (T_user 3)) demo_s1 ltac:(by vm_compute)) as [[] ->]. }
  apply rtc_l with (0, demo_added, demo_s3).
  { apply step_add with 0 10%nat; [set_solver|by vm_compute|]. by destruct (run_to_ret (sched_add_timer 10 0 (T_user 4)) demo_s2 ltac:(by vm_compute)) as [[] ->]. }
  assert (T1 : timer_list demo_s3 = T_periodic) by (by vm_compute).
  assert (T2 : timer_list demo_s4 = T_user 3) by (by vm_compute).
  assert (W : in_window 0 (u32 (wake demo_s3 T_periodic + timer_from_us 1000000 100000))) by (by vm_compute).
  destruct (run_to_ret (sched_timer_dispatch 1000000 10 demo_user) demo_s3 ltac:(by vm_compute)) as [nw1 E1].
  destruct (run_to_ret (sched_timer_dispatch 1000000 10 demo_user) demo_s4 ltac:(by vm_compute)) as [nw2 E2].
  destruct (run_to_ret (sched_del_timer 10 (T_user 4)) demo_s4 ltac:(by vm_compute)) as [[] E].
  fold demo_s4 in E1. fold demo_s5 in E2. set (d := run_to _ demo_s4) in E. clearbody d.
  generalize dependent demo_s5. generalize dependent demo_s4. generalize dependent demo_s3.
  intros s3 T1 W s4 E1 T2 E s5 E2.
  apply rtc_l with (0, demo_added, s4); [apply (step_static _ 0 _ s3 10 demo_user nw1); [by rewrite T1|done..]|].
  apply rtc_once. eapply (step_dispatch _ 0 _ s4 10 demo_user 3 SF_DONE d); [done| |by apply rtc_once, cb_del with 10%nat|done].
  unfold demo_user, bind. by rewrite E.
Qed.

Lemma sched_reachable_inv_witness :
  (exists l, sched_inv 0 demo_s5 l /\
    (forall n, T_user n ∈ l <-> n ∈ demo_added ∖ {[4%nat]} ∖ {[3%nat]})) /\
  timer_list demo_s5 = T_periodic.
Proof.
  destruct (sched_reachable_inv 1000000 _ _ _ demo_run) as (H & _). split; [exact H|by vm_compute].
Defined.
