(* ===== verification/MainLoop.v ===== *)
(** * The main loop (src/sched.c, [run_tasks] and [sched_main])

    The loop that sleeps until a task is woken, runs the tasks and starts over
    after a shutdown.  Interrupt handlers run between its instructions whenever
    interrupts are enabled, and inside [irq_wait]. *)

From S2P Require Import Prelude Sched.

(** The scheduler, the [struct task_wake] of each task, and the rest of the
    machine. *)
Record core (W : Type) := mk_core {
  co_sched : sched;
  wakes : nat -> Z;
  rest : W }.
Arguments mk_core {W}. Arguments co_sched {W}. Arguments wakes {W}. Arguments rest {W}.
#[export] Instance eta_core W : Eta (core W) := fun c => mk_core (co_sched c) (wakes c) (rest c).

(** Where the processor is: at the start of [run_tasks], at the top of its loop,
    about to disable interrupts, at the second check, in the [irq_wait] loop,
    after it, before the tasks, in the tasks, in the body of a task, behind the tasks;
    or in [sched_main] on the way to [run_shutdown] and in the shutdown
    functions. *)
Inductive pc : Type :=
| Entry | Top | Going_idle | Recheck | Waiting | Wake_up | Tasks_start
| Running (todo : list nat) | Body (i : nat) (todo : list nat) | Stats
| Shutdown (reason : Z) | Shutdown_funcs.

Record main (W : Type) := mk_main {
  at_pc : pc;
  irq_enabled : bool;
  start_time : Z;
  the_core : core W }.
Arguments mk_main {W}. Arguments at_pc {W}. Arguments irq_enabled {W}. Arguments start_time {W}. Arguments the_core {W}.
#[export] Instance eta_main W : Eta (main W) := fun m => mk_main (at_pc m) (irq_enabled m) (start_time m) (the_core m).

Definition status {W} (c : core W) : Z := tasks_status (co_sched c).

(** The two halves of [run_shutdown], around the shutdown functions. *)
Definition shutdown_begin (reason : Z) (s : sched) : sched :=
  let s := if negb (truthy (shutdown_status s)) then s <| shutdown_reason := reason |> else s in
  sched_timer_reset (s <| shutdown_status := 2 |>).
Definition shutdown_end (s : sched) : sched := s <| shutdown_status := 1 |>.

Lemma run_shutdown_halves reason f s :
  run_shutdown reason f s = (f;;; modify shutdown_end) (shutdown_begin reason s).
Proof. reflexivity. Qed.

Section main.
Context {W : Type}.
(** The task functions, in the order of the generated [ctr_run_taskfuncs]; each
    one begins with [sched_check_wake] on its own [task_wake]. *)
Context (order : list nat).

(** The next instruction of the main thread; [now] is what [timer_read_time]
    returns.  In the body of a task and behind the tasks (where [stats_update]
    runs) the code itself is part of [code_step] below. *)
Definition run_tasks_step (now : Z) (m : main W) : main W :=
  let c := the_core m in
  match at_pc m with
  | Entry => m <| start_time := now |> <| at_pc := Top |>
  | Top =>
    if negb (status c =? TS_REQUESTED)
    then m <| start_time := u32 (start_time m - now) |> <| at_pc := Going_idle |>
    else m <| at_pc := Tasks_start |>
  | Going_idle => m <| irq_enabled := false |> <| at_pc := Recheck |>
  | Recheck =>
    if negb (status c =? TS_REQUESTED)
    then m <| the_core ::= fun c => c <| co_sched ::= fun s => s <| tasks_busy := TS_IDLE |> <| tasks_status := TS_IDLE |> |> |>
           <| at_pc := Waiting |>
    else m <| at_pc := Wake_up |>
  | Waiting => if negb (status c =? TS_REQUESTED) then m else m <| at_pc := Wake_up |>
  | Wake_up => m <| irq_enabled := true |> <| start_time := u32 (start_time m + now) |> <| at_pc := Tasks_start |>
  | Tasks_start =>
    m <| the_core ::= fun c => c <| co_sched ::= fun s => s <| tasks_status := TS_RUNNING |> |> |> <| at_pc := Running order |>
  | Running (i :: todo) =>
    let (ready, w) := sched_check_wake (wakes c i) in
    let m := m <| the_core ::= fun c => c <| wakes ::= <[i := w]> |> |> in
    if truthy ready then m <| at_pc := Body i todo |> else m <| at_pc := Running todo |>
  | Running [] => m <| at_pc := Stats |>
  | Body i todo => m <| at_pc := Running todo |>
  | Stats => m <| start_time := now |> <| at_pc := Top |>
  | Shutdown reason => m <| the_core ::= fun c => c <| co_sched ::= shutdown_begin reason |> |> <| at_pc := Shutdown_funcs |>
  | Shutdown_funcs =>
    m <| the_core ::= fun c => c <| co_sched ::= shutdown_end |> |> <| irq_enabled := true |> <| at_pc := Entry |>
  end.

(** What the code of tasks, interrupt handlers and shutdown functions does to the
    state of the tasks: it wakes one or all, the timer code checks whether they
    are busy, and anything else leaves it alone. *)
Inductive code_step : core W -> core W -> Prop :=
| code_wake_task c i :
  let (s, w) := sched_wake_task (co_sched c) (wakes c i) in
  code_step c (c <| co_sched := s |> <| wakes ::= <[i := w]> |>)
| code_wake_tasks c : code_step c (c <| co_sched ::= sched_wake_tasks |>)
| code_check_busy c : code_step c (c <| co_sched ::= fun s => (sched_check_set_tasks_busy s).2 |>)
| code_other c s r : tasks_status s = status c -> code_step c (c <| co_sched := s |> <| rest := r |>).

(** Code that is not the loop's own can run. *)
Definition code_runs (m : main W) : Prop :=
  irq_enabled m = true \/ at_pc m = Waiting \/ at_pc m = Shutdown_funcs.

Inductive label : Type := Main | Started (i : nat) | Code | Halted.
#[local] Instance label_eq_dec : EqDecision label.
Proof. solve_decision. Defined.

Definition main_label (m : main W) : label :=
  match at_pc m with
  | Running (i :: _) => if truthy (wakes (the_core m) i) then Started i else Main
  | _ => Main
  end.

(** One step of the machine.  A shutdown jumps to the [setjmp] of [sched_main]
    with interrupts disabled. *)
Inductive main_step : label -> main W -> main W -> Prop :=
| step_main now m : main_step (main_label m) m (run_tasks_step now m)
| step_code m c : code_runs m -> code_step (the_core m) c -> main_step Code m (m <| the_core := c |>)
| step_halt m reason : code_runs m -> main_step Halted m (m <| irq_enabled := false |> <| at_pc := Shutdown reason |>).

(** [sched_main]: the init functions have run, then [run_tasks] starts. *)
Inductive sched_main : main W -> Prop :=
| sched_main_start c0 c start :
  co_sched c0 = sched_init -> (forall i, wakes c0 i = 0) -> rtc code_step c0 c ->
  sched_main (mk_main Entry true start c).

(** Executions. *)
Inductive run : list label -> main W -> main W -> Prop :=
| run_nil m : run [] m m
| run_cons l tr m1 m2 m3 : main_step l m1 m2 -> run tr m2 m3 -> run (l :: tr) m1 m3.

(** Steps of the main thread in an execution. *)
Definition main_steps (tr : list label) : nat :=
  length (filter (fun l => l <> Code /\ l <> Halted) tr).

(** ** No wake-up is lost *)

(** The tasks to come in this round. *)
Definition to_come (p : pc) : list nat :=
  match p with
  | Tasks_start => order
  | Running todo | Body _ todo => todo
  | _ => []
  end.

Record loop_ok (m : main W) : Prop := {
  (* a woken task is to come in this round, or a new round is requested *)
  lo_wake : forall i, i ∈ order -> wakes (the_core m) i <> 0 ->
    status (the_core m) = TS_REQUESTED \/ i ∈ to_come (at_pc m);
  lo_todo : (length (to_come (at_pc m)) <= length order)%nat;
  lo_pc : match at_pc m with Shutdown _ | Shutdown_funcs => False | _ => True end }.

Lemma check_busy_status s : tasks_status (sched_check_set_tasks_busy s).2 = tasks_status s.
Proof. unfold sched_check_set_tasks_busy. by destruct (TS_REQUESTED <=? tasks_busy s). Qed.

Lemma code_step_wake c c' i :
  code_step c c' -> wakes c' i <> 0 -> status c' = TS_REQUESTED \/ wakes c i <> 0 /\ status c' = status c.
Proof.
  intros Hc. destruct Hc as [c j|c|c|c s r Hs]; intros Hn.
  - by left.
  - by left.
  - right. split; [done|]. apply check_busy_status.
  - by right.
Qed.
Lemma code_step_keeps c c' i : code_step c c' -> wakes c i <> 0 -> wakes c' i <> 0.
Proof.
  intros Hc. destruct Hc as [c j|c|c|c s r Hs]; cbn; [|done..].
  destruct (decide (i = j)) as [->|Hne]; [by rewrite fn_lookup_insert|by rewrite fn_lookup_insert_ne].
Qed.

Lemma loop_ok_code m c : loop_ok m -> code_step (the_core m) c -> loop_ok (m <| the_core := c |>).
Proof.
  intros [Hw Ht Hp] Hc. split; [|done..]. cbn. intros i Hi Hn. destruct (code_step_wake _ _ _ Hc Hn) as [?|[Hn' ->]]; [by left|].
  by apply Hw.
Qed.

Lemma loop_ok_main now m : loop_ok m -> loop_ok (run_tasks_step now m).
Proof.
  intros [Hw Ht Hp]. unfold run_tasks_step. destruct m as [p irq st c]. cbn in Hw, Ht, Hp. cbn [at_pc the_core start_time].
  destruct p as [| | | | | | |[|i todo]|i todo| | |]; cbn in Hw, Ht, Hp; try done.
  - destruct (Z.eqb_spec (status c) TS_REQUESTED) as [E|E]; cbn; split; cbn; try done; try lia; by left.
  - destruct (Z.eqb_spec (status c) TS_REQUESTED) as [E|E]; cbn; split; cbn; try done; try lia.
    intros i Hi Hn. destruct (Hw i Hi Hn) as [?|?%elem_of_nil]; done.
  - destruct (Z.eqb_spec (status c) TS_REQUESTED) as [E|E]; cbn; split; cbn; try done; try lia.
  - split; cbn; [|lia|done]. intros i Hi Hn. by right.
  - split; cbn; [|lia|done]. intros i Hi Hn. by right.
  - unfold sched_check_wake. destruct (truthy (wakes c i)) eqn:Er; cbn [negb truthy Z.eqb].
    + split; cbn; [|lia|done]. intros j Hj Hn. destruct (decide (j = i)) as [->|Hne]; [by rewrite fn_lookup_insert in Hn|].
      rewrite fn_lookup_insert_ne in Hn by done. destruct (Hw j Hj Hn) as [?|[?|?]%elem_of_cons]; [by left|done|by right].
    + split; cbn; [|lia|done]. intros j Hj Hn. destruct (decide (j = i)) as [->|Hne].
      * rewrite fn_lookup_insert in Hn. unfold truthy in Er. destruct (Z.eqb_spec (wakes c i) 0); done.
      * rewrite fn_lookup_insert_ne in Hn by done. destruct (Hw j Hj Hn) as [?|[?|?]%elem_of_cons]; [by left|done|by right].
Qed.

Lemma loop_ok_run tr m m' : loop_ok m -> run tr m m' -> Halted ∉ tr -> loop_ok m'.
Proof.
  intros Hok Hr. induction Hr as [m|l tr m1 m2 m3 Hs Hr IH]; intros Hh; [done|].
  apply IH; [|set_solver]. destruct Hs; [by apply loop_ok_main|by apply loop_ok_code|set_solver].
Qed.

Lemma sched_main_ok m : sched_main m -> loop_ok m.
Proof.
  intros [c0 c st Hs Hw Hr]. split; cbn; [|lia|done].
  assert (Hst : status c0 = TS_REQUESTED) by (unfold status; by rewrite Hs).
  intros i Hi Hn. left. clear -Hst Hr. induction Hr as [c|c c1 c2 Hc Hr IH]; [done|]. apply IH.
  destruct Hc as [c j|c|c|c s r Hs]; [done|done| |].
  - rewrite <- Hst. apply check_busy_status.
  - by rewrite <- Hst.
Qed.

(** An upper bound of the steps of the main thread before task [i] starts. *)
Definition distance (i : nat) (p : pc) : nat :=
  let round := (2 * length order)%nat in
  match p with
  | Tasks_start => round + 1
  | Wake_up => round + 2
  | Waiting => round + 3
  | Recheck => round + 4
  | Going_idle => round + 5
  | Top => round + 6
  | Entry | Stats => round + 7
  | Running todo => if decide (i ∈ todo) then 2 * length todo else round + 8 + 2 * length todo
  | Body _ todo => if decide (i ∈ todo) then 2 * length todo + 1 else round + 9 + 2 * length todo
  | Shutdown _ | Shutdown_funcs => 0
  end%nat.

Lemma distance_bound i m : loop_ok m -> (distance i (at_pc m) <= 4 * length order + 9)%nat.
Proof.
  intros [_ Ht _]. destruct (at_pc m); cbn in *; try lia; case_decide; lia.
Qed.

(** Each step of the main thread starts the task or comes closer. *)
Lemma distance_step i now m :
  loop_ok m -> i ∈ order -> wakes (the_core m) i <> 0 -> main_label m <> Started i ->
  wakes (the_core (run_tasks_step now m)) i <> 0 /\
  (distance i (at_pc (run_tasks_step now m)) < distance i (at_pc m))%nat.
Proof.
  intros Hok Hi Hn Hl. assert (Hw := lo_wake m Hok i Hi Hn). destruct Hok as [_ Ht Hp].
  unfold run_tasks_step, main_label in *. destruct m as [p irq st c]. cbn in Hw, Ht, Hp, Hn. cbn [at_pc the_core start_time].
  assert (Hr : i ∉ [] -> status c = TS_REQUESTED \/ i ∈ [] -> status c =? TS_REQUESTED = true) by (intros; apply Z.eqb_eq; tauto).
  assert (Hnil : i ∉ []) by apply not_elem_of_nil.
  destruct p as [| | | | | | |[|j todo]|j todo| | |]; cbn [to_come at_pc the_core] in *; try done;
    try (rewrite (Hr Hnil Hw); cbn [negb]); try (split; [done|]; cbn; lia).
  - split; [done|]. cbn. case_decide; [lia|done].
  - split; [done|]. cbn. case_decide; [done|lia].
  - unfold sched_check_wake. destruct (truthy (wakes c j)) eqn:Er; cbn [negb truthy Z.eqb] in *.
    + assert (j <> i) as Hne by congruence. split; cbn; [by rewrite fn_lookup_insert_ne|].
      destruct (decide (i ∈ todo)), (decide (i ∈ j :: todo)); try lia; set_solver.
    + assert (Hne : j <> i) by (intros ->; unfold truthy in Er; destruct (Z.eqb_spec (wakes c i) 0); done).
      split; cbn; [by rewrite fn_lookup_insert_ne|].
      destruct (decide (i ∈ todo)), (decide (i ∈ j :: todo)); try lia; set_solver.
  - split; [done|]. cbn. case_decide; lia.
Qed.

Lemma woken_within i tr m m' :
  loop_ok m -> i ∈ order -> wakes (the_core m) i <> 0 -> run tr m m' -> Halted ∉ tr ->
  (distance i (at_pc m) < main_steps tr)%nat -> Started i ∈ tr.
Proof.
  intros Hok Hi Hn Hr. induction Hr as [m|l tr m1 m2 m3 Hs Hr IH]; intros Hh Hd; [unfold main_steps in Hd; cbn in Hd; lia|].
  apply not_elem_of_cons in Hh as [Hl Hh].
  destruct Hs as [now m|m c Hc Hs|m reason Hc].
  - destruct (decide (main_label m = Started i)) as [->|Hne]; [by left|]. right.
    destruct (distance_step i now m Hok Hi Hn Hne) as [Hn' Hlt].
    apply IH; [by apply loop_ok_main|done|done|].
    unfold main_steps in Hd. rewrite filter_cons in Hd. case_decide; cbn in Hd; unfold main_steps; lia.
  - right. apply IH; [by apply loop_ok_code|by apply (code_step_keeps _ _ _ Hs)|done|].
    unfold main_steps in *. rewrite filter_cons_False in Hd by tauto. done.
  - done.
Qed.

(** The main thread can always go on. *)
Lemma main_goes_on n m : exists tr m', run tr m m' /\ main_steps tr = n /\ Halted ∉ tr.
Proof.
  revert m. induction n as [|n IH]; intros m; [exists [], m; split; [constructor|]; split; [done|apply not_elem_of_nil]|].
  destruct (IH (run_tasks_step 0 m)) as (tr & m' & Hr & Hn & Hh). exists (main_label m :: tr), m'.
  assert (Hl : main_label m <> Code /\ main_label m <> Halted).
  { unfold main_label. destruct (at_pc m) as [| | | | | | |[|i todo]| | | |]; try done. by destruct (truthy _). }
  split; [by econstructor; [apply step_main|]|]. split.
  - unfold main_steps in *. rewrite filter_cons_True by done. cbn. by rewrite Hn.
  - apply not_elem_of_cons. split; [intros E; by destruct Hl|done].
Qed.

(** C18: Woken tasks run.  In every state the main loop reaches from
    [sched_main] without a shutdown, however interrupts interleave with it: the
    processor only sleeps when no task is woken; and a task that is woken starts
    after at most [4 * n + 9] further steps of the main loop for [n] tasks,
    whatever the interrupt handlers and the other tasks do meanwhile. *)
Theorem woken_task_runs m0 tr0 m :
  sched_main m0 -> run tr0 m0 m -> Halted ∉ tr0 ->
  (at_pc m = Waiting -> status (the_core m) <> TS_REQUESTED -> forall i, i ∈ order -> wakes (the_core m) i = 0) /\
  forall i tr m', i ∈ order -> wakes (the_core m) i <> 0 -> run tr m m' -> Halted ∉ tr ->
    (4 * length order + 9 < main_steps tr)%nat -> Started i ∈ tr.
Proof.
  intros Hm Hr Hh. assert (Hok : loop_ok m) by (eapply loop_ok_run; [by apply sched_main_ok|done..]). split.
  - intros Hp Hs i Hi. destruct (decide (wakes (the_core m) i = 0)) as [|Hn]; [done|].
    destruct (lo_wake m Hok i Hi Hn) as [?|Hin]; [done|]. rewrite Hp in Hin. by apply elem_of_nil in Hin.
  - intros i tr m' Hi Hn Hr' Hh' Hd. apply (woken_within i tr m m'); [done..|]. pose proof (distance_bound i m Hok). lia.
Qed.
End main.

(** A task woken by an interrupt while the init functions run. *)
Lemma woken_task_runs_witness : exists (m : main unit) tr m',
  wakes (the_core m) 1%nat <> 0 /\ run [0%nat; 1%nat] tr m m' /\ Started 1 ∈ tr.
Proof.
  pose (c0 := mk_core sched_init (fun _ => 0) tt).
  pose (c := mk_core (sched_wake_tasks sched_init) (<[1%nat := 1]> (fun _ => 0)) tt).
  pose (m := mk_main Entry true 0 c).
  assert (Hm : sched_main m).
  { apply (sched_main_start c0); [done|done|]. apply rtc_once. exact (code_wake_task c0 1). }
  destruct (main_goes_on [0%nat; 1%nat] 18 m) as (tr & m' & Hr & Hn & Hh).
  exists m, tr, m'. split; [done|]. split; [exact Hr|].
  refine (proj2 (woken_task_runs [0%nat; 1%nat] m [] m Hm (run_nil _ m) (not_elem_of_nil _)) 1%nat tr m' _ _ Hr Hh _).
  - by right; left.
  - done.
  - rewrite Hn. cbn. lia.
Defined.

(** A shutdown in the middle of a round leaves the tasks behind it waiting: the
    loop starts over with [TS_RUNNING] and goes to sleep, until something else
    wakes the tasks. *)
Definition interrupted : main unit :=
  mk_main (Body 0 [1%nat]) true 0
    (mk_core (sched_init <| tasks_status := TS_RUNNING |>) (<[1%nat := 1]> (fun _ => 0)) tt).

Lemma shutdown_delays_task : exists tr m',
  run [0%nat; 1%nat] tr interrupted m' /\ at_pc m' = Waiting /\ status (the_core m') <> TS_REQUESTED /\
  wakes (the_core m') 1%nat = 1 /\ irq_enabled m' = false.
Proof.
  pose (step := run_tasks_step (W := unit) [0%nat; 1%nat] 0).
  pose (m1 := interrupted <| irq_enabled := false |> <| at_pc := Shutdown 7 |>).
  exists [Halted; Main; Main; Main; Main; Main; Main], (step (step (step (step (step (step m1)))))).
  split; [|by vm_compute].
  eapply run_cons; [apply (step_halt _ interrupted 7); by left|]. fold m1.
  do 6 (eapply run_cons; [match goal with |- main_step _ _ ?m _ => exact (step_main _ 0 m) end|]). apply run_nil.
Qed.
