(* ===== verification/TimerIrq.v ===== *)
(** * Timer interrupt dispatch (src/generic/timer_irq.c)

    [clock n] is the value the [n]-th call of [timer_read_time()] returns; the
    state counts the calls.  Times are 32-bit tick counts that wrap around. *)

From S2P Require Import Prelude Clock Sched.

Record tirq := mk_tirq {
  ti_sched : sched;
  timer_repeat_until : Z;
  ti_reads : nat }.
#[export] Instance eta_tirq : Eta tirq := fun s =>
  mk_tirq (ti_sched s) (timer_repeat_until s) (ti_reads s).

Section timer_irq.
Context (CONFIG_CLOCK_FREQ : Z) (clock : nat -> Z).
Context (timer_fuel : nat) (user : nat -> M sched Z).
Abbreviation from_us := (timer_from_us CONFIG_CLOCK_FREQ).

Definition TIMER_REPEAT_TICKS : Z := from_us 100.
Definition TIMER_MIN_TRY_TICKS : Z := from_us 2.
Definition TIMER_DEFER_REPEAT_TICKS : Z := from_us 5.

Definition timer_read_time : M tirq Z := fun s =>
  Ret (clock (ti_reads s)) (s <| ti_reads ::= S |>).

Definition ti_dispatch : M tirq Z :=
  zoom ti_sched (sched_timer_dispatch CONFIG_CLOCK_FREQ timer_fuel user).

(** [while (diff > 0) diff = next - timer_read_time();] *)
Fixpoint timer_wait (fuel : nat) (next diff : Z) : M tirq unit :=
  if 0 <? diff then
    match fuel with
    | O => crash
    | S fuel => now <- timer_read_time;; timer_wait fuel next (s32 (u32 (next - now)))
    end
  else ret tt.

(** The part of one round after the timer was dispatched: [inl r] returns [r]
    to the board code, [inr tru] goes round again.  [task_poll] is the call
    only the polling variant makes. *)
Definition timer_check (task_poll : M tirq unit) (tru next now : Z) : M tirq (Z + Z) :=
  let diff := s32 (u32 (next - now)) in
  if s32 TIMER_MIN_TRY_TICKS <? diff then ret (inl next) else
  if timer_is_before tru now then
    (when diff <? s32 (u32 (- from_us 1000))
     then zoom ti_sched (sched_try_shutdown "Rescheduled timer in the past"));;;
    task_poll;;;
    (fun s =>
       let '(busy, sch) := sched_check_set_tasks_busy (ti_sched s) in
       let s := s <| ti_sched := sch |> in
       let tru := u32 (now + TIMER_REPEAT_TICKS) in
       let s := s <| timer_repeat_until := tru |> in
       if truthy busy then Ret (inl (u32 (now + TIMER_DEFER_REPEAT_TICKS))) s
       else Ret (inr tru) s)
  else ret (inr tru).

(** [irq_poll] stands for what may run before the wait: interrupts in one
    variant, [timer_dispatch_irq_poll] in the other. *)
Fixpoint timer_dispatch_loop (fuel : nat) (task_poll irq_poll : M tirq unit) (tru : Z)
    : M tirq Z :=
  match fuel with
  | O => crash
  | S fuel =>
    next <- ti_dispatch;;
    now <- timer_read_time;;
    r <- timer_check task_poll tru next now;;
    match r with
    | inl r => ret r
    | inr tru =>
      irq_poll;;;
      timer_wait fuel next (s32 (u32 (next - now)));;;
      timer_dispatch_loop fuel task_poll irq_poll tru
    end
  end.

Definition timer_dispatch_many (fuel : nat) (irqs : M tirq unit) : M tirq Z := fun s =>
  timer_dispatch_loop fuel (ret tt) irqs (timer_repeat_until s) s.

Definition timer_dispatch_many_polling (fuel : nat)
    (timer_dispatch_task_poll timer_dispatch_irq_poll : M tirq unit) : M tirq Z := fun s =>
  timer_dispatch_loop fuel timer_dispatch_task_poll timer_dispatch_irq_poll
    (timer_repeat_until s) s.

Definition timer_task : M tirq unit :=
  now <- timer_read_time;;
  modify (fun s => if timer_is_before (timer_repeat_until s) now
                   then s <| timer_repeat_until := now |> else s).

(** ** Properties *)

(** What [timer_check] may answer: a time comfortably in the future. *)
Definition in_future (now r : Z) : Prop :=
  s32 TIMER_MIN_TRY_TICKS < s32 (u32 (r - now)) \/ r = u32 (now + TIMER_DEFER_REPEAT_TICKS).

Lemma timer_check_future task_poll tru next now s r s' :
  timer_check task_poll tru next now s = Ret (inl r) s' -> in_future now r.
Proof.
  unfold timer_check, in_future. destruct (Z.ltb_spec (s32 TIMER_MIN_TRY_TICKS) (s32 (u32 (next - now)))).
  - intros [= <- <-]. by left.
  - destruct (timer_is_before tru now); [|done]. unfold bind.
    match goal with |- context [match ?m s with Ret _ _ => _ | _ => _ end] =>
      destruct (m s) as [a w| |]; [|done..] end.
    destruct (task_poll w) as [b w2| |]; [|done..].
    destruct (sched_check_set_tasks_busy _) as [busy sch]. destruct (truthy busy); [|done].
    intros [= <- <-]. by right.
Qed.

(** Whatever [timer_dispatch_many] returns for the next interrupt lies ahead
    of the last time it read. *)
Lemma timer_dispatch_loop_future fuel task_poll irq_poll tru s r s' :
  timer_dispatch_loop fuel task_poll irq_poll tru s = Ret r s' ->
  exists n, in_future (clock n) r.
Proof.
  revert tru s. induction fuel as [|fuel IH]; intros tru s; [done|].
  cbn [timer_dispatch_loop]. unfold bind at 1. destruct (ti_dispatch s) as [next s1| |]; [|done..].
  unfold bind at 1, timer_read_time at 1. unfold bind at 1.
  destruct (timer_check _ _ _ _ _) as [[r1|tru1] s2| |] eqn:Ec; [|..|done|done].
  - intros [= -> ->]. exists (ti_reads s1). by eapply timer_check_future.
  - unfold bind at 1. destruct (irq_poll s2) as [[] s3| |]; [|done..].
    unfold bind at 1. destruct (timer_wait _ _ _ s3) as [[] s4| |]; [|done..]. apply IH.
Qed.
End timer_irq.

(** ** Tasks are not starved by timers *)

Section starvation.
Context (CONFIG_CLOCK_FREQ : Z) (t : nat -> Z) (timer_fuel : nat) (user : nat -> M sched Z).
(** The clock advances with every reading, in steps shorter than 2^24 ticks. *)
Context (Hfreq : 0 <= CONFIG_CLOCK_FREQ <= 1000000000).
Context (Ht : forall n, t n < t (S n) <= t n + 0x1000000).
(** [Inv] is an invariant of the scheduler under which the tasks are runnable;
    the timer callbacks preserve it, and return or shut down. *)
Context (Inv : sched -> Prop).
Context (Hready : forall sch, Inv sch -> 0 <= tasks_status sch).
Context (Hbusy : forall sch, Inv sch -> Inv (sch <| tasks_busy := tasks_status sch |>)).
Context (Hdisp : forall sch, Inv sch ->
  match sched_timer_dispatch CONFIG_CLOCK_FREQ timer_fuel user sch with
  | Ret _ sch' => Inv sch' /\ tasks_busy sch' = tasks_busy sch
  | Halt _ _ => True
  | Crash _ => False
  end).

Abbreviation clk := (fun n => u32 (t n)).
Abbreviation R := (TIMER_REPEAT_TICKS CONFIG_CLOCK_FREQ).
Abbreviation K := (TIMER_MIN_TRY_TICKS CONFIG_CLOCK_FREQ).

Lemma ticks_small : 0 <= K <= 2000 /\ 0 <= R <= 100000.
Proof. unfold TIMER_MIN_TRY_TICKS, TIMER_REPEAT_TICKS, timer_from_us. word. Qed.

Lemma clock_mono n m : (n < m)%nat -> t n < t m.
Proof. induction 1; [apply Ht|]. pose proof (Ht m). lia. Qed.

(** The wait ends, at most one clock step after [next]. *)
Lemma timer_wait_ok fuel next n s :
  ti_reads s = S n ->
  let d := s32 (u32 (next - clk n)) in
  d <= K -> d <= Z.of_nat fuel ->
  exists m, (n <= m)%nat /\ t m <= Z.max (t n) (t n + d + 0x1000000) /\
    timer_wait clk fuel next d s = Ret tt (s <| ti_reads := S m |>).
Proof.
  pose proof ticks_small as [HK _].
  revert n s. induction fuel as [|fuel IH]; intros n s Hn d Hd Hf; cbn [timer_wait].
  - destruct (Z.ltb_spec 0 d); [lia|]. exists n. split_and!; [done|lia|].
    destruct s; cbn in *; by subst.
  - destruct (Z.ltb_spec 0 d).
    + unfold bind, timer_read_time. rewrite Hn. cbn [ti_reads set].
      pose proof (Ht n) as Htn.
      assert (Hd' : s32 (u32 (next - clk (S n))) = t n + d - t (S n)) by (subst d; word).
      destruct (IH (S n) (s <| ti_reads ::= S |>)) as (m & Hm & Hb & E).
      * cbn. by rewrite Hn.
      * cbn beta in *. lia.
      * cbn beta in *. lia.
      * exists m. split_and!; [lia|cbn beta in *; lia|]. cbn beta in *. rewrite E. by destruct s.
    + exists n. split_and!; [done|lia|]. destruct s; cbn in *; by subst.
Qed.

Definition tasks_are_busy (s : tirq) : bool := TS_REQUESTED <=? tasks_busy (ti_sched s).

Lemma timer_is_before_unwrapped a b :
  Z.abs (a - b) <= 0x40000000 -> timer_is_before (u32 a) (u32 b) = (a <? b).
Proof. intros H. unfold timer_is_before. destruct (Z.ltb_spec a b); [apply Z.ltb_lt|apply Z.ltb_ge]; word. Qed.

(** Rounds left: until [tru] has passed, once more if tasks were idle. *)
Definition rounds (s : tirq) (T : Z) : Z :=
  Z.max 0 (T + 1 - t (ti_reads s)) + if tasks_are_busy s then 0 else R + 1.

(** One round either leaves the loop or makes progress. *)
Lemma timer_check_progress s T next :
  Inv (ti_sched s) ->
  let n := ti_reads s in
  Z.abs (T - t n) <= 0x40000000 ->
  match timer_check CONFIG_CLOCK_FREQ (ret tt) (u32 T) next (clk n) (s <| ti_reads ::= S |>) with
  | Ret (inl _) _ | Halt _ _ => True
  | Ret (inr tru') s' => exists T', tru' = u32 T' /\ t n <= T' <= Z.max T (t n + R) /\
      s32 (u32 (next - clk n)) <= K /\
      ti_reads s' = S n /\ Inv (ti_sched s') /\
      T' + (if tasks_are_busy s' then 0 else R + 1)
        < Z.max (T + 1) (t n) + (if tasks_are_busy s then 0 else R + 1)
  | Crash _ => False
  end.
Proof.
  intros Hst n HT. pose proof (Hready _ Hst). pose proof ticks_small as [HK HR]. unfold timer_check.
  rewrite (s32_small K) by lia.
  destruct (Z.ltb_spec K (s32 (u32 (next - clk n)))) as [Hlt|Hge]; [done|].
  rewrite timer_is_before_unwrapped by lia. destruct (Z.ltb_spec T (t n)) as [Hb|Hb].
  - unfold bind. match goal with |- context [match ?m (s <| ti_reads ::= S |>) with Ret _ _ => _ | _ => _ end] =>
      assert (Hm : match m (s <| ti_reads ::= S |>) with Ret _ s1 => s1 = s <| ti_reads ::= S |> | Halt _ _ => True | Crash _ => False end) end.
    { destruct (_ <? _); [|done]. unfold zoom, sched_try_shutdown. cbn.
      destruct (negb _); [done|]. by destruct s. }
    match goal with |- context [match ?m (s <| ti_reads ::= S |>) with Ret _ _ => _ | _ => _ end] =>
      destruct (m (s <| ti_reads ::= S |>)) as [? ?| |]; [subst w|done..] end.
    cbn [ret]. unfold sched_check_set_tasks_busy. cbn [ti_sched set].
    unfold tasks_are_busy. destruct (Z.leb_spec TS_REQUESTED (tasks_busy (ti_sched s))); [done|].
    exists (t n + R). cbn. unfold TS_REQUESTED in *.
    rewrite (proj2 (Z.leb_le 0 (tasks_status (ti_sched s)))) by lia.
    split_and!; [word|lia|lia|lia|done|by apply Hbusy|lia].
  - exists T. split_and!; [done|lia|lia|lia|done|done|].
    change (tasks_are_busy (s <| ti_reads ::= S |>)) with (tasks_are_busy s). lia.
Qed.

Lemma ti_dispatch_ok s :
  Inv (ti_sched s) ->
  match ti_dispatch CONFIG_CLOCK_FREQ timer_fuel user s with
  | Ret _ s' => Inv (ti_sched s') /\
      tasks_busy (ti_sched s') = tasks_busy (ti_sched s) /\ ti_reads s' = ti_reads s
  | Halt _ _ => True
  | Crash _ => False
  end.
Proof.
  intros Hs. unfold ti_dispatch, zoom. specialize (Hdisp _ Hs).
  destruct (sched_timer_dispatch _ _ _ _); cbn; tauto.
Qed.

Lemma timer_dispatch_loop_returns fuel T s :
  Inv (ti_sched s) ->
  Z.abs (T - t (ti_reads s)) <= 0x40000000 ->
  rounds s T + K < Z.of_nat fuel ->
  match timer_dispatch_loop CONFIG_CLOCK_FREQ clk timer_fuel user fuel (ret tt) (ret tt) (u32 T) s with
  | Ret _ _ | Halt _ _ => True
  | Crash _ => False
  end.
Proof.
  pose proof ticks_small as [HK HR]. unfold rounds.
  revert T s. induction fuel as [|fuel IH]; intros T s Hst HT Hf.
  { destruct (tasks_are_busy s); lia. }
  cbn [timer_dispatch_loop]. unfold bind at 1. pose proof (ti_dispatch_ok s Hst) as Hd0.
  destruct (ti_dispatch _ _ _ s) as [next s1| |]; [|done..]. destruct Hd0 as (Hst1 & Hb1 & Hr1).
  unfold bind at 1, timer_read_time at 1. unfold bind at 1.
  pose proof (timer_check_progress s1 T next Hst1) as Hc. cbv zeta in Hc. rewrite Hr1 in *.
  specialize (Hc HT).
  destruct (timer_check _ _ _ _ _ _) as [[r1|tru1] s2| |]; [done| |done..].
  destruct Hc as (T' & -> & HT' & Hd & Hr2 & Hst2 & Hlt).
  unfold bind at 1. cbn [ret]. unfold bind at 1.
  set (n := ti_reads s) in *.
  destruct (timer_wait_ok fuel next n s2 Hr2 Hd) as (m & Hm & Hbm & E).
  { unfold tasks_are_busy in *. destruct (_ <=? _), (_ <=? _); lia. }
  assert (Hbz : tasks_are_busy s1 = tasks_are_busy s) by (unfold tasks_are_busy; by rewrite Hb1).
  rewrite Hbz in Hlt. pose proof (Ht m) as Htm.
  assert (t n < t (S m)) by (apply clock_mono; lia).
  cbv beta in *. rewrite E. apply IH; cbn [ti_sched ti_reads set]; [done|lia|].
  change (tasks_are_busy (s2 <| ti_reads := S m |>)) with (tasks_are_busy s2). lia.
Qed.

(** C36: timers do not starve tasks.  While some task is waiting to run, the
    timer interrupt returns control (or shuts the machine down because timers
    are late) after a bounded number of rounds, however many timers keep asking
    to be rescheduled: [rounds] is the time to the deferral limit, plus one
    more period of TIMER_REPEAT_TICKS if the tasks were idle before. *)
Theorem timer_dispatch_many_returns fuel T s :
  Inv (ti_sched s) -> timer_repeat_until s = u32 T ->
  Z.abs (T - t (ti_reads s)) <= 0x40000000 ->
  rounds s T + K < Z.of_nat fuel ->
  match timer_dispatch_many CONFIG_CLOCK_FREQ clk timer_fuel user fuel (ret tt) s with
  | Ret _ _ | Halt _ _ => True
  | Crash _ => False
  end.
Proof.
  intros Hst HT Habs Hf. unfold timer_dispatch_many. rewrite HT.
  by apply timer_dispatch_loop_returns.
Qed.
End starvation.

(** A 1 MHz machine whose only timer is the periodic one. *)
Definition only_periodic (s : sched) : Prop :=
  timer_list s = T_periodic /\ nxt s T_periodic = Some T_sentinel /\ 0 <= tasks_status s.

Lemma only_periodic_dispatch s :
  only_periodic s ->
  match sched_timer_dispatch 1000000 1 (fun _ => ret SF_DONE) s with
  | Ret _ s' => only_periodic s' /\ tasks_busy s' = tasks_busy s
  | Halt _ _ => True
  | Crash _ => False
  end.
Proof.
  intros (Hl & Hn & Hs). unfold sched_timer_dispatch, bind, gets. rewrite Hl. cbn [timer_func].
  unfold periodic_event. cbv zeta. unfold dispatch_update. cbn [timers set sched_wake_tasks].
  autorewrite with mem. rewrite Hn. cbn [Z.eqb SF_RESCHEDULE SF_DONE]. autorewrite with mem.
  set (w := u32 _). assert (timer_is_before w (u32 (w + 0x80000000)) = true) as ->.
  { unfold timer_is_before. apply Z.ltb_lt. word. }
  cbn [negb]. unfold only_periodic. cbn [timers set timer_list tasks_status tasks_busy].
  autorewrite with mem. unfold TS_REQUESTED. by split_and!.
Qed.

Lemma timer_dispatch_many_returns_witness :
  let s := mk_tirq (sched_init <| tasks_busy := TS_IDLE |>) 0 0 in
  match timer_dispatch_many 1000000 (fun n => u32 (Z.of_nat n)) 1 (fun _ => ret SF_DONE) 200 (ret tt) s with
  | Ret _ _ | Halt _ _ => True
  | Crash _ => False
  end.
Proof.
  apply (timer_dispatch_many_returns 1000000 Z.of_nat 1 (fun _ => ret SF_DONE))
    with (Inv := only_periodic) (T := 0).
  - lia.
  - intros n. lia.
  - intros sch H. apply H.
  - intros sch H. apply H.
  - apply only_periodic_dispatch.
  - repeat split. cbn. lia.
  - reflexivity.
  - vm_compute. congruence.
  - vm_compute. reflexivity.
Defined.
