(* ===== verification/SerialIrq.v ===== *)
(** * Interrupt driven serial console (src/generic/serial_irq.c)

    The main code and the UART interrupt share the buffers without a lock, so
    the model makes interrupts explicit: [irq_sched] lists, for each point of
    the code between two accesses to shared variables, the interrupts that
    arrive there, and every theorem holds for all schedules.  [uart_out] and
    [rx_stored] record what the hardware took from, and the handler stored in,
    the buffers. *)

From S2P Require Import Prelude Vlq Command Clock Sched Buffer.

(** ** State *)

Definition RX_BUFFER_SIZE : nat := 192.
Definition TX_BUFFER_SIZE : nat := 96. (* sizeof(transmit_buf) *)

Inductive uart_irq : Set :=
| Rx (data : Z)  (* a byte was received *)
| Tx.            (* the transmitter is ready for a byte *)

Record serial := mk_serial {
  receive_buf : list Z;
  receive_pos : nat;
  transmit_buf : list Z;
  transmit_pos : nat;
  transmit_max : nat;
  ser_sched : sched;
  uart_out : list Z;
  rx_stored : list Z;
  irq_sched : list (list uart_irq) }.
#[export] Instance eta_serial : Eta serial := fun s =>
  mk_serial (receive_buf s) (receive_pos s) (transmit_buf s) (transmit_pos s) (transmit_max s)
    (ser_sched s) (uart_out s) (rx_stored s) (irq_sched s).

Definition serial_init (irqs : list (list uart_irq)) : serial :=
  mk_serial (replicate RX_BUFFER_SIZE 0) 0 (replicate TX_BUFFER_SIZE 0) 0 0 sched_init [] [] irqs.

(** ** Interrupt handlers *)

Definition serial_rx_byte (data : Z) (s : serial) : serial :=
  let s := if data =? MESSAGE_SYNC then s <| ser_sched ::= sched_wake_tasks |> else s in
  if (RX_BUFFER_SIZE <=? receive_pos s)%nat then s
  else s <| receive_buf ::= <[receive_pos s := data]> |>
         <| rx_stored ::= fun l => l ++ [data] |>
         <| receive_pos ::= S |>.

Definition serial_get_tx_byte (s : serial) : option Z * serial :=
  if (transmit_max s <=? transmit_pos s)%nat then (None, s)
  else (Some (transmit_buf s !!! transmit_pos s), s <| transmit_pos ::= S |>).

Definition uart_handler (i : uart_irq) (s : serial) : serial :=
  match i with
  | Rx data => serial_rx_byte data s
  | Tx => let '(o, s) := serial_get_tx_byte s in
          match o with Some b => s <| uart_out ::= fun l => l ++ [b] |> | None => s end
  end.

(** The interrupts that arrive at one point of the code. *)
Definition irq_point (s : serial) : serial :=
  match irq_sched s with
  | [] => s
  | l :: r => fold_left (fun s i => uart_handler i s) l (s <| irq_sched := r |>)
  end.

(** ** Receiving *)

(** The retry loop of [console_pop_input]. *)
Fixpoint console_pop_loop (fuel : nat) (len copied : nat) (s : serial) : outcome serial unit :=
  match fuel with
  | O => Crash s
  | S fuel =>
    let rpos := receive_pos s in
    let s := irq_point s in
    let needcopy := (rpos - len)%nat in
    let '(copied, s) :=
      if negb (needcopy =? 0)%nat
      then (needcopy, s <| receive_buf ::= memmove copied (copied + len) (needcopy - copied) |>
                        <| ser_sched ::= sched_wake_tasks |>)
      else (copied, s) in
    let s := irq_point s in
    if negb (rpos =? receive_pos s)%nat then console_pop_loop fuel len copied s
    else Ret tt (s <| receive_pos := needcopy |>)
  end.

Definition console_pop_input (len : nat) : M serial unit := fun s =>
  console_pop_loop (S RX_BUFFER_SIZE) len 0 s.

(** ** Transmitting *)

(** Bytes of the buffer an encoding attempt stores to, from the start of the
    message on. *)
Definition encode_extent (e : encoded) : nat :=
  match e with
  | Encoded msglen out => Nat.max msglen (MESSAGE_HEADER_SIZE + length out)
  | NeedSpace out | EncodeUndefined out => MESSAGE_HEADER_SIZE + length out
  end.

(** The second half of [console_sendf]: generate the message behind the [tmax]
    bytes in use and start its transmission.  A store outside of
    [transmit_buf] is undefined behaviour. *)
Definition console_generate (next_sequence : Z) (ce : command_encoder) (args : list va_arg)
    (tmax : nat) : M serial unit := fun s =>
  let s := irq_point s in
  let e := command_encodef (TX_BUFFER_SIZE - tmax) ce args in
  if (TX_BUFFER_SIZE <? tmax + encode_extent e)%nat then Crash s else
  match e with
  | EncodeUndefined _ => Crash s
  | _ =>
    let '(msglen, buf) := command_encode_and_frame next_sequence (drop tmax (transmit_buf s))
                            (TX_BUFFER_SIZE - tmax) ce args in
    let s := s <| transmit_buf ::= fun b => take tmax b ++ buf |> in
    if (msglen =? 0)%nat then Ret tt s
    else Ret tt (s <| transmit_max := (tmax + msglen)%nat |>)
  end.

Definition console_sendf (next_sequence : Z) (ce : command_encoder) (args : list va_arg)
    : M serial unit := fun s =>
  let tpos := transmit_pos s in
  let s := irq_point s in
  let tmax := transmit_max s in
  let '(tpos, tmax, s) :=
    if (tmax <=? tpos)%nat
    then (0%nat, 0%nat, s <| transmit_max := 0%nat |> <| transmit_pos := 0%nat |>)
    else (tpos, tmax, s) in
  if (TX_BUFFER_SIZE <? tmax + ce_max_size ce)%nat then
    if (TX_BUFFER_SIZE <? tmax - tpos + ce_min_size ce)%nat then Ret tt s
    else
      let s := irq_point s in
      let s := s <| transmit_max := 0%nat |> in
      let tpos := transmit_pos s in
      let tmax := (tmax - tpos)%nat in
      let s := s <| transmit_buf ::= memmove 0 tpos tmax |> in
      let s := s <| transmit_pos := 0%nat |> <| transmit_max := tmax |> in
      console_generate next_sequence ce args tmax s
  else console_generate next_sequence ce args tmax s.

(** ** The console: command parsing on top of the buffers *)

Section console.
Context {A : Type}.

Record console := mk_console {
  con_cmd : cmd_state;
  con_ser : serial;
  in_sendf : Z;
  con_app : A }.
#[export] Instance eta_console : Eta console := fun c =>
  mk_console (con_cmd c) (con_ser c) (in_sendf c) (con_app c).

Definition command_sendf (ce : command_encoder) (args : list va_arg) : M console unit := fun c =>
  if truthy (in_sendf c) then Ret tt c else
  let c := c <| in_sendf := 1 |> in
  (zoom con_ser
     (console_sendf (next_sequence (con_cmd c)) ce args);;;
   modify (fun c => c <| in_sendf := 0 |>)) c.

Definition sendf_shutdown (c : console) : console := c <| in_sendf := 0 |>.

Definition command_send_ack : M console unit := command_sendf encode_acknak [].

Context (sizeof_size_t console_receive_buffer : Z).
Context (command_index : Z -> command_parser) (command_index_size : Z).
Context (func : Z -> list Z -> M console unit).

Definition con_is_shutdown (c : console) : bool := sched_is_shutdown (ser_sched (con_ser c)).

(** The encoder of is_shutdown is generated at build time. *)
Context (encode_is_shutdown : command_encoder).

Definition sched_report_shutdown : M console unit := fun c =>
  command_sendf encode_is_shutdown [VInt (shutdown_reason (ser_sched (con_ser c)))] c.

(** Boards without CONFIG_HAVE_BOOTLOADER_REQUEST. *)
Definition console_task : M console unit := fun c =>
  let buf := take (receive_pos (con_ser c)) (receive_buf (con_ser c)) in
  let '(st, r) := command_find_block (con_cmd c) buf in
  let c := c <| con_cmd := st |> in
  let finish : M console unit :=
    when negb (fr_ret r =? 0) then
      (zoom con_ser (console_pop_input (fr_pop r));;;
       when 0 <? fr_ret r then command_send_ack) in
  ((when fr_acknak r then command_send_ack);;;
   (fun c =>
      if 0 <? fr_ret r then
        match command_dispatch sizeof_size_t console_receive_buffer command_index
                command_index_size con_is_shutdown sched_report_shutdown func
                (take (fr_pop r) buf) c with
        | DispatchDone c => finish c
        | DispatchShutdown msg c => Halt msg c
        | DispatchFault c | DispatchCrash c | DispatchNoFuel c => Crash c
        end
      else finish c)) c.
End console.
Arguments console : clear implicits.

(** ** Invariants *)

Definition tx_ok (s : serial) : Prop :=
  length (transmit_buf s) = TX_BUFFER_SIZE /\
  (transmit_pos s <= transmit_max s <= TX_BUFFER_SIZE)%nat.
Definition rx_ok (s : serial) : Prop :=
  length (receive_buf s) = RX_BUFFER_SIZE /\ (receive_pos s <= RX_BUFFER_SIZE)%nat.

(** All bytes ever handed to the transmit buffer: those the UART has taken
    and those still waiting. *)
Definition tx_stream (s : serial) : list Z :=
  uart_out s ++ slice (transmit_pos s) (transmit_max s) (transmit_buf s).
(** Received bytes not yet processed. *)
Definition rx_pending (s : serial) : list Z := take (receive_pos s) (receive_buf s).

(** The transmit side after some interrupts. *)
Record tx_step (s s' : serial) : Prop := {
  txs_ok : tx_ok s';
  txs_stream : tx_stream s' = tx_stream s;
  txs_buf : transmit_buf s' = transmit_buf s;
  txs_max : transmit_max s' = transmit_max s;
  txs_pos : (transmit_pos s <= transmit_pos s')%nat;
  txs_sent : uart_out s `prefix_of` uart_out s' }.

(** The receive side after some interrupts that stored the bytes [new]. *)
Record rx_step (new : list Z) (s s' : serial) : Prop := {
  rxs_ok : rx_ok s';
  rxs_pos : receive_pos s' = (receive_pos s + length new)%nat;
  rxs_stored : rx_stored s' = rx_stored s ++ new;
  rxs_take : take (receive_pos s) (receive_buf s') = take (receive_pos s) (receive_buf s);
  rxs_new : slice (receive_pos s) (receive_pos s') (receive_buf s') = new }.

Lemma tx_step_refl s : tx_ok s -> tx_step s s.
Proof. by constructor. Qed.

Lemma tx_step_trans s1 s2 s3 : tx_step s1 s2 -> tx_step s2 s3 -> tx_step s1 s3.
Proof. intros [] []. constructor; [done|congruence..|lia|by etrans]. Qed.

Lemma rx_step_refl s : rx_ok s -> rx_step [] s s.
Proof. intros H. constructor; [done| |by rewrite app_nil_r|done|by rewrite slice_nil]. cbn. lia. Qed.

Lemma rx_step_trans n1 n2 s1 s2 s3 :
  rx_step n1 s1 s2 -> rx_step n2 s2 s3 -> rx_step (n1 ++ n2) s1 s3.
Proof.
  intros [O1 P1 S1 T1 N1] [O2 P2 S2 T2 N2].
  assert (Ht : forall k, (k <= receive_pos s2)%nat ->
    take k (receive_buf s3) = take k (receive_buf s2)).
  { intros k Hk. rewrite <- (firstn_skipn (receive_pos s2) (receive_buf s3)), T2.
    destruct O2 as [L2 _], O1 as [L1 ?].
    rewrite take_app_le by (rewrite length_take; lia). by rewrite take_take, Nat.min_l. }
  constructor; [done|rewrite length_app; lia|by rewrite S2, S1, app_assoc| |].
  - rewrite Ht by lia. done.
  - rewrite (slice_split _ (receive_pos s2)), N2 by lia. f_equal.
    rewrite <- N1, <- (slice_take _ _ (receive_pos s2) (receive_buf s3)), Ht by lia.
    by rewrite slice_take by lia.
Qed.

Lemma uart_handler_tx i s : tx_ok s -> tx_step s (uart_handler i s).
Proof.
  intros [Hl Hp]. destruct i as [data|]; cbn [uart_handler].
  - unfold serial_rx_byte. destruct (data =? MESSAGE_SYNC), (RX_BUFFER_SIZE <=? _)%nat; by constructor.
  - unfold serial_get_tx_byte. destruct (Nat.leb_spec (transmit_max s) (transmit_pos s)); [by constructor|].
    constructor; cbn; try done; [unfold tx_ok; cbn; lia| |lia|by eexists]. unfold tx_stream; cbn.
    destruct (lookup_lt_is_Some_2 (transmit_buf s) (transmit_pos s)) as [x Hx]; [lia|].
    rewrite (slice_cons (transmit_pos s) _ _ x) by (done || lia). rewrite (list_lookup_total_correct _ _ _ Hx).
    by rewrite <- app_assoc.
Qed.

Lemma uart_handler_rx i s : rx_ok s -> exists new, rx_step new s (uart_handler i s).
Proof.
  intros [Hl Hp]. destruct i as [data|]; cbn [uart_handler].
  - assert (Hw : forall s1, receive_buf s1 = receive_buf s -> receive_pos s1 = receive_pos s ->
      rx_stored s1 = rx_stored s -> exists new, rx_step new s
       (if (RX_BUFFER_SIZE <=? receive_pos s1)%nat then s1
        else s1 <| receive_buf ::= <[receive_pos s1 := data]> |>
           <| rx_stored ::= fun l => l ++ [data] |> <| receive_pos ::= S |>)).
    { intros s1 E1 E2 E3. rewrite E2. destruct (Nat.leb_spec RX_BUFFER_SIZE (receive_pos s)).
      - exists []. constructor; rewrite ?E1, ?E2, ?E3, ?app_nil_r; try done.
        + unfold rx_ok. by rewrite E1, E2.
        + by rewrite slice_nil.
      - exists [data]. constructor; unfold rx_ok; cbn; rewrite ?E1, ?E2, ?E3; try done.
        + rewrite length_insert. lia.
        + lia.
        + by rewrite take_insert_ge by lia.
        + rewrite (slice_snoc _ _ _ data), slice_nil by
            (rewrite ?list_lookup_insert_eq; done || lia). done. }
    unfold serial_rx_byte. destruct (data =? MESSAGE_SYNC); by apply Hw.
  - exists []. unfold serial_get_tx_byte. destruct (rx_step_refl s (conj Hl Hp)).
    destruct (transmit_max s <=? _)%nat; by constructor.
Qed.

Lemma irq_point_tx s : tx_ok s -> tx_step s (irq_point s).
Proof.
  intros H. unfold irq_point. destruct (irq_sched s) as [|l r]; [by apply tx_step_refl|].
  assert (Hl : forall s1, tx_step s s1 -> tx_step s (fold_left (fun s i => uart_handler i s) l s1)).
  { induction l as [|i l IH]; intros s1 H1; [done|]. cbn. apply IH.
    eapply tx_step_trans; [exact H1|]. apply uart_handler_tx, H1. }
  apply Hl. by constructor.
Qed.

Lemma irq_point_rx s : rx_ok s -> exists new, rx_step new s (irq_point s).
Proof.
  intros H. unfold irq_point. destruct (irq_sched s) as [|l r]; [exists []; by apply rx_step_refl|].
  assert (Hl : forall s1 n, rx_step n s s1 ->
    exists new, rx_step new s (fold_left (fun s i => uart_handler i s) l s1)).
  { induction l as [|i l IH]; intros s1 n H1; [by exists n|]. cbn.
    destruct (uart_handler_rx i s1) as [n2 H2]; [apply H1|].
    eapply IH, rx_step_trans; done. }
  apply (Hl _ []). destruct (rx_step_refl s H). by constructor.
Qed.

(** ** Popping received bytes *)

(** While [console_pop_input(len)] has moved [copied] bytes: [P] are the bytes
    received so far, including those that are being removed. *)
Record popping (len copied : nat) (P : list Z) (s : serial) : Prop := {
  pop_ok : rx_ok s;
  pop_len : length P = receive_pos s;
  pop_copied : (copied + len <= receive_pos s)%nat;
  pop_moved : take copied (receive_buf s) = take copied (drop len P);
  pop_rest : slice (copied + len) (receive_pos s) (receive_buf s) = drop (copied + len) P }.

Lemma popping_irq len copied P s :
  popping len copied P s -> exists new,
    rx_step new s (irq_point s) /\ popping len copied (P ++ new) (irq_point s).
Proof.
  intros [Ok Hl Hc Hm Hr]. destruct (irq_point_rx s Ok) as [new Hs]. exists new. split; [done|].
  destruct Hs as [Ok' Hp _ Ht Hn]. set (s' := irq_point s) in *.
  assert (Hk : forall k, (k <= receive_pos s)%nat -> take k (receive_buf s') = take k (receive_buf s)).
  { intros k Hk. rewrite <- (Nat.min_l k (receive_pos s)) by lia. by rewrite <- !take_take, Ht. }
  constructor; [done|rewrite length_app; lia|lia| |].
  - rewrite Hk, Hm by lia. rewrite drop_app_le by lia.
    by rewrite take_app_le by (rewrite length_drop; lia).
  - rewrite (slice_split _ (receive_pos s)), Hn by lia. rewrite drop_app_le by lia. f_equal.
    rewrite <- Hr, <- (slice_take _ _ (receive_pos s)), Hk by lia. by rewrite slice_take by lia.
Qed.

(** The [memmove] of one round, once [rpos] bytes had been received. *)
Lemma popping_move len copied P s rpos :
  popping len copied P s -> (copied + len <= rpos <= receive_pos s)%nat ->
  popping len (rpos - len) P
    (s <| receive_buf ::= memmove copied (copied + len) (rpos - len - copied) |>
       <| ser_sched ::= sched_wake_tasks |>).
Proof.
  intros [[Hb Hp] Hl Hc Hm Hr] Hk. unfold RX_BUFFER_SIZE in *.
  assert (Hn : (rpos - len = copied + (rpos - len - copied))%nat) by lia.
  constructor; cbn; [|done|lia| |].
  - unfold rx_ok, RX_BUFFER_SIZE. cbn. rewrite memmove_length by lia. lia.
  - rewrite Hn at 1. rewrite memmove_take by lia. rewrite Hm.
    replace (copied + len + (rpos - len - copied))%nat with rpos by lia.
    rewrite <- (firstn_skipn copied (take (rpos - len) (drop len P))).
    rewrite take_take, Nat.min_l by lia. f_equal.
    rewrite skipn_firstn_comm, drop_drop. replace (len + copied)%nat with (copied + len)%nat by lia.
    rewrite <- Hr, <- (slice_take (copied + len) rpos (receive_pos s)) by lia.
    unfold slice. rewrite take_take, skipn_firstn_comm, take_take. f_equal. lia.
  - unfold slice. rewrite memmove_drop by lia.
    replace (rpos - len + len)%nat with ((copied + len) + (rpos - len - copied))%nat at 1 2 by lia.
    rewrite <- (drop_drop (receive_buf s)).
    replace (rpos - len + len)%nat with ((copied + len) + (rpos - len - copied))%nat by lia.
    rewrite <- (drop_drop P), <- Hr. unfold slice. rewrite skipn_firstn_comm. f_equal. lia.
Qed.

Lemma console_pop_loop_ok fuel len copied P s :
  popping len copied P s -> (RX_BUFFER_SIZE - receive_pos s < fuel)%nat ->
  exists s' new, console_pop_loop fuel len copied s = Ret tt s' /\
    rx_ok s' /\ rx_stored s' = rx_stored s ++ new /\ rx_pending s' = drop len (P ++ new).
Proof.
  revert copied P s. induction fuel as [|fuel IH]; intros copied P s Hpop Hf; [lia|].
  cbn [console_pop_loop]. destruct (popping_irq _ _ _ _ Hpop) as (n1 & R1 & H1).
  set (s1 := irq_point s) in *. set (rpos := receive_pos s) in *.
  assert (Hr1 : receive_pos s1 = (rpos + length n1)%nat) by apply R1.
  pose proof (pop_copied _ _ _ _ Hpop) as Hc. fold rpos in Hc.
  match goal with |- context [if negb (rpos - len =? 0)%nat then ?x else ?y] =>
    set (cs := if negb (rpos - len =? 0)%nat then x else y) end.
  assert (Hmv : cs.1 = (rpos - len)%nat /\ popping len (rpos - len) (P ++ n1) cs.2 /\
    receive_pos cs.2 = receive_pos s1 /\ rx_stored cs.2 = rx_stored s1).
  { unfold cs. destruct (Nat.eqb_spec (rpos - len) 0) as [E0|E0]; cbn [negb fst snd].
    - assert (copied = 0%nat) as -> by lia. rewrite E0. done.
    - split_and!; [done| |done..]. apply popping_move; [done|lia]. }
  destruct cs as [copied2 s2]. cbn [fst snd] in Hmv. destruct Hmv as (-> & H2 & Er & Es).
  destruct (popping_irq _ _ _ _ H2) as (n2 & R2 & H3).
  set (s3 := irq_point s2) in *.
  assert (Hr3 : receive_pos s3 = (rpos + length (n1 ++ n2))%nat).
  { rewrite (rxs_pos _ _ _ R2), length_app. lia. }
  assert (Hs3 : rx_stored s3 = rx_stored s ++ n1 ++ n2).
  { rewrite (rxs_stored _ _ _ R2), Es, (rxs_stored _ _ _ R1). by rewrite app_assoc. }
  rewrite <- app_assoc in H3.
  destruct (Nat.eqb_spec rpos (receive_pos s3)) as [E|E]; cbn [negb].
  - assert (n1 ++ n2 = []) as En by (apply nil_length_inv; lia). rewrite En in *.
    rewrite app_nil_r in H3. exists (s3 <| receive_pos := (rpos - len)%nat |>), [].
    destruct H3 as [[Hb Hp] Hl _ Hm _]. split_and!; [done| |done|].
    + unfold rx_ok. cbn. split; [done|]. lia.
    + unfold rx_pending. cbn. rewrite Hm, app_nil_r. apply take_ge. rewrite length_drop. lia.
  - destruct (pop_ok _ _ _ _ H3) as [_ Hle].
    destruct (IH _ _ _ H3) as (s' & new & E' & Hok & Hst & Hpe); [lia|].
    exists s', ((n1 ++ n2) ++ new). split_and!; [done|done| |by rewrite app_assoc].
    rewrite Hst, Hs3. by rewrite !app_assoc.
Qed.

Lemma pop_input_run len s :
  rx_ok s -> (len <= receive_pos s)%nat ->
  exists s' new, console_pop_input len s = Ret tt s' /\
    rx_ok s' /\ rx_stored s' = rx_stored s ++ new /\
    rx_pending s' = drop len (rx_pending s) ++ new.
Proof.
  intros [Hb Hp] Hlen. unfold console_pop_input.
  assert (Hl : length (rx_pending s) = receive_pos s).
  { unfold rx_pending. rewrite length_take. lia. }
  destruct (console_pop_loop_ok (S RX_BUFFER_SIZE) len 0 (rx_pending s) s)
    as (s' & new & E & Hok & Hst & Hpe); [|lia|].
  - constructor; [done|done|lia|done|]. cbn. unfold rx_pending, slice.
    by rewrite <- skipn_firstn_comm.
  - exists s', new. split_and!; [done..|]. rewrite Hpe, drop_app_le by lia. done.
Qed.

(** Removing processed bytes while the receive interrupt keeps storing.
    For every interrupt schedule [console_pop_input(len)] returns, and the
    unprocessed bytes are exactly the previous ones without the first [len],
    followed by the bytes the interrupt stored meanwhile: none is lost,
    duplicated or reordered. *)
Theorem console_pop_input_ok len s :
  rx_ok s -> (len <= receive_pos s)%nat ->
  exists s' new, console_pop_input len s = Ret tt s' /\
    rx_ok s' /\ rx_stored s' = rx_stored s ++ new /\
    rx_pending s' = drop len (rx_pending s) ++ new.
Proof. apply pop_input_run. Qed.

(** Three bytes buffered; two more arrive while the first two are removed. *)
Definition demo_rx : serial :=
  fold_left (fun s b => serial_rx_byte b s) [1; 2; 3] (serial_init [[]; [Rx 4]; [Rx 5]]).

Lemma console_pop_input_ok_witness :
  rx_pending (final (console_pop_input 2 demo_rx)) = [3; 4; 5] /\
  exists s' new, console_pop_input 2 demo_rx = Ret tt s' /\
    rx_ok s' /\ rx_stored s' = rx_stored demo_rx ++ new /\
    rx_pending s' = drop 2 (rx_pending demo_rx) ++ new.
Proof.
  split; [vm_compute; reflexivity|].
  apply (console_pop_input_ok 2 demo_rx).
  - split; vm_compute; lia.
  - vm_compute. lia.
Defined.

(** ** Sending messages *)

(** The arguments have the types the format declares. *)
Fixpoint args_match (ts : list param_type) (args : list va_arg) : bool :=
  match ts, args with
  | [], _ => true
  | (PT_uint32 | PT_int32 | PT_uint16 | PT_int16 | PT_byte) :: ts, VInt _ :: args
  | PT_string :: ts, VString _ :: args
  | (PT_progmem_buffer | PT_buffer) :: ts, VBuffer _ _ :: args => args_match ts args
  | _, _ => false
  end.

Lemma encode_params_defined maxend ts args out :
  args_match ts args = true ->
  match command_encode_params maxend ts args out with EncodeUndefined _ => False | _ => True end.
Proof.
  revert args out. induction ts as [|t ts IH]; intros args out H; cbn [command_encode_params].
  { by destruct (_ <? _)%nat. }
  destruct (_ <? _)%nat; [done|].
  destruct t, args as [|[] args]; cbn [args_match] in H; try done.
  all: try (by apply IH). all: destruct (_ <=? _); [done|]; by apply IH.
Qed.

Lemma encodef_defined size ce args :
  args_match (ce_param_types ce) args = true ->
  match command_encodef size ce args with EncodeUndefined _ => False | _ => True end.
Proof.
  intros H. unfold command_encodef. destruct (_ <=? _)%nat; [done|].
  by apply encode_params_defined.
Qed.

(** With room for the largest message the space does not matter. *)
Lemma encodef_room size1 size2 ce args :
  (ce_max_size ce <= size1)%nat -> (ce_max_size ce <= size2)%nat ->
  command_encodef size1 ce args = command_encodef size2 ce args.
Proof.
  intros H1 H2. unfold command_encodef. destruct (_ <=? MESSAGE_MIN)%nat; [done|].
  by rewrite !(proj2 (Nat.ltb_ge _ _)).
Qed.

(** What an encoding attempt adds to the output. *)
Definition encoded_frame (seq : Z) (e : encoded) : list Z :=
  match e with Encoded _ out => frame seq out | _ => [] end.

(** The attempt stays within [space] bytes. *)
Definition encode_fits (space : nat) (e : encoded) : Prop :=
  (encode_extent e <= space)%nat /\
  match e with
  | Encoded msglen out => msglen = (length out + MESSAGE_MIN)%nat
  | NeedSpace _ => True
  | EncodeUndefined _ => False
  end.

Lemma tx_append s b rest msg :
  tx_ok s -> b = take (transmit_max s) (transmit_buf s) ++ msg ++ rest ->
  length b = TX_BUFFER_SIZE ->
  let s' := s <| transmit_buf := b |> <| transmit_max := (transmit_max s + length msg)%nat |> in
  tx_ok s' /\ tx_stream s' = tx_stream s ++ msg.
Proof.
  intros [Hl Hp] -> Hb s'. unfold s', tx_ok, tx_stream; cbn.
  rewrite !length_app, length_take in Hb. rewrite !length_app, length_take.
  split; [lia|]. rewrite <- app_assoc. f_equal.
  rewrite (slice_split _ (transmit_max s)) by lia. f_equal.
  - rewrite slice_app_l by (rewrite length_take; lia). by apply slice_take.
  - assert (Ht : length (take (transmit_max s) (transmit_buf s)) = transmit_max s)
      by (rewrite length_take; lia).
    rewrite <- Ht at 1 2. apply slice_app_mid.
Qed.

Lemma console_generate_ok seq ce args s :
  tx_ok s ->
  let e := command_encodef (TX_BUFFER_SIZE - transmit_max s) ce args in
  encode_fits (TX_BUFFER_SIZE - transmit_max s) e ->
  exists s', console_generate seq ce args (transmit_max s) s = Ret tt s' /\ tx_ok s' /\
    tx_stream s' = tx_stream s ++ encoded_frame seq e /\ uart_out s `prefix_of` uart_out s'.
Proof.
  intros Hs e [Hext He]. pose proof (irq_point_tx s Hs) as [Ok1 Str1 Buf1 Max1 Pos1 Sent1].
  unfold console_generate, command_encode_and_frame. fold e. set (s1 := irq_point s) in *.
  pose proof Ok1 as [Hl Hp]. rewrite Max1 in Hp. set (tmax := transmit_max s) in *.
  rewrite (proj2 (Nat.ltb_ge _ _)) by lia.
  assert (Hd : length (drop tmax (transmit_buf s1)) = (TX_BUFFER_SIZE - tmax)%nat)
    by (rewrite length_drop; lia).
  destruct e as [msglen out|out|out]; [..|done].
  - subst msglen. cbn [encode_extent] in Hext. unfold MESSAGE_MIN in *.
    rewrite (proj2 (Nat.eqb_neq _ _)) by lia.
    rewrite command_add_frame_eq by (unfold MESSAGE_MIN; lia). unfold MESSAGE_MIN.
    rewrite (proj2 (Nat.eqb_neq _ _)) by lia.
    pose proof (frame_length seq out) as Hf. unfold MESSAGE_MIN in Hf. rewrite <- Hf.
    edestruct (tx_append s1 (take tmax (transmit_buf s1) ++ frame seq out ++
      drop (length (frame seq out)) (drop tmax (transmit_buf s1)))) as [A1 A2]; [done|by rewrite Max1| |].
    { rewrite !length_app, !length_drop, length_take. lia. }
    eexists. split; [done|]. rewrite Max1 in A1, A2. cbn [encoded_frame]. rewrite <- Str1.
    done.
  - cbn [encode_extent] in Hext.
    edestruct (tx_append s1 (take tmax (transmit_buf s1) ++ [] ++
      list_inserts MESSAGE_HEADER_SIZE out (drop tmax (transmit_buf s1)))) as [A1 A2];
      [done|by rewrite Max1| |].
    { rewrite !length_app, length_inserts, length_drop, length_take. cbn. lia. }
    eexists. split; [done|]. cbn [encoded_frame]. rewrite <- Str1.
    cbn [length] in A1, A2. rewrite Nat.add_0_r in A1, A2. by destruct s1.
Qed.

Definition tx_pending (s : serial) : nat := transmit_max s - transmit_pos s.

(** Moving the waiting bytes to the start of the buffer. *)
Lemma tx_compact s :
  tx_ok s ->
  let s' := s <| transmit_max := 0%nat |>
              <| transmit_buf ::= memmove 0 (transmit_pos s) (tx_pending s) |>
              <| transmit_pos := 0%nat |> <| transmit_max := tx_pending s |> in
  tx_ok s' /\ tx_stream s' = tx_stream s.
Proof.
  intros [Hl Hp] s'. unfold s', tx_ok, tx_stream, tx_pending; cbn.
  rewrite memmove_length by lia. split; [lia|]. f_equal. rewrite slice_0.
  pose proof (memmove_take 0 (transmit_pos s) (transmit_max s - transmit_pos s)
    (transmit_buf s) ltac:(lia) ltac:(lia)) as E. cbn in E. rewrite E. rewrite take_0. cbn [app]. f_equal. lia.
Qed.

(** The outcome of [console_sendf] on the output stream: the message is
    dropped unseen only if its minimum size does not fit; otherwise it is
    encoded into at least that much space. *)
Definition sendf_output (seq : Z) (ce : command_encoder) (args : list va_arg) (s : serial)
    (out : list Z) : Prop :=
  (out = [] /\ (TX_BUFFER_SIZE < tx_pending s + ce_min_size ce)%nat) \/
  (exists size, (Nat.min (ce_min_size ce) (ce_max_size ce) <= size)%nat /\
    out = encoded_frame seq (command_encodef size ce args)).

Lemma console_sendf_run seq ce args s :
  tx_ok s -> (ce_max_size ce <= TX_BUFFER_SIZE)%nat ->
  (forall size, (size <= TX_BUFFER_SIZE)%nat ->
    (ce_min_size ce <= size)%nat \/ (ce_max_size ce <= size)%nat ->
    (TX_BUFFER_SIZE - tx_pending s <= size)%nat \/ (ce_max_size ce <= size)%nat ->
    encode_fits size (command_encodef size ce args)) ->
  exists s' out, console_sendf seq ce args s = Ret tt s' /\ tx_ok s' /\
    tx_stream s' = tx_stream s ++ out /\ uart_out s `prefix_of` uart_out s' /\
    sendf_output seq ce args s out /\
    ((transmit_max s + ce_max_size ce <= TX_BUFFER_SIZE)%nat ->
      out = encoded_frame seq (command_encodef TX_BUFFER_SIZE ce args)).
Proof.
  intros Hs Hmax Hfit. pose proof (irq_point_tx s Hs) as [Ok1 Str1 _ Max1 Pos1 Sent1].
  unfold console_sendf. set (s1 := irq_point s) in *. unfold tx_pending in *.
  assert (Hgen : forall s2 tmax, transmit_max s2 = tmax -> tx_ok s2 -> tx_stream s2 = tx_stream s ->
    uart_out s `prefix_of` uart_out s2 -> (tmax <= transmit_max s)%nat ->
    (ce_min_size ce <= TX_BUFFER_SIZE - tmax)%nat \/
      (ce_max_size ce <= TX_BUFFER_SIZE - tmax)%nat ->
    (tmax <= transmit_max s - transmit_pos s)%nat \/
      (ce_max_size ce <= TX_BUFFER_SIZE - tmax)%nat ->
    exists s' out, console_generate seq ce args tmax s2 = Ret tt s' /\ tx_ok s' /\
      tx_stream s' = tx_stream s ++ out /\ uart_out s `prefix_of` uart_out s' /\
      sendf_output seq ce args s out /\
      ((transmit_max s + ce_max_size ce <= TX_BUFFER_SIZE)%nat ->
        out = encoded_frame seq (command_encodef TX_BUFFER_SIZE ce args))).
  { intros s2 tmax <- Ok2 Str2 Sent2 Hle Hmin Hpend. destruct (Ok2) as [_ Hp2].
    destruct (console_generate_ok seq ce args s2 Ok2) as (s' & E & Ok' & Str' & Sent').
    { apply Hfit; [lia|done|lia]. }
    eexists s', _. split_and!; [done|done|by rewrite Str', Str2|by etrans| |].
    - right. eexists. split; [|done]. lia.
    - intros Hroom. f_equal. apply encodef_room; lia. }
  rewrite Max1. destruct (Nat.leb_spec (transmit_max s) (transmit_pos s)) as [Hd|Hd].
  - rewrite (proj2 (Nat.ltb_ge _ _)) by lia.
    destruct (Ok1) as [Hl1 Hp1], (Hs) as [_ Hp0].
    apply Hgen; cbn; [done| | |done|unfold TX_BUFFER_SIZE in *; lia..].
    + unfold tx_ok. cbn. lia.
    + rewrite <- Str1. unfold tx_stream; cbn. rewrite !slice_nil by lia. done.
  - destruct (Hs) as [_ Hp0].
    destruct (Nat.ltb_spec TX_BUFFER_SIZE (transmit_max s + ce_max_size ce)) as [Hf|Hf].
    + destruct (Nat.ltb_spec TX_BUFFER_SIZE (transmit_max s - transmit_pos s + ce_min_size ce)).
      * exists s1, []. rewrite app_nil_r. split_and!; [done..| |lia]. left. split; [done|].
        unfold tx_pending. lia.
      * pose proof (irq_point_tx s1 Ok1) as [Ok2 Str2 _ Max2 Pos2 Sent2].
        set (s2 := irq_point s1) in *. destruct (tx_compact s2 Ok2) as [Ok3 Str3].
        cbn in Ok3, Str3 |- *. unfold tx_pending in Ok3, Str3. rewrite Max2, Max1 in Ok3, Str3.
        apply Hgen; cbn; [done|done|congruence|by etrans|unfold TX_BUFFER_SIZE in *; lia..].
    + apply Hgen; [done..|lia|lia|lia].
Qed.

Lemma encode_fits_normal size ce args :
  args_match (ce_param_types ce) args = true ->
  (MESSAGE_MIN < ce_max_size ce)%nat -> (MESSAGE_MIN <= size)%nat ->
  encode_fits size (command_encodef size ce args).
Proof.
  intros Ha Hm Hs. destruct (encodef_bounds size ce args Hs Hm) as [H1 H2].
  pose proof (encodef_defined size ce args Ha) as H3. unfold encode_fits.
  destruct (command_encodef size ce args); cbn [encode_extent enc_out] in *; [|lia|done]. lia.
Qed.

(** Sending a response while the transmit interrupt drains the buffer.
    For every interrupt schedule [console_sendf] returns without storing
    outside its buffer, the output stream is the previous one followed by the
    complete frame of the message or by nothing, nothing already taken by the
    UART changes, and a message is dropped without being encoded only when its
    minimum size does not fit. *)
Theorem console_sendf_stream seq ce args s :
  tx_ok s -> args_match (ce_param_types ce) args = true ->
  (MESSAGE_MIN < ce_max_size ce <= TX_BUFFER_SIZE)%nat -> (MESSAGE_MIN <= ce_min_size ce)%nat ->
  exists s' out, console_sendf seq ce args s = Ret tt s' /\ tx_ok s' /\
    tx_stream s' = tx_stream s ++ out /\ uart_out s `prefix_of` uart_out s' /\
    sendf_output seq ce args s out /\
    ((transmit_max s + ce_max_size ce <= TX_BUFFER_SIZE)%nat ->
      out = encoded_frame seq (command_encodef TX_BUFFER_SIZE ce args)).
Proof.
  intros Hs Ha Hm Hn. apply console_sendf_run; [done|lia|].
  intros size H1 H2 H3. apply encode_fits_normal; [done|lia..].
Qed.

Definition demo_encoder : command_encoder := mk_command_encoder 20 11 7 [PT_uint32].

Lemma console_sendf_stream_witness :
  exists s' out, console_sendf 0x11 demo_encoder [VInt 300] (serial_init [[Tx]; [Tx; Rx 7]]) = Ret tt s' /\
    tx_ok s' /\ tx_stream s' = [] ++ out /\ [] `prefix_of` uart_out s' /\
    sendf_output 0x11 demo_encoder [VInt 300] (serial_init [[Tx]; [Tx; Rx 7]]) out /\
    ((0 + 11 <= 96)%nat -> out = frame 0x11 [20; 0x82; 0x2c]).
Proof.
  apply (console_sendf_stream 0x11 demo_encoder [VInt 300] (serial_init [[Tx]; [Tx; Rx 7]])).
  - split; vm_compute; lia.
  - reflexivity.
  - vm_compute. lia.
  - vm_compute. lia.
Defined.

Lemma ack_run seq s :
  tx_ok s -> (tx_pending s + MESSAGE_MIN <= TX_BUFFER_SIZE)%nat ->
  exists s', console_sendf seq encode_acknak [] s = Ret tt s' /\ tx_ok s' /\
    tx_stream s' = tx_stream s ++ frame seq [] /\ uart_out s `prefix_of` uart_out s'.
Proof.
  intros Hs Hp. destruct (console_sendf_run seq encode_acknak [] s Hs)
    as (s' & out & E & Ok & Str & Sent & [[_ H]|(size & _ & H)] & _).
  - cbn. unfold MESSAGE_MIN, TX_BUFFER_SIZE. lia.
  - intros size _ _ H. cbn in H. unfold MESSAGE_MIN, TX_BUFFER_SIZE in *.
    split; [|done]. cbn. lia.
  - cbn in H. unfold MESSAGE_MIN, TX_BUFFER_SIZE in *. lia.
  - exists s'. subst out. done.
Qed.

(** An acknowledgement is always sent when the waiting bytes leave
    MESSAGE_MIN bytes of the transmit buffer free. *)
Theorem console_sendf_ack seq s :
  tx_ok s -> (tx_pending s + MESSAGE_MIN <= TX_BUFFER_SIZE)%nat ->
  exists s', console_sendf seq encode_acknak [] s = Ret tt s' /\ tx_ok s' /\
    tx_stream s' = tx_stream s ++ frame seq [] /\ uart_out s `prefix_of` uart_out s'.
Proof. apply ack_run. Qed.

Lemma console_sendf_ack_witness :
  exists s', console_sendf 0x12 encode_acknak [] (serial_init []) = Ret tt s' /\ tx_ok s' /\
    tx_stream s' = [] ++ frame 0x12 [] /\ [] `prefix_of` uart_out s'.
Proof.
  apply (console_sendf_ack 0x12 (serial_init [])).
  - split; vm_compute; lia.
  - vm_compute. lia.
Defined.

(** C38: an acknowledgement overruns the transmit buffer.  encode_acknak leaves
    its [min_size] zero and [command_encodef] does not look at the space left
    for an ack, so when fewer than MESSAGE_MIN bytes are free once the waiting
    bytes are moved to the front (and the UART takes none meanwhile) the frame
    is stored past the end of [transmit_buf]. *)
Theorem console_sendf_ack_overflow seq s :
  tx_ok s -> irq_sched s = [] -> (TX_BUFFER_SIZE < tx_pending s + MESSAGE_MIN)%nat ->
  returned (console_sendf seq encode_acknak [] s) = false.
Proof.
  intros [Hl Hp] Hi Hpend. unfold tx_pending, MESSAGE_MIN, TX_BUFFER_SIZE in *.
  assert (Hirq : forall s', irq_sched s' = [] -> irq_point s' = s').
  { intros s' E. unfold irq_point. by rewrite E. }
  unfold console_sendf. rewrite !(Hirq s) by done.
  rewrite (proj2 (Nat.leb_gt _ _)) by lia. unfold encode_acknak; cbn [ce_max_size ce_min_size].
  unfold MESSAGE_MIN, TX_BUFFER_SIZE.
  rewrite (proj2 (Nat.ltb_lt _ _)), (proj2 (Nat.ltb_ge _ _)) by lia.
  unfold console_generate. rewrite Hirq by done.
  set (e := command_encodef _ _ _). assert (encode_extent e = 5%nat) as -> by done.
  unfold TX_BUFFER_SIZE. by rewrite (proj2 (Nat.ltb_lt _ _)) by (cbn; lia).
Qed.

(** Two messages of 46 bytes, as identify sends them, fill the buffer. *)
Definition demo_full : serial :=
  let ce := mk_command_encoder 1 64 8 [PT_uint32; PT_buffer] in
  let msg off := console_sendf 0x11 ce [VInt off; VBuffer 38 (replicate 38 7)] in
  final ((msg 0;;; msg 38) (serial_init [])).

Lemma console_sendf_ack_overflow_witness :
  transmit_max demo_full = 92%nat /\
  returned (console_sendf 0x11 encode_acknak [] demo_full) = false.
Proof.
  split; [vm_compute; reflexivity|].
  apply (console_sendf_ack_overflow 0x11 demo_full).
  - split; vm_compute; lia.
  - reflexivity.
  - vm_compute. lia.
Defined.

(** ** One round of the console task *)

Lemma console_pop_loop_tx fuel len copied s s' :
  tx_ok s -> console_pop_loop fuel len copied s = Ret tt s' -> tx_step s s'.
Proof.
  revert copied s. induction fuel as [|fuel IH]; intros copied s Hs; [done|].
  cbn [console_pop_loop]. pose proof (irq_point_tx s Hs) as H1.
  match goal with |- context [if negb (receive_pos s - len =? 0)%nat then ?x else ?y] =>
    set (cs := if negb (receive_pos s - len =? 0)%nat then x else y) end.
  assert (H2 : tx_step s cs.2) by (unfold cs; destruct (_ =? _)%nat; by destruct H1).
  destruct cs as [copied2 s2]. cbn [snd] in H2.
  pose proof (irq_point_tx s2 (txs_ok _ _ H2)) as H3.
  pose proof (tx_step_trans _ _ _ H2 H3) as H4.
  destruct (_ =? _)%nat; cbn [negb].
  - intros [= <-]. by destruct H4.
  - intros E. eapply tx_step_trans; [exact H4|]. eapply IH; [apply H4|done].
Qed.

Lemma tx_step_pending s s' : tx_step s s' -> (tx_pending s' <= tx_pending s)%nat.
Proof. intros []. unfold tx_pending. lia. Qed.

Lemma rx_step_ext new s s1 s2 :
  rx_step new s s1 -> receive_buf s2 = receive_buf s1 -> receive_pos s2 = receive_pos s1 ->
  rx_stored s2 = rx_stored s1 -> rx_step new s s2.
Proof.
  intros [O P S T N] E1 E2 E3.
  constructor; [unfold rx_ok in *; by rewrite E1, E2|congruence..].
Qed.

Lemma rx_step_pending new s s1 : rx_step new s s1 -> rx_pending s1 = rx_pending s ++ new.
Proof.
  intros [_ P _ T N]. unfold rx_pending. rewrite <- slice_0.
  rewrite (slice_split 0 (receive_pos s)) by lia. by rewrite slice_0, T, N.
Qed.

Lemma rx_step_irq new s s1 : rx_step new s s1 -> exists new', rx_step new' s (irq_point s1).
Proof.
  intros H. destruct (irq_point_rx s1 (rxs_ok _ _ _ H)) as [n Hn].
  eexists. by eapply rx_step_trans.
Qed.

Lemma console_generate_rx seq ce args tmax new s s1 s' :
  rx_step new s s1 -> console_generate seq ce args tmax s1 = Ret tt s' ->
  exists new', rx_step new' s s'.
Proof.
  intros H. destruct (rx_step_irq _ _ _ H) as [n Hn].
  unfold console_generate. destruct (_ <? _)%nat; [done|].
  destruct (command_encodef _ _ _); [..|done].
  all: destruct (command_encode_and_frame _ _ _ _ _) as [len b].
  all: destruct (len =? 0)%nat; intros [= <-]; exists n; by eapply rx_step_ext.
Qed.

Lemma console_sendf_rx seq ce args s s' :
  rx_ok s -> console_sendf seq ce args s = Ret tt s' -> exists new, rx_step new s s'.
Proof.
  intros Hs. destruct (rx_step_irq _ _ _ (rx_step_refl s Hs)) as [n1 H1].
  unfold console_sendf.
  set (t := if (_ <=? _)%nat then _ else _).
  assert (H2 : rx_step n1 s t.2) by (unfold t; destruct (_ <=? _)%nat; [by eapply rx_step_ext|done]).
  destruct t as [[tpos tmax] s2]. cbn [snd] in H2.
  destruct (_ <? _)%nat; [destruct (_ <? _)%nat|].
  - intros [= <-]. by exists n1.
  - destruct (rx_step_irq _ _ _ H2) as [n2 H3]. apply (console_generate_rx _ _ _ _ n2).
    by eapply rx_step_ext.
  - by apply (console_generate_rx _ _ _ _ n1).
Qed.

Section console_facts.
Context {A : Type}.
Context (sizeof_size_t console_receive_buffer : Z).
Context (command_index : Z -> command_parser) (command_index_size : Z).
Context (func : Z -> list Z -> M (console A) unit).
Context (encode_is_shutdown : command_encoder).

Abbreviation task := (console_task sizeof_size_t console_receive_buffer command_index
  command_index_size func encode_is_shutdown).
Abbreviation run := (run_commands command_index con_is_shutdown
  (sched_report_shutdown encode_is_shutdown) func).

Lemma command_send_ack_ok (c : console A) :
  tx_ok (con_ser c) -> in_sendf c = 0 -> (tx_pending (con_ser c) + MESSAGE_MIN <= TX_BUFFER_SIZE)%nat ->
  rx_ok (con_ser c) ->
  exists s' new, command_send_ack c = Ret tt (c <| con_ser := s' |>) /\ tx_ok s' /\
    tx_stream s' = tx_stream (con_ser c) ++ frame (next_sequence (con_cmd c)) [] /\
    rx_step new (con_ser c) s'.
Proof.
  intros Hs Hi Hp Hr. unfold command_send_ack, command_sendf. rewrite Hi. cbn [truthy Z.eqb negb].
  unfold bind, zoom, modify; cbn.
  destruct (ack_run (next_sequence (con_cmd c)) (con_ser c) Hs Hp) as (s' & E & Ok & Str & _).
  destruct (console_sendf_rx _ _ _ _ _ Hr E) as [new Hnew].
  rewrite E. exists s', new. split_and!; [|done..]. destruct c; cbn in *; by subst.
Qed.

(** C25: end to end on the firmware side.  When the received bytes start with
    the block that encodes the commands [cmds] under the expected sequence
    number, one round of [console_task] runs exactly their handlers, in order
    and with their arguments, removes exactly this block from the received
    bytes, acknowledges it with the next sequence number, and keeps every byte
    received meanwhile.  The handlers may do anything to the rest of the
    machine, as long as they leave the console buffers consistent. *)
Theorem console_task_commands c cmds rest c1 n1 :
  let seq := next_sequence (con_cmd c) in
  let c0 := c <| con_cmd := fst (command_find_block (con_cmd c) (rx_pending (con_ser c))) |> in
  seq_byte seq -> need_sync (con_cmd c) = false ->
  rx_ok (con_ser c) ->
  rx_pending (con_ser c) = frame seq (concat (encode_command <$> cmds)) ++ rest ->
  (length (concat (encode_command <$> cmds)) <= MESSAGE_PAYLOAD_MAX)%nat ->
  Forall (command_ok command_index command_index_size) cmds ->
  run cmds c0 = DispatchDone c1 ->
  rx_step n1 (con_ser c) (con_ser c1) -> tx_ok (con_ser c1) ->
  (tx_pending (con_ser c1) + MESSAGE_MIN <= TX_BUFFER_SIZE)%nat ->
  con_cmd c1 = con_cmd c0 -> in_sendf c1 = 0 ->
  next_sequence (con_cmd c0) = seq_next seq /\
  exists s2 n2, task c = Ret tt (c1 <| con_ser := s2 |>) /\ tx_ok s2 /\
    rx_pending s2 = rest ++ n2 /\ rx_stored s2 = rx_stored (con_ser c) ++ n2 /\
    tx_stream s2 = tx_stream (con_ser c1) ++ frame (seq_next seq) [].
Proof.
  intros seq c0 Hq Hsy Hrx Hpend Hlen Hc Hrun Hstep Htx1 Htp Hcmd Hin.
  set (payload := concat (encode_command <$> cmds)) in *.
  pose proof (find_block_frame (con_cmd c) seq payload rest Hsy Hq Hlen) as Hfb.
  cbv zeta in Hfb. unfold seq at 2 in Hfb. rewrite Z.eqb_refl, <- Hpend in Hfb.
  assert (Hns : next_sequence (con_cmd c0) = seq_next seq).
  { unfold c0. cbn. by rewrite Hfb. }
  split; [done|].
  assert (Htask : task c = (zoom con_ser (console_pop_input (length payload + MESSAGE_MIN));;;
    command_send_ack) c1).
  { unfold console_task. fold (rx_pending (con_ser c)). unfold c0 in Hrun.
    rewrite Hfb in Hrun |- *. cbn [fst fr_ret fr_pop fr_acknak Z.ltb Z.eqb Z.compare negb] in *.
    unfold bind at 1, ret at 1. rewrite Hpend.
    replace (length payload + MESSAGE_MIN)%nat with (length (frame seq payload)) by apply frame_length.
    rewrite take_app_length. unfold payload. rewrite dispatch_frame_commands by done.
    by rewrite Hrun. }
  rewrite Htask. unfold bind at 1, zoom.
  assert (Hp1 : rx_pending (con_ser c1) = (frame seq payload ++ rest) ++ n1).
  { by rewrite (rx_step_pending _ _ _ Hstep), Hpend. }
  assert (Hpos : length (rx_pending (con_ser c1)) = receive_pos (con_ser c1)).
  { destruct Hstep as [[? ?] _ _ _ _]. unfold rx_pending. rewrite length_take. lia. }
  destruct (pop_input_run (length payload + MESSAGE_MIN) (con_ser c1)) as (s1 & n2 & E & Ok & Hst & Hp).
  { apply Hstep. }
  { rewrite <- Hpos, Hp1, !length_app, frame_length. lia. }
  pose proof (console_pop_loop_tx _ _ _ _ _ Htx1 E) as Htx. rewrite E.
  destruct (command_send_ack_ok (c1 <| con_ser := s1 |>)) as (s2 & n3 & E2 & Ok2 & Str2 & Hr2);
    [apply Htx|done|cbn; pose proof (tx_step_pending _ _ Htx); lia|done|].
  cbn in Str2, Hr2. rewrite Hcmd, Hns, (txs_stream _ _ Htx) in Str2.
  exists s2, (n1 ++ n2 ++ n3). rewrite E2. split_and!; [done|done| | |done].
  - rewrite (rx_step_pending _ _ _ Hr2), Hp, Hp1. cbn [con_ser set].
    rewrite <- !app_assoc, <- (frame_length seq), drop_app_length. by rewrite <- !app_assoc.
  - rewrite (rxs_stored _ _ _ Hr2), Hst, (rxs_stored _ _ _ Hstep). by rewrite !app_assoc.
Qed.
End console_facts.

(** A console that has received the block of two commands and one more byte. *)
Definition demo_cmds : list (Z * list Z) := [(5, [7; 0xffffffff]); (6, [300; 0])].
Definition demo_console : console (list (Z * list Z)) :=
  let blk := frame 0x10 (concat (encode_command <$> demo_cmds)) in
  mk_console cmd_init
    (fold_left (fun s b => serial_rx_byte b s) (blk ++ [9]) (serial_init [[]; [Rx 4]; [Rx 5]])) 0 [].
Definition demo_handler (id : Z) (args : list Z) : M (console (list (Z * list Z))) unit :=
  modify (fun c => c <| con_app ::= fun log => log ++ [(id, args)] |>).

Lemma console_task_commands_witness :
  let task := console_task 8 0 demo_index 10 demo_handler demo_encoder in
  exists c, task demo_console = Ret tt c /\ con_app c = demo_cmds /\
    tx_stream (con_ser c) = frame 0x11 [] /\
    exists n, rx_pending (con_ser c) = [9] ++ n.
Proof.
  destruct (console_task_commands 8 0 demo_index 10 demo_handler demo_encoder demo_console demo_cmds
    [9] (demo_console <| con_cmd := mk_cmd_state 0x11 0 |> <| con_app := demo_cmds |>) [])
    as (_ & s2 & n2 & E & _ & Hp & _ & Hs).
  - split; vm_compute; congruence.
  - reflexivity.
  - split; vm_compute; lia.
  - vm_compute. reflexivity.
  - vm_compute. lia.
  - unfold command_ok. repeat constructor; cbn; lia.
  - vm_compute. reflexivity.
  - assert (Hrefl : forall (c : console (list (Z * list Z))) x y, rx_ok (con_ser c) ->
      rx_step [] (con_ser c) (con_ser (c <| con_cmd := x |> <| con_app := y |>)))
      by (intros; by apply rx_step_refl).
    apply Hrefl. split; vm_compute; lia.
  - split; vm_compute; lia.
  - vm_compute. lia.
  - vm_compute. reflexivity.
  - reflexivity.
  - eexists. split; [exact E|]. split; [reflexivity|]. split; [exact Hs|]. exists n2. exact Hp.
Defined.
