(* ===== verification/Basecmd.v ===== *)
(** * Base commands: memory pool, move queues, object ids, statistics
    (src/basecmd.c, src/generic/alloc.c)

    Pointers into the pool are addresses ([Z]); [mnext] is the memory of the
    [next] fields of the move nodes.  Messages are recorded in [bc_out] with
    their format string. *)

From S2P Require Import Prelude Command Clock Sched.

(** ** State *)

Record oid_s := mk_oid_s { oid_type : Z; oid_data : Z }.
Record move_queue_head := mk_move_queue_head {
  first : option Z;
  last : option Z }.
#[export] Instance eta_move_queue_head : Eta move_queue_head := fun h =>
  mk_move_queue_head (first h) (last h).

Abbreviation message := (string * list va_arg)%type.

Record basecmd := mk_basecmd {
  alloc_end : Z;
  move_free_list : option Z;
  mnext : Z -> option Z;
  move_list : Z;
  move_count : Z;
  move_item_size : Z;
  oids : option Z;
  oid_tab : Z -> oid_s;
  oid_count : Z;
  config_crc : Z;
  stats_send_time : Z;
  stats_send_time_high : Z;
  st_count : Z;
  st_sum : Z;
  st_sumsq : Z;
  bc_sched : sched;
  bc_out : list message }.
#[export] Instance eta_basecmd : Eta basecmd := fun s =>
  mk_basecmd (alloc_end s) (move_free_list s) (mnext s) (move_list s) (move_count s)
    (move_item_size s) (oids s) (oid_tab s) (oid_count s) (config_crc s) (stats_send_time s)
    (stats_send_time_high s) (st_count s) (st_sum s) (st_sumsq s) (bc_sched s) (bc_out s).

Definition sendf (fmt : string) (args : list va_arg) : M basecmd unit :=
  modify (fun s => s <| bc_out ::= fun l => l ++ [(fmt, args)] |>).

(** ** Low level allocation *)

Definition ALIGN (v a : Z) : Z := Z.land (v + (a - 1)) (Z.lnot (a - 1)).

(** The pool of src/generic/alloc.c. *)
Definition dynmem_pool_size : Z := 20 * 1024.

Section basecmd.
(** The pool's bounds and the size (and alignment) of a pointer. *)
Context (dynmem_start dynmem_end sizeof_ptr : Z).

Definition alloc_init (s : basecmd) : basecmd :=
  s <| alloc_end := ALIGN dynmem_start sizeof_ptr |>.

(** The [memset] is modelled at the callers whose fields the model keeps. *)
Definition alloc_chunk (size : Z) : M basecmd Z := fun s =>
  if dynmem_end <? alloc_end s + size then Halt "alloc_chunk failed" s
  else Ret (alloc_end s) (s <| alloc_end ::= fun e => e + ALIGN size sizeof_ptr |>).

(** The counting loop of [alloc_chunks]: the final [can_alloc] and [p]. *)
Fixpoint alloc_chunks_loop (count : nat) (size p : Z) : nat * Z :=
  match count with
  | O => (0%nat, p)
  | S count =>
    if p + size <=? dynmem_end
    then let '(n, q) := alloc_chunks_loop count size (p + size) in (S n, q)
    else (0%nat, p)
  end.

Definition alloc_chunks (size : Z) (count : nat) : M basecmd (Z * Z) := fun s =>
  let '(can_alloc, p) := alloc_chunks_loop count size (alloc_end s) in
  if (can_alloc =? 0)%nat then Halt "alloc_chunks failed" s
  else (data <- alloc_chunk (p - alloc_end s);; ret (data, u16 (Z.of_nat can_alloc))) s.

(** ** Move queue *)

Definition is_finalized (s : basecmd) : bool := truthy (move_count s).

Definition set_mnext (p : Z) (n : option Z) (s : basecmd) : basecmd :=
  s <| mnext ::= <[p := n]> |>.

Definition move_free (m : Z) (s : basecmd) : basecmd :=
  set_mnext m (move_free_list s) s <| move_free_list := Some m |>.

Definition move_alloc : M basecmd Z := fun s =>
  match move_free_list s with
  | None => Halt "Move queue overflow" s
  | Some mf => Ret mf (s <| move_free_list := mnext s mf |>)
  end.

Definition move_queue_empty (mh : move_queue_head) : bool := bool_decide (first mh = None).
Definition move_queue_first (mh : move_queue_head) : option Z := first mh.

(** The new head, the returned flag and the memory. *)
Definition move_queue_push (m : Z) (mh : move_queue_head)
    : M basecmd (move_queue_head * Z) := fun s =>
  let s := set_mnext m None s in
  match first mh with
  | Some _ =>
    match last mh with
    | Some l => Ret (mh <| last := Some m |>, 0) (set_mnext l (Some m) s)
    | None => Crash s
    end
  | None => Ret (mk_move_queue_head (Some m) (Some m), 1) s
  end.

Definition move_queue_pop (mh : move_queue_head) : M basecmd (move_queue_head * Z) := fun s =>
  match first mh with
  | Some mn => Ret (mh <| first := mnext s mn |>, mn) s
  | None => Crash s
  end.

Definition move_queue_clear (mh : move_queue_head) : move_queue_head := mh <| first := None |>.

Definition move_queue_setup (size : Z) : M basecmd move_queue_head := fun s =>
  if (0xff <? size) || is_finalized s then Halt "Invalid move request size" s
  else Ret (mk_move_queue_head None None)
         (if move_item_size s <? size then s <| move_item_size := size |> else s).

(** The address of the [i]-th node. *)
Definition move_node_at (s : basecmd) (i : Z) : Z := move_list s + i * move_item_size s.

Fixpoint move_reset_loop (n : nat) (s : basecmd) : basecmd :=
  match n with
  | O => s
  | S n =>
    let s := move_reset_loop n s in
    let i := Z.of_nat n in
    set_mnext (move_node_at s i) (Some (move_node_at s (i + 1))) s
  end.

Definition move_reset (s : basecmd) : basecmd :=
  if negb (truthy (move_count s)) then s else
  let s := move_reset_loop (Z.to_nat (move_count s - 1)) s in
  let s := set_mnext (move_node_at s (move_count s - 1)) None s in
  s <| move_free_list := Some (move_list s) |>.

Definition move_finalize : M basecmd unit := fun s =>
  if is_finalized s then Halt "Already finalized" s else
  (move_queue_setup sizeof_ptr;;;
   (fun s => (r <- alloc_chunks (move_item_size s) 1024;;
              modify (fun s => s <| move_list := r.1 |> <| move_count := r.2 |>)) s);;;
   modify move_reset) s.

(** ** Object ids *)

Definition oid_lookup (oid type : Z) : M basecmd Z := fun s =>
  if (oid_count s <=? oid) || negb (type =? oid_type (oid_tab s oid))
  then Halt "Invalid oid type" s
  else Ret (oid_data (oid_tab s oid)) s.

Definition oid_alloc (oid type size : Z) : M basecmd Z := fun s =>
  if (oid_count s <=? oid) || truthy (oid_type (oid_tab s oid)) || is_finalized s
  then Halt "Can't assign oid" s
  else
    let e := oid_tab s oid in
    (modify (fun s => s <| oid_tab ::= <[oid := mk_oid_s type (oid_data e)]> |>);;;
     data <- alloc_chunk size;;
     modify (fun s => s <| oid_tab ::= <[oid := mk_oid_s type data]> |>);;;
     ret data) s.

(** The search of [oid_next]; [oid] is a uint8_t. *)
Fixpoint oid_next_loop (fuel : nat) (s : basecmd) (oid type : Z) : option (option (Z * Z)) :=
  match fuel with
  | O => None
  | S fuel =>
    let oid := u8 (oid + 1) in
    if oid_count s <=? oid then Some None
    else if oid_type (oid_tab s oid) =? type
         then Some (Some (oid, oid_data (oid_tab s oid)))
         else oid_next_loop fuel s oid type
  end.
Definition oid_next (s : basecmd) (i type : Z) : option (option (Z * Z)) :=
  oid_next_loop 256 s i type.

(** [foreach_oid(pos, data, oidtype)]: a NULL pointer ends the iteration. *)
Fixpoint foreach_oid_from {W} (n : nat) (base : W -> basecmd) (oidtype pos : Z) (body : Z -> Z -> M W unit)
    : M W unit := fun w =>
  match n with
  | O => Crash w
  | S n =>
    match oid_next (base w) pos oidtype with
    | None => Crash w
    | Some None => Ret tt w
    | Some (Some (pos, data)) =>
      if data =? 0 then Ret tt w else (body pos data;;; foreach_oid_from n base oidtype pos body) w
    end
  end.
Definition foreach_oid {W} (base : W -> basecmd) (oidtype : Z) (body : Z -> Z -> M W unit) : M W unit :=
  foreach_oid_from 257 base oidtype (u8 (-1)) body.

Definition command_allocate_oids (args0 : Z) : M basecmd unit := fun s =>
  match oids s with
  | Some _ => Halt "oids already allocated" s
  | None =>
    let count := u8 args0 in
    (data <- alloc_chunk (2 * sizeof_ptr * count);;
     modify (fun s => s <| oids := Some data |> <| oid_tab := fun _ => mk_oid_s 0 0 |>
                        <| oid_count := count |>)) s
  end.

(** ** Configuration *)

Definition command_get_config : M basecmd unit := fun s =>
  sendf "config is_config=%c crc=%u is_shutdown=%c move_count=%hu"
    [VInt (b2z (is_finalized s)); VInt (config_crc s);
     VInt (b2z (sched_is_shutdown (bc_sched s))); VInt (move_count s)] s.

Definition command_finalize_config (args0 : Z) : M basecmd unit :=
  move_finalize;;; modify (fun s => s <| config_crc := args0 |>).

Definition config_reset : M basecmd unit := fun s =>
  if negb (sched_is_shutdown (bc_sched s))
  then Halt "config_reset only available when shutdown" s
  else
    let s := s <| config_crc := 0 |> <| oid_count := 0 |> <| oids := None |>
               <| move_free_list := None |> <| move_list := 0 |>
               <| move_count := 0 |> <| move_item_size := 0 |> in
    let s := alloc_init s in
    let s := s <| bc_sched ::= sched_timer_reset |> in
    zoom bc_sched sched_clear_shutdown s.

(** ** Timing and load statistics *)

Definition command_get_clock (now : Z) : M basecmd unit := sendf "clock clock=%u" [VInt now].

Definition command_get_uptime (now : Z) : M basecmd unit := fun s =>
  let cur := now in
  let high := u32 (stats_send_time_high s + b2z (cur <? stats_send_time s)) in
  sendf "uptime high=%u clock=%u" [VInt high; VInt cur] s.

Definition timer_has_elapsed (start cur duration : Z) : bool := duration <=? u32 (cur - start).

Definition SUMSQ_BASE : Z := 256.

Definition next_sumsq (sumsq diff : Z) : Z :=
  let nextsumsq :=
    if diff <=? 0xffff
    then u32 (sumsq + DIV_ROUND_UP (u32 (diff * diff)) SUMSQ_BASE)
    else if diff <=? 0xfffff
    then u32 (sumsq + u32 (DIV_ROUND_UP diff SUMSQ_BASE * diff))
    else 0xffffffff in
  if nextsumsq <? sumsq then 0xffffffff else nextsumsq.

Definition stats_update (CONFIG_CLOCK_FREQ start cur : Z) : M basecmd unit := fun s =>
  let diff := u32 (cur - start) in
  let s := s <| st_count ::= fun c => u32 (c + 1) |> <| st_sum ::= fun x => u32 (x + diff) |>
             <| st_sumsq ::= fun q => next_sumsq q diff |> in
  if negb (timer_has_elapsed (stats_send_time s) cur (timer_from_us CONFIG_CLOCK_FREQ 5000000))
  then Ret tt s
  else
    (sendf "stats count=%u sum=%u sumsq=%u"
       [VInt (st_count s); VInt (st_sum s); VInt (st_sumsq s)];;;
     modify (fun s =>
       let s := if cur <? stats_send_time s
                then s <| stats_send_time_high ::= fun h => u32 (h + 1) |> else s in
       s <| stats_send_time := cur |> <| st_count := 0 |> <| st_sum := 0 |> <| st_sumsq := 0 |>)) s.

(** ** Misc commands *)

Definition command_emergency_stop : M basecmd unit := shutdown "Command request".
Definition command_clear_shutdown : M basecmd unit := zoom bc_sched sched_clear_shutdown.

(** [command_identify_data] is generated at build time. *)
Definition command_identify (command_identify_data : list Z) (args0 args1 : Z)
    : M basecmd unit :=
  let offset := args0 in
  let count := u8 args1 in
  let isize := Z.of_nat (length command_identify_data) in
  let count := if isize <=? offset then 0
               else if isize <? u32 (offset + count) then u8 (isize - offset) else count in
  sendf "identify_response offset=%u data=%.*s"
    [VInt offset; VBuffer count (drop (Z.to_nat offset) command_identify_data)].
End basecmd.

(** ** Move queues are FIFO queues over one pool of nodes *)

Fixpoint chain (m : Z -> option Z) (p : option Z) (l : list Z) : Prop :=
  match l with
  | [] => p = None
  | x :: l => p = Some x /\ chain m (m x) l
  end.

Definition queue_rep (m : Z -> option Z) (h : move_queue_head) (q : list Z) : Prop :=
  chain m (first h) q /\ (q <> [] -> last h = list.last q).

Lemma chain_ext m m' p l : (forall x, x ∈ l -> m' x = m x) -> chain m p l -> chain m' p l.
Proof.
  revert p. induction l as [|x l IH]; intros p He; cbn; [done|]. intros [-> H]. split; [done|].
  rewrite He by set_solver. apply IH; [set_solver|done].
Qed.

Lemma chain_insert_ne m p l x v : x ∉ l -> chain m p l -> chain (<[x := v]> m) p l.
Proof.
  intros Hx. apply chain_ext. intros y Hy. apply fn_lookup_insert_ne. by intros ->.
Qed.

(** Linking [x] behind the last element [y]. *)
Lemma chain_snoc m p l x y :
  NoDup (l ++ [y]) -> x ∉ l ++ [y] -> chain m p (l ++ [y]) ->
  chain (<[y := Some x]> (<[x := None]> m)) p (l ++ [y; x]).
Proof.
  revert p. induction l as [|z l IH]; intros p Hd Hx; cbn in *.
  - intros [-> _]. split; [done|]. rewrite fn_lookup_insert. split; [done|].
    rewrite fn_lookup_insert_ne by set_solver. by rewrite fn_lookup_insert.
  - intros [-> H]. apply NoDup_cons in Hd as [Hz Hd]. split; [done|].
    rewrite !fn_lookup_insert_ne by set_solver. apply IH; [done|set_solver|done].
Qed.

Lemma queue_rep_insert_ne m h q x v : x ∉ q -> queue_rep m h q -> queue_rep (<[x := v]> m) h q.
Proof. intros Hx [H1 H2]. split; [by apply chain_insert_ne|done]. Qed.

Lemma push_spec s h q x :
  queue_rep (mnext s) h q -> NoDup q -> x ∉ q ->
  exists h' s', move_queue_push x h s = Ret (h', b2z (bool_decide (q = []))) s' /\
    queue_rep (mnext s') h' (q ++ [x]) /\
    (forall p l, x ∉ l -> (forall y, y ∈ q -> y ∉ l) -> chain (mnext s) p l -> chain (mnext s') p l) /\
    s' = s <| mnext := mnext s' |>.
Proof.
  intros [Hc Hl] Hd Hx. unfold move_queue_push, set_mnext.
  destruct q as [|y0 q0] using rev_ind; [|clear IHq0].
  - cbn in Hc. rewrite Hc. eexists _, _. split; [done|]. cbn. split_and!; [|intros; by apply chain_insert_ne|done].
    split; [|done]. cbn. split; [done|]. by rewrite fn_lookup_insert.
  - destruct (first h) as [f|] eqn:Ef; [|destruct q0; by destruct Hc].
    rewrite Hl, last_snoc by (by destruct q0). rewrite bool_decide_false by (by destruct q0).
    eexists _, _. split; [done|]. cbn. rewrite <- app_assoc. split_and!; [|..|done].
    + split; cbn; [rewrite Ef; by apply chain_snoc|]. intros _. change [y0; x] with ([y0] ++ [x]).
      by rewrite app_assoc, last_snoc.
    + intros p l Hxl Hql Hch. apply chain_insert_ne; [apply Hql; set_solver|]. by apply chain_insert_ne.
Qed.

Lemma pop_spec s h x q :
  queue_rep (mnext s) h (x :: q) ->
  exists h', move_queue_pop h s = Ret (h', x) s /\ queue_rep (mnext s) h' q.
Proof.
  intros [[Hf Hc] Hl]. unfold move_queue_pop. rewrite Hf. eexists. split; [done|].
  split; cbn; [done|]. intros Hq. rewrite Hl by done. by destruct q.
Qed.

(** The nodes of the pool. *)
Definition move_nodes (s : basecmd) : list Z := move_node_at s <$> seqZ 0 (move_count s).

Lemma move_nodes_nodup s : 0 < move_item_size s -> NoDup (move_nodes s).
Proof.
  intros H. unfold move_nodes. apply NoDup_fmap_2; [|apply NoDup_seqZ].
  intros i j. unfold move_node_at. nia.
Qed.

Lemma move_reset_loop_spec n s :
  let s' := move_reset_loop n s in
  s' = s <| mnext := mnext s' |> /\
  (0 < move_item_size s -> forall i, 0 <= i < Z.of_nat n ->
    mnext s' (move_node_at s i) = Some (move_node_at s (i + 1))).
Proof.
  induction n as [|n [IH1 IH2]]; cbn [move_reset_loop]; [split; [by destruct s|lia]|].
  set (s1 := move_reset_loop n s) in *.
  assert (Ha : forall i, move_node_at s1 i = move_node_at s i) by (intros; by rewrite IH1).
  cbv zeta. unfold set_mnext. rewrite !Ha. split.
  - rewrite IH1 at 1. by destruct s.
  - intros Hz i Hi. cbn. destruct (decide (i = Z.of_nat n)) as [->|].
    + by rewrite fn_lookup_insert.
    + rewrite fn_lookup_insert_ne by (unfold move_node_at; nia). apply IH2; [done|lia].
Qed.

Lemma move_reset_chain s :
  0 < move_item_size s -> 0 < move_count s ->
  let s' := move_reset s in
  chain (mnext s') (move_free_list s') (move_nodes s) /\
  s' = s <| mnext := mnext s' |> <| move_free_list := move_free_list s' |>.
Proof.
  intros Hz Hc. unfold move_reset, truthy. rewrite (proj2 (Z.eqb_neq _ _)) by lia. cbn [negb].
  destruct (move_reset_loop_spec (Z.to_nat (move_count s - 1)) s) as [E Hn]. specialize (Hn Hz).
  set (s1 := move_reset_loop _ s) in *.
  assert (Ha : forall i, move_node_at s1 i = move_node_at s i) by (intros; by rewrite E).
  assert (Ec : move_count s1 = move_count s) by (by rewrite E). rewrite Ha, Ec.
  cbv zeta. unfold set_mnext. cbn. split; [|rewrite E at 1; by destruct s].
  set (m := <[_ := _]> _).
  assert (Hm : forall i, 0 <= i < move_count s ->
    m (move_node_at s i) = if i =? move_count s - 1 then None else Some (move_node_at s (i + 1))).
  { intros i Hi. unfold m. destruct (Z.eqb_spec i (move_count s - 1)) as [->|].
    - by rewrite fn_lookup_insert.
    - rewrite fn_lookup_insert_ne by (unfold move_node_at; nia). apply Hn. lia. }
  assert (Hl : move_list s1 = move_node_at s 0) by (rewrite E; unfold move_node_at; cbn; lia).
  rewrite Hl. unfold move_nodes. clear -Hm Hc.
  enough (forall k i, 0 <= i -> i + Z.of_nat (S k) = move_count s ->
    chain m (Some (move_node_at s i)) (move_node_at s <$> seqZ i (Z.of_nat (S k)))) as H.
  { replace (move_count s) with (Z.of_nat (S (Z.to_nat (move_count s - 1)))) at 1 by lia.
    apply H; lia. }
  induction k as [|k IH]; intros i Hi Hk.
  - cbn. split; [done|]. rewrite Hm by lia. by rewrite (proj2 (Z.eqb_eq _ _)) by lia.
  - rewrite (seqZ_cons i) by lia. cbn [fmap list_fmap chain]. split; [done|].
    rewrite Hm, (proj2 (Z.eqb_neq _ _)) by lia.
    replace (Z.pred (Z.of_nat (S (S k)))) with (Z.of_nat (S k)) by lia.
    replace (Z.succ i) with (i + 1) by lia. apply IH; lia.
Qed.

(** *** Concrete and abstract steps *)

Inductive move_event : Type :=
| EvAlloc (x : Z)            (* move_alloc returned x *)
| EvPush (i : nat) (x r : Z) (* x pushed to queue i, which returned r *)
| EvPop (i : nat) (x : Z)    (* x popped from queue i *)
| EvFree (x : Z)
| EvReset.                   (* shutdown: all queues cleared, move_reset *)

Inductive pool_step : basecmd * list move_queue_head -> move_event ->
    basecmd * list move_queue_head -> Prop :=
| pool_alloc s hs x s' :
    move_alloc s = Ret x s' -> pool_step (s, hs) (EvAlloc x) (s', hs)
| pool_push s hs i h x h' r s' :
    hs !! i = Some h -> move_queue_push x h s = Ret (h', r) s' ->
    pool_step (s, hs) (EvPush i x r) (s', <[i := h']> hs)
| pool_pop s hs i h x h' s' :
    hs !! i = Some h -> move_queue_empty h = false -> move_queue_pop h s = Ret (h', x) s' ->
    pool_step (s, hs) (EvPop i x) (s', <[i := h']> hs)
| pool_free s hs x : pool_step (s, hs) (EvFree x) (move_free x s, hs)
| pool_reset s hs : pool_step (s, hs) EvReset (move_reset s, move_queue_clear <$> hs).

(** The promise of the pool: free nodes, FIFO queues and nodes in the hands
    of the caller. *)
Record apool := mk_apool { a_free : list Z; a_queues : list (list Z); a_held : list Z }.

Inductive apool_step (nodes : list Z) : apool -> move_event -> apool -> Prop :=
| apool_alloc x free qs held :
    apool_step nodes (mk_apool (x :: free) qs held) (EvAlloc x) (mk_apool free qs (x :: held))
| apool_push free qs held held' i q x :
    qs !! i = Some q -> held ≡ₚ x :: held' ->
    apool_step nodes (mk_apool free qs held) (EvPush i x (b2z (bool_decide (q = []))))
      (mk_apool free (<[i := q ++ [x]]> qs) held')
| apool_pop free qs held i q x :
    qs !! i = Some (x :: q) ->
    apool_step nodes (mk_apool free qs held) (EvPop i x) (mk_apool free (<[i := q]> qs) (x :: held))
| apool_free_node free qs held held' x :
    held ≡ₚ x :: held' ->
    apool_step nodes (mk_apool free qs held) (EvFree x) (mk_apool (x :: free) qs held')
| apool_reset free qs held :
    apool_step nodes (mk_apool free qs held) EvReset (mk_apool nodes ((fun _ => []) <$> qs) []).

(** Callers push and free only nodes they hold. *)
Definition client_ok (a : apool) (ev : move_event) : Prop :=
  match ev with EvPush _ x _ | EvFree x => x ∈ a_held a | _ => True end.

Record pool_rep (s : basecmd) (hs : list move_queue_head) (a : apool) : Prop := {
  pr_size : 0 < move_item_size s /\ 0 < move_count s;
  pr_free : chain (mnext s) (move_free_list s) (a_free a);
  pr_queues : Forall2 (queue_rep (mnext s)) hs (a_queues a);
  pr_nodup : NoDup (a_free a ++ concat (a_queues a) ++ a_held a) }.

Lemma concat_insert {A} (qs : list (list A)) i q q' :
  qs !! i = Some q -> exists r, concat qs ≡ₚ q ++ r /\ concat (<[i := q']> qs) ≡ₚ q' ++ r.
Proof.
  revert i. induction qs as [|x qs IH]; intros [|i] H; cbn in *; [done..| |].
  - injection H as ->. by exists (concat qs).
  - destruct (IH _ H) as (r & E1 & E2). exists (x ++ r). rewrite E1, E2.
    split; [rewrite !app_assoc; by rewrite (Permutation_app_comm x)
           |rewrite !app_assoc; by rewrite (Permutation_app_comm x)].
Qed.

Lemma queue_elem (qs : list (list Z)) i q x : qs !! i = Some q -> x ∈ q -> x ∈ concat qs.
Proof.
  revert i. induction qs as [|p qs IH]; intros [|i] Hi Hx; cbn in *; [done..| |]; rewrite elem_of_app.
  - left. congruence.
  - right. by eapply IH.
Qed.

Lemma queues_disjoint (qs : list (list Z)) i j q q' x :
  NoDup (concat qs) -> qs !! i = Some q -> qs !! j = Some q' -> i <> j -> x ∈ q -> x ∉ q'.
Proof.
  revert i j. induction qs as [|p qs IH]; intros [|i] [|j] Hd Hi Hj Hij Hx; cbn in *; try done.
  - injection Hi as ->. apply NoDup_app in Hd as (_ & Hd & _). intros Hx'.
    apply (Hd x Hx). by eapply queue_elem.
  - injection Hj as ->. apply NoDup_app in Hd as (_ & Hd & _). intros Hx'.
    apply (Hd x Hx'). by eapply queue_elem.
  - apply NoDup_app in Hd as (_ & _ & Hd). apply (IH i j); try done. congruence.
Qed.

(** Writing the link of a node in none of the queues. *)
Lemma queues_insert_ne m hs qs x v :
  x ∉ concat qs -> Forall2 (queue_rep m) hs qs -> Forall2 (queue_rep (<[x := v]> m)) hs qs.
Proof.
  intros Hx H. induction H as [|h q hs qs H1 H2 IH]; [constructor|]. cbn in Hx.
  rewrite elem_of_app in Hx. constructor; [apply queue_rep_insert_ne; tauto|apply IH; tauto].
Qed.

(** Queues other than the changed one keep their contents. *)
Lemma queues_update m m' hs qs i h' q' :
  Forall2 (queue_rep m) hs qs -> queue_rep m' h' q' ->
  (forall j h q, j <> i -> hs !! j = Some h -> qs !! j = Some q -> queue_rep m h q -> queue_rep m' h q) ->
  (i < length qs)%nat ->
  Forall2 (queue_rep m') (<[i := h']> hs) (<[i := q']> qs).
Proof.
  intros HF Hq Hother Hi. pose proof (Forall2_length _ _ _ HF) as Hlen.
  apply Forall2_lookup. intros j. destruct (decide (j = i)) as [->|Hne].
  - rewrite !list_lookup_insert_eq by lia. by constructor.
  - rewrite !list_lookup_insert_ne by done.
    rewrite Forall2_lookup in HF. specialize (HF j).
    destruct (hs !! j) as [h|] eqn:E1, (qs !! j) as [q|] eqn:E2; inversion HF; subst; constructor.
    eapply Hother; done.
Qed.

Lemma queue_lookup m hs qs i h :
  Forall2 (queue_rep m) hs qs -> hs !! i = Some h -> exists q, qs !! i = Some q /\ queue_rep m h q.
Proof. intros HF Hi. by apply (Forall2_lookup_l _ _ _ _ _ HF Hi). Qed.

Lemma nodup_perm {A} (l l' : list A) : l ≡ₚ l' -> NoDup l -> NoDup l'.
Proof. by intros ->. Qed.

Lemma sim_alloc s hs a x s' :
  pool_rep s hs a -> move_alloc s = Ret x s' ->
  exists a', apool_step (move_nodes s) a (EvAlloc x) a' /\ pool_rep s' hs a'.
Proof.
  intros [Hz Hf Hq Hd] H. unfold move_alloc in H. destruct a as [free qs held]; cbn in *.
  destruct free as [|y free]; cbn in Hf; [by rewrite Hf in H|].
  destruct Hf as [Hf Hc]. rewrite Hf in H. injection H as <- <-.
  eexists. split; [apply apool_alloc|]. constructor; cbn; [done..|].
  eapply nodup_perm; [|exact Hd]. cbn. rewrite !app_assoc. apply Permutation_middle.
Qed.

Lemma sim_push s hs a i h x h' r s' :
  pool_rep s hs a -> x ∈ a_held a -> hs !! i = Some h -> move_queue_push x h s = Ret (h', r) s' ->
  exists a', apool_step (move_nodes s) a (EvPush i x r) a' /\ pool_rep s' (<[i := h']> hs) a'.
Proof.
  intros [Hz Hf Hq Hd] Hx Hi H. destruct a as [free qs held]; cbn in *.
  apply elem_of_Permutation in Hx as [held' Hp].
  destruct (queue_lookup _ _ _ _ _ Hq Hi) as (q & Eq & Hrep).
  destruct (concat_insert qs i q (q ++ [x]) Eq) as (rest & E1 & E2).
  rewrite Hp in Hd. apply NoDup_app in Hd as (Hdf & Hdfq & Hdq).
  pose proof Hdq as (Hdc & Hdch & _)%NoDup_app.
  assert (Hxc : x ∉ concat qs) by (intros E; apply (Hdch x E); set_solver).
  assert (Hxq : x ∉ q) by (intros E; apply Hxc; by eapply queue_elem).
  assert (Hqd : NoDup q) by (rewrite E1 in Hdc; by apply NoDup_app in Hdc as [? _]).
  destruct (push_spec s h q x Hrep Hqd Hxq) as (h1 & s1 & Ep & Hq1 & Hother & Es).
  rewrite Ep in H. injection H as -> <- ->.
  exists (mk_apool free (<[i := q ++ [x]]> qs) held'). split; [by apply apool_push|].
  constructor; cbn; [by rewrite Es| | |].
  - rewrite Es. cbn. apply Hother; [|intros y Hy Hy'|done].
    + intros E. apply (Hdfq x E). set_solver.
    + apply (Hdfq y Hy'). rewrite elem_of_app. left. by eapply queue_elem.
  - apply (queues_update (mnext s) _ hs qs i h' (q ++ [x])); [done..| |by eapply lookup_lt_Some].
    intros j hj qj Hne Ehj Eqj [Hcj Hlj]. split; [|done]. apply Hother; [| |done].
    + intros E. apply Hxc. by eapply queue_elem.
    + intros y Hy. eapply queues_disjoint; [exact Hdc|exact Eq|exact Eqj|done|done].
  - assert (Hperm : free ++ concat (<[i := q ++ [x]]> qs) ++ held' ≡ₚ free ++ concat qs ++ x :: held').
    { rewrite E1, E2. f_equiv. rewrite <- !app_assoc. f_equiv. cbn. by rewrite Permutation_middle. }
    rewrite Hperm. apply NoDup_app. done.
Qed.

Lemma sim_pop s hs a i h x h' s' :
  pool_rep s hs a -> hs !! i = Some h -> move_queue_empty h = false ->
  move_queue_pop h s = Ret (h', x) s' ->
  exists a', apool_step (move_nodes s) a (EvPop i x) a' /\ pool_rep s' (<[i := h']> hs) a'.
Proof.
  intros [Hz Hf Hq Hd] Hi He H. destruct a as [free qs held]; cbn in *.
  destruct (queue_lookup _ _ _ _ _ Hq Hi) as (q & Eq & Hrep).
  destruct q as [|y q].
  { destruct Hrep as [Hc _]. cbn in Hc. unfold move_queue_empty in He. by rewrite Hc in He. }
  destruct (pop_spec s h y q Hrep) as (h1 & Ep & Hq1). rewrite Ep in H. injection H as <- <- <-.
  destruct (concat_insert qs i (y :: q) q Eq) as (rest & E1 & E2).
  exists (mk_apool free (<[i := q]> qs) (y :: held)). split; [by apply apool_pop|].
  constructor; cbn; [done..| |].
  - apply (queues_update (mnext s) _ hs qs i h1 q); [done..|by eapply lookup_lt_Some].
  - eapply nodup_perm; [|exact Hd]. rewrite E1, E2. f_equiv. cbn.
    rewrite <- !app_assoc. rewrite Permutation_middle. by rewrite (Permutation_middle rest).
Qed.

Lemma sim_free s hs a x :
  pool_rep s hs a -> x ∈ a_held a ->
  exists a', apool_step (move_nodes s) a (EvFree x) a' /\ pool_rep (move_free x s) hs a'.
Proof.
  intros [Hz Hf Hq Hd] Hx. destruct a as [free qs held]; cbn in *.
  apply elem_of_Permutation in Hx as [held' Hp]. rewrite Hp in Hd.
  assert (Hx : x ∉ free ++ concat qs ++ held').
  { eapply nodup_perm in Hd as [Hx _]%NoDup_cons; [exact Hx|].
    rewrite !app_assoc. symmetry. apply Permutation_middle. }
  rewrite !elem_of_app in Hx.
  exists (mk_apool (x :: free) qs held'). split; [by apply apool_free_node|].
  constructor; cbn; [done| | |].
  - split; [done|]. rewrite fn_lookup_insert. apply chain_insert_ne; [tauto|done].
  - apply queues_insert_ne; [tauto|done].
  - eapply nodup_perm; [|exact Hd]. cbn. rewrite !app_assoc. symmetry. apply Permutation_middle.
Qed.

Lemma sim_reset s hs a :
  pool_rep s hs a ->
  exists a', apool_step (move_nodes s) a EvReset a' /\
    pool_rep (move_reset s) (move_queue_clear <$> hs) a'.
Proof.
  intros [[Hz Hc] Hf Hq Hd]. destruct a as [free qs held]; cbn in *.
  destruct (move_reset_chain s Hz Hc) as [Hch Es].
  eexists. split; [apply apool_reset|]. set (s' := move_reset s) in *.
  constructor; cbn; [rewrite Es; done|done| |].
  - clear -Hq. induction Hq as [|h q hs qs H1 H2 IH]; cbn; constructor; [|done]. by split.
  - assert (concat ((fun _ : list Z => []) <$> qs) = @nil Z) as ->.
    { clear. induction qs as [|q qs IH]; [done|]. cbn. exact IH. }
    cbn. rewrite app_nil_r. by apply move_nodes_nodup.
Qed.

(** C27: the move queues implement FIFO queues over a shared pool.  Every call
    that allocates, pushes, pops, frees or resets returns what the abstract
    pool returns (a push reports whether the queue was empty, a pop yields the
    oldest node), no node is ever in two places at once, and the other queues
    and the free list are untouched, whatever the order of the calls, as long
    as callers push and free only nodes they hold. *)
Theorem move_pool_refines s hs a ev s' hs' :
  pool_rep s hs a -> client_ok a ev -> pool_step (s, hs) ev (s', hs') ->
  exists a', apool_step (move_nodes s) a ev a' /\ pool_rep s' hs' a'.
Proof.
  intros Hr Hc Hs. inversion Hs; subst; cbn in Hc.
  - by eapply sim_alloc.
  - by eapply sim_push.
  - by eapply sim_pop.
  - by apply sim_free.
  - by apply sim_reset.
Qed.

(** ** The pool is set up inside the memory it was given *)

Lemma alloc_chunks_loop_spec dynmem_end count size p :
  0 <= size ->
  let '(n, q) := alloc_chunks_loop dynmem_end count size p in
  q = p + Z.of_nat n * size /\ (n <= count)%nat /\
  (n = 0%nat /\ (count = 0%nat \/ dynmem_end < p + size) \/ (0 < n)%nat /\ q <= dynmem_end).
Proof.
  intros Hs. revert p. induction count as [|count IH]; intros p; cbn; [lia|].
  destruct (Z.leb_spec (p + size) dynmem_end); [|cbn; lia].
  specialize (IH (p + size)). destruct (alloc_chunks_loop _ _ _ _) as [n q]. lia.
Qed.

(** An alignment is a power of two. *)
Definition pow2 (a : Z) : Prop := 0 < a /\ a = 2 ^ Z.log2 a.

Lemma ALIGN_spec v a : pow2 a -> v <= ALIGN v a < v + a /\ ALIGN v a mod a = 0.
Proof.
  intros [Ha Hk]. pose proof (Z.log2_nonneg a).
  assert (E : ALIGN v a = (v + (a - 1)) / a * a).
  { unfold ALIGN. rewrite <- Z.ldiff_land.
    replace (Z.ldiff _ _) with (Z.ldiff (v + (a - 1)) (Z.ones (Z.log2 a))) by (rewrite Z.ones_equiv, <- Hk; done).
    rewrite Z.ldiff_ones_r, Z.shiftl_mul_pow2, Z.shiftr_div_pow2 by lia. by rewrite <- Hk. }
  rewrite E.
  split; [|apply Z.mod_mul; lia].
  pose proof (Z.div_mod (v + (a - 1)) a ltac:(lia)). pose proof (Z.mod_pos_bound (v + (a - 1)) a Ha). lia.
Qed.

Lemma alloc_chunks_spec dynmem_end sizeof_ptr size s :
  pow2 sizeof_ptr -> 0 <= size ->
  match alloc_chunks dynmem_end sizeof_ptr size 1024 s with
  | Ret (data, avail) s' =>
    data = alloc_end s /\ 1 <= avail <= 1024 /\ alloc_end s + avail * size <= dynmem_end /\
    alloc_end s + avail * size <= alloc_end s' /\ s' = s <| alloc_end := alloc_end s' |>
  | Halt msg s' => msg = "alloc_chunks failed" /\ dynmem_end < alloc_end s + size
  | Crash _ => False
  end.
Proof.
  intros Hp Hz. unfold alloc_chunks.
  pose proof (alloc_chunks_loop_spec dynmem_end 1024 size (alloc_end s) Hz) as Hl.
  destruct (alloc_chunks_loop _ _ _ _) as [n q]. destruct Hl as (-> & Hn & [[-> Hq]|[Hn0 Hq]]).
  { split; [done|lia]. }
  rewrite (proj2 (Nat.eqb_neq n 0)) by lia. unfold bind, alloc_chunk.
  rewrite (proj2 (Z.ltb_ge _ _)) by lia. unfold ret. rewrite u16_small by lia.
  pose proof (ALIGN_spec (alloc_end s + Z.of_nat n * size - alloc_end s) sizeof_ptr Hp).
  split_and!; [done|lia|lia|lia|cbn; lia|by destruct s].
Qed.

(** The nodes after the pool of [n] chunks at [data] was set up. *)
Lemma move_reset_pool s :
  0 < move_item_size s -> 0 < move_count s ->
  let s' := move_reset s in
  move_count s' = move_count s /\ move_item_size s' = move_item_size s /\
  alloc_end s' = alloc_end s /\ (forall i, move_node_at s' i = move_node_at s i) /\
  pool_rep s' [] (mk_apool (move_nodes s') [] []).
Proof.
  intros Hz Hc s'. destruct (move_reset_chain s Hz Hc) as [Hch Es]. fold s' in Hch, Es.
  assert (Em : move_nodes s' = move_nodes s) by (by rewrite Es).
  split_and!; [by rewrite Es..|intros; by rewrite Es|].
  constructor; cbn; [by rewrite Es|by rewrite Em|constructor|].
  rewrite app_nil_r, Em. by apply move_nodes_nodup.
Qed.

(** Finalising the configuration.  Either the machine shuts down because
    the pool is already final or has no room for a single node, or between 1
    and 1024 nodes are laid out without overlap between the previous end of
    the allocations and the end of the pool, each large enough for a pointer
    and for every size a queue asked for, and all of them are free. *)
Theorem move_finalize_pool dynmem_end sizeof_ptr s :
  pow2 sizeof_ptr -> sizeof_ptr < 0x100 -> 0 <= move_item_size s < 0x100 ->
  match move_finalize dynmem_end sizeof_ptr s with
  | Ret _ s' =>
    is_finalized s = false /\ 1 <= move_count s' <= 1024 /\
    move_item_size s' = Z.max sizeof_ptr (move_item_size s) /\
    (forall i, 0 <= i < move_count s' ->
       alloc_end s <= move_node_at s' i /\ move_node_at s' i + move_item_size s' <= dynmem_end /\
       move_node_at s' i + move_item_size s' <= alloc_end s') /\
    (forall i j, i < j -> move_node_at s' i + move_item_size s' <= move_node_at s' j) /\
    pool_rep s' [] (mk_apool (move_nodes s') [] [])
  | Halt msg s' =>
    (msg = "Already finalized" /\ is_finalized s = true) \/
    (msg = "alloc_chunks failed" /\
     dynmem_end < alloc_end s + Z.max sizeof_ptr (move_item_size s))
  | Crash _ => False
  end.
Proof.
  intros Hp2 Hp3 Hi. assert (Hp : 0 < sizeof_ptr < 0x100) by (destruct Hp2; lia). unfold move_finalize. destruct (is_finalized s) eqn:Ef; [by left|].
  unfold bind at 1, move_queue_setup. rewrite Ef, (proj2 (Z.ltb_ge _ _)) by lia. cbn [orb].
  set (s1 := if _ <? _ then _ else _).
  assert (Hs1 : s1 = s <| move_item_size := Z.max sizeof_ptr (move_item_size s) |>).
  { unfold s1. destruct (Z.ltb_spec (move_item_size s) sizeof_ptr).
    - by rewrite Z.max_l by lia.
    - rewrite Z.max_r by lia. by destruct s. }
  rewrite Hs1. clear s1 Hs1. set (sz := Z.max sizeof_ptr (move_item_size s)).
  unfold bind at 1. unfold bind at 1. cbn [move_item_size set].
  set (s1 := s <| move_item_size := sz |>).
  pose proof (alloc_chunks_spec dynmem_end sizeof_ptr sz s1 Hp2 ltac:(lia)) as Ha.
  destruct (alloc_chunks _ _ _ _ s1) as [[data avail] s2| |]; [|by right|done].
  destruct Ha as (-> & Hav & He & He2 & E2). unfold modify. cbn [fst snd].
  set (s3 := (s2 <| move_list := _ |>) <| move_count := _ |>).
  assert (Hz : move_item_size s3 = sz) by (unfold s3; by rewrite E2).
  destruct (move_reset_pool s3) as (R1 & R2 & R3 & R4 & R5); [rewrite Hz; lia|cbn; lia|].
  set (s4 := move_reset s3) in *.
  assert (Hnode : forall i, move_node_at s4 i = alloc_end s + i * sz).
  { intros i. rewrite R4. unfold move_node_at. by rewrite Hz. }
  rewrite R1, R2, R3, Hz. cbn [move_count alloc_end set s3].
  change (alloc_end s1) with (alloc_end s) in *.
  split_and!; [done|lia|lia|done| | |done]; intros; rewrite !Hnode; nia.
Qed.

(** ** Object ids *)

Lemma alloc_chunk_spec dynmem_end sizeof_ptr size s data s' :
  pow2 sizeof_ptr -> alloc_chunk dynmem_end sizeof_ptr size s = Ret data s' ->
  data = alloc_end s /\ data + size <= dynmem_end /\ data + size <= alloc_end s' /\
  s' = s <| alloc_end := alloc_end s' |>.
Proof.
  intros Hp. unfold alloc_chunk. destruct (Z.ltb_spec dynmem_end (alloc_end s + size)); [done|].
  intros [= <- <-]. pose proof (ALIGN_spec size sizeof_ptr Hp). cbn.
  split_and!; [done|lia|lia|by destruct s].
Qed.

(** ** Iterating over the objects of a type *)

Section objects_of.
Context (s : basecmd) (type : Z).

(** The objects of the oids from [i] on, with their oids. *)
Definition objects_from (i : Z) : list (Z * Z) :=
  omap (fun o => if oid_type (oid_tab s o) =? type then Some (o, oid_data (oid_tab s o)) else None)
    (seqZ i (oid_count s - i)).

Lemma objects_from_step i :
  i < oid_count s ->
  objects_from i =
    (if oid_type (oid_tab s i) =? type then [(i, oid_data (oid_tab s i))] else []) ++ objects_from (i + 1).
Proof.
  intros Hi. unfold objects_from. rewrite seqZ_cons by lia.
  replace (Z.succ i) with (i + 1) by lia. replace (Z.pred (oid_count s - i)) with (oid_count s - (i + 1)) by lia.
  cbn [omap list_omap]. by destruct (_ =? type).
Qed.
Lemma objects_from_end i : oid_count s <= i -> objects_from i = [].
Proof. intros Hi. unfold objects_from. by rewrite seqZ_nil by lia. Qed.

Lemma oid_next_spec fuel i :
  0 <= i <= oid_count s -> oid_count s < 0x100 -> oid_count s - i < Z.of_nat fuel ->
  (objects_from i = [] /\ oid_next_loop fuel s (u8 (i - 1)) type = Some None) \/
  (exists o d, i <= o < oid_count s /\ objects_from i = (o, d) :: objects_from (o + 1) /\
     oid_next_loop fuel s (u8 (i - 1)) type = Some (Some (o, d))).
Proof.
  revert i. induction fuel as [|fuel IH]; intros i Hi Hc Hf; [lia|]. cbn [oid_next_loop].
  replace (u8 (u8 (i - 1) + 1)) with i by word.
  destruct (Z.leb_spec (oid_count s) i) as [|Hlt].
  { left. by rewrite objects_from_end by lia. }
  rewrite objects_from_step by lia. destruct (oid_type (oid_tab s i) =? type).
  - right. exists i, (oid_data (oid_tab s i)). split_and!; [lia|lia|done|done].
  - cbn [app]. specialize (IH (i + 1)). replace (u8 (i + 1 - 1)) with i in IH by word.
    destruct IH as [[H1 H2]|(o & d & Ho & H1 & H2)]; [lia|lia|lia|by left|].
    right. exists o, d. split_and!; [lia|lia|done|done].
Qed.
End objects_of.

Definition objects (s : basecmd) (type : Z) : list (Z * Z) := objects_from s type 0.

(** The part of a list of objects before the first NULL pointer. *)
Fixpoint until_null (l : list (Z * Z)) : list (Z * Z) :=
  match l with
  | [] => []
  | (o, d) :: l => if d =? 0 then [] else (o, d) :: until_null l
  end.
Lemma until_null_all l : Forall (fun x => x.2 <> 0) l -> until_null l = l.
Proof.
  induction 1 as [|[o d] l Hd _ IH]; [done|]. cbn [until_null snd] in *.
  rewrite (proj2 (Z.eqb_neq d 0) Hd). by rewrite IH.
Qed.
Lemma until_null_prefix l : exists l', l = until_null l ++ l'.
Proof.
  induction l as [|[o d] l [l' IH]]; [by exists []|]. cbn [until_null]. destruct (d =? 0); [by eexists|].
  exists l'. cbn. by rewrite <- IH.
Qed.

(** An oid of the type without an object hides the ones behind it. *)
Lemma until_null_below s type oid i n :
  oid - i = Z.of_nat n -> oid < oid_count s -> oid_type (oid_tab s oid) = type -> oid_data (oid_tab s oid) = 0 ->
  Forall (fun x => x.1 < oid) (until_null (objects_from s type i)).
Proof.
  intros Hn Hc Ht Hd. revert i Hn. induction n as [|n IH]; intros i Hn.
  - assert (i = oid) as -> by lia. rewrite objects_from_step, Ht, Z.eqb_refl, Hd by lia. constructor.
  - rewrite objects_from_step by lia. specialize (IH (i + 1) ltac:(lia)).
    destruct (_ =? type); [|done]. cbn [app until_null]. destruct (_ =? 0); [constructor|].
    constructor; [cbn; lia|done].
Qed.

Fixpoint run_objects {W} (body : Z -> Z -> M W unit) (l : list (Z * Z)) : M W unit :=
  match l with
  | [] => ret tt
  | (o, d) :: l => body o d;;; run_objects body l
  end.

(** A body that keeps the oid table is run on exactly the objects of the type,
    in the order of their oids, up to a NULL pointer. *)
Section foreach.
Context {W : Type} (base : W -> basecmd) (type : Z) (body : Z -> Z -> M W unit).
Context (Hbody : forall o d w w', body o d w = Ret tt w' ->
  oid_tab (base w') = oid_tab (base w) /\ oid_count (base w') = oid_count (base w)).

Lemma objects_from_ext s s' i :
  oid_tab s' = oid_tab s -> oid_count s' = oid_count s -> objects_from s' type i = objects_from s type i.
Proof. intros H1 H2. unfold objects_from. by rewrite H1, H2. Qed.

Lemma foreach_oid_from_spec n i w :
  0 <= i <= oid_count (base w) -> oid_count (base w) < 0x100 -> oid_count (base w) - i < Z.of_nat n ->
  foreach_oid_from n base type (u8 (i - 1)) body w =
    run_objects body (until_null (objects_from (base w) type i)) w.
Proof.
  revert i w. induction n as [|n IH]; intros i w Hi Hc Hn; [lia|]. cbn [foreach_oid_from]. unfold oid_next.
  destruct (oid_next_spec (base w) type 256 i) as [[-> ->]|(o & d & Ho & -> & ->)]; [lia|lia|lia|done|].
  cbn [until_null]. destruct (d =? 0); [done|]. cbn [run_objects]. unfold bind.
  destruct (body o d w) as [[] w'|msg w'|w'] eqn:E; [|done..]. destruct (Hbody _ _ _ _ E) as [E1 E2].
  replace o with (u8 (o + 1 - 1)) at 1 by word.
  rewrite IH by (rewrite E2; lia). by rewrite (objects_from_ext (base w)).
Qed.

Lemma foreach_oid_spec w :
  0 <= oid_count (base w) < 0x100 ->
  foreach_oid base type body w = run_objects body (until_null (objects (base w) type)) w.
Proof. intros Hc. unfold foreach_oid. change (u8 (-1)) with (u8 (0 - 1)). apply foreach_oid_from_spec; lia. Qed.
End foreach.

(** An allocation that fails leaves an oid with a type and no object. *)
Lemma oid_alloc_failed dynmem_end sizeof_ptr oid type size s s' :
  oid_alloc dynmem_end sizeof_ptr oid type size s = Halt "alloc_chunk failed" s' ->
  oid < oid_count s /\ s' = s <| oid_tab ::= <[oid := mk_oid_s type (oid_data (oid_tab s oid))]> |>.
Proof.
  unfold oid_alloc. destruct (Z.leb_spec (oid_count s) oid); [done|]. cbn [orb].
  destruct (truthy _); [done|]. destruct (is_finalized s); [done|]. cbn [orb].
  unfold bind, modify, alloc_chunk. destruct (_ <? _); [|done]. by intros [= <-].
Qed.

(** Object ids are type safe.  A successful [oid_alloc] returns memory
    inside the pool and behind all earlier allocations; from then on looking
    the oid up with its type returns that memory, looking it up with another
    type or assigning it again shuts down, and other oids are not affected. *)
Theorem oid_alloc_lookup dynmem_end sizeof_ptr oid type size s data s' :
  pow2 sizeof_ptr -> type <> 0 ->
  oid_alloc dynmem_end sizeof_ptr oid type size s = Ret data s' ->
  (alloc_end s = data /\ data + size <= dynmem_end /\ data + size <= alloc_end s') /\
  oid_lookup oid type s' = Ret data s' /\
  (forall t, t <> type -> oid_lookup oid t s' = Halt "Invalid oid type" s') /\
  (forall t n, oid_alloc dynmem_end sizeof_ptr oid t n s' = Halt "Can't assign oid" s') /\
  (forall o t, o <> oid -> returned (oid_lookup o t s') = returned (oid_lookup o t s) /\
     oid_tab s' o = oid_tab s o).
Proof.
  intros Hp Ht. unfold oid_alloc at 1.
  destruct (Z.leb_spec (oid_count s) oid) as [|Hoid]; [done|]. cbn [orb].
  destruct (truthy _); [done|]. destruct (is_finalized s); [done|]. cbn [orb].
  unfold bind at 1, modify at 1. unfold bind at 1.
  destruct (alloc_chunk _ _ _ _) as [d s1| |] eqn:Ea; [|done..].
  apply alloc_chunk_spec in Ea as (-> & H1 & H2 & E1); [|done].
  unfold bind, modify, ret. intros [= <- <-]. cbn in *.
  assert (Ec : oid_count s1 = oid_count s) by (rewrite E1; done).
  assert (Et : forall o, o <> oid -> oid_tab s1 o = oid_tab s o).
  { intros o Ho. rewrite E1. cbn. by rewrite fn_lookup_insert_ne. }
  assert (Hlook : forall o t s2, oid_lookup o t s2 =
    if (oid_count s2 <=? o) || negb (t =? oid_type (oid_tab s2 o))
    then Halt "Invalid oid type" s2 else Ret (oid_data (oid_tab s2 o)) s2) by done.
  split_and!; [done..| | | |].
  - rewrite Hlook. cbn. rewrite Ec, fn_lookup_insert, (proj2 (Z.leb_gt _ _)) by lia. cbn.
    by rewrite Z.eqb_refl.
  - intros t Hne. rewrite Hlook. cbn. rewrite fn_lookup_insert. cbn.
    by rewrite (proj2 (Z.eqb_neq t type)), orb_true_r by done.
  - intros t n. unfold oid_alloc. cbn. rewrite fn_lookup_insert. cbn. unfold truthy.
    by rewrite (proj2 (Z.eqb_neq type 0)), orb_true_r by done.
  - intros o t Ho. rewrite !Hlook. cbn. rewrite !fn_lookup_insert_ne by done. rewrite Ec, Et by done.
    split; [|done]. by destruct (_ || _).
Qed.

(** ** Statistics *)

(** The amount added to the sum of squares for one task run. *)
Definition sumsq_term (diff : Z) : Z :=
  if diff <=? 0xffff then DIV_ROUND_UP (diff * diff) SUMSQ_BASE
  else if diff <=? 0xfffff then DIV_ROUND_UP diff SUMSQ_BASE * diff
  else 0xffffffff.

Lemma sumsq_term_small diff :
  0 <= diff < 0x100000000 ->
  0 <= sumsq_term diff <= 0xffffffff /\
  (diff <= 0xffff -> diff * diff <= 0xfffe0001) /\
  (diff <= 0xfffff -> diff * diff <= sumsq_term diff * SUMSQ_BASE).
Proof.
  intros Hd. unfold sumsq_term, DIV_ROUND_UP, SUMSQ_BASE.
  destruct (Z.leb_spec diff 0xffff) as [H1|H1]; [|destruct (Z.leb_spec diff 0xfffff) as [H2|H2]].
  - assert (diff * diff <= 0xffff * 0xffff) by nia.
    pose proof (Z.div_mod (diff * diff + 256 - 1) 256 ltac:(lia)).
    pose proof (Z.mod_pos_bound (diff * diff + 256 - 1) 256 ltac:(lia)). lia.
  - pose proof (Z.div_mod (diff + 256 - 1) 256 ltac:(lia)).
    pose proof (Z.mod_pos_bound (diff + 256 - 1) 256 ltac:(lia)).
    set (k := (diff + 256 - 1) / 256) in *. assert (0 <= k <= 4096) by lia. nia.
  - lia.
Qed.

(** The load statistics do not overflow silently.  The 32-bit arithmetic of
    [stats_update] computes the saturated sum of the squares exactly: the sum
    grows by a term that never undercounts diff^2 / SUMSQ_BASE, or sticks at its
    maximum. *)
Theorem stats_sumsq_saturates sumsq diff :
  0 <= sumsq <= 0xffffffff -> 0 <= diff <= 0xffffffff ->
  next_sumsq sumsq diff = Z.min 0xffffffff (sumsq + sumsq_term diff) /\
  (diff <= 0xfffff -> diff * diff <= sumsq_term diff * SUMSQ_BASE).
Proof.
  intros Hs Hd. destruct (sumsq_term_small diff ltac:(lia)) as (Hk & Hsq & Hge). split; [|done].
  unfold next_sumsq. revert Hk. unfold sumsq_term.
  destruct (Z.leb_spec diff 0xffff) as [H1|H1]; [|destruct (Z.leb_spec diff 0xfffff) as [H2|H2]].
  - rewrite (u32_small (diff * diff)) by nia. set (k := DIV_ROUND_UP _ _). intros Hk.
    destruct (Z.ltb_spec (u32 (sumsq + k)) sumsq); word.
  - intros Hk. rewrite (u32_small (DIV_ROUND_UP _ _ * diff)) by lia.
    set (k := DIV_ROUND_UP _ _ * diff) in *.
    destruct (Z.ltb_spec (u32 (sumsq + k)) sumsq); word.
  - intros _. rewrite (proj2 (Z.ltb_ge _ _)) by lia. lia.
Qed.

(** The 64-bit time of the last statistics message. *)
Definition stats_clock (s : basecmd) : Z := stats_send_time_high s * 0x100000000 + stats_send_time s.

(** Uptime is exact.  As long as less than 2^32 ticks have passed since the
    last statistics message, [command_get_uptime] reports the full 64-bit clock
    [T] although only its low 32 bits can be read, and [stats_update] advances
    the record so that this stays true: afterwards the last message is less
    than five seconds old. *)
Theorem uptime_exact CONFIG_CLOCK_FREQ T start s :
  0 <= stats_send_time s < 0x100000000 -> 0 <= stats_send_time_high s ->
  stats_clock s <= T < stats_clock s + 0x100000000 -> T < 0x10000000000000000 ->
  command_get_uptime (u32 T) s = Ret tt (s <| bc_out ::= fun l => l ++
    [("uptime high=%u clock=%u", [VInt (T / 0x100000000); VInt (T mod 0x100000000)])] |>) /\
  exists s', stats_update CONFIG_CLOCK_FREQ start (u32 T) s = Ret tt s' /\
    0 <= stats_send_time s' < 0x100000000 /\ 0 <= stats_send_time_high s' /\
    0 <= T - stats_clock s' < Z.max 1 (timer_from_us CONFIG_CLOCK_FREQ 5000000).
Proof.
  intros Hl Hh HT Hmax. unfold stats_clock in *.
  set (b := b2z (u32 T <? stats_send_time s)).
  assert (HTb : T = (stats_send_time_high s + b) * 0x100000000 + u32 T /\ 0 <= b <= 1).
  { unfold b, b2z. destruct (Z.ltb_spec (u32 T) (stats_send_time s)); word. }
  assert (Hhb : u32 (stats_send_time_high s + b) = stats_send_time_high s + b) by word.
  split.
  - unfold command_get_uptime, sendf, modify. fold b. rewrite Hhb.
    replace (T / 0x100000000) with (stats_send_time_high s + b) by word. done.
  - unfold stats_update, timer_has_elapsed. cbn [stats_send_time set].
    set (d := timer_from_us CONFIG_CLOCK_FREQ 5000000).
    assert (0 <= d < 0x100000000) by apply u32_range.
    destruct (Z.leb_spec d (u32 (u32 T - stats_send_time s))) as [He|He]; cbn [negb].
    + eexists. split; [done|]. cbn [stats_send_time stats_send_time_high set].
      revert HTb Hhb. unfold b, b2z. pose proof (u32_range T).
      destruct (u32 T <? stats_send_time s); cbn [stats_send_time_high set]; intros; [|lia].
      rewrite Hhb. lia.
    + eexists. split; [done|]. cbn [stats_send_time stats_send_time_high set].
      assert (T - (stats_send_time_high s * 0x100000000 + stats_send_time s)
        = u32 (u32 T - stats_send_time s)) by word. lia.
Qed.

(** ** Concrete runs *)

Definition basecmd_init : basecmd :=
  mk_basecmd 0x1000 None (fun _ => None) 0 0 0 None (fun _ => mk_oid_s 0 0) 0 0 0 0 0 0 0 sched_init [].

(** A pool of three nodes at address 0x1000 and one queue. *)
Definition demo_pool : basecmd :=
  move_reset (basecmd_init <| move_list := 0x1000 |> <| move_count := 3 |> <| move_item_size := 16 |>).

Lemma demo_pool_rep :
  pool_rep demo_pool [mk_move_queue_head None None] (mk_apool [0x1000; 0x1010; 0x1020] [[]] []).
Proof.
  constructor.
  - split; reflexivity.
  - repeat split; reflexivity.
  - constructor; [by split|constructor].
  - cbn. repeat constructor; set_solver.
Qed.

Lemma move_pool_refines_witness :
  exists a', apool_step (move_nodes demo_pool) (mk_apool [0x1000; 0x1010; 0x1020] [[]] [])
    (EvAlloc 0x1000) a' /\
    pool_rep (demo_pool <| move_free_list := Some 0x1010 |>) [mk_move_queue_head None None] a'.
Proof.
  apply (move_pool_refines demo_pool [mk_move_queue_head None None] _ (EvAlloc 0x1000)).
  - exact demo_pool_rep.
  - exact I.
  - apply pool_alloc. reflexivity.
Defined.

Lemma move_finalize_pool_witness :
  match move_finalize 0x1400 4 (basecmd_init <| move_item_size := 20 |>) with
  | Ret _ s' => move_count s' = 51 /\ move_item_size s' = 20 /\
      pool_rep s' [] (mk_apool (move_nodes s') [] [])
  | _ => False
  end.
Proof.
  pose proof (move_finalize_pool 0x1400 4 (basecmd_init <| move_item_size := 20 |>)
    ltac:(split; [lia|reflexivity]) ltac:(lia) ltac:(split; [discriminate|reflexivity])) as H.
  assert (E : exists s', move_finalize 0x1400 4 (basecmd_init <| move_item_size := 20 |>) = Ret tt s' /\
    move_count s' = 51) by (eexists; split; [reflexivity|reflexivity]).
  destruct E as (s' & E & Hc). rewrite E in H |- *.
  destruct H as (_ & _ & Hz & _ & _ & Hrep). split; [exact Hc|]. split; [exact Hz|exact Hrep].
Defined.

Lemma oid_alloc_lookup_witness :
  let s := basecmd_init <| oid_count := 4 |> in
  exists s', oid_alloc 0x1400 4 2 77 24 s = Ret 0x1000 s' /\ oid_lookup 2 77 s' = Ret 0x1000 s'.
Proof.
  eexists. split; [reflexivity|].
  refine (proj1 (proj2 (oid_alloc_lookup 0x1400 4 2 77 24 (basecmd_init <| oid_count := 4 |>) 0x1000 _ _ _ _))).
  - split; [lia|reflexivity].
  - lia.
  - reflexivity.
Defined.

Lemma stats_sumsq_saturates_witness :
  next_sumsq 0xfffffff0 5000 = 0xffffffff /\ next_sumsq 7 0x12345 = 7 + sumsq_term 0x12345 /\
  0x12345 * 0x12345 <= sumsq_term 0x12345 * SUMSQ_BASE.
Proof.
  split; [|split].
  - rewrite (proj1 (stats_sumsq_saturates 0xfffffff0 5000 ltac:(lia) ltac:(lia))). reflexivity.
  - rewrite (proj1 (stats_sumsq_saturates 7 0x12345 ltac:(lia) ltac:(lia))). reflexivity.
  - apply (proj2 (stats_sumsq_saturates 7 0x12345 ltac:(lia) ltac:(lia))). lia.
Defined.

Lemma uptime_exact_witness :
  let s := basecmd_init <| stats_send_time := 0xfffffff0 |> <| stats_send_time_high := 2 |> in
  command_get_uptime 5 s = Ret tt (s <| bc_out ::= fun l => l ++
    [("uptime high=%u clock=%u", [VInt 3; VInt 5])] |>).
Proof.
  refine (proj1 (uptime_exact 1000000 0x300000005 0
    (basecmd_init <| stats_send_time := 0xfffffff0 |> <| stats_send_time_high := 2 |>) _ _ _ _));
    unfold stats_clock; cbn; lia.
Defined.
