(* ===== verification/Stepper.v ===== *)
(** * Stepper motor control (src/stepper.c)

    Steppers live in the memory [m_steppers] at the address [oid_alloc] gave
    them; the timer embedded in the stepper at [p] is [T_user (Z.to_nat p)].
    Queued moves live in the memory [m_moves] of the pool of basecmd.c.  The
    pins are outside of the model: what is done to them is recorded in
    [m_trace], together with the wake time of the stepper's timer.  [clock n]
    is the value of the [n]-th call of [timer_read_time()]. *)

From S2P Require Import Prelude Command Clock Sched Basecmd.

(** ** Data *)

Record stepper_move := mk_stepper_move {
  sm_interval : Z;
  sm_add : Z;
  sm_count : Z;
  sm_flags : Z }.
#[export] Instance eta_stepper_move : Eta stepper_move := fun m =>
  mk_stepper_move (sm_interval m) (sm_add m) (sm_count m) (sm_flags m).

Definition MF_DIR : Z := 1.

Record stepper := mk_stepper {
  interval : Z;
  add : Z;
  count : Z;
  next_step_time : Z;
  step_pulse_ticks : Z;
  step_pin : Z;
  dir_pin : Z;
  position : Z;
  mq : move_queue_head;
  flags : Z;
  full_func : bool  (* time.func is stepper_event_full, not stepper_event *) }.
#[export] Instance eta_stepper : Eta stepper := fun s =>
  mk_stepper (interval s) (add s) (count s) (next_step_time s) (step_pulse_ticks s)
    (step_pin s) (dir_pin s) (position s) (mq s) (flags s) (full_func s).

Definition POSITION_BIAS : Z := 0x40000000.
Definition SF_LAST_DIR : Z := 1.
Definition SF_NEXT_DIR : Z := 2.
Definition SF_INVERT_STEP : Z := 4.
Definition SF_NEED_RESET : Z := 8.
Definition SF_SINGLE_SCHED : Z := 16.
Definition SF_OPTIMIZED_PATH : Z := 32.
Definition SF_HAVE_ADD : Z := 64.

Inductive pin_event : Type :=
| StepToggle (p w : Z)      (* step pin of stepper p, its timer waking at w *)
| DirToggle (p : Z)
| PinWrite (pin v : Z)
| PinSetup (pin v : Z).

Record mcu := mk_mcu {
  m_base : basecmd;
  m_moves : Z -> stepper_move;
  m_steppers : Z -> stepper;
  m_trace : list pin_event;
  m_reads : nat }.
#[export] Instance eta_mcu : Eta mcu := fun w =>
  mk_mcu (m_base w) (m_moves w) (m_steppers w) (m_trace w) (m_reads w).

Definition st_timer (p : Z) : tid := T_user (Z.to_nat p).
Definition st_wake (p : Z) (w : mcu) : Z := wake (bc_sched (m_base w)) (st_timer p).

(** Field updates of the stepper at [p]. *)
Definition upd_state (p : Z) (f : stepper -> stepper) (w : mcu) : mcu :=
  w <| m_steppers ::= fun st => <[p := f (st p)]> st |>.
Definition wake_state (p t : Z) (w : mcu) : mcu :=
  w <| m_base ::= fun b => b <| bc_sched ::= fun s =>
    s <| timers ::= set_waketime (st_timer p) t |> |> |>.
Definition emit_state (e : pin_event) (w : mcu) : mcu := w <| m_trace ::= fun l => l ++ [e] |>.

Definition move_state (n : Z) (f : stepper_move -> stepper_move) (w : mcu) : mcu :=
  w <| m_moves ::= fun mm => <[n := f (mm n)]> mm |>.

Definition upd (p : Z) (f : stepper -> stepper) : M mcu unit := modify (upd_state p f).
Definition set_wake (p t : Z) : M mcu unit := modify (wake_state p t).
Definition emit (e : pin_event) : M mcu unit := modify (emit_state e).

Section stepper.
Context (HAVE_EDGE_OPTIMIZATION HAVE_AVR_OPTIMIZATION CONFIG_INLINE_STEPPER_HACK : bool).
Context (CONFIG_CLOCK_FREQ : Z) (clock : nat -> Z).
Context (dynmem_end sizeof_ptr : Z).
Context (command_config_stepper_type sizeof_stepper sizeof_stepper_move : Z).

Definition timer_read_time : M mcu Z := fun w => Ret (clock (m_reads w)) (w <| m_reads ::= S |>).

Definition gpio_out_toggle_step (p : Z) : M mcu unit := fun w => emit (StepToggle p (st_wake p w)) w.
Definition gpio_out_toggle_dir (p : Z) : M mcu unit := emit (DirToggle p).

(** ** Loading moves *)

(** [while (timer_is_before(timer_read_time(), t));] *)
Fixpoint wait_until (fuel : nat) (t : Z) : M mcu unit :=
  match fuel with
  | O => crash
  | S fuel => now <- timer_read_time;; if timer_is_before now t then wait_until fuel t else ret tt
  end.

(** The part of [stepper_load_next] for the fully scheduled path; [true]: the
    function has returned SF_RESCHEDULE already. *)
Definition load_next_full (fuel : nat) (p : Z) (move_interval move_count : Z)
    (need_dir_change : bool) : M mcu bool := fun w =>
  let s := m_steppers w p in
  let was_active := truthy (count s) in
  let min_next_time := st_wake p w in
  let next_time := u32 (next_step_time s + move_interval) in
  let single := has SF_SINGLE_SCHED (flags s) in
  (upd p (fun s => s <| next_step_time := next_time |>);;;
   set_wake p next_time;;;
   upd p (fun s => s <| count := if single then move_count else u32 (move_count * 2) |>);;;
   (if was_active && timer_is_before next_time min_next_time then
      let diff := s32 (u32 (next_time - min_next_time)) in
      (when diff <? s32 (u32 (- timer_from_us CONFIG_CLOCK_FREQ 1000))
       then shutdown "Stepper too far in past");;;
      set_wake p min_next_time
    else ret tt);;;
   (if was_active && need_dir_change then
      (when single then wait_until fuel min_next_time);;;
      gpio_out_toggle_dir p;;;
      curtime <- timer_read_time;;
      (fun w =>
         let min_next_time := u32 (curtime + step_pulse_ticks (m_steppers w p)) in
         (when timer_is_before (st_wake p w) min_next_time
          then set_wake p min_next_time) w);;;
      ret true
    else ret false)) w.

Definition stepper_load_next (fuel : nat) (p : Z) : M mcu Z := fun w =>
  if move_queue_empty (mq (m_steppers w p)) then (upd p (fun s => s <| count := 0 |>);;; ret SF_DONE) w
  else
    (r <- zoom m_base (move_queue_pop (mq (m_steppers w p)));;
     let '(h, mn) := r in
     upd p (fun s => s <| mq := h |>);;;
     (fun w =>
        let m := m_moves w mn in
        let move_interval := sm_interval m in
        let move_count := sm_count m in
        let move_add := sm_add m in
        let need_dir_change := has MF_DIR (sm_flags m) in
        (zoom m_base (modify (move_free mn));;;
         upd p (fun s => s <| position ::= fun x =>
           u32 ((if need_dir_change then u32 (- x) else x) + move_count) |>);;;
         upd p (fun s => s <| add := move_add |> <| interval := u32 (move_interval + move_add) |>);;;
         (fun w =>
            let fl := flags (m_steppers w p) in
            let finish := (when need_dir_change then gpio_out_toggle_dir p);;; ret SF_RESCHEDULE in
            if HAVE_EDGE_OPTIMIZATION && has SF_OPTIMIZED_PATH fl then
              (set_wake p (u32 (st_wake p w + move_interval));;;
               upd p (fun s => s <| count := move_count |>);;; finish) w
            else if HAVE_AVR_OPTIMIZATION && has SF_OPTIMIZED_PATH fl then
              (set_wake p (u32 (st_wake p w + move_interval));;;
               upd p (fun s => s <| count := move_count |>
                 <| flags ::= fun f => if truthy move_add then Z.lor f SF_HAVE_ADD
                                       else Z.land f (Z.lnot SF_HAVE_ADD) |>);;; finish) w
            else
              (done <- load_next_full fuel p move_interval move_count need_dir_change;;
               if done then ret SF_RESCHEDULE else finish) w)) w)) w.

(** ** Step events *)

Definition EDGE_STEP_TICKS : Z := DIV_ROUND_UP CONFIG_CLOCK_FREQ 8000000.
Definition AVR_STEP_TICKS : Z := 40.

Definition stepper_event_edge (fuel : nat) (p : Z) : M mcu Z :=
  gpio_out_toggle_step p;;;
  (fun w =>
     let s := m_steppers w p in
     let cnt := u32 (count s - 1) in
     if truthy cnt then
       (upd p (fun s => s <| count := cnt |>);;;
        set_wake p (u32 (st_wake p w + interval s));;;
        upd p (fun s => s <| interval ::= fun i => u32 (i + add s) |>);;;
        ret SF_RESCHEDULE) w
     else stepper_load_next fuel p w).

(** [pcount] points to the low 16 bits of [count]. *)
Definition stepper_event_avr (fuel : nat) (p : Z) : M mcu Z :=
  gpio_out_toggle_step p;;;
  (fun w =>
     let s := m_steppers w p in
     let cnt := u16 (u16 (count s) - 1) in
     if truthy cnt then
       (upd p (fun s => s <| count ::= fun c => c - u16 c + cnt |>);;;
        set_wake p (u32 (st_wake p w + interval s));;;
        gpio_out_toggle_step p;;;
        (when has SF_HAVE_ADD (flags s)
         then upd p (fun s => s <| interval ::= fun i => u32 (i + add s) |>));;;
        ret SF_RESCHEDULE) w
     else
       (r <- stepper_load_next fuel p;;
        gpio_out_toggle_step p;;;
        ret r) w).

Definition stepper_event_full (fuel : nat) (p : Z) : M mcu Z :=
  gpio_out_toggle_step p;;;
  curtime <- timer_read_time;;
  (fun w =>
     let s := m_steppers w p in
     let min_next_time := u32 (curtime + step_pulse_ticks s) in
     let cnt := u32 (count s - 1) in
     let reschedule_min :=
       upd p (fun s => s <| count := cnt |>);;; set_wake p min_next_time;;; ret SF_RESCHEDULE in
     if truthy (Z.land cnt 1) && negb (has SF_SINGLE_SCHED (flags s)) then reschedule_min w
     else if truthy cnt then
       let next_time := u32 (next_step_time s + interval s) in
       (upd p (fun s => s <| next_step_time := next_time |>
                          <| interval ::= fun i => u32 (i + add s) |>);;;
        if timer_is_before next_time min_next_time then reschedule_min
        else (upd p (fun s => s <| count := cnt |>);;; set_wake p next_time;;; ret SF_RESCHEDULE)) w
     else (set_wake p min_next_time;;; stepper_load_next fuel p) w).

Definition stepper_event (fuel : nat) (p : Z) : M mcu Z := fun w =>
  if full_func (m_steppers w p) then stepper_event_full fuel p w
  else if HAVE_EDGE_OPTIMIZATION then stepper_event_edge fuel p w
  else if HAVE_AVR_OPTIMIZATION then stepper_event_avr fuel p w
  else stepper_event_full fuel p w.

(** ** Commands *)

Definition stepper_init : stepper :=
  mk_stepper 0 0 0 0 0 0 0 0 (mk_move_queue_head None None) 0 false.

(** [args]: oid, step_pin, dir_pin, invert_step, step_pulse_ticks. *)
Definition command_config_stepper (oid spin dpin invert_arg pulse_ticks : Z) : M mcu unit :=
  p <- zoom m_base (oid_alloc dynmem_end sizeof_ptr (u8 oid) command_config_stepper_type sizeof_stepper);;
  let invert_step := s8 invert_arg in
  let fl := if 0 <? invert_step then SF_INVERT_STEP
            else if invert_step <? 0 then SF_SINGLE_SCHED else 0 in
  upd p (fun _ => stepper_init <| flags := fl |>);;;
  emit (PinSetup spin (Z.land fl SF_INVERT_STEP));;;
  emit (PinSetup dpin 0);;;
  upd p (fun s => s <| step_pin := spin |> <| dir_pin := dpin |>
                    <| position := u32 (- POSITION_BIAS) |> <| step_pulse_ticks := pulse_ticks |>);;;
  h <- zoom m_base (move_queue_setup sizeof_stepper_move);;
  upd p (fun s => s <| mq := h |>);;;
  (if HAVE_EDGE_OPTIMIZATION then
     if (invert_step <? 0) && (pulse_ticks <=? EDGE_STEP_TICKS)
     then upd p (fun s => s <| flags ::= fun f => Z.lor f SF_OPTIMIZED_PATH |>)
     else upd p (fun s => s <| full_func := true |>)
   else if HAVE_AVR_OPTIMIZATION then
     if (0 <=? invert_step) && (pulse_ticks <=? AVR_STEP_TICKS)
     then upd p (fun s => s <| flags ::= fun f => Z.lor f (Z.lor SF_SINGLE_SCHED SF_OPTIMIZED_PATH) |>)
     else upd p (fun s => s <| full_func := true |>)
   else when negb CONFIG_INLINE_STEPPER_HACK then upd p (fun s => s <| full_func := true |>)).

Definition stepper_oid_lookup (oid : Z) : M mcu Z :=
  zoom m_base (oid_lookup (u8 oid) command_config_stepper_type).

Definition command_queue_step (fuel : nat) (oid interval_arg count_arg add_arg : Z) : M mcu unit :=
  p <- stepper_oid_lookup oid;;
  m <- zoom m_base move_alloc;;
  let set_move f := modify (move_state m f) in
  set_move (fun mv => mv <| sm_interval := interval_arg |> <| sm_count := u16 count_arg |>);;;
  (when u16 count_arg =? 0 then shutdown "Invalid count parameter");;;
  set_move (fun mv => mv <| sm_add := s16 add_arg |> <| sm_flags := 0 |>);;;
  (fun w =>
     let s := m_steppers w p in
     let dir_change := negb (Bool.eqb (has SF_LAST_DIR (flags s)) (has SF_NEXT_DIR (flags s))) in
     let fl := if dir_change then Z.lxor (flags s) SF_LAST_DIR else flags s in
     let push : M mcu unit :=
       upd p (fun s => s <| flags := fl |>);;;
       r <- zoom m_base (move_queue_push m (mq s));;
       upd p (fun s => s <| mq := fst r |>) in
     ((when dir_change then set_move (fun mv => mv <| sm_flags ::= fun f => Z.lor f MF_DIR |>));;;
      (if truthy (count s) then push
       else if has SF_NEED_RESET fl then zoom m_base (modify (move_free m))
       else
         push;;;
         stepper_load_next fuel p;;;
         now <- timer_read_time;;
         zoom m_base (zoom bc_sched (sched_add_timer fuel now (st_timer p))))) w).

Definition command_set_next_step_dir (oid dir : Z) : M mcu unit :=
  p <- stepper_oid_lookup oid;;
  let nextdir := if truthy dir then SF_NEXT_DIR else 0 in
  upd p (fun s => s <| flags ::= fun f => Z.lor (Z.land f (Z.lnot SF_NEXT_DIR)) nextdir |>).

Definition command_reset_step_clock (oid waketime : Z) : M mcu unit :=
  p <- stepper_oid_lookup oid;;
  (fun w => (when truthy (count (m_steppers w p))
             then shutdown "Can't reset time when stepper active") w);;;
  set_wake p waketime;;;
  upd p (fun s => s <| next_step_time := waketime |>
                    <| flags ::= fun f => Z.land f (Z.lnot SF_NEED_RESET) |>).

Definition stepper_get_position (s : stepper) : Z :=
  let pos := if has SF_SINGLE_SCHED (flags s) then u32 (position s - count s)
             else u32 (position s - count s / 2) in
  if truthy (Z.land pos 0x80000000) then u32 (- pos) else pos.

Definition command_stepper_get_position (oid : Z) : M mcu unit :=
  p <- stepper_oid_lookup oid;;
  (fun w => zoom m_base (sendf "stepper_position oid=%c pos=%i"
     [VInt (u8 oid); VInt (u32 (stepper_get_position (m_steppers w p) - POSITION_BIAS))]) w).

(** [while (!move_queue_empty(&s->mq)) move_free(move_queue_pop(&s->mq));] *)
Fixpoint free_moves (fuel : nat) (h : move_queue_head) : M basecmd move_queue_head :=
  if move_queue_empty h then ret h
  else match fuel with
       | O => crash
       | S fuel =>
         r <- move_queue_pop h;;
         modify (move_free r.2);;;
         free_moves fuel r.1
       end.

Definition stepper_stop (fuel : nat) (p : Z) : M mcu unit :=
  zoom m_base (zoom bc_sched (sched_del_timer fuel (st_timer p)));;;
  set_wake p 0;;;
  upd p (fun s => s <| next_step_time := 0 |>);;;
  upd p (fun s => s <| position := u32 (- stepper_get_position s) |>);;;
  upd p (fun s => s <| count := 0 |>);;;
  upd p (fun s => s <| flags ::= fun f =>
    Z.lor (Z.land f (Z.lor (Z.lor SF_INVERT_STEP SF_SINGLE_SCHED) SF_OPTIMIZED_PATH)) SF_NEED_RESET |>);;;
  (fun w =>
     let s := m_steppers w p in
     (emit (PinWrite (dir_pin s) 0);;;
      (when negb (has SF_SINGLE_SCHED (flags s))
            || (HAVE_AVR_OPTIMIZATION && has SF_OPTIMIZED_PATH (flags s))
       then emit (PinWrite (step_pin s) (Z.land (flags s) SF_INVERT_STEP)));;;
      h <- zoom m_base (free_moves fuel (mq s));;
      upd p (fun s => s <| mq := h |>)) w).

Definition stepper_shutdown (fuel : nat) : M mcu unit :=
  foreach_oid m_base command_config_stepper_type (fun _ p =>
    upd p (fun s => s <| mq ::= move_queue_clear |>);;;
    stepper_stop fuel p).
End stepper.

(** ** Reading the state back *)

Section accessors.
Context (p t n : Z) (g : stepper -> stepper) (ev : pin_event) (w : mcu) (bc : basecmd).

Lemma upd_steppers : m_steppers (upd_state p g w) p = g (m_steppers w p).
Proof. unfold upd_state. cbn [m_steppers set]. by rewrite fn_lookup_insert. Qed.
Lemma upd_steppers_ne p' : p' <> p -> m_steppers (upd_state p g w) p' = m_steppers w p'.
Proof. intros H. unfold upd_state. cbn [m_steppers set]. by rewrite fn_lookup_insert_ne. Qed.
Lemma upd_base : m_base (upd_state p g w) = m_base w. Proof. done. Qed.
Lemma upd_moves : m_moves (upd_state p g w) = m_moves w. Proof. done. Qed.
Lemma upd_trace : m_trace (upd_state p g w) = m_trace w. Proof. done. Qed.
Lemma upd_reads : m_reads (upd_state p g w) = m_reads w. Proof. done. Qed.
Lemma upd_wake q : st_wake q (upd_state p g w) = st_wake q w. Proof. done. Qed.

Lemma wake_steppers : m_steppers (wake_state p t w) = m_steppers w. Proof. done. Qed.
Lemma wake_mnext : mnext (m_base (wake_state p t w)) = mnext (m_base w). Proof. done. Qed.
Lemma wake_free : move_free_list (m_base (wake_state p t w)) = move_free_list (m_base w). Proof. done. Qed.
Lemma wake_sched : bc_sched (m_base (wake_state p t w)) =
  (bc_sched (m_base w)) <| timers ::= set_waketime (st_timer p) t |>. Proof. done. Qed.
Lemma wake_moves : m_moves (wake_state p t w) = m_moves w. Proof. done. Qed.
Lemma wake_trace : m_trace (wake_state p t w) = m_trace w. Proof. done. Qed.
Lemma wake_reads : m_reads (wake_state p t w) = m_reads w. Proof. done. Qed.
Lemma wake_wake : st_wake p (wake_state p t w) = t.
Proof. unfold st_wake, wake_state. cbn [m_base bc_sched timers set]. by autorewrite with mem. Qed.

Lemma emit_steppers : m_steppers (emit_state ev w) = m_steppers w. Proof. done. Qed.
Lemma emit_base : m_base (emit_state ev w) = m_base w. Proof. done. Qed.
Lemma emit_moves : m_moves (emit_state ev w) = m_moves w. Proof. done. Qed.
Lemma emit_trace : m_trace (emit_state ev w) = m_trace w ++ [ev]. Proof. done. Qed.
Lemma emit_reads : m_reads (emit_state ev w) = m_reads w. Proof. done. Qed.
Lemma emit_wake q : st_wake q (emit_state ev w) = st_wake q w. Proof. done. Qed.

Lemma move_steppers k : m_steppers (move_state n k w) = m_steppers w. Proof. done. Qed.
Lemma move_base k : m_base (move_state n k w) = m_base w. Proof. done. Qed.
Lemma move_moves k : m_moves (move_state n k w) = <[n := k (m_moves w n)]> (m_moves w). Proof. done. Qed.
Lemma move_trace k : m_trace (move_state n k w) = m_trace w. Proof. done. Qed.
Lemma move_wake k q : st_wake q (move_state n k w) = st_wake q w. Proof. done. Qed.

Lemma reads_steppers : m_steppers (w <| m_reads ::= S |>) = m_steppers w. Proof. done. Qed.
Lemma reads_base : m_base (w <| m_reads ::= S |>) = m_base w. Proof. done. Qed.
Lemma reads_moves : m_moves (w <| m_reads ::= S |>) = m_moves w. Proof. done. Qed.
Lemma reads_trace : m_trace (w <| m_reads ::= S |>) = m_trace w. Proof. done. Qed.
Lemma reads_reads : m_reads (w <| m_reads ::= S |>) = S (m_reads w). Proof. done. Qed.
Lemma reads_wake q : st_wake q (w <| m_reads ::= S |>) = st_wake q w. Proof. done. Qed.

Lemma base_steppers : m_steppers (w <| m_base := bc |>) = m_steppers w. Proof. done. Qed.
Lemma base_base : m_base (w <| m_base := bc |>) = bc. Proof. done. Qed.
Lemma base_moves : m_moves (w <| m_base := bc |>) = m_moves w. Proof. done. Qed.
Lemma base_trace : m_trace (w <| m_base := bc |>) = m_trace w. Proof. done. Qed.
Lemma base_wake q : bc_sched bc = bc_sched (m_base w) -> st_wake q (w <| m_base := bc |>) = st_wake q w.
Proof. intros E. unfold st_wake. cbn [m_base set]. by rewrite E. Qed.
Lemma free_mnext : mnext (move_free n bc) = <[n := move_free_list bc]> (mnext bc). Proof. done. Qed.
End accessors.

Create Rewrite HintDb mcu.
#[export] Hint Rewrite upd_steppers upd_base upd_moves upd_trace upd_wake wake_steppers wake_mnext wake_free
  wake_moves wake_trace wake_wake emit_steppers emit_base emit_moves emit_trace emit_wake
  upd_reads wake_reads emit_reads reads_steppers reads_base reads_moves reads_trace reads_reads reads_wake
  move_steppers move_base move_moves move_trace move_wake
  base_steppers base_base base_moves base_trace free_mnext : mcu.
#[export] Hint Rewrite base_wake using done : mcu.
Ltac mcu := autorewrite with mcu; cbn [interval add count next_step_time step_pulse_ticks
  step_pin dir_pin position mq flags full_func set].

#[global] Opaque upd_state wake_state emit_state move_state.

(** ** The step schedule

    What a stepper promises is a list of future step times with their
    directions.  For the path that steps on every edge of the step pin this
    section relates the state of the code to that list. *)

(** The times of the remaining [c] steps of a move whose next step is at [w]. *)
Fixpoint cur_times (w i a : Z) (c : nat) : list Z :=
  match c with
  | O => []
  | S c => w :: cur_times (u32 (w + i)) (u32 (i + a)) a c
  end.

(** The steps of a queued move when the previous step is at [t]. *)
Definition move_times (t : Z) (m : stepper_move) : list Z :=
  cur_times (u32 (t + sm_interval m)) (u32 (sm_interval m + sm_add m)) (sm_add m)
    (Z.to_nat (sm_count m)).

Definition move_dir (d : bool) (m : stepper_move) : bool := xorb d (has MF_DIR (sm_flags m)).

Definition last_time (t : Z) (l : list (Z * bool)) : Z := default t (fst <$> list.last l).

(** The steps of a list of queued moves, each with its direction. *)
Fixpoint queue_times (t : Z) (d : bool) (ms : list stepper_move) : list (Z * bool) :=
  match ms with
  | [] => []
  | m :: ms =>
    let l := (fun w => (w, move_dir d m)) <$> move_times t m in
    l ++ queue_times (last_time t l) (move_dir d m) ms
  end.

Lemma cur_times_polynomial W I a c k :
  (k < c)%nat ->
  cur_times (u32 W) (u32 I) a c !! k =
  Some (u32 (W + Z.of_nat k * I + a * (Z.of_nat k * (Z.of_nat k - 1) / 2))).
Proof.
  revert W I c. induction k as [|k IH]; intros W I [|c] Hc; try lia; cbn [cur_times].
  - change (Z.of_nat 0 * (Z.of_nat 0 - 1) / 2) with 0. cbn [lookup list_lookup]. do 2 f_equal. lia.
  - cbn [lookup list_lookup]. rewrite u32_add_l, u32_add_r. rewrite (u32_add_l I).
    rewrite IH by lia. do 2 f_equal.
    replace (Z.of_nat (S k) * (Z.of_nat (S k) - 1)) with (Z.of_nat k * (Z.of_nat k - 1) + Z.of_nat k * 2) by lia.
    rewrite Z.div_add by lia. lia.
Qed.

Lemma cur_times_length w i a c : length (cur_times w i a c) = c.
Proof. revert w i. induction c as [|c IH]; intros; cbn; [done|]. by rewrite IH. Qed.

(** Step times are the polynomial the host computes.  The incremental
    updates of [waketime] and [interval] put step k (counted from 0) of a move
    that follows a step at time [t] at t + interval * (k+1) + add * k(k+1)/2
    ticks, modulo 2^32, and a move has exactly [count] steps. *)
Theorem move_times_polynomial t m :
  0 <= sm_count m ->
  length (move_times t m) = Z.to_nat (sm_count m) /\
  forall k, Z.of_nat k < sm_count m ->
    move_times t m !! k =
    Some (u32 (t + sm_interval m * (Z.of_nat k + 1)
               + sm_add m * (Z.of_nat k * (Z.of_nat k + 1) / 2))).
Proof.
  intros Hc. unfold move_times. split; [apply cur_times_length|]. intros k Hk.
  rewrite cur_times_polynomial by lia. do 2 f_equal.
  replace (Z.of_nat k * (Z.of_nat k + 1)) with (Z.of_nat k * (Z.of_nat k - 1) + Z.of_nat k * 2) by lia.
  rewrite Z.div_add by lia. lia.
Qed.

Lemma move_times_polynomial_witness :
  let m := mk_stepper_move 1000 (-10) 5 0 in
  move_times 0xfffffff0 m !! 3%nat = Some (u32 (0xfffffff0 + 1000 * 4 - 10 * 6)).
Proof.
  exact (proj2 (move_times_polynomial 0xfffffff0 (mk_stepper_move 1000 (-10) 5 0) ltac:(cbn; lia)) 3%nat
    ltac:(cbn; lia)).
Defined.

Lemma last_time_cons t x l : last_time t (x :: l) = last_time x.1 l.
Proof. unfold last_time. destruct l as [|y l]; [done|]. rewrite last_cons_cons, !last_cons. by destruct (list.last l). Qed.

Lemma last_time_ne t t' l : l <> [] -> last_time t l = last_time t' l.
Proof. destruct l as [|x l]; [done|]. intros _. by rewrite !last_time_cons. Qed.

Lemma last_time_app t l1 l2 : last_time t (l1 ++ l2) = last_time (last_time t l1) l2.
Proof.
  revert t. induction l1 as [|x l1 IH]; intros t; [done|]. cbn [app]. by rewrite !last_time_cons, IH.
Qed.

Definition move_ok (m : stepper_move) : Prop := 0 < sm_count m < 0x10000.

(** The sign bit of a 32-bit value. *)
Lemma land_top_bit x :
  0 <= x < 0x100000000 -> truthy (Z.land x 0x80000000) = (0x80000000 <=? x).
Proof.
  intros Hx. assert (Z.land x 0x80000000 = Z.shiftl (Z.shiftr x 31) 31) as ->.
  { change 0x80000000 with (2 ^ 31). apply Z.bits_inj'. intros n Hn.
    rewrite Z.land_spec, Z.pow2_bits_eqb by lia. destruct (Z.lt_ge_cases n 31).
    - rewrite Z.shiftl_spec_low, (proj2 (Z.eqb_neq _ _)) by lia. apply andb_false_r.
    - rewrite Z.shiftl_spec, Z.shiftr_spec by lia. replace (n - 31 + 31) with n by lia.
      destruct (Z.eqb_spec 31 n) as [<-|Hne]; [apply andb_true_r|]. rewrite andb_false_r. symmetry.
      rewrite <- (Z.mod_small x (2 ^ 32)) by lia. apply Z.mod_pow2_bits_high. lia. }
  rewrite Z.shiftl_mul_pow2, Z.shiftr_div_pow2 by lia. change (2 ^ 31) with 0x80000000. unfold truthy.
  destruct (Z.leb_spec 0x80000000 x); [apply negb_true_iff, Z.eqb_neq|apply negb_false_iff, Z.eqb_eq]; word.
Qed.

(** The direction-coded position: negated while moving backwards. *)
Definition pos_code (d : bool) (pos : Z) : Z :=
  if d then POSITION_BIAS + pos else - (POSITION_BIAS + pos).

Definition step_delta (d : bool) : Z := if d then 1 else -1.

(** The steps the stepper at [p] still has to take, given the nodes [q] in its
    queue and its direction [d]. *)
Definition pending_steps (w : mcu) (p : Z) (q : list Z) (d : bool) : list (Z * bool) :=
  let s := m_steppers w p in
  let cur := (fun t => (t, d)) <$> cur_times (st_wake p w) (interval s) (add s) (Z.to_nat (count s)) in
  cur ++ queue_times (last_time (st_wake p w) cur) d (m_moves w <$> q).

(** The stepper at [p] steps on both edges; [pos] is its current position. *)
Record step_rep (w : mcu) (p : Z) (q : list Z) (d : bool) (pos : Z) : Prop := {
  sr_queue : queue_rep (mnext (m_base w)) (mq (m_steppers w p)) q;
  sr_nodup : NoDup q;
  sr_moves : Forall move_ok (m_moves w <$> q);
  sr_single : has SF_SINGLE_SCHED (flags (m_steppers w p)) = true;
  sr_optimized : has SF_OPTIMIZED_PATH (flags (m_steppers w p)) = true;
  sr_count : 0 <= count (m_steppers w p) < 0x10000;
  sr_idle : count (m_steppers w p) = 0 -> q = [];
  sr_position : position (m_steppers w p) = u32 (pos_code d pos + count (m_steppers w p));
  sr_last : has SF_LAST_DIR (flags (m_steppers w p)) = fold_left move_dir (m_moves w <$> q) d }.

Lemma pos_code_step d pos c : pos_code d (pos + step_delta d) + c = pos_code d pos + (c + 1).
Proof. unfold pos_code, step_delta. destruct d; lia. Qed.

Lemma pos_code_flip d pos : pos_code (negb d) pos = - pos_code d pos.
Proof. unfold pos_code. destruct d; cbn; lia. Qed.

Lemma get_position_exact w p q d pos :
  step_rep w p q d pos -> - POSITION_BIAS < pos < POSITION_BIAS ->
  stepper_get_position (m_steppers w p) = POSITION_BIAS + pos /\
  s32 (u32 (stepper_get_position (m_steppers w p) - POSITION_BIAS)) = pos.
Proof.
  intros [_ _ _ Hs _ Hc _ Hp _] Hr. unfold POSITION_BIAS in *.
  assert (E : stepper_get_position (m_steppers w p) = 0x40000000 + pos); [|rewrite E; split; [done|word]].
  unfold stepper_get_position. rewrite Hs, Hp, u32_sub_l.
  replace (pos_code d pos + count (m_steppers w p) - count (m_steppers w p)) with (pos_code d pos) by lia.
  rewrite land_top_bit by apply u32_range. unfold pos_code, POSITION_BIAS.
  destruct d;
    match goal with |- context [0x80000000 <=? ?x] => destruct (Z.leb_spec 0x80000000 x) end; word.
Qed.

(** The reported position is the number of steps taken.  While the
    position stays within its 31-bit range, [stepper_get_position] undoes the
    direction coding and subtracts the steps not yet taken, in the middle of a
    move as well as between moves. *)
Theorem stepper_get_position_exact w p q d pos :
  step_rep w p q d pos -> - POSITION_BIAS < pos < POSITION_BIAS ->
  stepper_get_position (m_steppers w p) = POSITION_BIAS + pos /\
  s32 (u32 (stepper_get_position (m_steppers w p) - POSITION_BIAS)) = pos.
Proof. apply get_position_exact. Qed.

(** *** One step event *)

Section edge.
Context (HAVE_AVR_OPTIMIZATION : bool) (CONFIG_CLOCK_FREQ : Z) (clock : nat -> Z).
Abbreviation load_next := (stepper_load_next true HAVE_AVR_OPTIMIZATION CONFIG_CLOCK_FREQ clock).
Abbreviation event := (stepper_event_edge true HAVE_AVR_OPTIMIZATION CONFIG_CLOCK_FREQ clock).

(** The pin changes of starting a move. *)
Definition dir_events (p : Z) (ms : list stepper_move) : list pin_event :=
  match ms with
  | m :: _ => if has MF_DIR (sm_flags m) then [DirToggle p] else []
  | [] => []
  end.

(** The state once the move at the head of the queue is loaded. *)
Definition loaded (w : mcu) (p n : Z) (h : move_queue_head) : mcu :=
  let m := m_moves w n in
  let w1 := upd_state p (fun s => s <| mq := h |>) (w <| m_base := m_base w |>) in
  let w2 := w1 <| m_base := move_free n (m_base w1) |> in
  let w3 := upd_state p (fun s => s <| position ::= fun x =>
    u32 ((if has MF_DIR (sm_flags m) then u32 (- x) else x) + sm_count m) |>) w2 in
  let w4 := upd_state p (fun s => s <| add := sm_add m |>
    <| interval := u32 (sm_interval m + sm_add m) |>) w3 in
  let w5 := wake_state p (u32 (st_wake p w4 + sm_interval m)) w4 in
  let w6 := upd_state p (fun s => s <| count := sm_count m |>) w5 in
  if has MF_DIR (sm_flags m) then emit_state (DirToggle p) w6 else w6.

Lemma load_next_cons fuel w p n q :
  queue_rep (mnext (m_base w)) (mq (m_steppers w p)) (n :: q) ->
  has SF_OPTIMIZED_PATH (flags (m_steppers w p)) = true ->
  exists h, queue_rep (mnext (m_base w)) h q /\
    load_next fuel p w = Ret SF_RESCHEDULE (loaded w p n h).
Proof.
  intros Hq Ho. destruct (pop_spec _ _ _ _ Hq) as (h & Ep & Hq'). exists h. split; [done|].
  assert (He : move_queue_empty (mq (m_steppers w p)) = false).
  { destruct Hq as [[Hc _] _]. unfold move_queue_empty. by rewrite Hc. }
  unfold stepper_load_next. rewrite He. unfold bind at 1, zoom at 1. rewrite Ep.
  unfold upd, set_wake, zoom, bind, modify, ret, gpio_out_toggle_dir, emit.
  unfold modify. mcu. rewrite Ho. cbn [andb]. unfold loaded. mcu.
  by destruct (has MF_DIR (sm_flags (m_moves w n))).
Qed.

Lemma loaded_steppers w p n h :
  m_steppers (loaded w p n h) p =
    let m := m_moves w n in
    (m_steppers w p) <| mq := h |> <| position ::= fun x =>
      u32 ((if has MF_DIR (sm_flags m) then u32 (- x) else x) + sm_count m) |>
      <| add := sm_add m |> <| interval := u32 (sm_interval m + sm_add m) |>
      <| count := sm_count m |>.
Proof. unfold loaded. cbv zeta. destruct (has _ _); mcu; done. Qed.

Lemma loaded_wake w p n h :
  st_wake p (loaded w p n h) = u32 (st_wake p w + sm_interval (m_moves w n)).
Proof. unfold loaded. cbv zeta. destruct (has _ _); mcu; done. Qed.

Lemma loaded_moves w p n h : m_moves (loaded w p n h) = m_moves w.
Proof. unfold loaded. cbv zeta. destruct (has _ _); mcu; done. Qed.

Lemma loaded_mnext w p n h :
  mnext (m_base (loaded w p n h)) = <[n := move_free_list (m_base w)]> (mnext (m_base w)).
Proof. unfold loaded. cbv zeta. destruct (has _ _); mcu; done. Qed.

Lemma loaded_trace w p n h q :
  m_trace (loaded w p n h) = m_trace w ++ dir_events p (m_moves w <$> n :: q).
Proof. unfold loaded, dir_events. cbn. destruct (has _ _); mcu; rewrite ?app_nil_r; done. Qed.

Lemma loaded_pending w p n h q d :
  move_ok (m_moves w n) ->
  pending_steps (loaded w p n h) p q (move_dir d (m_moves w n))
  = queue_times (st_wake p w) d (m_moves w <$> n :: q).
Proof.
  intros Hm. unfold pending_steps. rewrite loaded_steppers, loaded_wake, loaded_moves.
  cbn [interval add count set fmap list_fmap queue_times].
  unfold move_times. f_equal. f_equal. apply last_time_ne.
  unfold move_ok in Hm. destruct (Z.to_nat _) eqn:E; [lia|done].
Qed.

Lemma load_next_edge fuel w p q d pos :
  queue_rep (mnext (m_base w)) (mq (m_steppers w p)) q -> NoDup q ->
  Forall move_ok (m_moves w <$> q) ->
  has SF_SINGLE_SCHED (flags (m_steppers w p)) = true ->
  has SF_OPTIMIZED_PATH (flags (m_steppers w p)) = true ->
  position (m_steppers w p) = u32 (pos_code d pos) ->
  has SF_LAST_DIR (flags (m_steppers w p)) = fold_left move_dir (m_moves w <$> q) d ->
  exists w' q' d', load_next fuel p w = Ret (if decide (q = []) then SF_DONE else SF_RESCHEDULE) w' /\
    step_rep w' p q' d' pos /\
    pending_steps w' p q' d' = queue_times (st_wake p w) d (m_moves w <$> q) /\
    m_trace w' = m_trace w ++ dir_events p (m_moves w <$> q) /\
    (q = [] -> st_wake p w' = st_wake p w).
Proof.
  intros Hq Hd Hm Hs Ho Hp Hla. destruct q as [|n q].
  - assert (He : move_queue_empty (mq (m_steppers w p)) = true).
    { destruct Hq as [Hc _]. cbn in Hc. unfold move_queue_empty. by rewrite Hc. }
    unfold stepper_load_next. rewrite He. eexists _, [], d. split; [done|].
    cbn [dir_events fmap list_fmap]. rewrite app_nil_r. split_and!; [|..|by mcu|intros _; by mcu].
    + constructor; mcu; try done. by rewrite Z.add_0_r.
    + unfold pending_steps. by mcu.
  - rewrite decide_False by done. apply NoDup_cons in Hd as [Hn Hd].
    destruct (load_next_cons fuel w p n q Hq Ho) as (h & Hq' & E).
    cbn in Hm. apply Forall_cons in Hm as [Hmn Hm]. pose proof Hmn as Hc. unfold move_ok in Hc.
    exists (loaded w p n h), q, (move_dir d (m_moves w n)).
    split_and!; [done| |by apply loaded_pending|by apply loaded_trace|done].
    constructor; rewrite ?loaded_steppers, ?loaded_moves, ?loaded_mnext; cbn; try done; try lia.
    + by apply queue_rep_insert_ne.
    + rewrite Hp. unfold move_dir. destruct (has MF_DIR _); rewrite ?xorb_true_r, ?xorb_false_r.
      * rewrite pos_code_flip. word.
      * word.
Qed.

(** One step event.  The step pin is toggled exactly at the time of the
    next pending step; afterwards the pending steps are the remaining ones,
    with the next move loaded (and the direction pin toggled if it reverses)
    when this was the last step of a move, the position has moved by one in the
    direction of the step, and the timer is stopped only when no step is
    left. *)
Theorem stepper_event_edge_step fuel w p q d pos t dt rest :
  step_rep w p q d pos -> pending_steps w p q d = (t, dt) :: rest ->
  exists w' q' d' evs,
    event fuel p w = Ret (if decide (rest = []) then SF_DONE else SF_RESCHEDULE) w' /\
    st_wake p w = t /\ dt = d /\
    step_rep w' p q' d' (pos + step_delta d) /\ pending_steps w' p q' d' = rest /\
    m_trace w' = m_trace w ++ StepToggle p t :: evs /\ (evs = [] \/ evs = [DirToggle p]) /\
    (rest = [] -> st_wake p w' = t).
Proof.
  intros Hr Hpend. pose proof Hr as [Hq Hd Hm Hs Ho Hc Hi Hp Hla].
  set (s := m_steppers w p) in *.
  assert (Hc0 : 0 < count s).
  { destruct (decide (count s = 0)) as [E|]; [|lia]. unfold pending_steps in Hpend. fold s in Hpend.
    rewrite E, (Hi E) in Hpend. done. }
  unfold pending_steps in Hpend. fold s in Hpend.
  destruct (Z.to_nat (count s)) as [|c] eqn:Ec; [lia|].
  cbn [cur_times fmap list_fmap app] in Hpend. rewrite last_time_cons in Hpend. cbn [fst] in Hpend.
  injection Hpend as Ht Hdt Hrest.
  unfold stepper_event_edge, gpio_out_toggle_step, emit, bind, modify.
  mcu. fold s. rewrite u32_small by lia.
  destruct (Z.eqb_spec (count s - 1) 0) as [E1|E1].
  - unfold truthy. rewrite (proj2 (Z.eqb_eq _ _)) by done. cbn [negb].
    assert (c = 0%nat) as -> by lia. cbn in Hrest. change (last_time (st_wake p w) []) with (st_wake p w) in Hrest.
    set (w1 := emit_state (StepToggle p (st_wake p w)) w).
    destruct (load_next_edge fuel w1 p q d (pos + step_delta d)) as (w' & q' & d' & E & Hr' & Hp' & Htr & Hw).
    all: unfold w1; mcu; fold s; try done.
    { rewrite Hp. f_equal. rewrite <- (Z.add_0_r (pos_code d (pos + _))), pos_code_step. lia. }
    unfold w1 in *. autorewrite with mcu in *.
    exists w', q', d', (dir_events p (m_moves w <$> q)).
    assert (Hq0 : q = [] <-> rest = []).
    { rewrite <- Hrest. destruct q as [|n q]; [done|]. split; [done|]. cbn in Hm |- *.
      apply Forall_cons in Hm as [Hm _]. unfold move_ok, move_times in *.
      destruct (Z.to_nat (sm_count (m_moves w n))) eqn:E2; [lia|done]. }
    split_and!; [|done..|by rewrite <- Hrest| | |].
    + rewrite E. f_equal. destruct (decide (q = [])), (decide (rest = [])); tauto.
    + rewrite Htr, Ht, <- app_assoc. done.
    + destruct q as [|n q]; [by left|]. cbn. destruct (has MF_DIR (sm_flags (m_moves w n))); auto.
    + intros Hre. rewrite Hw by tauto. done.
  - unfold truthy. rewrite (proj2 (Z.eqb_neq _ _)) by done. cbn [negb].
    unfold upd, set_wake, bind, modify, ret. eexists _, q, d, [].
    assert (Hne : (fun t0 : Z => (t0, d)) <$> cur_times (u32 (st_wake p w + interval s))
      (u32 (interval s + add s)) (add s) c <> []) by (by destruct c; [lia|]).
    assert (rest <> []) by (rewrite <- Hrest; intros [? ?]%app_eq_nil; done).
    rewrite decide_False by done.
    split_and!; [done|done|done| | |by mcu; rewrite Ht|by left|done].
    + constructor; mcu; fold s; try done; try lia.
      rewrite Hp, pos_code_step. f_equal. lia.
    + unfold pending_steps. mcu. fold s. rewrite <- Hrest.
      replace (Z.to_nat (count s - 1)) with c by lia. f_equal. f_equal. by apply last_time_ne.
Qed.
End edge.

(** *** Queueing moves *)

Lemma has_lxor_last x : has SF_LAST_DIR (Z.lxor x SF_LAST_DIR) = negb (has SF_LAST_DIR x).
Proof.
  change SF_LAST_DIR with (2 ^ 0). rewrite !has_bit, Z.lxor_spec by lia.
  rewrite Z.pow2_bits_true by lia. by destruct (Z.testbit x 0).
Qed.

Lemma has_lxor_other k x : 0 < k -> has (2 ^ k) (Z.lxor x SF_LAST_DIR) = has (2 ^ k) x.
Proof.
  intros Hk. change SF_LAST_DIR with (2 ^ 0). rewrite !has_bit, Z.lxor_spec by lia.
  rewrite Z.pow2_bits_false by lia. apply xorb_false_r.
Qed.

Lemma queue_times_snoc t d ms m :
  queue_times t d (ms ++ [m]) = queue_times t d ms ++
    ((fun w => (w, move_dir (fold_left move_dir ms d) m)) <$>
       move_times (last_time t (queue_times t d ms)) m).
Proof.
  revert t d. induction ms as [|x ms IH]; intros t d; cbn [queue_times app fold_left].
  - cbn. by rewrite app_nil_r.
  - rewrite IH, last_time_app, app_assoc. done.
Qed.

Section queue_step.
Context (HAVE_AVR_OPTIMIZATION : bool) (CONFIG_CLOCK_FREQ : Z) (clock : nat -> Z).
Context (type : Z).
Abbreviation queue_step :=
  (command_queue_step true HAVE_AVR_OPTIMIZATION CONFIG_CLOCK_FREQ clock type).

(** Appending the node [m] to the queue of an active stepper. *)
Lemma step_rep_push w w' p q d pos m dirc :
  step_rep w p q d pos -> 0 < count (m_steppers w p) -> m ∉ q ->
  (forall n, n ∈ q -> m_moves w' n = m_moves w n) -> move_ok (m_moves w' m) ->
  has MF_DIR (sm_flags (m_moves w' m)) = dirc ->
  queue_rep (mnext (m_base w')) (mq (m_steppers w' p)) (q ++ [m]) ->
  m_steppers w' p = (m_steppers w p) <| mq := mq (m_steppers w' p) |> <| flags := flags (m_steppers w' p) |> ->
  flags (m_steppers w' p) =
    (if dirc then Z.lxor (flags (m_steppers w p)) SF_LAST_DIR else flags (m_steppers w p)) ->
  st_wake p w' = st_wake p w ->
  step_rep w' p (q ++ [m]) d pos /\
  pending_steps w' p (q ++ [m]) d = pending_steps w p q d ++
    ((fun t => (t, xorb (has SF_LAST_DIR (flags (m_steppers w p))) dirc)) <$>
       move_times (last_time (st_wake p w) (pending_steps w p q d)) (m_moves w' m)).
Proof.
  intros [Hq Hd Hm Hs Ho Hc Hi Hp Hla] Hc0 Hn Hmv Hok Hdir Hq' Hst Hfl Hw.
  assert (Hmoves : m_moves w' <$> q = m_moves w <$> q).
  { apply list_fmap_ext. intros i n Hi'. apply Hmv. by eapply list_elem_of_lookup_2. }
  assert (Hsame : count (m_steppers w' p) = count (m_steppers w p) /\
    position (m_steppers w' p) = position (m_steppers w p) /\
    interval (m_steppers w' p) = interval (m_steppers w p) /\
    add (m_steppers w' p) = add (m_steppers w p)) by (rewrite Hst; done).
  destruct Hsame as (Ec & Ep & Ei & Ea).
  split.
  - constructor; rewrite ?Ec, ?Ep, ?fmap_app, ?Hmoves; try done; try lia.
    + apply NoDup_app. split_and!; [done| |apply NoDup_singleton]. set_solver.
    + apply Forall_app. split; [done|]. by apply Forall_singleton.
    + rewrite Hfl. destruct dirc; [|done]. change SF_SINGLE_SCHED with (2 ^ 4).
      by rewrite has_lxor_other by lia.
    + rewrite Hfl. destruct dirc; [|done]. change SF_OPTIMIZED_PATH with (2 ^ 5).
      by rewrite has_lxor_other by lia.
    + rewrite Hfl, fold_left_app. cbn. unfold move_dir at 1. rewrite Hdir, <- Hla.
      destruct dirc; rewrite ?has_lxor_last; by destruct (has SF_LAST_DIR (flags (m_steppers w p))).
  - unfold pending_steps. rewrite Ec, Ei, Ea, Hw, fmap_app, Hmoves. cbn [fmap list_fmap].
    rewrite queue_times_snoc, app_assoc. f_equal. unfold move_dir at 1. rewrite Hdir, <- Hla.
    by rewrite last_time_app.
Qed.

(** Queueing steps on a moving stepper appends to its schedule.  The
    steps already pending are untouched; behind them come exactly the steps of
    the new move, timed from the last pending step and in the direction last
    requested with set_next_step_dir. *)
Theorem command_queue_step_active fuel oid interval_arg count_arg add_arg w p q d pos m b :
  step_rep w p q d pos -> 0 < count (m_steppers w p) -> m ∉ q ->
  oid_lookup (u8 oid) type (m_base w) = Ret p (m_base w) ->
  move_alloc (m_base w) = Ret m b -> u16 count_arg <> 0 ->
  exists w' fl, queue_step fuel oid interval_arg count_arg add_arg w = Ret tt w' /\
    step_rep w' p (q ++ [m]) d pos /\ m_trace w' = m_trace w /\
    pending_steps w' p (q ++ [m]) d = pending_steps w p q d ++
      ((fun t => (t, has SF_NEXT_DIR (flags (m_steppers w p)))) <$>
         move_times (last_time (st_wake p w) (pending_steps w p q d))
           (mk_stepper_move interval_arg (s16 add_arg) (u16 count_arg) fl)).
Proof.
  intros Hr Hc Hn Ho Ha Hca. unfold command_queue_step, stepper_oid_lookup.
  unfold bind at 1, zoom at 1. rewrite Ho. unfold bind at 1, zoom at 1.
  assert (Eb : b = (m_base w) <| move_free_list := move_free_list b |>).
  { unfold move_alloc in Ha. destruct (move_free_list (m_base w)); [|done].
    injection Ha as _ <-. done. }
  autorewrite with mcu. rewrite Ha. cbv zeta.
  unfold bind at 1, modify at 1. unfold bind at 1. rewrite (proj2 (Z.eqb_neq _ _)) by done.
  unfold ret at 1. unfold bind at 1, modify at 1. mcu.
  set (s := m_steppers w p) in *.
  assert (truthy (count s) = true) as Hact by (apply negb_true_iff, Z.eqb_neq; lia).
  rewrite Hact.
  set (dirc := negb (Bool.eqb (has SF_LAST_DIR (flags s)) (has SF_NEXT_DIR (flags s)))).
  set (w1 := move_state m _ (move_state m _ _)).
  set (w2 := if dirc then move_state m (fun mv => mv <| sm_flags ::= fun f => Z.lor f MF_DIR |>) w1
             else w1).
  match goal with |- context [(?a ;;; ?k) w1] => assert (Ew : (a ;;; k) w1 = k w2) end.
  { unfold w2. by destruct dirc. }
  rewrite Ew. clear Ew.
  assert (Hw2 : m_steppers w2 = m_steppers w /\ m_base w2 = b /\ m_trace w2 = m_trace w /\
    st_wake p w2 = st_wake p w /\ (forall n, n <> m -> m_moves w2 n = m_moves w n) /\
    m_moves w2 m = mk_stepper_move interval_arg (s16 add_arg) (u16 count_arg) (if dirc then 1 else 0)).
  { unfold w2, w1. destruct dirc; mcu; (split_and!; [done..| | |]).
    1,4: rewrite base_wake; [done|by rewrite Eb].
    1,3: intros n Hne; by rewrite !fn_lookup_insert_ne by done.
    all: by rewrite !fn_lookup_insert. }
  destruct Hw2 as (E1 & E2 & E3 & E4 & E5 & E6).
  destruct (push_spec b (mq s) q m) as (h' & b' & Ep & Hq' & _ & Eb').
  { rewrite Eb. apply Hr. } { apply Hr. } { done. }
  unfold upd, bind, modify, zoom. autorewrite with mcu. rewrite E2, Ep.
  assert (Hsch : bc_sched b' = bc_sched (m_base w)) by (rewrite Eb', Eb; done).
  eexists _, _. split; [reflexivity|].
  match goal with |- step_rep ?x _ _ _ _ /\ _ => set (w' := x) end.
  destruct (step_rep_push w w' p q d pos m dirc Hr Hc Hn) as [Hr' Hp'].
  all: unfold w'; mcu; rewrite ?E1; fold s; try done.
  - intros n Hnq. apply E5. by intros ->.
  - rewrite E6. pose proof (u16_range count_arg). unfold move_ok. cbn. lia.
  - rewrite E6. by destruct dirc.
  - unfold st_wake. mcu. by rewrite Hsch.
  - split_and!; [done|done|]. unfold w' in Hp'. rewrite Hp'. mcu. rewrite E6. f_equal.
    apply list_fmap_ext. intros _ t _. f_equal. fold s. unfold dirc.
    by destruct (has SF_LAST_DIR (flags s)), (has SF_NEXT_DIR (flags s)).
Qed.
End queue_step.

(** *** Stopping *)

Lemma free_moves_spec fuel h q free b :
  queue_rep (mnext b) h q -> chain (mnext b) (move_free_list b) free -> NoDup (q ++ free) ->
  (length q <= fuel)%nat ->
  exists h' b', free_moves fuel h b = Ret h' b' /\ first h' = None /\
    chain (mnext b') (move_free_list b') (rev q ++ free) /\ bc_sched b' = bc_sched b /\
    (forall x, x ∉ q -> mnext b' x = mnext b x).
Proof.
  revert h free b q. induction fuel as [|fuel IH]; intros h free b q Hq Hf Hd Hl;
    (destruct q as [|n q]; [|cbn in Hl; try lia]).
  1-2: destruct Hq as [Hc _]; cbn in Hc; exists h, b; cbn [free_moves]; unfold move_queue_empty;
    rewrite Hc; done.
  cbn [free_moves]. destruct (pop_spec _ _ _ _ Hq) as (h' & E & Hq').
  destruct Hq as [[Hc _] _]. unfold move_queue_empty. rewrite Hc.
  rewrite bool_decide_false by done. unfold bind. rewrite E. unfold modify. cbn [fst snd].
  cbn in Hd. apply NoDup_cons in Hd as [Hn Hd]. rewrite elem_of_app in Hn.
  destruct (IH h' (n :: free) (move_free n b) q) as (h2 & b2 & E2 & H1 & H2 & H3 & H4).
  - rewrite free_mnext. apply queue_rep_insert_ne; [tauto|done].
  - rewrite free_mnext. cbn. split; [done|]. rewrite fn_lookup_insert.
    apply chain_insert_ne; [tauto|done].
  - rewrite <- Permutation_middle. apply NoDup_cons. split; [|done]. rewrite elem_of_app. tauto.
  - lia.
  - exists h2, b2. split_and!; [done|done| |done|]; [cbn [rev]; rewrite <- app_assoc; done|].
    intros x [Hx Hq'']%not_elem_of_cons. rewrite H4, free_mnext by done. by apply fn_lookup_insert_ne.
Qed.

Lemma stop_flags fl k :
  has SF_SINGLE_SCHED fl = true -> has SF_OPTIMIZED_PATH fl = true ->
  let fl' := Z.lor (Z.land fl (Z.lor (Z.lor SF_INVERT_STEP SF_SINGLE_SCHED) SF_OPTIMIZED_PATH)) SF_NEED_RESET in
  has SF_SINGLE_SCHED fl' = true /\ has SF_OPTIMIZED_PATH fl' = true /\
  has SF_NEED_RESET fl' = true /\ has SF_LAST_DIR fl' = k && false.
Proof.
  change SF_SINGLE_SCHED with (2 ^ 4). change SF_OPTIMIZED_PATH with (2 ^ 5).
  change SF_NEED_RESET with (2 ^ 3). change SF_LAST_DIR with (2 ^ 0).
  rewrite !has_bit by lia. intros H1 H2. cbv zeta. rewrite !has_bit by lia.
  rewrite !Z.lor_spec, !Z.land_spec, H1, H2. rewrite !andb_false_r. by split_and!.
Qed.

Section stop.
Context (HAVE_AVR_OPTIMIZATION : bool).

(** A stop also leaves the other steppers and their queues alone. *)
Lemma stop_edge_run fuel w p q d pos base l free :
  step_rep w p q d pos -> - POSITION_BIAS < pos < POSITION_BIAS ->
  sched_inv base (bc_sched (m_base w)) l -> (length l < fuel)%nat ->
  chain (mnext (m_base w)) (move_free_list (m_base w)) free -> NoDup (q ++ free) ->
  (length q <= fuel)%nat ->
  exists w' l', stepper_stop HAVE_AVR_OPTIMIZATION fuel p w = Ret tt w' /\
    step_rep w' p [] false pos /\ pending_steps w' p [] false = [] /\
    has SF_NEED_RESET (flags (m_steppers w' p)) = true /\
    sched_inv base (bc_sched (m_base w')) l' /\
    pending l' = remove_timer (st_timer p) (pending l) /\
    chain (mnext (m_base w')) (move_free_list (m_base w')) (rev q ++ free) /\
    (forall x, x ∉ q -> mnext (m_base w') x = mnext (m_base w) x) /\
    (forall p', p' <> p -> m_steppers w' p' = m_steppers w p') /\ m_moves w' = m_moves w /\
    count (m_steppers w' p) = 0.
Proof.
  intros Hr Hpos Hinv Hfl Hch Hnd Hfq. destruct (get_position_exact _ _ _ _ _ Hr Hpos) as [Hgp _].
  destruct (del_timer_ok base _ l (Z.to_nat p) fuel Hinv Hfl) as (s' & Ed & l' & Hi' & Hl' & Hwk & _).
  set (s := m_steppers w p) in *. destruct (stop_flags (flags s) true) as (F1 & F2 & F3 & F4); [apply Hr..|].
  set (w1 := w <| m_base := (m_base w) <| bc_sched := s' |> |>).
  set (b0 := m_base (wake_state p 0 w1)).
  destruct (free_moves_spec fuel (mq s) q free b0) as (h & b & Ef & Hh & Hc & Hb & Hmn);
    [unfold b0, w1; mcu; apply Hr|unfold b0, w1; by mcu|done..|].
  assert (Hsch : sched_inv base (bc_sched b) l').
  { rewrite Hb. unfold b0. rewrite wake_sched. apply sched_inv_write; [done|].
    intros Hin%pending_elem; [|done]. rewrite Hl' in Hin. unfold remove_timer in Hin.
    apply list_elem_of_filter in Hin as [? _]. done. }
  unfold stepper_stop, upd, set_wake, zoom, bind, modify, emit.
  change (st_timer p) with (T_user (Z.to_nat p)) at 1. rewrite Ed. cbn [bc_sched set].
  fold w1. mcu. change (m_steppers w1 p) with s. unfold modify.
  destruct (negb _ || _); unfold ret; mcu; fold b0; rewrite Ef.
  all: eexists _, l'; split; [reflexivity|]; mcu; change (m_steppers w1 p) with s.
  all: split_and!; [..|done|done|done|intros x Hx; by rewrite Hmn|intros p' Hp'; repeat first [rewrite emit_steppers|
      rewrite wake_steppers|rewrite base_steppers|rewrite upd_steppers_ne by done]; done|done|by mcu];
    [|unfold pending_steps; by mcu|done].
  all: constructor; mcu; change (m_steppers w1 p) with s; try done; try constructor.
  all: rewrite Z.add_0_r; change (stepper_get_position _) with (stepper_get_position s);
    by rewrite Hgp.
Qed.

(** An emergency or homing stop.  [stepper_stop] returns; afterwards no
    step is pending, the stepper's timer is no longer scheduled and the other
    timers are, every queued move is back in the free list, the position is
    the one reached so far, and no step can be queued before the step clock is
    reset. *)
Theorem stepper_stop_edge fuel w p q d pos base l free :
  step_rep w p q d pos -> - POSITION_BIAS < pos < POSITION_BIAS ->
  sched_inv base (bc_sched (m_base w)) l -> (length l < fuel)%nat ->
  chain (mnext (m_base w)) (move_free_list (m_base w)) free -> NoDup (q ++ free) ->
  (length q <= fuel)%nat ->
  exists w' l', stepper_stop HAVE_AVR_OPTIMIZATION fuel p w = Ret tt w' /\
    step_rep w' p [] false pos /\ pending_steps w' p [] false = [] /\
    has SF_NEED_RESET (flags (m_steppers w' p)) = true /\
    sched_inv base (bc_sched (m_base w')) l' /\
    pending l' = remove_timer (st_timer p) (pending l) /\
    chain (mnext (m_base w')) (move_free_list (m_base w')) (rev q ++ free).
Proof.
  intros H1 H2 H3 H4 H5 H6 H7.
  destruct (stop_edge_run fuel w p q d pos base l free H1 H2 H3 H4 H5 H6 H7)
    as (w' & l' & E & R1 & R2 & R3 & R4 & R5 & R6 & _).
  exists w', l'. by split_and!.
Qed.
End stop.

(** ** The fully scheduled path does not drift *)

Section full.
Context (HAVE_EDGE_OPTIMIZATION HAVE_AVR_OPTIMIZATION : bool) (CONFIG_CLOCK_FREQ : Z) (clock : nat -> Z).
Abbreviation event_full := (stepper_event_full HAVE_EDGE_OPTIMIZATION HAVE_AVR_OPTIMIZATION
  CONFIG_CLOCK_FREQ clock).

Fixpoint run_events (n fuel : nat) (p : Z) : M mcu unit :=
  match n with
  | O => ret tt
  | S n => event_full fuel p;;; run_events n fuel p
  end.

Lemma land_1_parity x : truthy (Z.land x 1) = (x mod 2 =? 1).
Proof.
  pose proof (land_mask x 1 ltac:(lia)) as E. change (2 ^ 1) with 2 in E. change (2 - 1) with 1 in E.
  rewrite E. unfold truthy.
  pose proof (Z.mod_pos_bound x 2 ltac:(lia)).
  destruct (Z.eqb_spec (x mod 2) 0), (Z.eqb_spec (x mod 2) 1); cbn; lia.
Qed.

Lemma u32_cong a b k : a = b + k * 0x100000000 -> u32 a = u32 b.
Proof. intros ->. unfold u32. by rewrite Z.mod_add by lia. Qed.
Lemma u32_div_eq a : u32 a = a - 0x100000000 * (a / 0x100000000).
Proof. unfold u32. rewrite Z.mod_eq by lia. done. Qed.

(** The rising edge of a step: the falling edge is scheduled. *)
Lemma event_full_step fuel w p k :
  has SF_SINGLE_SCHED (flags (m_steppers w p)) = false ->
  count (m_steppers w p) = 2 * k -> 0 < k < 0x10000 ->
  exists w', event_full fuel p w = Ret SF_RESCHEDULE w' /\
    m_steppers w' p = (m_steppers w p) <| count := 2 * k - 1 |> /\
    st_wake p w' = u32 (clock (m_reads w) + step_pulse_ticks (m_steppers w p)) /\
    m_reads w' = S (m_reads w) /\ m_trace w' = m_trace w ++ [StepToggle p (st_wake p w)].
Proof.
  intros Hs Hc Hk. unfold stepper_event_full, gpio_out_toggle_step, emit, bind, modify, timer_read_time.
  mcu. rewrite Hc, u32_small, land_1_parity, Hs by lia.
  replace ((2 * k - 1) mod 2) with 1 by (Z.to_euclidean_division_equations; lia).
  cbn [Z.eqb Pos.eqb negb andb]. unfold upd, set_wake, modify. eexists. split; [reflexivity|]. by mcu.
Qed.

(** The falling edge: the next step is scheduled from the ideal time of this
    one, not from the time the events really ran. *)
Lemma event_full_unstep fuel w p k :
  has SF_SINGLE_SCHED (flags (m_steppers w p)) = false ->
  count (m_steppers w p) = 2 * k + 1 -> 0 < k < 0x10000 ->
  let s := m_steppers w p in
  let next_time := u32 (next_step_time s + interval s) in
  let min_time := u32 (clock (m_reads w) + step_pulse_ticks s) in
  exists w', event_full fuel p w = Ret SF_RESCHEDULE w' /\
    m_steppers w' p = s <| next_step_time := next_time |>
      <| interval := u32 (interval s + add s) |> <| count := 2 * k |> /\
    st_wake p w' = (if timer_is_before next_time min_time then min_time else next_time) /\
    m_reads w' = S (m_reads w) /\ m_trace w' = m_trace w ++ [StepToggle p (st_wake p w)].
Proof.
  intros Hs Hc Hk. unfold stepper_event_full, gpio_out_toggle_step, emit, bind, modify, timer_read_time.
  mcu. rewrite Hc, u32_small, land_1_parity, Hs by lia.
  replace (2 * k + 1 - 1) with (2 * k) by lia.
  replace ((2 * k) mod 2) with 0 by (Z.to_euclidean_division_equations; lia).
  cbn [Z.eqb negb andb]. unfold truthy. rewrite (proj2 (Z.eqb_neq (2 * k) 0)) by lia. cbn [negb].
  unfold upd, set_wake, modify.
  destruct (timer_is_before _ _); eexists; (split; [reflexivity|]); by mcu.
Qed.

(** C35: late events do not accumulate.  After the events of [j] complete steps
    of a move, whatever the clock read and however often an event was pushed
    back to respect the minimum pulse time, the ideal time of the next step is
    the polynomial of the move, and the timer is set to it or, if it is too
    close, to the minimum pulse time after the last edge. *)
Theorem stepper_full_no_drift fuel j c w p :
  let s := m_steppers w p in
  has SF_SINGLE_SCHED (flags s) = false -> count s = 2 * (Z.of_nat j + c) ->
  0 < c -> Z.of_nat j + c < 0x10000 ->
  0 <= next_step_time s < 0x100000000 -> 0 <= interval s < 0x100000000 ->
  exists w', run_events (2 * j) fuel p w = Ret tt w' /\
    let s' := m_steppers w' p in
    next_step_time s' = u32 (next_step_time s + Z.of_nat j * interval s
                             + add s * (Z.of_nat j * (Z.of_nat j - 1) / 2)) /\
    interval s' = u32 (interval s + Z.of_nat j * add s) /\
    count s' = 2 * c /\ position s' = position s /\
    (j <> 0%nat -> exists n, let min_time := u32 (clock n + step_pulse_ticks s) in
      st_wake p w' = if timer_is_before (next_step_time s') min_time then min_time
                     else next_step_time s').
Proof.
  revert w. induction j as [|j IH]; intros w s Hs Hc H0 Hj Hn Hi; subst s.
  - exists w. cbn [run_events Nat.mul]. split; [done|]. cbv zeta.
    change (Z.of_nat 0 * (Z.of_nat 0 - 1) / 2) with 0. rewrite !u32_small by lia.
    split_and!; [lia|lia|lia|done|done].
  - replace (2 * S j)%nat with (S (S (2 * j))) by lia. cbn [run_events]. unfold bind.
    set (s := m_steppers w p) in *.
    destruct (event_full_step fuel w p (Z.of_nat (S j) + c)) as (w1 & -> & E1 & W1 & R1 & T1);
      [done|done|lia|].
    destruct (event_full_unstep fuel w1 p (Z.of_nat j + c)) as (w2 & -> & E2 & W2 & R2 & T2);
      [by rewrite E1|rewrite E1; cbn; lia|lia|].
    rewrite E1 in E2, W2. fold s in E2, W2.
    cbn [interval add count next_step_time step_pulse_ticks position flags set] in E2, W2.
    specialize (IH w2). cbv zeta in IH. rewrite E2 in IH.
    cbn [interval add count next_step_time step_pulse_ticks position flags set] in IH.
    destruct IH as (w' & E3 & Hn' & Hi' & Hc' & Hp' & Hw'); [done|lia|lia|lia|apply u32_range..|].
    exists w'. split; [done|]. cbv zeta. split_and!; [rewrite Hn'|rewrite Hi'|done|done|].
    + replace (Z.of_nat (S j) * (Z.of_nat (S j) - 1)) with (Z.of_nat j * (Z.of_nat j - 1) + Z.of_nat j * 2) by lia.
      rewrite Z.div_add by lia. set (x := Z.of_nat j * (Z.of_nat j - 1) / 2).
      replace (Z.of_nat (S j)) with (Z.of_nat j + 1) by lia.
      apply (u32_cong _ _ (- ((next_step_time s + interval s) / 0x100000000
        + Z.of_nat j * ((interval s + add s) / 0x100000000)))).
      rewrite !(u32_div_eq (_ + _)). lia.
    + apply (u32_cong _ _ (- ((interval s + add s) / 0x100000000))). rewrite u32_div_eq. lia.
    + intros _. destruct j as [|j]; [|by apply Hw'].
      exists (m_reads w1). injection E3 as <-. by rewrite W2, E2.
Qed.
End full.

(** ** Concrete runs *)

(** A stepper at address 0x2000 (oid 0) with two steps of a move left, and a
    pool of three free nodes. *)
Definition demo_stepper : stepper :=
  mk_stepper 100 5 2 0 20 1 2 (u32 (- POSITION_BIAS + 2)) (mk_move_queue_head None None) 48 false.
Definition demo_mcu : mcu :=
  mk_mcu (demo_pool <| oid_count := 1 |> <| oid_tab := fun _ => mk_oid_s 7 0x2000 |>)
    (fun _ => mk_stepper_move 0 0 0 0) (fun _ => demo_stepper) [] 0.

Lemma demo_step_rep : step_rep demo_mcu 0x2000 [] false 0.
Proof. constructor; try reflexivity; try constructor; try done. Qed.

Lemma stepper_get_position_exact_witness :
  stepper_get_position (m_steppers demo_mcu 0x2000) = POSITION_BIAS + 0 /\
  s32 (u32 (stepper_get_position (m_steppers demo_mcu 0x2000) - POSITION_BIAS)) = 0.
Proof.
  apply (stepper_get_position_exact demo_mcu 0x2000 [] false 0); [exact demo_step_rep|].
  unfold POSITION_BIAS. lia.
Defined.

Lemma stepper_event_edge_step_witness :
  exists w' q' d' evs,
    stepper_event_edge true false 1000000 (fun _ => 0) 9 0x2000 demo_mcu = Ret SF_RESCHEDULE w' /\
    st_wake 0x2000 demo_mcu = 0 /\ false = false /\
    step_rep w' 0x2000 q' d' (-1) /\ pending_steps w' 0x2000 q' d' = [(100, false)] /\
    m_trace w' = [] ++ StepToggle 0x2000 0 :: evs /\ (evs = [] \/ evs = [DirToggle 0x2000]) /\
    ([(100, false)] = [] -> st_wake 0x2000 w' = 0).
Proof.
  apply (stepper_event_edge_step false 1000000 (fun _ => 0) 9 demo_mcu 0x2000 [] false 0 0 false [(100, false)]).
  - exact demo_step_rep.
  - reflexivity.
Defined.

Lemma command_queue_step_active_witness :
  exists w' fl, command_queue_step true false 1000000 (fun _ => 0) 7 9 0 500 3 0xfff6 demo_mcu = Ret tt w' /\
    step_rep w' 0x2000 [0x1000] false 0 /\ m_trace w' = [] /\
    pending_steps w' 0x2000 [0x1000] false = [(0, false); (100, false)] ++
      ((fun t => (t, false)) <$> move_times 100 (mk_stepper_move 500 (-10) 3 fl)).
Proof.
  apply (command_queue_step_active false 1000000 (fun _ => 0) 7 9 0 500 3 0xfff6 demo_mcu 0x2000 [] false 0
    0x1000 ((m_base demo_mcu) <| move_free_list := Some 0x1010 |>)).
  - exact demo_step_rep.
  - reflexivity.
  - set_solver.
  - reflexivity.
  - reflexivity.
  - discriminate.
Defined.

Lemma stepper_stop_edge_witness :
  exists w' l', stepper_stop false 9 0x2000 demo_mcu = Ret tt w' /\
    step_rep w' 0x2000 [] false 0 /\ pending_steps w' 0x2000 [] false = [] /\
    has SF_NEED_RESET (flags (m_steppers w' 0x2000)) = true /\
    sched_inv 0 (bc_sched (m_base w')) l' /\
    pending l' = remove_timer (st_timer 0x2000) [T_periodic] /\
    chain (mnext (m_base w')) (move_free_list (m_base w')) [0x1000; 0x1010; 0x1020].
Proof.
  apply (stepper_stop_edge false 9 demo_mcu 0x2000 [] false 0 0 [T_periodic] [0x1000; 0x1010; 0x1020]).
  - exact demo_step_rep.
  - unfold POSITION_BIAS. lia.
  - exact sched_init_inv.
  - cbn. lia.
  - repeat split; reflexivity.
  - repeat constructor; set_solver.
  - cbn. lia.
Defined.

(** The same stepper, fully scheduled, with four steps left. *)
Definition demo_full : mcu :=
  demo_mcu <| m_steppers := fun _ => demo_stepper <| flags := 0 |> <| count := 8 |> |>.

Lemma stepper_full_no_drift_witness :
  exists w', run_events false false 1000000 (fun n => 1000 + Z.of_nat n) 6 9 0x2000 demo_full = Ret tt w' /\
    next_step_time (m_steppers w' 0x2000) = 3 * 100 + 5 * 3 /\ count (m_steppers w' 0x2000) = 2.
Proof.
  destruct (stepper_full_no_drift false false 1000000 (fun n => 1000 + Z.of_nat n) 9 3 1 demo_full 0x2000)
    as (w' & E & Hn & _ & Hc & _ & _).
  - reflexivity.
  - reflexivity.
  - lia.
  - lia.
  - cbn. lia.
  - cbn. lia.
  - exists w'. split; [exact E|]. split; [exact Hn|exact Hc].
Defined.
