(* ===== verification/Objects.v ===== *)
(** * Objects with a timer, a move queue and pins

    Shared state of the output components (gpiocmds.c, pwmcmds.c): objects at
    the address their [oid_alloc] returned, the timer embedded in each of them,
    the payload of queued moves, and the log of pin writes. *)

From S2P Require Import Prelude Command Clock Sched Basecmd.

Lemma move_alloc_sched s b s' : move_alloc s = Ret b s' -> bc_sched s' = bc_sched s.
Proof. unfold move_alloc. destruct (move_free_list s); [|done]. by injection 1 as _ <-. Qed.
Lemma move_queue_push_sched m h s b s' : move_queue_push m h s = Ret b s' -> bc_sched s' = bc_sched s.
Proof.
  unfold move_queue_push. destruct (first h); [destruct (last h); [|done]|]; by injection 1 as _ <-.
Qed.

Lemma move_queue_push_first m h s h' r s' :
  move_queue_push m h s = Ret (h', r) s' -> truthy r = move_queue_empty h.
Proof.
  unfold move_queue_push, move_queue_empty.
  destruct (first h); [destruct (last h); [|done]|]; by injection 1 as _ <- _.
Qed.

Lemma move_queue_push_nonempty m h s h' r s' :
  move_queue_push m h s = Ret (h', r) s' -> move_queue_empty h' = false.
Proof.
  unfold move_queue_push, move_queue_empty.
  destruct (first h) eqn:E; [destruct (last h); [|done]|]; injection 1 as <- _ _; [cbn; by rewrite E|done].
Qed.

Section objects.
Context {Obj Mv : Type}.

Record ow := mk_ow {
  o_base : basecmd;
  o_objs : Z -> Obj;
  o_moves : Z -> Mv;
  o_pins : list (Z * Z) }.
#[export] Instance eta_ow : Eta ow := fun w => mk_ow (o_base w) (o_objs w) (o_moves w) (o_pins w).

Definition o_timer (p : Z) : tid := T_user (Z.to_nat p).
Definition o_wake (p : Z) (w : ow) : Z := wake (bc_sched (o_base w)) (o_timer p).
Definition o_set_wake (p v : Z) (w : ow) : ow :=
  w <| o_base ::= fun b => b <| bc_sched ::= fun s => s <| timers ::= set_waketime (o_timer p) v |> |> |>.
Definition o_upd (p : Z) (g : Obj -> Obj) (w : ow) : ow :=
  w <| o_objs ::= fun m => <[p := g (m p)]> m |>.
Definition o_set_move (n : Z) (g : Mv -> Mv) (w : ow) : ow :=
  w <| o_moves ::= fun m => <[n := g (m n)]> m |>.
Definition o_pin_write (pin v : Z) (w : ow) : ow := w <| o_pins ::= fun l => l ++ [(pin, v)] |>.

Definition o_sched (m : M sched unit) : M ow unit := zoom o_base (zoom bc_sched m).

(** ** Reading the state back *)

Section accessors.
Context (p v n pin : Z) (g : Obj -> Obj) (k : Mv -> Mv) (w : ow) (bc : basecmd).
Lemma o_upd_objs : o_objs (o_upd p g w) p = g (o_objs w p).
Proof. unfold o_upd. cbn [o_objs set]. by rewrite fn_lookup_insert. Qed.
Lemma o_upd_base : o_base (o_upd p g w) = o_base w. Proof. done. Qed.
Lemma o_upd_moves : o_moves (o_upd p g w) = o_moves w. Proof. done. Qed.
Lemma o_upd_pins : o_pins (o_upd p g w) = o_pins w. Proof. done. Qed.
Lemma o_upd_wake q : o_wake q (o_upd p g w) = o_wake q w. Proof. done. Qed.

Lemma o_set_wake_objs : o_objs (o_set_wake p v w) = o_objs w. Proof. done. Qed.
Lemma o_set_wake_mnext : mnext (o_base (o_set_wake p v w)) = mnext (o_base w). Proof. done. Qed.
Lemma o_set_wake_moves : o_moves (o_set_wake p v w) = o_moves w. Proof. done. Qed.
Lemma o_set_wake_pins : o_pins (o_set_wake p v w) = o_pins w. Proof. done. Qed.
Lemma o_set_wake_wake : o_wake p (o_set_wake p v w) = v.
Proof. unfold o_wake, o_set_wake. cbn [o_base bc_sched timers set]. by autorewrite with mem. Qed.

Lemma o_set_move_objs : o_objs (o_set_move n k w) = o_objs w. Proof. done. Qed.
Lemma o_set_move_base : o_base (o_set_move n k w) = o_base w. Proof. done. Qed.
Lemma o_set_move_moves : o_moves (o_set_move n k w) n = k (o_moves w n).
Proof. unfold o_set_move. cbn [o_moves set]. by rewrite fn_lookup_insert. Qed.
Lemma o_set_move_pins : o_pins (o_set_move n k w) = o_pins w. Proof. done. Qed.
Lemma o_set_move_wake q : o_wake q (o_set_move n k w) = o_wake q w. Proof. done. Qed.

Lemma o_pin_write_objs : o_objs (o_pin_write pin v w) = o_objs w. Proof. done. Qed.
Lemma o_pin_write_base : o_base (o_pin_write pin v w) = o_base w. Proof. done. Qed.
Lemma o_pin_write_moves : o_moves (o_pin_write pin v w) = o_moves w. Proof. done. Qed.
Lemma o_pin_write_pins : o_pins (o_pin_write pin v w) = o_pins w ++ [(pin, v)]. Proof. done. Qed.
Lemma o_pin_write_wake q : o_wake q (o_pin_write pin v w) = o_wake q w. Proof. done. Qed.

Lemma o_set_base_objs : o_objs (w <| o_base := bc |>) = o_objs w. Proof. done. Qed.
Lemma o_set_base_base : o_base (w <| o_base := bc |>) = bc. Proof. done. Qed.
Lemma o_set_base_moves : o_moves (w <| o_base := bc |>) = o_moves w. Proof. done. Qed.
Lemma o_set_base_pins : o_pins (w <| o_base := bc |>) = o_pins w. Proof. done. Qed.
Lemma o_set_base_wake q : bc_sched bc = bc_sched (o_base w) -> o_wake q (w <| o_base := bc |>) = o_wake q w.
Proof. intros E. unfold o_wake. cbn [o_base set]. by rewrite E. Qed.
Lemma o_set_base_id : w <| o_base := o_base w |> = w. Proof. by destruct w. Qed.
End accessors.

(** ** Running a scheduler call on the machine *)

Lemma o_sched_run (m : M sched unit) w s' :
  m (bc_sched (o_base w)) = Ret tt s' ->
  o_sched m w = Ret tt (w <| o_base := (o_base w) <| bc_sched := s' |> |>).
Proof. intros H. unfold o_sched, zoom. by rewrite H. Qed.

Lemma o_sched_inv (m : M sched unit) w a w' :
  o_sched m w = Ret a w' ->
  exists s', m (bc_sched (o_base w)) = Ret tt s' /\ w' = w <| o_base := (o_base w) <| bc_sched := s' |> |>.
Proof.
  unfold o_sched, zoom. destruct (m _) as [[] s'| |] eqn:E; try done. injection 1 as _ <-. eauto.
Qed.

(** A scheduler call changes neither the objects nor the wake times. *)
Definition o_quiet (w w' : ow) : Prop :=
  o_objs w' = o_objs w /\ o_moves w' = o_moves w /\ o_pins w' = o_pins w /\
  forall p, o_wake p w' = o_wake p w.

Lemma o_add_quiet fuel now t w a w' : o_sched (sched_add_timer fuel now t) w = Ret a w' -> o_quiet w w'.
Proof.
  intros (s' & H & ->)%o_sched_inv. split_and!; try done. intros p.
  unfold o_wake. cbn [o_base bc_sched set]. by apply (sched_add_timer_wake _ _ _ _ _ _ H).
Qed.

Lemma o_del_quiet fuel t w a w' : o_sched (sched_del_timer fuel t) w = Ret a w' -> o_quiet w w'.
Proof.
  intros (s' & H & ->)%o_sched_inv. split_and!; try done. intros p.
  unfold o_wake. cbn [o_base bc_sched set]. by apply (sched_del_timer_wake _ _ _ _ _ H).
Qed.

Lemma o_zoom_quiet {A} (m : M basecmd A) w a w' :
  (forall s b s', m s = Ret b s' -> bc_sched s' = bc_sched s) ->
  zoom o_base m w = Ret a w' ->
  (exists s', m (o_base w) = Ret a s' /\ w' = w <| o_base := s' |>) /\ o_quiet w w'.
Proof.
  intros Hm. unfold zoom. destruct (m _) as [b s'| |] eqn:E; try done. injection 1 as <- <-.
  split; [eauto|]. split_and!; try done. intros p. unfold o_wake. cbn [o_base set].
  by rewrite (Hm _ _ _ E).
Qed.

(** ** Resetting all objects of a type *)

(** What the shutdown handlers do with one object: write a value to its pin and
    change its fields. *)
Section reset.
Context (pin value : Obj -> Z) (reset : Obj -> Obj).
Definition reset_one (p : Z) (w : ow) : ow :=
  o_upd p reset (o_pin_write (pin (o_objs w p)) (value (o_objs w p)) w).

Lemma reset_objects l w :
  NoDup l.*2 ->
  exists w', run_objects (fun _ p => modify (reset_one p)) l w = Ret tt w' /\
    o_base w' = o_base w /\
    o_pins w' = o_pins w ++ ((fun x => (pin (o_objs w x.2), value (o_objs w x.2))) <$> l) /\
    (forall x, x ∈ l -> o_objs w' x.2 = reset (o_objs w x.2)) /\
    (forall p, p ∉ l.*2 -> o_objs w' p = o_objs w p).
Proof.
  revert w. induction l as [|[o p] l IH]; intros w Hn; cbn [run_objects].
  { exists w. split_and!; try done; [by rewrite app_nil_r|]. by intros x ?%not_elem_of_nil. }
  cbn [fmap list_fmap snd] in *. apply NoDup_cons in Hn as [Hp Hn]. unfold bind at 1, modify at 1.
  destruct (IH (reset_one p w) Hn) as (w' & E & E1 & E2 & E3 & E4). exists w'.
  assert (Hne : forall q, q <> p -> o_objs (reset_one p w) q = o_objs w q).
  { intros q Hq. unfold reset_one, o_upd, o_pin_write. cbn [o_objs set]. by rewrite fn_lookup_insert_ne. }
  assert (Hl : forall x, x ∈ l -> o_objs (reset_one p w) x.2 = o_objs w x.2).
  { intros x Hx. apply Hne. intros <-. apply Hp. by apply list_elem_of_fmap_2. }
  split_and!; [done|done| | |].
  - rewrite E2. change (o_pins (reset_one p w)) with (o_pins w ++ [(pin (o_objs w p), value (o_objs w p))]).
    rewrite <- app_assoc. cbn [app]. do 2 f_equal. apply list_fmap_ext. intros i x Hx.
    by rewrite Hl by (by eapply list_elem_of_lookup_2).
  - intros x [->|Hx]%elem_of_cons.
    + cbn [snd]. rewrite E4 by done. unfold reset_one. by rewrite o_upd_objs, o_pin_write_objs.
    + by rewrite E3, Hl.
  - intros q [Hq Hq']%not_elem_of_cons. by rewrite E4, Hne.
Qed.
End reset.
End objects.
Arguments ow : clear implicits.

Create Rewrite HintDb ow.
#[export] Hint Rewrite @o_upd_objs @o_upd_base @o_upd_moves @o_upd_pins @o_upd_wake @o_set_wake_objs
  @o_set_wake_mnext @o_set_wake_moves @o_set_wake_pins @o_set_wake_wake @o_set_move_objs
  @o_set_move_base @o_set_move_moves @o_set_move_pins @o_set_move_wake @o_pin_write_objs
  @o_pin_write_base @o_pin_write_moves @o_pin_write_pins @o_pin_write_wake @o_set_base_objs
  @o_set_base_base @o_set_base_moves @o_set_base_pins : ow.
#[export] Hint Rewrite @o_set_base_wake using done : ow.
#[global] Opaque o_set_wake o_upd o_set_move o_pin_write.
