(* ===== verification/Gpiocmds.v ===== *)
(** * Digital outputs with software PWM (src/gpiocmds.c)

    Outputs that may drive a heater have a [max_duration]: the theorems show
    that such an output cannot stay away from its default value without a new
    update or a shutdown within that time. *)

From S2P Require Import Prelude Command Clock Sched Basecmd Objects.

(** ** Data *)

Inductive digital_func : Set := F_digital_toggle | F_digital_load.

Record digital_out_s := mk_digital_out {
  d_func : digital_func;
  on_duration : Z;
  off_duration : Z;
  end_time : Z;
  d_pin : Z;
  max_duration : Z;
  cycle_time : Z;
  d_mq : move_queue_head;
  d_flags : Z }.
#[export] Instance eta_digital_out : Eta digital_out_s := fun d =>
  mk_digital_out (d_func d) (on_duration d) (off_duration d) (end_time d) (d_pin d) (max_duration d)
    (cycle_time d) (d_mq d) (d_flags d).

Record digital_move := mk_digital_move { dm_waketime : Z; dm_on_duration : Z }.
#[export] Instance eta_digital_move : Eta digital_move := fun m =>
  mk_digital_move (dm_waketime m) (dm_on_duration m).

Definition DF_ON : Z := 1.
Definition DF_TOGGLING : Z := 2.
Definition DF_CHECK_END : Z := 4.
Definition DF_DEFAULT_ON : Z := 16.

Abbreviation dow := (ow digital_out_s digital_move).

Section gpiocmds.
Context (dynmem_end sizeof_ptr command_config_digital_out_type sizeof_digital_out sizeof_digital_move : Z).

(** ** Timer events *)

(** DF_ON mirrors the level of the pin, so a toggle writes its new value. *)
Definition digital_toggle_event (p : Z) : M dow Z := fun w =>
  let d := o_objs w p in
  let fl := Z.lxor (d_flags d) DF_ON in
  let w := o_upd p (fun d => d <| d_flags := fl |>) (o_pin_write (d_pin d) (Z.land fl DF_ON) w) in
  let waketime := u32 (o_wake p w + if has DF_ON fl then on_duration d else off_duration d) in
  if has DF_CHECK_END fl && negb (timer_is_before waketime (end_time d)) then
    Ret SF_RESCHEDULE
      (o_set_wake p (end_time d) (o_upd p (fun d => d <| d_func := F_digital_load |>) w))
  else Ret SF_RESCHEDULE (o_set_wake p waketime w).

(** The flags and end time of a new setting, before the next queued one is
    considered. *)
Definition load_end_time (d : digital_out_s) (now on : Z) : Z * Z :=
  let fl := if truthy on then DF_ON else 0 in
  let check fl := if truthy (max_duration d)
                  then (u32 (now + max_duration d), Z.lor fl DF_CHECK_END) else (0, fl) in
  if negb (truthy fl) || (cycle_time d <=? on)
  then if negb (Bool.eqb (truthy fl) (has DF_DEFAULT_ON (d_flags d)))
       then check fl else (0, fl)
  else check (Z.lor fl DF_TOGGLING).

(** The last part of [digital_load_event]: store the setting and schedule the
    next event. *)
Definition load_schedule_next (p on et fl : Z) : M dow Z := fun w =>
  let w := o_upd p (fun d => d <| end_time := et |>
             <| d_flags := Z.lor fl (Z.land (d_flags d) DF_DEFAULT_ON) |>) w in
  if negb (has DF_TOGGLING fl) then
    if negb (has DF_CHECK_END fl) then Ret SF_DONE w
    else Ret SF_RESCHEDULE (o_set_wake p et w)
  else
    let waketime := u32 (o_wake p w + on) in
    if has DF_CHECK_END fl && negb (timer_is_before waketime et)
    then Ret SF_RESCHEDULE (o_set_wake p et w)
    else Ret SF_RESCHEDULE
      (o_upd p (fun d => d <| on_duration := on |> <| off_duration := u32 (cycle_time d - on) |>)
        (o_set_wake p waketime (o_upd p (fun d => d <| d_func := F_digital_toggle |>) w))).

Definition digital_load_event (p : Z) : M dow Z := fun w =>
  if move_queue_empty (d_mq (o_objs w p))
  then Halt "Missed scheduling of next digital out event" w
  else
    (r <- zoom o_base (move_queue_pop (d_mq (o_objs w p)));;
     let '(h, mn) := r in
     (fun w =>
        let w := o_upd p (fun d => d <| d_mq := h |>) w in
        let on := dm_on_duration (o_moves w mn) in
        let d := o_objs w p in
        let w := o_pin_write (d_pin d) (if truthy on then DF_ON else 0) w in
        let w := w <| o_base := move_free mn (o_base w) |> in
        let now := o_wake p w in
        let '(et, fl) := load_end_time d now on in
        let next :=
          match move_queue_first h with
          | None => Some (et, fl)
          | Some nn =>
            let wk := dm_waketime (o_moves w nn) in
            if has DF_CHECK_END fl && timer_is_before et wk then None
            else Some (wk, Z.lor fl DF_CHECK_END)
          end in
        match next with
        | None => Halt "Scheduled digital out event will exceed max_duration" w
        | Some (et, fl) => load_schedule_next p on et fl w
        end)) w.

(** The callback in [d->timer.func]. *)
Definition digital_timer (p : Z) : M dow Z := fun w =>
  match d_func (o_objs w p) with
  | F_digital_toggle => digital_toggle_event p w
  | F_digital_load => digital_load_event p w
  end.

(** ** Commands *)

Definition command_config_digital_out (oid pin value default_value max_dur : Z) : M dow unit :=
  modify (o_pin_write pin (b2z (truthy value)));;;
  p <- zoom o_base (oid_alloc dynmem_end sizeof_ptr (u8 oid) command_config_digital_out_type
                      sizeof_digital_out);;
  let fl := Z.lor (if truthy value then DF_ON else 0) (if truthy default_value then DF_DEFAULT_ON else 0) in
  modify (o_upd p (fun _ => mk_digital_out F_digital_load 0 0 0 pin max_dur 0
                              (mk_move_queue_head None None) fl));;;
  h <- zoom o_base (move_queue_setup sizeof_digital_move);;
  modify (o_upd p (fun d => d <| d_mq := h |>)).

Definition lookup_digital_out (oid : Z) : M dow Z :=
  zoom o_base (oid_lookup (u8 oid) command_config_digital_out_type).

Definition command_set_digital_out_pwm_cycle (oid cycle_ticks : Z) : M dow unit :=
  p <- lookup_digital_out oid;;
  (fun w =>
     if negb (move_queue_empty (d_mq (o_objs w p)))
     then Halt "Can not set soft pwm cycle ticks while updates pending" w
     else Ret tt (o_upd p (fun d => d <| cycle_time := cycle_ticks |>) w)).

(** The part of [command_queue_digital_out] for a move that is first on its
    queue.  [now] is the clock [sched_add_timer] reads. *)
Definition queue_first_digital_out (fuel : nat) (now p time : Z) : M dow unit := fun w =>
  let fl := d_flags (o_objs w p) in
  if has DF_CHECK_END fl && timer_is_before (end_time (o_objs w p)) time
  then Halt "Scheduled digital out event will exceed max_duration" w
  else
    let w := o_upd p (fun d => d <| end_time := time |> <| d_flags := Z.lor fl DF_CHECK_END |>) w in
    if has DF_TOGGLING fl && timer_is_before (o_wake p w) time then Ret tt w
    else
      (o_sched (sched_del_timer fuel (o_timer p));;;
       modify (o_set_wake p time);;;
       modify (o_upd p (fun d => d <| d_func := F_digital_load |>));;;
       o_sched (sched_add_timer fuel now (o_timer p))) w.

Definition command_queue_digital_out (fuel : nat) (now oid clock on_ticks : Z) : M dow unit :=
  p <- lookup_digital_out oid;;
  m <- zoom o_base move_alloc;;
  modify (o_set_move m (fun _ => mk_digital_move clock on_ticks));;;
  (fun w =>
     (r <- zoom o_base (move_queue_push m (d_mq (o_objs w p)));;
      modify (o_upd p (fun d => d <| d_mq := fst r |>));;;
      when truthy (snd r) then queue_first_digital_out fuel now p clock) w).

(** [time] is the clock the command reads, [now] the one [sched_add_timer] reads. *)
Definition command_update_digital_out (fuel : nat) (time now oid value_arg : Z) : M dow unit :=
  p <- lookup_digital_out oid;;
  o_sched (sched_del_timer fuel (o_timer p));;;
  (fun w =>
     let d := o_objs w p in
     if negb (move_queue_empty (d_mq d))
     then Halt "update_digital_out not valid with active queue" w
     else
       let on := if truthy (u8 value_arg) then DF_ON else 0 in
       let dflt := Z.land (d_flags d) DF_DEFAULT_ON in
       let w := o_pin_write (d_pin d) on w in
       if negb (Bool.eqb (truthy on) (truthy dflt)) && truthy (max_duration d) then
         let et := u32 (time + max_duration d) in
         (modify (o_upd p (fun d => d <| end_time := et |>));;;
          modify (o_set_wake p et);;;
          modify (o_upd p (fun d => d <| d_func := F_digital_load |>
                    <| d_flags := Z.lor (Z.lor dflt on) DF_CHECK_END |>));;;
          o_sched (sched_add_timer fuel now (o_timer p))) w
       else Ret tt (o_upd p (fun d => d <| d_flags := Z.lor dflt on |>) w)).

Definition digital_out_shutdown_one (p : Z) (w : dow) : dow :=
  let d := o_objs w p in
  let dflt := Z.land (d_flags d) DF_DEFAULT_ON in
  o_upd p (fun d => d <| d_flags := if truthy dflt then Z.lor DF_ON DF_DEFAULT_ON else 0 |>
                      <| d_mq ::= move_queue_clear |>)
    (o_pin_write (d_pin d) dflt w).
Definition digital_out_shutdown : M dow unit :=
  foreach_oid o_base command_config_digital_out_type (fun _ p => modify (digital_out_shutdown_one p)).

Definition command_set_digital_out (pin value : Z) : M dow unit := modify (o_pin_write pin value).
End gpiocmds.

(** ** The safety invariant *)

Lemma flag_bits fl :
  has DF_ON fl = Z.testbit fl 0 /\ has DF_TOGGLING fl = Z.testbit fl 1 /\
  has DF_CHECK_END fl = Z.testbit fl 2 /\ has DF_DEFAULT_ON fl = Z.testbit fl 4.
Proof.
  change DF_ON with (2 ^ 0). change DF_TOGGLING with (2 ^ 1). change DF_CHECK_END with (2 ^ 2).
  change DF_DEFAULT_ON with (2 ^ 4). rewrite !has_bit by lia. done.
Qed.

Lemma DF_ON_flag fl : has DF_ON fl = Z.testbit fl 0. Proof. apply flag_bits. Qed.
Lemma DF_TOGGLING_flag fl : has DF_TOGGLING fl = Z.testbit fl 1. Proof. apply flag_bits. Qed.
Lemma DF_CHECK_END_flag fl : has DF_CHECK_END fl = Z.testbit fl 2. Proof. apply flag_bits. Qed.
Lemma DF_DEFAULT_ON_flag fl : has DF_DEFAULT_ON fl = Z.testbit fl 4. Proof. apply flag_bits. Qed.

(** Evaluate the flags of an expression built from constants and one unknown. *)
Ltac flags := rewrite ?DF_ON_flag, ?DF_TOGGLING_flag, ?DF_CHECK_END_flag, ?DF_DEFAULT_ON_flag in *;
  rewrite ?Z.lor_spec, ?Z.land_spec, ?Z.lxor_spec in *;
  cbn [Z.testbit DF_ON DF_TOGGLING DF_CHECK_END DF_DEFAULT_ON Pos.testbit] in *;
  repeat (progress rewrite ?orb_true_r, ?orb_false_r, ?andb_true_r, ?andb_false_r, ?xorb_false_r,
    ?xorb_true_r in *).

(** The output is not constantly at its default value. *)
Definition active (d : digital_out_s) : bool :=
  has DF_TOGGLING (d_flags d) || negb (Bool.eqb (has DF_ON (d_flags d)) (has DF_DEFAULT_ON (d_flags d))).

Definition half_range (x : Z) : Prop := 0 <= x < 0x80000000.
Definition ranges (d : digital_out_s) : Prop :=
  half_range (on_duration d) /\ half_range (off_duration d) /\ half_range (cycle_time d) /\ half_range (max_duration d).

(** The object [d], whose timer has wake time [wk] and is scheduled iff [live].
    [base] is the time the scheduler has reached and [applied] the time the
    current setting took effect, both counted without wrap-around. *)
Record dobj (base : Z) (d : digital_out_s) (wk : Z) (live : bool) (applied : Z) : Prop := {
  di_deadline : max_duration d <> 0 -> active d = true ->
    has DF_CHECK_END (d_flags d) = true /\ base + key base (end_time d) <= applied + max_duration d;
  di_live : has DF_CHECK_END (d_flags d) = true -> live = true /\ in_window base (end_time d);
  di_toggle : live = true -> d_func d = F_digital_toggle ->
    has DF_TOGGLING (d_flags d) = true /\
    (has DF_CHECK_END (d_flags d) = true -> key base wk < key base (end_time d));
  di_load : live = true -> d_func d = F_digital_load ->
    has DF_CHECK_END (d_flags d) = true /\ wk = end_time d;
  di_toggling : has DF_TOGGLING (d_flags d) = true -> live = true;
  di_range : ranges d }.

Ltac owr := autorewrite with ow; cbn [d_func on_duration off_duration end_time d_pin max_duration
  cycle_time d_mq d_flags set].

Lemma key_add base wk x : key base wk = 0 -> half_range x -> key base (u32 (wk + x)) = x.
Proof. unfold key, half_range. intros. word. Qed.
Lemma window_add base wk x : key base wk = 0 -> half_range x -> in_window base (u32 (wk + x)).
Proof. intros Hk Hx. unfold in_window. rewrite key_add by done. unfold half_range in Hx. lia. Qed.

(** What a callback has done when it returns: the object is consistent again and
    of the scheduler's state only its own wake time has changed. *)
Definition called (base p : Z) (w : dow) (r : Z) (w' : dow) (applied : Z) : Prop :=
  dobj base (o_objs w' p) (o_wake p w') (r =? SF_RESCHEDULE) applied /\ (r = SF_DONE \/ r = SF_RESCHEDULE) /\
  (bc_sched (o_base w') = bc_sched (o_base w) \/
   exists v, in_window base v /\
     bc_sched (o_base w') = (bc_sched (o_base w)) <| timers ::= set_waketime (o_timer p) v |>).

Lemma digital_toggle_called base p w applied :
  dobj base (o_objs w p) (o_wake p w) true applied -> key base (o_wake p w) = 0 -> d_func (o_objs w p) = F_digital_toggle ->
  exists r w', digital_toggle_event p w = Ret r w' /\ called base p w r w' applied.
Proof.
  intros [H1 H2 H3 H4 H5 H6] Hk Hf. destruct (H3 eq_refl Hf) as [Ht _]. clear H3 H4.
  unfold digital_toggle_event. set (d := o_objs w p) in *. cbv zeta. owr.
  set (fl := Z.lxor (d_flags d) DF_ON).
  assert (Hfl : has DF_CHECK_END fl = has DF_CHECK_END (d_flags d) /\ has DF_TOGGLING fl = true).
  { unfold fl. revert Ht. flags. done. }
  destruct Hfl as [Ec Et].
  assert (Hact : active d = true) by (unfold active; by rewrite Ht).
  set (x := if has DF_ON fl then on_duration d else off_duration d).
  assert (Hx : half_range x) by (unfold x; destruct (has DF_ON fl); apply H6).
  pose proof (window_add _ _ _ Hk Hx) as Hwin.
  destruct (has DF_CHECK_END fl && negb (timer_is_before (u32 (o_wake p w + x)) (end_time d))) eqn:Eb.
  - apply andb_true_iff in Eb as [Eb1 Eb2]. rewrite Ec in Eb1. destruct (H2 Eb1) as [_ He].
    eexists _, _. split; [done|]. split_and!; [|by right|right; by exists (end_time d)].
    constructor; owr; fold d; rewrite ?Ec; try done. intros Hm _. by apply H1.
  - eexists _, _. split; [done|]. split_and!; [|by right|right; by eexists].
    constructor; owr; fold d; rewrite ?Ec; try done; try (intros; congruence).
    + intros Hm _. by apply H1.
    + intros _ _. split; [done|]. intros Hc. rewrite Ec, Hc in Eb. cbn in Eb. apply negb_false_iff in Eb.
      destruct (H2 Hc) as [_ He]. rewrite (timer_is_before_key base) in Eb by done. by apply Z.ltb_lt in Eb.
Qed.

Lemma load_end_time_spec d now on :
  let '(et, fl) := load_end_time d now on in
  has DF_ON fl = truthy on /\ has DF_DEFAULT_ON fl = false /\
  (has DF_CHECK_END fl = true -> et = u32 (now + max_duration d)) /\
  (has DF_TOGGLING fl = true -> on < cycle_time d) /\
  (max_duration d <> 0 ->
     has DF_TOGGLING fl || negb (Bool.eqb (truthy on) (has DF_DEFAULT_ON (d_flags d))) = true ->
     has DF_CHECK_END fl = true).
Proof.
  unfold load_end_time.
  assert (Hm : truthy (max_duration d) = false -> max_duration d = 0).
  { unfold truthy. intros E%negb_false_iff%Z.eqb_eq. done. }
  destruct (truthy on), (Z.leb_spec (cycle_time d) on), (has DF_DEFAULT_ON (d_flags d)),
    (truthy (max_duration d)); cbn -[has];
    (split_and!; [reflexivity|reflexivity|intros H1; first [reflexivity|vm_compute in H1; discriminate]|
      intros H1; first [done|vm_compute in H1; discriminate]|
      intros Hne; try (exfalso; apply Hne, Hm; reflexivity); vm_compute; congruence]).
Qed.

Lemma or_default fl fd :
  has DF_DEFAULT_ON fl = false ->
  let fl' := Z.lor fl (Z.land fd DF_DEFAULT_ON) in
  has DF_ON fl' = has DF_ON fl /\ has DF_TOGGLING fl' = has DF_TOGGLING fl /\
  has DF_CHECK_END fl' = has DF_CHECK_END fl /\ has DF_DEFAULT_ON fl' = has DF_DEFAULT_ON fd.
Proof. intros H. cbv zeta. revert H. flags. intros ->. by split_and!. Qed.

Lemma or_check_end fl :
  let fl' := Z.lor fl DF_CHECK_END in
  has DF_ON fl' = has DF_ON fl /\ has DF_TOGGLING fl' = has DF_TOGGLING fl /\
  has DF_CHECK_END fl' = true /\ has DF_DEFAULT_ON fl' = has DF_DEFAULT_ON fl.
Proof. cbv zeta. flags. by split_and!. Qed.

Lemma load_schedule_called base p w on et fl :
  let d := o_objs w p in let now := o_wake p w in
  key base now = 0 -> d_func d = F_digital_load -> has DF_DEFAULT_ON fl = false ->
  half_range (cycle_time d) -> half_range (max_duration d) ->
  (has DF_TOGGLING fl = true -> 0 <= on < cycle_time d) ->
  (has DF_CHECK_END fl = true -> in_window base et) ->
  (max_duration d <> 0 ->
     has DF_TOGGLING fl || negb (Bool.eqb (has DF_ON fl) (has DF_DEFAULT_ON (d_flags d))) = true ->
     has DF_CHECK_END fl = true /\ key base et <= max_duration d) ->
  half_range (on_duration d) -> half_range (off_duration d) ->
  exists r w', load_schedule_next p on et fl w = Ret r w' /\ called base p w r w' base.
Proof.
  intros d now Hk Hf Hd Hc Hm Hon Het Hdl Ho1 Ho2. destruct (or_default fl (d_flags d) Hd) as (F1 & F2 & F3 & F4).
  assert (Hgen : forall d', d_flags d' = Z.lor fl (Z.land (d_flags d) DF_DEFAULT_ON) ->
    max_duration d' = max_duration d -> end_time d' = et ->
    max_duration d' <> 0 -> active d' = true ->
      has DF_CHECK_END (d_flags d') = true /\ base + key base (end_time d') <= base + max_duration d').
  { intros d' E1 E2 E3. unfold active. rewrite E1, E2, E3, F1, F2, F3, F4. intros Hm0 Ha.
    destruct (Hdl Hm0 Ha). split; [done|lia]. }
  unfold load_schedule_next. cbv zeta. rewrite o_upd_wake. fold now. set (w1 := o_upd p _ w).
  destruct (has DF_TOGGLING fl) eqn:Et; cbn [negb].
  - specialize (Hon eq_refl). assert (Hx : half_range on) by (unfold half_range in *; lia).
    pose proof (window_add base now on Hk Hx) as Hw.
    destruct (has DF_CHECK_END fl && negb (timer_is_before (u32 (now + on)) et)) eqn:Eb.
    + apply andb_true_iff in Eb as [Eb1 Eb2]. eexists _, _. split; [done|].
      split_and!; [|by right|right; exists et; auto].
      constructor; [apply Hgen; unfold w1; by owr|..]; unfold w1; owr; fold d; rewrite ?F2, ?F3; try done; auto.
      intros; congruence.
    + eexists _, _. split; [done|]. split_and!; [|by right|right; by exists (u32 (now + on))].
      constructor; [apply Hgen; unfold w1; by owr|..]; unfold w1; owr; fold d; rewrite ?F2, ?F3; try done; auto.
      * intros _ _. split; [done|]. intros Hce. rewrite Hce in Eb. apply negb_false_iff in Eb.
        rewrite (timer_is_before_key base) in Eb by auto. by apply Z.ltb_lt in Eb.
      * unfold ranges, half_range in *. cbn. rewrite u32_small by lia. lia.
  - destruct (has DF_CHECK_END fl) eqn:Ec; cbn [negb].
    + eexists _, _. split; [done|]. split_and!; [|by right|right; exists et; auto].
      constructor; [apply Hgen; unfold w1; by owr|..]; unfold w1; owr; fold d; rewrite ?F2, ?F3; try done; auto.
      intros; congruence.
    + eexists _, _. split; [done|]. split_and!; [|by left|by left].
      constructor; [apply Hgen; unfold w1; by owr|..]; unfold w1; owr; fold d; rewrite ?F2, ?F3; try done; auto.
Qed.

Lemma move_free_sched m s : bc_sched (move_free m s) = bc_sched s.
Proof. done. Qed.

(** The queued settings are machine integers, and the one that follows the first
    is due within 2^31 ticks when the first is loaded. *)
Definition queued_ok (base p : Z) (w : dow) : Prop :=
  forall mn, first (d_mq (o_objs w p)) = Some mn ->
    0 <= dm_on_duration (o_moves w mn) /\
    forall nn, mnext (o_base w) mn = Some nn -> in_window base (dm_waketime (o_moves w nn)).

(** The load event either applies the next queued setting, with a deadline
    that respects [max_duration], or shuts the machine down. *)
Lemma digital_load_called base p w applied :
  dobj base (o_objs w p) (o_wake p w) true applied -> key base (o_wake p w) = 0 -> queued_ok base p w ->
  d_func (o_objs w p) = F_digital_load ->
  (exists r w', digital_load_event p w = Ret r w' /\ called base p w r w' base) \/
  (exists msg w', digital_load_event p w = Halt msg w' /\ bc_sched (o_base w') = bc_sched (o_base w)).
Proof.
  intros [_ _ _ _ _ (R1 & R2 & R3 & R4)] Hk Hq Hf. unfold digital_load_event.
  destruct (move_queue_empty _) eqn:Ee; [right; eauto|].
  unfold move_queue_empty in Ee. apply bool_decide_eq_false in Ee. unfold queued_ok in Hq.
  unfold bind, zoom, move_queue_pop. destruct (first (d_mq (o_objs w p))) as [mn|]; [|done].
  destruct (Hq mn eq_refl) as [Hon Hnn]. clear Hq.
  set (h := (d_mq (o_objs w p)) <| first := mnext (o_base w) mn |>). cbv zeta.
  match goal with |- context [load_end_time _ (o_wake p ?x) _] => set (w0 := x) end.
  set (on := dm_on_duration _). change (0 <= on) in Hon.
  assert (Ew : o_wake p w0 = o_wake p w) by (unfold w0; by owr).
  assert (Em : o_moves w0 = o_moves w) by (unfold w0; by owr).
  assert (Es : bc_sched (o_base w0) = bc_sched (o_base w)) by done.
  match goal with |- context [load_end_time ?x _ _] => assert (Eo : x = o_objs w0 p) by (unfold w0; by owr) end.
  assert (Ed : o_objs w0 p = (o_objs w p) <| d_mq := h |>) by (unfold w0; by owr).
  rewrite Eo, Em. clearbody w0. clear Eo Em.
  pose proof (load_end_time_spec (o_objs w0 p) (o_wake p w0) on) as Hs.
  destruct (load_end_time _ _ _) as [et fl]. destruct Hs as (S1 & S2 & S3 & S5 & S4). rewrite <- S1 in S4.
  assert (Hcall : forall et' fl', has DF_TOGGLING fl' = has DF_TOGGLING fl -> has DF_ON fl' = has DF_ON fl ->
     has DF_DEFAULT_ON fl' = false -> (has DF_CHECK_END fl' = true -> in_window base et') ->
     (has DF_CHECK_END fl = true -> has DF_CHECK_END fl' = true /\ key base et' <= max_duration (o_objs w0 p)) ->
     exists r w', load_schedule_next p on et' fl' w0 = Ret r w' /\ called base p w r w' base).
  { intros et' fl' T1 T2 T3 T4 T5.
    destruct (load_schedule_called base p w0 on et' fl') as (r & w' & E & C1 & C2 & C3); rewrite ?Ed, ?Ew in *; cbn in *; try done.
    - rewrite T1. intros Ht. specialize (S5 Ht). lia.
    - rewrite T1, T2. auto.
    - eexists _, _. split; [exact E|]. by rewrite Es in C3. }
  assert (Het : has DF_CHECK_END fl = true -> in_window base et /\ key base et = max_duration (o_objs w0 p)).
  { intros Hc. rewrite (S3 Hc), Ew, Ed. cbn. split; [by apply window_add|by apply key_add]. }
  unfold move_queue_first, h. cbn [first set]. destruct (mnext (o_base w) mn) as [nn|].
  - specialize (Hnn nn eq_refl). set (wk := dm_waketime _) in *.
    destruct (has DF_CHECK_END fl && timer_is_before et wk) eqn:Eb; [right; eauto|].
    left. destruct (or_check_end fl) as (F1 & F2 & F3 & F4). apply Hcall; rewrite ?F1, ?F2, ?F3, ?F4; try done.
    intros Hc. split; [done|]. destruct (Het Hc) as [H1 H2]. rewrite Hc, (timer_is_before_key base) in Eb by done.
    apply Z.ltb_ge in Eb. lia.
  - left. apply Hcall; try done; intros Hc; destruct (Het Hc); [done|split; [done|lia]].
Qed.

(** ** Commands and the timer list *)

Lemma o_del_ok base P fuel p (w : dow) :
  sched_ok base P (bc_sched (o_base w)) ->
  match o_sched (sched_del_timer fuel (o_timer p)) w with
  | Ret _ w' => sched_ok base (P ∖ {[Z.to_nat p]}) (bc_sched (o_base w')) /\ o_quiet w w'
  | Halt _ _ => False
  | Crash _ => True
  end.
Proof.
  intros Hok. destruct (o_sched _ w) as [[] w'|msg w'|] eqn:H; [|exfalso|done].
  - split; [|by eapply o_del_quiet]. apply o_sched_inv in H as (s' & E & ->).
    cbn [o_base bc_sched set]. by eapply ok_del.
  - revert H. unfold o_sched, zoom, sched_del_timer. case_decide; [done|]. by destruct (del_timer_loop _ _ _ _).
Qed.

Lemma o_add_ok base P fuel now p (w w' : dow) :
  sched_ok base P (bc_sched (o_base w)) -> Z.to_nat p ∉ P -> in_window base (o_wake p w) ->
  o_sched (sched_add_timer fuel now (o_timer p)) w = Ret tt w' ->
  sched_ok base ({[Z.to_nat p]} ∪ P) (bc_sched (o_base w')) /\ o_quiet w w'.
Proof.
  intros Hok Hn Hw H. split; [|by eapply o_add_quiet]. apply o_sched_inv in H as (s' & E & ->).
  cbn [o_base bc_sched set]. by eapply ok_add.
Qed.

Lemma o_add_halt fuel now p (w w' : dow) msg :
  o_sched (sched_add_timer fuel now (o_timer p)) w = Halt msg w' ->
  bc_sched (o_base w') = bc_sched (o_base w) /\ o_objs w' = o_objs w.
Proof.
  unfold o_sched, zoom, sched_add_timer, insert_timer, sched_try_shutdown.
  destruct (timer_is_before _ (wake _ (timer_list _))).
  - destruct (timer_is_before _ now); [destruct (negb _)|]; try done. cbn. by injection 1 as _ <-.
  - by destruct (insert_timer_loop _ _ _ _) as [[prev pos]|].
Qed.

(** The timer that was removed is given a new wake time and added again. *)
Lemma o_readd base P fuel now p v g (w : dow) :
  sched_ok base P (bc_sched (o_base w)) -> Z.to_nat p ∉ P ->
  match (modify (o_set_wake p v);;; modify (o_upd p g);;; o_sched (sched_add_timer fuel now (o_timer p))) w with
  | Ret _ w' => in_window base v ->
      sched_ok base ({[Z.to_nat p]} ∪ P) (bc_sched (o_base w')) /\ o_objs w' p = g (o_objs w p) /\ o_wake p w' = v
  | Halt _ w' => sched_ok base P (bc_sched (o_base w')) /\ o_objs w' p = g (o_objs w p)
  | Crash _ => True
  end.
Proof.
  intros Hok Hn. cbn [bind modify]. set (w1 := o_upd p g _).
  assert (Hok1 : sched_ok base P (bc_sched (o_base w1))) by (by apply ok_write).
  destruct (o_sched _ w1) as [[] w'|msg w'|] eqn:E; [| |done].
  2:{ apply o_add_halt in E as [-> ->]. split; [done|]. unfold w1. by owr. }
  intros Hw. assert (Hw1 : in_window base (o_wake p w1)) by (unfold w1; by owr).
  destruct (o_add_ok _ _ _ _ _ _ _ Hok1 Hn Hw1 E) as [H (E1 & _ & _ & E2)]. rewrite E1, E2. unfold w1. by owr.
Qed.

(** ** The invariant of one output *)

Definition dinv (base p : Z) (w : dow) (applied : Z) : Prop :=
  exists P, sched_ok base P (bc_sched (o_base w)) /\
    dobj base (o_objs w p) (o_wake p w) (bool_decide (Z.to_nat p ∈ P)) applied.

(** All a shutdown relies on. *)
Definition sound (base p : Z) (w : dow) : Prop :=
  exists P, sched_ok base P (bc_sched (o_base w)) /\ ranges (o_objs w p).

(** What a command must do: keep the invariant when it returns, and leave the
    scheduler in order when it shuts the machine down. *)
Definition obeys {A} (base p applied : Z) (o : outcome dow A) : Prop :=
  match o with Ret _ w' => dinv base p w' applied | Halt _ w' => sound base p w' | Crash _ => True end.

Lemma dinv_sound base p w applied : dinv base p w applied -> sound base p w.
Proof. intros (P & H & []). by exists P. Qed.

(** A setting that is first on its queue moves the deadline to its own time,
    which the guard keeps within the old one. *)
Lemma queue_first_obeys fuel now base p time w applied :
  dinv base p w applied -> in_window base time ->
  obeys base p applied (queue_first_digital_out fuel now p time w).
Proof.
  intros (P & Hok & [H1 H2 H3 H4 H5 H6]) Hw. unfold queue_first_digital_out. set (d := o_objs w p) in *.
  destruct (or_check_end (d_flags d)) as (F1 & F2 & F3 & F4). cbv zeta. autorewrite with ow.
  destruct (has DF_CHECK_END (d_flags d) && timer_is_before (end_time d) time) eqn:Eg; [by exists P|].
  assert (Hg : has DF_CHECK_END (d_flags d) = true -> key base time <= key base (end_time d)).
  { intros E. destruct (H2 E) as [_ He]. rewrite E, (timer_is_before_key base) in Eg by done. by apply Z.ltb_ge in Eg. }
  assert (Hdl : forall d', d_flags d' = Z.lor (d_flags d) DF_CHECK_END -> max_duration d' = max_duration d ->
    end_time d' = time -> max_duration d' <> 0 -> active d' = true ->
    has DF_CHECK_END (d_flags d') = true /\ base + key base (end_time d') <= applied + max_duration d').
  { intros d' E1 E2 E3. unfold active. rewrite E1, E2, E3, F1, F2, F3, F4. intros Hm Ha. split; [done|].
    destruct (H1 Hm Ha) as [Hc ?]. specialize (Hg Hc). lia. }
  destruct (has DF_TOGGLING (d_flags d) && timer_is_before (o_wake p w) time) eqn:Et.
  - apply andb_true_iff in Et as [Et1 Et2]. cbn [obeys]. exists P. split; [done|].
    assert (Hs : in_window base (o_wake p w)).
    { apply scheduled_window. apply (ok_scheduled _ _ _ _ Hok). by eapply bool_decide_eq_true_1, H5. }
    rewrite (timer_is_before_key base) in Et2 by done. apply Z.ltb_lt in Et2.
    constructor; [apply Hdl; by owr|..]; owr; fold d; rewrite ?F2, ?F3; try done.
    + intros _. split; [by apply H5|done].
    + intros L Hf. destruct (H4 L Hf) as [E1 E2]. specialize (Hg E1). rewrite E2 in Et2. lia.
  - set (w0 := o_upd p _ w). unfold bind at 1. pose proof (o_del_ok base P fuel p w0 Hok) as Hdel.
    destruct (o_sched _ w0) as [[] w1|msg w1|]; [|done..]. destruct Hdel as [Hok1 (E1 & _)].
    set (P1 := P ∖ {[Z.to_nat p]}) in *. assert (Hn : Z.to_nat p ∉ P1) by (unfold P1; set_solver).
    pose proof (o_readd base P1 fuel now p time (fun d => d <| d_func := F_digital_load |>) w1 Hok1 Hn) as Hadd.
    destruct ((modify _ ;;; _) w1) as [a w'|msg w'|]; [|exists P1; split; [apply Hadd|destruct Hadd as [_ ->]]; rewrite E1; unfold w0; by owr|done].
    destruct (Hadd Hw) as (Hok2 & E2 & E3).
    exists ({[Z.to_nat p]} ∪ P1). split; [done|]. rewrite bool_decide_eq_true_2 by set_solver.
    rewrite E1 in E2. unfold w0 in E2. rewrite o_upd_objs in E2. fold d in E2. rewrite E2, E3.
    constructor; [by apply Hdl|..]; cbn [d_func end_time max_duration d_flags set]; rewrite ?F3; done.
Qed.

Lemma dobj_mq base d wk live applied h : dobj base d wk live applied -> dobj base (d <| d_mq := h |>) wk live applied.
Proof. by intros []; constructor. Qed.

Lemma command_queue_obeys fuel now type oid base p clock on w applied :
  oid_lookup (u8 oid) type (o_base w) = Ret p (o_base w) -> dinv base p w applied -> in_window base clock ->
  obeys base p applied (command_queue_digital_out type fuel now oid clock on w).
Proof.
  intros Hl (P & Hok & Hi) Hw. unfold command_queue_digital_out, lookup_digital_out, bind, zoom, move_alloc, modify.
  rewrite Hl. cbn [o_base set]. destruct (move_free_list (o_base w)) as [mf|]; [|exists P; split; [done|apply Hi]].
  destruct (move_queue_push _ _ _) as [[h r] s'|msg s'|] eqn:E; [|exfalso|done].
  2:{ revert E. unfold move_queue_push. destruct (first _); [by destruct (last _)|done]. }
  apply move_queue_push_sched in E. cbn [fst snd]. match goal with |- obeys _ _ _ (_ ?x) => set (w1 := x) end.
  assert (Hi1 : dinv base p w1 applied).
  { exists P. unfold w1. split; [by cbn [o_base o_upd set]; rewrite E|]. rewrite o_upd_objs, o_upd_wake.
    unfold o_wake. cbn [o_base set]. rewrite E. by apply dobj_mq. }
  destruct (truthy r); [by apply queue_first_obeys|exact Hi1].
Qed.

Lemma update_flags fd v :
  let on := if truthy v then DF_ON else 0 in
  let fl := Z.lor (Z.land fd DF_DEFAULT_ON) on in
  has DF_ON fl = truthy on /\ has DF_TOGGLING fl = false /\ has DF_CHECK_END fl = false /\
  has DF_DEFAULT_ON fl = has DF_DEFAULT_ON fd.
Proof. cbv zeta. destruct (truthy v); flags; by split_and!. Qed.

Lemma key_end base time x :
  in_window base time -> 0 <= x -> key base time + x < 0x80000000 ->
  key base (u32 (time + x)) = key base time + x /\ in_window base (u32 (time + x)).
Proof. unfold in_window, key. intros. word. Qed.

Lemma command_update_obeys fuel time now type oid base p v w applied :
  oid_lookup (u8 oid) type (o_base w) = Ret p (o_base w) -> dinv base p w applied ->
  in_window base time -> key base time + max_duration (o_objs w p) < 0x80000000 ->
  obeys base p (base + key base time) (command_update_digital_out type fuel time now oid v w).
Proof.
  intros Hl (P & Hok & [_ _ _ _ _ H6]) Hw Hmax. unfold command_update_digital_out, lookup_digital_out.
  unfold bind at 1, zoom at 1. rewrite Hl, o_set_base_id. unfold bind at 1.
  pose proof (o_del_ok base P fuel p w Hok) as Hdel. destruct (o_sched _ w) as [[] w1|msg w1|]; [|done..].
  destruct Hdel as [Hok1 (E1 & _)]. set (P1 := P ∖ {[Z.to_nat p]}) in *.
  assert (Hn : Z.to_nat p ∉ P1) by (unfold P1; set_solver). rewrite E1. set (d := o_objs w p) in *.
  destruct (negb (move_queue_empty (d_mq d))); [exists P1; split; [done|by rewrite E1]|]. cbv zeta.
  set (on := if truthy (u8 v) then DF_ON else 0) in *.
  destruct (update_flags (d_flags d) (u8 v)) as (F1 & F2 & F3 & F4). fold on in F1, F2, F3, F4.
  set (fl := Z.lor (Z.land (d_flags d) DF_DEFAULT_ON) on) in *.
  destruct (or_check_end fl) as (G1 & G2 & G3 & G4).
  change (truthy (Z.land (d_flags d) DF_DEFAULT_ON)) with (has DF_DEFAULT_ON (d_flags d)).
  destruct (_ && _) eqn:Eb.
  - set (et := u32 (time + max_duration d)). unfold bind at 1, modify at 1.
    destruct (key_end base time (max_duration d) Hw) as [Ke We]; [apply H6|done|].
    set (w2 := o_upd p _ _). set (g := fun d : digital_out_s => _).
    pose proof (o_readd base P1 fuel now p et g w2 Hok1 Hn) as Hadd.
    destruct ((modify _ ;;; _) w2) as [a w'|msg w'|]; [|exists P1; split; [apply Hadd|destruct Hadd as [_ ->]]; unfold w2; owr; by rewrite E1|done].
    destruct (Hadd We) as (Hok2 & E2 & E3).
    exists ({[Z.to_nat p]} ∪ P1). split; [done|]. rewrite bool_decide_eq_true_2 by set_solver.
    rewrite E2, E3. unfold w2. rewrite o_upd_objs, o_pin_write_objs, E1. fold d. unfold g.
    constructor; cbn [d_func end_time max_duration d_flags on_duration off_duration cycle_time set]; rewrite ?G3; try done.
    intros _ _. split; [done|]. fold et in Ke. lia.
  - exists P1. split; [done|]. rewrite bool_decide_eq_false_2 by done.
    rewrite o_upd_objs, o_pin_write_objs, E1. fold d.
    constructor; cbn [d_func end_time max_duration d_flags on_duration off_duration cycle_time set]; rewrite ?F2, ?F3; try done.
    unfold active. cbn [d_flags set]. rewrite F1, F2, F4. intros Hm Ha. cbn [orb] in Ha.
    rewrite Ha in Eb. unfold truthy in Eb. by apply negb_false_iff, Z.eqb_eq in Eb.
Qed.

Lemma command_cycle_obeys type oid base p ticks w applied :
  oid_lookup (u8 oid) type (o_base w) = Ret p (o_base w) -> dinv base p w applied -> half_range ticks ->
  obeys base p applied (command_set_digital_out_pwm_cycle type oid ticks w).
Proof.
  intros Hl (P & Hok & Hi) Ht. unfold command_set_digital_out_pwm_cycle, lookup_digital_out, bind, zoom.
  rewrite Hl, o_set_base_id. destruct (negb _); [exists P; split; [done|apply Hi]|]. exists P. split; [done|]. rewrite o_upd_objs, o_upd_wake.
  destruct Hi as [? ? ? ? ? (? & ? & ? & ?)]. by constructor.
Qed.

(** ** Runs of one output *)

Lemma digital_timer_halt p w msg w' :
  digital_timer p w = Halt msg w' ->
  bc_sched (o_base w') = bc_sched (o_base w) /\ (ranges (o_objs w p) -> ranges (o_objs w' p)).
Proof.
  unfold digital_timer, digital_toggle_event, digital_load_event. destruct (d_func _); cbv zeta.
  - by destruct (_ && _).
  - destruct (move_queue_empty _); [by injection 1 as _ <-|]. unfold bind, zoom, move_queue_pop.
    destruct (first _) as [mn|]; [|done]. cbv zeta. destruct (load_end_time _ _ _) as [et fl].
    assert (Hn : forall on et fl w1, load_schedule_next p on et fl w1 <> Halt msg w').
    { intros. unfold load_schedule_next. cbv zeta. repeat case_match; done. }
    destruct (move_queue_first _); [destruct (_ && _); [injection 1 as _ <-; split; [done|]; by owr|]|]; by intros ?%Hn.
Qed.

Section run.
Context (freq type oid p : Z).

(** The machine shuts down: in an event or a command of this output, which stops
    where the handler called [shutdown], or anywhere else. *)
Inductive halted (base : Z) (w : dow) : dow -> Prop :=
| hl_elsewhere : halted base w w
| hl_timer msg w' : digital_timer p w = Halt msg w' -> halted base w w'
| hl_queue fuel now clock on msg w' :
    oid_lookup (u8 oid) type (o_base w) = Ret p (o_base w) -> in_window base clock ->
    command_queue_digital_out type fuel now oid clock on w = Halt msg w' -> halted base w w'
| hl_update fuel time now v msg w' :
    oid_lookup (u8 oid) type (o_base w) = Ret p (o_base w) -> in_window base time ->
    key base time + max_duration (o_objs w p) < 0x80000000 ->
    command_update_digital_out type fuel time now oid v w = Halt msg w' -> halted base w w'
| hl_cycle ticks msg w' :
    oid_lookup (u8 oid) type (o_base w) = Ret p (o_base w) -> half_range ticks ->
    command_set_digital_out_pwm_cycle type oid ticks w = Halt msg w' -> halted base w w'.

(** A step of the machine as the output at [p] sees it; the state is the time the
    scheduler has reached, the memory and the time of the current setting.
    - [ds_timer]: the timer of the output is first on the list and its time has
      come; its callback runs and the scheduler updates its list.
    - [ds_queue], [ds_update], [ds_cycle]: a command that addresses the output; the
      clocks it mentions lie within 2^31 ticks.
    - [ds_shutdown]: [run_shutdown] clears the timer list and the handler of the
      output runs.
    - [ds_other]: anything else the scheduler does, callbacks of other timers and
      the passing of time included, which leaves the output and its timer alone. *)
Inductive dstep : Z * dow * Z -> Z * dow * Z -> Prop :=
| ds_timer base w applied fuel r w1 nw w' :
    timer_list (bc_sched (o_base w)) = o_timer p -> key base (o_wake p w) = 0 -> queued_ok base p w ->
    digital_timer p w = Ret r w1 ->
    zoom o_base (zoom bc_sched (dispatch_update fuel (o_timer p) r)) w1 = Ret nw w' ->
    dstep (base, w, applied)
      (base, w', match d_func (o_objs w p) with F_digital_load => base | F_digital_toggle => applied end)
| ds_queue base w applied fuel now clock on w' :
    oid_lookup (u8 oid) type (o_base w) = Ret p (o_base w) -> in_window base clock ->
    command_queue_digital_out type fuel now oid clock on w = Ret tt w' ->
    dstep (base, w, applied) (base, w', applied)
| ds_update base w applied fuel time now v w' :
    oid_lookup (u8 oid) type (o_base w) = Ret p (o_base w) -> in_window base time ->
    key base time + max_duration (o_objs w p) < 0x80000000 ->
    command_update_digital_out type fuel time now oid v w = Ret tt w' ->
    dstep (base, w, applied) (base, w', base + key base time)
| ds_cycle base w applied ticks w' :
    oid_lookup (u8 oid) type (o_base w) = Ret p (o_base w) -> half_range ticks ->
    command_set_digital_out_pwm_cycle type oid ticks w = Ret tt w' ->
    dstep (base, w, applied) (base, w', applied)
| ds_shutdown base w applied w1 reason w2 :
    halted base w w1 -> o_sched (run_shutdown reason (ret tt)) w1 = Ret tt w2 ->
    dstep (base, w, applied) (base, digital_out_shutdown_one p w2, applied)
| ds_other base w applied P base' P' w' :
    sched_ok base P (bc_sched (o_base w)) ->
    sched_step freq (base, P, bc_sched (o_base w)) (base', P', bc_sched (o_base w')) ->
    (Z.to_nat p ∈ P <-> Z.to_nat p ∈ P') -> o_wake p w' = o_wake p w -> o_objs w' p = o_objs w p ->
    dstep (base, w, applied) (base', w', applied).

Lemma ds_timer_inv base w applied fuel r w1 nw w' :
  dinv base p w applied ->
  timer_list (bc_sched (o_base w)) = o_timer p -> key base (o_wake p w) = 0 -> queued_ok base p w ->
  digital_timer p w = Ret r w1 -> zoom o_base (zoom bc_sched (dispatch_update fuel (o_timer p) r)) w1 = Ret nw w' ->
  dinv base p w' (match d_func (o_objs w p) with F_digital_load => base | F_digital_toggle => applied end).
Proof.
  intros (P & Hok & Hi) Ht Hk Hq Hev Hd.
  assert (Hin : Z.to_nat p ∈ P).
  { destruct Hok as (l & Hi' & Hl). apply Hl. destruct (sched_inv_cons _ _ _ Hi') as (t & l1 & -> & Et).
    rewrite Et in Ht. subst t. by left. }
  rewrite bool_decide_eq_true_2 in Hi by done.
  assert (Hc : called base p w r w1 (match d_func (o_objs w p) with F_digital_load => base | F_digital_toggle => applied end)).
  { unfold digital_timer in Hev. destruct (d_func (o_objs w p)) eqn:Ef.
    - destruct (digital_toggle_called base p w applied Hi Hk Ef) as (r2 & w2 & E & C). rewrite E in Hev. by injection Hev as <- <-.
    - destruct (digital_load_called base p w applied Hi Hk Hq Ef) as [(r2 & w2 & E & C)|(msg & w2 & E & _)];
        rewrite E in Hev; [by injection Hev as <- <-|done]. }
  destruct Hc as (C1 & C2 & C3). unfold zoom in Hd.
  destruct (dispatch_update _ _ _ _) as [nw' s'| |] eqn:Eu; [|done..]. injection Hd as -> <-.
  pose proof (dispatch_update_wake _ _ _ _ _ _ (o_timer p) Eu) as Hwk.
  eexists. cbn [o_base bc_sched set]. split.
  - eapply ok_dispatch_update; [exact Hok|exact Ht| |exact Eu]. destruct C3 as [->|(v & Hv & ->)]; [done|].
    by apply rtc_once, cb_wake.
  - unfold o_wake in *. cbn [o_base o_objs bc_sched set]. rewrite Hwk.
    destruct C2 as [->| ->]; cbn [Z.eqb SF_DONE SF_RESCHEDULE Pos.eqb] in *.
    + by rewrite bool_decide_eq_false_2 by set_solver.
    + by rewrite bool_decide_eq_true_2.
Qed.

Lemma halted_sound base w w' applied : halted base w w' -> dinv base p w applied -> sound base p w'.
Proof.
  destruct 1 as [|msg w' E|fuel now clock on msg w' Hl Hc E|fuel time now v msg w' Hl Ht Hm E|ticks msg w' Hl Ht E]; intros Hi.
  - by eapply dinv_sound.
  - destruct Hi as (P & Hok & []), (digital_timer_halt _ _ _ _ E) as [E1 E2]. exists P. rewrite E1. auto.
  - pose proof (command_queue_obeys fuel now type oid base p clock on w applied Hl Hi Hc) as H. by rewrite E in H.
  - pose proof (command_update_obeys fuel time now type oid base p v w applied Hl Hi Ht Hm) as H. by rewrite E in H.
  - pose proof (command_cycle_obeys type oid base p ticks w applied Hl Hi Ht) as H. by rewrite E in H.
Qed.

Lemma ok_run_shutdown base P s reason s' :
  sched_ok base P s -> run_shutdown reason (ret tt) s = Ret tt s' -> sched_ok base ∅ s'.
Proof.
  intros Hok H. unfold run_shutdown, bind, ret, modify in H. injection H as <-.
  set (s1 := if negb (truthy (shutdown_status s)) then s <| shutdown_reason := reason |> else s).
  assert (H1 : sched_ok base P (s1 <| shutdown_status := 2 |>)).
  { apply (ok_same _ _ s); [|done]. unfold s1. by destruct (negb (truthy (shutdown_status s))). }
  apply ok_reset in H1. by eapply ok_same, H1.
Qed.

Lemma ds_shutdown_inv base w reason w' applied :
  sound base p w ->
  o_sched (run_shutdown reason (ret tt)) w = Ret tt w' -> dinv base p (digital_out_shutdown_one p w') applied.
Proof.
  intros (P & Hok & Hr) (s' & E & ->)%o_sched_inv. exists ∅. split; [by eapply ok_run_shutdown|].
  rewrite bool_decide_eq_false_2 by set_solver. unfold digital_out_shutdown_one. cbv zeta.
  destruct (truthy (Z.land _ DF_DEFAULT_ON)); constructor; owr; done.
Qed.

Lemma dobj_time base d wk live applied x :
  dobj base d wk live applied -> (live = true -> 0 <= x <= key base wk) -> dobj (base + x) d wk live applied.
Proof.
  intros [H1 H2 H3 H4 H5 H6] Hx.
  assert (He : has DF_CHECK_END (d_flags d) = true -> 0 <= x <= key base (end_time d)).
  { intros Hc. destruct (H2 Hc) as [L _]. specialize (Hx L). destruct (d_func d) eqn:Ef.
    - destruct (H3 L eq_refl) as [_ H]. specialize (H Hc). lia.
    - destruct (H4 L eq_refl) as [_ <-]. done. }
  constructor; try done.
  - intros Hm Ha. destruct (H1 Hm Ha) as [Hc ?]. split; [done|]. rewrite key_shift by auto. lia.
  - intros Hc. destruct (H2 Hc) as [L Hw]. split; [done|]. unfold in_window in *. specialize (He Hc).
    rewrite key_shift by done. lia.
  - intros L Hf. destruct (H3 L Hf) as [Ht H]. split; [done|]. intros Hc. rewrite !key_shift by auto.
    specialize (H Hc). lia.
Qed.

Lemma ds_other_inv base w applied P base' P' w' :
  dinv base p w applied -> sched_ok base P (bc_sched (o_base w)) ->
  sched_step freq (base, P, bc_sched (o_base w)) (base', P', bc_sched (o_base w')) ->
  (Z.to_nat p ∈ P <-> Z.to_nat p ∈ P') -> o_wake p w' = o_wake p w -> o_objs w' p = o_objs w p ->
  dinv base' p w' applied.
Proof.
  intros (P0 & Hok0 & Hi) Hok Hs Hn Ew Eo. rewrite (ok_unique _ _ _ _ _ Hok0 Hok) in Hi. exists P'.
  split; [by apply (sched_step_ok freq _ _ Hs)|]. rewrite Ew, Eo.
  rewrite (bool_decide_ext _ _ Hn) in Hi. assert (base' = base + (base' - base)) as -> by lia.
  apply dobj_time; [done|]. intros L%bool_decide_eq_true_1%Hn.
  destruct (sched_step_time _ _ _ _ _ _ _ _ Hs Hok L) as (x & -> & Hx). unfold o_wake, o_timer. lia.
Qed.

Lemma dstep_inv a b : dstep a b -> dinv a.1.1 p a.1.2 a.2 -> dinv b.1.1 p b.1.2 b.2.
Proof.
  destruct 1 as [|base w applied fuel now clock on w' Hl Hc E|base w applied fuel time now v w' Hl Ht Hm E
    |base w applied ticks w' Hl Ht E|base w applied w1 reason w2 Hh E|]; cbn [fst snd]; intros Hi.
  - by eapply ds_timer_inv.
  - pose proof (command_queue_obeys fuel now type oid base p clock on w applied Hl Hi Hc) as G. by rewrite E in G.
  - pose proof (command_update_obeys fuel time now type oid base p v w applied Hl Hi Ht Hm) as G. by rewrite E in G.
  - pose proof (command_cycle_obeys type oid base p ticks w applied Hl Hi Ht) as G. by rewrite E in G.
  - eapply ds_shutdown_inv; [by eapply halted_sound|exact E].
  - by eapply ds_other_inv.
Qed.

Lemma dinv_run a b : rtc dstep a b -> dinv a.1.1 p a.1.2 a.2 -> dinv b.1.1 p b.1.2 b.2.
Proof. induction 1; eauto using dstep_inv. Qed.
End run.

Lemma oid_alloc_made dynmem_end sizeof_ptr oid type size s p s' :
  oid_alloc dynmem_end sizeof_ptr oid type size s = Ret p s' ->
  oid_count s' = oid_count s /\ oid < oid_count s' /\ oid_tab s' oid = mk_oid_s type p /\ bc_sched s' = bc_sched s.
Proof.
  unfold oid_alloc. destruct (Z.leb_spec (oid_count s) oid); [done|]. cbn [orb].
  destruct (truthy _); [done|]. destruct (is_finalized s); [done|]. cbn [orb].
  unfold bind, modify, alloc_chunk, ret. destruct (_ <? _); [done|]. injection 1 as <- <-. cbn. by rewrite fn_lookup_insert.
Qed.

Lemma config_made dynmem_end sizeof_ptr type size move_size oid pin value default_value max_dur w w' :
  command_config_digital_out dynmem_end sizeof_ptr type size move_size oid pin value default_value max_dur w = Ret tt w' ->
  bc_sched (o_base w') = bc_sched (o_base w) /\ exists p,
    oid_lookup (u8 oid) type (o_base w') = Ret p (o_base w') /\
    o_objs w' p = mk_digital_out F_digital_load 0 0 0 pin max_dur 0 (mk_move_queue_head None None)
      (Z.lor (if truthy value then DF_ON else 0) (if truthy default_value then DF_DEFAULT_ON else 0)).
Proof.
  unfold command_config_digital_out. intros H. cbn [bind modify] in H.
  apply bind_inv in H as (p & w1 & H1 & H). unfold zoom in H1.
  destruct (oid_alloc _ _ _ _ _ _) as [a b| |] eqn:Ea; [|done..]. injection H1 as -> <-.
  apply oid_alloc_made in Ea as (Eb & Hlt & Et & Es). cbn [bind modify] in H. apply bind_inv in H as (h & w2 & H2 & H).
  unfold zoom, move_queue_setup in H2. destruct (_ || _); [done|]. injection H2 as <- <-. injection H as <-.
  split; [by cbn [o_base o_upd set]; destruct (_ <? _)|]. exists p. rewrite o_upd_objs. cbn [o_upd o_base o_objs set].
  rewrite fn_lookup_insert. split; [|done]. unfold oid_lookup.
  destruct (_ <? _); cbn [oid_count oid_tab set]; rewrite Et; cbn [oid_type oid_data]; rewrite Z.eqb_refl;
    by destruct (Z.leb_spec (oid_count b) (u8 oid)); [lia|].
Qed.

Lemma config_dinv dynmem_end sizeof_ptr type size move_size oid pin value default_value max_dur w w' base P p applied :
  command_config_digital_out dynmem_end sizeof_ptr type size move_size oid pin value default_value max_dur w = Ret tt w' ->
  oid_lookup (u8 oid) type (o_base w') = Ret p (o_base w') ->
  truthy value = truthy default_value \/ max_dur = 0 -> half_range max_dur ->
  sched_ok base P (bc_sched (o_base w)) -> Z.to_nat p ∉ P -> dinv base p w' applied.
Proof.
  intros (Es & p' & E1 & E2)%config_made E Hv Hm Hok Hn. rewrite E in E1. injection E1 as <-.
  exists P. rewrite Es. split; [done|]. rewrite bool_decide_eq_false_2 by done. rewrite E2.
  destruct (truthy value), (truthy default_value); constructor; cbn [d_func end_time max_duration d_flags]; try done;
    intros; exfalso; naive_solver.
Qed.

(** C28: an output with a [max_duration] cannot be left on.  The output is
    configured at its default value and then goes through any sequence of its
    timer events, commands, shutdowns and steps of the rest of the machine.
    Whenever it is toggling or held away from its default value, its timer is
    linked into the scheduler's list.  It wakes at [end_time] to load the next
    setting, or before it to toggle the pin.  [end_time] is at most
    [max_duration] ticks after the current setting took effect, and the event at
    [end_time] shuts the machine down when no new setting has been queued. *)
Theorem digital_out_safe dynmem_end sizeof_ptr type size move_size oid pin value default_value max_dur w0 w1
    base0 P p applied0 freq base w applied :
  sched_ok base0 P (bc_sched (o_base w0)) -> Z.to_nat p ∉ P ->
  command_config_digital_out dynmem_end sizeof_ptr type size move_size oid pin value default_value max_dur w0 = Ret tt w1 ->
  oid_lookup (u8 oid) type (o_base w1) = Ret p (o_base w1) ->
  truthy value = truthy default_value \/ max_dur = 0 -> half_range max_dur ->
  rtc (dstep freq type oid p) (base0, w1, applied0) (base, w, applied) ->
  let d := o_objs w p in
  max_duration d <> 0 -> active d = true ->
  scheduled base (bc_sched (o_base w)) (Z.to_nat p) /\
  base + key base (end_time d) <= applied + max_duration d /\
  match d_func d with
  | F_digital_load => o_wake p w = end_time d /\
      (move_queue_empty (d_mq d) = true ->
       digital_timer p w = Halt "Missed scheduling of next digital out event" w)
  | F_digital_toggle => key base (o_wake p w) < key base (end_time d)
  end.
Proof.
  intros Hok Hn Hc Hl Hv Hm Hr d Hmd Ha.
  assert (Hi : dinv base p w applied).
  { apply (dinv_run _ _ _ _ _ _ Hr). by eapply config_dinv. }
  destruct Hi as (P' & Hok' & [H1 H2 H3 H4 _ _]). fold d in H1, H2, H3, H4.
  destruct (H1 Hmd Ha) as [Hce Hd]. destruct (H2 Hce) as [L _]. split_and!; [|done|].
  { exists P'. split; [done|]. by eapply bool_decide_eq_true_1. }
  unfold digital_timer. fold d. destruct (d_func d).
  - by apply H3.
  - split; [by apply H4|]. intros He. unfold digital_load_event. fold d. by rewrite He.
Qed.
(** ** Shutdown of all outputs *)

Definition default_level (d : digital_out_s) : Z := Z.land (d_flags d) DF_DEFAULT_ON.
Definition shutdown_output (d : digital_out_s) : digital_out_s :=
  d <| d_flags := if truthy (default_level d) then Z.lor DF_ON DF_DEFAULT_ON else 0 |>
    <| d_mq ::= move_queue_clear |>.

Lemma shutdown_runs type w :
  0 <= oid_count (o_base w) < 0x100 ->
  digital_out_shutdown type w =
    run_objects (fun _ p => modify (reset_one d_pin default_level shutdown_output p))
      (until_null (objects (o_base w) type)) w.
Proof. intros Hc. apply foreach_oid_spec; [|done]. intros o d w1 w2 [= <-]. done. Qed.

(** The emergency stop reaches every output.  When the objects of the oid
    table have been allocated, the shutdown handler returns, has written to
    the pin of each of them its default level, and nothing else, and has
    emptied its queue. *)
Theorem digital_out_shutdown_all type w :
  0 <= oid_count (o_base w) < 0x100 ->
  Forall (fun x => x.2 <> 0) (objects (o_base w) type) -> NoDup (objects (o_base w) type).*2 ->
  exists w', digital_out_shutdown type w = Ret tt w' /\
    o_pins w' = o_pins w ++
      ((fun x => (d_pin (o_objs w x.2), default_level (o_objs w x.2))) <$> objects (o_base w) type) /\
    forall x, x ∈ objects (o_base w) type ->
      move_queue_empty (d_mq (o_objs w' x.2)) = true /\
      has DF_ON (d_flags (o_objs w' x.2)) = has DF_DEFAULT_ON (d_flags (o_objs w x.2)) /\
      has DF_TOGGLING (d_flags (o_objs w' x.2)) = false.
Proof.
  intros Hc Hn Hd. rewrite shutdown_runs, until_null_all by done.
  destruct (reset_objects d_pin default_level shutdown_output (objects (o_base w) type) w Hd)
    as (w' & E & _ & E2 & E3 & _).
  exists w'. split_and!; [done|done|]. intros x Hx. rewrite E3 by done. unfold shutdown_output, default_level.
  cbn [d_flags d_mq set]. unfold has at 2. by destruct (truthy (Z.land (d_flags (o_objs w x.2)) DF_DEFAULT_ON)).
Qed.

(** An output that could not be allocated hides others.  When configuring an
    output runs out of memory, its oid has the type of the outputs but no
    object, which ends the iteration of the shutdown handler: outputs with
    larger oids keep their queue and their level. *)
Theorem config_failure_hides_outputs dynmem_end sizeof_ptr type size move_size oid pin value default_value max_dur w w' :
  command_config_digital_out dynmem_end sizeof_ptr type size move_size oid pin value default_value max_dur w =
    Halt "alloc_chunk failed" w' ->
  oid_data (oid_tab (o_base w) (u8 oid)) = 0 -> 0 <= oid_count (o_base w) < 0x100 ->
  NoDup (objects (o_base w') type).*2 ->
  exists w'' l, digital_out_shutdown type w' = Ret tt w'' /\ Forall (fun x => x.1 < u8 oid) l /\
    o_pins w'' = o_pins w' ++ ((fun x => (d_pin (o_objs w' x.2), default_level (o_objs w' x.2))) <$> l) /\
    forall o p, u8 oid < o -> (o, p) ∈ objects (o_base w') type -> o_objs w'' p = o_objs w' p.
Proof.
  intros H H0 Hc Hd. unfold command_config_digital_out in H. unfold bind at 1, modify at 1 in H.
  apply bind_halt_inv in H as [H|(p & w1 & _ & H)].
  2:{ unfold bind, modify, zoom, move_queue_setup in H. by destruct (_ || _). }
  unfold zoom in H. destruct (oid_alloc _ _ _ _ _ _) as [|msg b|] eqn:E; [done| |done]. injection H as -> <-.
  apply oid_alloc_failed in E as [Hlt ->]. cbn [o_base set o_pin_write] in *.
  set (s := (o_base w) <| oid_tab ::= _ |>) in *.
  assert (Hb : Forall (fun x => x.1 < u8 oid) (until_null (objects s type))).
  { pose proof (u8_range oid). apply (until_null_below s type (u8 oid) 0 (Z.to_nat (u8 oid))); [lia|done| |];
      unfold s; cbn; by rewrite fn_lookup_insert. }
  destruct (until_null_prefix (objects s type)) as [post Ep].
  destruct (reset_objects d_pin default_level shutdown_output (until_null (objects s type))
    ((o_pin_write pin (b2z (truthy value)) w) <| o_base := s |>)) as (w'' & E & _ & E2 & _ & E4).
  { rewrite Ep, fmap_app in Hd. by apply NoDup_app in Hd as [? _]. }
  exists w'', (until_null (objects s type)). split_and!; [|done|done|].
  - by rewrite shutdown_runs.
  - intros o p Ho Hin. apply E4. intros Hp. rewrite Ep, elem_of_app in Hin. destruct Hin as [Hin|Hin].
    + rewrite Forall_forall in Hb. specialize (Hb _ Hin). cbn in Hb. lia.
    + rewrite Ep, fmap_app in Hd. apply NoDup_app in Hd as (_ & Hd & _). apply (Hd p Hp).
      by apply (list_elem_of_fmap_2 snd _ (o, p)).
Qed.

(** ** Concrete runs *)

(** One heater output (default off, five seconds at 1 Mhz) is configured, then
    switched on at time 1000 and not updated again. *)
Definition demo_empty : dow :=
  mk_ow (basecmd_init <| oid_count := 1 |> <| alloc_end := 16 |>)
    (fun _ => mk_digital_out F_digital_load 0 0 0 0 0 0 (mk_move_queue_head None None) 0)
    (fun _ => mk_digital_move 0 0) [].
Definition demo_out : dow := final (command_config_digital_out 0x1000 4 77 24 12 0 13 0 0 5000000 demo_empty).
Definition demo_on : dow := final (command_update_digital_out 77 8 1000 1000 0 1 demo_out).

Lemma demo_out_run : command_config_digital_out 0x1000 4 77 24 12 0 13 0 0 5000000 demo_empty = Ret tt demo_out.
Proof. unfold demo_out. apply (result_ret _ tt). vm_compute. reflexivity. Qed.
Lemma demo_on_run : command_update_digital_out 77 8 1000 1000 0 1 demo_out = Ret tt demo_on.
Proof. unfold demo_on. apply (result_ret _ tt). vm_compute. reflexivity. Qed.

Lemma demo_on_obj :
  o_objs demo_on 16 = mk_digital_out F_digital_load 0 0 5001000 13 5000000 0 (mk_move_queue_head None None) 5.
Proof. vm_compute. reflexivity. Qed.

Lemma demo_sched : sched_ok 0 ∅ sched_init.
Proof. by apply (sched_reachable_ok 0). Qed.

Lemma digital_out_safe_witness :
  scheduled 0 (bc_sched (o_base demo_on)) 16 /\ o_wake 16 demo_on = 5001000 /\
  digital_timer 16 demo_on = Halt "Missed scheduling of next digital out event" demo_on.
Proof.
  assert (Hr : rtc (dstep 1000000 77 0 16) (0, demo_out, 0) (0, demo_on, 1000)).
  { apply rtc_once. apply (ds_update 1000000 77 0 16 0 demo_out 0 8 1000 1000 1 demo_on); [done..|exact demo_on_run]. }
  destruct (digital_out_safe 0x1000 4 77 24 12 0 13 0 0 5000000 demo_empty demo_out 0 ∅ 16 0 1000000 0 demo_on 1000
    demo_sched ltac:(set_solver) demo_out_run eq_refl (or_introl eq_refl) ltac:(done) Hr
    ltac:(rewrite demo_on_obj; discriminate) ltac:(rewrite demo_on_obj; reflexivity)) as (H1 & _ & H3).
  rewrite demo_on_obj in H3. destruct H3 as [H3 H4]. split; [exact H1|]. split; [exact H3|exact (H4 eq_refl)].
Defined.

(** Two outputs, a fan that is switched off and one that stays on. *)
Definition demo_outs : dow :=
  mk_ow (demo_pool <| oid_count := 2 |> <| oid_tab := fun o => mk_oid_s 77 (5 + 8 * o) |>)
    (fun p => mk_digital_out F_digital_load 0 0 0 p 5000000 0 (mk_move_queue_head (Some 0x1000) (Some 0x1000))
                (if p =? 5 then DF_ON else DF_DEFAULT_ON))
    (fun _ => mk_digital_move 0 0) [].

Lemma digital_out_shutdown_all_witness :
  exists w', digital_out_shutdown 77 demo_outs = Ret tt w' /\ o_pins w' = [(5, 0); (13, DF_DEFAULT_ON)].
Proof.
  destruct (digital_out_shutdown_all 77 demo_outs) as (w' & E & Ep & _).
  - cbn. lia.
  - repeat constructor; discriminate.
  - repeat constructor; set_solver.
  - exists w'. split; [exact E|exact Ep].
Defined.

(** The first output of two does not fit into the memory; the second one, which
    is on although its default is off, stays as it is. *)
Definition demo_small : dow :=
  demo_outs <| o_base := basecmd_init <| oid_count := 2 |>
    <| oid_tab := fun o => if o =? 1 then mk_oid_s 77 5 else mk_oid_s 0 0 |> |>.
Definition demo_failed : dow := final (command_config_digital_out 0x1000 4 77 24 12 0 9 0 0 0 demo_small).

Lemma demo_failed_run :
  command_config_digital_out 0x1000 4 77 24 12 0 9 0 0 0 demo_small = Halt "alloc_chunk failed" demo_failed.
Proof. reflexivity. Qed.

Lemma demo_failed_objects : objects (o_base demo_failed) 77 = [(0, 0); (1, 5)].
Proof. reflexivity. Qed.

Lemma config_failure_hides_outputs_witness :
  exists w'', digital_out_shutdown 77 demo_failed = Ret tt w'' /\ o_objs w'' 5 = o_objs demo_failed 5.
Proof.
  destruct (config_failure_hides_outputs 0x1000 4 77 24 12 0 9 0 0 0 demo_small demo_failed demo_failed_run)
    as (w'' & l & E & _ & _ & H).
  - reflexivity.
  - cbn. lia.
  - rewrite demo_failed_objects. repeat constructor; set_solver.
  - exists w''. split; [exact E|]. apply (H 1 5); [reflexivity|]. rewrite demo_failed_objects. set_solver.
Defined.
