(* ===== verification/Pwmcmds.v ===== *)
(** * Hardware PWM outputs (src/pwmcmds.c)

    As for the digital outputs, an output with a [max_duration] must not stay
    away from its default value without a new update or a shutdown within that
    time.  Here the object does not remember the value it wrote, so the safety
    property is about the log of pin writes. *)

From S2P Require Import Prelude Command Clock Sched Basecmd Objects.

(** ** Data *)

Inductive pwm_func : Set := F_pwm_event | F_pwm_end_event.
#[export] Instance pwm_func_eq_dec : EqDecision pwm_func.
Proof. solve_decision. Defined.

Record pwm_out_s := mk_pwm_out {
  p_func : pwm_func;                 (* timer.func *)
  p_pin : Z;
  p_max_duration : Z;
  p_default_value : Z;
  p_mq : move_queue_head }.
#[export] Instance eta_pwm_out : Eta pwm_out_s := fun p =>
  mk_pwm_out (p_func p) (p_pin p) (p_max_duration p) (p_default_value p) (p_mq p).

Record pwm_move := mk_pwm_move { pm_waketime : Z; pm_value : Z }.
#[export] Instance eta_pwm_move : Eta pwm_move := fun m => mk_pwm_move (pm_waketime m) (pm_value m).

Abbreviation pow := (ow pwm_out_s pwm_move).

Section pwmcmds.
Context (dynmem_end sizeof_ptr command_config_pwm_out_type sizeof_pwm_out sizeof_pwm_move : Z).

(** ** Timer events *)

Definition pwm_end_event (p : Z) : M pow Z := shutdown "Missed scheduling of next hard pwm event".

Definition pwm_event (p : Z) : M pow Z := fun w =>
  (r <- zoom o_base (move_queue_pop (p_mq (o_objs w p)));;
   let '(h, mn) := r in
   (fun w =>
      let w := o_upd p (fun o => o <| p_mq := h |>) w in
      let o := o_objs w p in
      let value := pm_value (o_moves w mn) in
      let w := o_pin_write (p_pin o) value w in
      let w := w <| o_base := move_free mn (o_base w) |> in
      match move_queue_first h with
      | None =>
        if (value =? p_default_value o) || negb (truthy (p_max_duration o)) then Ret SF_DONE w
        else Ret SF_RESCHEDULE
          (o_upd p (fun o => o <| p_func := F_pwm_end_event |>)
            (o_set_wake p (u32 (o_wake p w + p_max_duration o)) w))
      | Some nn =>
        let wake := pm_waketime (o_moves w nn) in
        if negb (value =? p_default_value o) && truthy (p_max_duration o)
           && timer_is_before (u32 (o_wake p w + p_max_duration o)) wake
        then Halt "Scheduled pwm event will exceed max_duration" w
        else Ret SF_RESCHEDULE (o_set_wake p wake w)
      end)) w.

(** The callback in [p->timer.func]. *)
Definition pwm_timer (p : Z) : M pow Z := fun w =>
  match p_func (o_objs w p) with
  | F_pwm_event => pwm_event p w
  | F_pwm_end_event => pwm_end_event p w
  end.

(** ** Commands *)

(** [gpio_pwm_setup] starts the output at the given value. *)
Definition command_config_pwm_out (oid pin value default_value max_dur : Z) : M pow unit :=
  modify (o_pin_write pin value);;;
  p <- zoom o_base (oid_alloc dynmem_end sizeof_ptr (u8 oid) command_config_pwm_out_type sizeof_pwm_out);;
  modify (o_upd p (fun _ => mk_pwm_out F_pwm_event pin max_dur (u16 default_value)
                              (mk_move_queue_head None None)));;;
  h <- zoom o_base (move_queue_setup sizeof_pwm_move);;
  modify (o_upd p (fun o => o <| p_mq := h |>)).

(** The part of [command_queue_pwm_out] for a move that is first on its queue.
    [now] is the clock [sched_add_timer] reads. *)
Definition queue_first_pwm_out (fuel : nat) (now p waketime : Z) : M pow unit :=
  o_sched (sched_del_timer fuel (o_timer p));;;
  (fun w =>
     if bool_decide (p_func (o_objs w p) = F_pwm_end_event) && timer_is_before (o_wake p w) waketime
     then Halt "Scheduled pwm event will exceed max_duration" w
     else
       (modify (o_upd p (fun o => o <| p_func := F_pwm_event |>));;;
        modify (o_set_wake p waketime);;;
        o_sched (sched_add_timer fuel now (o_timer p))) w).

Definition command_queue_pwm_out (fuel : nat) (now oid clock value : Z) : M pow unit :=
  p <- zoom o_base (oid_lookup (u8 oid) command_config_pwm_out_type);;
  m <- zoom o_base move_alloc;;
  modify (o_set_move m (fun _ => mk_pwm_move clock (u16 value)));;;
  (fun w =>
     (r <- zoom o_base (move_queue_push m (p_mq (o_objs w p)));;
      modify (o_upd p (fun o => o <| p_mq := fst r |>));;;
      when truthy (snd r) then queue_first_pwm_out fuel now p clock) w).

Definition pwm_shutdown_one (p : Z) (w : pow) : pow :=
  let o := o_objs w p in
  o_upd p (fun o => o <| p_func := F_pwm_event |> <| p_mq ::= move_queue_clear |>)
    (o_pin_write (p_pin o) (p_default_value o) w).
Definition pwm_shutdown : M pow unit :=
  foreach_oid o_base command_config_pwm_out_type (fun _ p => modify (pwm_shutdown_one p)).

Definition command_set_pwm_out (pin value : Z) : M pow unit := modify (o_pin_write pin value).
End pwmcmds.

(** ** The safety invariant *)

(** The value last written to a pin. *)
Definition level (log : list (Z * Z)) (pin : Z) : option Z :=
  foldl (fun v e => if decide (e.1 = pin) then Some e.2 else v) None log.

Lemma level_write log pin v : level (log ++ [(pin, v)]) pin = Some v.
Proof. unfold level. rewrite foldl_app. cbn. by rewrite decide_True. Qed.

Definition away (w : pow) (p : Z) : Prop :=
  level (o_pins w) (p_pin (o_objs w p)) <> Some (p_default_value (o_objs w p)).

(** [live]: the timer of the output is scheduled; [t]: the time of the last
    write. *)
Record pinv (w : pow) (p : Z) (live : bool) (t : Z) : Prop := {
  pi_deadline : p_max_duration (o_objs w p) <> 0 -> away w p ->
    live = true /\ timer_is_before (u32 (t + p_max_duration (o_objs w p))) (o_wake p w) = false;
  pi_end : p_max_duration (o_objs w p) <> 0 -> away w p -> move_queue_empty (p_mq (o_objs w p)) = true ->
    p_func (o_objs w p) = F_pwm_end_event /\ o_wake p w = u32 (t + p_max_duration (o_objs w p));
  pi_queue : move_queue_empty (p_mq (o_objs w p)) = false -> p_func (o_objs w p) = F_pwm_event /\ live = true;
  pi_live : live = true -> move_queue_empty (p_mq (o_objs w p)) = true ->
    p_func (o_objs w p) = F_pwm_end_event }.

Ltac pwr := autorewrite with ow; cbn [p_func p_pin p_max_duration p_default_value p_mq set].

Lemma pwm_timer_inv p w t r w' :
  pinv w p true t -> pwm_timer p w = Ret r w' -> pinv w' p (r =? SF_RESCHEDULE) (o_wake p w).
Proof.
  intros [H1 H2 H3 H4]. unfold pwm_timer. destruct (p_func (o_objs w p)) eqn:Ef; [|done].
  unfold pwm_event, bind, zoom, move_queue_pop. destruct (first (p_mq (o_objs w p))) as [mn|] eqn:Eq; [|done].
  set (h := (p_mq (o_objs w p)) <| first := mnext (o_base w) mn |>). cbv zeta. pwr.
  set (value := pm_value (o_moves w mn)). unfold away. destruct (move_queue_first h) as [nn|] eqn:En.
  - destruct (negb (value =? p_default_value (o_objs w p)) && truthy (p_max_duration (o_objs w p))
      && timer_is_before _ _) eqn:Eg; [done|]. injection 1 as <- <-.
    assert (Hh : move_queue_empty h = false).
    { unfold move_queue_empty. unfold move_queue_first in En. by rewrite En. }
    constructor; unfold away; pwr; rewrite ?level_write, ?Hh, ?Ef; try done.
    intros Hm Ha. split; [done|]. assert (Hv : (value =? p_default_value (o_objs w p)) = false).
    { apply Z.eqb_neq. congruence. }
    assert (Ht : truthy (p_max_duration (o_objs w p)) = true) by (unfold truthy; by rewrite (proj2 (Z.eqb_neq _ _))).
    rewrite Hv, Ht in Eg. cbn [negb andb] in Eg. exact Eg.
  - assert (Hh : move_queue_empty h = true).
    { unfold move_queue_empty. unfold move_queue_first in En. by rewrite En. }
    destruct ((value =? p_default_value (o_objs w p)) || negb (truthy (p_max_duration (o_objs w p)))) eqn:Eg;
      injection 1 as <- <-.
    + assert (Hno : p_max_duration (o_objs w p) <> 0 -> Some value <> Some (p_default_value (o_objs w p)) -> False).
      { intros Hm Ha. apply orb_true_iff in Eg as [Eg|Eg]; [apply Z.eqb_eq in Eg; congruence|].
        unfold truthy in Eg. rewrite (proj2 (Z.eqb_neq _ _)) in Eg by done. done. }
      constructor; unfold away; pwr; rewrite ?level_write, ?Hh; try done; intros; exfalso; eauto.
    + constructor; unfold away; pwr; rewrite ?level_write, ?Hh; try done.
      intros Hm Ha. split; [done|]. apply timer_is_before_irrefl.
Qed.

Lemma pinv_quiet w w' p live t : o_quiet w w' -> pinv w p live t -> pinv w' p live t.
Proof.
  intros (E1 & _ & E3 & E2) [? ? ? ?]. unfold away in *. constructor; unfold away; rewrite ?E1, ?E2, ?E3; done.
Qed.

(** A setting that is first on its queue is scheduled at its own time, which the
    guard keeps within the safety timeout. *)
Lemma queue_first_pwm_spec fuel now p clock w w' :
  queue_first_pwm_out fuel now p clock w = Ret tt w' ->
  o_objs w' p = (o_objs w p) <| p_func := F_pwm_event |> /\ o_wake p w' = clock /\ o_pins w' = o_pins w /\
  (p_func (o_objs w p) = F_pwm_end_event -> timer_is_before (o_wake p w) clock = false).
Proof.
  intros H. unfold queue_first_pwm_out in H.
  apply bind_inv in H as ([] & w1 & (E1 & _ & E3 & E2)%o_del_quiet & H). rewrite E1, E2 in H.
  destruct (bool_decide (p_func (o_objs w p) = F_pwm_end_event) && timer_is_before (o_wake p w) clock) eqn:Eg; [done|].
  cbn [bind modify] in H. apply o_add_quiet in H as (G1 & _ & G3 & G2).
  rewrite G1, G2, G3. pwr. rewrite E1, E3. split_and!; try done.
  intros Hf. by rewrite bool_decide_eq_true_2 in Eg by done.
Qed.

Lemma command_queue_pwm_inv fuel now type oid p clock v w w' live t :
  oid_lookup (u8 oid) type (o_base w) = Ret p (o_base w) ->
  pinv w p live t -> command_queue_pwm_out type fuel now oid clock v w = Ret tt w' ->
  pinv w' p (live || move_queue_empty (p_mq (o_objs w p))) t.
Proof.
  intros Hl Hi H. unfold command_queue_pwm_out in H.
  apply bind_inv in H as (p' & w1 & H1 & H). unfold zoom in H1. rewrite Hl, o_set_base_id in H1.
  injection H1 as <- <-.
  apply bind_inv in H as (m & w2 & (_ & Q2)%o_zoom_quiet & H); [|apply move_alloc_sched].
  cbn [bind modify] in H.
  apply bind_inv in H as ([h r] & w3 & ((s3 & P & _) & Q3)%o_zoom_quiet & H); [|apply move_queue_push_sched].
  cbn [fst snd bind modify] in H.
  apply (pinv_quiet _ _ _ _ _ Q2) in Hi. rewrite <- (proj1 Q2). rewrite o_set_move_objs in P.
  set (w4 := o_upd p (fun o => o <| p_mq := h |>) w3) in *.
  assert (E4 : o_objs w4 p = (o_objs w2 p) <| p_mq := h |> /\ o_wake p w4 = o_wake p w2 /\ o_pins w4 = o_pins w2).
  { destruct Q3 as (A1 & _ & A3 & A2). unfold w4. pwr. rewrite A1, A2, A3. by pwr. }
  destruct E4 as (O4 & K4 & P4). clearbody w4. pose proof (move_queue_push_nonempty _ _ _ _ _ _ P) as Hh.
  apply move_queue_push_first in P. destruct Hi as [I1 I2 I3 I4]. rewrite <- P.
  destruct (truthy r); cbn [ret] in H.
  - apply queue_first_pwm_spec in H as (E1 & E2 & E3 & Eg). rewrite O4 in E1, Eg. rewrite orb_true_r.
    unfold away in *. constructor; unfold away; rewrite E1, ?E2, ?E3, ?P4; cbn [p_func p_pin p_max_duration
      p_default_value p_mq set]; rewrite ?Hh; try done.
    intros Hm Ha. split; [done|]. destruct (I2 Hm Ha) as [F1 F2]; [by rewrite <- P|].
    rewrite <- F2, <- K4. by apply Eg.
  - injection H as <-. rewrite orb_false_r. destruct I3 as [F1 F2]; [by rewrite <- P|].
    unfold away in *. constructor; unfold away; rewrite O4, ?K4, ?P4; cbn [p_func p_pin p_max_duration
      p_default_value p_mq set]; rewrite ?Hh; try done.
Qed.

Lemma pinv_shutdown p w t : pinv (pwm_shutdown_one p w) p false t.
Proof.
  unfold pwm_shutdown_one. cbv zeta.
  constructor; unfold away; pwr; rewrite ?level_write; try done.
Qed.

(** ** Runs of one output *)

(** The events of the output at [p]: its timer (when it is scheduled), the
    command that addresses it, and the reset of a shutdown. *)
Inductive pstep (type oid p : Z) : pow * bool * Z -> pow * bool * Z -> Prop :=
| ps_timer w r w' t : pwm_timer p w = Ret r w' ->
    pstep type oid p (w, true, t) (w', r =? SF_RESCHEDULE, o_wake p w)
| ps_queue fuel now clock v w w' live t :
    oid_lookup (u8 oid) type (o_base w) = Ret p (o_base w) ->
    command_queue_pwm_out type fuel now oid clock v w = Ret tt w' ->
    pstep type oid p (w, live, t) (w', live || move_queue_empty (p_mq (o_objs w p)), t)
| ps_shutdown w live t : pstep type oid p (w, live, t) (pwm_shutdown_one p w, false, t).

Lemma pstep_inv type oid p a b : pstep type oid p a b -> pinv a.1.1 p a.1.2 a.2 -> pinv b.1.1 p b.1.2 b.2.
Proof.
  destruct 1; cbn [fst snd]; intros Hi.
  - by eapply pwm_timer_inv.
  - by eapply command_queue_pwm_inv.
  - apply pinv_shutdown.
Qed.

(** Whatever sequence of timer events, commands and resets a hardware PWM
    output with a [max_duration] goes through, while the value last written to
    its pin is not the default its timer is scheduled no later than
    [max_duration] after that write, and the event then either writes the next
    value or shuts the machine down. *)
Theorem pwm_out_safe type oid p w live t w' live' t' :
  pinv w p live t -> rtc (pstep type oid p) (w, live, t) (w', live', t') ->
  p_max_duration (o_objs w' p) <> 0 -> away w' p ->
  live' = true /\
  timer_is_before (u32 (t' + p_max_duration (o_objs w' p))) (o_wake p w') = false /\
  match pwm_timer p w' with
  | Ret _ w'' => exists v, o_pins w'' = o_pins w' ++ [(p_pin (o_objs w' p), v)]
  | Halt _ _ => True
  | Crash _ => False
  end.
Proof.
  intros Hi Hr Hm Ha.
  assert (Hi' : pinv w' p live' t').
  { change (pinv (w', live', t').1.1 p (w', live', t').1.2 (w', live', t').2). revert Hi.
    change (pinv w p live t) with (pinv (w, live, t).1.1 p (w, live, t).1.2 (w, live, t).2).
    induction Hr; eauto using pstep_inv. }
  destruct Hi' as [H1 _ H3 H4]. destruct (H1 Hm Ha) as [-> Hb]. split_and!; [done|done|].
  unfold pwm_timer. destruct (p_func (o_objs w' p)) eqn:Ef; [|done].
  unfold pwm_event, bind, zoom, move_queue_pop. destruct (first (p_mq (o_objs w' p))) as [mn|] eqn:Eq.
  - cbv zeta. pwr. destruct (move_queue_first _); [destruct (_ && _)|destruct (_ || _)]; try done; pwr; eauto.
  - specialize (H4 eq_refl). unfold move_queue_empty in H4. rewrite Eq in H4. specialize (H4 eq_refl). congruence.
Qed.

(** ** A concrete run *)

(** One output (oid 0, address 5, default 0, five seconds at 1 Mhz) that is given
    one value and then nothing. *)
Definition demo_pwm : pow :=
  mk_ow (demo_pool <| oid_count := 1 |> <| oid_tab := fun _ => mk_oid_s 78 5 |>)
    (fun _ => mk_pwm_out F_pwm_event 13 5000000 0 (mk_move_queue_head None None))
    (fun _ => mk_pwm_move 0 0) [(13, 0)].
Definition demo_pwm_queued : pow := final (command_queue_pwm_out 78 8 100 0 1000 200 demo_pwm).
Definition demo_pwm_on : pow := final (pwm_timer 5 demo_pwm_queued).

Lemma demo_pwm_inv : pinv demo_pwm 5 false 0.
Proof. constructor; unfold away; cbn; done. Qed.

Lemma demo_pwm_queue_run : command_queue_pwm_out 78 8 100 0 1000 200 demo_pwm = Ret tt demo_pwm_queued.
Proof. unfold demo_pwm_queued. apply result_ret. vm_compute. reflexivity. Qed.

Lemma demo_pwm_timer_run : pwm_timer 5 demo_pwm_queued = Ret SF_RESCHEDULE demo_pwm_on.
Proof. unfold demo_pwm_on. apply result_ret. vm_compute. reflexivity. Qed.

Lemma demo_pwm_wake : o_wake 5 demo_pwm_queued = 1000.
Proof. vm_compute. reflexivity. Qed.

Lemma demo_pwm_run : rtc (pstep 78 0 5) (demo_pwm, false, 0) (demo_pwm_on, true, 1000).
Proof.
  pose proof (ps_queue 78 0 5 8 100 1000 200 demo_pwm demo_pwm_queued false 0 eq_refl demo_pwm_queue_run) as H1.
  pose proof (ps_timer 78 0 5 demo_pwm_queued SF_RESCHEDULE demo_pwm_on 0 demo_pwm_timer_run) as H2.
  rewrite demo_pwm_wake in H2. exact (rtc_l _ _ _ _ H1 (rtc_once _ _ H2)).
Qed.

Lemma demo_pwm_max : p_max_duration (o_objs demo_pwm_on 5) = 5000000.
Proof. vm_compute. reflexivity. Qed.

Lemma demo_pwm_away : away demo_pwm_on 5.
Proof. vm_compute. discriminate. Qed.

Lemma pwm_out_safe_witness : timer_is_before 5001000 (o_wake 5 demo_pwm_on) = false.
Proof.
  assert (Hm : p_max_duration (o_objs demo_pwm_on 5) <> 0) by (rewrite demo_pwm_max; discriminate).
  pose proof (proj1 (proj2 (pwm_out_safe 78 0 5 demo_pwm false 0 demo_pwm_on true 1000 demo_pwm_inv demo_pwm_run
    Hm demo_pwm_away))) as H.
  rewrite demo_pwm_max in H. exact H.
Defined.
