(* ===== verification/Trsync.v ===== *)
(** * Synchronised triggers (src/trsync.c)

    Trigger objects and the signals registered with them are C structs linked
    by pointers, kept in memories indexed by address.  The callbacks of the
    signals belong to other components; [call] runs one of them and [A] is
    their state. *)

From S2P Require Import Prelude Command Clock Sched Basecmd.

(** ** Data *)

Record trsync := mk_trsync {
  report_ticks : Z;
  signals : option Z;
  ts_flags : Z;
  trigger_reason : Z;
  expire_reason : Z }.
#[export] Instance eta_trsync : Eta trsync := fun t =>
  mk_trsync (report_ticks t) (signals t) (ts_flags t) (trigger_reason t) (expire_reason t).

Record trsync_signal := mk_trsync_signal {
  tss_next : option Z;
  tss_func : option Z }.
#[export] Instance eta_trsync_signal : Eta trsync_signal := fun t =>
  mk_trsync_signal (tss_next t) (tss_func t).

Definition TSF_CAN_TRIGGER : Z := 1.
Definition TSF_REPORT : Z := 4.

Section trsync.
Context {A : Type}.

Record tsw := mk_tsw {
  tw_base : basecmd;
  tw_ts : Z -> trsync;
  tw_sigs : Z -> trsync_signal;
  trsync_wake : Z;
  tw_app : A }.
#[export] Instance eta_tsw : Eta tsw := fun w =>
  mk_tsw (tw_base w) (tw_ts w) (tw_sigs w) (trsync_wake w) (tw_app w).

Context (call : Z -> Z -> Z -> M tsw unit).
Context (dynmem_end sizeof_ptr sizeof_timer sizeof_trsync command_config_trsync_type : Z).

Definition report_timer (p : Z) : tid := T_user (Z.to_nat p).
Definition expire_timer (p : Z) : tid := T_user (Z.to_nat (p + sizeof_timer)).

Definition upd_ts (p : Z) (g : trsync -> trsync) : M tsw unit :=
  modify (fun w => w <| tw_ts ::= fun m => <[p := g (m p)]> m |>).
Definition upd_sig (p : Z) (g : trsync_signal -> trsync_signal) : M tsw unit :=
  modify (fun w => w <| tw_sigs ::= fun m => <[p := g (m p)]> m |>).
Definition ts_sched (m : M sched unit) : M tsw unit := zoom tw_base (zoom bc_sched m).
Definition wake_trsync : M tsw unit := modify (fun w =>
  let '(s, v) := sched_wake_task (bc_sched (tw_base w)) (trsync_wake w) in
  w <| tw_base ::= fun b => b <| bc_sched := s |> |> <| trsync_wake := v |>).
Definition set_timer (t : tid) (v : Z) : M tsw unit :=
  ts_sched (modify (fun s => s <| timers ::= set_waketime t v |>)).

(** ** Triggering *)

(** The [while (ts->signals)] loop. *)
Fixpoint dispatch_signals (fuel : nat) (p reason : Z) : M tsw unit := fun w =>
  match fuel with
  | O => Crash w
  | S fuel =>
    match signals (tw_ts w p) with
    | None => Ret tt w
    | Some tss =>
      match tss_func (tw_sigs w tss) with
      | None => Crash w
      | Some func =>
        (upd_ts p (fun t => t <| signals := tss_next (tw_sigs w tss) |>);;;
         upd_sig tss (fun s => s <| tss_next := None |>);;;
         upd_sig tss (fun s => s <| tss_func := None |>);;;
         call func tss reason;;;
         dispatch_signals fuel p reason) w
      end
    end
  end.

Definition trsync_do_trigger (fuel : nat) (p reason : Z) : M tsw unit := fun w =>
  let fl := ts_flags (tw_ts w p) in
  if negb (truthy (Z.land fl TSF_CAN_TRIGGER)) then Ret tt w
  else
    (upd_ts p (fun t => t <| trigger_reason := reason |>
       <| ts_flags := Z.lor (Z.land fl (Z.lnot TSF_CAN_TRIGGER)) TSF_REPORT |>);;;
     dispatch_signals fuel p reason;;;
     wake_trsync) w.

Definition trsync_expire_event (fuel : nat) (p : Z) : M tsw Z := fun w =>
  (trsync_do_trigger fuel p (expire_reason (tw_ts w p));;; ret SF_DONE) w.

Definition trsync_report_event (p : Z) : M tsw Z :=
  upd_ts p (fun t => t <| ts_flags ::= fun f => Z.lor f TSF_REPORT |>);;;
  wake_trsync;;;
  (fun w => set_timer (report_timer p)
     (u32 (wake (bc_sched (tw_base w)) (report_timer p) + report_ticks (tw_ts w p))) w);;;
  ret SF_RESCHEDULE.

(** ** Registration *)

Definition command_config_trsync (oid : Z) : M tsw unit :=
  p <- zoom tw_base (oid_alloc dynmem_end sizeof_ptr (u8 oid) command_config_trsync_type sizeof_trsync);;
  upd_ts p (fun _ => mk_trsync 0 None 0 0 0).

Definition trsync_oid_lookup (oid : Z) : M tsw Z :=
  zoom tw_base (oid_lookup (u8 oid) command_config_trsync_type).

Definition trsync_add_signal (p tss : Z) (func : option Z) : M tsw unit := fun w =>
  if bool_decide (tss_func (tw_sigs w tss) <> None) || bool_decide (func = None)
  then Halt "Can't add signal that is already active" w
  else
    (upd_sig tss (fun s => s <| tss_func := func |>);;;
     (fun w => upd_sig tss (fun s => s <| tss_next := signals (tw_ts w p) |>) w);;;
     upd_ts p (fun t => t <| signals := Some tss |>)) w.

Fixpoint clear_signals (fuel : nat) (tss : option Z) : M tsw unit := fun w =>
  match fuel with
  | O => Crash w
  | S fuel =>
    match tss with
    | None => Ret tt w
    | Some p =>
      let next := tss_next (tw_sigs w p) in
      (upd_sig p (fun s => s <| tss_func := None |>);;;
       upd_sig p (fun s => s <| tss_next := None |>);;;
       clear_signals fuel next) w
    end
  end.

Definition trsync_clear (fuel : nat) (p : Z) : M tsw unit :=
  ts_sched (sched_del_timer fuel (report_timer p));;;
  ts_sched (sched_del_timer fuel (expire_timer p));;;
  (fun w => clear_signals fuel (signals (tw_ts w p)) w);;;
  upd_ts p (fun t => t <| signals := None |>);;;
  upd_ts p (fun t => t <| ts_flags := 0 |> <| trigger_reason := 0 |> <| expire_reason := 0 |>).

(** ** Commands.  [now] is the clock [sched_add_timer] reads. *)

Definition command_trsync_start (fuel : nat) (now oid report_clock ticks reason : Z) : M tsw unit :=
  p <- trsync_oid_lookup oid;;
  trsync_clear fuel p;;;
  upd_ts p (fun t => t <| ts_flags := TSF_CAN_TRIGGER |>);;;
  set_timer (report_timer p) report_clock;;;
  upd_ts p (fun t => t <| report_ticks := ticks |>);;;
  (when truthy ticks then ts_sched (sched_add_timer fuel now (report_timer p)));;;
  upd_ts p (fun t => t <| expire_reason := u8 reason |>).

Definition command_trsync_set_timeout (fuel : nat) (now oid clock : Z) : M tsw unit :=
  p <- trsync_oid_lookup oid;;
  (fun w =>
     (when truthy (Z.land (ts_flags (tw_ts w p)) TSF_CAN_TRIGGER) then
       (ts_sched (sched_del_timer fuel (expire_timer p));;;
        set_timer (expire_timer p) clock;;;
        ts_sched (sched_add_timer fuel now (expire_timer p)))) w).

Definition trsync_report (oid fl reason clock : Z) : M tsw unit :=
  zoom tw_base (sendf "trsync_state oid=%c can_trigger=%c trigger_reason=%c clock=%u"
    [VInt oid; VInt (b2z (truthy (Z.land fl TSF_CAN_TRIGGER))); VInt reason; VInt clock]).

Definition command_trsync_trigger (fuel : nat) (oid reason : Z) : M tsw unit :=
  p <- trsync_oid_lookup oid;;
  trsync_do_trigger fuel p (u8 reason);;;
  ts_sched (sched_del_timer fuel (report_timer p));;;
  ts_sched (sched_del_timer fuel (expire_timer p));;;
  upd_ts p (fun t => t <| ts_flags := 0 |>);;;
  (fun w => trsync_report (u8 oid) 0 (trigger_reason (tw_ts w p)) 0 w).

(** [time i] is the clock the task reads for oid [i]. *)
Definition trsync_task (time : Z -> Z) : M tsw unit := fun w =>
  let '(r, v) := sched_check_wake (trsync_wake w) in
  let w := w <| trsync_wake := v |> in
  if negb (truthy r) then Ret tt w
  else foreach_oid tw_base command_config_trsync_type (fun i p w =>
    if negb (truthy (Z.land (ts_flags (tw_ts w p)) TSF_REPORT)) then Ret tt w
    else
      let reason := trigger_reason (tw_ts w p) in
      let fl := ts_flags (tw_ts w p) in
      (upd_ts p (fun t => t <| ts_flags := Z.land fl (Z.lnot TSF_REPORT) |>);;;
       trsync_report i fl reason (time i)) w) w.

Definition trsync_shutdown (fuel : nat) : M tsw unit :=
  foreach_oid tw_base command_config_trsync_type (fun _ p => trsync_clear fuel p).
End trsync.
Arguments tsw : clear implicits.

(** ** A trigger runs every registered callback once *)

Fixpoint sig_chain (m : Z -> trsync_signal) (h : option Z) (l : list (Z * Z)) : Prop :=
  match l with
  | [] => h = None
  | (t, f) :: l => h = Some t /\ tss_func (m t) = Some f /\ sig_chain m (tss_next (m t)) l
  end.

Lemma sig_chain_insert_ne m h l t v :
  t ∉ l.*1 -> sig_chain m h l -> sig_chain (<[t := v]> m) h l.
Proof.
  revert h. induction l as [|[u f] l IH]; intros h Ht; cbn; [done|]. cbn in Ht.
  rewrite not_elem_of_cons in Ht. destruct Ht as [Hne Ht]. intros (-> & Hf & Hl).
  rewrite fn_lookup_insert_ne by done. auto.
Qed.

Section trigger.
Context {A : Type} (call : Z -> Z -> Z -> M (tsw A) unit).
(** The callbacks return, and change only the scheduler, the pool and the
    state of their own component. *)
Context (eff : Z -> Z -> Z -> basecmd * A -> basecmd * A).
Context (Hcall : forall f t r w, call f t r w =
  Ret tt (w <| tw_base := (eff f t r (tw_base w, tw_app w)).1 |>
            <| tw_app := (eff f t r (tw_base w, tw_app w)).2 |>)).

(** The callbacks of [l], in order. *)
Definition run_signals (reason : Z) (l : list (Z * Z)) (st : basecmd * A) : basecmd * A :=
  fold_left (fun st tf => eff tf.2 tf.1 reason st) l st.

Lemma dispatch_signals_run fuel p reason l w :
  sig_chain (tw_sigs w) (signals (tw_ts w p)) l -> NoDup l.*1 -> (length l < fuel)%nat ->
  exists w', dispatch_signals call fuel p reason w = Ret tt w' /\
    (tw_base w', tw_app w') = run_signals reason l (tw_base w, tw_app w) /\
    tw_ts w' p = (tw_ts w p) <| signals := None |> /\
    (forall t, tw_sigs w' t = if decide (t ∈ l.*1) then mk_trsync_signal None None else tw_sigs w t) /\
    trsync_wake w' = trsync_wake w.
Proof.
  revert w l. induction fuel as [|fuel IH]; intros w l Hc Hd Hl; [lia|].
  cbn [dispatch_signals]. destruct l as [|[t f] l].
  - cbn in Hc. rewrite Hc. exists w. split_and!; try done. by destruct (tw_ts w p); cbn in *; subst.
  - cbn in Hc. destruct Hc as (Hs & Hf & Hc). rewrite Hs, Hf. cbn in Hd, Hl.
    apply NoDup_cons in Hd as [Ht Hd].
    unfold bind at 1 2 3 4, upd_ts, upd_sig, modify. cbn [tw_ts tw_sigs set]. rewrite Hcall.
    cbn [tw_base tw_app set].
    match goal with |- context [dispatch_signals call fuel p reason ?x] => set (w1 := x) end.
    destruct (IH w1 l) as (w' & E & Hrun & Hts & Hsig & Hwk).
    + unfold w1. cbn. rewrite fn_lookup_insert. cbn. do 2 (apply sig_chain_insert_ne; [done|]). by rewrite ?fn_lookup_insert.
    + done.
    + lia.
    + exists w'. split_and!; [done| | | |done].
      * rewrite Hrun. unfold w1. cbn. by destruct (eff _ _ _ _).
      * rewrite Hts. unfold w1. cbn. by rewrite fn_lookup_insert.
      * intros u. rewrite Hsig. unfold w1. cbn [tw_sigs set fmap list_fmap fst].
        destruct (decide (u ∈ l.*1)) as [H1|H1].
        -- rewrite decide_True by (rewrite elem_of_cons; auto). done.
        -- destruct (decide (u = t)) as [->|Hne].
           ++ rewrite decide_True by (rewrite elem_of_cons; auto). rewrite !fn_lookup_insert. done.
           ++ rewrite decide_False by (rewrite elem_of_cons; tauto).
              by rewrite !fn_lookup_insert_ne by done.
Qed.

(** A trigger fires once.  When the object can trigger,
    [trsync_do_trigger] runs every registered callback exactly once with the
    reason, unregisters all of them so that they can be registered again,
    records the reason, and asks for a report; any further trigger, whatever
    its reason, then changes nothing until the object is started again. *)
Theorem trsync_trigger_once fuel p reason l w :
  truthy (Z.land (ts_flags (tw_ts w p)) TSF_CAN_TRIGGER) = true ->
  sig_chain (tw_sigs w) (signals (tw_ts w p)) l -> NoDup l.*1 -> (length l < fuel)%nat ->
  exists w', trsync_do_trigger call fuel p reason w = Ret tt w' /\
    (let '(b, a) := run_signals reason l (tw_base w, tw_app w) in
     tw_base w' = b <| bc_sched ::= sched_wake_tasks |> /\ tw_app w' = a) /\
    trigger_reason (tw_ts w' p) = reason /\ signals (tw_ts w' p) = None /\
    truthy (Z.land (ts_flags (tw_ts w' p)) TSF_CAN_TRIGGER) = false /\
    truthy (Z.land (ts_flags (tw_ts w' p)) TSF_REPORT) = true /\
    trsync_wake w' = 1 /\
    (forall t, t ∈ l.*1 -> tw_sigs w' t = mk_trsync_signal None None) /\
    (forall fuel' reason', trsync_do_trigger call fuel' p reason' w' = Ret tt w').
Proof.
  intros Hcan Hc Hd Hl. unfold trsync_do_trigger at 1. rewrite Hcan. cbn [negb].
  unfold bind at 1, upd_ts, modify. unfold bind at 1.
  set (fl := ts_flags (tw_ts w p)).
  match goal with |- context [dispatch_signals call fuel p reason ?x] => set (w1 := x) end.
  destruct (dispatch_signals_run fuel p reason l w1) as (w2 & E & Hrun & Hts & Hsig & Hwk);
    [unfold w1; cbn; by rewrite fn_lookup_insert|done|done|].
  assert (Hp2 : tw_ts w2 p = (tw_ts w p) <| trigger_reason := reason |>
    <| ts_flags := Z.lor (Z.land fl (Z.lnot TSF_CAN_TRIGGER)) TSF_REPORT |> <| signals := None |>).
  { rewrite Hts. unfold w1. cbn [tw_ts set]. by rewrite fn_lookup_insert. }
  rewrite E. unfold wake_trsync, modify, sched_wake_task. eexists. split; [reflexivity|].
  cbn [tw_ts tw_base tw_app tw_sigs trsync_wake set]. rewrite Hp2.
  cbn [trigger_reason signals ts_flags set].
  assert (Hfl : truthy (Z.land (Z.lor (Z.land fl (Z.lnot TSF_CAN_TRIGGER)) TSF_REPORT) TSF_CAN_TRIGGER) = false /\
    truthy (Z.land (Z.lor (Z.land fl (Z.lnot TSF_CAN_TRIGGER)) TSF_REPORT) TSF_REPORT) = true).
  { unfold TSF_CAN_TRIGGER, TSF_REPORT, truthy. split.
    - apply negb_false_iff, Z.eqb_eq. rewrite Z.land_lor_distr_l, <- Z.land_assoc.
      change (Z.land (Z.lnot 1) 1) with 0. by rewrite Z.land_0_r.
    - apply negb_true_iff, Z.eqb_neq. rewrite Z.land_lor_distr_l. intros [_ H]%Z.lor_eq_0_iff. done. }
  destruct Hfl as [Hf1 Hf2].
  change (tw_base w1, tw_app w1) with (tw_base w, tw_app w) in Hrun.
  destruct (run_signals reason l (tw_base w, tw_app w)) as [b a]. injection Hrun as Hb Ha.
  split_and!; [by rewrite Hb|done..| |].
  - intros t Ht. rewrite Hsig. by rewrite decide_True.
  - intros fuel' reason'. unfold trsync_do_trigger. cbn [tw_ts set]. rewrite Hp2. cbn [ts_flags set]. by rewrite Hf1.
Qed.
End trigger.

(** Two callbacks that log their calls. *)
Definition demo_call (f t r : Z) : M (tsw (list (Z * Z * Z))) unit :=
  modify (fun w => w <| tw_base := tw_base w |> <| tw_app ::= fun l => l ++ [(f, t, r)] |>).
Definition demo_trsync : tsw (list (Z * Z * Z)) :=
  mk_tsw basecmd_init (fun _ => mk_trsync 0 (Some 10) TSF_CAN_TRIGGER 0 0)
    (fun t => if t =? 10 then mk_trsync_signal (Some 20) (Some 1) else mk_trsync_signal None (Some 2))
    0 [].

Lemma trsync_trigger_once_witness :
  exists w', trsync_do_trigger demo_call 3 0 5 demo_trsync = Ret tt w' /\
    tw_app w' = [(1, 10, 5); (2, 20, 5)] /\ trsync_do_trigger demo_call 3 0 6 w' = Ret tt w'.
Proof.
  destruct (trsync_trigger_once demo_call
    (fun f t r st => (st.1, st.2 ++ [(f, t, r)])) (fun _ _ _ _ => eq_refl) 3 0 5 [(10, 1); (20, 2)] demo_trsync)
    as (w' & E & [_ Ha] & _ & _ & _ & _ & _ & _ & Hagain).
  - reflexivity.
  - repeat split; reflexivity.
  - repeat constructor; set_solver.
  - cbn. lia.
  - exists w'. split; [exact E|]. split; [exact Ha|apply Hagain].
Defined.
