(* ===== verification/Endstop.v ===== *)
(** * End stops (src/endstop.c)

    [pin n] is the value of the [n]-th call of [gpio_in_read()]; the state
    counts the calls.  An end stop fires its trigger object once it has seen
    enough consecutive matching samples. *)

From S2P Require Import Prelude Command Clock Sched Basecmd Trsync.

(** ** Data *)

Inductive endstop_func : Set := F_endstop_event | F_oversample_event.

Record endstop := mk_endstop {
  e_func : endstop_func;
  e_pin : Z;
  rest_time : Z;
  sample_time : Z;
  nextwake : Z;
  e_ts : option Z;
  e_flags : Z;
  sample_count : Z;
  trigger_count : Z;
  e_trigger_reason : Z }.
#[export] Instance eta_endstop : Eta endstop := fun e =>
  mk_endstop (e_func e) (e_pin e) (rest_time e) (sample_time e) (nextwake e) (e_ts e) (e_flags e)
    (sample_count e) (trigger_count e) (e_trigger_reason e).

Definition ESF_PIN_HIGH : Z := 1.
Definition ESF_HOMING : Z := 2.

Section endstop.
Context {A : Type}.

Record esw := mk_esw {
  ew_ts : tsw A;
  ew_es : Z -> endstop;
  ew_reads : nat }.
#[export] Instance eta_esw : Eta esw := fun w => mk_esw (ew_ts w) (ew_es w) (ew_reads w).

Context (call : Z -> Z -> Z -> M (tsw A) unit) (pin : nat -> Z).
Context (dynmem_end sizeof_ptr sizeof_endstop command_config_endstop_type command_config_trsync_type : Z).

Definition es_timer (p : Z) : tid := T_user (Z.to_nat p).
Definition es_wake (p : Z) (w : esw) : Z := wake (bc_sched (tw_base (ew_ts w))) (es_timer p).
Definition set_es_wake (p v : Z) (w : esw) : esw :=
  w <| ew_ts ::= fun t => t <| tw_base ::= fun b => b <| bc_sched ::= fun s =>
    s <| timers ::= set_waketime (es_timer p) v |> |> |> |>.
Definition upd_es (p : Z) (g : endstop -> endstop) (w : esw) : esw :=
  w <| ew_es ::= fun m => <[p := g (m p)]> m |>.

Definition gpio_in_read : M esw Z := fun w => Ret (pin (ew_reads w)) (w <| ew_reads ::= S |>).

(** [(val ? ~e->flags : e->flags) & ESF_PIN_HIGH] *)
Definition no_match (flags val : Z) : bool :=
  truthy (Z.land (if truthy val then Z.lnot flags else flags) ESF_PIN_HIGH).

(** ** Events *)

Definition endstop_oversample_event (fuel : nat) (p : Z) : M esw Z :=
  val <- gpio_in_read;;
  (fun w =>
     let e := ew_es w p in
     if no_match (e_flags e) val then
       (modify (upd_es p (fun e => e <| e_func := F_endstop_event |>));;;
        modify (set_es_wake p (nextwake e));;;
        modify (upd_es p (fun e => e <| trigger_count := sample_count e |>));;;
        ret SF_RESCHEDULE) w
     else
       let count := u8 (trigger_count e - 1) in
       if negb (truthy count) then
         match e_ts e with
         | None => Crash w
         | Some ts => (zoom ew_ts (trsync_do_trigger call fuel ts (e_trigger_reason e));;; ret SF_DONE) w
         end
       else
         (modify (upd_es p (fun e => e <| trigger_count := count |>));;;
          modify (set_es_wake p (u32 (es_wake p w + sample_time e)));;;
          ret SF_RESCHEDULE) w).

Definition endstop_event (fuel : nat) (p : Z) : M esw Z :=
  val <- gpio_in_read;;
  (fun w =>
     let e := ew_es w p in
     let next := u32 (es_wake p w + rest_time e) in
     if no_match (e_flags e) val then
       (modify (set_es_wake p next);;; ret SF_RESCHEDULE) w
     else
       (modify (upd_es p (fun e => e <| nextwake := next |>));;;
        modify (upd_es p (fun e => e <| e_func := F_oversample_event |>));;;
        endstop_oversample_event fuel p) w).

(** The callback in [e->time.func]. *)
Definition endstop_timer (fuel : nat) (p : Z) : M esw Z := fun w =>
  match e_func (ew_es w p) with
  | F_endstop_event => endstop_event fuel p w
  | F_oversample_event => endstop_oversample_event fuel p w
  end.

(** ** Commands *)

Abbreviation base_op m := (zoom ew_ts (zoom tw_base m)).

Definition command_config_endstop (oid pin_arg pull_up : Z) : M esw unit :=
  p <- base_op (oid_alloc dynmem_end sizeof_ptr (u8 oid) command_config_endstop_type sizeof_endstop);;
  modify (upd_es p (fun _ => mk_endstop F_endstop_event pin_arg 0 0 0 None 0 0 0 0)).

(** [args]: oid, clock, sample_ticks, sample_count, rest_ticks, pin_value,
    trsync_oid, trigger_reason. *)
Definition command_endstop_home (fuel : nat) (now oid clock sample_ticks count rest_ticks
    pin_value trsync_oid reason : Z) : M esw unit :=
  p <- base_op (oid_lookup (u8 oid) command_config_endstop_type);;
  base_op (zoom bc_sched (sched_del_timer fuel (es_timer p)));;;
  modify (set_es_wake p clock);;;
  modify (upd_es p (fun e => e <| sample_time := sample_ticks |> <| sample_count := u8 count |>));;;
  if u8 count =? 0 then modify (upd_es p (fun e => e <| e_ts := None |> <| e_flags := 0 |>))
  else
    modify (upd_es p (fun e => e <| rest_time := rest_ticks |> <| e_func := F_endstop_event |>
      <| trigger_count := u8 count |>
      <| e_flags := Z.lor ESF_HOMING (if truthy pin_value then ESF_PIN_HIGH else 0) |>));;;
    ts <- zoom ew_ts (Trsync.trsync_oid_lookup command_config_trsync_type trsync_oid);;
    modify (upd_es p (fun e => e <| e_ts := Some ts |> <| e_trigger_reason := u8 reason |>));;;
    base_op (zoom bc_sched (sched_add_timer fuel now (es_timer p))).

Definition command_endstop_query_state (oid : Z) : M esw unit :=
  p <- base_op (oid_lookup (u8 oid) command_config_endstop_type);;
  (fun w =>
     let eflags := e_flags (ew_es w p) in
     let nw := nextwake (ew_es w p) in
     (v <- gpio_in_read;;
      base_op (sendf "endstop_state oid=%c homing=%c next_clock=%u pin_value=%c"
        [VInt (u8 oid); VInt (b2z (truthy (Z.land eflags ESF_HOMING))); VInt nw; VInt v])) w).

(** ** Debouncing *)

(** The reading that counts as triggered. *)
Definition matches (flags val : Z) : bool :=
  Bool.eqb (truthy val) (truthy (Z.land flags ESF_PIN_HIGH)).

Lemma no_match_matches flags val : no_match flags val = negb (matches flags val).
Proof.
  unfold no_match, matches, ESF_PIN_HIGH.
  assert (Hn : truthy (Z.land (Z.lnot flags) 1) = negb (truthy (Z.land flags 1))).
  { unfold truthy. change 1 with (2 ^ 1 - 1). rewrite !land_mask by lia. change (2 ^ 1) with 2.
    unfold Z.lnot. destruct (Z.eqb_spec (Z.pred (- flags) mod 2) 0), (Z.eqb_spec (flags mod 2) 0);
      cbn; try done; Z.to_euclidean_division_equations; lia. }
  destruct (truthy val); [rewrite Hn|]; by destruct (truthy (Z.land flags 1)).
Qed.

(** Run the timer callback until it returns SF_DONE, at most [n] times. *)
Fixpoint endstop_run (n fuel : nat) (p : Z) : M esw bool :=
  match n with
  | O => ret false
  | S n => r <- endstop_timer fuel p;;
           if r =? SF_DONE then ret true else endstop_run n fuel p
  end.

(** The matching samples counted so far are the last readings. *)
Definition sampling (w : esw) (p : Z) : Prop :=
  let e := ew_es w p in
  0 < trigger_count e <= sample_count e /\ sample_count e < 0x100 /\
  (e_func e = F_endstop_event -> trigger_count e = sample_count e) /\
  (sample_count e - trigger_count e <= Z.of_nat (ew_reads w)) /\
  (forall k, Z.of_nat (ew_reads w) - (sample_count e - trigger_count e) <= Z.of_nat k
             < Z.of_nat (ew_reads w) -> matches (e_flags e) (pin k) = true).

(** The last [sample_count] readings match. *)
Definition debounced (w : esw) (p : Z) : Prop :=
  let e := ew_es w p in
  sample_count e <= Z.of_nat (ew_reads w) /\
  (forall k, Z.of_nat (ew_reads w) - sample_count e <= Z.of_nat k < Z.of_nat (ew_reads w) ->
     matches (e_flags e) (pin k) = true).

Definition same_config (w w' : esw) (p : Z) : Prop :=
  e_flags (ew_es w' p) = e_flags (ew_es w p) /\ sample_count (ew_es w' p) = sample_count (ew_es w p).

Lemma upd_es_same p g w : ew_es (upd_es p g w) p = g (ew_es w p).
Proof. unfold upd_es. cbn [ew_es set]. by rewrite fn_lookup_insert. Qed.
Lemma set_es_wake_es p v w : ew_es (set_es_wake p v w) = ew_es w. Proof. done. Qed.
Lemma set_es_wake_wake p v w : es_wake p (set_es_wake p v w) = v.
Proof. unfold es_wake, set_es_wake. cbn [ew_ts tw_base bc_sched timers set]. by autorewrite with mem. Qed.
Lemma upd_es_wake p q g w : es_wake q (upd_es p g w) = es_wake q w. Proof. done. Qed.
Lemma upd_es_reads p g w : ew_reads (upd_es p g w) = ew_reads w. Proof. done. Qed.
Lemma set_es_wake_reads p v w : ew_reads (set_es_wake p v w) = ew_reads w. Proof. done. Qed.

Ltac es := repeat first [rewrite set_es_wake_es | rewrite upd_es_same | rewrite set_es_wake_reads
    | rewrite upd_es_reads | rewrite set_es_wake_wake | rewrite upd_es_wake];
  cbn [ew_es ew_reads ew_ts e_func e_pin rest_time sample_time nextwake e_ts e_flags sample_count
       trigger_count e_trigger_reason set].

Lemma oversample_step fuel p w r w' :
  sampling w p -> e_func (ew_es w p) = F_oversample_event ->
  endstop_oversample_event fuel p w = Ret r w' ->
  same_config w w' p /\ (r <> SF_DONE -> sampling w' p) /\ (r = SF_DONE -> debounced w' p).
Proof.
  intros (Ht & Hs & Hf & Hr & Hm) Hov. unfold endstop_oversample_event, bind at 1, gpio_in_read.
  cbn [ew_es set]. rewrite no_match_matches.
  destruct (matches (e_flags (ew_es w p)) (pin (ew_reads w))) eqn:Em; cbn [negb].
  - rewrite u8_small by lia. unfold truthy. rewrite negb_involutive.
    destruct (Z.eqb_spec (trigger_count (ew_es w p) - 1) 0) as [E0|E0].
    + destruct (e_ts (ew_es w p)) as [ts|]; [|done]. unfold bind, zoom, ret. cbn [ew_ts set].
      destruct (trsync_do_trigger _ _ _ _ _) as [[] t| |]; [|done..].
      intros [= <- <-]. split; [done|]. split; [done|]. intros _. split; cbn [ew_es ew_reads set]; [lia|].
      intros k Hk. destruct (decide (k = ew_reads w)) as [->|]; [done|]. apply Hm. lia.
    + unfold bind, modify, ret. intros [= <- <-]. unfold same_config. es.
      split; [done|]. split; [|done]. intros _. unfold sampling. es.
      split_and!; try lia.
      * by rewrite Hov.
      * intros k Hk. destruct (decide (k = ew_reads w)) as [->|]; [done|]. apply Hm. lia.
  - unfold bind, modify, ret. intros [= <- <-]. unfold same_config. es.
    split; [done|]. split; [|done]. intros _. unfold sampling. es. split_and!; try done; try lia.
Qed.

Lemma endstop_step fuel p w r w' :
  sampling w p -> endstop_timer fuel p w = Ret r w' ->
  same_config w w' p /\ (r <> SF_DONE -> sampling w' p) /\ (r = SF_DONE -> debounced w' p).
Proof.
  intros Hs. unfold endstop_timer. destruct (e_func (ew_es w p)) eqn:Ef; [|by apply oversample_step].
  pose proof Hs as (Ht & Hc & Hf & Hr & Hm). specialize (Hf Ef).
  unfold endstop_event, bind at 1, gpio_in_read at 1. cbn [ew_es set]. rewrite no_match_matches.
  destruct (matches _ (pin (ew_reads w))); cbn [negb].
  - unfold bind at 1 2, modify at 1 2. intros E.
    apply oversample_step in E; [| |by es].
    + unfold same_config in *. rewrite !upd_es_same in E. exact E.
    + unfold sampling. es. split_and!; try done; lia.
  - unfold bind, modify, ret. intros [= <- <-]. unfold same_config. es.
    split; [done|]. split; [|done]. intros _. unfold sampling. es. split_and!; try done; lia.
Qed.

(** No false trigger.  Starting from an armed end stop, whenever the timer
    callbacks end in a trigger, the last [sample_count] readings of the pin,
    all of them consecutive, had the value homing waits for. *)
Theorem endstop_debounce n fuel p w w' :
  sampling w p -> endstop_run n fuel p w = Ret true w' ->
  debounced w' p /\ same_config w w' p.
Proof.
  revert w. induction n as [|n IH]; intros w Hs; cbn [endstop_run]; [done|]. unfold bind.
  destruct (endstop_timer fuel p w) as [r w1| |] eqn:E; [|done..].
  destruct (endstop_step _ _ _ _ _ Hs E) as (Hc & H1 & H2).
  destruct (Z.eqb_spec r SF_DONE) as [Hr|Hr].
  - intros [= <-]. auto.
  - intros H. destruct (IH w1 (H1 Hr) H) as [Hd Hc']. split; [done|].
    unfold same_config in *. destruct Hc, Hc'. split; congruence.
Qed.

(** One matching sample that is not the last one. *)
Lemma oversample_match fuel p w :
  let e := ew_es w p in
  matches (e_flags e) (pin (ew_reads w)) = true -> 1 < trigger_count e < 0x100 ->
  endstop_oversample_event fuel p w = Ret SF_RESCHEDULE
    (set_es_wake p (u32 (es_wake p w + sample_time e))
      (upd_es p (fun e => e <| trigger_count ::= Z.pred |>) (w <| ew_reads ::= S |>))).
Proof.
  intros e Hm Ht. unfold endstop_oversample_event, bind at 1, gpio_in_read. cbn [ew_es set].
  rewrite no_match_matches. fold e. rewrite Hm. cbn [negb]. rewrite u8_small by lia. unfold truthy.
  rewrite (proj2 (Z.eqb_neq _ _)) by lia. cbn [negb]. unfold bind, modify, ret, upd_es, Z.pred.
  done.
Qed.

Lemma oversample_fire fuel p w ts :
  let e := ew_es w p in
  matches (e_flags e) (pin (ew_reads w)) = true -> trigger_count e = 1 -> e_ts e = Some ts ->
  endstop_oversample_event fuel p w =
    (zoom ew_ts (trsync_do_trigger call fuel ts (e_trigger_reason e));;; ret SF_DONE)
      (w <| ew_reads ::= S |>).
Proof.
  intros e Hm Ht Hts. unfold endstop_oversample_event, bind at 1, gpio_in_read. cbn [ew_es set].
  rewrite no_match_matches. fold e. rewrite Hm, Ht. cbn [negb]. change (u8 (1 - 1)) with 0.
  by rewrite Hts.
Qed.

(** With [c] samples to go and the pin steady, the trigger fires after [c]
    more events, [sample_time] apart. *)
Lemma endstop_run_steady c fuel p w ts :
  let e := ew_es w p in
  e_func e = F_oversample_event -> trigger_count e = Z.of_nat (S c) -> Z.of_nat (S c) < 0x100 ->
  e_ts e = Some ts -> (forall k, (ew_reads w <= k)%nat -> matches (e_flags e) (pin k) = true) ->
  0 <= es_wake p w < 0x100000000 ->
  exists w1, endstop_run (S c) fuel p w =
      (zoom ew_ts (trsync_do_trigger call fuel ts (e_trigger_reason e));;; ret true) w1 /\
    es_wake p w1 = u32 (es_wake p w + Z.of_nat c * sample_time e).
Proof.
  revert w. induction c as [|c IH]; intros w e Hf Ht Hc Hts Hm Hw; cbn [endstop_run].
  - unfold bind at 1, endstop_timer. fold e. rewrite Hf.
    rewrite (oversample_fire fuel p w ts) by (auto || done). exists (w <| ew_reads ::= S |>).
    split; [|change (es_wake p w = u32 (es_wake p w + 0 * sample_time e)); rewrite u32_small; lia].
    fold e. unfold bind, zoom, ret. cbn [ew_ts set]. by destruct (trsync_do_trigger _ _ _ _ _) as [[]| |].
  - unfold bind at 1, endstop_timer at 1. fold e. rewrite Hf, oversample_match by (auto || (fold e; lia)).
    cbn [Z.eqb SF_RESCHEDULE SF_DONE]. fold e.
    match goal with |- context [endstop_timer fuel p ?x] => idtac | |- _ => idtac end.
    set (w2 := set_es_wake _ _ _).
    destruct (IH w2) as (w1 & E & Hw1); unfold w2; es; fold e; [done|lia|lia|done| |apply u32_range|].
    + intros k Hk. apply Hm. lia.
    + exists w1. fold w2. cbn [endstop_run] in E. rewrite E. unfold w2 in Hw1. split.
      * unfold w2. es. done.
      * rewrite Hw1. es. fold e. rewrite u32_add_l. f_equal. lia.
Qed.

(** A steady pin triggers.  If every reading from now on matches, an armed
    end stop fires its trigger object, with its reason, in exactly
    [sample_count] timer events, the last one [sample_count - 1] sample times
    after the first. *)
Theorem endstop_fires fuel p w ts c :
  let e := ew_es w p in
  e_func e = F_endstop_event -> trigger_count e = sample_count e ->
  sample_count e = Z.of_nat (S c) -> Z.of_nat (S c) < 0x100 -> e_ts e = Some ts ->
  (forall k, (ew_reads w <= k)%nat -> matches (e_flags e) (pin k) = true) ->
  0 <= es_wake p w < 0x100000000 ->
  exists w1, endstop_run (S c) fuel p w =
      (zoom ew_ts (trsync_do_trigger call fuel ts (e_trigger_reason e));;; ret true) w1 /\
    es_wake p w1 = u32 (es_wake p w + Z.of_nat c * sample_time e).
Proof.
  intros e Hf Ht Hsc Hc Hts Hm Hw.
  set (w2 := upd_es p (fun e => e <| e_func := F_oversample_event |>)
     (upd_es p (fun e => e <| nextwake := u32 (es_wake p w + rest_time e) |>) (w <| ew_reads ::= S |>))).
  destruct (endstop_run_steady c fuel p w2 ts) as (w1 & E & Hw1); unfold w2; es; fold e;
    [done|lia|done|done|intros k Hk; apply Hm; lia|done|].
  assert (E2 : sample_time (ew_es w2 p) = sample_time e /\ e_trigger_reason (ew_es w2 p) = e_trigger_reason e /\
    es_wake p w2 = es_wake p w) by (unfold w2; es; done).
  destruct E2 as (E2 & E3 & E4). rewrite E2, E4 in Hw1. rewrite E3 in E.
  exists w1. split; [|exact Hw1].
  assert (Et : endstop_timer fuel p w = endstop_timer fuel p w2).
  { unfold endstop_timer at 1. fold e. rewrite Hf. unfold endstop_event, bind at 1, gpio_in_read at 1.
    cbn [ew_es set]. fold e. rewrite no_match_matches, Hm by lia. cbn [negb].
    unfold bind at 1 2, modify at 1 2. unfold endstop_timer, w2. by es. }
  cbn [endstop_run] in E |- *. unfold bind at 1 in E. unfold bind at 1. rewrite Et. exact E.
Qed.
End endstop.
Arguments esw : clear implicits.

(** An armed end stop at address 8 on an active-high pin, sampling three
    times. *)
Definition demo_endstop : esw unit :=
  mk_esw (mk_tsw basecmd_init (fun _ => mk_trsync 0 None TSF_CAN_TRIGGER 0 0)
            (fun _ => mk_trsync_signal None None) 0 tt)
    (fun _ => mk_endstop F_endstop_event 3 1000 50 0 (Some 16) 3 3 3 2) 0.
(** The pin bounces once before it stays high. *)
Definition demo_pin (n : nat) : Z := if (n =? 2)%nat then 0 else 1.

Lemma endstop_debounce_witness :
  exists w', endstop_run (fun _ _ _ => ret tt) demo_pin 9 1 8 demo_endstop = Ret true w' /\
    ew_reads w' = 7%nat /\ debounced demo_pin w' 8.
Proof.
  eexists. split; [vm_compute; reflexivity|]. split; [reflexivity|].
  refine (proj1 (endstop_debounce (fun _ _ _ => ret tt) demo_pin 9 1 8 demo_endstop _ _ _)).
  - unfold sampling. cbn. split_and!; try done; lia.
  - vm_compute. reflexivity.
Defined.

Lemma endstop_fires_witness :
  exists w1, endstop_run (fun _ _ _ => ret tt) (fun _ => 1) 3 1 8 demo_endstop =
      (zoom ew_ts (trsync_do_trigger (fun _ _ _ => ret tt) 1 16 2);;; ret true) w1 /\
    es_wake 8 w1 = 100.
Proof.
  apply (endstop_fires (fun _ _ _ => ret tt) (fun _ => 1) 1 8 demo_endstop 16 2); try reflexivity.
  cbn. lia.
Defined.
