(* ===== verification/SosFilter.v ===== *)
(** * Fixed point filters (src/sos_filter.c)

    A filter is a chain of second order sections whose coefficients and states
    are fixed point numbers in 32-bit integers.  The theorems compare it with
    the same filter over unbounded integers.  Overflow of a signed addition is
    undefined in C, so such an addition is [int_op], which crashes. *)

From S2P Require Import Prelude Command Sched Basecmd.

(** ** Data *)

Definition SECTION_WIDTH : nat := 5.
Definition STATE_WIDTH : nat := 2.

Record sos_filter_section := mk_section {
  coeff : list Z;
  state : list Z }.
#[export] Instance eta_section : Eta sos_filter_section := fun s => mk_section (coeff s) (state s).

Record sos_filter := mk_sos_filter {
  max_sections : Z;
  n_sections : Z;
  coeff_frac_bits : Z;
  scale_frac_bits : Z;
  auto_offset : Z;
  offset : Z;
  scale : Z;
  sections : list sos_filter_section }.
#[export] Instance eta_sos_filter : Eta sos_filter := fun f =>
  mk_sos_filter (max_sections f) (n_sections f) (coeff_frac_bits f) (scale_frac_bits f) (auto_offset f)
    (offset f) (scale f) (sections f).

(** Signed arithmetic at the widths [int32_t] and [int64_t]. *)
Definition is_int32 (z : Z) : bool := (-0x80000000 <=? z) && (z <? 0x80000000).
Definition is_int64 (z : Z) : bool := (-0x8000000000000000 <=? z) && (z <? 0x8000000000000000).
Definition int_op {W} (z : Z) : M W Z := if is_int32 z then ret z else crash.
Definition long_op {W} (z : Z) : M W Z := if is_int64 z then ret z else crash.

(** ** Applying a filter *)

Definition overflows_int32 (value : Z) : bool := (0x7fffffff <? value) || (value <? -0x80000000).

(** The return value and [*res]. *)
Definition fixed_mul {W} (c value frac_bits : Z) : M W (Z * Z) :=
  result <- long_op (c * value);;
  result <- (if truthy frac_bits then
               r <- long_op (result + Z.shiftl 1 (frac_bits - 1));; ret (Z.shiftr r frac_bits)
             else ret result);;
  ret (if overflows_int32 result then -1 else 0, s32 result).

(** The body of the loop over the sections: the return value, [next_val] and the
    section. *)
Definition section_step {W} (cfb : Z) (section : sos_filter_section) (cur_val : Z)
    : M W (Z * Z * sos_filter_section) :=
  let c i := nth i (coeff section) 0 in
  let s i := nth i (state section) 0 in
  r0 <- fixed_mul (c 0%nat) cur_val cfb;;
  next_val <- int_op (snd r0 + s 0%nat);;
  r1 <- fixed_mul (c 1%nat) cur_val cfb;;
  r3 <- fixed_mul (c 3%nat) next_val cfb;;
  r2 <- fixed_mul (c 2%nat) cur_val cfb;;
  r4 <- fixed_mul (c 4%nat) next_val cfb;;
  if truthy (Z.lor (Z.lor (Z.lor (Z.lor (fst r0) (fst r1)) (fst r3)) (fst r2)) (fst r4))
  then ret (-1, next_val, section)
  else
    d <- int_op (snd r1 - snd r3);;
    s0 <- int_op (d + s 1%nat);;
    s1 <- int_op (snd r2 - snd r4);;
    ret (0, next_val, section <| state := [s0; s1] |>).

(** The loop; [n] sections are left from [section_idx] on. *)
Fixpoint sections_loop (n section_idx : nat) (cur_val : Z) : M sos_filter (Z * Z) := fun sf =>
  match n with
  | O => Ret (0, cur_val) sf
  | S n =>
    match sections sf !! section_idx with
    | None => Crash sf
    | Some section =>
      (r <- section_step (coeff_frac_bits sf) section cur_val;;
       let '(rt, next_val, section') := r in
       if truthy rt then ret (-1, cur_val)
       else modify (fun sf => sf <| sections ::= <[section_idx := section']> |>);;;
            sections_loop n (S section_idx) next_val) sf
    end
  end.

(** The return value and [*pvalue]. *)
Definition sos_filter_apply (raw_val : Z) : M sos_filter (Z * Z) :=
  sf <- gets id;;
  (if truthy (auto_offset sf) then
     o <- int_op (- raw_val);;
     modify (fun sf => sf <| offset := o |> <| auto_offset := 0 |>)
   else ret tt);;;
  sf <- gets id;;
  offset_val <- int_op (raw_val + offset sf);;
  if negb (Bool.eqb (0 <=? offset sf) (raw_val <=? offset_val)) then ret (-1, raw_val)
  else
    r <- fixed_mul (scale sf) offset_val (scale_frac_bits sf);;
    if truthy (fst r) then ret (-1, raw_val)
    else
      q <- sections_loop (Z.to_nat (n_sections sf)) 0 (snd r);;
      if truthy (fst q) then ret (-1, raw_val) else ret (0, snd q).

(** ** Commands *)

Record sfw := mk_sfw { sf_base : basecmd; sf_mem : Z -> sos_filter }.
#[export] Instance eta_sfw : Eta sfw := fun w => mk_sfw (sf_base w) (sf_mem w).

Section commands.
Context (dynmem_end sizeof_ptr offsetof_filter sizeof_section command_config_sos_filter_type : Z).

Definition upd_sf (p : Z) (g : sos_filter -> sos_filter) : M sfw unit :=
  modify (fun w => w <| sf_mem ::= fun m => <[p := g (m p)]> m |>).

Definition zero_section : sos_filter_section :=
  mk_section (replicate SECTION_WIDTH 0) (replicate STATE_WIDTH 0).

Definition command_config_sos_filter (oid max_arg : Z) : M sfw unit :=
  let max := u8 max_arg in
  p <- zoom sf_base (oid_alloc dynmem_end sizeof_ptr (u8 oid) command_config_sos_filter_type
                       (u16 (offsetof_filter + sizeof_section * max)));;
  upd_sf p (fun _ => mk_sos_filter max 0 0 0 0 0 0 (replicate (Z.to_nat max) zero_section)).

Definition sos_filter_oid_lookup (oid : Z) : M basecmd Z :=
  oid_lookup (u8 oid) command_config_sos_filter_type.

Definition validate_section_index (p section_idx : Z) : M sfw unit := fun w =>
  if max_sections (sf_mem w p) <=? section_idx
  then Halt "Filter section index larger than max_sections" w else Ret tt w.

(** Changing the section at an index; an index outside the array crashes. *)
Definition upd_section (p section_idx : Z) (g : sos_filter_section -> sos_filter_section) : M sfw unit := fun w =>
  match sections (sf_mem w p) !! Z.to_nat section_idx with
  | None => Crash w
  | Some s => upd_sf p (fun sf => sf <| sections ::= <[Z.to_nat section_idx := g s]> |>) w
  end.

(** [args] are the five coefficients. *)
Definition command_sos_filter_set_section (oid idx_arg sos0 sos1 sos2 sos3 sos4 : Z) : M sfw unit :=
  p <- zoom sf_base (sos_filter_oid_lookup oid);;
  upd_sf p (fun sf => sf <| n_sections := 0 |>);;;
  let section_idx := u8 idx_arg in
  validate_section_index p section_idx;;;
  upd_section p section_idx (fun s => s <| coeff := [s32 sos0; s32 sos1; s32 sos2; s32 sos3; s32 sos4] |>).

Definition command_sos_filter_set_state (oid idx_arg state0 state1 : Z) : M sfw unit :=
  p <- zoom sf_base (sos_filter_oid_lookup oid);;
  upd_sf p (fun sf => sf <| n_sections := 0 |>);;;
  let section_idx := u8 idx_arg in
  validate_section_index p section_idx;;;
  upd_section p section_idx (fun s => s <| state := [s32 state0; s32 state1] |>).

Definition command_trigger_analog_set_offset_scale (oid off sc frac_bits auto : Z) : M sfw unit :=
  p <- zoom sf_base (sos_filter_oid_lookup oid);;
  upd_sf p (fun sf => sf <| offset := s32 off |> <| scale := s32 sc |>
    <| scale_frac_bits := Z.land frac_bits 0x3f |> <| auto_offset := u8 auto |>).

Definition command_sos_filter_activate (oid n_arg frac_bits : Z) : M sfw unit :=
  p <- zoom sf_base (sos_filter_oid_lookup oid);;
  let n := u8 n_arg in
  (fun w =>
     if max_sections (sf_mem w p) <? n then Halt "Filter section index larger than max_sections" w
     else upd_sf p (fun sf => sf <| n_sections := n |> <| coeff_frac_bits := Z.land frac_bits 0x3f |>) w).
End commands.

(** ** The filter over unbounded integers *)

(** Half a unit of the last place kept, and the product rounded to it. *)
Definition half (f : Z) : Z := if truthy f then 2 ^ (f - 1) else 0.
Definition round_mul (f c v : Z) : Z := (c * v + half f) / 2 ^ f.

Definition ideal_section (f : Z) (s : sos_filter_section) (x : Z) : Z * sos_filter_section :=
  let c i := nth i (coeff s) 0 in
  let z i := nth i (state s) 0 in
  let y := round_mul f (c 0%nat) x + z 0%nat in
  (y, s <| state := [round_mul f (c 1%nat) x - round_mul f (c 3%nat) y + z 1%nat;
                     round_mul f (c 2%nat) x - round_mul f (c 4%nat) y] |>).

(** The output of a chain of sections and their new states. *)
Fixpoint ideal_sections (f : Z) (ss : list sos_filter_section) (x : Z) : Z * list sos_filter_section :=
  match ss with
  | [] => (x, [])
  | s :: ss =>
    let '(y, s') := ideal_section f s x in
    let '(z, ss') := ideal_sections f ss y in (z, s' :: ss')
  end.

(** Every intermediate value has the width the code gives it. *)
Definition mul_fits (f c v : Z) : bool := is_int64 (c * v + half f) && is_int32 (round_mul f c v).
Definition section_fits (f : Z) (s : sos_filter_section) (x : Z) : bool :=
  let c i := nth i (coeff s) 0 in
  let z i := nth i (state s) 0 in
  let y := round_mul f (c 0%nat) x + z 0%nat in
  let d := round_mul f (c 1%nat) x - round_mul f (c 3%nat) y in
  mul_fits f (c 0%nat) x && is_int32 y && mul_fits f (c 1%nat) x && mul_fits f (c 3%nat) y &&
  mul_fits f (c 2%nat) x && mul_fits f (c 4%nat) y && is_int32 d && is_int32 (d + z 1%nat) &&
  is_int32 (round_mul f (c 2%nat) x - round_mul f (c 4%nat) y).
Fixpoint sections_fit (f : Z) (ss : list sos_filter_section) (x : Z) : bool :=
  match ss with
  | [] => true
  | s :: ss => section_fits f s x && sections_fit f ss (ideal_section f s x).1
  end.

(** The offset in effect for a sample. *)
Definition eff_offset (sf : sos_filter) (raw : Z) : Z := if truthy (auto_offset sf) then - raw else offset sf.
Definition ideal_input (sf : sos_filter) (raw : Z) : Z :=
  round_mul (scale_frac_bits sf) (scale sf) (raw + eff_offset sf raw).
Definition active (sf : sos_filter) : list sos_filter_section := take (Z.to_nat (n_sections sf)) (sections sf).
Definition filter_fits (sf : sos_filter) (raw : Z) : bool :=
  is_int32 (eff_offset sf raw) && is_int32 (raw + eff_offset sf raw) &&
  mul_fits (scale_frac_bits sf) (scale sf) (raw + eff_offset sf raw) &&
  sections_fit (coeff_frac_bits sf) (active sf) (ideal_input sf raw).
Definition ideal_filter (sf : sos_filter) (raw : Z) : Z * sos_filter :=
  let '(y, ss) := ideal_sections (coeff_frac_bits sf) (active sf) (ideal_input sf raw) in
  (y, sf <| offset := eff_offset sf raw |> <| auto_offset := 0 |>
         <| sections ::= fun l => ss ++ drop (Z.to_nat (n_sections sf)) l |>).

(** ** Well-formed filters *)

Definition section_wf (s : sos_filter_section) : Prop :=
  length (coeff s) = SECTION_WIDTH /\ length (state s) = STATE_WIDTH /\
  Forall (fun z => is_int32 z = true) (coeff s) /\ Forall (fun z => is_int32 z = true) (state s).

Record sos_wf (sf : sos_filter) : Prop := {
  wf_active : 0 <= n_sections sf <= max_sections sf;
  wf_max : max_sections sf < 0x100;
  wf_sections : length (sections sf) = Z.to_nat (max_sections sf);
  wf_each : Forall section_wf (sections sf);
  wf_cfb : 0 <= coeff_frac_bits sf < 64;
  wf_sfb : 0 <= scale_frac_bits sf < 64;
  wf_offset : is_int32 (offset sf) = true;
  wf_scale : is_int32 (scale sf) = true }.

(** ** The multiplication *)

Lemma is_int32_spec z : is_int32 z = true <-> -0x80000000 <= z < 0x80000000.
Proof. unfold is_int32. lia. Qed.
Lemma is_int64_spec z : is_int64 z = true <-> -0x8000000000000000 <= z < 0x8000000000000000.
Proof. unfold is_int64. lia. Qed.

Lemma overflows_int32_spec z : overflows_int32 z = negb (is_int32 z).
Proof. unfold overflows_int32, is_int32. lia. Qed.

Lemma int32_mul a b : is_int32 a = true -> is_int32 b = true -> -0x4000000000000000 <= a * b <= 0x4000000000000000.
Proof. rewrite !is_int32_spec. nia. Qed.

Lemma fixed_mul_run {W} c v f (w : W) :
  is_int32 c = true -> is_int32 v = true -> 0 <= f < 64 ->
  fixed_mul c v f w =
    if is_int64 (c * v + half f)
    then Ret (if is_int32 (round_mul f c v) then 0 else -1, s32 (round_mul f c v)) w
    else Crash w.
Proof.
  intros Hc Hv Hf. pose proof (int32_mul c v Hc Hv) as Hm. unfold fixed_mul, bind, long_op.
  rewrite (proj2 (is_int64_spec (c * v))) by lia. cbn [ret].
  unfold half, round_mul, half, truthy. destruct (Z.eqb_spec f 0) as [->|Hf0]; cbn [negb].
  - rewrite Z.add_0_r, (proj2 (is_int64_spec (c * v))) by lia. change (2 ^ 0) with 1.
    unfold ret. rewrite Z.div_1_r, overflows_int32_spec. by destruct (is_int32 (c * v)).
  - rewrite Z.shiftl_1_l. destruct (is_int64 (c * v + 2 ^ (f - 1))); [|done]. unfold ret.
    rewrite Z.shiftr_div_pow2, overflows_int32_spec by lia. by destruct (is_int32 (_ / _)).
Qed.

(** Enough room: 62 fraction bits never overflow. *)
Lemma fixed_mul_defined c v f :
  is_int32 c = true -> is_int32 v = true -> 0 <= f < 63 -> is_int64 (c * v + half f) = true.
Proof.
  intros Hc Hv Hf. pose proof (int32_mul c v Hc Hv) as Hm. apply is_int64_spec.
  assert (0 <= half f <= 2 ^ 61); [|lia].
  unfold half, truthy. destruct (Z.eqb_spec f 0); cbn [negb]; [lia|].
  split; [lia|]. apply Z.pow_le_mono_r; lia.
Qed.

Lemma half_double f : 0 <= f -> 0 <= 2 * half f <= 2 ^ f.
Proof.
  intros Hf. unfold half, truthy. destruct (Z.eqb_spec f 0) as [->|H]; cbn [negb]; [lia|].
  replace f with (Z.succ (f - 1)) at 3 by lia. rewrite Z.pow_succ_r by lia. lia.
Qed.

Lemma round_mul_near f c v : 0 <= f -> 2 * Z.abs (round_mul f c v * 2 ^ f - c * v) <= 2 ^ f.
Proof.
  intros Hf. pose proof (half_double f Hf). unfold round_mul.
  assert (Hp : 0 < 2 ^ f) by lia.
  pose proof (Z.div_mod (c * v + half f) (2 ^ f) ltac:(lia)).
  pose proof (Z.mod_pos_bound (c * v + half f) (2 ^ f) Hp).
  unfold half, truthy in *. destruct (Z.eqb_spec f 0) as [->|Hn]; cbn [negb] in *; [change (2 ^ 0) with 1 in *; lia|].
  assert (E : 2 ^ f = 2 * 2 ^ (f - 1)).
  { rewrite <- Z.pow_succ_r by lia. f_equal. lia. }
  lia.
Qed.

Lemma fixed_mul_fits {W} c v f (w : W) :
  is_int32 c = true -> is_int32 v = true -> 0 <= f < 64 -> mul_fits f c v = true ->
  fixed_mul c v f w = Ret (0, round_mul f c v) w.
Proof.
  intros Hc Hv Hf [H1 H2]%andb_prop. rewrite fixed_mul_run, H1, H2 by done.
  by rewrite s32_small by (by apply is_int32_spec).
Qed.

Lemma fixed_mul_inv {W} c v f (w w' : W) r x :
  is_int32 c = true -> is_int32 v = true -> 0 <= f < 64 -> fixed_mul c v f w = Ret (r, x) w' ->
  w' = w /\ is_int32 x = true /\ (truthy r = false -> mul_fits f c v = true /\ x = round_mul f c v).
Proof.
  intros Hc Hv Hf. rewrite fixed_mul_run by done. destruct (is_int64 _) eqn:E; [|done]. intros [= <- <- <-].
  split_and!; [done|apply is_int32_spec, s32_range|]. unfold mul_fits. rewrite E.
  destruct (is_int32 (round_mul f c v)) eqn:E2; [|done]. intros _.
  by rewrite s32_small by (by apply is_int32_spec).
Qed.

Lemma int_op_run {W} z (w : W) : is_int32 z = true -> int_op z w = Ret z w.
Proof. unfold int_op. by intros ->. Qed.
Lemma int_op_inv {W} z (w w' : W) x : int_op z w = Ret x w' -> w' = w /\ x = z /\ is_int32 z = true.
Proof. unfold int_op. destruct (is_int32 z); [|done]. by intros [= <- <-]. Qed.

Lemma truthy_lor a b : truthy (Z.lor a b) = truthy a || truthy b.
Proof.
  unfold truthy. destruct (Z.eqb_spec a 0) as [->|Ha]; [by rewrite Z.lor_0_l|]. cbn.
  destruct (Z.eqb_spec (Z.lor a b) 0) as [E|]; [|done]. by apply Z.lor_eq_0_iff in E as [? _].
Qed.

(** ** One section *)

Lemma section_coeff s i : section_wf s -> (i < SECTION_WIDTH)%nat -> is_int32 (nth i (coeff s) 0) = true.
Proof. intros (H1 & _ & H & _) Hi. rewrite List.Forall_forall in H. apply H, nth_In. lia. Qed.

(** Inversion of a multiplication at the head of [H]. *)
Ltac mul_inv H E := let r := fresh "r" in let v := fresh "v" in let w := fresh "w" in let G := fresh in
    let I := fresh in
    apply bind_inv in H as ([r v] & w & G & H);
    apply fixed_mul_inv in G as (-> & I & E); [|apply section_coeff; [done|unfold SECTION_WIDTH; lia]|done|done].

Section one_section.
Context {W : Type} (f : Z) (s : sos_filter_section) (x : Z).
Context (Hs : section_wf s) (Hx : is_int32 x = true) (Hf : 0 <= f < 64).

Lemma section_step_fits (w : W) :
  section_fits f s x = true ->
  section_step f s x w = Ret (0, (ideal_section f s x).1, (ideal_section f s x).2) w.
Proof.
  unfold section_fits, ideal_section. cbv zeta. cbn [fst snd].
  set (y := round_mul f (nth 0 (coeff s) 0) x + nth 0 (state s) 0).
  intros [[[[[[[[H1 Hy]%andb_prop H2]%andb_prop H3]%andb_prop H4]%andb_prop H5]%andb_prop H6]%andb_prop H7]%andb_prop
    H8]%andb_prop.
  unfold section_step, bind.
  rewrite fixed_mul_fits by (try apply section_coeff; done || (unfold SECTION_WIDTH; lia)).
  cbn [fst snd]. fold y. rewrite int_op_run by done.
  do 4 (rewrite fixed_mul_fits by (try apply section_coeff; done || (unfold SECTION_WIDTH; lia))).
  cbn [fst snd]. change (truthy _) with false. cbv beta iota.
  by rewrite !int_op_run by done.
Qed.

Lemma section_step_inv (w w' : W) r y s' :
  section_step f s x w = Ret (r, y, s') w' ->
  w' = w /\ (truthy r = false -> section_fits f s x = true /\ (y, s') = ideal_section f s x).
Proof.
  unfold section_step. intros H.
  mul_inv H E0. cbn [fst snd] in H.
  apply bind_inv in H as (y' & w1 & (-> & -> & Hy)%int_op_inv & H).
  mul_inv H E1. mul_inv H E3. mul_inv H E2. mul_inv H E4. cbn [fst snd] in H.
  rewrite !truthy_lor in H. destruct (truthy r0) eqn:T0.
  { injection H as <- <- <- <-. done. }
  destruct (truthy r1) eqn:T1; [injection H as <- <- <- <-; done|].
  destruct (truthy r2) eqn:T2; [injection H as <- <- <- <-; done|].
  destruct (truthy r3) eqn:T3; [injection H as <- <- <- <-; done|].
  destruct (truthy r4) eqn:T4; [injection H as <- <- <- <-; done|]. cbn [orb] in H.
  apply bind_inv in H as (d & w1 & (-> & -> & H6)%int_op_inv & H).
  apply bind_inv in H as (d & w1 & (-> & -> & H7)%int_op_inv & H).
  apply bind_inv in H as (d & w1 & (-> & -> & H8)%int_op_inv & H).
  injection H as <- <- <- <-. split; [done|]. intros _.
  destruct (E0 eq_refl) as [F0 ->], (E1 eq_refl) as [F1 ->], (E2 eq_refl) as [F2 ->], (E3 eq_refl) as [F3 ->],
    (E4 eq_refl) as [F4 ->]. split; [|done].
  unfold section_fits. cbv zeta. by rewrite F0, Hy, F1, F3, F2, F4, H6, H7, H8.
Qed.
End one_section.

(** ** The chain and the whole filter *)

Lemma ideal_sections_length f ss x : length (ideal_sections f ss x).2 = length ss.
Proof.
  revert x. induction ss as [|s ss IH]; intros x; [done|]. cbn [ideal_sections].
  destruct (ideal_section f s x) as [y s']. specialize (IH y).
  destruct (ideal_sections f ss y) as [z ss']. cbn in *. lia.
Qed.

Lemma section_fits_out f s x : section_fits f s x = true -> is_int32 (ideal_section f s x).1 = true.
Proof.
  unfold section_fits, ideal_section. cbv zeta. cbn [fst].
  by intros [[[[[[[[_ Hy]%andb_prop _]%andb_prop _]%andb_prop _]%andb_prop _]%andb_prop _]%andb_prop _]%andb_prop
    _]%andb_prop.
Qed.

Section chain.
Context (cfb : Z) (Hf : 0 <= cfb < 64).

Lemma sections_loop_fits ss pre post x sf :
  coeff_frac_bits sf = cfb -> Forall section_wf ss -> is_int32 x = true ->
  sections sf = pre ++ ss ++ post -> sections_fit cfb ss x = true ->
  sections_loop (length ss) (length pre) x sf =
    Ret (0, (ideal_sections cfb ss x).1) (sf <| sections := pre ++ (ideal_sections cfb ss x).2 ++ post |>).
Proof.
  revert pre x sf. induction ss as [|s ss IH]; intros pre x sf Ef Hw Hx Hl Hfit; cbn [length sections_loop].
  - cbn [app] in Hl. destruct sf; cbn in *. by rewrite Hl.
  - cbn [sections_fit] in Hfit. apply andb_prop in Hfit as [H1 H2]. inversion Hw as [|? ? Hs Hw']; subst.
    cbn [app] in Hl. rewrite Hl, list_lookup_middle by done. unfold bind at 1. rewrite section_step_fits by done.
    cbn [ideal_sections]. destruct (ideal_section _ s x) as [y s'] eqn:Ei. cbn [fst snd] in *.
    change (truthy 0) with false. cbv iota. unfold bind, modify.
    replace (S (length pre)) with (length (pre ++ [s'])) by (rewrite length_app; cbn; lia).
    rewrite IH; cbn [coeff_frac_bits sections set]; [|done|done| | |done].
    + destruct (ideal_sections _ ss y) as [z ss']. cbn [fst snd]. by rewrite <- (app_assoc pre [s']).
    + pose proof (section_fits_out _ _ _ H1) as Hy. by rewrite Ei in Hy.
    + rewrite Hl, insert_app_r_alt, Nat.sub_diag by done. cbn. by rewrite <- app_assoc.
Qed.

Lemma sections_loop_inv ss pre post x sf r z sf' :
  coeff_frac_bits sf = cfb -> Forall section_wf ss -> is_int32 x = true -> sections sf = pre ++ ss ++ post ->
  sections_loop (length ss) (length pre) x sf = Ret (r, z) sf' -> truthy r = false ->
  sections_fit cfb ss x = true.
Proof.
  revert pre x sf. induction ss as [|s ss IH]; intros pre x sf Ef Hw Hx Hl; cbn [length sections_loop sections_fit]; [done|].
  inversion Hw as [|? ? Hs Hw']; subst. cbn [app] in Hl. rewrite Hl, list_lookup_middle by done. intros H Hr.
  apply bind_inv in H as ([[r1 y] s'] & w1 & H1 & H).
  apply section_step_inv in H1 as (-> & H1); [|done..].
  destruct (truthy r1) eqn:Er; [by injection H as <- <- <-|].
  destruct (H1 eq_refl) as [Hfit Ei]. rewrite Hfit, <- Ei. cbn [andb fst].
  unfold bind at 1, modify in H.
  replace (S (length pre)) with (length (pre ++ [s'])) in H by (rewrite length_app; cbn; lia).
  eapply IH; [| | | |exact H|done]; cbn [coeff_frac_bits sections set]; [done|done| |].
  - pose proof (section_fits_out _ _ _ Hfit) as Hy. by rewrite <- Ei in Hy.
  - rewrite Hl, insert_app_r_alt, Nat.sub_diag by done. cbn. by rewrite <- app_assoc.
Qed.
End chain.

(** The filter with the offset of this sample. *)
Definition with_offset (sf : sos_filter) (raw : Z) : sos_filter :=
  sf <| offset := eff_offset sf raw |> <| auto_offset := 0 |>.

Lemma with_offset_none sf raw : truthy (auto_offset sf) = false -> with_offset sf raw = sf.
Proof.
  unfold with_offset, eff_offset. intros H. rewrite H. unfold truthy in H. apply negb_false_iff, Z.eqb_eq in H.
  destruct sf; cbn in *. by rewrite H.
Qed.

(** The part of the function behind the automatic offset. *)
Definition apply_scaled (raw_val : Z) : M sos_filter (Z * Z) := fun sf =>
  (offset_val <- int_op (raw_val + offset sf);;
   if negb (Bool.eqb (0 <=? offset sf) (raw_val <=? offset_val)) then ret (-1, raw_val)
   else
     r <- fixed_mul (scale sf) offset_val (scale_frac_bits sf);;
     if truthy (fst r) then ret (-1, raw_val)
     else
       q <- sections_loop (Z.to_nat (n_sections sf)) 0 (snd r);;
       if truthy (fst q) then ret (-1, raw_val) else ret (0, snd q)) sf.

Lemma apply_offset sf raw :
  sos_filter_apply raw sf =
    if truthy (auto_offset sf) && negb (is_int32 (- raw)) then Crash sf
    else apply_scaled raw (with_offset sf raw).
Proof.
  unfold sos_filter_apply, bind at 1, gets, id. destruct (truthy (auto_offset sf)) eqn:Ea; cbn [andb].
  - unfold bind at 1 2, int_op. destruct (is_int32 (- raw)); cbn [negb]; [|done].
    unfold apply_scaled, bind at 1, ret, modify, with_offset, eff_offset. by rewrite Ea.
  - unfold bind at 1, ret at 1. by rewrite with_offset_none.
Qed.

Lemma apply_scaled_fits sf raw :
  sos_wf sf -> is_int32 raw = true -> auto_offset sf = 0 -> filter_fits sf raw = true ->
  apply_scaled raw sf = Ret (0, (ideal_filter sf raw).1) (ideal_filter sf raw).2.
Proof.
  intros [W1 W2 W3 W4 W5 W6 W7 W8] Hr Ha. unfold filter_fits, ideal_filter, eff_offset. rewrite Ha.
  change (truthy 0) with false. cbv iota.
  intros [[[_ H1]%andb_prop H2]%andb_prop H3]%andb_prop.
  unfold apply_scaled, bind. rewrite int_op_run by done.
  replace (raw <=? raw + offset sf) with (0 <=? offset sf) by lia. rewrite eqb_reflx. cbn [negb].
  rewrite fixed_mul_fits by done. cbn [fst snd]. change (truthy 0) with false. cbv iota.
  assert (Hl : length (active sf) = Z.to_nat (n_sections sf)) by (unfold active; rewrite length_take; lia).
  rewrite <- Hl. change 0%nat with (length (@nil sos_filter_section)).
  rewrite (sections_loop_fits (coeff_frac_bits sf) W5 (active sf) [] (drop (Z.to_nat (n_sections sf)) (sections sf)));
    [|done|by apply Forall_take| | |].
  - unfold ideal_input, eff_offset. rewrite Ha. change (truthy 0) with false. cbv iota. rewrite Hl.
    destruct (ideal_sections _ _ _) as [z ss]. cbn [fst snd]. change (truthy 0) with false. cbv iota.
    destruct sf; cbn in *. by rewrite Ha.
  - by apply andb_prop in H2 as [_ ?].
  - unfold active. cbn [app]. by rewrite take_drop.
  - unfold ideal_input, eff_offset in H3. rewrite Ha in H3. exact H3.
Qed.

Lemma apply_scaled_inv sf raw y sf' :
  sos_wf sf -> is_int32 raw = true -> auto_offset sf = 0 ->
  apply_scaled raw sf = Ret (0, y) sf' -> filter_fits sf raw = true.
Proof.
  intros [W1 W2 W3 W4 W5 W6 W7 W8] Hr Ha H. unfold apply_scaled in H.
  apply bind_inv in H as (v & w1 & (-> & -> & H1)%int_op_inv & H).
  destruct (negb _); [done|]. apply bind_inv in H as ([r c] & w1 & H2 & H).
  apply fixed_mul_inv in H2 as (-> & Hc & H2); [|done..]. cbn [fst snd] in H.
  destruct (truthy r); [done|]. destruct (H2 eq_refl) as [Hm ->].
  apply bind_inv in H as ([q z] & w1 & H3 & H). cbn [fst snd] in H. destruct (truthy q) eqn:Eq; [done|].
  assert (Hl : length (active sf) = Z.to_nat (n_sections sf)) by (unfold active; rewrite length_take; lia).
  rewrite <- Hl in H3. change 0%nat with (length (@nil sos_filter_section)) in H3.
  apply (sections_loop_inv (coeff_frac_bits sf) W5 (active sf) [] (drop (Z.to_nat (n_sections sf)) (sections sf)))
    in H3; [|done|by apply Forall_take|done|unfold active; cbn [app]; by rewrite take_drop|done].
  unfold filter_fits, ideal_input, eff_offset. rewrite Ha. change (truthy 0) with false. cbv iota.
  by rewrite W7, H1, Hm, H3.
Qed.

Lemma ideal_with_offset sf raw : ideal_filter (with_offset sf raw) raw = ideal_filter sf raw.
Proof. unfold ideal_filter, active. done. Qed.

Lemma fits_with_offset sf raw : filter_fits (with_offset sf raw) raw = filter_fits sf raw.
Proof. done. Qed.

Lemma with_offset_wf sf raw : is_int32 (eff_offset sf raw) = true -> sos_wf sf -> sos_wf (with_offset sf raw).
Proof. intros H []. by constructor. Qed.

Lemma section_fits_wf cfb s x :
  section_fits cfb s x = true -> section_wf s -> section_wf (ideal_section cfb s x).2.
Proof.
  intros Hfit (H1 & H2 & H3 & H4). unfold section_fits in Hfit. cbv zeta in Hfit.
  apply andb_prop in Hfit as [Hfit Hb]. apply andb_prop in Hfit as [_ Ha].
  unfold ideal_section. cbn [snd]. split_and!; [done|done|done|].
  cbn [state set]. by repeat constructor.
Qed.

Lemma ideal_sections_wf cfb ss x :
  sections_fit cfb ss x = true -> Forall section_wf ss -> Forall section_wf (ideal_sections cfb ss x).2.
Proof.
  revert x. induction ss as [|s ss IH]; intros x H Hw; [done|]. cbn [sections_fit ideal_sections] in *.
  apply andb_prop in H as [H1 H2]. inversion Hw as [|? ? Hs Hw']; subst.
  pose proof (section_fits_wf _ _ _ H1 Hs) as Hs'. destruct (ideal_section cfb s x) as [y s']. cbn [fst snd] in *.
  specialize (IH y H2 Hw'). destruct (ideal_sections cfb ss y) as [z ss']. by constructor.
Qed.

Lemma ideal_filter_wf sf raw : filter_fits sf raw = true -> sos_wf sf -> sos_wf (ideal_filter sf raw).2.
Proof.
  intros [[[Ho _]%andb_prop _]%andb_prop H]%andb_prop [W1 W2 W3 W4 W5 W6 W7 W8].
  unfold ideal_filter. pose proof (ideal_sections_length (coeff_frac_bits sf) (active sf) (ideal_input sf raw)) as Hl.
  pose proof (ideal_sections_wf _ _ _ H (Forall_take _ _ _ W4)) as Hw.
  destruct (ideal_sections _ _ _) as [z ss]. cbn [snd] in *. constructor; cbn; try done.
  - rewrite length_app, length_drop, Hl. unfold active. rewrite length_take. lia.
  - apply Forall_app. split; [done|]. by apply Forall_drop.
Qed.

Lemma apply_fits sf raw :
  sos_wf sf -> is_int32 raw = true -> filter_fits sf raw = true ->
  sos_filter_apply raw sf = Ret (0, (ideal_filter sf raw).1) (ideal_filter sf raw).2.
Proof.
  intros Hwf Hr Hfit. rewrite apply_offset. pose proof Hfit as [[[Ho _]%andb_prop _]%andb_prop _]%andb_prop.
  replace (truthy (auto_offset sf) && negb (is_int32 (- raw))) with false.
  - by rewrite <- ideal_with_offset, apply_scaled_fits by (try apply with_offset_wf; done).
  - unfold eff_offset in Ho. destruct (truthy (auto_offset sf)); [by rewrite Ho|done].
Qed.

(** The filter is exact.  A call on a well-formed filter succeeds exactly
    when every intermediate value of the same computation over the integers has
    the width of its C variable, and then its output and the new states of the
    sections are the exact ones; the filter is well-formed again. *)
Theorem sos_filter_exact sf raw y sf' :
  sos_wf sf -> is_int32 raw = true ->
  (sos_filter_apply raw sf = Ret (0, y) sf' <->
   filter_fits sf raw = true /\ (y, sf') = ideal_filter sf raw /\ sos_wf sf').
Proof.
  intros Hwf Hr. rewrite apply_offset.
  assert (Hoff : is_int32 (eff_offset sf raw) = negb (truthy (auto_offset sf) && negb (is_int32 (- raw)))).
  { unfold eff_offset. destruct (truthy (auto_offset sf)); cbn; [by destruct (is_int32 (- raw))|].
    by destruct Hwf. }
  destruct (truthy (auto_offset sf) && negb (is_int32 (- raw))).
  { split; [done|]. unfold filter_fits. rewrite Hoff. by intros []. }
  pose proof (with_offset_wf sf raw Hoff Hwf) as Hwf'.
  rewrite <- fits_with_offset, <- ideal_with_offset. split.
  - intros H. pose proof (apply_scaled_inv _ _ _ _ Hwf' Hr eq_refl H) as Hfit.
    rewrite apply_scaled_fits in H by done. pose proof (ideal_filter_wf _ _ Hfit Hwf').
    injection H as <- <-. by destruct (ideal_filter _ _).
  - intros (Hfit & E & _). rewrite apply_scaled_fits by done. by rewrite <- E.
Qed.

(** ** The commands *)

(** The commands keep every filter well-formed: a section is only changed at an
    index inside the allocated array, and only filled sections are activated. *)
Section wf_commands.
Context (type : Z).

Definition all_wf (w : sfw) : Prop := forall p, sos_wf (sf_mem w p).

Lemma upd_sf_wf p g w a w' :
  (sos_wf (sf_mem w p) -> sos_wf (g (sf_mem w p))) -> all_wf w -> upd_sf p g w = Ret a w' -> all_wf w'.
Proof.
  intros Hg Hw [= <- <-] q. cbn [sf_mem set]. destruct (decide (q = p)) as [->|Hne].
  - rewrite fn_lookup_insert. apply Hg, Hw.
  - by rewrite fn_lookup_insert_ne.
Qed.

Lemma upd_section_wf p idx g w :
  (forall s, section_wf s -> section_wf (g s)) -> all_wf w -> 0 <= idx < max_sections (sf_mem w p) ->
  exists w', upd_section p idx g w = Ret tt w' /\ all_wf w'.
Proof.
  intros Hg Hw Hi. unfold upd_section. pose proof (Hw p) as [W1 W2 W3 W4 W5 W6 W7 W8].
  destruct (lookup_lt_is_Some_2 (sections (sf_mem w p)) (Z.to_nat idx)) as [s Es]; [lia|]. rewrite Es.
  eexists. split; [reflexivity|]. eapply upd_sf_wf; [|exact Hw|reflexivity]. intros _.
  constructor; cbn; try done.
  - by rewrite length_insert.
  - apply Forall_insert; [done|]. apply Hg. by eapply Forall_lookup_1.
Qed.

(** The commands that address an existing filter. *)
Inductive sos_command : Set :=
| Set_section (oid idx sos0 sos1 sos2 sos3 sos4 : Z)
| Set_state (oid idx state0 state1 : Z)
| Set_offset_scale (oid off sc frac_bits auto : Z)
| Activate (oid n frac_bits : Z).
Definition run_command (c : sos_command) : M sfw unit :=
  match c with
  | Set_section oid idx a b c d e => command_sos_filter_set_section type oid idx a b c d e
  | Set_state oid idx a b => command_sos_filter_set_state type oid idx a b
  | Set_offset_scale oid off sc fb auto => command_trigger_analog_set_offset_scale type oid off sc fb auto
  | Activate oid n fb => command_sos_filter_activate type oid n fb
  end.

Definition safe_wf (o : outcome sfw unit) : Prop :=
  match o with Ret _ w => all_wf w | Halt _ w => all_wf w | Crash _ => False end.

Lemma lookup_filter_safe oid (k : Z -> M sfw unit) w :
  all_wf w -> (forall p, safe_wf (k p w)) -> safe_wf (bind (zoom sf_base (sos_filter_oid_lookup type oid)) k w).
Proof.
  intros Hw Hk. unfold bind, zoom, sos_filter_oid_lookup, oid_lookup.
  destruct (_ || _); cbn.
  - exact Hw.
  - destruct w. apply Hk.
Qed.

Lemma upd_sf_safe p g w : (sos_wf (sf_mem w p) -> sos_wf (g (sf_mem w p))) -> all_wf w -> safe_wf (upd_sf p g w).
Proof. intros Hg Hw. by apply (upd_sf_wf p g w tt). Qed.

Lemma change_section_safe p idx g w :
  (forall s, section_wf s -> section_wf (g s)) -> all_wf w -> 0 <= idx ->
  safe_wf ((upd_sf p (fun sf => sf <| n_sections := 0 |>);;;
            validate_section_index p idx;;; upd_section p idx g) w).
Proof.
  intros Hg Hw Hi. unfold bind at 1, upd_sf at 1, modify. set (w1 := w <| sf_mem ::= _ |>).
  assert (Hw1 : all_wf w1).
  { apply (upd_sf_wf p (fun sf => sf <| n_sections := 0 |>) w tt); [|done|done]. intros []. constructor; cbn; try done. lia. }
  unfold bind, validate_section_index. destruct (Z.leb_spec (max_sections (sf_mem w1 p)) idx); [exact Hw1|].
  destruct (upd_section_wf p idx g w1 Hg Hw1) as (w2 & E & Hw2); [lia|]. by rewrite E.
Qed.

Lemma land_3f z : 0 <= Z.land z 0x3f < 64.
Proof. change 0x3f with (2 ^ 6 - 1). rewrite land_mask by lia. change (2 ^ 6) with 64. word. Qed.

Lemma s32_is_int32 z : is_int32 (s32 z) = true.
Proof. apply is_int32_spec, s32_range. Qed.

(** Whatever its arguments, a filter command either returns or shuts down
    and leaves every filter well-formed; it never touches a section outside
    the allocated array, and never activates more sections than there are. *)
Theorem sos_commands_safe c w : all_wf w -> safe_wf (run_command c w).
Proof.
  intros Hw. destruct c; cbn [run_command]; apply lookup_filter_safe; try done; intros p.
  - apply change_section_safe; [|done|apply u8_range].
    intros s (H1 & H2 & H3 & H4). split_and!; [done|done| |done]. cbn. repeat constructor; apply s32_is_int32.
  - apply change_section_safe; [|done|apply u8_range].
    intros s (H1 & H2 & H3 & H4). split_and!; [done|done|done|]. cbn. repeat constructor; apply s32_is_int32.
  - apply upd_sf_safe; [|done]. intros []. constructor; cbn; try done.
    + apply land_3f.
    + apply s32_is_int32.
    + apply s32_is_int32.
  - cbv beta zeta. destruct (Z.ltb_spec (max_sections (sf_mem w p)) (u8 n)); [exact Hw|].
    apply upd_sf_safe; [|done]. intros []. pose proof (u8_range n). constructor; cbn; try done; try lia.
    apply land_3f.
Qed.
End wf_commands.

(** ** Examples *)

(** Two fraction bits: one section that halves its input and adds half of the
    previous input, and an input scale of one and a half. *)
Definition demo_filter : sos_filter :=
  mk_sos_filter 2 1 2 1 1 0 3 [mk_section [2; 2; 0; 0; 0] [0; 0]; zero_section].

Lemma demo_filter_wf : sos_wf demo_filter.
Proof. constructor; cbn; try lia; repeat constructor. Qed.

(** A sample of 100 is 10 above the zero point: scaled to 15, halved and rounded to 8. *)
Lemma sos_filter_exact_witness :
  sos_filter_apply 100 (demo_filter <| auto_offset := 0 |> <| offset := -90 |>) =
  Ret (0, 8) (demo_filter <| auto_offset := 0 |> <| offset := -90 |>
    <| sections := [mk_section [2; 2; 0; 0; 0] [8; 0]; zero_section] |>).
Proof.
  apply sos_filter_exact.
  - pose proof demo_filter_wf as []. constructor; try done.
  - reflexivity.
  - split; [reflexivity|]. split; [reflexivity|]. constructor; cbn; try lia; repeat constructor.
Defined.

Lemma sos_commands_safe_witness :
  safe_wf (run_command 7 (Activate 0 200 3) (mk_sfw basecmd_init (fun _ => demo_filter))).
Proof. apply sos_commands_safe. intros p. exact demo_filter_wf. Defined.

(** The additions are not checked: every product of this section fits, but adding
    its state overflows. *)
Lemma unchecked_addition :
  let s := mk_section [1; 0; 0; 0; 0] [0x7fffffff; 0] in
  section_wf s /\ Forall (fun c => mul_fits 0 c 1 = true) (coeff s) /\ section_step 0 s 1 tt = Crash tt.
Proof. split_and!; repeat constructor. Qed.
