(* ===== verification/TriggerAnalog.v ===== *)
(** * Triggers on analog sensors (src/trigger_analog.c)

    A sensor hands each sample to [trigger_analog_update], which filters it and
    compares it with a trigger condition; a timer watches that samples keep
    arriving.  Both end in a trigger of a trsync object.  [time] is the clock
    the update reads.  As in SosFilter.v, overflow of signed arithmetic is
    [int_op]. *)

From S2P Require Import Prelude Command Clock Sched Basecmd Trsync SosFilter.

(** ** Data *)

Record trigger_analog := mk_trigger_analog {
  raw_min : Z;
  raw_max : Z;
  ta_sf : Z;
  trigger_value : Z;
  trigger_peak : Z;
  trigger_type : Z;
  ta_flags : Z;
  ta_trigger_reason : Z;
  ta_error_reason : Z;
  ta_ts : option Z;
  homing_clock : Z;
  monitor_max : Z;
  monitor_count : Z;
  monitor_ticks : Z }.
#[export] Instance eta_trigger_analog : Eta trigger_analog := fun t =>
  mk_trigger_analog (raw_min t) (raw_max t) (ta_sf t) (trigger_value t) (trigger_peak t) (trigger_type t)
    (ta_flags t) (ta_trigger_reason t) (ta_error_reason t) (ta_ts t) (homing_clock t) (monitor_max t)
    (monitor_count t) (monitor_ticks t).

Definition TA_AWAIT_HOMING : Z := 2.
Definition TA_CAN_TRIGGER : Z := 4.

Definition TT_ABS_GE : Z := 0.
Definition TT_GT : Z := 1.
Definition TT_DIFF_PEAK_GT : Z := 2.

Definition TE_RAW_RANGE : Z := 0.
Definition TE_OVERFLOW : Z := 1.
Definition TE_MONITOR : Z := 2.
Definition TE_SENSOR_SPECIFIC : Z := 3.

Definition INT32_MIN : Z := -0x80000000.

Section trigger_analog.
Context {A : Type}.

Record taw := mk_taw {
  aw_ts : tsw A;
  aw_ta : Z -> trigger_analog;
  aw_sf : Z -> sos_filter }.
#[export] Instance eta_taw : Eta taw := fun w => mk_taw (aw_ts w) (aw_ta w) (aw_sf w).

Context (call : Z -> Z -> Z -> M (tsw A) unit).
(** The offset of [time] in a [struct trigger_analog], its size, and the types. *)
Context (time_offset dynmem_end sizeof_ptr sizeof_trigger_analog : Z).
Context (command_config_trigger_analog_type command_config_sos_filter_type command_config_trsync_type : Z).

Definition ta_timer (p : Z) : tid := T_user (Z.to_nat (p + time_offset)).
Definition ta_wake (p : Z) (w : taw) : Z := wake (bc_sched (tw_base (aw_ts w))) (ta_timer p).
Definition set_ta_wake (p v : Z) (w : taw) : taw :=
  w <| aw_ts ::= fun t => t <| tw_base ::= fun b => b <| bc_sched ::= fun s =>
    s <| timers ::= set_waketime (ta_timer p) v |> |> |> |>.
Definition upd_ta (p : Z) (g : trigger_analog -> trigger_analog) (w : taw) : taw :=
  w <| aw_ta ::= fun m => <[p := g (m p)]> m |>.

Abbreviation ta_base m := (zoom aw_ts (zoom tw_base m)).

(** [trsync_do_trigger(ta->ts, reason)] *)
Definition do_trigger (fuel : nat) (ts : option Z) (reason : Z) : M taw unit :=
  match ts with
  | None => crash
  | Some ts => zoom aw_ts (trsync_do_trigger call fuel ts (u8 reason))
  end.

(** ** Watching the sensor *)

Definition monitor_event (fuel : nat) (p : Z) : M taw Z := fun w =>
  let ta := aw_ta w p in
  if negb (has TA_CAN_TRIGGER (ta_flags ta)) then Ret SF_DONE w
  else if monitor_max ta <? monitor_count ta
  then (do_trigger fuel (ta_ts ta) (ta_error_reason ta + TE_MONITOR);;; ret SF_DONE) w
  else
    (modify (upd_ta p (fun t => t <| monitor_count := u8 (monitor_count t + 1) |>));;;
     modify (set_ta_wake p (u32 (ta_wake p w + monitor_ticks ta)));;;
     ret SF_RESCHEDULE) w.

Definition monitor_note_activity (p : Z) : M taw unit :=
  modify (upd_ta p (fun t => t <| monitor_count := 0 |>)).

(** ** Samples *)

Definition check_trigger (p time value : Z) : M taw Z := fun w =>
  let ta := aw_ta w p in
  if trigger_type ta =? TT_ABS_GE then
    (v <- (if value <? 0 then int_op (- value) else ret value);;
     ret (b2z (u32 (trigger_value ta) <=? u32 v))) w
  else if trigger_type ta =? TT_GT then Ret (b2z (trigger_value ta <? value)) w
  else if trigger_type ta =? TT_DIFF_PEAK_GT then
    if trigger_peak ta <? value
    then Ret 0 (upd_ta p (fun t => t <| trigger_peak := value |>) w)
    else
      (d <- int_op (trigger_peak ta - value);;
       ret (b2z (u32 (trigger_value ta) <? u32 d))) w
  else Ret 0 w.

Definition trigger_reset (p : Z) : M taw unit :=
  modify (upd_ta p (fun t => t <| trigger_peak := INT32_MIN |>)).

Definition cancel_homing (fuel : nat) (p error_code : Z) : M taw unit := fun w =>
  if negb (has TA_CAN_TRIGGER (ta_flags (aw_ta w p))) then Ret tt w
  else
    (modify (upd_ta p (fun t => t <| ta_flags := 0 |>));;;
     do_trigger fuel (ta_ts (aw_ta w p)) (ta_error_reason (aw_ta w p) + error_code)) w.

Definition trigger_analog_note_error (fuel : nat) (ta : option Z) (sensor_code : Z) : M taw unit :=
  match ta with
  | None => ret tt
  | Some p => cancel_homing fuel p (u8 (sensor_code + TE_SENSOR_SPECIFIC))
  end.

(** [sos_filter_apply] on the filter at [sf]. *)
Definition run_filter (sf value : Z) : M taw (Z * Z) := fun w =>
  match sos_filter_apply value (aw_sf w sf) with
  | Ret r f => Ret r (w <| aw_sf ::= <[sf := f]> |>)
  | Halt msg f => Halt msg (w <| aw_sf ::= <[sf := f]> |>)
  | Crash f => Crash (w <| aw_sf ::= <[sf := f]> |>)
  end.

Definition trigger_analog_update (fuel : nat) (time : Z) (ta : option Z) (sample : Z) : M taw unit :=
  match ta with
  | None => ret tt
  | Some p => fun w =>
    let fl := ta_flags (aw_ta w p) in
    if negb (has TA_CAN_TRIGGER fl) then Ret tt w
    else if has TA_AWAIT_HOMING fl && timer_is_before time (homing_clock (aw_ta w p)) then Ret tt w
    else
      let fl := Z.land fl (Z.lnot TA_AWAIT_HOMING) in
      (monitor_note_activity p;;;
       if (sample <? raw_min (aw_ta w p)) || (raw_max (aw_ta w p) <? sample)
       then cancel_homing fuel p TE_RAW_RANGE
       else
         r <- run_filter (ta_sf (aw_ta w p)) sample;;
         if truthy (fst r) then cancel_homing fuel p TE_OVERFLOW
         else
           c <- check_trigger p time (snd r);;
           if truthy c then
             do_trigger fuel (ta_ts (aw_ta w p)) (ta_trigger_reason (aw_ta w p));;;
             modify (upd_ta p (fun t => t <| homing_clock := time |>));;;
             modify (upd_ta p (fun t => t <| ta_flags := 0 |>))
           else modify (upd_ta p (fun t => t <| ta_flags := fl |>))) w
  end.

(** ** Commands *)

Definition command_config_trigger_analog (oid sos_filter_oid : Z) : M taw unit :=
  p <- ta_base (oid_alloc dynmem_end sizeof_ptr (u8 oid) command_config_trigger_analog_type sizeof_trigger_analog);;
  modify (upd_ta p (fun _ => mk_trigger_analog 0 0 0 0 0 0 0 0 0 None 0 0 0 0));;;
  sf <- ta_base (sos_filter_oid_lookup command_config_sos_filter_type sos_filter_oid);;
  modify (upd_ta p (fun t => t <| ta_sf := sf |>)).

Definition trigger_analog_oid_lookup (oid : Z) : M taw Z :=
  ta_base (oid_lookup (u8 oid) command_config_trigger_analog_type).

Definition command_trigger_analog_set_raw_range (oid mn mx : Z) : M taw unit :=
  p <- trigger_analog_oid_lookup oid;;
  modify (upd_ta p (fun t => t <| raw_min := s32 mn |> <| raw_max := s32 mx |>)).

Definition command_trigger_analog_set_trigger (oid type value : Z) : M taw unit :=
  p <- trigger_analog_oid_lookup oid;;
  modify (upd_ta p (fun t => t <| trigger_type := u8 type |> <| trigger_value := s32 value |>)).

(** [now] is the clock [sched_add_timer] reads. *)
Definition command_trigger_analog_home (fuel : nat) (now oid trsync_oid reason error_reason clock ticks mx : Z)
    : M taw unit :=
  p <- trigger_analog_oid_lookup oid;;
  ta_base (zoom bc_sched (sched_del_timer fuel (ta_timer p)));;;
  modify (upd_ta p (fun t => t <| monitor_ticks := ticks |>));;;
  if negb (truthy ticks) then modify (upd_ta p (fun t => t <| ta_flags := 0 |> <| ta_ts := None |>))
  else
    ts <- zoom aw_ts (trsync_oid_lookup command_config_trsync_type trsync_oid);;
    modify (upd_ta p (fun t => t <| ta_ts := Some ts |> <| ta_trigger_reason := u8 reason |>
      <| ta_error_reason := u8 error_reason |> <| homing_clock := clock |>));;;
    modify (set_ta_wake p clock);;;
    modify (upd_ta p (fun t => t <| monitor_max := u8 mx |> <| monitor_count := 0 |>
      <| ta_flags := Z.lor TA_AWAIT_HOMING TA_CAN_TRIGGER |>));;;
    trigger_reset p;;;
    ta_base (zoom bc_sched (sched_add_timer fuel now (ta_timer p))).

Definition command_trigger_analog_query_state (oid : Z) : M taw unit :=
  p <- trigger_analog_oid_lookup oid;;
  (fun w => ta_base (sendf "trigger_analog_state oid=%c homing=%c homing_clock=%u"
     [VInt (u8 oid); VInt (b2z (has TA_CAN_TRIGGER (ta_flags (aw_ta w p))));
      VInt (homing_clock (aw_ta w p))]) w).

(** ** Reading the state back *)

Section accessors.
Context (p v : Z) (g : trigger_analog -> trigger_analog) (w : taw).
Lemma upd_ta_same : aw_ta (upd_ta p g w) p = g (aw_ta w p).
Proof. unfold upd_ta. cbn [aw_ta set]. by rewrite fn_lookup_insert. Qed.
Lemma upd_ta_ts : aw_ts (upd_ta p g w) = aw_ts w. Proof. done. Qed.
Lemma upd_ta_sf : aw_sf (upd_ta p g w) = aw_sf w. Proof. done. Qed.
Lemma upd_ta_wake q : ta_wake q (upd_ta p g w) = ta_wake q w. Proof. done. Qed.
Lemma set_ta_wake_ta : aw_ta (set_ta_wake p v w) = aw_ta w. Proof. done. Qed.
Lemma set_ta_wake_wake : ta_wake p (set_ta_wake p v w) = v.
Proof. unfold ta_wake, set_ta_wake. cbn [aw_ts tw_base bc_sched timers set]. by autorewrite with mem. Qed.
End accessors.
Hint Rewrite upd_ta_same upd_ta_ts upd_ta_sf upd_ta_wake set_ta_wake_ta set_ta_wake_wake : taw.
Ltac tas := autorewrite with taw; cbn [raw_min raw_max ta_sf trigger_value trigger_peak trigger_type ta_flags
  ta_trigger_reason ta_error_reason ta_ts homing_clock monitor_max monitor_count monitor_ticks set].

(** ** The watchdog *)

(** Run the timer callback until it is done, at most [n] times. *)
Fixpoint monitor_run (n fuel : nat) (p : Z) : M taw bool :=
  match n with
  | O => ret false
  | S n => r <- monitor_event fuel p;; if r =? SF_DONE then ret true else monitor_run n fuel p
  end.

Lemma monitor_run_S n fuel p w :
  monitor_run (S n) fuel p w =
    (r <- monitor_event fuel p;; if r =? SF_DONE then ret true else monitor_run n fuel p) w.
Proof. done. Qed.

Lemma monitor_run_silent c fuel p w ts :
  let ta := aw_ta w p in
  has TA_CAN_TRIGGER (ta_flags ta) = true -> ta_ts ta = Some ts -> monitor_max ta < 0xff ->
  0 <= monitor_count ta -> monitor_max ta + 1 - monitor_count ta = Z.of_nat c -> 0 <= ta_wake p w < 0x100000000 ->
  exists w1, monitor_run (S c) fuel p w =
      (zoom aw_ts (trsync_do_trigger call fuel ts (u8 (ta_error_reason ta + TE_MONITOR)));;; ret true) w1 /\
    ta_wake p w1 = u32 (ta_wake p w + Z.of_nat c * monitor_ticks ta).
Proof.
  revert w. induction c as [|c IH]; intros w ta Hf Hts Hm Hc Hn Hw; rewrite monitor_run_S; unfold bind at 1, monitor_event;
    fold ta; rewrite Hf; cbn [negb].
  - rewrite (proj2 (Z.ltb_lt _ _)) by lia. rewrite Hts. exists w. split.
    + unfold do_trigger, bind, zoom. by destruct (trsync_do_trigger _ _ _ _ _) as [[] t| |].
    + rewrite u32_small; lia.
  - rewrite (proj2 (Z.ltb_ge _ _)) by lia. unfold bind at 1 2, modify, ret. cbn [Z.eqb SF_RESCHEDULE SF_DONE].
    set (w2 := set_ta_wake _ _ _).
    destruct (IH w2) as (w1 & E & Hw1); unfold w2; tas; fold ta; try done; [apply u8_range|rewrite u8_small; lia|
      apply u32_range|].
    assert (Er : ta_error_reason (aw_ta w2 p) = ta_error_reason ta) by (unfold w2; by tas).
    rewrite Er in E. exists w1. split; [exact E|].
    rewrite Hw1. unfold w2. tas. fold ta. rewrite u32_add_l. f_equal. lia.
Qed.

(** A silent sensor is noticed.  When no sample arrives, the watchdog of an
    armed trigger fires the trsync object with the monitor error exactly
    [monitor_max + 1] periods after the event that follows the last sample,
    provided [monitor_max] is below 255. *)
Theorem monitor_notices_silence c fuel p w ts :
  let ta := aw_ta w p in
  has TA_CAN_TRIGGER (ta_flags ta) = true -> ta_ts ta = Some ts ->
  monitor_count ta = 0 -> monitor_max ta = Z.of_nat c -> Z.of_nat c < 0xff -> 0 <= ta_wake p w < 0x100000000 ->
  exists w1, monitor_run (S (S c)) fuel p w =
      (zoom aw_ts (trsync_do_trigger call fuel ts (u8 (ta_error_reason ta + TE_MONITOR)));;; ret true) w1 /\
    ta_wake p w1 = u32 (ta_wake p w + (monitor_max ta + 1) * monitor_ticks ta).
Proof.
  intros ta Hf Hts H0 Hm Hc Hw.
  destruct (monitor_run_silent (S c) fuel p w ts) as (w1 & E & H1); fold ta; [done|done|lia|lia|lia|done|].
  exists w1. split; [exact E|]. rewrite H1. fold ta. do 2 f_equal. lia.
Qed.

(** ** The trigger condition *)

(** The conditions over the integers; [peak] is the largest value so far. *)
Definition fires (ta : trigger_analog) (peak v : Z) : bool :=
  if trigger_type ta =? TT_ABS_GE then trigger_value ta <=? Z.abs v
  else if trigger_type ta =? TT_GT then trigger_value ta <? v
  else if trigger_type ta =? TT_DIFF_PEAK_GT then trigger_value ta <? Z.max peak v - v
  else false.
Definition next_peak (ta : trigger_analog) (peak v : Z) : Z :=
  if trigger_type ta =? TT_DIFF_PEAK_GT then Z.max peak v else peak.

(** The values for which the comparisons of the code are exact. *)
Definition value_ok (ta : trigger_analog) (peak v : Z) : Prop :=
  is_int32 v = true /\ is_int32 (trigger_value ta) = true /\
  (trigger_type ta <> TT_GT -> 0 <= trigger_value ta) /\
  (trigger_type ta = TT_ABS_GE -> is_int32 (- v) = true) /\
  (trigger_type ta = TT_DIFF_PEAK_GT -> is_int32 (Z.max peak v - v) = true).

Lemma check_trigger_spec p time v w :
  value_ok (aw_ta w p) (trigger_peak (aw_ta w p)) v ->
  exists w', check_trigger p time v w = Ret (b2z (fires (aw_ta w p) (trigger_peak (aw_ta w p)) v)) w' /\
    aw_ts w' = aw_ts w /\ aw_sf w' = aw_sf w /\
    aw_ta w' p = (aw_ta w p) <| trigger_peak := next_peak (aw_ta w p) (trigger_peak (aw_ta w p)) v |>.
Proof.
  set (ta := aw_ta w p). intros (Hv & Ht & Hpos & Habs & Hdiff). apply is_int32_spec in Hv, Ht.
  unfold check_trigger, fires, next_peak. fold ta.
  assert (Hid : ta <| trigger_peak := trigger_peak ta |> = ta) by (by destruct ta).
  destruct (Z.eqb_spec (trigger_type ta) TT_ABS_GE) as [E|E].
  { specialize (Hpos ltac:(rewrite E; done)). specialize (Habs E). apply is_int32_spec in Habs. rewrite E.
    change (TT_ABS_GE =? TT_DIFF_PEAK_GT) with false. cbv iota. rewrite Hid. exists w. split; [|done].
    unfold bind, ret. destruct (Z.ltb_spec v 0); [rewrite int_op_run by (by apply is_int32_spec)|];
      rewrite !u32_small by lia; do 2 f_equal; lia. }
  destruct (Z.eqb_spec (trigger_type ta) TT_GT) as [E2|E2].
  { rewrite E2. change (TT_GT =? TT_DIFF_PEAK_GT) with false. cbv iota. rewrite Hid. by exists w. }
  destruct (Z.eqb_spec (trigger_type ta) TT_DIFF_PEAK_GT) as [E3|E3]; [|cbv iota; rewrite Hid; by exists w].
  specialize (Hpos E2). specialize (Hdiff E3). apply is_int32_spec in Hdiff.
  destruct (Z.ltb_spec (trigger_peak ta) v).
  - rewrite (proj2 (Z.ltb_ge _ (_ - _))) by lia. eexists. split; [reflexivity|split_and!; [done|done|]].
    tas. fold ta. by rewrite Z.max_r by lia.
  - rewrite Z.max_l in * by lia. unfold bind, ret. rewrite int_op_run by (apply is_int32_spec; lia).
    rewrite Hid. exists w. split; [|done]. by rewrite !u32_small by lia.
Qed.

(** ** A homing move *)

(** The trigger after it has fired at [time]. *)
Definition disarm (p time : Z) : taw -> taw :=
  fun w => upd_ta p (fun t => t <| ta_flags := 0 |>) (upd_ta p (fun t => t <| homing_clock := time |>) w).

(** A sample taken after the start of homing, inside the raw range, that the
    filter and the trigger condition process without overflow. *)
Definition sample_ok (ta : trigger_analog) (sf : sos_filter) (peak : Z) (x : Z * Z) : Prop :=
  timer_is_before x.1 (homing_clock ta) = false /\ is_int32 x.2 = true /\
  raw_min ta <= x.2 <= raw_max ta /\ filter_fits sf x.2 = true /\
  value_ok ta peak (ideal_filter sf x.2).1.

Lemma has_can_trigger fl : has TA_CAN_TRIGGER (Z.land fl (Z.lnot TA_AWAIT_HOMING)) = has TA_CAN_TRIGGER fl.
Proof. unfold has. by rewrite <- Z.land_assoc. Qed.

Lemma trigger_analog_update_step fuel p ts x w :
  let ta := aw_ta w p in
  let sf := aw_sf w (ta_sf ta) in
  let v := (ideal_filter sf x.2).1 in
  has TA_CAN_TRIGGER (ta_flags ta) = true -> ta_ts ta = Some ts -> sos_wf sf -> sample_ok ta sf (trigger_peak ta) x ->
  exists w1, aw_ts w1 = aw_ts w /\ aw_sf w1 = <[ta_sf ta := (ideal_filter sf x.2).2]> (aw_sf w) /\
    aw_ta w1 p = ta <| monitor_count := 0 |> <| trigger_peak := next_peak ta (trigger_peak ta) v |> /\
    trigger_analog_update fuel x.1 (Some p) x.2 w =
      if fires ta (trigger_peak ta) v
      then (zoom aw_ts (trsync_do_trigger call fuel ts (u8 (ta_trigger_reason ta)));;; modify (disarm p x.1)) w1
      else Ret tt (upd_ta p (fun t => t <| ta_flags := Z.land (ta_flags ta) (Z.lnot TA_AWAIT_HOMING) |>) w1).
Proof.
  intros ta sf v Hf Hts Hwf (Ht & Hi & Hr & Hfit & Hv). unfold trigger_analog_update. fold ta.
  rewrite Hf, Ht, andb_false_r. cbn [negb]. unfold bind at 1, monitor_note_activity, modify at 1.
  set (w0 := upd_ta p _ w). replace ((x.2 <? raw_min ta) || (raw_max ta <? x.2)) with false by lia.
  unfold bind at 1, run_filter. change (aw_sf w0) with (aw_sf w). fold sf.
  rewrite (apply_fits sf x.2) by done. cbn [fst snd]. fold v. change (truthy 0) with false. cbv iota.
  set (w2 := w0 <| aw_sf ::= _ |>).
  assert (E2 : aw_ta w2 p = ta <| monitor_count := 0 |>).
  { unfold w2, w0. cbn [aw_ta set]. by rewrite upd_ta_same. }
  destruct (check_trigger_spec p x.1 v w2) as (w1 & E & H1 & H2 & H3); [by rewrite E2|].
  rewrite E2 in E, H3. exists w1. split_and!; [by rewrite H1|by rewrite H2|by rewrite H3|].
  unfold bind at 1. rewrite E.
  change (fires (ta <| monitor_count := 0 |>) _ v) with (fires ta (trigger_peak ta) v).
  destruct (fires ta (trigger_peak ta) v); cbn [b2z]; [|done]. change (truthy 1) with true. cbv iota.
  unfold do_trigger. rewrite Hts. unfold bind, modify, disarm. by destruct (zoom _ _ _).
Qed.

(** Samples with the clocks at which they are handled. *)
Fixpoint homing_run (fuel : nat) (p : Z) (l : list (Z * Z)) : M taw unit :=
  match l with
  | [] => ret tt
  | x :: l => trigger_analog_update fuel x.1 (Some p) x.2;;; homing_run fuel p l
  end.

Fixpoint samples_ok (ta : trigger_analog) (sf : sos_filter) (peak : Z) (l : list (Z * Z)) : Prop :=
  match l with
  | [] => True
  | x :: l =>
    let '(v, sf') := ideal_filter sf x.2 in
    sample_ok ta sf peak x /\ (fires ta peak v = false -> samples_ok ta sf' (next_peak ta peak v) l)
  end.

(** The clock of the first sample whose filtered value meets the condition. *)
Fixpoint first_fire (ta : trigger_analog) (sf : sos_filter) (peak : Z) (l : list (Z * Z)) : option Z :=
  match l with
  | [] => None
  | x :: l =>
    let '(v, sf') := ideal_filter sf x.2 in
    if fires ta peak v then Some x.1 else first_fire ta sf' (next_peak ta peak v) l
  end.

Lemma homing_run_off fuel p l w :
  has TA_CAN_TRIGGER (ta_flags (aw_ta w p)) = false -> homing_run fuel p l w = Ret tt w.
Proof.
  intros Hf. induction l as [|x l IH]; [done|]. cbn [homing_run]. unfold bind, trigger_analog_update.
  by rewrite Hf.
Qed.

Lemma homing_run_first fuel p ts ta l w a b c :
  aw_ta w p = ta <| monitor_count := a |> <| trigger_peak := b |> <| ta_flags := c |> ->
  has TA_CAN_TRIGGER c = true -> ta_ts ta = Some ts ->
  sos_wf (aw_sf w (ta_sf ta)) -> samples_ok ta (aw_sf w (ta_sf ta)) b l ->
  exists w1, aw_ts w1 = aw_ts w /\
    match first_fire ta (aw_sf w (ta_sf ta)) b l with
    | None => homing_run fuel p l w = Ret tt w1 /\ has TA_CAN_TRIGGER (ta_flags (aw_ta w1 p)) = true
    | Some time => homing_run fuel p l w =
        (zoom aw_ts (trsync_do_trigger call fuel ts (u8 (ta_trigger_reason ta)));;; modify (disarm p time)) w1
    end.
Proof.
  revert w a b c. induction l as [|x l IH]; intros w a b c Eta Hf Hts Hwf Hok.
  { exists w. split; [done|]. cbn. rewrite Eta. done. }
  cbn [samples_ok first_fire homing_run] in *.
  destruct (trigger_analog_update_step fuel p ts x w) as (w1 & H1 & H2 & H3 & E); rewrite ?Eta in *;
    cbn [ta_sf ta_flags ta_ts trigger_peak set] in *; [done|done|done| |].
  { destruct (ideal_filter _ x.2) as [v sf'] eqn:Ei. destruct Hok as [(? & ? & ? & ? & ?) _].
    unfold sample_ok. by rewrite Ei in *. }
  set (sf := aw_sf w (ta_sf ta)) in *. pose proof (ideal_filter_wf sf x.2) as Hwf'.
  destruct (ideal_filter sf x.2) as [v sf'] eqn:Ei. cbn [fst snd] in *. destruct Hok as [Hs Hok].
  change (fires (set _ _ _) b v) with (fires ta b v) in E.
  destruct (fires ta b v) eqn:Ef.
  - exists w1. split; [done|]. unfold bind at 1. rewrite E. unfold bind. destruct (zoom _ _ _) as [[] w2| |]; [|done..].
    unfold modify at 1. apply homing_run_off. unfold disarm. by tas.
  - set (w2 := upd_ta p _ w1) in E.
    assert (Er : (trigger_analog_update fuel x.1 (Some p) x.2;;; homing_run fuel p l) w = homing_run fuel p l w2).
    { unfold bind. by rewrite E. }
    rewrite Er. assert (E2 : aw_sf w2 (ta_sf ta) = sf').
    { unfold w2. rewrite upd_ta_sf, H2. apply fn_lookup_insert. }
    destruct (IH w2 0 (next_peak ta b v) (Z.land c (Z.lnot TA_AWAIT_HOMING))) as (w3 & G1 & G2).
    + unfold w2. rewrite upd_ta_same, H3. done.
    + by rewrite has_can_trigger.
    + done.
    + rewrite E2. apply Hwf'; [|done]. by destruct Hs as (_ & _ & _ & ? & _).
    + rewrite E2. by apply Hok.
    + rewrite E2 in G2. exists w3. split; [by rewrite G1|exact G2].
Qed.

(** C30: analog homing is exact.  For samples that are taken after the start of
    homing, lie in the raw range and do not overflow the filter, an armed
    trigger fires its trsync object exactly once, with its reason, at the
    first sample whose exactly filtered value meets the trigger condition
    (for [TT_DIFF_PEAK_GT] relative to the largest filtered value so far),
    records the clock of that sample and ignores the ones behind it; if there
    is none it stays armed. *)
Theorem analog_homing_exact fuel p ts l w :
  let ta := aw_ta w p in
  let sf := aw_sf w (ta_sf ta) in
  has TA_CAN_TRIGGER (ta_flags ta) = true -> ta_ts ta = Some ts -> sos_wf sf ->
  samples_ok ta sf (trigger_peak ta) l ->
  exists w1, aw_ts w1 = aw_ts w /\
    match first_fire ta sf (trigger_peak ta) l with
    | None => homing_run fuel p l w = Ret tt w1 /\ has TA_CAN_TRIGGER (ta_flags (aw_ta w1 p)) = true
    | Some time => homing_run fuel p l w =
        (zoom aw_ts (trsync_do_trigger call fuel ts (u8 (ta_trigger_reason ta)));;; modify (disarm p time)) w1
    end.
Proof.
  intros ta sf Hf Hts Hwf Hok.
  apply (homing_run_first fuel p ts ta l w (monitor_count ta) (trigger_peak ta) (ta_flags ta)); try done.
  fold ta. by destruct ta.
Qed.

(** A bad sample stops homing.  A sample outside the raw range, one the
    filter reports an overflow for, or an error the sensor reports, fires the
    trsync object of an armed trigger with its own error reason, and disarms
    the trigger. *)
Theorem analog_faults_stop fuel p ts time sample w :
  let ta := aw_ta w p in
  has TA_CAN_TRIGGER (ta_flags ta) = true -> ta_ts ta = Some ts ->
  let stops (code : Z) (o : outcome taw unit) := exists w1, aw_ts w1 = aw_ts w /\ ta_flags (aw_ta w1 p) = 0 /\
    o = zoom aw_ts (trsync_do_trigger call fuel ts (u8 (ta_error_reason ta + code))) w1 in
  (forall code, stops (u8 (code + TE_SENSOR_SPECIFIC)) (trigger_analog_note_error fuel (Some p) code w)) /\
  (timer_is_before time (homing_clock ta) = false ->
   (sample < raw_min ta \/ raw_max ta < sample ->
    stops TE_RAW_RANGE (trigger_analog_update fuel time (Some p) sample w)) /\
   (raw_min ta <= sample <= raw_max ta -> forall v sf',
    sos_filter_apply sample (aw_sf w (ta_sf ta)) = Ret (-1, v) sf' ->
    stops TE_OVERFLOW (trigger_analog_update fuel time (Some p) sample w))).
Proof.
  intros ta Hf Hts stops.
  assert (Hcancel : forall code w0, aw_ts w0 = aw_ts w -> (exists c, aw_ta w0 p = ta <| monitor_count := c |>) ->
    stops code (cancel_homing fuel p code w0)).
  { intros code w0 H1 [c H2]. unfold cancel_homing. rewrite H2. cbn [ta_flags ta_ts ta_error_reason set].
    rewrite Hf. cbn [negb]. unfold bind, modify, do_trigger. rewrite Hts.
    exists (upd_ta p (fun t => t <| ta_flags := 0 |>) w0). split_and!; [by tas|by tas|done]. }
  split_and!.
  - intros code. apply Hcancel; [done|]. exists (monitor_count ta). fold ta. by destruct ta.
  - intros Ht. unfold trigger_analog_update. fold ta. rewrite Hf, Ht, andb_false_r. cbn [negb].
    set (w0 := upd_ta p (fun t => t <| monitor_count := 0 |>) w).
    assert (E0 : aw_ta w0 p = ta <| monitor_count := 0 |>) by (unfold w0; by tas).
    split.
    + intros Hr. replace ((sample <? raw_min ta) || (raw_max ta <? sample)) with true by lia.
      by apply (Hcancel _ w0); [|eauto].
    + intros Hr v sf' E. replace ((sample <? raw_min ta) || (raw_max ta <? sample)) with false by lia.
      unfold bind at 1, monitor_note_activity, modify. fold w0.
      unfold bind at 1, run_filter. change (aw_sf w0) with (aw_sf w). rewrite E. cbn [fst].
      change (truthy (-1)) with true. cbv iota. apply Hcancel; [done|eauto].
Qed.
End trigger_analog.
Arguments taw : clear implicits.

(** ** Examples *)

(** A trigger on a drop of more than 20 below the peak, with an identity filter,
    watched every 500 ticks. *)
Definition demo_sensor : taw unit :=
  mk_taw (mk_tsw basecmd_init (fun _ => mk_trsync 0 None TSF_CAN_TRIGGER 0 0)
            (fun _ => mk_trsync_signal None None) 0 tt)
    (fun _ => mk_trigger_analog (-1000) 1000 0x40 20 INT32_MIN TT_DIFF_PEAK_GT
                (Z.lor TA_AWAIT_HOMING TA_CAN_TRIGGER) 2 5 (Some 0x80) 100 3 0 500)
    (fun _ => mk_sos_filter 0 0 0 0 0 0 1 []).
Definition no_call (f t r : Z) : M (tsw unit) unit := ret tt.
Definition demo_samples : list (Z * Z) := [(110, 0); (120, 50); (130, 40); (140, 25); (150, 90)].

Lemma demo_sensor_wf : sos_wf (aw_sf demo_sensor 0x40).
Proof. constructor; cbn; try lia; try done; constructor. Qed.

Lemma demo_samples_ok :
  samples_ok (aw_ta demo_sensor 0) (aw_sf demo_sensor 0x40) (trigger_peak (aw_ta demo_sensor 0)) demo_samples.
Proof.
  unfold demo_samples.
  repeat (cbn [samples_ok snd];
    match goal with |- context [ideal_filter ?f ?x] =>
      let r := eval vm_compute in (ideal_filter f x) in change (ideal_filter f x) with r end;
    cbv beta iota zeta; split; [unfold sample_ok, value_ok; vm_compute; by split_and!|]; vm_compute fires;
    try discriminate; intros _; vm_compute next_peak).
Qed.

Lemma analog_homing_exact_witness :
  exists w1, aw_ts w1 = aw_ts demo_sensor /\
    homing_run no_call 9 0 demo_samples demo_sensor =
      (zoom aw_ts (trsync_do_trigger no_call 9 0x80 2);;; modify (disarm 0 140)) w1.
Proof.
  apply (analog_homing_exact no_call 9 0 0x80 demo_samples demo_sensor).
  - reflexivity.
  - reflexivity.
  - exact demo_sensor_wf.
  - exact demo_samples_ok.
Defined.

Lemma monitor_notices_silence_witness :
  exists w1, monitor_run no_call 0 5 9 0 demo_sensor =
      (zoom aw_ts (trsync_do_trigger no_call 9 0x80 7);;; ret true) w1 /\ ta_wake 0 0 w1 = 2000.
Proof.
  apply (monitor_notices_silence no_call 0 3 9 0 demo_sensor 0x80); try reflexivity. vm_compute; split; discriminate || reflexivity.
Defined.

Lemma analog_faults_stop_witness :
  exists w1, aw_ts w1 = aw_ts demo_sensor /\ ta_flags (aw_ta w1 0) = 0 /\
    trigger_analog_update no_call 9 200 (Some 0) 1001 demo_sensor =
      zoom aw_ts (trsync_do_trigger no_call 9 0x80 5) w1.
Proof.
  apply (analog_faults_stop no_call 9 0 0x80 200 1001 demo_sensor).
  - reflexivity.
  - reflexivity.
  - reflexivity.
  - right. reflexivity.
Defined.
