(* ===== verification/Adccmds.v ===== *)
(** * Analog inputs (src/adccmds.c)

    A timer sums up [sample_count] readings of a pin, checks the sum against a
    range, and a task reports it.  The results of [gpio_adc_sample] and
    [gpio_adc_read] in the [n]-th timer event are [delay n] and [reading n]. *)

From S2P Require Import Prelude Command Clock Sched Basecmd Trsync SosFilter TriggerAnalog.

(** ** Data *)

Record analog_in := mk_analog_in {
  ai_rest_time : Z;
  ai_sample_time : Z;
  next_begin_time : Z;
  ai_value : Z;
  min_value : Z;
  max_value : Z;
  ai_pin : Z;
  invalid_count : Z;
  range_check_count : Z;
  ai_state : Z;
  ai_sample_count : Z;
  bytes_per_report : Z;
  data_count : Z;
  ai_data : list Z;
  ai_ta : option Z }.
#[export] Instance eta_analog_in : Eta analog_in := fun a =>
  mk_analog_in (ai_rest_time a) (ai_sample_time a) (next_begin_time a) (ai_value a) (min_value a) (max_value a)
    (ai_pin a) (invalid_count a) (range_check_count a) (ai_state a) (ai_sample_count a) (bytes_per_report a)
    (data_count a) (ai_data a) (ai_ta a).

Definition DATA_SIZE : nat := 48.
Definition BYTES_PER_SAMPLE : Z := 2.

Section adccmds.
Context {A : Type}.

Record adw := mk_adw {
  ad_ta : taw A;
  ad_obj : Z -> analog_in;
  analog_wake : Z;
  ad_events : nat }.
#[export] Instance eta_adw : Eta adw := fun w => mk_adw (ad_ta w) (ad_obj w) (analog_wake w) (ad_events w).

Context (call : Z -> Z -> Z -> M (tsw A) unit) (delay reading : nat -> Z).
Context (dynmem_end sizeof_ptr sizeof_analog_in : Z).
Context (command_config_analog_in_type command_config_trigger_analog_type : Z).

Definition ad_base (w : adw) : basecmd := tw_base (aw_ts (ad_ta w)).
Definition ad_timer (p : Z) : tid := T_user (Z.to_nat p).
Definition ad_wake (p : Z) (w : adw) : Z := wake (bc_sched (ad_base w)) (ad_timer p).

Abbreviation ad_base_op m := (zoom ad_ta (zoom aw_ts (zoom tw_base m))).

Definition set_ad_wake (p v : Z) : M adw unit :=
  ad_base_op (zoom bc_sched (modify (fun s => s <| timers ::= set_waketime (ad_timer p) v |>))).
Definition upd_ai (p : Z) (g : analog_in -> analog_in) : M adw unit :=
  modify (fun w => w <| ad_obj ::= fun m => <[p := g (m p)]> m |>).

(** ** Sampling *)

(** [sched_wake_task(&analog_wake)] *)
Definition wake_analog : M adw unit := fun w =>
  let '(s, v) := sched_wake_task (bc_sched (ad_base w)) (analog_wake w) in
  (ad_base_op (zoom bc_sched (modify (fun _ => s)));;; modify (fun w => w <| analog_wake := v |>)) w.

(** The check of a completed sum. *)
Definition check_range (p : Z) : M adw unit := fun w =>
  let a := ad_obj w p in
  if (min_value a <=? ai_value a) && (ai_value a <=? max_value a)
  then upd_ai p (fun a => a <| invalid_count := 0 |>) w
  else
    (upd_ai p (fun a => a <| invalid_count := u8 (invalid_count a + 1) |>);;;
     (when range_check_count a <=? u8 (invalid_count a + 1) then
        (ad_base_op (zoom bc_sched (sched_try_shutdown "ADC out of range"));;;
         upd_ai p (fun a => a <| invalid_count := 0 |>)))) w.

Definition analog_in_event (p : Z) : M adw Z := fun w =>
  let n := ad_events w in
  let w := w <| ad_events := S n |> in
  let a := ad_obj w p in
  if truthy (delay n) then (set_ad_wake p (u32 (ad_wake p w + delay n));;; ret SF_RESCHEDULE) w
  else
    let value := u16 (reading n) in
    let '(state, value) := if ai_sample_count a <=? ai_state a then (0, value)
                           else (ai_state a, u16 (value + ai_value a)) in
    (upd_ai p (fun a => a <| ai_value := value |> <| ai_state := u8 (state + 1) |>);;;
     if u8 (state + 1) <? ai_sample_count a
     then set_ad_wake p (u32 (ad_wake p w + ai_sample_time a));;; ret SF_RESCHEDULE
     else
       check_range p;;;
       wake_analog;;;
       let next := u32 (next_begin_time a + ai_rest_time a) in
       upd_ai p (fun a => a <| next_begin_time := next |>);;;
       set_ad_wake p next;;;
       ret SF_RESCHEDULE) w.

(** ** Commands *)

Definition command_config_analog_in (oid pin : Z) : M adw unit :=
  p <- ad_base_op (oid_alloc dynmem_end sizeof_ptr (u8 oid) command_config_analog_in_type sizeof_analog_in);;
  upd_ai p (fun _ => mk_analog_in 0 0 0 0 0 0 pin 0 0 1 0 0 0 (replicate DATA_SIZE 0) None).

(** [now] is the clock [sched_add_timer] reads. *)
Definition command_query_analog_in (fuel : nat) (now oid clock sample_ticks count rest_ticks bytes mn mx check : Z)
    : M adw unit :=
  p <- ad_base_op (oid_lookup (u8 oid) command_config_analog_in_type);;
  ad_base_op (zoom bc_sched (sched_del_timer fuel (ad_timer p)));;;
  upd_ai p (fun a => a <| next_begin_time := clock |>);;;
  set_ad_wake p clock;;;
  upd_ai p (fun a => a <| ai_sample_time := sample_ticks |> <| ai_sample_count := u8 count |>
    <| ai_state := u8 (u8 count + 1) |> <| ai_rest_time := rest_ticks |> <| bytes_per_report := u8 bytes |>
    <| data_count := 0 |> <| min_value := u16 mn |> <| max_value := u16 mx |> <| range_check_count := u8 check |>);;;
  if negb (truthy (u8 count)) then ret tt
  else if Z.of_nat DATA_SIZE <? u8 bytes then shutdown "Invalid analog_in bytes_per_report"
  else ad_base_op (zoom bc_sched (sched_add_timer fuel now (ad_timer p))).

Definition command_analog_in_attach_trigger_analog (oid trigger_analog_oid : Z) : M adw unit :=
  p <- ad_base_op (oid_lookup (u8 oid) command_config_analog_in_type);;
  ta <- zoom ad_ta (trigger_analog_oid_lookup command_config_trigger_analog_type trigger_analog_oid);;
  upd_ai p (fun a => a <| ai_ta := Some ta |>).

(** ** Reporting *)

(** [a->data[i] = v] *)
Definition store_data (p i v : Z) : M adw unit := fun w =>
  if (0 <=? i) && (i <? Z.of_nat DATA_SIZE)
  then upd_ai p (fun a => a <| ai_data ::= <[Z.to_nat i := u8 v]> |>) w
  else Crash w.

(** The section of the task with interrupts disabled: nothing when no sum is
    ready, otherwise the sum and the time of the next one. *)
Definition take_value (p : Z) : M adw (option (Z * Z)) := fun w =>
  let a := ad_obj w p in
  if negb (ai_state a =? ai_sample_count a) then Ret None w
  else (upd_ai p (fun a => a <| ai_state := u8 (ai_state a + 1) |>);;;
        ret (Some (ai_value a, next_begin_time a))) w.

(** The rest of the loop body for the sum [value]; [time] is the clock
    [trigger_analog_update] reads. *)
Definition report_value (fuel : nat) (time oid p value next_begin : Z) : M adw unit := fun w =>
  (zoom ad_ta (trigger_analog_update call fuel time (ai_ta (ad_obj w p)) value);;;
   (fun w =>
      let dc := data_count (ad_obj w p) in
      (store_data p dc value;;;
       store_data p (dc + 1) (Z.shiftr value 8);;;
       upd_ai p (fun a => a <| data_count := u8 (dc + BYTES_PER_SAMPLE) |>);;;
       (fun w =>
          let a := ad_obj w p in
          if bytes_per_report a <? data_count a + BYTES_PER_SAMPLE then
            (ad_base_op (sendf "analog_in_state oid=%c next_clock=%u values=%*s"
               [VInt oid; VInt next_begin; VBuffer (data_count a) (ai_data a)]);;;
             upd_ai p (fun a => a <| data_count := 0 |>)) w
          else Ret tt w)) w)) w.

Definition analog_in_task_one (fuel : nat) (time : Z -> Z) (oid p : Z) : M adw unit :=
  r <- take_value p;;
  match r with
  | None => ret tt
  | Some (value, next_begin) => report_value fuel (time oid) oid p value next_begin
  end.

Definition analog_in_task (fuel : nat) (time : Z -> Z) : M adw unit := fun w =>
  let '(r, v) := sched_check_wake (analog_wake w) in
  let w := w <| analog_wake := v |> in
  if negb (truthy r) then Ret tt w
  else foreach_oid ad_base command_config_analog_in_type (analog_in_task_one fuel time) w.

Definition analog_in_shutdown_one (fuel : nat) (now p : Z) : M adw unit :=
  upd_ai p (fun a => a <| ai_ta := None |>);;;
  (fun w =>
     let a := ad_obj w p in
     if truthy (ai_sample_count a) then
       let next := u32 (next_begin_time a + ai_rest_time a) in
       (upd_ai p (fun a => a <| ai_state := u8 (ai_sample_count a + 1) |> <| next_begin_time := next |>);;;
        set_ad_wake p next;;;
        ad_base_op (zoom bc_sched (sched_add_timer fuel now (ad_timer p)))) w
     else Ret tt w).
Definition analog_in_shutdown (fuel : nat) (now : Z) : M adw unit :=
  foreach_oid ad_base command_config_analog_in_type (fun _ p => analog_in_shutdown_one fuel now p).

(** ** One timer event *)

Definition not_shutdown (w : adw) : Prop := shutdown_status (bc_sched (ad_base w)) = 0.

(** The fields that sampling reads and does not change, with the count of
    consecutive sums out of range. *)
Definition setup (a : analog_in) : Z * Z * Z * Z := (ai_sample_count a, range_check_count a, min_value a, max_value a).

Lemma upd_ai_run p g w : exists w', upd_ai p g w = Ret tt w' /\ ad_obj w' p = g (ad_obj w p) /\
  ad_events w' = ad_events w /\ ad_ta w' = ad_ta w.
Proof. eexists. split; [reflexivity|]. cbn. by rewrite fn_lookup_insert. Qed.

Lemma set_ad_wake_run p v w : exists w', set_ad_wake p v w = Ret tt w' /\ ad_obj w' = ad_obj w /\
  ad_events w' = ad_events w /\ (not_shutdown w -> not_shutdown w').
Proof. by eexists. Qed.

Lemma wake_analog_run w : exists w', wake_analog w = Ret tt w' /\ ad_obj w' = ad_obj w /\
  ad_events w' = ad_events w /\ (not_shutdown w -> not_shutdown w').
Proof. by eexists. Qed.

Definition in_range (a : analog_in) (s : Z) : bool := (min_value a <=? s) && (s <=? max_value a).

(** The count after a sum, or [None] for a shutdown. *)
Definition next_invalid (a : analog_in) (s : Z) : option Z :=
  if in_range a s then Some 0
  else if range_check_count a <=? invalid_count a + 1 then None else Some (invalid_count a + 1).

Lemma check_range_run p w :
  not_shutdown w -> 0 <= invalid_count (ad_obj w p) < 0xff ->
  match next_invalid (ad_obj w p) (ai_value (ad_obj w p)) with
  | Some c => exists w', check_range p w = Ret tt w' /\ ad_obj w' p = (ad_obj w p) <| invalid_count := c |> /\
      ad_events w' = ad_events w /\ not_shutdown w'
  | None => exists w', check_range p w = Halt "ADC out of range" w'
  end.
Proof.
  intros Hs Hi. unfold next_invalid, check_range, in_range. destruct (_ && _).
  - destruct (upd_ai_run p (fun a => a <| invalid_count := 0 |>) w) as (w' & E & E1 & E2 & E3).
    exists w'. split_and!; try done. unfold not_shutdown, ad_base in *. by rewrite E3.
  - rewrite u8_small by lia.
    destruct (upd_ai_run p (fun a => a <| invalid_count := u8 (invalid_count a + 1) |>) w) as (w' & E & E1 & E2 & E3).
    rewrite u8_small in E1 by lia.
    assert (Hs' : not_shutdown w') by (unfold not_shutdown, ad_base in *; by rewrite E3).
    destruct (range_check_count _ <=? _); unfold bind at 1; rewrite E; [|by exists w'].
    unfold bind, zoom, sched_try_shutdown. unfold not_shutdown, ad_base in Hs'. rewrite Hs'. cbn. by eexists.
Qed.

(** [j] readings with the sum [acc] have been added up. *)
Definition progress (w : adw) (p j acc : Z) : Prop :=
  let a := ad_obj w p in
  0 <= j < ai_sample_count a /\ ai_sample_count a < 0xff /\
  (if j =? 0 then ai_sample_count a <= ai_state a /\ acc = 0 else ai_state a = j /\ ai_value a = u16 acc).

Lemma take_progress p w j acc :
  progress w p j acc -> exists r w', take_value p w = Ret r w' /\ progress w' p j acc /\
    (exists st, ad_obj w' p = (ad_obj w p) <| ai_state := st |>) /\ ad_events w' = ad_events w /\ ad_ta w' = ad_ta w.
Proof.
  intros (H1 & H2 & H3). unfold take_value. destruct (Z.eqb_spec (ai_state (ad_obj w p)) (ai_sample_count (ad_obj w p))) as [E|E]; cbn [negb].
  - eexists _, _. split; [reflexivity|]. unfold progress. cbn [ad_obj ad_events ad_ta set]. rewrite fn_lookup_insert.
    cbn [ai_sample_count ai_state ai_value set]. split; [split; [done|split; [done|]]|split; [by eexists|done]].
    rewrite E. destruct (Z.eqb_spec j 0) as [->|Hj]; [|lia]. rewrite u8_small by lia. lia.
  - exists None, w. split_and!; try done. exists (ai_state (ad_obj w p)). by destruct (ad_obj w p).
Qed.

(** One reading: the sum goes on, or it is complete and checked. *)
Lemma event_progress p w j acc :
  delay (ad_events w) = 0 -> not_shutdown w -> 0 <= invalid_count (ad_obj w p) < 0xff -> progress w p j acc ->
  let a := ad_obj w p in
  let sum := acc + u16 (reading (ad_events w)) in
  (j + 1 < ai_sample_count a ->
     exists w', analog_in_event p w = Ret SF_RESCHEDULE w' /\ progress w' p (j + 1) sum /\
       setup (ad_obj w' p) = setup a /\ invalid_count (ad_obj w' p) = invalid_count a /\
       ad_events w' = S (ad_events w) /\ not_shutdown w') /\
  (j + 1 = ai_sample_count a ->
     match next_invalid a (u16 sum) with
     | Some c => exists w', analog_in_event p w = Ret SF_RESCHEDULE w' /\ progress w' p 0 0 /\
         setup (ad_obj w' p) = setup a /\ invalid_count (ad_obj w' p) = c /\
         ai_value (ad_obj w' p) = u16 sum /\ ai_state (ad_obj w' p) = ai_sample_count a /\
         next_begin_time (ad_obj w' p) = u32 (next_begin_time a + ai_rest_time a) /\
         ad_events w' = S (ad_events w) /\ not_shutdown w'
     | None => exists w', analog_in_event p w = Halt "ADC out of range" w'
     end).
Proof.
  clear call. intros Hd Hs Hi (H1 & H2 & H3) a sum. fold a in H1, H2, H3, Hi.
  assert (Est : (if ai_sample_count a <=? ai_state a then (0, u16 (reading (ad_events w)))
                 else (ai_state a, u16 (u16 (reading (ad_events w)) + ai_value a))) = (j, u16 sum)).
  { unfold sum. destruct (Z.eqb_spec j 0) as [->|Hj].
    - destruct H3 as [H3 ->]. rewrite (proj2 (Z.leb_le _ _)) by done. by rewrite Z.add_0_l, u16_idemp.
    - destruct H3 as [-> ->]. rewrite (proj2 (Z.leb_gt _ _)) by lia. f_equal. word. }
  set (w0 := w <| ad_events := S (ad_events w) |>).
  destruct (upd_ai_run p (fun a => a <| ai_value := u16 sum |> <| ai_state := j + 1 |>) w0) as (w1 & E1 & O1 & N1 & T1).
  change (ad_obj w0 p) with a in O1. assert (S1 : not_shutdown w1) by (unfold not_shutdown, ad_base; by rewrite T1).
  assert (Ee : analog_in_event p w = (if j + 1 <? ai_sample_count a
    then set_ad_wake p (u32 (ad_wake p w0 + ai_sample_time a));;; ret SF_RESCHEDULE
    else check_range p;;; wake_analog;;;
         let next := u32 (next_begin_time a + ai_rest_time a) in
         upd_ai p (fun a => a <| next_begin_time := next |>);;; set_ad_wake p next;;; ret SF_RESCHEDULE) w1).
  { unfold analog_in_event. fold w0. change (ad_obj w0 p) with a. rewrite Hd. change (truthy 0) with false. cbv iota.
    rewrite Est. unfold bind at 1. rewrite u8_small by lia. by rewrite E1. }
  rewrite Ee. split; intros Hj.
  - rewrite (proj2 (Z.ltb_lt _ _)) by done. unfold bind.
    destruct (set_ad_wake_run p (u32 (ad_wake p w0 + ai_sample_time a)) w1) as (w2 & -> & O2 & N2 & S2).
    exists w2. unfold progress. rewrite O2, O1, N2, N1. split_and!; try done; try lia; [|auto].
    rewrite (proj2 (Z.eqb_neq _ _)) by lia. done.
  - rewrite (proj2 (Z.ltb_ge _ _)) by lia. pose proof (check_range_run p w1 S1) as Hc. rewrite O1 in Hc.
    cbn [invalid_count ai_value set] in Hc. specialize (Hc Hi).
    change (next_invalid (set _ _ _) (u16 sum)) with (next_invalid a (u16 sum)) in Hc.
    destruct (next_invalid a (u16 sum)) as [c|].
    + destruct Hc as (w2 & E2 & O2 & N2 & S2). unfold bind at 1. rewrite E2.
      destruct (wake_analog_run w2) as (w3 & E3 & O3 & N3 & S3). unfold bind at 1. rewrite E3. cbv zeta.
      destruct (upd_ai_run p (fun b => b <| next_begin_time := u32 (next_begin_time a + ai_rest_time a) |>) w3)
        as (w4 & E4 & O4 & N4 & T4).
      unfold bind at 1. rewrite E4.
      destruct (set_ad_wake_run p (u32 (next_begin_time a + ai_rest_time a)) w4) as (w5 & E5 & O5 & N5 & S5).
      unfold bind. rewrite E5. exists w5. unfold progress. rewrite O5, O4, O3, O2, N5, N4, N3, N2, N1.
      cbn [ai_sample_count ai_state ai_value invalid_count next_begin_time set]. rewrite Z.eqb_refl.
      split_and!; try done; try lia. apply S5. unfold not_shutdown, ad_base. rewrite T4. by apply S3.
    + destruct Hc as (w2 & E2). unfold bind. rewrite E2. by eexists.
Qed.

(** ** Runs of one input *)

(** Timer events; before an event marked [true] the task has looked at the
    input. *)
Fixpoint sampling_run (bs : list bool) (p : Z) : M adw unit :=
  match bs with
  | [] => ret tt
  | b :: bs =>
    (if b then take_value p;;; ret tt else ret tt);;;
    analog_in_event p;;;
    sampling_run bs p
  end.

(** The readings of [k] events from the [n]-th on; an event that finds the
    conversion unfinished takes none. *)
Fixpoint taken (n k : nat) : list Z :=
  match k with
  | O => []
  | S k => (if truthy (delay n) then [] else [u16 (reading n)]) ++ taken (S n) k
  end.

(** The sums of groups of [sc] readings, when [j] readings with the sum [acc]
    have been added up already. *)
Fixpoint completed (sc j acc : Z) (rs : list Z) : list Z :=
  match rs with
  | [] => []
  | r :: rs => if j + 1 =? sc then u16 (acc + r) :: completed sc 0 0 rs else completed sc (j + 1) (acc + r) rs
  end.

Lemma completed_group sc j acc g rs :
  g <> [] -> j + Z.of_nat (length g) = sc ->
  completed sc j acc (g ++ rs) = u16 (acc + foldr Z.add 0 g) :: completed sc 0 0 rs.
Proof.
  revert j acc. induction g as [|r g IH]; intros j acc Hg Hl; [done|]. cbn [app completed length foldr] in *.
  destruct (Z.eqb_spec (j + 1) sc) as [E|E].
  - destruct g; [|cbn in Hl; lia]. cbn. by rewrite Z.add_0_r.
  - rewrite IH; [by rewrite Z.add_assoc| |lia]. intros ->. cbn in Hl. lia.
Qed.

(** The count of consecutive sums out of range, or [None] for a shutdown. *)
Fixpoint strikes (a : analog_in) (c : Z) (sums : list Z) : option Z :=
  match sums with
  | [] => Some c
  | s :: sums =>
    if in_range a s then strikes a 0 sums
    else if range_check_count a <=? c + 1 then None else strikes a (c + 1) sums
  end.

Lemma strikes_setup a b c sums : setup a = setup b -> strikes a c sums = strikes b c sums.
Proof.
  unfold setup. intros [= E1 E2 E3 E4]. revert c. induction sums as [|s sums IH]; intros c; cbn [strikes]; [done|].
  unfold in_range. by rewrite E2, E3, E4, !IH.
Qed.

(** An unfinished conversion only postpones the event. *)
Lemma event_delayed p w :
  truthy (delay (ad_events w)) = true -> exists w', analog_in_event p w = Ret SF_RESCHEDULE w' /\
    ad_obj w' = ad_obj w /\ ad_events w' = S (ad_events w) /\ (not_shutdown w -> not_shutdown w').
Proof.
  clear call. intros Hd. unfold analog_in_event. rewrite Hd. set (w0 := w <| ad_events := _ |>).
  destruct (set_ad_wake_run p (u32 (ad_wake p w0 + delay (ad_events w))) w0) as (w' & E & E1 & E2 & E3).
  exists w'. unfold bind. by rewrite E.
Qed.

Lemma look_progress (b : bool) p w j acc :
  progress w p j acc -> not_shutdown w ->
  exists w1, (if b then take_value p;;; ret tt else ret tt) w = Ret tt w1 /\ progress w1 p j acc /\
    setup (ad_obj w1 p) = setup (ad_obj w p) /\ invalid_count (ad_obj w1 p) = invalid_count (ad_obj w p) /\
    ad_events w1 = ad_events w /\ not_shutdown w1.
Proof.
  intros Hp Hs. destruct b; [|by exists w].
  destruct (take_progress p w j acc Hp) as (r & w1 & E & H1 & [st H2] & H3 & H4). exists w1. unfold bind. rewrite E, H2.
  split_and!; try done. unfold not_shutdown, ad_base. by rewrite H4.
Qed.

(** A run ends as the sums it completes require. *)
Lemma sampling_run_strikes bs p w j acc :
  not_shutdown w -> 0 <= invalid_count (ad_obj w p) < 0xff -> range_check_count (ad_obj w p) <= 0xff ->
  progress w p j acc ->
  let a := ad_obj w p in
  match strikes a (invalid_count a) (completed (ai_sample_count a) j acc (taken (ad_events w) (length bs))) with
  | Some c => exists w', sampling_run bs p w = Ret tt w' /\ invalid_count (ad_obj w' p) = c
  | None => exists w', sampling_run bs p w = Halt "ADC out of range" w'
  end.
Proof.
  revert w j acc. induction bs as [|b bs IH]; intros w j acc Hs Hi Hr Hp a; [by exists w|]. cbn [sampling_run length taken].
  destruct (look_progress b p w j acc Hp Hs) as (w1 & E1 & P1 & G1 & I1 & N1 & S1). rewrite (bind_ret _ _ _ _ _ E1).
  fold a in G1, I1, Hi, Hr. rewrite <- (strikes_setup _ _ _ _ G1), <- I1. rewrite <- I1 in Hi.
  assert (Ea : ai_sample_count a = ai_sample_count (ad_obj w1 p)) by (unfold setup in G1; congruence).
  assert (Hr1 : range_check_count (ad_obj w1 p) <= 0xff) by (unfold setup in G1; by injection G1 as _ -> _ _).
  rewrite Ea, <- N1. clear dependent a w. set (a := ad_obj w1 p) in *. cbv zeta in *.
  assert (Hgo : forall w2 j' acc', progress w2 p j' acc' -> setup (ad_obj w2 p) = setup a -> not_shutdown w2 ->
    ad_events w2 = S (ad_events w1) -> 0 <= invalid_count (ad_obj w2 p) < 0xff ->
    match strikes a (invalid_count (ad_obj w2 p)) (completed (ai_sample_count a) j' acc' (taken (S (ad_events w1)) (length bs))) with
    | Some c => exists w', sampling_run bs p w2 = Ret tt w' /\ invalid_count (ad_obj w' p) = c
    | None => exists w', sampling_run bs p w2 = Halt "ADC out of range" w'
    end).
  { intros w2 j' acc' H1 H2 H3 H4 H5. specialize (IH w2 j' acc' H3 H5). rewrite (strikes_setup _ _ _ _ H2), H4 in IH.
    unfold setup in H2. injection H2 as F1 F2 _ _. rewrite F1, F2 in IH. exact (IH Hr1 H1). }
  destruct (truthy (delay (ad_events w1))) eqn:Ed.
  { destruct (event_delayed p w1 Ed) as (w2 & E2 & O2 & N2 & S2). rewrite (bind_ret _ _ _ _ _ E2).
    specialize (Hgo w2 j acc). unfold progress in *. rewrite O2 in Hgo. fold a in Hgo, P1. by apply Hgo; auto. }
  unfold truthy in Ed. apply negb_false_iff, Z.eqb_eq in Ed. cbn [app completed].
  destruct (event_progress p w1 j acc Ed S1 Hi P1) as [Hmore Hlast]. fold a in Hmore, Hlast.
  destruct (Z.eqb_spec (j + 1) (ai_sample_count a)) as [Hj|Hj].
  - specialize (Hlast Hj). unfold next_invalid in Hlast. cbn [strikes].
    destruct (in_range a _); [|destruct (Z.leb_spec (range_check_count a) (invalid_count a + 1))].
    2: { destruct Hlast as (w2 & E2). exists w2. by apply bind_halt. }
    all: destruct Hlast as (w2 & E2 & H1 & H2 & H3 & _ & _ & _ & H4 & H5); rewrite (bind_ret _ _ _ _ _ E2);
      specialize (Hgo w2 0 0 H1 H2 H5 H4); rewrite H3 in Hgo; apply Hgo; lia.
  - destruct P1 as (Pj & _). fold a in Pj. destruct Hmore as (w2 & E2 & H1 & H2 & H3 & H4 & H5); [lia|].
    rewrite (bind_ret _ _ _ _ _ E2), <- H3. apply Hgo; auto. by rewrite H3.
Qed.

(** Some block of consecutive sums out of range is long enough; at the start the
    sums before it count, too. *)
Definition struck (a : analog_in) (c : Z) (sums : list Z) : Prop :=
  exists pre bad post, sums = pre ++ bad ++ post /\ bad <> [] /\ Forall (fun s => in_range a s = false) bad /\
    (range_check_count a <= Z.of_nat (length bad) \/
     pre = [] /\ range_check_count a <= c + Z.of_nat (length bad)).

Lemma struck_cons a c s sums : struck a 0 sums -> struck a c (s :: sums).
Proof.
  intros (pre & bad & post & -> & Hb & HF & Hn). exists (s :: pre), bad, post. split_and!; try done.
  left. destruct Hn as [?|[_ ?]]; lia.
Qed.

Lemma strikes_struck a c sums : 0 <= c -> strikes a c sums = None <-> struck a c sums.
Proof.
  intros Hc. split; revert c Hc; induction sums as [|s sums IH]; intros c Hc; cbn [strikes]; [done| | |].
  - destruct (in_range a s) eqn:Es; [intros H; by apply struck_cons, IH|].
    destruct (Z.leb_spec (range_check_count a) (c + 1)) as [Hle|Hgt].
    + intros _. exists [], [s], sums. split_and!; try done; [by constructor|]. right. cbn. split; [done|lia].
    + intros H%IH; [|lia]. destruct H as (pre & bad & post & -> & Hb & HF & [Hn|[-> Hn]]).
      * exists (s :: pre), bad, post. split_and!; try done. by left.
      * exists [], (s :: bad), post. split_and!; try done; [by constructor|]. right. cbn [length]. split; [done|lia].
  - intros (pre & bad & post & E & Hb & _). destruct pre, bad; done.
  - intros ([|x pre] & bad & post & E & Hb & HF & Hn); cbn in E.
    + destruct bad as [|y bad]; [done|]. injection E as <- ->. apply Forall_cons in HF as [Es HF]. rewrite Es.
      cbn [length] in Hn. destruct (Z.leb_spec (range_check_count a) (c + 1)); [done|]. apply IH; [lia|].
      exists [], bad, post. split_and!; try done; [intros ->; cbn in Hn; lia|]. right. split; [done|lia].
    + injection E as <- ->. destruct Hn as [Hn|[? _]]; [|done].
      assert (Hs : forall c', struck a c' (pre ++ bad ++ post)) by (intros c'; exists pre, bad, post; split_and!; auto).
      destruct (in_range a s); [by apply IH|]. destruct (_ <=? _); [done|]. apply IH; [lia|done].
Qed.

(** C31: a sensor out of range stops the machine, and nothing else does.  A run of
    timer events starts with a new sum; conversions may be unfinished in any of
    them, and the reporting task may look at the input before any of them.  The
    machine shuts down iff [range_check_count] consecutive sums of [sample_count]
    readings are outside [min_value] .. [max_value], counting those right before
    the run.  Otherwise the run goes on to its end. *)
Theorem adc_out_of_range_stops bs p w :
  not_shutdown w ->
  let a := ad_obj w p in
  0 < ai_sample_count a < 0xff -> ai_sample_count a <= ai_state a ->
  0 <= invalid_count a < 0xff -> range_check_count a <= 0xff ->
  let sums := completed (ai_sample_count a) 0 0 (taken (ad_events w) (length bs)) in
  (struck a (invalid_count a) sums -> exists w', sampling_run bs p w = Halt "ADC out of range" w') /\
  (~ struck a (invalid_count a) sums -> exists w', sampling_run bs p w = Ret tt w').
Proof.
  intros Hs a Hsc Hst Hi Hr sums.
  assert (Hp : progress w p 0 0) by (unfold progress; rewrite Z.eqb_refl; fold a; lia).
  pose proof (sampling_run_strikes bs p w 0 0 Hs Hi Hr Hp) as H. cbv zeta in H. fold a sums in H.
  rewrite <- strikes_struck by lia. destruct (strikes a (invalid_count a) sums); [|by split].
  split; [done|]. intros _. destruct H as (w' & E & _). eauto.
Qed.

(** ** Reports *)

(** The bytes of the reports of an input, and those not reported yet. *)
Definition report_data (oid : Z) (m : string * list va_arg) : list Z :=
  match m with
  | (fmt, [VInt o; VInt _; VBuffer v s]) =>
    if String.eqb fmt "analog_in_state oid=%c next_clock=%u values=%*s" && (o =? oid)
    then take (Z.to_nat v) s else []
  | _ => []
  end.
Definition reported (oid : Z) (w : adw) : list Z := concat (report_data oid <$> bc_out (ad_base w)).
Definition pending_data (a : analog_in) : list Z := take (Z.to_nat (data_count a)) (ai_data a).

(** The buffer has room for the next sample. *)
Definition data_ok (a : analog_in) : Prop :=
  length (ai_data a) = DATA_SIZE /\ 0 <= bytes_per_report a <= Z.of_nat DATA_SIZE /\
  (data_count a = 0 \/ 0 <= data_count a /\ data_count a + BYTES_PER_SAMPLE <= bytes_per_report a).

Lemma store_data_run p i v w :
  0 <= i < Z.of_nat DATA_SIZE ->
  store_data p i v w = upd_ai p (fun a => a <| ai_data ::= <[Z.to_nat i := u8 v]> |>) w.
Proof. intros Hi. unfold store_data. by rewrite (proj2 (Z.leb_le _ _)), (proj2 (Z.ltb_lt _ _)) by lia. Qed.

Lemma take_insert_2 (l : list Z) n x y :
  (S n < length l)%nat -> take (S (S n)) (<[S n := y]> (<[n := x]> l)) = take n l ++ [x; y].
Proof.
  intros Hn. rewrite (take_S_r _ _ y) by (rewrite list_lookup_insert_eq by (rewrite length_insert; lia); done).
  rewrite take_insert_ge by lia. rewrite (take_S_r _ _ x) by (by rewrite list_lookup_insert_eq by lia).
  rewrite take_insert_ge by lia. by rewrite <- app_assoc.
Qed.

Lemma reported_app oid w m w' :
  bc_out (ad_base w') = bc_out (ad_base w) ++ [m] -> reported oid w' = reported oid w ++ report_data oid m.
Proof. unfold reported. intros ->. rewrite fmap_app, concat_app. cbn. by rewrite app_nil_r. Qed.

(** The two stores and the update of the count. *)
Lemma store_sample p value w :
  let a := ad_obj w p in
  length (ai_data a) = DATA_SIZE -> 0 <= value < 0x10000 -> 0 <= data_count a <= 46 ->
  exists w', (forall k : M adw unit,
      (store_data p (data_count a) value;;; store_data p (data_count a + 1) (Z.shiftr value 8);;;
       upd_ai p (fun a' => a' <| data_count := u8 (data_count a + BYTES_PER_SAMPLE) |>);;; k) w = k w') /\
    length (ai_data (ad_obj w' p)) = DATA_SIZE /\ data_count (ad_obj w' p) = data_count a + 2 /\
    bytes_per_report (ad_obj w' p) = bytes_per_report a /\
    take (Z.to_nat (data_count a + 2)) (ai_data (ad_obj w' p)) =
      pending_data a ++ [value mod 0x100; value / 0x100] /\
    ad_ta w' = ad_ta w.
Proof.
  intros a Hl Hv Hd.
  destruct (upd_ai_run p (fun b => b <| ai_data ::= <[Z.to_nat (data_count a) := u8 value]> |>) w)
    as (w2 & E2 & O2 & _ & T2).
  destruct (upd_ai_run p (fun b => b <| ai_data ::= <[Z.to_nat (data_count a + 1) := u8 (Z.shiftr value 8)]> |>) w2)
    as (w3 & E3 & O3 & _ & T3).
  destruct (upd_ai_run p (fun b => b <| data_count := u8 (data_count a + BYTES_PER_SAMPLE) |>) w3)
    as (w4 & E4 & O4 & _ & T4).
  exists w4. rewrite O4, O3, O2, T4, T3, T2. cbn [ai_data data_count bytes_per_report set]. fold a. split_and!.
  - intros k. unfold bind. rewrite store_data_run, E2 by (unfold DATA_SIZE; lia).
    rewrite store_data_run, E3 by (unfold DATA_SIZE; lia). by rewrite E4.
  - by rewrite !length_insert.
  - rewrite u8_small; unfold BYTES_PER_SAMPLE; lia.
  - done.
  - unfold pending_data. replace (Z.to_nat (data_count a + 2)) with (S (S (Z.to_nat (data_count a)))) by lia.
    replace (Z.to_nat (data_count a + 1)) with (S (Z.to_nat (data_count a))) by lia.
    rewrite take_insert_2 by (unfold DATA_SIZE in Hl; lia). rewrite Z.shiftr_div_pow2 by lia. repeat f_equal. word.
  - done.
Qed.

(** No sample is lost in reporting.  Reporting a sum stores it inside the
    data buffer, and the bytes sent so far followed by those waiting are the
    former ones followed by the two bytes of the sum, low byte first. *)
Theorem adc_report_exact fuel time oid p value next_begin w w1 :
  data_ok (ad_obj w p) -> 0 <= value < 0x10000 ->
  zoom ad_ta (trigger_analog_update call fuel time (ai_ta (ad_obj w p)) value) w = Ret tt w1 ->
  bc_out (ad_base w1) = bc_out (ad_base w) ->
  exists w', report_value fuel time oid p value next_begin w = Ret tt w' /\ data_ok (ad_obj w' p) /\
    reported oid w' ++ pending_data (ad_obj w' p) =
      reported oid w ++ pending_data (ad_obj w p) ++ [value mod 0x100; value / 0x100].
Proof.
  intros (Hl & Hb & Hc) Hv E1 Hout. unfold report_value. rewrite (bind_ret _ _ _ _ _ E1).
  assert (O1 : ad_obj w1 = ad_obj w).
  { unfold zoom in E1. destruct (trigger_analog_update _ _ _ _ _ _); [|done..]. by injection E1 as _ <-. }
  rewrite <- O1 in *. set (a := ad_obj w1 p) in *. cbv zeta.
  destruct (store_sample p value w1) as (w4 & E4 & D1 & D2 & D3 & Hbytes & T4);
    [done|done|fold a; unfold DATA_SIZE, BYTES_PER_SAMPLE in *; lia|].
  fold a in E4, D2, D3, Hbytes. rewrite E4, D2, D3.
  assert (Hout4 : reported oid w4 = reported oid w) by (unfold reported, ad_base in *; by rewrite T4, Hout).
  destruct (Z.ltb_spec (bytes_per_report a) (data_count a + 2 + BYTES_PER_SAMPLE)) as [Hsend|Hkeep].
  - unfold bind at 1, zoom, sendf, modify. set (w5 := w4 <| ad_ta := _ |>).
    destruct (upd_ai_run p (fun a => a <| data_count := 0 |>) w5) as (w6 & E6 & O6 & _ & T6). rewrite E6.
    exists w6. split; [done|]. change (ad_obj w5 p) with (ad_obj w4 p) in O6. rewrite O6.
    unfold data_ok, pending_data at 1. cbn [ai_data data_count bytes_per_report set]. rewrite D1, D3.
    split; [split_and!; [done|lia|lia|by left]|].
    rewrite take_0, app_nil_r. rewrite (reported_app oid w4 _ w6 (f_equal (fun t => bc_out (tw_base (aw_ts t))) T6)).
    rewrite Hout4. cbn [report_data]. rewrite Z.eqb_refl. cbn [andb]. f_equal. exact Hbytes.
  - exists w4. unfold data_ok, pending_data at 1. rewrite D1, D2, D3, Hout4, Hbytes. split_and!; try done; try lia.
Qed.
End adccmds.
Arguments adw : clear implicits.

(** ** Examples *)

(** One input (oid 0) with four readings per sum and two sums per report, whose
    sums have to stay between 100 and 3000. *)
Definition demo_input : analog_in :=
  mk_analog_in 1000 10 5000 0 100 3000 2 0 2 5 4 4 0 (replicate DATA_SIZE 0) None.
Definition demo_adc : adw unit :=
  mk_adw (demo_sensor <| aw_ts ::= fun t => t <| tw_base := basecmd_init <| oid_count := 1 |>
            <| oid_tab := fun _ => mk_oid_s 9 0x200 |> |> |>)
    (fun _ => demo_input) 0 0.

(** A sensor that fell off: all readings are zero.  Every third event finds the
    conversion unfinished. *)
Definition demo_delay (n : nat) : Z := if (n mod 3 =? 1)%nat then 50 else 0.

Lemma adc_out_of_range_stops_witness :
  exists w', sampling_run demo_delay (fun _ => 0) [false; false; false; true; false; false; true; false; false; false; false; false]
    0x200 demo_adc = Halt "ADC out of range" w'.
Proof.
  refine (proj1 (adc_out_of_range_stops demo_delay (fun _ => 0) _ 0x200 demo_adc _ _ _ _ _) _);
    try reflexivity; try (cbn; lia).
  exists [], [0; 0], []. split; [reflexivity|]. split; [discriminate|]. split; [repeat constructor|]. left. cbn. lia.
Defined.

Lemma adc_report_exact_witness :
  exists w', report_value no_call 9 7000 0 0x200 0x1234 6000 demo_adc = Ret tt w' /\
    reported 0 w' ++ pending_data (ad_obj w' 0x200) = [0x34; 0x12].
Proof.
  destruct (adc_report_exact no_call 9 7000 0 0x200 0x1234 6000 demo_adc demo_adc) as (w' & E & _ & H).
  - unfold data_ok. cbn. unfold DATA_SIZE. split; [reflexivity|]. split; [lia|by left].
  - lia.
  - reflexivity.
  - reflexivity.
  - exists w'. split; [exact E|exact H].
Defined.

(** Timer events followed by the task, with readings of [v]. *)
Fixpoint sample_and_report (v : Z) (n : nat) : M (adw unit) unit :=
  match n with
  | O => ret tt
  | S n =>
    analog_in_event (fun _ => 0) (fun _ => v) 0x200;;;
    analog_in_task no_call 9 9 (fun _ => 0);;;
    sample_and_report v n
  end.

(** The machine in the shutdown that follows a rejected query for reports of 100
    bytes: run_shutdown has set the status before it calls the handlers. *)
Definition demo_rejected : adw unit := final (command_query_analog_in 9 9 0 0 5000 10 1 1000 100 0 0xffff 0 demo_adc).
Definition demo_in_shutdown : adw unit :=
  demo_rejected <| ad_ta ::= fun t => t <| aw_ts ::= fun t => t <| tw_base ::= fun b =>
    b <| bc_sched ::= fun s => (sched_timer_reset s) <| shutdown_status := 2 |> |> |> |> |>.
Definition demo_restarted : adw unit := final (analog_in_shutdown 9 9 0 demo_in_shutdown).

(** A rejected report size still takes effect.  [command_query_analog_in]
    stores a [bytes_per_report] that is too large before it shuts down, and
    the shutdown handler then restarts the sampling with it: the first 24
    sums fill the data buffer, the next one is stored behind its end. *)
Theorem adc_rejected_query_overflows :
  returned (command_query_analog_in 9 9 0 0 5000 10 1 1000 100 0 0xffff 0 demo_adc) = false /\
  crashed (command_query_analog_in 9 9 0 0 5000 10 1 1000 100 0 0xffff 0 demo_adc) = false /\
  returned (analog_in_shutdown 9 9 0 demo_in_shutdown) = true /\
  bytes_per_report (ad_obj demo_rejected 0x200) = 100 /\
  returned (sample_and_report 7 24 demo_restarted) = true /\
  data_count (ad_obj (final (sample_and_report 7 24 demo_restarted)) 0x200) = Z.of_nat DATA_SIZE /\
  crashed (sample_and_report 7 25 demo_restarted) = true.
Proof. vm_compute. done. Qed.

(** With 255 readings per sum the state that should restart the sum wraps to
    zero, so the readings are added to the former sum. *)
Lemma sample_count_255_accumulates :
  let w := final (command_query_analog_in 9 9 0 0 5000 10 255 1000 4 0 0xffff 0
    (demo_adc <| ad_obj := fun _ => demo_input <| ai_value := 1000 |> |>)) in
  ai_value (ad_obj (final (sampling_run (fun _ => 0) (fun _ => 1) (repeat false 255) 0x200 w)) 0x200) = 1255.
Proof. vm_compute. reflexivity. Qed.
