(* ===== verification/Homing.v ===== *)
(** * Triggers that stop steppers (src/stepper.c, src/trsync.c)

    [stepper_stop_on_trigger] registers the stop signal of a stepper with a
    trigger object.  This file gives the callback of such a signal and shows
    that a trigger, whatever its cause, stops every registered stepper and
    leaves the others alone.  The state of the callbacks is the machine of the
    steppers, with the pool and the scheduler shared. *)

From S2P Require Import Prelude Command Clock Sched Basecmd Stepper Trsync.

Definition homing := tsw mcu.

(** The steppers' view of the machine, and the machine after they changed it. *)
Definition to_mcu (w : homing) : mcu := (tw_app w) <| m_base := tw_base w |>.
Definition of_mcu (m : mcu) (w : homing) : homing := w <| tw_base := m_base m |> <| tw_app := m |>.

Lemma to_of_mcu m w : to_mcu (of_mcu m w) = m.
Proof. by destruct m. Qed.

Section homing.
Context (HAVE_AVR_OPTIMIZATION : bool) (fuel : nat).
(** The offset of [stop_signal] in a [struct stepper], the address of the
    function [stepper_stop], and the oid types. *)
Context (stop_offset stepper_stop_func command_config_stepper_type command_config_trsync_type : Z).

(** [stepper_stop] called for the signal at [tss]. *)
Definition stop_signal (func tss reason : Z) : M homing unit := fun w =>
  match stepper_stop HAVE_AVR_OPTIMIZATION fuel (tss - stop_offset) (to_mcu w) with
  | Ret _ m => Ret tt (of_mcu m w)
  | Halt msg m => Halt msg (of_mcu m w)
  | Crash m => Crash (of_mcu m w)
  end.

Definition command_stepper_stop_on_trigger (oid trsync_oid : Z) : M homing unit :=
  p <- zoom tw_base (oid_lookup (u8 oid) command_config_stepper_type);;
  ts <- trsync_oid_lookup command_config_trsync_type trsync_oid;;
  trsync_add_signal ts (p + stop_offset) (Some stepper_stop_func).

(** ** Machines with several steppers *)

(** A stepper with its queue, direction and position. *)
Record moving := mk_moving { mv_addr : Z; mv_queue : list Z; mv_dir : bool; mv_pos : Z }.

Definition moving_ok (w : mcu) (x : moving) : Prop :=
  step_rep w (mv_addr x) (mv_queue x) (mv_dir x) (mv_pos x) /\
  - POSITION_BIAS < mv_pos x < POSITION_BIAS /\ (length (mv_queue x) <= fuel)%nat.

(** A stopped stepper and its position. *)
Definition stopped (w : mcu) (p pos : Z) : Prop :=
  step_rep w p [] false pos /\ count (m_steppers w p) = 0 /\
  has SF_NEED_RESET (flags (m_steppers w p)) = true.

Lemma stopped_pending w p pos : stopped w p pos -> pending_steps w p [] false = [].
Proof. intros (_ & H & _). unfold pending_steps. by rewrite H. Qed.

(** Steppers [xs], with distinct addresses and disjoint queues, on a machine with
    the timer list [l] and the free moves [free]. *)
Record machine_ok (base : Z) (w : mcu) (xs : list moving) (ps : list (Z * Z)) (l : list tid) (free : list Z)
    : Prop := {
  mo_moving : Forall (moving_ok w) xs;
  mo_stopped : Forall (fun x => stopped w x.1 x.2) ps;
  mo_addrs : NoDup ((mv_addr <$> xs) ++ ps.*1);
  mo_sched : sched_inv base (bc_sched (m_base w)) l;
  mo_fuel : (S (length (pending l)) < fuel)%nat;
  mo_free : chain (mnext (m_base w)) (move_free_list (m_base w)) free;
  mo_queues : NoDup (concat (mv_queue <$> xs) ++ free) }.

(** What a stepper is does not depend on other steppers' memory. *)
Lemma step_rep_frame w w' p q d pos :
  m_steppers w' p = m_steppers w p -> m_moves w' = m_moves w ->
  (forall x, x ∈ q -> mnext (m_base w') x = mnext (m_base w) x) ->
  step_rep w p q d pos -> step_rep w' p q d pos.
Proof.
  intros H1 H2 H3 [R1 R2 R3 R4 R5 R6 R7 R8 R9]. constructor; rewrite ?H1, ?H2; try done.
  destruct R1 as [C1 C2]. split; [|done]. by apply (chain_ext (mnext (m_base w))).
Qed.

Lemma elem_of_concat_2 {A} (x : A) l ls : x ∈ l -> l ∈ ls -> x ∈ concat ls.
Proof. rewrite !list_elem_of_In. intros H1 H2. apply in_concat. eauto. Qed.

Lemma pending_len l : (length l <= S (length (pending l)))%nat.
Proof. destruct l as [|[] l]; cbn; lia. Qed.

Lemma remove_timer_len t l : (length (remove_timer t l) <= length l)%nat.
Proof. apply length_filter. Qed.

(** Stopping the first one. *)
Lemma stop_one base w x xs ps l free :
  machine_ok base w (x :: xs) ps l free ->
  exists w' l' free', stepper_stop HAVE_AVR_OPTIMIZATION fuel (mv_addr x) w = Ret tt w' /\
    machine_ok base w' xs ((mv_addr x, mv_pos x) :: ps) l' free' /\
    pending l' = remove_timer (st_timer (mv_addr x)) (pending l).
Proof.
  intros [H1 H2 H3 H4 H5 H6 H7]. inversion H1 as [|? ? [R [Hp Hq]] H1']; subst.
  cbn [fmap list_fmap concat app] in H3, H7. rewrite <- app_assoc in H7.
  apply NoDup_cons in H3 as [Hx H3]. apply NoDup_app in H7 as (N1 & N2 & N3).
  apply NoDup_app in N3 as (N3 & N4 & N5).
  destruct (stop_edge_run HAVE_AVR_OPTIMIZATION fuel w (mv_addr x) (mv_queue x) (mv_dir x) (mv_pos x) base l free)
    as (w' & l' & E & S1 & _ & S3 & S4 & S5 & S6 & F1 & F2 & F3 & F4); try done.
  { pose proof (pending_len l). lia. }
  { apply NoDup_app. split_and!; [done| |done]. intros y Hy Hf. apply (N2 y Hy). apply elem_of_app. by right. }
  exists w', l', (rev (mv_queue x) ++ free). split_and!; [done| |done]. constructor.
  - apply Forall_forall. intros y Hy. rewrite Forall_forall in H1'. destruct (H1' y Hy) as (Ry & Py & Qy).
    split; [|done]. apply (step_rep_frame w); try done.
    + apply F2. intros Ea. apply Hx. apply elem_of_app. left. rewrite <- Ea. by apply list_elem_of_fmap_2.
    + intros z Hz. apply F1. intros Hz'. apply (N2 z Hz'). apply elem_of_app. left.
      apply (elem_of_concat_2 z (mv_queue y)); [done|]. by apply list_elem_of_fmap_2.
  - constructor; [done|]. apply Forall_forall. intros y Hy. rewrite Forall_forall in H2.
    destruct (H2 y Hy) as (Ry & Cy & Fy).
    assert (Ey : m_steppers w' y.1 = m_steppers w y.1).
    { apply F2. intros Ea. apply Hx. apply elem_of_app. right. rewrite <- Ea. by apply list_elem_of_fmap_2. }
    unfold stopped. rewrite Ey. split_and!; [|done..]. apply (step_rep_frame w); try done.
    by intros z Hz%not_elem_of_nil.
  - rewrite fmap_cons. cbn [fst]. rewrite <- Permutation_middle. by apply NoDup_cons.
  - done.
  - rewrite S5. pose proof (remove_timer_len (st_timer (mv_addr x)) (pending l)). lia.
  - done.
  - rewrite <- (Permutation_rev (mv_queue x)). apply NoDup_app. split_and!; [done| |].
    + intros y Hy [Hr|Hf]%elem_of_app; [|by apply (N4 y)]. apply (N2 y Hr). apply elem_of_app. by left.
    + apply NoDup_app. split_and!; [done| |done].
      intros y Hr Hf. apply (N2 y Hr). apply elem_of_app. by right.
Qed.

(** ** A trigger *)

Definition signal_of (x : moving) : Z * Z := (mv_addr x + stop_offset, stepper_stop_func).

(** The timers of [xs] are gone and the others are still pending. *)
Definition timers_removed (xs : list moving) (l l' : list tid) : Prop :=
  forall t, t ∈ pending l' <-> t ∈ pending l /\ t ∉ ((fun x => st_timer (mv_addr x)) <$> xs).

Lemma dispatch_stops n p reason base w xs ps l free :
  machine_ok base (to_mcu w) xs ps l free ->
  sig_chain (tw_sigs w) (signals (tw_ts w p)) (signal_of <$> xs) -> (length xs < n)%nat ->
  exists w' l' free', dispatch_signals stop_signal n p reason w = Ret tt w' /\
    machine_ok base (to_mcu w') [] (rev ((fun x => (mv_addr x, mv_pos x)) <$> xs) ++ ps) l' free' /\
    timers_removed xs l l' /\ tw_ts w' p = (tw_ts w p) <| signals := None |>.
Proof.
  revert w xs ps l free. induction n as [|n IH]; intros w xs ps l free Hm Hc Hl; [lia|]. cbn [dispatch_signals].
  destruct xs as [|x xs].
  { cbn in Hc. rewrite Hc. exists w, l, free. split_and!; try done.
    { intros t. cbn. rewrite elem_of_nil. tauto. }
    by destruct (tw_ts w p); cbn in *; subst. }
  cbn in Hc. destruct Hc as (Hs & Hf & Hc). rewrite Hs, Hf. cbn [length] in Hl.
  unfold bind at 1 2 3 4, upd_ts, upd_sig, modify. cbn [tw_ts tw_sigs set].
  match goal with |- context [stop_signal _ _ _ ?s] => set (w1 := s) end.
  destruct (stop_one base (to_mcu w1) x xs ps l free Hm) as (m & l1 & free1 & E & Hm1 & Hp1).
  unfold stop_signal at 1. replace (mv_addr x + stop_offset - stop_offset) with (mv_addr x) by lia. rewrite E.
  assert (Hfresh : mv_addr x + stop_offset ∉ (signal_of <$> xs).*1).
  { intros (y & Ey & (z & -> & Hz)%list_elem_of_fmap)%list_elem_of_fmap. cbn in Ey.
    destruct Hm as [_ _ Ha _ _ _ _]. cbn [fmap list_fmap app] in Ha. apply NoDup_cons in Ha as [Ha _]. apply Ha.
    apply elem_of_app. left. replace (mv_addr x) with (mv_addr z) by lia. by apply list_elem_of_fmap_2. }
  destruct (IH (of_mcu m w1) xs ((mv_addr x, mv_pos x) :: ps) l1 free1)
    as (w' & l' & free' & E' & Hm' & Ht & Hts).
  - by rewrite to_of_mcu.
  - unfold w1. cbn. rewrite fn_lookup_insert. cbn. do 2 (apply sig_chain_insert_ne; [done|]).
    by rewrite ?fn_lookup_insert.
  - lia.
  - exists w', l', free'. split_and!; [done| | |].
    + cbn [fmap list_fmap rev]. rewrite <- app_assoc. exact Hm'.
    + intros t. etransitivity; [apply Ht|]. rewrite Hp1. unfold remove_timer. rewrite list_elem_of_filter, fmap_cons, not_elem_of_cons. tauto.
    + rewrite Hts. unfold w1. cbn. by rewrite fn_lookup_insert.
Qed.

Lemma machine_wake base w xs ps l free :
  machine_ok base w xs ps l free ->
  machine_ok base (w <| m_base ::= fun b => b <| bc_sched ::= sched_wake_tasks |> |>) xs ps l free.
Proof.
  intros [H1 H2 H3 H4 H5 H6 H7]. constructor; try done.
  - eapply Forall_impl; [exact H1|]. intros x [R Hx]. split; [|done]. by apply (step_rep_frame w).
  - eapply Forall_impl; [exact H2|]. intros x [R Hx]. split; [|done]. by apply (step_rep_frame w).
  - by destruct H4; constructor.
Qed.

(** C29: homing.  When a trigger object that can trigger has the stop signals of
    the steppers [xs] registered, a trigger stops all of them: it returns, and
    then none of them has a step or a timer pending, each keeps the position it
    had reached, and none takes new steps before its step clock is reset.  The
    timers of all other objects stay pending. *)
Theorem trigger_stops_steppers p reason base w xs l free :
  truthy (Z.land (ts_flags (tw_ts w p)) TSF_CAN_TRIGGER) = true ->
  sig_chain (tw_sigs w) (signals (tw_ts w p)) (signal_of <$> xs) ->
  machine_ok base (to_mcu w) xs [] l free -> (length xs < fuel)%nat ->
  exists w' l', trsync_do_trigger stop_signal fuel p reason w = Ret tt w' /\
    trigger_reason (tw_ts w' p) = reason /\ signals (tw_ts w' p) = None /\
    sched_inv base (bc_sched (tw_base w')) l' /\ timers_removed xs l l' /\
    forall x, x ∈ xs -> stopped (to_mcu w') (mv_addr x) (mv_pos x) /\
      pending_steps (to_mcu w') (mv_addr x) [] false = [].
Proof.
  intros Hcan Hc Hm Hl. unfold trsync_do_trigger. rewrite Hcan. cbn [negb].
  unfold bind at 1, upd_ts, modify. unfold bind at 1.
  match goal with |- context [dispatch_signals stop_signal fuel p reason ?s] => set (w1 := s) end.
  destruct (dispatch_stops fuel p reason base w1 xs [] l free) as (w2 & l2 & free2 & E & Hm2 & Ht & Hts);
    [exact Hm|unfold w1; cbn; by rewrite fn_lookup_insert|done|].
  rewrite E. unfold wake_trsync, modify, sched_wake_task. eexists _, l2. split; [reflexivity|].
  apply machine_wake in Hm2. rewrite app_nil_r in Hm2.
  match goal with |- context [pending_steps (to_mcu ?s)] => set (w3 := s) end.
  assert (Em : to_mcu w3 = (to_mcu w2) <| m_base ::= fun b => b <| bc_sched ::= sched_wake_tasks |> |>) by done.
  assert (Ets : tw_ts w3 p = tw_ts w2 p) by done. rewrite Ets, Hts, Em. unfold w1 at 1 2. cbn [tw_ts set].
  rewrite fn_lookup_insert. split_and!; [done|done| |done|].
  - destruct Hm2 as [_ _ _ H _ _ _]. exact H.
  - intros x Hx. destruct Hm2 as [_ H _ _ _ _ _]. rewrite Forall_forall in H.
    assert (Hs : stopped ((to_mcu w2) <| m_base ::= fun b => b <| bc_sched ::= sched_wake_tasks |> |>)
      (mv_addr x) (mv_pos x)).
    { apply (H (mv_addr x, mv_pos x)). rewrite <- Permutation_rev. by apply (list_elem_of_fmap_2 (fun x => (mv_addr x, mv_pos x))). }
    split; [exact Hs|]. exact (stopped_pending _ _ _ Hs).
Qed.
End homing.

(** Two steppers of the demonstration machine, both in the middle of a move. *)
Definition demo_moving : list moving := [mk_moving 0x2000 [] false 0; mk_moving 0x2040 [] false 0].
Definition demo_homing : homing :=
  mk_tsw (m_base demo_mcu) (fun _ => mk_trsync 0 (Some (0x2000 + 48)) TSF_CAN_TRIGGER 0 0)
    (fun t => mk_trsync_signal (if t =? 0x2000 + 48 then Some (0x2040 + 48) else None) (Some 3)) 0 demo_mcu.

Lemma trigger_stops_steppers_witness :
  pending_steps (to_mcu demo_homing) 0x2040 [] false = [(0, false); (100, false)] /\
  exists w', trsync_do_trigger (stop_signal false 9 48) 9 0x3000 1 demo_homing = Ret tt w' /\
    stopped (to_mcu w') 0x2040 0 /\ pending_steps (to_mcu w') 0x2040 [] false = [].
Proof.
  split; [reflexivity|].
  destruct (trigger_stops_steppers false 9 48 3 0x3000 1 0 demo_homing demo_moving
    [T_periodic] [0x1000; 0x1010; 0x1020]) as (w' & l' & E & _ & _ & _ & _ & Hx).
  - reflexivity.
  - repeat split; reflexivity.
  - constructor.
    + repeat constructor; cbn; try done; unfold POSITION_BIAS; lia.
    + constructor.
    + repeat constructor; set_solver.
    + exact sched_init_inv.
    + cbn. lia.
    + repeat split; reflexivity.
    + repeat constructor; set_solver.
  - cbn. lia.
  - exists w'. split; [exact E|]. apply (Hx (mk_moving 0x2040 [] false 0)). unfold demo_moving. set_solver.
Defined.
