(* ===== verification/Motion.v ===== *)
(** * From queued step times to step pulses

    The composition of the host's step compression with the firmware's stepper:
    the pulses the micro-controller schedules for the [queue_step] commands of a
    flush are the requested step times, early by at most the configured error.
    The file also holds the boundary cases of the host's step queue. *)

From S2P Require Import Prelude Buffer Msgblock Double Command Sched Basecmd Stepper Stepcompress CompressProof.

(** The move the firmware stores for the arguments of a [queue_step] command
    (oid, interval, count, add), see [command_queue_step]; the direction stays. *)
Definition mcu_move (data : list Z) : stepper_move :=
  mk_stepper_move (data !!! 2%nat) (s16 (data !!! 4%nat)) (u16 (data !!! 3%nat)) 0.

Lemma mcu_move_data sc m :
  0 <= Stepcompress.sm_count m < 0x10000 -> in_s16 (Stepcompress.sm_add m) ->
  mcu_move (move_data sc m) =
  mk_stepper_move (Stepcompress.sm_interval m) (Stepcompress.sm_add m) (Stepcompress.sm_count m) 0.
Proof.
  unfold in_s16. intros Hc Ha. unfold mcu_move, move_data. cbn [lookup_total list_lookup_total].
  rewrite (u16_small _ Hc). f_equal. word.
Qed.

Lemma move_times_clocks t m :
  0 <= Stepcompress.sm_count m ->
  move_times (u32 t) (mk_stepper_move (Stepcompress.sm_interval m) (Stepcompress.sm_add m)
                        (Stepcompress.sm_count m) 0) = u32 <$> move_clocks t m.
Proof.
  intros Hc. apply list_eq. intros k. unfold move_times, move_clocks.
  cbn [Stepper.sm_interval Stepper.sm_add Stepper.sm_count]. rewrite !list_lookup_fmap.
  destruct (decide (Z.of_nat k < Stepcompress.sm_count m)) as [Hk|Hk].
  - rewrite cur_times_polynomial by lia. rewrite lookup_seqZ_lt by lia. cbn [fmap option_fmap option_map].
    f_equal. unfold val, tri.
    replace ((1 + Z.of_nat k) * (1 + Z.of_nat k - 1)) with (Z.of_nat k * (Z.of_nat k - 1) + Z.of_nat k * 2) by lia.
    rewrite Z.div_add by lia. rewrite <- !Z.add_assoc, u32_add_l. f_equal. lia.
  - rewrite lookup_seqZ_ge by lia. apply lookup_ge_None_2. rewrite cur_times_length. lia.
Qed.

Lemma move_clocks_last t m :
  1 <= Stepcompress.sm_count m -> list.last (move_clocks t m) = Some (move_end t m).
Proof.
  intros Hc. unfold move_clocks. rewrite fmap_last.
  replace (Stepcompress.sm_count m) with (Z.of_nat (S (Z.to_nat (Stepcompress.sm_count m - 1)))) at 1 by lia.
  rewrite seqZ_S, last_snoc. cbn. unfold move_end. do 3 f_equal. lia.
Qed.

(** The times the firmware derives from a list of commands are the ones the
    host computes, modulo 2^32. *)
Lemma queue_times_clocks sc t d ms :
  Forall move_small ms ->
  queue_times (u32 t) d (mcu_move <$> (move_data sc <$> ms)) =
  (fun w => (u32 w, d)) <$> sent_clocks t ms.
Proof.
  intros H. revert t. induction H as [|m ms [Hc Ha] _ IH]; intros t; [done|].
  cbn [fmap list_fmap queue_times sent_clocks]. rewrite mcu_move_data by (done || lia).
  rewrite move_times_clocks by lia. unfold move_dir. cbn [Stepper.sm_flags]. rewrite xorb_false_r.
  rewrite fmap_app. f_equal; [by rewrite <- list_fmap_compose|].
  unfold last_time. rewrite !fmap_last, move_clocks_last by lia. cbn [fmap option_fmap option_map default fst].
  apply IH.
Qed.

(** The payload of a [queue_step] command always fits a message block. *)
Lemma host_encode_int_length v : (length (Host.encode_int v) <= 5)%nat.
Proof. unfold Host.encode_int. cbv zeta. repeat case_match; cbn; lia. Qed.

Lemma message_encode_loop_fits data out :
  (length out + 5 * length data <= MESSAGE_PAYLOAD_MAX)%nat ->
  message_encode_loop data out = Some (out ++ concat (Host.encode_int <$> data)).
Proof.
  revert out. induction data as [|v data IH]; intros out H; cbn [message_encode_loop fmap list_fmap concat].
  - by rewrite app_nil_r.
  - pose proof (host_encode_int_length v). cbn [length] in H.
    rewrite (proj2 (Nat.ltb_ge _ _)) by (rewrite length_app; lia).
    rewrite IH by (rewrite length_app; lia). by rewrite <- app_assoc.
Qed.

Lemma encode_move_data sc m :
  message_alloc_and_encode (move_data sc m) = concat (Host.encode_int <$> move_data sc m).
Proof.
  unfold message_alloc_and_encode. rewrite message_encode_loop_fits; [done|].
  unfold MESSAGE_PAYLOAD_MAX, MESSAGE_MAX, MESSAGE_MIN. cbn. lia.
Qed.

(** C2: end to end, a flush of the step queue makes the micro-controller pulse
    on time.  Take the [queue_step] commands whose encodings (complete
    VLQ sequences) a flush appends to the message queue; the step times the firmware's stepper derives from them (after a step
    at the host's last step clock) are, modulo 2^32, a list of clocks that
    matches the requested step times one to one, each at most [max_error] ticks
    early and never late. *)
Theorem flush_pulses_on_time sc d :
  good_queue sc -> no_wrap sc ->
  exists cmds clocks sc',
    queue_flush UINT64_MAX sc = Ret 0 sc' /\
    qm_msg <$> msg_queue sc' = (qm_msg <$> msg_queue sc) ++ (message_alloc_and_encode <$> cmds) /\
    queue_times (u32 (last_step_clock sc)) d (mcu_move <$> cmds) = (fun w => (u32 w, d)) <$> clocks /\
    Forall (fun c => message_alloc_and_encode c = concat (Host.encode_int <$> c)) cmds /\
    Forall2 (on_time (max_error sc)) clocks (queue_clocks sc (queue_len sc)).
Proof.
  intros G N. destruct (queue_flush_spec UINT64_MAX sc G N) as (ms & sc' & E & F & H).
  pose proof (flushed_all sc ms sc' F H) as Hc. pose proof F as [_ F0 F2 F3 _ _].
  exists (move_data sc <$> ms), (sent_clocks (last_step_clock sc) ms), sc'.
  split_and!; [done|done|by apply queue_times_clocks| |by rewrite <- Hc].
  apply Forall_fmap, Forall_true. intros m. apply encode_move_data.
Qed.

Lemma flush_pulses_on_time_witness :
  exists cmds clocks sc',
    queue_flush UINT64_MAX demo_sc = Ret 0 sc' /\ qm_msg <$> msg_queue sc' = message_alloc_and_encode <$> cmds /\
    queue_times 0 true (mcu_move <$> cmds) = (fun w => (u32 w, true)) <$> clocks /\
    Forall2 (on_time 25) clocks demo_steps.
Proof.
  destruct (flush_pulses_on_time demo_sc true demo_sc_good demo_sc_no_wrap) as (cmds & clocks & sc' & E & D & T & _ & O).
  exists cmds, clocks, sc'. split; [exact E|]. split; [exact D|]. split; [exact T|exact O].
Defined.

(** ** Boundary cases of the step queue *)

(** Queue one step at an absolute clock, as [stepcompress_append] does once the
    next step is known. *)
Definition queue_step_at (clock : Z) : M stepcompress Z :=
  modify (fun sc => sc <| next_step_clock := clock |>);;; queue_append.
Fixpoint queue_steps_at (clocks : list Z) : M stepcompress Z :=
  match clocks with
  | [] => ret 0
  | c :: l => checked queue_step_at c;; queue_steps_at l
  end.

(** 512 steps at one speed, 512 at a higher one. *)
Definition two_speeds : list Z :=
  ((fun k => 1000 * k) <$> seqZ 1 512) ++ ((fun k => 512000 + 700 * k) <$> seqZ 1 512).
Definition new_stepcompress : stepcompress :=
  (stepcompress_fill 3 25 10 11 stepcompress_alloc) <| sdir := 0 |>.

(** A far step can be stored past the end of the step buffer.  The slow
    path for a step CLOCK_DIFF_MAX or more ticks ahead stores the step without
    making room for it: with 1024 steps queued (exactly the buffer the first
    extension allocates) and a flush that sends only part of them, the store is
    at index [queue_end], out of bounds. *)
Theorem queue_append_far_overflow :
  exists sc, queue_steps_at two_speeds new_stepcompress = Ret 0 sc /\
    queue_pos sc = 0 /\ queue_next sc = 1024 /\ queue_end sc = 1024 /\
    exists sc', queue_step_at CLOCK_DIFF_MAX sc = Crash sc' /\
      queue_next sc' = queue_end sc' /\ queue_pos sc' = 512.
Proof.
  eexists. split; [apply result_ret; vm_compute; reflexivity|].
  split; [vm_compute; reflexivity|]. split; [vm_compute; reflexivity|]. split; [vm_compute; reflexivity|].
  eexists. split; [apply crashed_crash; vm_compute; reflexivity|]. split; vm_compute; reflexivity.
Qed.

(** [count*(count-1)/2] in [int] arithmetic overflows from 46342 steps on. *)
Lemma addfactor_overflows : addfactor 46341 = tri 46341 /\ addfactor 46342 < 0.
Proof. vm_compute. split; reflexivity. Qed.
