(* ===== verification/Pollreactor.v ===== *)
(** * Timers and file descriptors of a host thread (klippy/chelper/pollreactor.c)

    The loop of a background thread: it calls the timers that are due, sleeps in
    [poll] until the next one or until a file descriptor has something, and calls
    the callbacks of those. *)

From S2P Require Import Prelude Double.

Definition PR_NOW : double := of_Z 0.
Definition PR_NEVER : double := of_Z 9999999999999999.
Definition POLLIN : Z := 0x001.
Definition POLLHUP : Z := 0x010.

Record pollfd := mk_pollfd { pfd_fd : Z; pfd_events : Z; pfd_revents : Z }.
#[export] Instance eta_pollfd : Eta pollfd := fun f => mk_pollfd (pfd_fd f) (pfd_events f) (pfd_revents f).

(** Callbacks are kept as numbers, 0 for NULL; [pr_timers] and [pr_callbacks] are
    the fields [waketime] and [callback] of the timers. *)
Record pollreactor := mk_pollreactor {
  num_fds : nat;
  num_timers : nat;
  pr_fds : Z -> pollfd;
  fd_callbacks : Z -> Z;
  pr_callbacks : Z -> Z;
  pr_timers : Z -> double;
  next_timer : double;
  must_exit : Z }.
#[export] Instance eta_pollreactor : Eta pollreactor := fun p =>
  mk_pollreactor (num_fds p) (num_timers p) (pr_fds p) (fd_callbacks p) (pr_callbacks p) (pr_timers p) (next_timer p)
    (must_exit p).

Definition pollreactor_alloc (fds timers : nat) : pollreactor :=
  mk_pollreactor fds timers (fun _ => mk_pollfd 0 0 0) (fun _ => 0) (fun _ => 0) (fun _ => PR_NEVER) PR_NEVER 0.
Definition pollreactor_add_fd (pos fd callback : Z) (write_only : bool) (p : pollreactor) : pollreactor :=
  p <| pr_fds ::= <[pos := mk_pollfd fd (Z.lor POLLHUP (if write_only then 0 else POLLIN)) 0]> |>
    <| fd_callbacks ::= <[pos := callback]> |>.
Definition pollreactor_add_timer (pos callback : Z) (p : pollreactor) : pollreactor :=
  p <| pr_callbacks ::= <[pos := callback]> |> <| pr_timers ::= <[pos := PR_NEVER]> |>.
Definition pollreactor_get_timer (pos : Z) (p : pollreactor) : double := pr_timers p pos.
Definition pollreactor_update_timer (pos : Z) (waketime : double) (p : pollreactor) : pollreactor :=
  let p := p <| pr_timers ::= fun t => <[pos := waketime]> t |> in
  if (waketime <? next_timer p)%D then p <| next_timer := waketime |> else p.
Definition pollreactor_do_exit (p : pollreactor) : pollreactor := p <| must_exit := 1 |>.
Definition pollreactor_is_exit (p : pollreactor) : bool := truthy (must_exit p).

(** [ceil]: a double with a fraction is below 2^53. *)
Definition dceil (x : double) : double :=
  match x with
  | S754_finite s m e =>
    if 0 <=? e then x
    else of_Z (if s then - Z.shiftr (Zpos m) (- e) else - Z.shiftr (Zneg m) (- e))
  | _ => x
  end.

(** A thread's state with its reactor. *)
Class Reactor (W : Type) := {
  pr_of : W -> pollreactor;
  pr_upd : (pollreactor -> pollreactor) -> W -> W;
  pr_of_upd f w : pr_of (pr_upd f w) = f (pr_of w) }.

(** What a call of [poll] returns: its result, the events and the time after. *)
Record poll_result := mk_poll_result { po_ret : Z; po_revents : Z -> Z; po_time : double }.

Section reactor.
Context {W : Type} `{Reactor W}.
(** The functions the callback numbers stand for. *)
Context (timer_callback : Z -> double -> M W double) (fd_callback : Z -> double -> M W unit).

(** "Find and run pending timers": [n] timers from place [i]; the new [busy]. *)
Fixpoint timers_loop (n : nat) (i : Z) (eventtime : double) (busy : Z) : M W Z :=
  match n with
  | O => ret busy
  | S n =>
    p <- gets pr_of;;
    let t := pr_timers p i in
    r <- (if (t <=? eventtime)%D then
            t <- timer_callback (pr_callbacks p i) eventtime;;
            modify (pr_upd (fun p => p <| pr_timers ::= <[i := t]> |>));;;
            ret (1, t)
          else ret (busy, t));;
    let '(busy, t) := r in
    modify (pr_upd (fun p => if (t <? next_timer p)%D then p <| next_timer := t |> else p));;;
    timers_loop n (i + 1) eventtime busy
  end.

(** The poll timeout in milliseconds. *)
Definition poll_timeout (p : pollreactor) (eventtime : double) : option Z :=
  let timeout := dceil ((next_timer p - eventtime) * of_Z 1000)%D in
  if (timeout <? of_Z 1)%D then Some 1
  else if (of_Z 1000 <? timeout)%D then Some 1000 else to_s32 timeout.

Definition pollreactor_check_timers (eventtime : double) (busy : Z) : M W Z :=
  p <- gets pr_of;;
  busy <- (if (next_timer p <=? eventtime)%D then
             modify (pr_upd (fun p => p <| next_timer := PR_NEVER |>));;;
             timers_loop (num_timers p) 0 eventtime busy
           else ret busy);;
  if truthy busy then ret 0 else
  p <- gets pr_of;;
  match poll_timeout p eventtime with
  | Some timeout => ret timeout
  | None => crash
  end.

(** The callbacks of the file descriptors with events: [n] of them from place [i]. *)
Fixpoint fds_loop (n : nat) (i : Z) (eventtime : double) : M W unit :=
  match n with
  | O => ret tt
  | S n =>
    p <- gets pr_of;;
    (if truthy (pfd_revents (pr_fds p i)) then fd_callback (fd_callbacks p i) eventtime else ret tt);;;
    fds_loop n (i + 1) eventtime
  end.

(** What follows a call of [poll]: the new [busy]. *)
Definition after_poll (r : poll_result) : M W Z :=
  modify (pr_upd (fun p => p <| pr_fds ::= fun fds i => (fds i) <| pfd_revents := po_revents r i |> |>));;;
  if 0 <? po_ret r then
    p <- gets pr_of;;
    fds_loop (num_fds p) 0 (po_time r);;;
    ret 1
  else if po_ret r <? 0 then modify (pr_upd pollreactor_do_exit);;; ret 0
  else ret 0.

(** The loop of [pollreactor_run], for the given results of [poll]: whether it
    ended; otherwise it is in the next [poll], with the given timeout. *)
Inductive run_state : Type := Ended | Polling (timeout : Z).
Fixpoint run_loop (inputs : list poll_result) (eventtime : double) (busy : Z) : M W run_state :=
  p <- gets pr_of;;
  if pollreactor_is_exit p then ret Ended else
  timeout <- pollreactor_check_timers eventtime busy;;
  match inputs with
  | [] => ret (Polling timeout)
  | r :: inputs =>
    busy <- after_poll r;;
    run_loop inputs (po_time r) busy
  end.
Definition pollreactor_run (inputs : list poll_result) (start : double) : M W run_state := run_loop inputs start 1.

(** ** No timer is missed *)

(** What callbacks do to the reactor. *)
Inductive uses : pollreactor -> pollreactor -> Prop :=
| uses_nothing p : uses p p
| uses_update p p' pos t : uses (pollreactor_update_timer pos t p) p' -> uses p p'
| uses_exit p p' : uses (pollreactor_do_exit p) p' -> uses p p'.

Lemma uses_trans p1 p2 p3 : uses p1 p2 -> uses p2 p3 -> uses p1 p3.
Proof. induction 1; intros; [done|by eapply uses_update, IHuses|by apply uses_exit, IHuses]. Qed.

(** None of the first [n] timers is before the time the reactor wakes up for. *)
Definition kept (n : Z) (p : pollreactor) : Prop :=
  next_timer p <> S754_nan /\ forall i, 0 <= i < n -> dlt (pr_timers p i) (next_timer p) = false.
Definition timers_kept (p : pollreactor) : Prop := kept (Z.of_nat (num_timers p)) p.

(** [next_timer] lowered to [t]. *)
Lemma kept_lower n p t :
  kept n p -> kept n (if (t <? next_timer p)%D then p <| next_timer := t |> else p) /\
  dlt t (next_timer (if (t <? next_timer p)%D then p <| next_timer := t |> else p)) = false.
Proof.
  intros [Hn Hk]. destruct (dlt t (next_timer p)) eqn:E; [|done]. cbn. split; [|apply dlt_irrefl].
  split; [by eapply dlt_number|]. intros i Hi. apply not_true_is_false. intros Hlt.
  cbn in Hlt. assert (Hx := dlt_trans _ _ _ Hlt E). by rewrite Hk in Hx.
Qed.

Lemma kept_timer n p pos t :
  kept n p -> dlt t (next_timer p) = false -> kept n (p <| pr_timers ::= <[pos := t]> |>).
Proof.
  intros [Hn Hk] Ht. split; [done|]. cbn. intros i Hi. destruct (decide (i = pos)) as [->|Hne].
  - by rewrite fn_lookup_insert.
  - rewrite fn_lookup_insert_ne by done. by apply Hk.
Qed.

Lemma kept_update n p pos t : kept n p -> kept n (pollreactor_update_timer pos t p).
Proof.
  intros Hk. unfold pollreactor_update_timer. cbn [next_timer set eta_pollreactor].
  destruct (kept_lower n p t Hk) as [H1 H2]. destruct (dlt t (next_timer p)) eqn:E.
  - assert (H3 := kept_timer n _ pos t H1 H2). exact H3.
  - by apply kept_timer.
Qed.

Lemma kept_uses n p p' : kept n p -> uses p p' -> kept n p'.
Proof. intros Hk Hu. induction Hu as [p|p p' pos t Hu IH|p p' Hu IH]; [done|apply IH; by apply kept_update|by apply IH]. Qed.

Lemma uses_num p p' : uses p p' -> num_timers p' = num_timers p.
Proof.
  induction 1 as [p|p p' pos t Hu IH|p p' Hu IH]; [done| |done]. rewrite IH. unfold pollreactor_update_timer.
  by destruct (_ <? _)%D.
Qed.

(** The callbacks use only the interface. *)
Context (Htimer : forall c e w t w', timer_callback c e w = Ret t w' -> uses (pr_of w) (pr_of w')).
Context (Hfd : forall c e w w', fd_callback c e w = Ret tt w' -> uses (pr_of w) (pr_of w')).

Lemma timers_loop_kept n i eventtime busy w b w' :
  0 <= i -> kept i (pr_of w) -> timers_loop n i eventtime busy w = Ret b w' ->
  kept (i + Z.of_nat n) (pr_of w') /\ num_timers (pr_of w') = num_timers (pr_of w) /\ (busy = 1 -> b = 1).
Proof.
  revert i busy w. induction n as [|n IH]; intros i busy w Hi Hk E; cbn [timers_loop] in E.
  { injection E as <- <-. rewrite Z.add_0_r. done. }
  rewrite (bind_ret (gets pr_of) _ w (pr_of w) w eq_refl) in E. cbv zeta in E.
  apply bind_inv in E as ([busy' t] & w1 & E1 & E). apply bind_inv in E as ([] & w2 & E2 & E3). injection E2 as <-.
  assert (H1 : kept i (pr_of w1) /\ num_timers (pr_of w1) = num_timers (pr_of w) /\ pr_timers (pr_of w1) i = t /\ (busy = 1 -> busy' = 1)).
  { destruct (_ <=? _)%D.
    - apply bind_inv in E1 as (t' & w0 & Ec & E1). apply bind_inv in E1 as ([] & w0' & Em & Er).
      injection Em as <-. injection Er as <- <- <-. rewrite pr_of_upd. cbn. rewrite fn_lookup_insert.
      assert (Hu := Htimer _ _ _ _ _ Ec). split; [|split; [by apply uses_num|done]].
      destruct (kept_uses i _ _ Hk Hu) as [Hn Hx]. split; [done|]. cbn. intros j Hj. rewrite fn_lookup_insert_ne by lia. by apply Hx.
    - injection E1 as <- <- <-. done. }
  destruct H1 as (Hk1 & En1 & Et & Hb). apply IH in E3 as (Hk3 & En3 & Hb3); [| lia |].
  - replace (i + Z.of_nat (S n)) with (i + 1 + Z.of_nat n) by lia. split; [done|]. split.
    + rewrite En3, pr_of_upd. rewrite <- En1. by destruct (_ <? _)%D.
    + tauto.
  - rewrite pr_of_upd. destruct (kept_lower i (pr_of w1) t Hk1) as [[Hn Hx] Hl]. split; [done|]. intros j Hj.
    destruct (decide (j = i)) as [->|Hne]; [|apply Hx; lia].
    replace (pr_timers (if (t <? next_timer (pr_of w1))%D then _ else _) i) with t; [done|]. rewrite <- Et at 1. by destruct (_ <? _)%D.
Qed.

Lemma never_number : PR_NEVER <> S754_nan.
Proof. by vm_compute. Qed.

Lemma check_timers_kept eventtime busy w timeout w' :
  timers_kept (pr_of w) -> pollreactor_check_timers eventtime busy w = Ret timeout w' ->
  timers_kept (pr_of w') /\ (busy = 1 -> timeout = 0).
Proof.
  intros Hk E. unfold pollreactor_check_timers in E. rewrite (bind_ret (gets pr_of) _ w (pr_of w) w eq_refl) in E.
  apply bind_inv in E as (b & w1 & E1 & E2).
  assert (H1 : timers_kept (pr_of w1) /\ (busy = 1 -> b = 1)).
  { destruct (_ <=? _)%D; [|by injection E1 as <- <-].
    rewrite (bind_ret (modify _) _ w tt _ eq_refl) in E1.
    apply timers_loop_kept in E1 as (Hk1 & En & Hb); [|lia|].
    - split; [|done]. unfold timers_kept. rewrite En, pr_of_upd. exact Hk1.
    - rewrite pr_of_upd. split; [apply never_number|lia]. }
  destruct H1 as [Hk1 Hb]. destruct (truthy b) eqn:Eb.
  - injection E2 as <- <-. done.
  - rewrite (bind_ret (gets pr_of) _ w1 (pr_of w1) w1 eq_refl) in E2. destruct (poll_timeout _ _); [|done]. injection E2 as <- <-.
    split; [done|]. intros Hb'. by rewrite (Hb Hb') in Eb.
Qed.

Lemma fds_loop_kept n i eventtime w w' :
  timers_kept (pr_of w) -> fds_loop n i eventtime w = Ret tt w' -> timers_kept (pr_of w').
Proof.
  revert i w. induction n as [|n IH]; intros i w Hk E; cbn [fds_loop] in E; [by injection E as <-|].
  rewrite (bind_ret (gets pr_of) _ w (pr_of w) w eq_refl) in E. apply bind_inv in E as ([] & w1 & E1 & E2).
  apply IH in E2; [done|]. destruct (truthy _); [|by injection E1 as <-].
  assert (Hu := Hfd _ _ _ _ E1). unfold timers_kept. rewrite (uses_num _ _ Hu). by apply kept_uses with (pr_of w).
Qed.

Lemma after_poll_kept r w busy w' :
  timers_kept (pr_of w) -> after_poll r w = Ret busy w' -> timers_kept (pr_of w') /\ (0 < po_ret r -> busy = 1).
Proof.
  intros Hk E. unfold after_poll in E. rewrite (bind_ret (modify _) _ w tt _ eq_refl) in E. set (w1 := pr_upd _ w) in E.
  assert (Hk1 : timers_kept (pr_of w1)) by (unfold w1; rewrite pr_of_upd; exact Hk).
  destruct (Z.ltb_spec 0 (po_ret r)).
  - rewrite (bind_ret (gets pr_of) _ w1 (pr_of w1) w1 eq_refl) in E. apply bind_inv in E as ([] & w2 & E1 & E2).
    injection E2 as <- <-. split; [by eapply fds_loop_kept|done].
  - split; [|lia]. destruct (Z.ltb_spec (po_ret r) 0).
    + rewrite (bind_ret (modify _) _ w1 tt _ eq_refl) in E. injection E as <- <-. rewrite pr_of_upd. exact Hk1.
    + injection E as <- <-. done.
Qed.

(** Through any number of rounds. *)
Lemma run_kept inputs eventtime busy w r w' :
  timers_kept (pr_of w) -> run_loop inputs eventtime busy w = Ret r w' -> timers_kept (pr_of w').
Proof.
  revert eventtime busy w. induction inputs as [|x inputs IH]; intros eventtime busy w Hk E; cbn [run_loop] in E;
    rewrite (bind_ret (gets pr_of) _ w (pr_of w) w eq_refl) in E; (destruct (pollreactor_is_exit _); [by injection E as <- <-|]);
    apply bind_inv in E as (timeout & w1 & E1 & E2); apply check_timers_kept in E1 as [Hk1 _]; try done.
  - by injection E2 as <- <-.
  - apply bind_inv in E2 as (b & w2 & E2 & E3). apply after_poll_kept in E2 as [Hk2 _]; [|done]. by apply IH in E3.
Qed.

(** The first timer that is due at [eventtime]. *)
Definition first_due (eventtime : double) (p : pollreactor) (i : Z) : Prop :=
  0 <= i < Z.of_nat (num_timers p) /\ dle (pr_timers p i) eventtime = true /\
  forall j, 0 <= j < i -> dle (pr_timers p j) eventtime = false.

Lemma timers_loop_first n k i eventtime busy w :
  i <= k < i + Z.of_nat n -> dle (pr_timers (pr_of w) k) eventtime = true ->
  (forall j, i <= j < k -> dle (pr_timers (pr_of w) j) eventtime = false) ->
  exists w1 rest, timers_loop n i eventtime busy w = bind (timer_callback (pr_callbacks (pr_of w) k) eventtime) rest w1 /\
    pr_timers (pr_of w1) = pr_timers (pr_of w).
Proof.
  revert i w. induction n as [|n IH]; intros i w Hk Hd Hj; [lia|]. cbn [timers_loop].
  rewrite (bind_ret (gets pr_of) _ w (pr_of w) w eq_refl). destruct (decide (i = k)) as [->|Hne].
  - exists w. eexists. rewrite Hd. split; [apply bind_assoc|done].
  - rewrite (Hj i) by lia. rewrite (bind_ret (ret _) _ w _ w eq_refl). rewrite (bind_ret (modify _) _ w tt _ eq_refl).
    set (w2 := pr_upd _ w).
    assert (E2 : pr_timers (pr_of w2) = pr_timers (pr_of w) /\ pr_callbacks (pr_of w2) = pr_callbacks (pr_of w)).
    { unfold w2. rewrite pr_of_upd. by destruct (_ <? _)%D. }
    destruct E2 as [Et Ec]. destruct (IH (i + 1) w2) as (w1 & rest & E & E1); [lia|by rewrite Et|intros j Hj'; rewrite Et; apply Hj; lia|].
    exists w1, rest. rewrite Ec in E. split; [exact E|]. by rewrite E1, Et.
Qed.

(** A due timer is called. *)
Lemma due_timer_called eventtime busy w i :
  timers_kept (pr_of w) -> first_due eventtime (pr_of w) i ->
  exists w1 rest, pollreactor_check_timers eventtime busy w =
    bind (timer_callback (pr_callbacks (pr_of w) i) eventtime) rest w1 /\ pr_timers (pr_of w1) = pr_timers (pr_of w).
Proof.
  intros [Hn Hk] (Hi & Hd & Hj). unfold pollreactor_check_timers. rewrite (bind_ret (gets pr_of) _ w (pr_of w) w eq_refl).
  destruct (dle_number _ _ Hd) as [Ht He].
  assert (Hle : dle (next_timer (pr_of w)) eventtime = true).
  { rewrite dle_dlt in Hd |- * by done. apply negb_true_iff. apply negb_true_iff in Hd.
    apply (dlt_false_trans _ (pr_timers (pr_of w) i)); [done|done|by apply Hk]. }
  rewrite Hle. set (w0 := pr_upd (fun p => p <| next_timer := PR_NEVER |>) w).
  assert (E0 : pr_timers (pr_of w0) = pr_timers (pr_of w) /\ pr_callbacks (pr_of w0) = pr_callbacks (pr_of w))
    by (unfold w0; by rewrite pr_of_upd).
  destruct E0 as [Et Ec]. destruct (timers_loop_first (num_timers (pr_of w)) i 0 eventtime busy w0) as (w1 & rest & E & E1);
    [lia|by rewrite Et|intros j Hj'; rewrite Et; by apply Hj|].
  exists w1. eexists. split; [|by rewrite E1]. rewrite bind_assoc, (bind_ret (modify (pr_upd (fun p => p <| next_timer := PR_NEVER |>))) _ w tt w0 eq_refl).
  rewrite Ec in E. unfold bind at 1. rewrite E. apply bind_assoc.
Qed.
End reactor.
