(* ===== verification/Serialqueue.v ===== *)
(** * The host's serial port queue (klippy/chelper/serialqueue.c)

    A background thread packs queued messages into blocks, sends them, and
    resends them until they are acknowledged.  Every operation of the thread
    runs under one mutex and the additions of other threads under a second one;
    the model's operations are these critical sections. *)

From S2P Require Import Prelude Double Crc Vlq Command Msgblock Pollreactor.

(** ** Data *)

Record command_queue := mk_command_queue {
  cq_ready : list queue_message;
  cq_upcoming : list queue_message }.
#[export] Instance eta_command_queue : Eta command_queue := fun q =>
  mk_command_queue (cq_ready q) (cq_upcoming q).

Record receiver := mk_receiver {
  r_waiting : Z;
  r_queue : list queue_message;
  r_old_receive : list queue_message;
  r_signals : nat }.                 (* wake-ups of the condition variable *)
#[export] Instance eta_receiver : Eta receiver := fun r =>
  mk_receiver (r_waiting r) (r_queue r) (r_old_receive r) (r_signals r).

Record transmit_requests := mk_transmit_requests {
  upcoming_queues : list Z;
  upcoming_bytes : Z;
  need_kick_clock : Z;
  min_release_clock : Z;
  kicks : nat }.                     (* bytes written to the wake-up pipe *)
#[export] Instance eta_transmit_requests : Eta transmit_requests := fun t =>
  mk_transmit_requests (upcoming_queues t) (upcoming_bytes t) (need_kick_clock t)
    (min_release_clock t) (kicks t).

Inductive fd_type : Set := SQT_UART | SQT_CAN | SQT_DEBUGFILE.
#[export] Instance fd_type_eq_dec : EqDecision fd_type.
Proof. solve_decision. Defined.

(** [command_queues] are the command queues by address, [fast_readers] the
    prefixes and callbacks of the registered readers.  [wire] collects what was
    written to the file descriptor, [dispatched] the calls of fast readers;
    [n_writes] and [n_times] count the [write] and [get_monotonic] calls. *)
Record serialqueue := mk_serialqueue {
  sq_pr : pollreactor;
  serial_fd_type : fd_type;
  client_id : Z;
  input_buf : list Z;                (* the first [input_pos] bytes *)
  need_sync : bool;
  sq_receiver : receiver;
  sq_transmit : transmit_requests;
  receive_window : Z;
  bittime_adjust : double;
  idle_time : double;
  sq_ce : clock_estimate;
  last_receive_sent_time : double;
  send_seq : Z;
  receive_seq : Z;
  ignore_nak_seq : Z;
  last_ack_seq : Z;
  retransmit_seq : Z;
  rtt_sample_seq : Z;
  sent_queue : list queue_message;
  srtt : double;
  rttvar : double;
  rto : double;
  ready_queues : list Z;
  ready_bytes : Z;
  need_ack_bytes : Z;
  last_ack_bytes : Z;
  notify_queue : list queue_message;
  last_write_fail_time : double;
  fast_readers : list (list Z * Z);
  old_sent : list queue_message;
  bytes_write : Z;
  bytes_read : Z;
  bytes_retransmit : Z;
  bytes_invalid : Z;
  command_queues : Z -> command_queue;
  wire : list (list Z);
  dispatched : list (Z * list Z);
  n_writes : nat;
  n_times : nat }.
#[export] Instance eta_serialqueue : Eta serialqueue := fun s =>
  mk_serialqueue (sq_pr s) (serial_fd_type s) (client_id s) (input_buf s) (need_sync s) (sq_receiver s)
    (sq_transmit s) (receive_window s) (bittime_adjust s) (idle_time s) (sq_ce s)
    (last_receive_sent_time s) (send_seq s) (receive_seq s) (ignore_nak_seq s) (last_ack_seq s)
    (retransmit_seq s) (rtt_sample_seq s) (sent_queue s) (srtt s) (rttvar s) (rto s) (ready_queues s)
    (ready_bytes s) (need_ack_bytes s) (last_ack_bytes s) (notify_queue s) (last_write_fail_time s)
    (fast_readers s) (old_sent s) (bytes_write s) (bytes_read s) (bytes_retransmit s) (bytes_invalid s)
    (command_queues s) (wire s) (dispatched s) (n_writes s) (n_times s).

Definition SQPF_SERIAL : Z := 0.
Definition SQPF_PIPE : Z := 1.
Definition SQPF_NUM : nat := 2.
Definition SQPT_RETRANSMIT : Z := 0.
Definition SQPT_COMMAND : Z := 1.
Definition SQPT_NUM : nat := 2.
Definition MIN_RTO : double := lit 25 1000.
Definition MAX_RTO : double := of_Z 5.
Definition MAX_PENDING_BLOCKS : Z := 12.
Definition MIN_REQTIME_DELTA : double := lit 100 1000.
Definition MIN_BACKGROUND_DELTA : double := lit 5 1000.
Definition DEBUG_QUEUE_SENT : nat := 100.
Definition DEBUG_QUEUE_RECEIVE : nat := 100.
Definition MAX_CLOCK : Z := 0x7fffffffffffffff.
Definition BACKGROUND_PRIORITY_CLOCK : Z := 0x7fffffff00000000.
Definition CANBUS_PACKET_BITS : Z := (1 + 11 + 3 + 4) + (16 + 2 + 7 + 3).
Definition CANBUS_IFS_BITS : Z := 4.

Section serialqueue.
(** The results of the [write] calls and the readings of the monotonic clock. *)
Context (write_result : nat -> Z) (monotonic : nat -> double).

(** ** Helpers *)

Definition debug_queue_alloc (count : nat) : list queue_message := replicate count message_alloc.
Definition debug_queue_add (root : list queue_message) (qm : queue_message) : list queue_message :=
  drop 1 (root ++ [qm]).

Definition receive_append_wake (msgs : list queue_message) (r : receiver) : receiver :=
  let r := r <| r_queue ::= fun q => q ++ msgs |> in
  if truthy (r_waiting r) then r <| r_waiting := 0 |> <| r_signals ::= S |> else r.

Definition kick_bg_thread (t : transmit_requests) : transmit_requests := t <| kicks ::= S |>.

Definition calculate_bittime (sq : serialqueue) (bytes : Z) : double :=
  if decide (serial_fd_type sq = SQT_CAN) then
    let pkts := DIV_ROUND_UP bytes 8 in
    let bits := u32 (bytes * 8 + pkts * CANBUS_PACKET_BITS - CANBUS_IFS_BITS) in
    (bittime_adjust sq * of_Z bits)%D
  else (bittime_adjust sq * of_Z bytes)%D.

Definition set_timer (pos : Z) (t : double) (sq : serialqueue) : serialqueue :=
  sq <| sq_pr ::= pollreactor_update_timer pos t |>.

(** ** Receiving *)

(** The loop of [update_receive_seq] that takes acknowledged blocks off the
    sent queue.  The head of an empty queue is looked at but not used. *)
Fixpoint ack_loop (queue : list queue_message) (sent_seq rseq : Z) (sq : serialqueue) : serialqueue :=
  match queue with
  | [] => sq <| sent_queue := [] |> <| send_seq := rseq |> <| last_receive_sent_time := of_Z 0 |>
  | sent :: queue =>
    let sq := sq <| need_ack_bytes := need_ack_bytes sq - qm_len sent |> <| sent_queue := queue |>
                 <| old_sent ::= fun o => debug_queue_add o sent |> in
    let sent_seq := u64 (sent_seq + 1) in
    if rseq =? sent_seq
    then sq <| last_receive_sent_time := qm_receive_time sent |> <| last_ack_bytes := qm_len sent |>
    else ack_loop queue sent_seq rseq sq
  end.

(** RFC6298 round trip calculations. *)
Definition update_rtt (eventtime : double) (sq : serialqueue) : serialqueue :=
  let delta := (eventtime - last_receive_sent_time sq)%D in
  let sq :=
    if dzero (srtt sq)
    then sq <| rttvar := (delta / of_Z 2)%D |> <| srtt := (delta * of_Z 10)%D |>
    else sq <| rttvar := ((of_Z 3 * rttvar sq + dabs (srtt sq - delta)) / of_Z 4)%D |>
            <| srtt := ((of_Z 7 * srtt sq + delta) / of_Z 8)%D |> in
  let rttvar4 := (rttvar sq * of_Z 4)%D in
  let rttvar4 := if (rttvar4 <? lit 1 1000)%D then lit 1 1000 else rttvar4 in
  let new_rto := (srtt sq + rttvar4)%D in
  let new_rto := if (new_rto <? MIN_RTO)%D then MIN_RTO
                 else if (MAX_RTO <? new_rto)%D then MAX_RTO else new_rto in
  sq <| rto := new_rto |> <| rtt_sample_seq := 0 |>.

Definition update_receive_seq (eventtime : double) (rseq : Z) (sq : serialqueue) : serialqueue :=
  let sq := ack_loop (sent_queue sq) (receive_seq sq) rseq sq in
  let sq := sq <| receive_seq := rseq |> in
  let sq := set_timer SQPT_COMMAND PR_NOW sq in
  let sq := if truthy (rtt_sample_seq sq) && (rtt_sample_seq sq <? rseq)
               && negb (dzero (last_receive_sent_time sq))
            then update_rtt eventtime sq else sq in
  match sent_queue sq with
  | [] => set_timer SQPT_RETRANSMIT PR_NEVER sq
  | sent :: _ =>
    set_timer SQPT_RETRANSMIT (eventtime + rto sq + calculate_bittime sq (qm_len sent))%D sq
  end.

(** The messages whose notification is due, and the rest of the queue. *)
Fixpoint take_notify (queue : list queue_message) (wake_seq : Z) (sent_time receive_time : double)
    : list queue_message * list queue_message :=
  match queue with
  | [] => ([], [])
  | qm :: rest =>
    if wake_seq <? qm_req_clock qm then ([], queue)
    else
      let (received, rest) := take_notify rest wake_seq sent_time receive_time in
      (qm <| qm_msg := [] |> <| qm_sent_time := sent_time |> <| qm_receive_time := receive_time |>
         :: received, rest)
  end.

(** The first fast reader whose prefix the message has. *)
Definition find_fast_reader (readers : list (list Z * Z)) (msg : list Z) : option Z :=
  match list_find (fun fr => (length fr.1 + MESSAGE_MIN <= length msg)%nat /\
                             take (length fr.1) (drop MESSAGE_HEADER_SIZE msg) = fr.1) readers with
  | Some (_, fr) => Some fr.2
  | None => None
  end.

(** [msg] is the well-formed message at the start of [input_buf]. *)
Definition handle_message (eventtime : double) (msg : list Z) (sq : serialqueue) : serialqueue :=
  let len := Z.of_nat (length msg) in
  let rseq_delta := Z.land (u64 (msg !!! MESSAGE_POS_SEQ - receive_seq sq)) MESSAGE_SEQ_MASK in
  let rseq := u64 (receive_seq sq + rseq_delta) in
  if negb (rseq =? receive_seq sq) && ((send_seq sq <? rseq) && negb (receive_seq sq =? 1))
  then sq <| bytes_invalid := u32 (bytes_invalid sq + len) |>
  else
    let sq := if rseq =? receive_seq sq then sq else update_receive_seq eventtime rseq sq in
    let sq := sq <| bytes_read := u32 (bytes_read sq + len) |> in
    let wake_seq := u64 (rseq - 1 - b2z (Z.of_nat MESSAGE_MIN <? len)) in
    let (received, rest) := take_notify (notify_queue sq) wake_seq (last_receive_sent_time sq) eventtime in
    let sq := sq <| notify_queue := rest |> in
    let '(received, sq) :=
      if len =? Z.of_nat MESSAGE_MIN then
        (received,
         if last_ack_seq sq <? rseq then sq <| last_ack_seq := rseq |>
         else if (ignore_nak_seq sq <? rseq) && negb (bool_decide (sent_queue sq = []))
         then set_timer SQPT_RETRANSMIT PR_NOW sq else sq)
      else
        let qm := message_fill msg in
        let qm := qm <| qm_sent_time := if retransmit_seq sq <? rseq
                                        then last_receive_sent_time sq else of_Z 0 |> in
        let qm := qm <| qm_receive_time := (monotonic (n_times sq) - calculate_bittime sq len)%D |> in
        (received ++ [qm], sq <| n_times ::= S |>) in
    let sq := if bool_decide (received = []) then sq
              else sq <| sq_receiver ::= receive_append_wake received |> in
    match find_fast_reader (fast_readers sq) msg with
    | Some fr => sq <| dispatched ::= fun l => l ++ [(fr, msg)] |>
    | None => sq
    end.

(** The loop of [input_event] over the bytes read so far. *)
Fixpoint input_loop (fuel : nat) (eventtime : double) (sq : serialqueue) : outcome serialqueue unit :=
  match fuel with
  | O => Crash sq
  | S fuel =>
    let (sync, len) := msgblock_check (need_sync sq) (input_buf sq) in
    let sq := sq <| need_sync := sync |> in
    if len =? 0 then Ret tt sq
    else
      let n := Z.to_nat (Z.abs len) in
      let sq := if 0 <? len then handle_message eventtime (take n (input_buf sq)) sq
                else sq <| bytes_invalid := u32 (bytes_invalid sq + Z.abs len) |> in
      input_loop fuel eventtime (sq <| input_buf ::= drop n |>)
  end.

(** What a [read] returned: an error or end of file, bytes of a character
    device, or a CAN frame. *)
Inductive read_result : Type :=
| ReadError
| ReadBytes (data : list Z)
| ReadFrame (can_id : Z) (data : list Z).

(** Every round of the loop removes at least one byte. *)
Definition input_event (r : read_result) (eventtime : double) (sq : serialqueue) : outcome serialqueue unit :=
  let run data :=
    let sq := sq <| input_buf ::= fun b => b ++ data |> in
    input_loop (S (length (input_buf sq))) eventtime sq in
  match r with
  | ReadError => Ret tt (sq <| sq_pr ::= pollreactor_do_exit |>)
  | ReadBytes data => run data
  | ReadFrame can_id data => if can_id =? client_id sq + 1 then run data else Ret tt sq
  end.

Definition kick_event (sq : serialqueue) : serialqueue := set_timer SQPT_COMMAND PR_NOW sq.

(** ** Sending *)

(** One [write]: its result, with the attempt recorded when it succeeds. *)
Definition do_write_once (buf : list Z) (sq : serialqueue) : Z * serialqueue :=
  let r := write_result (n_writes sq) in
  let sq := sq <| n_writes ::= S |> in
  (r, if 0 <=? r then sq <| wire ::= fun l => l ++ [buf] |> else sq).

(** The loop of [do_write] that cuts a buffer into CAN frames. *)
Fixpoint write_can (fuel : nat) (buf : list Z) (sq : serialqueue) : outcome serialqueue unit :=
  match fuel with
  | O => Crash sq
  | S fuel =>
    match buf with
    | [] => Ret tt sq
    | _ =>
      let (r, sq) := do_write_once (take 8 buf) sq in
      if r <? 0 then
        let curtime := monotonic (n_times sq) in
        let sq := sq <| n_times ::= S |> in
        if dzero (last_write_fail_time sq) then Ret tt (sq <| last_write_fail_time := curtime |>)
        else if (last_write_fail_time sq + of_Z 10 <? curtime)%D
        then Ret tt (sq <| sq_pr ::= pollreactor_do_exit |>) else Ret tt sq
      else write_can fuel (drop 8 buf) (sq <| last_write_fail_time := of_Z 0 |>)
    end
  end.

Definition do_write (buf : list Z) (sq : serialqueue) : outcome serialqueue unit :=
  if decide (serial_fd_type sq = SQT_CAN) then write_can (S (length buf)) buf sq
  else Ret tt (do_write_once buf sq).2.

(** The size of the local buffers of [retransmit_event] and [command_event]. *)
Definition RETRANSMIT_BUF : Z := Z.of_nat MESSAGE_MAX * MAX_PENDING_BLOCKS + 1.
Definition COMMAND_BUF : Z := Z.of_nat MESSAGE_MAX * MAX_PENDING_BLOCKS.

(** Returns the next wake-up time.  Filling the buffer past its end is a
    crash. *)
Definition retransmit_event (eventtime : double) : M serialqueue double := fun sq =>
  let buf := MESSAGE_SYNC :: concat (qm_msg <$> sent_queue sq) in
  let first_buflen := match sent_queue sq with [] => 0 | qm :: _ => qm_len qm + 1 end in
  let buflen := Z.of_nat (length buf) in
  if RETRANSMIT_BUF <? buflen then Crash sq else
  (do_write buf;;;
   (fun sq =>
      let sq := sq <| bytes_retransmit := u32 (bytes_retransmit sq + buflen) |> in
      let sq :=
        if deq (pollreactor_get_timer SQPT_RETRANSMIT (sq_pr sq)) PR_NOW then
          sq <| ignore_nak_seq := if receive_seq sq <? retransmit_seq sq then retransmit_seq sq
                                  else receive_seq sq |>
        else
          let new_rto := (rto sq * of_Z 2)%D in
          sq <| rto := if (MAX_RTO <? new_rto)%D then MAX_RTO else new_rto |>
             <| ignore_nak_seq := send_seq sq |> in
      let sq := sq <| retransmit_seq := send_seq sq |> <| rtt_sample_seq := 0 |>
                   <| idle_time := (eventtime + calculate_bittime sq buflen)%D |> in
      Ret (eventtime + rto sq + calculate_bittime sq first_buflen)%D sq)) sq.

(** The queue whose first message has the lowest [req_clock], and that
    message; [None] when every ready queue's first message is at MAX_CLOCK. *)
Fixpoint highest_priority (queues : list Z) (cqs : Z -> command_queue) (min_clock : Z)
    (best : option (Z * queue_message)) : option (option (Z * queue_message)) :=
  match queues with
  | [] => Some best
  | q :: queues =>
    match cq_ready (cqs q) with
    | [] => None
    | m :: _ =>
      if qm_req_clock m <? min_clock then highest_priority queues cqs (qm_req_clock m) (Some (q, m))
      else highest_priority queues cqs min_clock best
    end
  end.

(** Take the first ready message of queue [q]. *)
Definition pop_ready (q : Z) (sq : serialqueue) : serialqueue :=
  let sq := sq <| command_queues ::= fun c => <[q := (c q) <| cq_ready ::= drop 1 |>]> c |> in
  if bool_decide (cq_ready (command_queues sq q) = [])
  then sq <| ready_queues ::= filter (fun x => x <> q) |> else sq.

(** The loop of [build_and_send_command]: the payload collected so far. *)
Fixpoint collect_messages (fuel : nat) (payload : list Z) : M serialqueue (list Z) := fun sq =>
  match fuel with
  | O => Crash sq
  | S fuel =>
    if ready_bytes sq =? 0 then Ret payload sq else
    match highest_priority (ready_queues sq) (command_queues sq) MAX_CLOCK None with
    | None | Some None => Crash sq
    | Some (Some (q, qm)) =>
      if (MESSAGE_MAX - MESSAGE_TRAILER_SIZE <? MESSAGE_HEADER_SIZE + length payload + length (qm_msg qm))%nat
      then Ret payload sq
      else
        let sq := pop_ready q sq in
        let sq := sq <| ready_bytes := ready_bytes sq - qm_len qm |> in
        let sq := if truthy (qm_notify_id qm)
                  then sq <| notify_queue ::= fun n => n ++ [qm <| qm_req_clock := send_seq sq |>] |>
                  else sq in
        collect_messages fuel (payload ++ qm_msg qm) sq
    end
  end.

(** Header and trailer of a block. *)
Definition build_block (seq : Z) (payload : list Z) : list Z :=
  let len := (MESSAGE_HEADER_SIZE + length payload + MESSAGE_TRAILER_SIZE)%nat in
  let head := [u8 (Z.of_nat len); u8 (Z.lor MESSAGE_DEST (Z.land seq MESSAGE_SEQ_MASK))] ++ payload in
  let crc := Host.msgblock_crc16_ccitt head in
  head ++ [u8 (Z.shiftr crc 8); Z.land crc 0xff; MESSAGE_SYNC].

(** [max(eventtime, idle_time)] plus the time to send [bytes]. *)
Definition idle_after (sq : serialqueue) (eventtime : double) (bytes : Z) : double :=
  ((if (idle_time sq <? eventtime)%D then eventtime else idle_time sq) + calculate_bittime sq bytes)%D.

(** The number of messages that can be ready at once bounds the loop. *)
Definition ready_count (sq : serialqueue) : nat :=
  sum_list_with (fun q => length (cq_ready (command_queues sq q))) (ready_queues sq).

(** The block that was built and stored, [pending] bytes into the buffer of the
    caller. *)
Definition build_and_send_command (pending : Z) (eventtime : double) : M serialqueue (list Z) := fun sq =>
  (payload <- collect_messages (S (ready_count sq)) [];;
   (fun sq =>
      let block := build_block (send_seq sq) payload in
      let idletime := idle_after sq eventtime (pending + Z.of_nat (length block)) in
      let out := (message_fill block) <| qm_sent_time := eventtime |> <| qm_receive_time := idletime |> in
      let sq := match sent_queue sq with
                | [] => set_timer SQPT_RETRANSMIT (idletime + rto sq)%D sq
                | _ => sq
                end in
      let sq := if truthy (rtt_sample_seq sq) then sq else sq <| rtt_sample_seq := send_seq sq |> in
      Ret block (sq <| send_seq := u64 (send_seq sq + 1) |>
                    <| need_ack_bytes := need_ack_bytes sq + Z.of_nat (length block) |>
                    <| sent_queue ::= fun l => l ++ [out] |>))) sq.

(** *** Releasing upcoming messages *)

(** The inner loop of [check_upcoming_queues]: how many messages of a queue are
    released, and the clock the next one waits for. *)
Fixpoint release_count (queue : list queue_message) (ack_clock : Z) : nat * option Z :=
  match queue with
  | [] => (0%nat, None)
  | qm :: queue =>
    if ack_clock <? qm_min_clock qm then (0%nat, Some (qm_min_clock qm))
    else let (n, w) := release_count queue ack_clock in (S n, w)
  end.

Definition total_len (l : list queue_message) : Z := foldr (fun m n => qm_len m + n) 0 l.

(** One round of the outer loop, for the queue [q]. *)
Definition release_queue (q ack_clock min_stalled : Z) (sq : serialqueue) : Z * serialqueue :=
  let cq := command_queues sq q in
  let not_in_ready_queues := bool_decide (cq_ready cq = []) in
  let (n, stalled) := release_count (cq_upcoming cq) ack_clock in
  let min_stalled := match stalled with
                     | Some c => if c <? min_stalled then c else min_stalled
                     | None => min_stalled
                     end in
  let moved := take n (cq_upcoming cq) in
  let cq := mk_command_queue (cq_ready cq ++ moved) (drop n (cq_upcoming cq)) in
  let sq := sq <| command_queues ::= fun c => <[q := cq]> c |>
               <| sq_transmit ::= fun t => t <| upcoming_bytes := upcoming_bytes t - total_len moved |> |>
               <| ready_bytes := ready_bytes sq + total_len moved |> in
  let sq := if bool_decide (cq_upcoming cq = [])
            then sq <| sq_transmit ::= fun t => t <| upcoming_queues ::= filter (fun x => x <> q) |> |>
            else sq in
  let sq := if not_in_ready_queues && negb (bool_decide (cq_ready cq = []))
            then sq <| ready_queues ::= fun l => l ++ [q] |> else sq in
  (min_stalled, sq).

Fixpoint release_queues (queues : list Z) (ack_clock min_stalled : Z) (sq : serialqueue) : Z * serialqueue :=
  match queues with
  | [] => (min_stalled, sq)
  | q :: queues =>
    let (min_stalled, sq) := release_queue q ack_clock min_stalled sq in
    release_queues queues ack_clock min_stalled sq
  end.

Definition check_upcoming_queues (ack_clock : Z) (sq : serialqueue) : Z * serialqueue :=
  let sq := sq <| sq_transmit ::= fun t => t <| need_kick_clock := 0 |> |> in
  let release := min_release_clock (sq_transmit sq) in
  if ack_clock <? release then (release, sq) else
  let (min_stalled, sq) := release_queues (upcoming_queues (sq_transmit sq)) ack_clock MAX_CLOCK sq in
  (min_stalled, sq <| sq_transmit ::= fun t => t <| min_release_clock := min_stalled |> |>).

(** 0, or -1 when a message that must be sent before [wantclock] was added. *)
Definition update_need_kick_clock (wantclock : Z) (sq : serialqueue) : Z * serialqueue :=
  if min_release_clock (sq_transmit sq) <? wantclock then (-1, sq)
  else (0, sq <| sq_transmit ::= fun t => t <| need_kick_clock := wantclock |> |>).

(** *** The send decision *)

(** The earliest [req_clock] of the ready messages. *)
Fixpoint min_ready (queues : list Z) (sq : serialqueue) (bgtime : double) (min_clock : Z) : option Z :=
  match queues with
  | [] => Some min_clock
  | q :: queues =>
    match cq_ready (command_queues sq q) with
    | [] => None
    | qm :: _ =>
      let bgoffset := (MIN_REQTIME_DELTA + MIN_BACKGROUND_DELTA)%D in
      let req := if qm_req_clock qm =? BACKGROUND_PRIORITY_CLOCK
                 then clock_from_time (sq_ce sq) (bgtime + bgoffset)%D
                 else Some (qm_req_clock qm) in
      match req with
      | None => None
      | Some req_clock =>
        min_ready queues sq bgtime (if req_clock <? min_clock then req_clock else min_clock)
      end
    end
  end.

Definition quarter : double := lit 250 1000.

(** [serialqueue_send_batch] calls of other threads may run between the two
    critical sections of the transmit lock: [others] is their effect. *)
Definition check_send_command (others : serialqueue -> serialqueue) (pending : Z) (eventtime : double)
    : M serialqueue double := fun sq =>
  let idletime := idle_after sq eventtime (pending + Z.of_nat MESSAGE_MIN) in
  match clock_from_time (sq_ce sq) idletime with
  | None => Crash sq
  | Some ack_clock =>
    let (min_stalled_clock, sq) := check_upcoming_queues ack_clock sq in
    let sq := others sq in
    if (MAX_PENDING_BLOCKS <=? u64 (send_seq sq - receive_seq sq))
       && negb (receive_seq sq =? 0xffffffffffffffff)
    then Ret (eventtime + quarter)%D sq
    else
      let need_ack := need_ack_bytes sq + Z.of_nat MESSAGE_MAX
                      + (if last_ack_seq sq <? receive_seq sq then last_ack_bytes sq else 0) in
      if (receive_seq sq <? send_seq sq) && truthy (receive_window sq) && (receive_window sq <? need_ack)
      then Ret (eventtime + quarter)%D sq
      else if Z.of_nat MESSAGE_PAYLOAD_MAX <=? ready_bytes sq then Ret PR_NOW sq
      else if dzero (est_freq (sq_ce sq)) then
        if truthy (ready_bytes sq) then Ret PR_NOW sq else
        let (mustwake, sq) := update_need_kick_clock 1 sq in
        Ret (if truthy mustwake then eventtime else PR_NEVER) sq
      else
        let bgtime := if truthy pending then idletime else idle_time sq in
        match min_ready (ready_queues sq) sq bgtime MAX_CLOCK,
              to_u64 (MIN_REQTIME_DELTA * est_freq (sq_ce sq))%D with
        | Some min_ready_clock, Some reqclock_delta =>
          if min_ready_clock <=? u64 (ack_clock + reqclock_delta) then Ret PR_NOW sq
          else if truthy pending then Ret eventtime sq
          else
            let wantclock := u64 (min_ready_clock - reqclock_delta) in
            let wantclock := if min_stalled_clock <? wantclock then min_stalled_clock else wantclock in
            let (mustwake, sq) := update_need_kick_clock wantclock sq in
            Ret (if truthy mustwake then eventtime
                 else idletime + of_Z (u64 (wantclock - ack_clock)) / est_freq (sq_ce sq))%D sq
        | _, _ => Crash sq
        end
  end.

(** The loop of [command_event]: the blocks built and the last wake-up time.
    Writing past the buffer is a crash. *)
Fixpoint command_loop (fuel : nat) (others : nat -> serialqueue -> serialqueue) (eventtime : double)
    (buf : list Z) : M serialqueue (list Z * double) := fun sq =>
  match fuel with
  | O => Crash sq
  | S fuel =>
    (waketime <- check_send_command (others fuel) (Z.of_nat (length buf)) eventtime;;
     if negb (deq waketime PR_NOW) then ret (buf, waketime) else
     block <- build_and_send_command (Z.of_nat (length buf)) eventtime;;
     let buf := buf ++ block in
     if COMMAND_BUF <? Z.of_nat (length buf) then crash
     else if COMMAND_BUF <? Z.of_nat (length buf + MESSAGE_MAX) then ret (buf, waketime)
     else command_loop fuel others eventtime buf) sq
  end.

(** A block has at least MESSAGE_MIN bytes, which bounds the loop. *)
Definition command_fuel : nat := 155.

Definition command_event (others : nat -> serialqueue -> serialqueue) (eventtime : double)
    : M serialqueue double := fun sq =>
  (r <- command_loop command_fuel others eventtime [];;
   let '(buf, waketime) := r in
   match buf with
   | [] => ret waketime
   | _ =>
     do_write buf;;;
     (fun sq =>
        let sq := sq <| bytes_write := u32 (bytes_write sq + Z.of_nat (length buf)) |> in
        Ret PR_NOW (sq <| idle_time := idle_after sq eventtime (Z.of_nat (length buf)) |>))
   end) sq.

(** ** Interface *)

(** The callbacks of the background thread. *)
Definition INPUT_EVENT : Z := 1.
Definition KICK_EVENT : Z := 2.
Definition RETRANSMIT_EVENT : Z := 3.
Definition COMMAND_EVENT : Z := 4.

(** "Reactor setup" *)
Definition serial_reactor (serial_fd pipe_fd : Z) (debug : bool) : pollreactor :=
  let pr := pollreactor_alloc SQPF_NUM SQPT_NUM in
  let pr := pollreactor_add_fd SQPF_SERIAL serial_fd INPUT_EVENT debug pr in
  let pr := pollreactor_add_fd SQPF_PIPE pipe_fd KICK_EVENT false pr in
  let pr := pollreactor_add_timer SQPT_RETRANSMIT RETRANSMIT_EVENT pr in
  pollreactor_add_timer SQPT_COMMAND COMMAND_EVENT pr.

Definition serialqueue_alloc (serial_fd pipe_fd : Z) (fd_type : fd_type) (id : Z) : serialqueue :=
  let debug := bool_decide (fd_type = SQT_DEBUGFILE) in
  mk_serialqueue (serial_reactor serial_fd pipe_fd debug) fd_type id [] false
    (mk_receiver 0 [] (debug_queue_alloc DEBUG_QUEUE_RECEIVE) 0)
    (mk_transmit_requests [] 0 MAX_CLOCK MAX_CLOCK 0)
    0 (of_Z 0) (of_Z 0) (mk_clock_estimate 0 (of_Z 0) (of_Z 0)) (of_Z 0)
    1 (if debug then 0xffffffffffffffff else 1) 0 0 0 0 [] (of_Z 0) (of_Z 0)
    (if debug then PR_NEVER else MIN_RTO) [] 0 0 0 [] (of_Z 0) []
    (debug_queue_alloc DEBUG_QUEUE_SENT) 0 0 0 0
    (fun _ => mk_command_queue [] []) [] [] 0 0.

Definition serialqueue_alloc_commandqueue : command_queue := mk_command_queue [] [].

Definition serialqueue_add_fastreader (fr : list Z * Z) (sq : serialqueue) : serialqueue :=
  sq <| fast_readers ::= fun l => l ++ [fr] |>.
Definition serialqueue_rm_fastreader (fr : Z) (sq : serialqueue) : serialqueue :=
  sq <| fast_readers ::= filter (fun f => f.2 <> fr) |>.

(** "Avoid mcu clock comparison 31-bit overflow issues". *)
Definition limit_min_clock (qm : queue_message) : queue_message :=
  if (u64 (qm_min_clock qm + Z.shiftl 3 29) <? qm_req_clock qm)
     && negb (qm_req_clock qm =? BACKGROUND_PRIORITY_CLOCK)
  then qm <| qm_min_clock := u64 (qm_req_clock qm - Z.shiftl 3 29) |> else qm.

Definition serialqueue_send_batch (q : Z) (msgs : list queue_message) (sq : serialqueue) : serialqueue :=
  let msgs := limit_min_clock <$> msgs in
  let len := total_len msgs in
  match msgs with
  | first :: _ =>
    if len =? 0 then sq else
    let min_clock := qm_min_clock first in
    let sq :=
      if bool_decide (cq_upcoming (command_queues sq q) = []) then
        sq <| sq_transmit ::= fun t =>
          let t := t <| upcoming_queues ::= fun l => l ++ [q] |> in
          let t := if min_clock <? min_release_clock t then t <| min_release_clock := min_clock |> else t in
          if min_clock <? need_kick_clock t then kick_bg_thread (t <| need_kick_clock := 0 |>) else t |>
      else sq in
    sq <| command_queues ::= fun c => <[q := (c q) <| cq_upcoming ::= fun l => l ++ msgs |>]> c |>
       <| sq_transmit ::= fun t => t <| upcoming_bytes := upcoming_bytes t + len |> |>
  | [] => sq
  end.

Definition serialqueue_send_one (q : Z) (qm : queue_message) (sq : serialqueue) : serialqueue :=
  serialqueue_send_batch q [qm] sq.

Definition serialqueue_send (q : Z) (msg : list Z) (min_clock req_clock notify_id : Z) (sq : serialqueue)
    : serialqueue :=
  serialqueue_send_one q ((message_fill msg) <| qm_min_clock := min_clock |> <| qm_req_clock := req_clock |>
    <| qm_notify_id := notify_id |>) sq.

(** One turn of [serialqueue_pull]: a message, the exit of the background
    thread, or waiting on the condition variable. *)
Inductive pull_result : Type := Pulled (qm : queue_message) | PullExit | PullWait.
Definition serialqueue_pull (sq : serialqueue) : pull_result * serialqueue :=
  let r := sq_receiver sq in
  match r_queue r with
  | [] => if pollreactor_is_exit (sq_pr sq) then (PullExit, sq)
          else (PullWait, sq <| sq_receiver ::= fun r => r <| r_waiting := 1 |> |>)
  | qm :: rest =>
    let r := r <| r_queue := rest |> in
    let r := if qm_len qm =? 0 then r
             else r <| r_old_receive ::= fun o => debug_queue_add o qm |> in
    (Pulled qm, sq <| sq_receiver := r |>)
  end.

Definition serialqueue_set_wire_frequency (frequency : double) (sq : serialqueue) : serialqueue :=
  sq <| bittime_adjust := if decide (serial_fd_type sq = SQT_CAN) then (of_Z 1 / frequency)%D
                          else (of_Z 10 / frequency)%D |>.
Definition serialqueue_set_receive_window (window : Z) (sq : serialqueue) : serialqueue :=
  sq <| receive_window := window |>.
Definition serialqueue_set_clock_est (freq time : double) (clock : Z) (sq : serialqueue) : serialqueue :=
  sq <| sq_ce := clock_fill freq time clock |>.
Definition serialqueue_get_clock_est (sq : serialqueue) : clock_estimate := sq_ce sq.

(** The messages [serialqueue_extract_old] copies out of a debug queue. *)
Fixpoint extract_loop (l : list queue_message) (max : nat) : list queue_message :=
  match l with
  | [] => []
  | qm :: l =>
    match max with
    | O => []
    | S max' => if qm_len qm =? 0 then extract_loop l max else qm :: extract_loop l max'
    end
  end.
Definition serialqueue_extract_old (sentq : bool) (max : nat) (sq : serialqueue)
    : list queue_message * serialqueue :=
  if sentq then (extract_loop (old_sent sq) max, sq <| old_sent := debug_queue_alloc DEBUG_QUEUE_SENT |>)
  else (extract_loop (r_old_receive (sq_receiver sq)) max,
        sq <| sq_receiver ::= fun r => r <| r_old_receive := debug_queue_alloc DEBUG_QUEUE_RECEIVE |> |>).
End serialqueue.
