(* ===== verification/SerialThread.v ===== *)
(** * The background thread of a serial queue (klippy/chelper/serialqueue.c)

    The reactor of pollreactor.c runs the callbacks of the serial queue: reading,
    the wake-up pipe, resending and sending. *)

From S2P Require Import Prelude Double Crc Vlq Command Msgblock Pollreactor Serialqueue.

(** The serial queue, what the coming [read] calls return (errors behind the end
    of the list), and the number of calls of [command_event] so far. *)
Record thread := mk_thread {
  th_sq : serialqueue;
  th_reads : list read_result;
  th_turns : nat }.
#[export] Instance eta_thread : Eta thread := fun t => mk_thread (th_sq t) (th_reads t) (th_turns t).

#[export] Program Instance thread_reactor : Reactor thread := {
  pr_of t := sq_pr (th_sq t);
  pr_upd f t := t <| th_sq ::= fun sq => sq <| sq_pr ::= f |> |> }.
Next Obligation. done. Qed.

Section thread.
Context (write_result : nat -> Z) (monotonic : nat -> double).
(** What other threads do during each turn of [command_event]. *)
Context (others : nat -> nat -> serialqueue -> serialqueue).

Definition timer_callback (callback : Z) (eventtime : double) : M thread double :=
  if callback =? RETRANSMIT_EVENT then zoom th_sq (retransmit_event write_result monotonic eventtime)
  else if callback =? COMMAND_EVENT then
    turn <- gets th_turns;;
    modify (fun t => t <| th_turns ::= S |>);;;
    zoom th_sq (command_event write_result monotonic (others turn) eventtime)
  else crash.

Definition fd_callback (callback : Z) (eventtime : double) : M thread unit :=
  if callback =? INPUT_EVENT then
    reads <- gets th_reads;;
    modify (fun t => t <| th_reads ::= tail |>);;;
    zoom th_sq (input_event monotonic (default ReadError (head reads)) eventtime)
  else if callback =? KICK_EVENT then modify (fun t => t <| th_sq ::= kick_event |>)
  else crash.

Definition background_thread (inputs : list poll_result) (start : double) : M thread run_state :=
  r <- pollreactor_run timer_callback fd_callback inputs start;;
  match r with
  | Ended => modify (fun t => t <| th_sq ::= fun sq => sq <| sq_receiver ::= receive_append_wake [] |> |>);;; ret Ended
  | Polling timeout => ret (Polling timeout)
  end.

(** [pthread_join] waits for the thread to end. *)
Definition serialqueue_exit (sq : serialqueue) : serialqueue :=
  sq <| sq_pr ::= pollreactor_do_exit |> <| sq_transmit ::= kick_bg_thread |>.

(** ** The callbacks use the reactor through its interface *)

Definition keeps (sq sq' : serialqueue) : Prop := uses (sq_pr sq) (sq_pr sq').

Lemma keeps_same sq sq' : sq_pr sq' = sq_pr sq -> keeps sq sq'.
Proof. intros E. unfold keeps. rewrite E. apply uses_nothing. Qed.
Lemma keeps_trans sq1 sq2 sq3 : keeps sq1 sq2 -> keeps sq2 sq3 -> keeps sq1 sq3.
Proof. apply uses_trans. Qed.
Lemma keeps_timer pos t sq : keeps sq (set_timer pos t sq).
Proof. eapply uses_update, uses_nothing. Qed.
Lemma keeps_exit sq : keeps sq (sq <| sq_pr ::= pollreactor_do_exit |>).
Proof. apply uses_exit, uses_nothing. Qed.

Context (Hothers : forall turn n sq, keeps sq (others turn n sq)).

Lemma ack_loop_pr queue sent_seq rseq sq : sq_pr (ack_loop queue sent_seq rseq sq) = sq_pr sq.
Proof.
  revert sent_seq sq. induction queue as [|x queue IH]; intros sent_seq sq; cbn [ack_loop]; [done|].
  destruct (_ =? _); [done|]. by rewrite IH.
Qed.

Lemma update_receive_keeps eventtime rseq sq : keeps sq (update_receive_seq eventtime rseq sq).
Proof.
  unfold update_receive_seq. cbv zeta. set (sq1 := ack_loop _ _ _ _). set (sq2 := set_timer _ _ _). set (sq3 := if _ && _ && _ then _ else _).
  assert (K2 : keeps sq sq2).
  { apply (keeps_trans _ (sq1 <| receive_seq := rseq |>)); [apply keeps_same; exact (ack_loop_pr _ _ _ _)|apply keeps_timer]. }
  assert (K3 : keeps sq2 sq3).
  { apply keeps_same. unfold sq3. destruct (_ && _ && _); [|done]. unfold update_rtt. cbv zeta. by destruct (dzero _). }
  apply (keeps_trans _ sq3); [by apply (keeps_trans _ sq2)|]. destruct (sent_queue sq3); apply keeps_timer.
Qed.

Lemma handle_message_keeps eventtime msg sq : keeps sq (handle_message monotonic eventtime msg sq).
Proof.
  unfold handle_message. cbv zeta. set (rseq := u64 _). destruct (negb (rseq =? _) && _); [by apply keeps_same|].
  set (sq1 := if rseq =? receive_seq sq then sq else _).
  assert (K1 : keeps sq sq1) by (unfold sq1; destruct (_ =? _); [by apply keeps_same|apply update_receive_keeps]).
  apply (keeps_trans _ sq1); [done|]. clearbody sq1. destruct (take_notify _ _ _ _) as [rc rest].
  destruct (_ =? Z.of_nat MESSAGE_MIN).
  - destruct (_ <? rseq); [|destruct (_ && _)]; destruct (bool_decide (rc = [])); destruct (find_fast_reader _ _);
      first [by apply keeps_same | exact (keeps_timer SQPT_RETRANSMIT PR_NOW sq1)].
  - destruct (bool_decide _); destruct (find_fast_reader _ _); by apply keeps_same.
Qed.

Lemma input_loop_keeps fuel eventtime sq sq' : input_loop monotonic fuel eventtime sq = Ret tt sq' -> keeps sq sq'.
Proof.
  revert sq. induction fuel as [|fuel IH]; intros sq E; [done|]. cbn [input_loop] in E.
  destruct (msgblock_check _ _) as [sync len]. destruct (_ =? 0); [injection E as <-; by apply keeps_same|].
  eapply keeps_trans; [|exact (IH _ E)]. eapply keeps_trans; [|by apply keeps_same].
  destruct (_ <? _); [|by apply keeps_same]. eapply keeps_trans; [|apply handle_message_keeps]. by apply keeps_same.
Qed.

Lemma input_event_keeps r eventtime sq sq' : input_event monotonic r eventtime sq = Ret tt sq' -> keeps sq sq'.
Proof.
  unfold input_event. intros E. destruct r as [|data|can_id data].
  - injection E as <-. apply keeps_exit.
  - apply input_loop_keeps in E. exact E.
  - destruct (_ =? _); [apply input_loop_keeps in E; exact E|]. injection E as <-. by apply keeps_same.
Qed.

Lemma write_can_keeps fuel buf sq sq' : write_can write_result monotonic fuel buf sq = Ret tt sq' -> keeps sq sq'.
Proof.
  revert buf sq. induction fuel as [|fuel IH]; intros buf sq E; [done|]. cbn [write_can] in E.
  destruct buf as [|b buf]; [injection E as <-; by apply keeps_same|]. unfold do_write_once in E.
  destruct (_ <? 0).
  - destruct (dzero _); [|destruct (_ <? _)%D]; injection E as <-; destruct (0 <=? _);
      first [by apply keeps_same | apply uses_exit, uses_nothing].
  - apply IH in E. destruct (0 <=? _); exact E.
Qed.

Lemma do_write_keeps buf sq sq' : do_write write_result monotonic buf sq = Ret tt sq' -> keeps sq sq'.
Proof.
  unfold do_write. destruct (decide _); [apply write_can_keeps|]. intros E. injection E as <-. apply keeps_same.
  unfold do_write_once. cbn. by destruct (0 <=? _).
Qed.

Lemma retransmit_event_keeps eventtime sq t sq' :
  retransmit_event write_result monotonic eventtime sq = Ret t sq' -> keeps sq sq'.
Proof.
  unfold retransmit_event. intros E. destruct (_ <? _); [done|]. apply bind_inv in E as ([] & sq1 & E1 & E2).
  apply do_write_keeps in E1. apply (keeps_trans _ sq1); [done|]. injection E2 as _ <-. apply keeps_same.
  by destruct (deq _ _).
Qed.

Lemma release_queues_pr queues ack_clock m sq : sq_pr (release_queues queues ack_clock m sq).2 = sq_pr sq.
Proof.
  revert m sq. induction queues as [|q queues IH]; intros m sq; cbn [release_queues]; [done|].
  destruct (release_queue q ack_clock m sq) as [m' sq1] eqn:E. rewrite IH. unfold release_queue in E.
  destruct (release_count _ _) as [n w]. injection E as _ <-.
  destruct (bool_decide (_ = []) && _), (bool_decide (drop _ _ = [])); done.
Qed.

Lemma check_upcoming_pr ack_clock sq : sq_pr (check_upcoming_queues ack_clock sq).2 = sq_pr sq.
Proof.
  unfold check_upcoming_queues. destruct (_ <? _); [done|].
  set (sq1 := sq <| sq_transmit ::= _ |>).
  pose proof (release_queues_pr (upcoming_queues (sq_transmit sq1)) ack_clock MAX_CLOCK sq1) as E.
  destruct (release_queues _ _ _ _) as [m sq2]. exact E.
Qed.

Lemma need_kick_pr want sq : sq_pr (update_need_kick_clock want sq).2 = sq_pr sq.
Proof. unfold update_need_kick_clock. by destruct (_ <? _). Qed.

Lemma check_send_keeps f pending eventtime sq t sq' :
  (forall sq, keeps sq (f sq)) -> check_send_command f pending eventtime sq = Ret t sq' -> keeps sq sq'.
Proof.
  intros Hf E. unfold check_send_command in E. set (idletime := idle_after sq eventtime _) in E. clearbody idletime.
  destruct (clock_from_time _ _) as [ack|]; [|done].
  pose proof (check_upcoming_pr ack sq) as Eu. destruct (check_upcoming_queues ack sq) as [stalled sq1]. cbn in Eu.
  assert (K : keeps sq (f sq1)) by (apply (keeps_trans _ sq1); [by apply keeps_same|apply Hf]).
  apply (keeps_trans _ (f sq1)); [done|]. revert E. generalize (f sq1). clear sq sq1 Eu K. intros sq E.
  assert (Hret : forall t0, Ret t0 sq = Ret t sq' -> keeps sq sq') by (intros t0 E'; injection E' as _ <-; by apply keeps_same).
  destruct (_ && _); [by eapply Hret|]. destruct (_ && _ && _); [by eapply Hret|].
  destruct (_ <=? ready_bytes sq); [by eapply Hret|]. destruct (dzero _).
  - destruct (truthy _); [by eapply Hret|]. pose proof (need_kick_pr 1 sq) as Ek.
    destruct (update_need_kick_clock 1 sq) as [mw sq2]. injection E as _ <-. by apply keeps_same.
  - destruct (min_ready _ _ _ _) as [mr|]; [|done]. destruct (to_u64 _) as [rd|]; [|done].
    destruct (_ <=? _); [by eapply Hret|]. destruct (truthy pending); [by eapply Hret|].
    set (want := if _ <? _ then _ else _) in E. pose proof (need_kick_pr want sq) as Ek.
    destruct (update_need_kick_clock want sq) as [mw sq2]. injection E as _ <-. by apply keeps_same.
Qed.

Lemma collect_messages_pr fuel payload sq p sq' : collect_messages fuel payload sq = Ret p sq' -> sq_pr sq' = sq_pr sq.
Proof.
  revert payload sq. induction fuel as [|fuel IH]; intros payload sq E; [done|]. cbn [collect_messages] in E.
  destruct (_ =? 0); [by injection E as _ <-|]. destruct (highest_priority _ _ _ _) as [[[q qm]|]|]; [|done..].
  destruct (_ <? _)%nat; [by injection E as _ <-|]. apply IH in E. rewrite E.
  unfold pop_ready. destruct (bool_decide _), (truthy _); done.
Qed.

Lemma build_and_send_keeps pending eventtime sq b sq' :
  build_and_send_command pending eventtime sq = Ret b sq' -> keeps sq sq'.
Proof.
  unfold build_and_send_command. intros E. apply bind_inv in E as (p & sq1 & E1 & E2).
  apply collect_messages_pr in E1. apply (keeps_trans _ sq1); [by apply keeps_same|]. injection E2 as _ <-.
  destruct (sent_queue sq1).
  - eapply keeps_trans; [apply keeps_timer|]. apply keeps_same. by destruct (truthy _).
  - apply keeps_same. by destruct (truthy _).
Qed.

Lemma command_loop_keeps fuel f eventtime buf sq r sq' :
  (forall n sq, keeps sq (f n sq)) -> command_loop fuel f eventtime buf sq = Ret r sq' -> keeps sq sq'.
Proof.
  intros Hf. revert buf sq. induction fuel as [|fuel IH]; intros buf sq E; [done|]. cbn [command_loop] in E.
  apply bind_inv in E as (t & sq1 & E1 & E). apply check_send_keeps in E1; [|done]. apply (keeps_trans _ sq1); [done|].
  destruct (negb _); [injection E as _ <-; by apply keeps_same|].
  apply bind_inv in E as (b & sq2 & E2 & E). apply build_and_send_keeps in E2. apply (keeps_trans _ sq2); [done|].
  destruct (_ <? _); [done|]. destruct (_ <? _); [injection E as _ <-; by apply keeps_same|]. by apply IH in E.
Qed.

Lemma command_event_keeps f eventtime sq t sq' :
  (forall n sq, keeps sq (f n sq)) -> command_event write_result monotonic f eventtime sq = Ret t sq' -> keeps sq sq'.
Proof.
  intros Hf E. unfold command_event in E. apply bind_inv in E as ([buf w] & sq1 & E1 & E).
  apply command_loop_keeps in E1; [|done]. apply (keeps_trans _ sq1); [done|].
  destruct buf as [|x buf]; [injection E as _ <-; by apply keeps_same|].
  apply bind_inv in E as ([] & sq2 & E2 & E). apply do_write_keeps in E2. apply (keeps_trans _ sq2); [done|].
  injection E as _ <-. by apply keeps_same.
Qed.

Lemma zoom_inv {A} (m : M serialqueue A) w a w' :
  zoom th_sq m w = Ret a w' -> exists sq, m (th_sq w) = Ret a sq /\ th_sq w' = sq.
Proof. unfold zoom. destruct (m (th_sq w)) as [x sq| |]; [|done..]. intros E. injection E as <- <-. by exists sq. Qed.

Lemma timer_callback_uses c e w t w' : timer_callback c e w = Ret t w' -> uses (pr_of w) (pr_of w').
Proof.
  unfold timer_callback. intros E. destruct (_ =? RETRANSMIT_EVENT).
  - apply zoom_inv in E as (sq & E & Esq). apply retransmit_event_keeps in E. cbn. by rewrite Esq.
  - destruct (_ =? COMMAND_EVENT); [|done].
    apply zoom_inv in E as (sq & E & Esq). apply command_event_keeps in E; [|intros n sq0; apply Hothers]. cbn. by rewrite Esq.
Qed.
Lemma fd_callback_uses c e w w' : fd_callback c e w = Ret tt w' -> uses (pr_of w) (pr_of w').
Proof.
  unfold fd_callback. intros E. destruct (_ =? INPUT_EVENT).
  - apply zoom_inv in E as (sq & E & Esq). apply input_event_keeps in E. cbn. by rewrite Esq.
  - destruct (_ =? KICK_EVENT); [|done]. injection E as <-. apply keeps_timer.
Qed.

(** The background thread misses no timer.  Whatever [poll], [read] and the
    other threads do, whenever the thread that was started on a new serial queue
    comes back to [poll], none of its timers is before the time it will wake up
    for; and whenever one is due at a check, the callback of the first one that
    is due runs at once. *)
Theorem background_timers_kept fd pipe_fd t id reads inputs start r w' :
  background_thread inputs start (mk_thread (serialqueue_alloc fd pipe_fd t id) reads 0) = Ret r w' ->
  timers_kept (pr_of w') /\
  forall eventtime busy i, first_due eventtime (pr_of w') i ->
    exists w1 rest, pollreactor_check_timers timer_callback eventtime busy w' =
      bind (timer_callback (pr_callbacks (pr_of w') i) eventtime) rest w1 /\ pr_timers (pr_of w1) = pr_timers (pr_of w').
Proof.
  intros E. assert (K : timers_kept (pr_of w')); [|split; [done|]; intros; by apply due_timer_called].
  unfold background_thread in E. apply bind_inv in E as (r1 & w1 & E1 & E2).
  assert (K1 : timers_kept (pr_of w1)).
  { eapply (run_kept timer_callback fd_callback timer_callback_uses fd_callback_uses); [|exact E1].
    split; [apply never_number|]. intros i Hi.
    change (0 <= i < 2) in Hi. assert (i = 0 \/ i = 1) as [-> | ->] by lia; by vm_compute. }
  destruct r1; [|by injection E2 as _ <-]. apply bind_inv in E2 as ([] & w2 & E2 & E3). injection E2 as <-. by injection E3 as _ <-.
Qed.
End thread.

(** The thread after one [poll] without events. *)
Lemma background_timers_kept_witness :
  let start := mk_thread (serialqueue_alloc 3 4 SQT_UART 0) [] 0 in
  let o := background_thread (fun _ => 0) (fun _ => of_Z 1) (fun _ _ sq => sq) [mk_poll_result 0 (fun _ => 0) (of_Z 2)] (of_Z 1) start in
  timers_kept (pr_of (final o)).
Proof.
  intros start o.
  refine (proj1 (background_timers_kept (fun _ => 0) (fun _ => of_Z 1) (fun _ _ sq => sq) (fun _ _ sq => keeps_same sq sq eq_refl)
    3 4 SQT_UART 0 [] [mk_poll_result 0 (fun _ => 0) (of_Z 2)] (of_Z 1) (Polling 1000) (final o) _)).
  apply result_ret. by vm_compute.
Defined.
