(* ===== verification/Arq.v ===== *)
(** * Reliable delivery of message blocks

    The host (serialqueue.c) numbers its blocks with 64-bit sequence numbers of
    which only the low four bits travel; the firmware (command.c) accepts a block
    when these bits are the expected ones and answers every block with the number
    it expects next.  This file composes the two ends over a line that carries the
    blocks the host's writes have put on it and may lose any of them, and any
    answer. *)

From stdpp Require Import sorting.
From S2P Require Import Prelude Double Crc Vlq Command Msgblock Pollreactor Serialqueue.

(** Unfold the block layout for [lia]. *)
Ltac sizes := unfold MESSAGE_PAYLOAD_MAX, MESSAGE_TRAILER_SIZE, MESSAGE_HEADER_SIZE, MESSAGE_MAX, MESSAGE_MIN in *.

(** ** Blocks *)

Definition seq_of (n : Z) : Z := Z.lor MESSAGE_DEST (Z.land n MESSAGE_SEQ_MASK).

Lemma seq_of_mod n : seq_of n = 0x10 + n mod 16.
Proof.
  unfold seq_of, MESSAGE_DEST, MESSAGE_SEQ_MASK. rewrite land_0f.
  change 0x10 with (Z.shiftl 1 4) at 1. rewrite lor_add_shift by (pose proof (Z.mod_pos_bound n 16); lia).
  reflexivity.
Qed.

Lemma build_block_frame n payload :
  (length payload <= MESSAGE_PAYLOAD_MAX)%nat -> build_block n payload = frame (seq_of n) payload.
Proof.
  intros Hp. unfold build_block, frame. fold (seq_of n). cbv zeta.
  assert (El : u8 (Z.of_nat (MESSAGE_HEADER_SIZE + length payload + MESSAGE_TRAILER_SIZE)) =
    Z.of_nat (length payload + MESSAGE_MIN)).
  { sizes. rewrite u8_small by lia. lia. }
  assert (Es : u8 (seq_of n) = seq_of n).
  { apply u8_small. rewrite seq_of_mod. pose proof (Z.mod_pos_bound n 16). lia. }
  rewrite El, Es, host_crc_eq. cbn [app]. do 4 f_equal.
  - apply u8_small. pose proof (crc16_range (Z.of_nat (length payload + MESSAGE_MIN) :: seq_of n :: payload)).
    rewrite Z.shiftr_div_pow2 by lia. change (2 ^ 8) with 256. word.
  - by rewrite land_ff.
Qed.

(** The blocks in a stream of bytes: between blocks there may be sync bytes, the
    first byte of a block is its length, and a block that is cut short is lost. *)
Fixpoint line_blocks_loop (fuel : nat) (bytes : list Z) : list (list Z) :=
  match fuel, bytes with
  | S fuel, c :: rest =>
    if c =? MESSAGE_SYNC then line_blocks_loop fuel rest
    else if (Z.of_nat MESSAGE_MIN <=? c) && (Z.to_nat c <=? length bytes)%nat
    then take (Z.to_nat c) bytes :: line_blocks_loop fuel (drop (Z.to_nat c) bytes)
    else []
  | _, _ => []
  end.
Definition line_blocks (bytes : list Z) : list (list Z) := line_blocks_loop (length bytes) bytes.

Definition is_block (b : list Z) : Prop :=
  exists seq payload, (length payload <= MESSAGE_PAYLOAD_MAX)%nat /\ b = frame seq payload.

Lemma is_block_head b : is_block b ->
  exists rest, b = Z.of_nat (length b) :: rest /\ (MESSAGE_MIN <= length b <= MESSAGE_MAX)%nat.
Proof.
  intros (seq & p & Hp & ->). rewrite frame_length. eexists. split; [reflexivity|]. sizes. lia.
Qed.

Lemma line_blocks_loop_take fuel k bs :
  Forall is_block bs -> (length (take k (concat bs)) <= fuel)%nat ->
  exists j, line_blocks_loop fuel (take k (concat bs)) = take j bs /\ ((length (concat bs) <= k)%nat -> take j bs = bs).
Proof.
  intros Hb. revert fuel k. induction Hb as [|b bs Hb Hbs IH]; intros fuel k Hf.
  { exists 0%nat. cbn. rewrite take_nil. by destruct fuel. }
  destruct (is_block_head b Hb) as (rest & Eb & Hl). cbn [concat] in *.
  destruct (Nat.le_gt_cases (length b) k) as [Hk|Hk].
  - rewrite take_app_ge in * by done. rewrite length_app in Hf. set (t := take (k - length b) (concat bs)) in *.
    destruct fuel as [|fuel]; [sizes; lia|]. destruct (IH fuel (k - length b)%nat) as (j & Ej & Hj); [fold t; sizes; lia|].
    exists (S j). cbn [take]. split.
    + assert (E : line_blocks_loop (S fuel) (b ++ t) = b :: line_blocks_loop fuel t).
      { rewrite Eb at 1. cbn [app line_blocks_loop]. rewrite (proj2 (Z.eqb_neq _ _)) by (unfold MESSAGE_SYNC; sizes; lia).
        rewrite (proj2 (Z.leb_le _ _)) by lia. rewrite Nat2Z.id, app_comm_cons, <- Eb.
        rewrite (proj2 (Nat.leb_le _ _)) by (rewrite length_app; lia). cbn [andb].
        by rewrite take_app_length, drop_app_length. }
      rewrite E. unfold t. by rewrite Ej.
    + rewrite length_app. intros Hk'. f_equal. apply Hj. lia.
  - rewrite take_app_le in * by lia. exists 0%nat. cbn [take]. split; [|rewrite length_app; lia].
    destruct fuel as [|fuel]; [done|]. destruct k as [|k]; [done|]. rewrite Eb. cbn [take line_blocks_loop].
    rewrite (proj2 (Z.eqb_neq _ _)) by (unfold MESSAGE_SYNC; sizes; lia). rewrite Nat2Z.id.
    rewrite (proj2 (Nat.leb_gt _ _)), andb_false_r; [done|]. cbn [length]. rewrite length_take. lia.
Qed.

(** What is left of a run of blocks that was cut off, with a sync byte in front. *)
Lemma line_blocks_take k bs :
  Forall is_block bs -> exists j, line_blocks (take k (concat bs)) = take j bs.
Proof. intros Hb. destruct (line_blocks_loop_take _ k bs Hb (le_n _)) as (j & E & _). by exists j. Qed.
Lemma line_blocks_all bs : Forall is_block bs -> line_blocks (concat bs) = bs.
Proof.
  intros Hb. destruct (line_blocks_loop_take _ (length (concat bs)) bs Hb (le_n _)) as (j & E & H).
  rewrite firstn_all in E. unfold line_blocks. rewrite E. by apply H.
Qed.
Lemma line_blocks_sync bytes : line_blocks (MESSAGE_SYNC :: bytes) = line_blocks bytes.
Proof. done. Qed.

(** ** What the host's operations do to the window *)

(** The part of the state that the protocol is about: the window, and that the
    receiving side stands between two blocks. *)
Definition same_window (sq sq' : serialqueue) : Prop :=
  send_seq sq' = send_seq sq /\ receive_seq sq' = receive_seq sq /\ sent_queue sq' = sent_queue sq /\
  input_buf sq' = input_buf sq /\ Serialqueue.need_sync sq' = Serialqueue.need_sync sq.

Lemma same_window_trans sq1 sq2 sq3 : same_window sq1 sq2 -> same_window sq2 sq3 -> same_window sq1 sq3.
Proof. unfold same_window. intuition congruence. Qed.

(** Nothing has been written to the line either. *)
Definition silent (sq sq' : serialqueue) : Prop :=
  same_window sq sq' /\ wire sq' = wire sq /\ n_writes sq' = n_writes sq.

Lemma silent_trans sq1 sq2 sq3 : silent sq1 sq2 -> silent sq2 sq3 -> silent sq1 sq3.
Proof. intros (W & ? & ?) (W' & ? & ?). split_and!; [by eapply same_window_trans|congruence..]. Qed.

(** The bytes written between two states. *)
Definition written (sq sq' : serialqueue) : list Z := concat (drop (length (wire sq)) (wire sq')).

Lemma written_app sq sq' cs : wire sq' = wire sq ++ cs -> written sq sq' = concat cs.
Proof. unfold written. intros ->. by rewrite drop_app_length. Qed.

Section host.
Context (write_result : nat -> Z) (monotonic : nat -> double).

(** From this state on no call of [write] fails. *)
Definition writes_ok (sq : serialqueue) : Prop := forall n, (n_writes sq <= n)%nat -> 0 <= write_result n.

(** A CAN bus interface writes a buffer in frames of eight bytes, up to the first
    that fails. *)
Lemma write_can_wire fuel buf sq sq' :
  write_can write_result monotonic fuel buf sq = Ret tt sq' ->
  exists cs, wire sq' = wire sq ++ cs /\ (exists k, concat cs = take k buf) /\ (writes_ok sq -> concat cs = buf).
Proof.
  revert buf sq. induction fuel as [|fuel IH]; intros buf sq; [done|]. cbn [write_can].
  destruct buf as [|c buf]; [injection 1 as <-; exists []; by rewrite app_nil_r; split_and!; [|exists 0%nat|]|].
  unfold do_write_once. cbv zeta. destruct (Z.ltb_spec (write_result (n_writes sq)) 0) as [Hr|Hr].
  - rewrite (proj2 (Z.leb_gt _ _)) by done. intros H. exists []. rewrite app_nil_r. split_and!; [|by exists 0%nat|].
    + destruct (dzero _); [|destruct (_ <? _)%D]; by injection H as <-.
    + intros Hok. specialize (Hok (n_writes sq) (le_n _)). lia.
  - rewrite (proj2 (Z.leb_le _ _)) by done. intros H%IH. destruct H as (cs & Hw & [k Hk] & Hok).
    exists (take 8 (c :: buf) :: cs). cbn [wire set] in Hw. rewrite <- app_assoc in Hw. split_and!; [exact Hw| |].
    + exists (8 + k)%nat. cbn [concat]. rewrite Hk. apply take_take_drop.
    + intros Ho. cbn [concat]. rewrite Hok; [apply take_drop|]. intros n Hn. apply Ho. cbn in Hn. lia.
Qed.

Lemma do_write_wire buf sq sq' :
  do_write write_result monotonic buf sq = Ret tt sq' ->
  (exists k, written sq sq' = take k buf) /\ (writes_ok sq -> written sq sq' = buf).
Proof.
  unfold do_write. destruct (decide _).
  - intros (cs & Hw & Hk & Hok)%write_can_wire. by rewrite (written_app _ _ _ Hw).
  - unfold do_write_once. cbn [snd]. injection 1 as <-. destruct (Z.leb_spec 0 (write_result (n_writes sq))) as [Hr|Hr].
    + rewrite (written_app _ _ [buf]) by done. cbn. rewrite app_nil_r. split; [|done].
      exists (length buf). by rewrite firstn_all.
    + rewrite (written_app _ _ []) by (by rewrite app_nil_r). split; [by exists 0%nat|].
      intros Hok. specialize (Hok (n_writes sq) (le_n _)). lia.
Qed.

Lemma write_can_window fuel buf sq sq' :
  write_can write_result monotonic fuel buf sq = Ret tt sq' -> same_window sq sq'.
Proof.
  revert buf sq. induction fuel as [|fuel IH]; intros buf sq; [done|]. cbn [write_can].
  destruct buf; [by injection 1 as <-|]. unfold do_write_once. cbv zeta.
  destruct (write_result (n_writes sq) <? 0) eqn:Er.
  - destruct (dzero _); [|destruct (_ <? _)%D]; injection 1 as <-; destruct (0 <=? _); done.
  - intros H%IH. destruct (0 <=? _); exact H.
Qed.

Lemma do_write_window buf sq sq' :
  do_write write_result monotonic buf sq = Ret tt sq' -> same_window sq sq'.
Proof.
  unfold do_write. destruct (decide _); [apply write_can_window|]. unfold do_write_once. cbn [snd].
  injection 1 as <-. by destruct (0 <=? _).
Qed.

Lemma do_write_ret buf sq : exists sq', do_write write_result monotonic buf sq = Ret tt sq'.
Proof.
  unfold do_write. destruct (decide _); [|eauto].
  assert (H : forall fuel buf sq, (length buf < fuel)%nat ->
    exists sq', write_can write_result monotonic fuel buf sq = Ret tt sq').
  { clear. induction fuel as [|fuel IH]; intros buf sq Hf; [lia|]. cbn [write_can].
    destruct buf as [|c buf]; [eauto|]. destruct (do_write_once _ _ _) as [r sq1].
    destruct (r <? 0).
    - destruct (dzero _); [eauto|]. destruct (_ <? _)%D; eauto.
    - apply IH. rewrite length_drop. cbn [length] in *. lia. }
  apply H. lia.
Qed.

Lemma collect_messages_spec fuel payload sq p sq' :
  collect_messages fuel payload sq = Ret p sq' ->
  (length payload <= MESSAGE_PAYLOAD_MAX)%nat ->
  (length p <= MESSAGE_PAYLOAD_MAX)%nat /\ silent sq sq'.
Proof.
  revert payload sq. induction fuel as [|fuel IH]; intros payload sq; [done|]. cbn [collect_messages].
  destruct (ready_bytes sq =? 0); [by injection 1 as <- <-|].
  destruct (highest_priority _ _ _ _) as [[[q qm]|]|]; try done.
  destruct (Nat.ltb_spec (MESSAGE_MAX - MESSAGE_TRAILER_SIZE)
    (MESSAGE_HEADER_SIZE + length payload + length (qm_msg qm))); [by injection 1 as <- <-|].
  intros E Hl. destruct (IH _ _ E) as [H1 H2].
  { rewrite length_app. sizes. lia. }
  split; [done|]. revert H2. unfold silent, same_window, pop_ready.
  destruct (bool_decide _), (truthy _); done.
Qed.

(** A new block takes the next number and joins the sent queue. *)
Lemma build_and_send_spec pending eventtime sq block sq' :
  build_and_send_command pending eventtime sq = Ret block sq' ->
  0 <= send_seq sq < 0xffffffffffffffff ->
  exists payload qm, (length payload <= MESSAGE_PAYLOAD_MAX)%nat /\
    block = frame (seq_of (send_seq sq)) payload /\
    sent_queue sq' = sent_queue sq ++ [qm] /\ qm_msg qm = block /\
    send_seq sq' = send_seq sq + 1 /\ receive_seq sq' = receive_seq sq /\
    input_buf sq' = input_buf sq /\ Serialqueue.need_sync sq' = Serialqueue.need_sync sq /\
    wire sq' = wire sq /\ n_writes sq' = n_writes sq.
Proof.
  unfold build_and_send_command. intros H Hs.
  apply bind_inv in H as (payload & sq1 & H1 & H).
  apply collect_messages_spec in H1 as [Hp ((W1 & W2 & W3 & W4 & W5) & W6 & W7)]; [|sizes; cbn; lia].
  cbv zeta in H. rewrite build_block_frame in H by done. rewrite <- W1, <- W2, <- W3, <- W4, <- W5, <- W6, <- W7.
  assert (Hn : u64 (send_seq sq1 + 1) = send_seq sq1 + 1) by word.
  destruct (sent_queue sq1) eqn:Eq, (truthy (rtt_sample_seq sq1)) eqn:Et; cbn -[frame] in H;
    rewrite ?Et in H; injection H as <- <-; exists payload; eexists; (split_and!; [exact Hp|reflexivity|cbn; rewrite ?Eq; reflexivity|..]); done.
Qed.

(** Calls of [serialqueue_send_batch] by other threads. *)
Definition send_batches (l : list (Z * list queue_message)) (sq : serialqueue) : serialqueue :=
  foldl (fun sq b => serialqueue_send_batch b.1 b.2 sq) sq l.

Lemma send_batch_window q msgs sq : silent sq (serialqueue_send_batch q msgs sq).
Proof.
  unfold serialqueue_send_batch. destruct (limit_min_clock <$> msgs); [done|].
  destruct (_ =? 0); [done|]. by destruct (bool_decide _).
Qed.

Lemma send_batches_window l sq : silent sq (send_batches l sq).
Proof.
  unfold send_batches. revert sq. induction l as [|b l IH]; intros sq; [done|].
  eapply silent_trans; [apply send_batch_window|]. apply IH.
Qed.

Lemma release_queue_window q ack_clock m sq : silent sq (release_queue q ack_clock m sq).2.
Proof.
  unfold release_queue. cbv zeta. destruct (release_count _ _) as [n stalled]. cbn [snd].
  repeat case_match; done.
Qed.

Lemma release_queues_window queues ack_clock m sq :
  silent sq (release_queues queues ack_clock m sq).2.
Proof.
  revert m sq. induction queues as [|q queues IH]; intros m sq; [done|]. cbn [release_queues].
  pose proof (release_queue_window q ack_clock m sq) as W.
  destruct (release_queue q ack_clock m sq) as [m1 sq1]. eapply silent_trans; [exact W|]. apply IH.
Qed.

Lemma check_upcoming_window ack_clock sq : silent sq (check_upcoming_queues ack_clock sq).2.
Proof.
  unfold check_upcoming_queues. cbv zeta. destruct (_ <? _); [done|].
  match goal with |- context [release_queues ?a ?b ?c ?d] =>
    pose proof (release_queues_window a b c d) as H; destruct (release_queues a b c d) as [m sq'] end.
  exact H.
Qed.

Lemma kick_clock_window c sq : silent sq (update_need_kick_clock c sq).2.
Proof. unfold update_need_kick_clock. by destruct (_ <? _). Qed.

(** The decision to send leaves the window alone, and is only taken while the
    window has room. *)
Lemma check_send_spec adds pending eventtime sq w sq' :
  check_send_command (send_batches adds) pending eventtime sq = Ret w sq' ->
  silent sq sq' /\
  (deq w PR_NOW = true -> deq (eventtime + quarter)%D PR_NOW = false ->
   u64 (send_seq sq - receive_seq sq) < MAX_PENDING_BLOCKS \/ receive_seq sq = 0xffffffffffffffff).
Proof.
  unfold check_send_command. cbv zeta. destruct (clock_from_time _ _) as [ack_clock|]; [|done].
  pose proof (check_upcoming_window ack_clock sq) as W1.
  destruct (check_upcoming_queues ack_clock sq) as [m sq1]. cbn [snd] in W1.
  pose proof (silent_trans _ _ _ W1 (send_batches_window adds sq1)) as W2.
  revert W2. generalize (send_batches adds sq1). clear W1 sq1. intros sq1 W.
  pose proof W as ((-> & -> & _) & _). rewrite <- (proj1 (proj1 W)), <- (proj1 (proj2 (proj1 W))).
  destruct (_ && _) eqn:Ew; [intros [= <- <-]; split; [done|congruence]|].
  intros E. split.
  - clear Ew. revert E.
    destruct (_ && _); [by intros [= _ <-]|]. destruct (_ <=? _); [by intros [= _ <-]|].
    destruct (dzero _).
    + destruct (truthy _); [by intros [= _ <-]|]. pose proof (kick_clock_window 1 sq1) as K.
      destruct (update_need_kick_clock _ _). intros [= _ <-]. exact (silent_trans _ _ _ W K).
    + destruct (min_ready _ _ _ _) as [c|]; [|done]. destruct (to_u64 _) as [d|]; [|done].
      destruct (_ <=? _); [by intros [= _ <-]|]. destruct (truthy pending); [by intros [= _ <-]|].
      match goal with |- context [update_need_kick_clock ?c ?s] =>
        pose proof (kick_clock_window c s) as K; destruct (update_need_kick_clock c s) end.
      intros [= _ <-]. exact (silent_trans _ _ _ W K).
  - intros _ _. apply andb_false_iff in Ew as [Ew|Ew]; [left|right]; lia.
Qed.

(** The blocks numbered from [n] with the given payloads. *)
Fixpoint blocks (n : Z) (payloads : list (list Z)) : list (list Z) :=
  match payloads with
  | [] => []
  | p :: ps => frame (seq_of n) p :: blocks (n + 1) ps
  end.

Definition payload_ok (p : list Z) : Prop := (length p <= MESSAGE_PAYLOAD_MAX)%nat.

(** [sq'] is [sq] after sending new blocks with the payloads [ps]. *)
Definition sends (ps : list (list Z)) (sq sq' : serialqueue) : Prop :=
  Forall payload_ok ps /\
  (exists qms, sent_queue sq' = sent_queue sq ++ qms /\ qm_msg <$> qms = blocks (send_seq sq) ps) /\
  send_seq sq' = send_seq sq + Z.of_nat (length ps) /\ receive_seq sq' = receive_seq sq /\
  input_buf sq' = input_buf sq /\ Serialqueue.need_sync sq' = Serialqueue.need_sync sq /\
  wire sq' = wire sq /\ n_writes sq' = n_writes sq.

Lemma sends_nil sq sq' : silent sq sq' -> sends [] sq sq'.
Proof.
  intros ((H1 & H2 & H3 & H4 & H5) & H6 & H7). split_and!; try done.
  - exists []. by rewrite app_nil_r.
  - cbn. lia.
Qed.

Lemma sends_window_l ps sq1 sq2 sq3 : silent sq1 sq2 -> sends ps sq2 sq3 -> sends ps sq1 sq3.
Proof.
  intros ((H1 & H2 & H3 & H4 & H5) & H6 & H7) (P & Q & P1 & P2 & P3 & P4 & P5 & P6). unfold sends.
  rewrite <- H1, <- H2, <- H3, <- H4, <- H5, <- H6, <- H7. done.
Qed.

Lemma build_and_send_sends pending eventtime sq block sq' :
  build_and_send_command pending eventtime sq = Ret block sq' ->
  0 <= send_seq sq < 0xffffffffffffffff ->
  exists p, sends [p] sq sq' /\ block = frame (seq_of (send_seq sq)) p.
Proof.
  intros H Hs. destruct (build_and_send_spec _ _ _ _ _ H Hs)
    as (p & qm & Hp & -> & Hq & Hm & H1 & H2 & H3 & H4 & H5 & H6).
  exists p. split; [|done]. split_and!; try done; [by constructor|].
  exists [qm]. split; [done|]. cbn. by rewrite Hm.
Qed.

Lemma sends_cons p ps sq1 sq2 sq3 : sends [p] sq1 sq2 -> sends ps sq2 sq3 -> sends (p :: ps) sq1 sq3.
Proof.
  intros (P & (l & Ql & Qb) & P1 & P2 & P3 & P4 & P5 & P6) (P' & (l' & Ql' & Qb') & P1' & P2' & P3' & P4' & P5' & P6').
  cbn [length] in *. split_and!; [|exists (l ++ l')|..]; try (cbn [length]; congruence || lia).
  - inversion P. by constructor.
  - rewrite Ql', Ql, fmap_app, Qb, Qb', P1, app_assoc. done.
Qed.

(** The loop of [command_event] sends a run of consecutive blocks and never
    exceeds the window. *)
Lemma command_loop_spec fuel adds eventtime buf sq buf' w sq' :
  command_loop fuel (fun i => send_batches (adds i)) eventtime buf sq = Ret (buf', w) sq' ->
  deq (eventtime + quarter)%D PR_NOW = false ->
  0 <= receive_seq sq <= send_seq sq -> send_seq sq + Z.of_nat fuel < 0x4000000000000000 ->
  exists ps, sends ps sq sq' /\ buf' = buf ++ concat (blocks (send_seq sq) ps) /\
    send_seq sq' <= Z.max (send_seq sq) (receive_seq sq + MAX_PENDING_BLOCKS).
Proof.
  intros H Ht. revert buf sq H. induction fuel as [|fuel IH]; intros buf sq H Hr Hf; [done|].
  cbn [command_loop] in H. apply bind_inv in H as (w0 & sq1 & H1 & H).
  apply check_send_spec in H1 as [W1 Hw]. pose proof W1 as ((E1 & E2 & _) & _).
  destruct (deq w0 PR_NOW) eqn:Ed; cbn [negb] in H.
  2: { injection H as <- <- <-. exists []. split_and!; [by apply sends_nil|by rewrite app_nil_r|lia]. }
  apply bind_inv in H as (block & sq2 & H2 & H). specialize (Hw eq_refl Ht).
  apply build_and_send_sends in H2 as (p & Sp & ->); [|lia].
  apply (sends_window_l _ _ _ _ W1) in Sp. rewrite E1 in H. pose proof Sp as (_ & _ & S1 & S2 & _).
  cbn [length] in S1. assert (Hroom : send_seq sq + 1 <= receive_seq sq + MAX_PENDING_BLOCKS).
  { destruct Hw as [Hw|Hw]; [|lia]. unfold MAX_PENDING_BLOCKS in *. word. }
  destruct (COMMAND_BUF <? _); [done|].
  destruct (COMMAND_BUF <? _).
  - injection H as <- <- <-. exists [p]. split_and!; [done| |lia]. cbn. by rewrite app_nil_r.
  - destruct (IH _ _ H) as (ps & Sps & -> & Hmax); [lia..|].
    exists (p :: ps). split_and!; [by eapply sends_cons| |lia].
    cbn [blocks concat]. rewrite S1, <- app_assoc. done.
Qed.

Lemma blocks_is_block n ps : Forall payload_ok ps -> Forall is_block (blocks n ps).
Proof. intros H. revert n. induction H as [|p ps Hp _ IH]; intros n; constructor; [by exists (seq_of n), p|apply IH]. Qed.

Lemma blocks_concat_nil n ps : concat (blocks n ps) = [] -> ps = [].
Proof. by destruct ps. Qed.

(** [sq'] is [sq] after new blocks with the payloads [ps] have joined the queue. *)
Definition queued (ps : list (list Z)) (sq sq' : serialqueue) : Prop :=
  Forall payload_ok ps /\
  (exists qms, sent_queue sq' = sent_queue sq ++ qms /\ qm_msg <$> qms = blocks (send_seq sq) ps) /\
  send_seq sq' = send_seq sq + Z.of_nat (length ps) /\ receive_seq sq' = receive_seq sq /\
  input_buf sq' = input_buf sq /\ Serialqueue.need_sync sq' = Serialqueue.need_sync sq.

(** One turn of the sending handler: new blocks are numbered within the window,
    and what is written is a prefix of them, all when no write fails. *)
Lemma command_event_spec adds eventtime sq w sq' :
  command_event write_result monotonic (fun i => send_batches (adds i)) eventtime sq = Ret w sq' ->
  deq (eventtime + quarter)%D PR_NOW = false ->
  0 <= receive_seq sq <= send_seq sq -> send_seq sq < 0x3000000000000000 ->
  exists ps, queued ps sq sq' /\ send_seq sq' <= Z.max (send_seq sq) (receive_seq sq + MAX_PENDING_BLOCKS) /\
    (exists j, line_blocks (written sq sq') = take j (blocks (send_seq sq) ps)) /\
    (writes_ok sq -> line_blocks (written sq sq') = blocks (send_seq sq) ps).
Proof.
  intros H Ht Hr Hs. unfold command_event in H. apply bind_inv in H as ([buf w'] & sq1 & H1 & H).
  destruct (command_loop_spec _ _ _ _ _ _ _ _ H1 Ht Hr) as (ps & (P1 & P2 & P3 & P4 & P5 & P6 & P7 & P8) & -> & Hmax);
    [unfold command_fuel; lia|]. clear H1. exists ps. cbn [app] in H.
  pose proof (blocks_is_block (send_seq sq) ps P1) as Hbl.
  destruct (concat (blocks (send_seq sq) ps)) as [|c buf] eqn:Ec.
  - injection H as _ <-. apply blocks_concat_nil in Ec as ->.
    rewrite (written_app sq sq1 []) by (by rewrite app_nil_r). split_and!; [done|done|by exists 0%nat|done].
  - apply bind_inv in H as ([] & sq2 & H2 & H). injection H as _ <-.
    apply do_write_wire in H2 as Hw. apply do_write_window in H2 as (W1 & W2 & W3 & W4 & W5).
    assert (Ew : forall sq3, wire sq3 = wire sq2 -> written sq sq3 = written sq1 sq2) by (unfold written; by intros ? ->; rewrite P7).
    rewrite Ew by done. unfold queued. cbn [sent_queue send_seq receive_seq input_buf Serialqueue.need_sync set].
    rewrite W1, W2, W3, W4, W5. destruct Hw as [[k Hk] Hok]. rewrite <- Ec in Hk, Hok. split_and!; try done.
    + rewrite Hk. by apply line_blocks_take.
    + intros Hwo. rewrite Hok; [by apply line_blocks_all|]. unfold writes_ok. by rewrite P8.
Qed.

Lemma concat_length_le (l : list (list Z)) n :
  Forall (fun b => (length b <= n)%nat) l -> (length (concat l) <= length l * n)%nat.
Proof. induction 1; cbn; [done|]. rewrite length_app. lia. Qed.

(** Resending always fits the local buffer and leaves the window alone; what is
    written is a prefix of the sent queue, all of it when no write fails. *)
Lemma retransmit_spec eventtime sq :
  (length (sent_queue sq) <= 12)%nat -> Forall is_block (qm_msg <$> sent_queue sq) ->
  exists w sq', retransmit_event write_result monotonic eventtime sq = Ret w sq' /\ same_window sq sq' /\
    (exists j, line_blocks (written sq sq') = take j (qm_msg <$> sent_queue sq)) /\
    (writes_ok sq -> line_blocks (written sq sq') = qm_msg <$> sent_queue sq).
Proof.
  intros Hn Hl. unfold retransmit_event. cbv zeta.
  assert (Hb : (length (concat (qm_msg <$> sent_queue sq)) <= 12 * MESSAGE_MAX)%nat).
  { etransitivity; [apply (concat_length_le _ MESSAGE_MAX)|rewrite length_fmap; unfold MESSAGE_MAX; lia].
    eapply Forall_impl; [exact Hl|]. intros b Hb. by destruct (is_block_head b Hb) as (_ & _ & ? & ?). }
  destruct (Z.ltb_spec RETRANSMIT_BUF (Z.of_nat (length (MESSAGE_SYNC :: concat (qm_msg <$> sent_queue sq)))))
    as [Hc|_].
  { cbn [length] in Hc. unfold RETRANSMIT_BUF, MAX_PENDING_BLOCKS, MESSAGE_MAX in *. lia. }
  set (bs := qm_msg <$> sent_queue sq) in *.
  destruct (do_write_ret (MESSAGE_SYNC :: concat bs) sq) as [sq1 H1]. unfold bind. rewrite H1. eexists _, _.
  split; [reflexivity|]. destruct (do_write_wire _ _ _ H1) as [[k Hk] Hok]. apply do_write_window in H1.
  split; [destruct (deq _ _); exact H1|].
  match goal with |- context [written sq ?x] => assert (Ew : written sq x = written sq sq1)
    by (unfold written; by destruct (deq _ _)) end.
  rewrite Ew. split.
  - rewrite Hk. destruct k as [|k]; [by exists 0%nat|]. cbn [take]. rewrite line_blocks_sync. by apply line_blocks_take.
  - intros Hwo. rewrite Hok, line_blocks_sync by done. by apply line_blocks_all.
Qed.

(** ** Acknowledgements *)

(** The acknowledged blocks leave the sent queue. *)
Lemma ack_loop_spec k queue sent_seq sq :
  (k < length queue)%nat -> 0 <= sent_seq -> sent_seq + Z.of_nat k + 1 < 0x4000000000000000 ->
  let sq' := ack_loop queue sent_seq (sent_seq + Z.of_nat k + 1) sq in
  send_seq sq' = send_seq sq /\ sent_queue sq' = drop (S k) queue /\
  input_buf sq' = input_buf sq /\ Serialqueue.need_sync sq' = Serialqueue.need_sync sq.
Proof.
  revert queue sent_seq sq. induction k as [|k IH]; intros [|qm queue] s sq Hk Hs Hb; cbn [length] in Hk; try lia;
    cbn zeta; cbn [ack_loop]; replace (u64 (s + 1)) with (s + 1) by word.
  - rewrite (proj2 (Z.eqb_eq _ _)) by lia. done.
  - rewrite (proj2 (Z.eqb_neq _ _)) by lia.
    replace (s + Z.of_nat (S k) + 1) with (s + 1 + Z.of_nat k + 1) by lia.
    match goal with |- context [ack_loop queue _ _ ?q] => apply (IH queue (s + 1) q); lia end.
Qed.

Lemma update_rtt_window eventtime sq : same_window sq (update_rtt eventtime sq).
Proof. unfold update_rtt. cbv zeta. by destruct (dzero _). Qed.

(** Of the window, [update_receive_seq] changes what the loop changes. *)
Lemma update_receive_window eventtime rseq sq :
  same_window ((ack_loop (sent_queue sq) (receive_seq sq) rseq sq) <| receive_seq := rseq |>)
    (update_receive_seq eventtime rseq sq).
Proof.
  unfold update_receive_seq. cbv zeta. generalize (ack_loop (sent_queue sq) (receive_seq sq) rseq sq). intros sq1.
  set (sq2 := if _ && _ && _ then _ else _).
  assert (W : same_window (set_timer SQPT_COMMAND PR_NOW (sq1 <| receive_seq := rseq |>)) sq2).
  { unfold sq2. destruct (_ && _ && _); [apply update_rtt_window|done]. }
  clearbody sq2. by destruct (sent_queue sq2).
Qed.

Lemma update_receive_seq_spec k eventtime sq :
  (k < length (sent_queue sq))%nat -> 0 <= receive_seq sq ->
  receive_seq sq + Z.of_nat k + 1 < 0x4000000000000000 ->
  let sq' := update_receive_seq eventtime (receive_seq sq + Z.of_nat k + 1) sq in
  send_seq sq' = send_seq sq /\ receive_seq sq' = receive_seq sq + Z.of_nat k + 1 /\
  sent_queue sq' = drop (S k) (sent_queue sq) /\
  input_buf sq' = input_buf sq /\ Serialqueue.need_sync sq' = Serialqueue.need_sync sq.
Proof.
  intros Hk Hr Hb. pose proof (ack_loop_spec k _ _ sq Hk Hr Hb) as (H1 & H2 & H3 & H4). cbv zeta.
  destruct (update_receive_window eventtime (receive_seq sq + Z.of_nat k + 1) sq) as (W1 & W2 & W3 & W4 & W5).
  rewrite W1, W2, W3, W4, W5. done.
Qed.

(** A response that carries the number [a] acknowledges everything before [a]. *)
Definition acked (a : Z) (sq sq' : serialqueue) : Prop :=
  send_seq sq' = send_seq sq /\ receive_seq sq' = a /\
  sent_queue sq' = drop (Z.to_nat (a - receive_seq sq)) (sent_queue sq) /\
  input_buf sq' = input_buf sq /\ Serialqueue.need_sync sq' = Serialqueue.need_sync sq.

Lemma rseq_of a r : 0 <= r -> 0 <= a - r <= 15 -> a < 0x4000000000000000 ->
  u64 (r + Z.land (u64 (seq_of a - r)) MESSAGE_SEQ_MASK) = a.
Proof.
  intros Hr Ha Hb. unfold MESSAGE_SEQ_MASK. rewrite land_0f, seq_of_mod.
  assert (E : u64 (16 + a mod 16 - r) mod 16 = a - r).
  { unfold u64. rewrite <- Znumtheory.Zmod_div_mod by (try lia; by exists (2 ^ 60)).
    rewrite <- (Z.mod_small (a - r) 16) by lia.
    replace (16 + a mod 16 - r) with (a - r + (1 - a / 16) * 16) by (pose proof (Z.div_mod a 16); lia).
    apply Z.mod_add. lia. }
  rewrite E. word.
Qed.

(** After the guard, a response only updates the window. *)
Lemma handle_message_core a p eventtime sq :
  0 <= receive_seq sq -> 0 <= a - receive_seq sq <= 15 -> a < 0x4000000000000000 ->
  a <= send_seq sq \/ receive_seq sq = 1 ->
  same_window (if a =? receive_seq sq then sq else update_receive_seq eventtime a sq)
    (handle_message monotonic eventtime (frame (seq_of a) p) sq).
Proof.
  intros Hr Hd Hs Hg. unfold handle_message. cbv zeta.
  replace (frame (seq_of a) p !!! MESSAGE_POS_SEQ) with (seq_of a) by done.
  rewrite rseq_of by lia.
  destruct (negb _ && _) eqn:Ec.
  { apply andb_true_iff in Ec as [_ Ec]. apply andb_true_iff in Ec as [E1 E2]. lia. }
  clear Ec. generalize (if a =? receive_seq sq then sq else update_receive_seq eventtime a sq).
  intros sq1. destruct (take_notify _ _ _ _) as [rc rest].
  destruct (_ =? Z.of_nat MESSAGE_MIN).
  - destruct (_ <? a); [|destruct (_ && _)]; destruct (bool_decide (rc = []));
      destruct (find_fast_reader _ _); done.
  - destruct (bool_decide _); destruct (find_fast_reader _ _); done.
Qed.

Lemma handle_message_spec a p eventtime sq :
  0 <= receive_seq sq -> receive_seq sq <= a <= send_seq sq -> a - receive_seq sq <= 15 ->
  Z.of_nat (length (sent_queue sq)) = send_seq sq - receive_seq sq -> send_seq sq < 0x4000000000000000 ->
  acked a sq (handle_message monotonic eventtime (frame (seq_of a) p) sq).
Proof.
  intros Hr Ha Hd Hl Hs. destruct (handle_message_core a p eventtime sq) as (W1 & W2 & W3 & W4 & W5); [lia..|].
  unfold acked. rewrite W1, W2, W3, W4, W5. destruct (Z.eqb_spec a (receive_seq sq)) as [->|Hne].
  - by rewrite Z.sub_diag.
  - pose proof (update_receive_seq_spec (Z.to_nat (a - receive_seq sq) - 1) eventtime sq) as H.
    replace (receive_seq sq + Z.of_nat (Z.to_nat (a - receive_seq sq) - 1) + 1) with a in H by lia.
    replace (S (Z.to_nat (a - receive_seq sq) - 1)) with (Z.to_nat (a - receive_seq sq)) in H by lia.
    apply H; lia.
Qed.

Lemma seq_of_byte n : seq_byte (seq_of n).
Proof. rewrite seq_of_mod. unfold seq_byte. pose proof (Z.mod_pos_bound n 16). lia. Qed.

(** The receiving handler on a whole response does what [handle_message] does to
    the window. *)
Lemma input_event_frame a p eventtime sq (P : Z -> Z -> list queue_message -> Prop) :
  input_buf sq = [] -> Serialqueue.need_sync sq = false -> payload_ok p ->
  (forall sq0, send_seq sq0 = send_seq sq -> receive_seq sq0 = receive_seq sq -> sent_queue sq0 = sent_queue sq ->
     let sq' := handle_message monotonic eventtime (frame (seq_of a) p) sq0 in
     P (send_seq sq') (receive_seq sq') (sent_queue sq') /\
     input_buf sq' = input_buf sq0 /\ Serialqueue.need_sync sq' = Serialqueue.need_sync sq0) ->
  exists sq', input_event monotonic (ReadBytes (frame (seq_of a) p)) eventtime sq = Ret tt sq' /\
    P (send_seq sq') (receive_seq sq') (sent_queue sq') /\
    input_buf sq' = [] /\ Serialqueue.need_sync sq' = false.
Proof.
  intros Hi Hn Hp HP. unfold input_event. cbv zeta.
  set (sq0 := sq <| input_buf ::= _ |>).
  assert (E0 : input_buf sq0 = frame (seq_of a) p) by (unfold sq0; cbn; by rewrite Hi).
  rewrite E0.
  assert (Hf := frame_length (seq_of a) p).
  assert (Ec : msgblock_check false (frame (seq_of a) p) = (false, Z.of_nat (length (frame (seq_of a) p)))).
  { rewrite <- (app_nil_r (frame _ _)) at 1. apply msgblock_check_frame; [apply seq_of_byte|exact Hp]. }
  destruct (length (frame (seq_of a) p)) as [|n] eqn:En; [sizes; lia|]. cbn [input_loop].
  change (Serialqueue.need_sync sq0) with (Serialqueue.need_sync sq). rewrite Hn, E0, Ec.
  rewrite (proj2 (Z.eqb_neq _ 0)), (proj2 (Z.ltb_lt 0 _)) by lia.
  rewrite Z.abs_eq, Nat2Z.id by lia. cbn [input_buf].
  match goal with |- context [take (S n) ?b] => change b with (input_buf sq0) end.
  rewrite E0, take_ge by lia.
  match goal with |- context [handle_message _ _ _ ?s] =>
    assert (A := HP s eq_refl eq_refl eq_refl) end.
  cbv zeta in A. destruct A as (A1 & A4 & A5). set (sq2 := handle_message _ _ _ _) in *. clearbody sq2.
  assert (A4' : input_buf sq2 = frame (seq_of a) p) by (rewrite <- E0; exact A4).
  match goal with |- context [msgblock_check (Serialqueue.need_sync ?s) _] => set (sq3 := s) end.
  assert (E3 : input_buf sq3 = []) by (unfold sq3; cbn; rewrite A4'; apply drop_ge; lia).
  assert (F3 : Serialqueue.need_sync sq3 = false) by exact A5.
  rewrite E3, F3. cbn -[sq3]. eexists. split; [reflexivity|]. exact (conj A1 (conj E3 eq_refl)).
Qed.

Lemma input_event_spec a p eventtime sq :
  input_buf sq = [] -> Serialqueue.need_sync sq = false -> payload_ok p ->
  0 <= receive_seq sq -> receive_seq sq <= a <= send_seq sq -> a - receive_seq sq <= 15 ->
  Z.of_nat (length (sent_queue sq)) = send_seq sq - receive_seq sq -> send_seq sq < 0x4000000000000000 ->
  exists sq', input_event monotonic (ReadBytes (frame (seq_of a) p)) eventtime sq = Ret tt sq' /\
    acked a sq sq'.
Proof.
  intros Hi Hn Hp Hr Ha Hd Hl Hs.
  destruct (input_event_frame a p eventtime sq (fun s r q =>
    s = send_seq sq /\ r = a /\ q = drop (Z.to_nat (a - receive_seq sq)) (sent_queue sq))) as (sq' & E & H); try done.
  - intros sq0 E1 E2 E3. destruct (handle_message_spec a p eventtime sq0) as (A1 & A2 & A3 & A4 & A5);
      rewrite ?E1, ?E2, ?E3; try done. cbv zeta. rewrite A1, A2, A3, A4, A5, E1, E2, E3. done.
  - exists sq'. split; [done|]. unfold acked. rewrite Hi, Hn. tauto.
Qed.

(** ** Connecting *)

Lemma ack_loop_past queue sent_seq rseq sq :
  0 <= sent_seq -> sent_seq + Z.of_nat (length queue) < rseq -> rseq < 0x4000000000000000 ->
  let sq' := ack_loop queue sent_seq rseq sq in
  send_seq sq' = rseq /\ sent_queue sq' = [] /\
  input_buf sq' = input_buf sq /\ Serialqueue.need_sync sq' = Serialqueue.need_sync sq.
Proof.
  revert sent_seq sq. induction queue as [|qm queue IH]; intros s sq Hs Hl Hr; [done|]. cbn [length] in Hl.
  cbv zeta. cbn [ack_loop]. replace (u64 (s + 1)) with (s + 1) by word.
  rewrite (proj2 (Z.eqb_neq _ _)) by lia.
  match goal with |- context [ack_loop queue _ _ ?q] => apply (IH (s + 1) q); lia end.
Qed.

(** The first response of a firmware that is already counting: the host drops
    the blocks it sent and continues with the firmware's number. *)
Lemma connect_spec m p eventtime sq :
  input_buf sq = [] -> Serialqueue.need_sync sq = false -> payload_ok p ->
  receive_seq sq = 1 -> send_seq sq = 1 + Z.of_nat (length (sent_queue sq)) ->
  let rseq := 1 + (m - 1) mod 16 in
  send_seq sq < rseq ->
  exists sq', input_event monotonic (ReadBytes (frame (seq_of m) p)) eventtime sq = Ret tt sq' /\
    send_seq sq' = rseq /\ receive_seq sq' = rseq /\ sent_queue sq' = [] /\ input_buf sq' = [] /\
    Serialqueue.need_sync sq' = false /\ seq_of rseq = seq_of m.
Proof.
  intros Hi Hn Hp Hr Hs rseq Hl. pose proof (Z.mod_pos_bound (m - 1) 16 ltac:(lia)) as Hm.
  assert (Es : seq_of rseq = seq_of m).
  { rewrite !seq_of_mod. unfold rseq. f_equal. rewrite Z.add_mod_idemp_r by lia. f_equal. lia. }
  rewrite <- Es. destruct (input_event_frame rseq p eventtime sq (fun s r q =>
    s = rseq /\ r = rseq /\ q = [])) as (sq' & E & H); try done.
  2: { exists sq'. split; [done|]. tauto. }
  intros sq0 E1 E2 E3. cbv zeta.
  destruct (handle_message_core rseq p eventtime sq0) as (W1 & W2 & W3 & W4 & W5); [lia..|].
  rewrite W1, W2, W3, W4, W5. rewrite (proj2 (Z.eqb_neq _ _)) by lia.
  pose proof (ack_loop_past (sent_queue sq0) (receive_seq sq0) rseq sq0) as A. cbv zeta in A.
  destruct A as (A1 & A2 & A3 & A4); [lia|rewrite E2, E3; lia|lia|].
  destruct (update_receive_window eventtime rseq sq0) as (V1 & V2 & V3 & V4 & V5).
  rewrite V1, V2, V3, V4, V5. done.
Qed.
End host.

(** ** The two ends and the line

    [up] and [down] are the blocks on the line in the order they were written;
    [delivered] are the payloads the firmware has accepted and [sent] those the
    host has numbered, both only observed. *)
Record link := mk_link {
  host : serialqueue;
  up : list (list Z);
  mcu : cmd_state;
  down : list (list Z);
  delivered : list (list Z);
  sent : list (list Z) }.

(** The payload of a block. *)
Definition payload_of (block : list Z) : list Z :=
  take (length block - MESSAGE_MIN) (drop MESSAGE_HEADER_SIZE block).

(** The empty message by which [command_find_and_dispatch] acknowledges. *)
Definition acknak (st : cmd_state) : list Z := frame (next_sequence st) [].

(** The firmware takes a block from the line: an accepted block is delivered
    and every block that is not ignored is answered. *)
Definition mcu_receive (block : list Z) (st : cmd_state) : cmd_state * list (list Z) * list (list Z) :=
  let '(st, r) := command_find_block st block in
  if 0 <? fr_ret r then (st, [payload_of block], [acknak st])
  else (st, [], if fr_acknak r then [acknak st] else []).

Section protocol.
Context (write_result : nat -> Z) (monotonic : nat -> double).

(** Both ends take what is on the line. *)
Inductive rstep : link -> link -> Prop :=
| Host_receive eventtime l block rest host' :   (* input_event *)
    down l = block :: rest ->
    input_event monotonic (ReadBytes block) eventtime (host l) = Ret tt host' ->
    rstep l (mk_link host' (up l) (mcu l) rest (delivered l) (sent l))
| Mcu_receive l block rest mcu' acc acks :      (* command_find_and_dispatch *)
    up l = block :: rest ->
    mcu_receive block (mcu l) = (mcu', acc, acks) ->
    rstep l (mk_link (host l) rest mcu' (down l ++ acks) (delivered l ++ acc) (sent l)).

(** The line after [retransmit_event] has gone from the host's state to [host']. *)
Definition resent (l : link) (host' : serialqueue) : link :=
  mk_link host' (up l ++ line_blocks (written (host l) host')) (mcu l) (down l) (delivered l) (sent l).

(** Delivery: what both ends do without new messages. *)
Inductive dstep : link -> link -> Prop :=
| Host_resend eventtime w l host' :             (* retransmit_event *)
    retransmit_event write_result monotonic eventtime (host l) = Ret w host' -> dstep l (resent l host')
| Receive l l' : rstep l l' -> dstep l l'.

(** The payloads of the blocks that have joined the sent queue. *)
Definition new_payloads (sq sq' : serialqueue) : list (list Z) :=
  (fun qm => payload_of (qm_msg qm)) <$> drop (length (sent_queue sq)) (sent_queue sq').

Inductive lstep : link -> link -> Prop :=
| Deliver l l' : dstep l l' -> lstep l l'
| Host_send adds eventtime w l host' :          (* command_event *)
    command_event write_result monotonic (fun i => send_batches (adds i)) eventtime (host l) = Ret w host' ->
    deq (eventtime + quarter)%D PR_NOW = false ->
    lstep l (mk_link host' (up l ++ line_blocks (written (host l) host')) (mcu l) (down l) (delivered l)
               (sent l ++ new_payloads (host l) host'))
| Host_other l host' :                          (* queue, pull, configure, ... *)
    same_window (host l) host' ->
    lstep l (mk_link host' (up l) (mcu l) (down l) (delivered l) (sent l))
| Mcu_send l p :                                (* a response or a report *)
    payload_ok p ->
    lstep l (mk_link (host l) (up l) (mcu l) (down l ++ [frame (next_sequence (mcu l)) p]) (delivered l) (sent l))
| Up_lost l l1 block l2 :
    up l = l1 ++ block :: l2 ->
    lstep l (mk_link (host l) (l1 ++ l2) (mcu l) (down l) (delivered l) (sent l))
| Down_lost l l1 block l2 :
    down l = l1 ++ block :: l2 ->
    lstep l (mk_link (host l) (up l) (mcu l) (l1 ++ l2) (delivered l) (sent l)).

(** *** The invariant *)

(** Block number [n] when the payloads are numbered from [s0]. *)
Definition block_of (s0 : Z) (payloads : list (list Z)) (n : Z) : list Z :=
  frame (seq_of n) (payloads !!! Z.to_nat (n - s0)).

(** The number the firmware expects next, in full. *)
Definition next_full (s0 : Z) (l : link) : Z := s0 + Z.of_nat (length (delivered l)).

(** Old copies on the line stay close enough to the expected number for four
    bits to tell them apart. *)
Definition up_ok (s0 : Z) (l : link) : Prop :=
  exists ns, up l = block_of s0 (sent l) <$> ns /\
    Forall (fun n => s0 <= n < send_seq (host l) /\ next_full s0 l <= n + 12) ns /\
    StronglySorted (fun n m => n <= m + 11) ns.

Definition down_ok (s0 : Z) (l : link) : Prop :=
  exists ds, down l = (fun d => frame (seq_of d.1) d.2) <$> ds /\
    Forall (fun d => receive_seq (host l) <= d.1 <= next_full s0 l /\ payload_ok d.2) ds /\
    StronglySorted (fun d e => d.1 <= e.1) ds.

Definition host_ok (s0 : Z) (l : link) : Prop :=
  0 <= s0 /\ s0 <= receive_seq (host l) <= send_seq (host l) /\
  send_seq (host l) <= receive_seq (host l) + 12 /\
  send_seq (host l) = s0 + Z.of_nat (length (sent l)) /\
  Forall payload_ok (sent l) /\
  qm_msg <$> sent_queue (host l) =
    block_of s0 (sent l) <$> seqZ (receive_seq (host l)) (send_seq (host l) - receive_seq (host l)) /\
  input_buf (host l) = [] /\ Serialqueue.need_sync (host l) = false.

Definition mcu_ok (s0 : Z) (l : link) : Prop :=
  receive_seq (host l) <= next_full s0 l <= send_seq (host l) /\
  next_sequence (mcu l) = seq_of (next_full s0 l) /\ Command.need_sync (mcu l) = false /\
  delivered l = take (length (delivered l)) (sent l).

Definition link_inv (s0 : Z) (l : link) : Prop :=
  host_ok s0 l /\ mcu_ok s0 l /\ up_ok s0 l /\ down_ok s0 l.

(** *** Lists of numbers and blocks *)

Lemma block_of_app s0 base ps n :
  s0 <= n < s0 + Z.of_nat (length base) -> block_of s0 (base ++ ps) n = block_of s0 base n.
Proof. intros Hn. unfold block_of. rewrite lookup_total_app_l by lia. done. Qed.

Lemma blocks_seqZ s0 base ps :
  blocks (s0 + Z.of_nat (length base)) ps =
  block_of s0 (base ++ ps) <$> seqZ (s0 + Z.of_nat (length base)) (Z.of_nat (length ps)).
Proof.
  revert base. induction ps as [|p ps IH]; intros base; [done|]. cbn [blocks length].
  rewrite seqZ_cons by lia. cbn [fmap list_fmap]. f_equal.
  - unfold block_of. rewrite list_lookup_total_middle; [done|lia].
  - specialize (IH (base ++ [p])). rewrite length_app, Nat2Z.inj_add, <- app_assoc in IH. cbn in IH.
    replace (s0 + Z.of_nat (length base) + 1) with (s0 + (Z.of_nat (length base) + Z.of_nat 1)) by lia.
    rewrite IH. f_equal. f_equal; lia.
Qed.

Lemma drop_seqZ (k : nat) m n : Z.of_nat k <= n -> drop k (seqZ m n) = seqZ (m + Z.of_nat k) (n - Z.of_nat k).
Proof.
  intros Hk. replace n with (Z.of_nat k + (n - Z.of_nat k)) at 1 by lia.
  rewrite seqZ_app, drop_app_length' by (rewrite ?length_seqZ; lia). done.
Qed.

Lemma sorted_all {A} (R : A -> A -> Prop) (l : list A) :
  (forall x y, x ∈ l -> y ∈ l -> R x y) -> StronglySorted R l.
Proof.
  induction l as [|a l IH]; intros H; constructor.
  - apply IH. intros x y Hx Hy. apply H; by constructor.
  - apply Forall_forall. intros y Hy. apply H; by constructor.
Qed.

Lemma sorted_delete {A} (R : A -> A -> Prop) l1 x l2 :
  StronglySorted R (l1 ++ x :: l2) -> StronglySorted R (l1 ++ l2).
Proof.
  rewrite !StronglySorted_app. intros (H1 & H2 & H3). inversion_clear H3. split_and!; [|done..].
  intros y z Hy Hz. apply H1; [done|by constructor].
Qed.

Lemma fmap_delete_inv {A B} (g : A -> B) l l1 b l2 :
  g <$> l = l1 ++ b :: l2 -> exists k1 x k2, l = k1 ++ x :: k2 /\ l1 = g <$> k1 /\ l2 = g <$> k2.
Proof.
  intros (k1 & k2' & -> & Hk & ->)%fmap_app_inv. destruct k2' as [|x k2]; [done|].
  injection Hk as _ ->. exists k1, x, k2. done.
Qed.

(** Two numbers less than 16 apart with the same sequence byte are equal. *)
Lemma seq_of_inj n m : -16 < n - m < 16 -> seq_of n = seq_of m -> n = m.
Proof.
  rewrite !seq_of_mod. intros H E. pose proof (Z.div_mod n 16). pose proof (Z.div_mod m 16). nia.
Qed.

Lemma seq_next_of n : seq_next (seq_of n) = seq_of (n + 1).
Proof.
  rewrite seq_next_eq by apply seq_of_byte. rewrite !seq_of_mod.
  replace (16 + n mod 16 + 1) with (n mod 16 + 1 + 1 * 16) by lia.
  rewrite Z.mod_add, Z.add_mod_idemp_l by lia. done.
Qed.

Lemma payload_of_frame seq p : payload_of (frame seq p) = p.
Proof.
  unfold payload_of. rewrite frame_length. unfold frame. cbn [MESSAGE_HEADER_SIZE app drop].
  rewrite Nat.add_sub. apply take_app_length.
Qed.

(** What the firmware does with a block whose number is close to the one it
    expects. *)
Lemma mcu_receive_spec n m p st :
  next_sequence st = seq_of m -> Command.need_sync st = false -> payload_ok p -> -16 < n - m < 16 ->
  exists st', mcu_receive (frame (seq_of n) p) st =
    (st', if n =? m then [p] else [], [frame (seq_of (if n =? m then m + 1 else m)) []]) /\
    next_sequence st' = seq_of (if n =? m then m + 1 else m) /\ Command.need_sync st' = false.
Proof.
  intros Hs Hn Hp Hd. unfold mcu_receive.
  replace (command_find_block st (frame (seq_of n) p)) with (command_find_block st (frame (seq_of n) p ++ []))
    by (by rewrite app_nil_r).
  rewrite find_block_frame by (done || apply seq_of_byte). cbv zeta. rewrite Hs.
  assert (Hb : Command.need_sync (st <| sync_state ::= fun x => Z.land x (Z.lnot CF_NEED_VALID) |>) = false).
  { unfold Command.need_sync in *. cbn. rewrite <- Z.land_assoc. exact Hn. }
  destruct (Z.eqb_spec n m) as [->|Hne].
  - rewrite Z.eqb_refl. cbn -[payload_of acknak]. eexists. rewrite payload_of_frame.
    unfold acknak. cbn. rewrite seq_next_of. done.
  - destruct (Z.eqb_spec (seq_of n) (seq_of m)) as [E|_]; [by apply seq_of_inj in E|].
    cbn -[acknak]. eexists. unfold acknak. cbn. rewrite Hs. done.
Qed.

(** *** The invariant is preserved *)

Lemma fmap_block_of_app s0 base ps ns :
  Forall (fun n => s0 <= n < s0 + Z.of_nat (length base)) ns ->
  block_of s0 (base ++ ps) <$> ns = block_of s0 base <$> ns.
Proof. induction 1; cbn; [done|]. rewrite block_of_app by done. f_equal. done. Qed.

Lemma Forall_seqZ (P : Z -> Prop) m n : (forall i, m <= i < m + n -> P i) -> Forall P (seqZ m n).
Proof. intros H. apply Forall_forall. intros i Hi%elem_of_seqZ. apply H. lia. Qed.

Lemma payload_blocks n ps : payload_of <$> blocks n ps = ps.
Proof. revert n. induction ps as [|p ps IH]; intros n; [done|]. cbn. by rewrite payload_of_frame, IH. Qed.

Lemma queued_payloads ps sq sq' : queued ps sq sq' -> new_payloads sq sq' = ps.
Proof.
  intros (_ & (qms & E1 & E2) & _). unfold new_payloads. rewrite E1, drop_app_length.
  rewrite <- (payload_blocks (send_seq sq) ps), <- E2, <- list_fmap_compose. done.
Qed.

(** Blocks that did not reach the line. *)
Lemma inv_up_prefix s0 h u v m d del se :
  link_inv s0 (mk_link h (u ++ v) m d del se) -> link_inv s0 (mk_link h u m d del se).
Proof.
  intros (H & M & (ns & U1 & U2 & U3) & D). split_and!; [exact H|exact M| |exact D]. cbn [up] in U1.
  symmetry in U1. apply fmap_app_inv in U1 as (n1 & n2 & -> & -> & ->).
  apply Forall_app in U2 as [U2 _]. apply StronglySorted_app in U3 as (_ & U3 & _). by exists n1.
Qed.

Lemma inv_queued s0 l host' ps :
  link_inv s0 l -> queued ps (host l) host' ->
  send_seq host' <= Z.max (send_seq (host l)) (receive_seq (host l) + MAX_PENDING_BLOCKS) ->
  link_inv s0 (mk_link host' (up l ++ blocks (send_seq (host l)) ps) (mcu l) (down l) (delivered l) (sent l ++ ps)).
Proof.
  intros (H & (M1 & M2 & M3 & M4) & (ns & U1 & U2 & U3) & D) (P1 & (qms & P2 & P3) & P4 & P5 & P6 & P7) Hw.
  destruct H as (H0 & H1 & H2 & H3 & H4 & H5 & H6 & H7). unfold MAX_PENDING_BLOCKS in Hw.
  assert (Hnew : blocks (send_seq (host l)) ps =
    block_of s0 (sent l ++ ps) <$> seqZ (send_seq (host l)) (Z.of_nat (length ps))).
  { rewrite H3. apply blocks_seqZ. }
  unfold link_inv, host_ok, mcu_ok, up_ok, down_ok, next_full in *. cbn [host up mcu down delivered sent].
  rewrite P5, P6, P7, length_app. split_and!; try done; try lia.
  - by apply Forall_app.
  - rewrite P2, fmap_app, H5, P3, Hnew. rewrite P4.
    replace (send_seq (host l) + Z.of_nat (length ps) - receive_seq (host l))
      with (send_seq (host l) - receive_seq (host l) + Z.of_nat (length ps)) by lia.
    rewrite seqZ_app, fmap_app by lia. f_equal; [|do 2 f_equal; lia].
    symmetry. apply fmap_block_of_app, Forall_seqZ. intros i Hi. lia.
  - rewrite take_app_le by lia. done.
  - exists (ns ++ seqZ (send_seq (host l)) (Z.of_nat (length ps))). split_and!.
    + rewrite U1, Hnew, fmap_app. f_equal. symmetry. apply fmap_block_of_app.
      eapply Forall_impl; [exact U2|]. cbn. lia.
    + apply Forall_app. split; [eapply Forall_impl; [exact U2|]; cbn; lia|].
      apply Forall_seqZ. intros i Hi. lia.
    + apply StronglySorted_app. split_and!; [|done|].
      * intros x y Hx Hy%elem_of_seqZ. rewrite Forall_forall in U2. specialize (U2 _ Hx). lia.
      * apply sorted_all. intros x y Hx%elem_of_seqZ Hy%elem_of_seqZ. lia.
Qed.

Lemma inv_send s0 l adds eventtime w host' :
  link_inv s0 l -> s0 + Z.of_nat (length (sent l)) < 0x3000000000000000 ->
  command_event write_result monotonic (fun i => send_batches (adds i)) eventtime (host l) = Ret w host' ->
  deq (eventtime + quarter)%D PR_NOW = false ->
  link_inv s0 (mk_link host' (up l ++ line_blocks (written (host l) host')) (mcu l) (down l) (delivered l)
                 (sent l ++ new_payloads (host l) host')).
Proof.
  intros Hinv Hb E Ht. pose proof Hinv as ((H0 & H1 & H2 & H3 & _) & _).
  apply command_event_spec in E as (ps & Q & Hw & [j Hj] & _); [|done|lia..].
  rewrite Hj, (queued_payloads _ _ _ Q). apply (inv_up_prefix _ _ _ (drop j (blocks (send_seq (host l)) ps))).
  rewrite <- app_assoc, take_drop. by apply inv_queued.
Qed.

Lemma inv_sent_queue s0 l : link_inv s0 l ->
  (length (sent_queue (host l)) <= 12)%nat /\
  Z.of_nat (length (sent_queue (host l))) = send_seq (host l) - receive_seq (host l) /\
  Forall is_block (qm_msg <$> sent_queue (host l)).
Proof.
  intros ((H0 & H1 & H2 & H3 & H4 & H5 & _) & _).
  assert (El := f_equal length H5). rewrite !length_fmap, length_seqZ in El. split_and!; [lia..|].
  rewrite H5. apply Forall_fmap, Forall_seqZ. intros i Hi. exists (seq_of i), (sent l !!! Z.to_nat (i - s0)).
  split; [|done]. apply (Forall_lookup_total_1 payload_ok); [done|lia].
Qed.

Lemma inv_window s0 l host' :
  link_inv s0 l -> same_window (host l) host' ->
  link_inv s0 (mk_link host' (up l) (mcu l) (down l) (delivered l) (sent l)).
Proof.
  intros H (W1 & W2 & W3 & W4 & W5). unfold link_inv, host_ok, mcu_ok, up_ok, down_ok, next_full in *.
  cbn [host up mcu down delivered sent]. rewrite W1, W2, W3, W4, W5. exact H.
Qed.

Lemma inv_resend s0 l :
  link_inv s0 l ->
  link_inv s0 (mk_link (host l) (up l ++ (qm_msg <$> sent_queue (host l))) (mcu l) (down l) (delivered l) (sent l)).
Proof.
  intros (H & M & (ns & U1 & U2 & U3) & D). split_and!; [exact H|exact M| |exact D].
  destruct H as (H0 & H1 & H2 & H3 & H4 & H5 & _), M as (M1 & _).
  unfold up_ok, next_full in *. cbn [host up mcu down delivered sent] in *.
  exists (ns ++ seqZ (receive_seq (host l)) (send_seq (host l) - receive_seq (host l))). split_and!.
  - by rewrite U1, H5, fmap_app.
  - apply Forall_app. split; [done|]. apply Forall_seqZ. intros i Hi. lia.
  - apply StronglySorted_app. split_and!; [|done|].
    + intros x y Hx Hy%elem_of_seqZ. rewrite Forall_forall in U2. specialize (U2 _ Hx). lia.
    + apply sorted_all. intros x y Hx%elem_of_seqZ Hy%elem_of_seqZ. lia.
Qed.

Lemma inv_acked s0 l block rest :
  link_inv s0 l -> s0 + Z.of_nat (length (sent l)) < 0x3000000000000000 -> down l = block :: rest ->
  forall eventtime, exists a host',
    input_event monotonic (ReadBytes block) eventtime (host l) = Ret tt host' /\ acked a (host l) host' /\
    receive_seq (host l) <= a /\ (exists p, block = frame (seq_of a) p) /\
    link_inv s0 (mk_link host' (up l) (mcu l) rest (delivered l) (sent l)).
Proof.
  intros Hinv Hb Hd eventtime. destruct (inv_sent_queue _ _ Hinv) as (_ & Hlen & _).
  destruct Hinv as (H & (M1 & M2 & M3 & M4) & U & (ds & D1 & D2 & D3)).
  destruct H as (H0 & H1 & H2 & H3 & H4 & H5 & H6 & H7).
  rewrite Hd in D1. destruct ds as [|[a p] ds]; [done|]. injection D1 as -> ->.
  inversion D2 as [|? ? [Ha Hp] D2']; subst. cbn in Ha, Hp. inversion D3 as [|? ? D3' Dh]; subst.
  destruct (input_event_spec write_result monotonic a p eventtime (host l)) as (host' & Ei & A); [done|done|done|lia..|].
  exists a, host'. split; [done|]. split; [done|]. split; [lia|]. split; [by exists p|].
  destruct A as (A1 & A2 & A3 & A4 & A5).
  unfold link_inv, host_ok, mcu_ok, up_ok, down_ok, next_full in *. cbn [host up mcu down delivered sent].
  rewrite A1, A2, A4, A5. split_and!; try done; try lia.
  - rewrite A3, fmap_drop, H5, <- fmap_drop, drop_seqZ by lia. do 2 f_equal; lia.
  - exists ds. split_and!; [done| |done]. apply Forall_forall. intros d Hd'.
    rewrite Forall_forall in D2', Dh. specialize (D2' _ Hd'). specialize (Dh _ Hd'). cbn in Dh. intuition lia.
Qed.

(** The head of the line is delivered exactly when it is the next payload. *)
Lemma inv_mcu_receive s0 l block rest :
  link_inv s0 l -> up l = block :: rest ->
  exists mcu' acc acks, mcu_receive block (mcu l) = (mcu', acc, acks) /\
    (block = block_of s0 (sent l) (next_full s0 l) -> next_full s0 l < send_seq (host l) ->
     length acc = 1%nat) /\
    acks = [frame (seq_of (next_full s0 l + Z.of_nat (length acc))) []] /\
    link_inv s0 (mk_link (host l) rest mcu' (down l ++ acks) (delivered l ++ acc) (sent l)).
Proof.
  intros (H & (M1 & M2 & M3 & M4) & (ns & U1 & U2 & U3) & (ds & D1 & D2 & D3)) Hu.
  pose proof H as (H0 & H1 & H2 & H3 & H4 & _).
  rewrite Hu in U1. destruct ns as [|n ns]; [done|]. injection U1 as -> ->.
  inversion U2 as [|? ? Hn U2']; subst. inversion U3 as [|? ? U3' Uh]; subst.
  assert (Hp : payload_ok (sent l !!! Z.to_nat (n - s0))) by (apply (Forall_lookup_total_1 payload_ok); [done|lia]).
  destruct (mcu_receive_spec n (next_full s0 l) _ (mcu l) M2 M3 Hp) as (mcu' & E & Es & Ey); [lia|].
  eexists mcu', _, _. split; [exact E|]. split.
  { intros Eb Hl. unfold block_of in Eb. assert (Eq : seq_of n = seq_of (next_full s0 l)).
    { assert (Eq := f_equal (fun b : list Z => b !!! 1%nat) Eb). exact Eq. }
    apply seq_of_inj in Eq; [|lia]. by rewrite (proj2 (Z.eqb_eq _ _)). }
  split; [destruct (n =? _); cbn [length]; by rewrite ?Z.add_0_r|]. clear E. unfold link_inv, mcu_ok, up_ok, down_ok, next_full in *. cbn [host up mcu down delivered sent].
  split; [exact H|]. rewrite length_app.
  set (N := s0 + Z.of_nat (length (delivered l))) in *.
  assert (EN : s0 + Z.of_nat (length (delivered l) + length (if n =? N then [sent l !!! Z.to_nat (n - s0)] else []))
    = if n =? N then N + 1 else N) by (destruct (n =? N); cbn; lia).
  rewrite EN. split_and!.
  - destruct (Z.eqb_spec n N); lia.
  - destruct (Z.eqb_spec n N); lia.
  - exact Es.
  - exact Ey.
  - destruct (Z.eqb_spec n N) as [En|_]; cbn [length]; [|by rewrite app_nil_r, Nat.add_0_r].
    rewrite Nat.add_1_r, (take_S_r _ _ (sent l !!! Z.to_nat (n - s0))); [by rewrite <- M4|].
    replace (Z.to_nat (n - s0)) with (length (delivered l)) by lia. apply list_lookup_lookup_total_lt. lia.
  - exists ns. split_and!; [done| |done]. apply Forall_forall. intros m Hm.
    rewrite Forall_forall in U2', Uh. specialize (U2' _ Hm). specialize (Uh _ Hm). cbn in Uh.
    destruct (Z.eqb_spec n N); lia.
  - exists (ds ++ [(if n =? N then N + 1 else N, [])]). split_and!.
    + by rewrite D1, fmap_app.
    + apply Forall_app. split; [eapply Forall_impl; [exact D2|]|constructor; [|done]].
      * intros d [Hd ?]. split; [|done]. destruct (n =? N); lia.
      * cbn. split; [destruct (n =? N); lia|]. unfold payload_ok. cbn. lia.
    + apply StronglySorted_app. split_and!; [|done|by repeat constructor].
      intros d e Hd ->%list_elem_of_singleton. rewrite Forall_forall in D2. specialize (D2 _ Hd). cbn.
      destruct (n =? N); lia.
Qed.

Lemma inv_mcu_send s0 l p :
  link_inv s0 l -> payload_ok p ->
  link_inv s0 (mk_link (host l) (up l) (mcu l) (down l ++ [frame (next_sequence (mcu l)) p]) (delivered l) (sent l)).
Proof.
  intros (H & M & U & (ds & D1 & D2 & D3)) Hp. split_and!; [exact H|exact M|exact U|].
  destruct M as (M1 & M2 & _). exists (ds ++ [(next_full s0 l, p)]). cbn [host up mcu down delivered sent]. split_and!.
  - by rewrite D1, M2, fmap_app.
  - apply Forall_app. split; [exact D2|]. constructor; [|done]. cbn. unfold next_full in *. cbn. split; [lia|done].
  - apply StronglySorted_app. split_and!; [|done|by repeat constructor].
    intros d e Hd ->%list_elem_of_singleton. rewrite Forall_forall in D2. specialize (D2 _ Hd). cbn. lia.
Qed.

Lemma inv_up_lost s0 l l1 block l2 :
  link_inv s0 l -> up l = l1 ++ block :: l2 ->
  link_inv s0 (mk_link (host l) (l1 ++ l2) (mcu l) (down l) (delivered l) (sent l)).
Proof.
  intros (H & M & (ns & U1 & U2 & U3) & D) E. split_and!; [exact H|exact M| |exact D].
  rewrite E in U1. symmetry in U1. apply fmap_delete_inv in U1 as (k1 & x & k2 & -> & -> & ->).
  exists (k1 ++ k2). cbn [host up mcu down delivered sent]. split_and!; [by rewrite fmap_app| |by eapply sorted_delete].
  apply Forall_app in U2 as [U2 U2']. inversion_clear U2'. by apply Forall_app.
Qed.

Lemma inv_down_lost s0 l l1 block l2 :
  link_inv s0 l -> down l = l1 ++ block :: l2 ->
  link_inv s0 (mk_link (host l) (up l) (mcu l) (l1 ++ l2) (delivered l) (sent l)).
Proof.
  intros (H & M & U & (ds & D1 & D2 & D3)) E. split_and!; [exact H|exact M|exact U|].
  rewrite E in D1. symmetry in D1. apply fmap_delete_inv in D1 as (k1 & x & k2 & -> & -> & ->).
  exists (k1 ++ k2). cbn [host up mcu down delivered sent]. split_and!; [by rewrite fmap_app| |by eapply sorted_delete].
  apply Forall_app in D2 as [D2 D2']. inversion_clear D2'. by apply Forall_app.
Qed.

Lemma inv_retransmit s0 l eventtime :
  link_inv s0 l ->
  exists w host', retransmit_event write_result monotonic eventtime (host l) = Ret w host' /\
    same_window (host l) host' /\ link_inv s0 (resent l host') /\
    (writes_ok write_result (host l) -> line_blocks (written (host l) host') = qm_msg <$> sent_queue (host l)).
Proof.
  intros Hinv. destruct (inv_sent_queue _ _ Hinv) as (Hn & _ & Hl).
  destruct (retransmit_spec write_result monotonic eventtime (host l) Hn Hl) as (w & host' & E & W & [j Hj] & Hok).
  exists w, host'. split_and!; [done|done| |done]. unfold resent. rewrite Hj.
  apply (inv_up_prefix _ _ _ (drop j (qm_msg <$> sent_queue (host l)))). rewrite <- app_assoc, take_drop.
  exact (inv_window _ _ _ (inv_resend _ _ Hinv) W).
Qed.

Definition few (s0 : Z) (l : link) : Prop := s0 + Z.of_nat (length (sent l)) < 0x3000000000000000.

Lemma inv_rstep s0 l l' : link_inv s0 l -> few s0 l -> rstep l l' -> link_inv s0 l'.
Proof.
  intros Hinv Hf Hd. destruct Hd as [t l0 b rest h Ed E|l0 b rest m acc acks Eu E].
  - destruct (inv_acked s0 l0 b rest Hinv Hf Ed t) as (a & h' & E' & _ & _ & _ & H). congruence.
  - destruct (inv_mcu_receive s0 l0 b rest Hinv Eu) as (m' & acc' & acks' & E' & _ & _ & H). congruence.
Qed.

Lemma inv_dstep s0 l l' : link_inv s0 l -> few s0 l -> dstep l l' -> link_inv s0 l'.
Proof.
  intros Hinv Hf Hd. destruct Hd as [t w l0 h E|]; [|by eapply inv_rstep].
  destruct (inv_retransmit s0 l0 t Hinv) as (w' & h' & E' & _ & H & _). congruence.
Qed.

Lemma inv_lstep s0 l l' : link_inv s0 l -> few s0 l -> lstep l l' -> link_inv s0 l'.
Proof.
  intros Hinv Hf Hs. inversion Hs; subst; eauto using inv_dstep, inv_send, inv_window, inv_mcu_send,
    inv_up_lost, inv_down_lost.
Qed.

(** Both ends agree on the next number and nothing is under way. *)
Definition link_start (s0 : Z) (l : link) : Prop :=
  0 <= s0 /\ send_seq (host l) = s0 /\ receive_seq (host l) = s0 /\ sent_queue (host l) = [] /\
  input_buf (host l) = [] /\ Serialqueue.need_sync (host l) = false /\
  next_sequence (mcu l) = seq_of s0 /\ Command.need_sync (mcu l) = false /\
  up l = [] /\ down l = [] /\ delivered l = [] /\ sent l = [].

Lemma start_inv s0 l : link_start s0 l -> link_inv s0 l.
Proof.
  intros (H0 & H1 & H2 & H3 & H4 & H5 & H6 & H7 & H8 & H9 & H10 & H11).
  unfold link_inv, host_ok, mcu_ok, up_ok, down_ok, next_full.
  rewrite H1, H2, H3, H4, H5, H6, H8, H9, H10, H11. cbn [length]. rewrite Z.add_0_r, Z.sub_diag.
  split_and!; try done; try lia; exists []; by repeat constructor.
Qed.

Lemma lstep_sent l l' : lstep l l' -> (length (sent l) <= length (sent l'))%nat.
Proof.
  destruct 1 as [l l' H| | | | |]; cbn [sent]; rewrite ?length_app; try lia. destruct H as [|? ? []]; done.
Qed.

Lemma reach_inv s0 l0 l : link_start s0 l0 -> rtc lstep l0 l -> few s0 l -> link_inv s0 l.
Proof.
  intros H0 Hr. pattern l. revert l Hr. apply rtc_ind_r; [intros _; by apply start_inv|].
  intros l1 l2 _ Hs IH Hf. assert (few s0 l1) by (pose proof (lstep_sent _ _ Hs); unfold few in *; lia).
  eauto using inv_lstep.
Qed.

(** *** Recovery *)

(** Either a run of blocks that ends with the last one and starts with one the
    firmware has or expects is on the line, or the firmware has everything and the
    host knows it, will be told so, or a block is on the line that the firmware
    will answer with the last number. *)
Definition recovering (s0 : Z) (l : link) : Prop :=
  let S := send_seq (host l) in
  (exists u1 m u2, up l = u1 ++ (block_of s0 (sent l) <$> seqZ m (S - m)) ++ u2 /\ m <= next_full s0 l /\ m < S) \/
  next_full s0 l = S /\ (receive_seq (host l) = S \/ (exists p, frame (seq_of S) p ∈ down l) \/ up l <> []).

Lemma recovering_resent s0 l eventtime w host' :
  link_inv s0 l -> retransmit_event write_result monotonic eventtime (host l) = Ret w host' ->
  writes_ok write_result (host l) -> recovering s0 (resent l host').
Proof.
  intros Hinv E Hok. destruct (inv_retransmit s0 l eventtime Hinv) as (w' & h & E' & (W1 & W2 & _) & _ & Hl).
  rewrite E in E'. injection E' as _ <-. specialize (Hl Hok).
  destruct Hinv as ((P0 & P1 & P2 & P3 & P4 & P5 & _) & (Q1 & _) & _).
  unfold recovering, resent, next_full in *. cbn [host up mcu down delivered sent]. rewrite W1, W2, Hl, P5.
  destruct (decide (receive_seq (host l) = send_seq (host l))) as [Eq|Hne]; [right; split; [lia|by left]|left].
  exists (up l), (receive_seq (host l)), []. rewrite app_nil_r. split_and!; [done|lia..].
Qed.

Lemma recovering_mcu s0 l block rest mcu' acc acks :
  link_inv s0 l -> recovering s0 l -> up l = block :: rest -> mcu_receive block (mcu l) = (mcu', acc, acks) ->
  recovering s0 (mk_link (host l) rest mcu' (down l ++ acks) (delivered l ++ acc) (sent l)).
Proof.
  intros Hinv Hrec Hu E. destruct (inv_mcu_receive s0 l _ _ Hinv Hu) as (m' & acc' & acks' & E' & Hacc & Hack & Hinv').
  rewrite E in E'. injection E' as <- <- <-. destruct Hinv' as (_ & (M1 & _) & _).
  unfold recovering, next_full in *. cbn [host up mcu down delivered sent] in *. rewrite length_app in *.
  set (S := send_seq (host l)) in *. set (N := s0 + Z.of_nat (length (delivered l))) in *.
  assert (Hans : N + Z.of_nat (length acc) = S -> exists p, frame (seq_of S) p ∈ down l ++ acks).
  { intros EN. exists []. rewrite Hack, EN. apply elem_of_app. right. by left. }
  destruct Hrec as [([|b u1] & m & u2 & Eu & Hm & HmS)|[HN _]].
  - rewrite seqZ_cons in Eu by lia. cbn [fmap list_fmap app] in Eu. rewrite Hu in Eu. injection Eu as -> ->.
    assert (Hm1 : m + 1 <= N + Z.of_nat (length acc)).
    { destruct (decide (m = N)) as [->|]; [|lia]. rewrite Hacc; [lia|done|lia]. }
    destruct (decide (m + 1 < S)) as [Hlt|Hge].
    + left. exists [], (m + 1), u2. cbn [app]. split_and!; [do 3 f_equal; lia|lia|done].
    + right. assert (N + Z.of_nat (length acc) = S) by lia. split; [lia|]. right; left. auto.
  - left. exists u1, m, u2. rewrite Hu in Eu. injection Eu as -> ->. split_and!; [done|lia|done].
  - right. assert (N + Z.of_nat (length acc) = S) by lia. split; [lia|]. right; left. auto.
Qed.

Lemma recovering_host s0 l block rest eventtime host' :
  link_inv s0 l -> few s0 l -> recovering s0 l -> down l = block :: rest ->
  input_event monotonic (ReadBytes block) eventtime (host l) = Ret tt host' ->
  recovering s0 (mk_link host' (up l) (mcu l) rest (delivered l) (sent l)).
Proof.
  intros Hinv Hf Hrec Hd E.
  destruct (inv_acked s0 l block rest Hinv Hf Hd eventtime) as (a & h & E' & (A1 & A2 & _) & Ha & [p Eb] & Hinv').
  rewrite E in E'. injection E' as <-. destruct Hinv as ((_ & _ & H2 & _) & _), Hinv' as (_ & (M1 & _) & _).
  unfold recovering, next_full in *. cbn [host up mcu down delivered sent] in *. rewrite A1, A2 in *.
  destruct Hrec as [Hrun|[HN Hrec]]; [by left|]. right. split; [done|].
  destruct Hrec as [Hr|[[p' Hp]|Hu]]; [left; lia| |by right; right].
  rewrite Hd, elem_of_cons in Hp. destruct Hp as [Hp|Hp]; [left|by right; left; exists p'].
  rewrite Eb in Hp. assert (Es := f_equal (fun b : list Z => b !!! 1%nat) Hp). cbn in Es. symmetry in Es.
  apply seq_of_inj in Es; [done|]. lia.
Qed.

Lemma recovering_dstep s0 l l' :
  link_inv s0 l -> few s0 l -> recovering s0 l -> dstep l l' -> recovering s0 l'.
Proof.
  intros Hinv Hf Hrec Hd. destruct Hd as [t w l h E|l l' [t l1 b rest h Ed E|l1 b rest m acc acks Eu E]].
  - destruct (inv_retransmit s0 l t Hinv) as (w' & h' & E' & (W1 & W2 & _) & _). rewrite E in E'. injection E' as _ <-.
    unfold recovering, resent, next_full in *. cbn [host up mcu down delivered sent]. rewrite W1, W2.
    destruct Hrec as [(u1 & m & u2 & Eu & Hm)|[HN Hrec]].
    + left. exists u1, m, (u2 ++ line_blocks (written (host l) h)). rewrite Eu, <- !app_assoc. done.
    + right. split; [done|]. destruct Hrec as [?|[?|Hu]]; [by left|by right; left|]. right; right. by destruct (up l).
  - by eapply recovering_host.
  - by eapply recovering_mcu.
Qed.

Lemma inv_finished s0 l : link_inv s0 l -> receive_seq (host l) = send_seq (host l) ->
  delivered l = sent l /\ sent_queue (host l) = [].
Proof.
  intros Hinv E. destruct (inv_sent_queue _ _ Hinv) as (_ & Hl & _).
  destruct Hinv as ((_ & _ & _ & H3 & _) & (M1 & _ & _ & M4) & _). unfold next_full in M1. split.
  - rewrite M4. apply take_ge. lia.
  - apply length_zero_iff_nil. lia.
Qed.

Lemma dstep_sent l l' : dstep l l' -> sent l' = sent l.
Proof. by destruct 1 as [|? ? []]. Qed.

Lemma recovering_run s0 l l' :
  rtc dstep l l' -> link_inv s0 l -> few s0 l -> recovering s0 l ->
  link_inv s0 l' /\ few s0 l' /\ recovering s0 l' /\ sent l' = sent l.
Proof.
  induction 1 as [|l l1 l' Hs Hr IH]; intros Hinv Hf Hrec; [done|]. pose proof (dstep_sent _ _ Hs) as Es.
  rewrite <- Es. apply IH; [by eapply inv_dstep| |by eapply recovering_dstep]. unfold few in *. by rewrite Es.
Qed.

(** When nothing is on the line any more, everything has been delivered. *)
Lemma recovering_end s0 l : link_inv s0 l -> recovering s0 l -> up l = [] -> down l = [] ->
  delivered l = sent l /\ sent_queue (host l) = [].
Proof.
  intros Hinv Hrec Hu Hd. apply (inv_finished s0); [done|]. destruct Hrec as [(u1 & m & u2 & Eu & _ & Hm)|[_ Hrec]].
  - rewrite Hu in Eu. symmetry in Eu. apply app_nil in Eu as [_ Eu]. apply app_nil in Eu as [Eu _].
    rewrite seqZ_cons in Eu by lia. discriminate Eu.
  - destruct Hrec as [?|[[p Hp]|?]]; [done| |done]. rewrite Hd in Hp. by apply not_elem_of_nil in Hp.
Qed.

(** Receiving ends, and is possible as long as something is on the line. *)
Definition on_line (l : link) : nat := 2 * length (up l) + length (down l).

Lemma rstep_decreases s0 l l' : link_inv s0 l -> rstep l l' -> (on_line l' < on_line l)%nat.
Proof.
  intros Hinv Hs. unfold on_line. destruct Hs as [t l b rest h Ed E|l b rest m acc acks Eu E]; cbn [up down].
  - rewrite Ed. cbn. lia.
  - destruct (inv_mcu_receive s0 l b rest Hinv Eu) as (m' & acc' & acks' & E' & _ & Hack & _).
    rewrite E in E'. injection E' as <- <- <-. rewrite Eu, Hack, length_app. cbn. lia.
Qed.

Lemma rstep_possible s0 l : link_inv s0 l -> few s0 l -> (on_line l = 0)%nat \/ exists l', rstep l l'.
Proof.
  intros Hinv Hf. unfold on_line. destruct (up l) as [|b u] eqn:Eu; [destruct (down l) as [|b d] eqn:Ed|].
  - by left.
  - right. destruct (inv_acked s0 l b d Hinv Hf Ed PR_NOW) as (a & h & E & _). eexists. by eapply Host_receive.
  - right. destruct (inv_mcu_receive s0 l b u Hinv Eu) as (m & acc & acks & E & _). eexists. by eapply Mcu_receive.
Qed.

Lemma rsteps_bounded s0 n l l' :
  nsteps rstep n l l' -> link_inv s0 l -> few s0 l -> (n + on_line l' <= on_line l)%nat /\ link_inv s0 l' /\ few s0 l'.
Proof.
  induction 1 as [|n l l1 l' Hs Hr IH]; intros Hinv Hf; [split_and!; [lia|done..]|].
  pose proof (rstep_decreases _ _ _ Hinv Hs). destruct IH as (IH & ? & ?); [by eapply inv_rstep| |split_and!; [lia|done..]].
  unfold few in *. by rewrite (dstep_sent _ _ (Receive _ _ Hs)).
Qed.
End protocol.

(** ** Properties *)

(** C1: exactly-once, in-order delivery.  However the line loses blocks in either
    direction, and whatever is resent, the payloads the firmware accepts are the
    first ones the host sent, in order and without repetition, and a block the
    host takes for acknowledged has been accepted. *)
Theorem arq_exactly_once write_result monotonic s0 l0 l :
  link_start s0 l0 -> rtc (lstep write_result monotonic) l0 l -> few s0 l ->
  delivered l = take (length (delivered l)) (sent l) /\
  receive_seq (host l) <= s0 + Z.of_nat (length (delivered l)).
Proof.
  intros H0 Hr Hf. destruct (reach_inv _ _ _ _ _ H0 Hr Hf) as (_ & (M1 & _ & _ & M4) & _).
  split; [exact M4|apply M1].
Qed.

(** The window and the local buffers.  In every reachable state at most
    twelve blocks wait for an acknowledgement, resending them fits the buffer of
    [retransmit_event], and the next response on the line is consumed whole and
    acknowledges blocks of the window. *)
Theorem arq_window_safe write_result monotonic s0 l0 l eventtime :
  link_start s0 l0 -> rtc (lstep write_result monotonic) l0 l -> few s0 l ->
  (length (sent_queue (host l)) <= 12)%nat /\
  (exists w host', retransmit_event write_result monotonic eventtime (host l) = Ret w host') /\
  (forall block rest, down l = block :: rest ->
     exists a host', input_event monotonic (ReadBytes block) eventtime (host l) = Ret tt host' /\
       input_buf host' = [] /\ receive_seq host' = a /\ receive_seq (host l) <= a <= send_seq (host l) /\
       sent_queue host' = drop (Z.to_nat (a - receive_seq (host l))) (sent_queue (host l))).
Proof.
  intros H0 Hr Hf. pose proof (reach_inv _ _ _ _ _ H0 Hr Hf) as Hinv. split_and!.
  - apply (inv_sent_queue _ _ Hinv).
  - destruct (inv_retransmit write_result monotonic _ _ eventtime Hinv) as (w & h & E & _). eauto.
  - intros block rest Hd. destruct (inv_acked write_result monotonic _ _ _ _ Hinv Hf Hd eventtime)
      as (a & h & E & (A1 & A2 & A3 & A4 & _) & Ha & _ & Hinv').
    exists a, h. destruct Hinv as ((_ & _ & _ & _ & _ & _ & Hi & _) & _), Hinv' as ((_ & H1 & _) & _).
    cbn in H1. split_and!; try done; [congruence|lia].
Qed.

(** C32: recovery.  In every reachable state [retransmit_event] returns.  When from
    there on no write fails and nothing is lost, one such call is enough: the two
    ends can only take finitely many blocks from the line, they can go on as long
    as there are any, and however they proceed, with more calls of
    [retransmit_event] or without, when the line is empty everything sent has been
    delivered and the host has no block left to resend. *)
Theorem arq_recovers write_result monotonic s0 l0 l eventtime :
  link_start s0 l0 -> rtc (lstep write_result monotonic) l0 l -> few s0 l -> writes_ok write_result (host l) ->
  exists w host', retransmit_event write_result monotonic eventtime (host l) = Ret w host' /\
    let l1 := resent l host' in
    (forall n l2, nsteps (rstep monotonic) n l1 l2 ->
       (n <= on_line l1)%nat /\ (on_line l2 = 0%nat \/ exists l3, rstep monotonic l2 l3)) /\
    (forall l2, rtc (dstep write_result monotonic) l1 l2 -> on_line l2 = 0%nat ->
       delivered l2 = sent l /\ sent_queue (host l2) = []).
Proof.
  intros H0 Hr Hf Hok. pose proof (reach_inv _ _ _ _ _ H0 Hr Hf) as Hinv.
  destruct (inv_retransmit write_result monotonic s0 l eventtime Hinv) as (w & h & E & _ & Hinv1 & _).
  exists w, h. split; [done|]. intros l1. split.
  - intros n l2 (Hn & Hi2 & Hf2)%(rsteps_bounded write_result monotonic s0); [|done|done]. split; [lia|].
    by eapply rstep_possible.
  - intros l2 Hl2 Hz. destruct (recovering_run write_result monotonic s0 l1 l2 Hl2 Hinv1 Hf) as (Hi2 & _ & Hrec & Es);
      [by eapply recovering_resent|].
    change (sent l) with (sent l1). rewrite <- Es. unfold on_line in Hz.
    apply (recovering_end s0); [done|done|..]; apply length_zero_iff_nil; lia.
Qed.

(** Connecting.  A host that has just started (its first blocks are numbered
    from 1) and a firmware that expects any other number agree after the first
    response: the host drops what it had sent and both continue from the
    firmware's number, which is the start the theorems above assume. *)
Theorem arq_connect monotonic m st p eventtime sq :
  input_buf sq = [] -> Serialqueue.need_sync sq = false -> payload_ok p ->
  receive_seq sq = 1 -> send_seq sq = 1 + Z.of_nat (length (sent_queue sq)) ->
  next_sequence st = seq_of m -> Command.need_sync st = false ->
  let rseq := 1 + (m - 1) mod 16 in
  send_seq sq < rseq ->
  exists sq', input_event monotonic (ReadBytes (frame (next_sequence st) p)) eventtime sq = Ret tt sq' /\
    link_start rseq (mk_link sq' [] st [] [] []).
Proof.
  intros Hi Hn Hp Hr Hs Hm Hst rseq Hl.
  destruct (connect_spec monotonic m p eventtime sq Hi Hn Hp Hr Hs Hl) as (sq' & E & H1 & H2 & H3 & H4 & H5 & H6).
  exists sq'. rewrite Hm. split; [exact E|]. fold rseq in H1, H2, H6.
  pose proof (Z.mod_pos_bound (m - 1) 16 ltac:(lia)). unfold link_start. cbn [host up mcu down delivered sent].
  split_and!; try done; [lia|congruence].
Qed.

Lemma arq_connect_witness :
  exists sq', input_event (fun _ => of_Z 0) (ReadBytes (frame 0x1c [])) (of_Z 1) (serialqueue_alloc 3 4 SQT_UART 0)
      = Ret tt sq' /\ link_start 12 (mk_link sq' [] (mk_cmd_state 0x1c 0) [] [] []).
Proof.
  refine (arq_connect (fun _ => of_Z 0) 12 (mk_cmd_state 0x1c 0) [] (of_Z 1) (serialqueue_alloc 3 4 SQT_UART 0)
    _ _ _ _ _ _ _ _); try (vm_compute; reflexivity).
  unfold payload_ok. cbn. lia.
Defined.

(** *** A run that loses a block *)

Module Example.
Definition ok_write : nat -> Z := fun _ => 0.
Definition no_time : nat -> double := fun _ => of_Z 0.
Definition l0 : link := mk_link (serialqueue_alloc 3 4 SQT_UART 0) [] (mk_cmd_state 0x11 0) [] [] [].
Definition l1 : link :=
  mk_link (serialqueue_send 0 [7; 8] 0 0 0 (host l0)) (up l0) (mcu l0) (down l0) (delivered l0) (sent l0).
Definition adds : nat -> list (Z * list queue_message) := fun _ => [].
Definition host2 : serialqueue :=
  final (command_event ok_write no_time (fun i => send_batches (adds i)) (of_Z 1) (host l1)).
Definition l2 : link := mk_link host2 (up l1 ++ line_blocks (written (host l1) host2))
  (mcu l1) (down l1) (delivered l1) (sent l1 ++ new_payloads (host l1) host2).
Definition l3 : link := mk_link (host l2) ([] ++ []) (mcu l2) (down l2) (delivered l2) (sent l2).
Definition host4 : serialqueue := final (retransmit_event ok_write no_time (of_Z 2) (host l3)).
Definition l4 : link := resent l3 host4.
Definition l5 : link := mk_link (host l4) [] (mk_cmd_state 0x12 0) (down l4 ++ [frame 0x12 []])
  (delivered l4 ++ [[7; 8]]) (sent l4).
Definition host6 : serialqueue := final (input_event no_time (ReadBytes (frame 0x12 [])) (of_Z 3) (host l5)).
Definition l6 : link := mk_link host6 (up l5) (mcu l5) [] (delivered l5) (sent l5).
End Example.

Lemma example_start : link_start 1 Example.l0.
Proof. by vm_compute. Qed.

Lemma example_queue : lstep Example.ok_write Example.no_time Example.l0 Example.l1.
Proof. exact (Host_other _ _ Example.l0 _ (proj1 (send_batch_window _ _ _))). Qed.

Lemma example_send : lstep Example.ok_write Example.no_time Example.l1 Example.l2.
Proof.
  apply (Host_send _ _ Example.adds (of_Z 1) PR_NOW Example.l1 Example.host2).
  - unfold Example.host2. apply result_ret. vm_compute. reflexivity.
  - vm_compute. reflexivity.
Qed.

Lemma example_lose : lstep Example.ok_write Example.no_time Example.l2 Example.l3.
Proof. apply (Up_lost _ _ Example.l2 [] (frame 0x11 [7; 8]) []). by vm_compute. Qed.

Lemma example_resend : dstep Example.ok_write Example.no_time Example.l3 Example.l4.
Proof.
  eapply (Host_resend _ _ (of_Z 2) _ Example.l3 Example.host4).
  unfold Example.host4. apply result_ret. vm_compute. reflexivity.
Qed.

Lemma example_accept : rstep Example.no_time Example.l4 Example.l5.
Proof. apply (Mcu_receive _ Example.l4 (frame 0x11 [7; 8]) []); by vm_compute. Qed.

(** The host queues and sends a block, the line loses it, the host sends it
    again and the firmware accepts it. *)
Lemma example_run : rtc (lstep Example.ok_write Example.no_time) Example.l0 Example.l5.
Proof.
  exact (rtc_l _ _ _ _ example_queue (rtc_l _ _ _ _ example_send (rtc_l _ _ _ _ example_lose
    (rtc_l _ _ _ _ (Deliver _ _ _ _ example_resend) (rtc_once _ _ (Deliver _ _ _ _ (Receive _ _ _ _ example_accept))))))).
Qed.

Lemma example_few : few 1 Example.l5.
Proof. by vm_compute. Qed.

Lemma arq_exactly_once_witness :
  [[7; 8]] = take 1 (sent Example.l5) /\ receive_seq (host Example.l5) <= 2.
Proof. exact (arq_exactly_once _ _ 1 _ _ example_start example_run example_few). Defined.

Lemma arq_window_safe_witness :
  (length (sent_queue (host Example.l5)) <= 12)%nat.
Proof. exact (proj1 (arq_window_safe _ _ 1 _ _ PR_NOW example_start example_run example_few)). Defined.

Lemma example_lost : rtc (lstep Example.ok_write Example.no_time) Example.l0 Example.l3.
Proof. exact (rtc_l _ _ _ _ example_queue (rtc_l _ _ _ _ example_send (rtc_once _ _ example_lose))). Qed.

Lemma example_acked : rstep Example.no_time Example.l5 Example.l6.
Proof.
  apply (Host_receive _ (of_Z 3) Example.l5 (frame 0x12 []) []); [by vm_compute|].
  unfold Example.host6. apply (result_ret _ tt). vm_compute. reflexivity.
Qed.

(** After the loss one resend leads to the end. *)
Lemma arq_recovers_witness : delivered Example.l6 = [[7; 8]] /\ sent_queue (host Example.l6) = [].
Proof.
  destruct (arq_recovers Example.ok_write Example.no_time 1 Example.l0 Example.l3 (of_Z 2) example_start example_lost)
    as (w & h & E & _ & H).
  - by vm_compute.
  - intros n _. discriminate.
  - assert (Eh : h = Example.host4) by (unfold Example.host4; by rewrite E). rewrite Eh in H.
    destruct (H Example.l6) as [H1 H2].
    + exact (rtc_l _ _ _ _ (Receive _ _ _ _ example_accept) (rtc_once _ _ (Receive _ _ _ _ example_acked))).
    + by vm_compute.
    + split; [rewrite H1; by vm_compute|exact H2].
Defined.
