(* ===== verification/SendQueue.v ===== *)
(** * The queues of messages waiting to be sent

    [serialqueue_send_batch] (any thread), [check_upcoming_queues] and
    [build_and_send_command] (the background thread) share the command queues,
    the lists of queues that have upcoming or ready messages, the byte counts
    and the earliest release clock.  This file states what these fields mean
    and that every operation keeps it, and that no message is lost, repeated or
    reordered within its queue on the way to a block. *)

From S2P Require Import Prelude Double Crc Vlq Command Msgblock Pollreactor Serialqueue Arq.

(** ** Well-formed queues *)

Definition msg_ok (qm : queue_message) : Prop :=
  (0 < length (qm_msg qm) <= MESSAGE_PAYLOAD_MAX)%nat /\ qm_req_clock qm < MAX_CLOCK.

Fixpoint sum_over (f : Z -> Z) (l : list Z) : Z :=
  match l with [] => 0 | q :: l => f q + sum_over f l end.

Definition ready sq q := cq_ready (command_queues sq q).
Definition upcoming sq q := cq_upcoming (command_queues sq q).

(** A list of the queues that have messages, with the total [b] of a measure of
    their messages. *)
Definition listed_by (mu : list queue_message -> Z) (l : list Z) (b : Z) (m : Z -> list queue_message) : Prop :=
  NoDup l /\ (forall q, q ∈ l <-> m q <> []) /\ b = sum_over (fun q => mu (m q)) l.
Definition listed := listed_by total_len.

(** No upcoming message is due before [clock]. *)
Definition released_from (clock : Z) (m : Z -> list queue_message) : Prop :=
  forall q qm rest, m q = qm :: rest -> clock <= qm_min_clock qm.

Record queues_ok (sq : serialqueue) : Prop := {
  ok_ready : listed (ready_queues sq) (ready_bytes sq) (ready sq);
  ok_upcoming : listed (upcoming_queues (sq_transmit sq)) (upcoming_bytes (sq_transmit sq)) (upcoming sq);
  ok_msgs : forall q, Forall msg_ok (ready sq q ++ upcoming sq q);
  ok_release : released_from (min_release_clock (sq_transmit sq)) (upcoming sq) }.

(** *** Sums *)

Lemma sum_over_ext f g l : (forall q, q ∈ l -> f q = g q) -> sum_over f l = sum_over g l.
Proof.
  induction l as [|q l IH]; intros H; cbn; [done|].
  rewrite (H q), IH; [done| |]; intros; try apply H; by constructor.
Qed.

Lemma sum_over_app f l1 l2 : sum_over f (l1 ++ l2) = sum_over f l1 + sum_over f l2.
Proof. induction l1; cbn; [done|]. lia. Qed.

Lemma filter_not_in (q : Z) (l : list Z) : q ∉ l -> filter (fun x => x <> q) l = l.
Proof.
  induction l as [|x l IH]; intros H; [done|]. rewrite not_elem_of_cons in H.
  rewrite filter_cons_True by intuition congruence. by rewrite IH by tauto.
Qed.

Lemma sum_over_remove f q l : NoDup l -> q ∈ l -> sum_over f l = f q + sum_over f (filter (fun x => x <> q) l).
Proof.
  induction 1 as [|x l Hx Hl IH]; intros Hq; [by apply not_elem_of_nil in Hq|].
  apply elem_of_cons in Hq as [->|Hq].
  - rewrite filter_cons_False by (intros Hf; by apply Hf). by rewrite filter_not_in.
  - rewrite filter_cons_True by congruence. cbn. rewrite IH by done. lia.
Qed.

(** The sum after one queue's contribution changed from [f] to [g]. *)
Lemma sum_over_update f g q l : NoDup l -> q ∈ l -> (forall x, x <> q -> f x = g x) ->
  sum_over g l = sum_over f l - f q + g q.
Proof.
  intros Hl Hq H. rewrite (sum_over_remove f q l), (sum_over_remove g q l) by done.
  rewrite (sum_over_ext f g (filter _ l)); [lia|]. intros x Hx%list_elem_of_filter. apply H, Hx.
Qed.

Lemma total_len_nil : total_len [] = 0.
Proof. done. Qed.

Lemma total_len_app l1 l2 : total_len (l1 ++ l2) = total_len l1 + total_len l2.
Proof. unfold total_len. induction l1; cbn; [done|]. lia. Qed.

Lemma total_len_pos l : Forall msg_ok l -> l <> [] -> 0 < total_len l.
Proof.
  unfold total_len. destruct 1 as [|m l [Hm _] Hl]; [done|]. intros _. cbn.
  assert (0 <= foldr (fun m n => qm_len m + n) 0 l).
  { clear Hm. induction Hl as [|m' l' [Hm' _] _ IH]; cbn; [lia|]. unfold qm_len in *. lia. }
  unfold qm_len in *. lia.
Qed.

(** *** Adding to and taking from a listed queue *)

Section listed.
Context (mu : list queue_message -> Z).
Hypothesis mu_app : forall l1 l2, mu (l1 ++ l2) = mu l1 + mu l2.

Lemma mu_nil : mu [] = 0.
Proof. pose proof (mu_app [] []). cbn in *. lia. Qed.

Lemma listed_ext l b m m' : (forall q, m q = m' q) -> listed_by mu l b m -> listed_by mu l b m'.
Proof.
  intros H (H1 & H2 & H3). split_and!; [done| |].
  - intros q. by rewrite <- H.
  - rewrite H3. apply sum_over_ext. intros q _. by rewrite H.
Qed.

Lemma listed_push l b m m' q new :
  listed_by mu l b m -> m' q = m q ++ new -> (forall x, x <> q -> m' x = m x) ->
  listed_by mu (if bool_decide (m q = []) && negb (bool_decide (m' q = [])) then l ++ [q] else l)
    (b + mu new) m'.
Proof.
  intros (H1 & H2 & H3) Hq Hx. rewrite Hq. destruct (decide (m q = [])) as [E|E].
  - rewrite bool_decide_eq_true_2 by done. rewrite E in *. cbn [app andb].
    assert (Hn : q ∉ l) by (rewrite H2; tauto).
    assert (Hs : sum_over (fun q => mu (m' q)) l = b).
    { rewrite H3. apply sum_over_ext. intros x Hl. rewrite Hx; [done|congruence]. }
    destruct (decide (new = [])) as [->|Hnew].
    + rewrite bool_decide_eq_true_2 by done. cbn [negb]. split_and!; [done| |by rewrite Hs, mu_nil, Z.add_0_r].
      intros x. rewrite H2. destruct (decide (x = q)) as [->|]; [by rewrite Hq, E|by rewrite Hx].
    + rewrite bool_decide_eq_false_2 by done. cbn [negb]. split_and!.
      * apply NoDup_app. split_and!; [done|set_solver|apply NoDup_singleton].
      * intros x. rewrite elem_of_app, list_elem_of_singleton, H2.
        destruct (decide (x = q)) as [->|]; [rewrite Hq; tauto|rewrite Hx by done; tauto].
      * rewrite sum_over_app, Hs. cbn [sum_over]. rewrite Hq. cbn [app]. lia.
  - rewrite bool_decide_eq_false_2 by done. cbn [andb]. split_and!; [done| |].
    + intros x. rewrite H2. destruct (decide (x = q)) as [->|]; [|by rewrite Hx].
      rewrite Hq. split; [|done]. intros _ Hn. by apply app_eq_nil in Hn as [??].
    + rewrite (sum_over_update (fun q => mu (m q)) _ q l), <- H3, Hq, mu_app; [lia|done| |].
      * by apply H2.
      * intros x Hxq. by rewrite Hx.
Qed.

Lemma listed_pop l b m m' q k :
  listed_by mu l b m -> m' q = drop k (m q) -> (forall x, x <> q -> m' x = m x) ->
  listed_by mu (if bool_decide (m' q = []) then filter (fun x => x <> q) l else l)
    (b - mu (take k (m q))) m'.
Proof.
  intros (H1 & H2 & H3) Hq Hx.
  assert (Ht : mu (m q) = mu (take k (m q)) + mu (m' q)).
  { by rewrite Hq, <- mu_app, take_drop. }
  assert (Hs : q ∈ l -> sum_over (fun q => mu (m q)) l =
    mu (m q) + sum_over (fun q => mu (m' q)) (filter (fun x => x <> q) l)).
  { intros Hl. rewrite (sum_over_remove _ q l) by done. f_equal. apply sum_over_ext.
    intros x [Hxq _]%list_elem_of_filter. by rewrite Hx. }
  destruct (decide (m' q = [])) as [E|E].
  - rewrite bool_decide_eq_true_2 by done. rewrite E, mu_nil in Ht. split_and!.
    + by apply NoDup_filter.
    + intros x. rewrite list_elem_of_filter, H2. destruct (decide (x = q)) as [->|]; [tauto|].
      rewrite Hx by done. tauto.
    + rewrite H3. destruct (decide (q ∈ l)) as [Hl|Hl]; [rewrite Hs by done; lia|].
      rewrite filter_not_in by done. rewrite H2 in Hl. apply dec_stable in Hl.
      rewrite Hl, take_nil, mu_nil, Z.sub_0_r. apply sum_over_ext. intros x Hxl. rewrite Hx; [done|].
      intros ->. apply H2 in Hxl. done.
  - rewrite bool_decide_eq_false_2 by done.
    assert (Hl : q ∈ l). { apply H2. intros En. rewrite Hq, En, drop_nil in E. done. }
    split_and!; [done| |].
    + intros x. rewrite H2. destruct (decide (x = q)) as [->|]; [|by rewrite Hx]. apply H2 in Hl. tauto.
    + rewrite (sum_over_update (fun q => mu (m q)) _ q l), <- H3; [lia|done..|].
      intros x Hxq. by rewrite Hx.
Qed.

End listed.

(** ** The operations *)

(** Everything but the release clock, which [check_upcoming_queues] only sets at
    its end. *)
Definition queues_wf (sq : serialqueue) : Prop :=
  listed (ready_queues sq) (ready_bytes sq) (ready sq) /\
  listed (upcoming_queues (sq_transmit sq)) (upcoming_bytes (sq_transmit sq)) (upcoming sq) /\
  (forall q, Forall msg_ok (ready sq q ++ upcoming sq q)).

Lemma queues_ok_wf sq : queues_ok sq <->
  queues_wf sq /\ released_from (min_release_clock (sq_transmit sq)) (upcoming sq).
Proof.
  split; [intros [H1 H2 H3 H4]; exact (conj (conj H1 (conj H2 H3)) H4)|].
  intros [(H1 & H2 & H3) H4]. by constructor.
Qed.

(** *** serialqueue_send_batch *)

Lemma limit_min_clock_ok qm : msg_ok qm -> msg_ok (limit_min_clock qm).
Proof. unfold limit_min_clock. by destruct (_ && _). Qed.

Lemma release_count_spec queue ack n w : release_count queue ack = (n, w) ->
  Forall (fun qm => qm_min_clock qm <= ack) (take n queue) /\
  match drop n queue with
  | [] => w = None
  | qm :: _ => ack < qm_min_clock qm /\ w = Some (qm_min_clock qm)
  end.
Proof.
  revert n w. induction queue as [|qm queue IH]; intros n w; cbn; [by intros [= <- <-]|].
  destruct (Z.ltb_spec ack (qm_min_clock qm)); [by intros [= <- <-]|].
  destruct (release_count queue ack) as [k v]. intros [= <- <-].
  destruct (IH k v eq_refl) as [H1 H2]. cbn. split; [by constructor|done].
Qed.

(** What becomes of one queue when the messages due by [ack] are released. *)
Definition released (ack : Z) (sq sq' : serialqueue) (q : Z) : Prop :=
  let n := (release_count (upcoming sq q) ack).1 in
  ready sq' q = ready sq q ++ take n (upcoming sq q) /\ upcoming sq' q = drop n (upcoming sq q).

(** The fields of the state after one round. *)
Lemma release_queue_fields q ack m sq m' sq' :
  release_queue q ack m sq = (m', sq') ->
  let n := (release_count (upcoming sq q) ack).1 in
  let moved := take n (upcoming sq q) in
  released ack sq sq' q /\
  (forall x, x <> q -> ready sq' x = ready sq x /\ upcoming sq' x = upcoming sq x) /\
  ready_bytes sq' = ready_bytes sq + total_len moved /\
  upcoming_bytes (sq_transmit sq') = upcoming_bytes (sq_transmit sq) - total_len moved /\
  ready_queues sq' = (if bool_decide (ready sq q = []) && negb (bool_decide (ready sq' q = []))
                      then ready_queues sq ++ [q] else ready_queues sq) /\
  upcoming_queues (sq_transmit sq') = (if bool_decide (upcoming sq' q = [])
    then filter (fun x => x <> q) (upcoming_queues (sq_transmit sq)) else upcoming_queues (sq_transmit sq)) /\
  m' = match (release_count (upcoming sq q) ack).2 with
       | Some c => if c <? m then c else m | None => m end.
Proof.
  unfold release_queue, released, ready, upcoming. cbv zeta.
  destruct (release_count (cq_upcoming (command_queues sq q)) ack) as [n stalled]. cbn [fst snd].
  intros [= <- <-].
  assert (Hq : forall cq, (<[q := cq]> (command_queues sq)) q = cq) by (intros; apply fn_lookup_insert).
  assert (Hx : forall cq x, x <> q -> (<[q := cq]> (command_queues sq)) x = command_queues sq x)
    by (intros; by apply fn_lookup_insert_ne).
  destruct (bool_decide (drop n (cq_upcoming (command_queues sq q)) = [])) eqn:E1;
    destruct (bool_decide _ && negb _) eqn:E2; cbn; rewrite !Hq; cbn; rewrite ?E1, ?E2;
    (split_and!; try done; intros x Hxq; by rewrite Hx).
Qed.

Lemma release_queue_wf q ack m sq m' sq' :
  release_queue q ack m sq = (m', sq') -> queues_wf sq -> queues_wf sq'.
Proof.
  intros (R & X & B1 & B2 & L1 & L2 & _)%release_queue_fields (W1 & W2 & W3). destruct R as [R1 R2].
  split_and!.
  - rewrite B1, L1. apply (listed_push _ total_len_app _ _ (ready sq)); [done..|]. intros x Hx. apply X, Hx.
  - rewrite B2, L2. apply (listed_pop _ total_len_app _ _ (upcoming sq)); [done..|]. intros x Hx. apply X, Hx.
  - intros x. destruct (decide (x = q)) as [->|Hx].
    + rewrite R1, R2, <- app_assoc, take_drop. apply W3.
    + destruct (X x Hx) as [-> ->]. apply W3.
Qed.

(** The whole outer loop. *)
Lemma release_queues_spec queues ack m sq m' sq' :
  release_queues queues ack m sq = (m', sq') -> NoDup queues -> queues_wf sq ->
  queues_wf sq' /\ m' <= m /\
  (forall q, q ∈ queues -> released ack sq sq' q /\
     forall qm rest, upcoming sq' q = qm :: rest -> ack < qm_min_clock qm /\ m' <= qm_min_clock qm) /\
  (forall q, q ∉ queues -> ready sq' q = ready sq q /\ upcoming sq' q = upcoming sq q).
Proof.
  revert m sq. induction queues as [|q queues IH]; intros m sq H Hnd W; cbn [release_queues] in H.
  { injection H as <- <-. split_and!; [done|lia|by intros q ?%not_elem_of_nil|done]. }
  destruct (release_queue q ack m sq) as [m1 sq1] eqn:E. apply NoDup_cons in Hnd as [Hq Hnd].
  pose proof (release_queue_wf _ _ _ _ _ _ E W) as W1.
  destruct (IH _ _ H Hnd W1) as (W' & Hm & Hin & Hout).
  apply release_queue_fields in E as ((R1 & R2) & X & _ & _ & _ & _ & Em).
  destruct (release_count (upcoming sq q) ack) as [n w] eqn:Ec. cbn [fst snd] in *.
  destruct (release_count_spec _ _ _ _ Ec) as [_ Hd].
  assert (Hm1 : m1 <= m) by (subst m1; destruct w as [c|]; [destruct (Z.ltb_spec c m)|]; lia).
  destruct (Hout q Hq) as [O1 O2].
  split_and!; [done|lia| |].
  - intros x [->|Hx]%elem_of_cons.
    + split.
      * unfold released. by rewrite Ec, O1, O2.
      * intros qm rest Hup. rewrite O2, R2 in Hup. rewrite Hup in Hd. destruct Hd as [Hd ->].
        split; [done|]. destruct (Z.ltb_spec (qm_min_clock qm) m); lia.
    + assert (Hxq : x <> q) by congruence. destruct (X x Hxq) as [X1 X2]. destruct (Hin x Hx) as [Hr Hh].
      split; [|done]. unfold released in *. by rewrite X1, X2 in Hr.
  - intros x [Hxq Hx]%not_elem_of_cons. destruct (X x Hxq) as [<- <-]. by apply Hout.
Qed.

(** [check_upcoming_queues] releases exactly what is due, and the clock it
    returns is not after anything that remains. *)
Lemma check_upcoming_spec ack sq m sq' :
  check_upcoming_queues ack sq = (m, sq') -> queues_ok sq ->
  queues_ok sq' /\ (forall q, released ack sq sq' q) /\ released_from m (upcoming sq').
Proof.
  unfold check_upcoming_queues. cbv zeta. intros H Hok. pose proof Hok as [W Hr]%queues_ok_wf.
  set (sq1 := sq <| sq_transmit ::= _ |>) in H. assert (W1 : queues_wf sq1) by exact W.
  change (min_release_clock (sq_transmit sq1)) with (min_release_clock (sq_transmit sq)) in H.
  destruct (Z.ltb_spec ack (min_release_clock (sq_transmit sq))) as [Ha|Ha].
  - injection H as <- <-. split_and!; [by apply queues_ok_wf| |exact Hr]. intros q.
    assert (E : (release_count (upcoming sq q) ack).1 = 0%nat).
    { destruct (upcoming sq q) as [|qm rest] eqn:E; [done|]. cbn. specialize (Hr q qm rest E).
      by rewrite (proj2 (Z.ltb_lt _ _)) by lia. }
    unfold released. rewrite E, take_0, app_nil_r. done.
  - destruct (release_queues _ _ _ _) as [m1 sq2] eqn:E. injection H as <- <-.
    assert (Hl : listed (upcoming_queues (sq_transmit sq1)) (upcoming_bytes (sq_transmit sq1)) (upcoming sq1))
      by apply W1.
    apply release_queues_spec in E as (W2 & _ & Hin & Hout); [|apply Hl|done].
    assert (Hnone : forall q, q ∉ upcoming_queues (sq_transmit sq1) -> upcoming sq1 q = [])
      by (intros q Hq; destruct Hl as (_ & Hl & _); rewrite Hl in Hq; by apply dec_stable).
    assert (Hm : released_from m1 (upcoming sq2)).
    { intros q qm rest Hup. destruct (decide (q ∈ upcoming_queues (sq_transmit sq1))) as [Hq|Hq].
      - destruct (Hin q Hq) as [_ Hh]. by apply (Hh qm rest).
      - destruct (Hout q Hq) as [_ O2]. rewrite O2, Hnone in Hup by done. done. }
    split_and!; [by apply queues_ok_wf| |exact Hm]. intros q.
    destruct (decide (q ∈ upcoming_queues (sq_transmit sq1))) as [Hq|Hq]; [apply (Hin q Hq)|].
    destruct (Hout q Hq) as [O1 O2]. specialize (Hnone q Hq). change (upcoming sq1 q) with (upcoming sq q) in *.
    unfold released. rewrite Hnone. cbn. rewrite app_nil_r. split; [exact O1|]. rewrite <- Hnone. exact O2.
Qed.

(** *** serialqueue_send_batch *)

Lemma send_batch_fields q msgs sq first rest :
  limit_min_clock <$> msgs = first :: rest -> total_len (first :: rest) <> 0 ->
  let sq' := serialqueue_send_batch q msgs sq in
  let mr := min_release_clock (sq_transmit sq) in
  (forall x, ready sq' x = ready sq x) /\
  upcoming sq' q = upcoming sq q ++ first :: rest /\
  (forall x, x <> q -> upcoming sq' x = upcoming sq x) /\
  ready_queues sq' = ready_queues sq /\ ready_bytes sq' = ready_bytes sq /\
  upcoming_bytes (sq_transmit sq') = upcoming_bytes (sq_transmit sq) + total_len (first :: rest) /\
  (upcoming_queues (sq_transmit sq'), min_release_clock (sq_transmit sq')) =
    if bool_decide (upcoming sq q = [])
    then (upcoming_queues (sq_transmit sq) ++ [q], if qm_min_clock first <? mr then qm_min_clock first else mr)
    else (upcoming_queues (sq_transmit sq), mr).
Proof.
  intros En Ht. cbv zeta. unfold serialqueue_send_batch. rewrite En. cbv zeta.
  rewrite (proj2 (Z.eqb_neq _ _)) by done. unfold ready, upcoming.
  assert (Hq : forall cq, (<[q := cq]> (command_queues sq)) q = cq) by (intros; apply fn_lookup_insert).
  assert (Hx : forall cq x, x <> q -> (<[q := cq]> (command_queues sq)) x = command_queues sq x)
    by (intros; by apply fn_lookup_insert_ne).
  assert (Hr : forall x u, cq_ready ((<[q := mk_command_queue (cq_ready (command_queues sq q)) u]>
    (command_queues sq)) x) = cq_ready (command_queues sq x)).
  { intros x u. destruct (decide (x = q)) as [->|]; [by rewrite Hq|by rewrite Hx]. }
  destruct (bool_decide (cq_upcoming (command_queues sq q) = [])).
  - cbn. destruct (qm_min_clock first <? min_release_clock (sq_transmit sq)) eqn:E1; cbn;
      destruct (qm_min_clock first <? need_kick_clock (sq_transmit sq)) eqn:E2; cbn;
      (split_and!; [intros x; apply Hr|by rewrite Hq|intros x Hxq; by rewrite Hx|done..]).
  - cbn. split_and!; [intros x; apply Hr|by rewrite Hq|intros x Hxq; by rewrite Hx|done..].
Qed.

Lemma send_batch_spec q msgs sq :
  queues_ok sq -> Forall msg_ok msgs ->
  let sq' := serialqueue_send_batch q msgs sq in
  queues_ok sq' /\ (forall x, ready sq' x = ready sq x) /\
  upcoming sq' q = upcoming sq q ++ (limit_min_clock <$> msgs) /\
  (forall x, x <> q -> upcoming sq' x = upcoming sq x).
Proof.
  intros Hok Hm. cbv zeta.
  assert (Hnew : Forall msg_ok (limit_min_clock <$> msgs)).
  { apply Forall_fmap. eapply Forall_impl; [exact Hm|]. apply limit_min_clock_ok. }
  destruct (limit_min_clock <$> msgs) as [|first rest] eqn:En.
  { unfold serialqueue_send_batch. rewrite En, app_nil_r. done. }
  assert (Ht := total_len_pos _ Hnew ltac:(done)).
  destruct (send_batch_fields q msgs sq first rest En ltac:(lia)) as (F1 & F2 & F3 & F4 & F5 & F6 & F7).
  set (sq' := serialqueue_send_batch q msgs sq) in *. clearbody sq'.
  split_and!; [|done..]. apply queues_ok_wf in Hok as [(W1 & W2 & W3) Hr]. apply queues_ok_wf. split; [split_and!|].
  - rewrite F4, F5. apply (listed_ext _ _ _ (ready sq)); [by intros x; rewrite F1|done].
  - rewrite F6. pose proof (listed_push _ total_len_app _ _ _ _ _ _ W2 F2 F3) as L.
    rewrite (bool_decide_eq_false_2 (upcoming sq' q = [])) in L by (rewrite F2; by destruct (upcoming sq q)).
    rewrite andb_true_r in L. by destruct (bool_decide (upcoming sq q = [])); injection F7 as -> _.
  - intros x. rewrite F1. destruct (decide (x = q)) as [->|Hx]; [|by rewrite F3].
    rewrite F2, app_assoc. apply Forall_app. split; [apply W3|done].
  - intros x qm r Hup. assert (Hmr : min_release_clock (sq_transmit sq') <= min_release_clock (sq_transmit sq)).
    { destruct (bool_decide _); injection F7 as _ ->; [|lia]. destruct (Z.ltb_spec (qm_min_clock first)
        (min_release_clock (sq_transmit sq))); lia. }
    destruct (decide (x = q)) as [->|Hx]; [|rewrite F3 in Hup by done; specialize (Hr _ _ _ Hup); lia].
    rewrite F2 in Hup. destruct (upcoming sq q) as [|qm0 r0] eqn:Eu.
    + injection Hup as <- _. rewrite bool_decide_eq_true_2 in F7 by done. injection F7 as _ ->.
      destruct (Z.ltb_spec (qm_min_clock first) (min_release_clock (sq_transmit sq))); lia.
    + injection Hup as <- _. specialize (Hr _ _ _ Eu). lia.
Qed.

(** *** build_and_send_command *)

(** The lowest [req_clock] among the first messages of the given queues. *)
Lemma highest_priority_spec queues cqs min_clock best :
  (forall q, q ∈ queues -> cq_ready (cqs q) <> []) ->
  exists r, highest_priority queues cqs min_clock best = Some r /\
    ((r = best /\ forall q qm rest, q ∈ queues -> cq_ready (cqs q) = qm :: rest -> min_clock <= qm_req_clock qm) \/
     (exists q qm rest, r = Some (q, qm) /\ q ∈ queues /\ cq_ready (cqs q) = qm :: rest /\
        qm_req_clock qm < min_clock /\
        forall q' qm' rest', q' ∈ queues -> cq_ready (cqs q') = qm' :: rest' -> qm_req_clock qm <= qm_req_clock qm')).
Proof.
  revert min_clock best. induction queues as [|q queues IH]; intros min_clock best Hne; cbn [highest_priority].
  { eexists. split; [done|]. left. split; [done|]. by intros q qm rest ?%not_elem_of_nil. }
  assert (Hne' : forall q, q ∈ queues -> cq_ready (cqs q) <> []) by (intros x Hx; apply Hne; by constructor).
  destruct (cq_ready (cqs q)) as [|m ms] eqn:Em; [by destruct (Hne q ltac:(by constructor))|].
  destruct (Z.ltb_spec (qm_req_clock m) min_clock) as [Hlt|Hge].
  - destruct (IH (qm_req_clock m) (Some (q, m)) Hne') as (r & Er & [[-> Hall]|(q1 & m1 & ms1 & -> & Hq1 & E1 & Hlt1 & Hall)]).
    + eexists. split; [exact Er|]. right. exists q, m, ms. split_and!; try done; [by constructor|].
      intros q' m' ms' [->|Hq']%elem_of_cons E'; [rewrite Em in E'; injection E' as -> _; lia|by eapply Hall].
    + eexists. split; [exact Er|]. right. exists q1, m1, ms1. split_and!; try done; [by constructor|lia|].
      intros q' m' ms' [->|Hq']%elem_of_cons E'; [rewrite Em in E'; injection E' as <- _; lia|by eapply Hall].
  - destruct (IH min_clock best Hne') as (r & Er & [[-> Hall]|(q1 & m1 & ms1 & -> & Hq1 & E1 & Hlt1 & Hall)]).
    + eexists. split; [exact Er|]. left. split; [done|].
      intros q' m' ms' [->|Hq']%elem_of_cons E'; [rewrite Em in E'; injection E' as <- _; lia|by eapply Hall].
    + eexists. split; [exact Er|]. right. exists q1, m1, ms1. split_and!; try done; [by constructor|].
      intros q' m' ms' [->|Hq']%elem_of_cons E'; [rewrite Em in E'; injection E' as <- _; lia|by eapply Hall].
Qed.

(** The first messages of the ready queues, and the most urgent of them. *)
Definition most_urgent (sq : serialqueue) (q : Z) (qm : queue_message) : Prop :=
  (exists rest, ready sq q = qm :: rest) /\
  forall q' qm' rest', ready sq q' = qm' :: rest' -> qm_req_clock qm <= qm_req_clock qm'.

Lemma urgent_found sq : queues_ok sq -> ready_bytes sq <> 0 ->
  exists q qm, highest_priority (ready_queues sq) (command_queues sq) MAX_CLOCK None = Some (Some (q, qm)) /\
    most_urgent sq q qm.
Proof.
  intros [(N1 & N2 & N3) _ Hm _] Hb.
  destruct (highest_priority_spec (ready_queues sq) (command_queues sq) MAX_CLOCK None)
    as (r & Er & H); [intros q Hq; by apply N2|].
  assert (Hlow : forall q qm rest, ready sq q = qm :: rest -> qm_req_clock qm < MAX_CLOCK).
  { intros q qm rest E. specialize (Hm q). rewrite E in Hm. inversion Hm as [|? ? [_ Hc]]. done. }
  destruct H as [[-> Hall]|(q & qm & rest & -> & Hq & E & _ & Hall)].
  - destruct (ready_queues sq) as [|q l] eqn:El; [by rewrite N3 in Hb|].
    destruct (ready sq q) as [|qm rest] eqn:E; [by destruct (proj1 (N2 q) ltac:(by constructor))|].
    specialize (Hall q qm rest ltac:(by constructor) E). specialize (Hlow _ _ _ E). lia.
  - exists q, qm. split; [done|]. split; [by exists rest|]. intros q' qm' rest' E'.
    apply (Hall q' qm' rest'); [|done]. apply N2. by rewrite E'.
Qed.

Lemma pop_ready_fields q sq :
  let sq' := pop_ready q sq in
  ready sq' q = drop 1 (ready sq q) /\ (forall x, x <> q -> ready sq' x = ready sq x) /\
  (forall x, upcoming sq' x = upcoming sq x) /\ sq_transmit sq' = sq_transmit sq /\
  ready_bytes sq' = ready_bytes sq /\
  ready_queues sq' = (if bool_decide (ready sq' q = []) then filter (fun x => x <> q) (ready_queues sq)
                      else ready_queues sq).
Proof.
  cbv zeta. unfold pop_ready, ready, upcoming. cbv zeta.
  assert (Hq : forall cq, (<[q := cq]> (command_queues sq)) q = cq) by (intros; apply fn_lookup_insert).
  assert (Hx : forall cq x, x <> q -> (<[q := cq]> (command_queues sq)) x = command_queues sq x)
    by (intros; by apply fn_lookup_insert_ne).
  assert (Hu : forall x r, cq_upcoming ((<[q := mk_command_queue r (cq_upcoming (command_queues sq q))]>
    (command_queues sq)) x) = cq_upcoming (command_queues sq x)).
  { intros x r. destruct (decide (x = q)) as [->|]; [by rewrite Hq|by rewrite Hx]. }
  cbn. rewrite Hq. cbn. destruct (bool_decide (drop 1 (cq_ready (command_queues sq q)) = [])) eqn:E; cbn;
    rewrite ?Hq; cbn; rewrite ?E; (split_and!; [done|intros x Hxq; by rewrite Hx|intros x; apply Hu|done..]).
Qed.

(** Messages taken one after the other, the most urgent first each time. *)
Inductive taken : serialqueue -> list (Z * queue_message) -> serialqueue -> Prop :=
| taken_nil sq sq' :
    (forall x, ready sq' x = ready sq x) -> (forall x, upcoming sq' x = upcoming sq x) -> taken sq [] sq'
| taken_cons sq q qm sq1 l sq' :
    most_urgent sq q qm -> ready sq1 q = drop 1 (ready sq q) -> (forall x, x <> q -> ready sq1 x = ready sq x) ->
    (forall x, upcoming sq1 x = upcoming sq x) -> taken sq1 l sq' -> taken sq ((q, qm) :: l) sq'.

Definition of_queue (q : Z) (l : list (Z * queue_message)) : list queue_message :=
  snd <$> filter (fun e => e.1 = q) l.

(** Each queue loses exactly its first messages. *)
Lemma taken_fifo sq l sq' q : taken sq l sq' ->
  ready sq q = of_queue q l ++ ready sq' q /\ upcoming sq' q = upcoming sq q.
Proof.
  unfold of_queue. induction 1 as [sq sq' H1 H2|sq q0 qm sq1 l sq' [[rest E] _] H1 H2 H3 _ [IH1 IH2]].
  { cbn. split; [by rewrite H1|apply H2]. }
  split; [|by rewrite IH2]. destruct (decide (q0 = q)) as [->|Hne].
  - rewrite filter_cons_True by done. cbn. rewrite E in H1. cbn in H1. by rewrite E, <- IH1, H1.
  - rewrite filter_cons_False by done. rewrite <- IH1. symmetry. apply H2. congruence.
Qed.

Definition payload_bytes (l : list (Z * queue_message)) : list Z := concat ((fun e => qm_msg e.2) <$> l).

(** The state after one round of the collecting loop. *)
Definition take_message (q : Z) (qm : queue_message) (sq : serialqueue) : serialqueue :=
  let sq := pop_ready q sq in
  let sq := sq <| ready_bytes := ready_bytes sq - qm_len qm |> in
  if truthy (qm_notify_id qm)
  then sq <| notify_queue ::= fun n => n ++ [qm <| qm_req_clock := send_seq sq |>] |> else sq.

Lemma take_message_spec q qm sq : queues_ok sq -> most_urgent sq q qm ->
  let sq' := take_message q qm sq in
  queues_ok sq' /\ ready sq' q = drop 1 (ready sq q) /\ (forall x, x <> q -> ready sq' x = ready sq x) /\
  (forall x, upcoming sq' x = upcoming sq x) /\ (ready_count sq' < ready_count sq)%nat.
Proof.
  intros Hok [[rest E] _]. cbv zeta. destruct (pop_ready_fields q sq) as (F1 & F2 & F3 & F4 & F5 & F6).
  set (sq1 := pop_ready q sq) in *.
  assert (G : let sq' := take_message q qm sq in
    (forall x, ready sq' x = ready sq1 x) /\ (forall x, upcoming sq' x = upcoming sq1 x) /\
    ready_queues sq' = ready_queues sq1 /\ sq_transmit sq' = sq_transmit sq1 /\
    ready_bytes sq' = ready_bytes sq1 - qm_len qm).
  { cbv zeta. unfold take_message. fold sq1. by destruct (truthy _). }
  cbv zeta in G. destruct G as (G1 & G2 & G3 & G4 & G5). set (sq' := take_message q qm sq) in *. clearbody sq1 sq'.
  destruct Hok as [W1 W2 W3 W4].
  assert (Hr1 : ready sq' q = drop 1 (ready sq q)) by congruence.
  assert (Hr2 : forall x, x <> q -> ready sq' x = ready sq x) by (intros x Hx; rewrite G1; by apply F2).
  assert (Hu : forall x, upcoming sq' x = upcoming sq x) by congruence.
  assert (Hlq : ready_queues sq' = if bool_decide (ready sq' q = []) then filter (fun x => x <> q) (ready_queues sq)
    else ready_queues sq) by (rewrite G3, F6; by rewrite G1).
  split_and!; try done.
  - constructor.
    + rewrite Hlq, G5, F5. pose proof (listed_pop _ total_len_app _ _ _ _ _ 1%nat W1 Hr1 Hr2) as L.
      rewrite E in L. cbn [take] in L. rewrite take_0 in L.
      replace (total_len [qm]) with (qm_len qm) in L by (cbn; lia). exact L.
    + rewrite G4, F4. by apply (listed_ext _ _ _ (upcoming sq)).
    + intros x. rewrite Hu. specialize (W3 x). apply Forall_app in W3 as [A B]. apply Forall_app. split; [|done].
      destruct (decide (x = q)) as [->|Hx]; [|by rewrite Hr2]. rewrite Hr1. by apply Forall_drop.
    + rewrite G4, F4. intros x m r Hx. rewrite Hu in Hx. by eapply W4.
  - set (len := fun l : list queue_message => Z.of_nat (length l)).
    assert (Hcount : forall s, Z.of_nat (ready_count s) = sum_over (fun q => len (ready s q)) (ready_queues s)).
    { intros s. unfold ready_count, ready, len. induction (ready_queues s) as [|x l IH]; cbn; [done|]. lia. }
    assert (L : listed_by len (ready_queues sq) (Z.of_nat (ready_count sq)) (ready sq)).
    { destruct W1 as (A & B & _). split_and!; [done|done|apply Hcount]. }
    apply (listed_pop len ltac:(intros; unfold len; rewrite length_app; lia) _ _ _ _ _ 1%nat) with (2 := Hr1) in L;
      [|done]. destruct L as (_ & _ & L). rewrite <- Hlq, <- Hcount, E in L. unfold len in L. cbn in L. lia.
Qed.

(** The loop takes messages while they fit; with something ready it takes at
    least one for an empty block. *)
Lemma collect_total fuel payload sq :
  queues_ok sq -> (ready_count sq < fuel)%nat ->
  exists l sq', collect_messages fuel payload sq = Ret (payload ++ payload_bytes l) sq' /\
    taken sq l sq' /\ queues_ok sq' /\ (payload = [] -> ready_bytes sq <> 0 -> l <> []).
Proof.
  revert payload sq. induction fuel as [|fuel IH]; intros payload sq Hok Hf; [lia|]. cbn [collect_messages].
  assert (Hstop : taken sq [] sq) by (by constructor).
  destruct (Z.eqb_spec (ready_bytes sq) 0) as [Eb|Eb].
  { exists [], sq. split_and!; try done. by rewrite app_nil_r. }
  destruct (urgent_found sq Hok Eb) as (q & qm & -> & Hu).
  destruct (Nat.ltb_spec (MESSAGE_MAX - MESSAGE_TRAILER_SIZE)
    (MESSAGE_HEADER_SIZE + length payload + length (qm_msg qm))) as [Hbig|_].
  { exists [], sq. split_and!; try done; [by rewrite app_nil_r|]. intros -> _.
    destruct Hok as [_ _ Hm _], Hu as [[rest E] _]. specialize (Hm q). rewrite E in Hm.
    inversion Hm as [|? ? [Hl _]]. subst. sizes. cbn in Hbig. lia. }
  change (exists l sq', collect_messages fuel (payload ++ qm_msg qm) (take_message q qm sq) =
    Ret (payload ++ payload_bytes l) sq' /\ taken sq l sq' /\ queues_ok sq' /\
    (payload = [] -> ready_bytes sq <> 0 -> l <> [])).
  destruct (take_message_spec q qm sq Hok Hu) as (Hok' & H1 & H2 & H3 & Hc).
  destruct (IH (payload ++ qm_msg qm) (take_message q qm sq) Hok') as (l & sq' & E & Ht & Hok'' & _); [lia|].
  exists ((q, qm) :: l), sq'. split_and!; try done.
  - rewrite E. unfold payload_bytes. cbn. by rewrite app_assoc.
  - by econstructor.
Qed.

(** The fields the queues consist of. *)
Definition same_queues (sq sq' : serialqueue) : Prop :=
  command_queues sq' = command_queues sq /\ ready_queues sq' = ready_queues sq /\
  ready_bytes sq' = ready_bytes sq /\
  upcoming_queues (sq_transmit sq') = upcoming_queues (sq_transmit sq) /\
  upcoming_bytes (sq_transmit sq') = upcoming_bytes (sq_transmit sq) /\
  min_release_clock (sq_transmit sq') = min_release_clock (sq_transmit sq).

Lemma queues_ok_same sq sq' : same_queues sq sq' -> queues_ok sq -> queues_ok sq'.
Proof.
  intros (H1 & H2 & H3 & H4 & H5 & H6) [W1 W2 W3 W4]. unfold ready, upcoming in *.
  constructor; unfold ready, upcoming; by rewrite ?H1, ?H2, ?H3, ?H4, ?H5, ?H6.
Qed.

Lemma taken_same sq l sq1 sq2 : same_queues sq1 sq2 -> taken sq l sq1 -> taken sq l sq2.
Proof.
  intros (H1 & _). induction 1 as [sq sq' A B|]; [|by econstructor; eauto].
  constructor; intros x; unfold ready, upcoming in *; by rewrite H1.
Qed.

(** [build_and_send_command] on well-formed queues. *)
Lemma build_and_send_total pending eventtime sq :
  queues_ok sq ->
  exists l sq', build_and_send_command pending eventtime sq =
      Ret (frame (seq_of (send_seq sq)) (payload_bytes l)) sq' /\
    taken sq l sq' /\ queues_ok sq' /\ (ready_bytes sq <> 0 -> l <> []).
Proof.
  intros Hok. destruct (collect_total (S (ready_count sq)) [] sq Hok) as (l & sq1 & E & Ht & Hok1 & Hne); [lia|].
  destruct (build_and_send_command pending eventtime sq) as [b sq'|msg sq'|sq'] eqn:Eb;
    unfold build_and_send_command, bind in Eb; rewrite E in Eb; cbn [app] in Eb; cbv zeta in Eb;
    [|discriminate Eb..].
  destruct (collect_messages_spec _ _ _ _ _ E) as [Hp ((W1 & _) & _)]; [cbn; lia|]. cbn [app] in Hp.
  rewrite build_block_frame, W1 in Eb by exact Hp. injection Eb as <- <-.
  eexists l, _. split; [reflexivity|].
  match goal with |- taken _ _ ?s /\ _ => assert (Hs1 : same_queues sq1 s) end.
  { destruct (sent_queue sq1); [destruct (truthy (rtt_sample_seq (set_timer _ _ _)))|
      destruct (truthy (rtt_sample_seq sq1))]; done. }
  split_and!; [by eapply taken_same|by eapply queues_ok_same|tauto].
Qed.

(** ** From queued messages to blocks

    [queued] are the messages each queue was given and [payloads] the payloads
    of the blocks that were built, both only observed. *)
Record sender := mk_sender {
  sender_sq : serialqueue;
  queued : Z -> list queue_message;
  payloads : list (list Z) }.

Inductive qstep : sender -> sender -> Prop :=
| Q_queue s q msgs :                              (* serialqueue_send_batch *)
    Forall msg_ok msgs ->
    qstep s (mk_sender (serialqueue_send_batch q msgs (sender_sq s))
      (<[q := queued s q ++ (limit_min_clock <$> msgs)]> (queued s)) (payloads s))
| Q_release s ack m sq' :                         (* check_upcoming_queues *)
    check_upcoming_queues ack (sender_sq s) = (m, sq') ->
    qstep s (mk_sender sq' (queued s) (payloads s))
| Q_build s pending eventtime block sq' :         (* build_and_send_command *)
    build_and_send_command pending eventtime (sender_sq s) = Ret block sq' ->
    qstep s (mk_sender sq' (queued s) (payloads s ++ [payload_of block]))
| Q_other s sq' :                                 (* the rest of the thread *)
    same_queues (sender_sq s) sq' -> qstep s (mk_sender sq' (queued s) (payloads s)).

Definition sender_start (fd pipe_fd : Z) (t : fd_type) (id : Z) : sender :=
  mk_sender (serialqueue_alloc fd pipe_fd t id) (fun _ => []) [].

(** The messages taken so far, and what remains of each queue. *)
Definition accounted (s : sender) (out : list (Z * queue_message)) : Prop :=
  concat (payloads s) = payload_bytes out /\
  forall q, queued s q = of_queue q out ++ ready (sender_sq s) q ++ upcoming (sender_sq s) q.

Lemma of_queue_app q l1 l2 : of_queue q (l1 ++ l2) = of_queue q l1 ++ of_queue q l2.
Proof. unfold of_queue. by rewrite filter_app, fmap_app. Qed.

Lemma payload_bytes_app l1 l2 : payload_bytes (l1 ++ l2) = payload_bytes l1 ++ payload_bytes l2.
Proof. unfold payload_bytes. by rewrite fmap_app, concat_app. Qed.

Lemma qstep_ok s s' out : qstep s s' -> queues_ok (sender_sq s) -> accounted s out ->
  queues_ok (sender_sq s') /\ exists out', accounted s' (out ++ out').
Proof.
  intros [s0 q msgs Hm|s0 ack m sq' E|s0 p t b sq' E|s0 sq' Hs] Hok [A1 A2]; cbn [sender_sq].
  - destruct (send_batch_spec q msgs _ Hok Hm) as (H1 & H2 & H3 & H4). split; [done|]. exists [].
    rewrite app_nil_r. split; [done|]. intros x. cbn [queued sender_sq]. rewrite H2.
    destruct (decide (x = q)) as [->|Hx].
    + rewrite fn_lookup_insert, H3, A2. by rewrite <- !app_assoc.
    + rewrite fn_lookup_insert_ne, H4 by congruence. apply A2.
  - destruct (check_upcoming_spec _ _ _ _ E Hok) as (H1 & H2 & _). split; [done|]. exists [].
    rewrite app_nil_r. split; [done|]. intros x. cbn [queued sender_sq]. destruct (H2 x) as [-> ->].
    by rewrite <- app_assoc, take_drop.
  - destruct (build_and_send_total p t _ Hok) as (l & sq2 & E' & Ht & H1 & _). rewrite E in E'.
    injection E' as -> <-. split; [done|]. exists l. split.
    + cbn. by rewrite concat_app, payload_of_frame, A1, payload_bytes_app; cbn; rewrite app_nil_r.
    + intros x. cbn [queued sender_sq]. destruct (taken_fifo _ _ _ x Ht) as [F1 F2].
      by rewrite of_queue_app, F2, A2, F1, <- !app_assoc.
  - split; [by eapply queues_ok_same|]. exists []. rewrite app_nil_r. split; [done|]. intros x.
    cbn [queued sender_sq]. rewrite A2. destruct Hs as (H1 & _). unfold ready, upcoming. by rewrite H1.
Qed.

Lemma start_ok fd pipe_fd t id : queues_ok (sender_sq (sender_start fd pipe_fd t id)) /\ accounted (sender_start fd pipe_fd t id) [].
Proof.
  split; [|done]. constructor; cbn.
  - split_and!; [constructor|set_solver|done].
  - split_and!; [constructor|set_solver|done].
  - intros q. constructor.
  - by intros q qm rest.
Qed.

Lemma run_ok fd pipe_fd t id s : rtc qstep (sender_start fd pipe_fd t id) s ->
  queues_ok (sender_sq s) /\ exists out, accounted s out.
Proof.
  intros Hr. pattern s. revert s Hr. apply rtc_ind_r.
  - destruct (start_ok fd pipe_fd t id). eauto.
  - intros s1 s2 _ Hs [Hok [out Hacc]]. destruct (qstep_ok _ _ _ Hs Hok Hacc) as [H [out' Ha]]. eauto.
Qed.

(** ** Waking the sending thread *)

(** While the thread sleeps until [want]: a kick was written, or nothing that is
    waiting is due earlier. *)
Definition awake (want : Z) (k : nat) (sq : serialqueue) : Prop :=
  (k < kicks (sq_transmit sq))%nat \/
  (kicks (sq_transmit sq) = k /\ need_kick_clock (sq_transmit sq) = want /\ released_from want (upcoming sq)).

Lemma send_batch_kick q msgs sq first rest :
  limit_min_clock <$> msgs = first :: rest -> total_len (first :: rest) <> 0 ->
  let t' := sq_transmit (serialqueue_send_batch q msgs sq) in
  let t := sq_transmit sq in
  (kicks t', need_kick_clock t') =
    if bool_decide (upcoming sq q = []) && (qm_min_clock first <? need_kick_clock t)
    then (S (kicks t), 0) else (kicks t, need_kick_clock t).
Proof.
  intros En Ht. cbv zeta. unfold serialqueue_send_batch, upcoming. rewrite En. cbv zeta.
  rewrite (proj2 (Z.eqb_neq _ _)) by done.
  destruct (bool_decide (cq_upcoming (command_queues sq q) = [])); [|done]. cbn.
  destruct (qm_min_clock first <? min_release_clock (sq_transmit sq)); cbn;
    destruct (qm_min_clock first <? need_kick_clock (sq_transmit sq)); done.
Qed.

Lemma awake_batch want k q msgs sq :
  queues_ok sq -> Forall msg_ok msgs -> awake want k sq -> awake want k (serialqueue_send_batch q msgs sq).
Proof.
  intros Hok Hm Ha. destruct (send_batch_spec q msgs sq Hok Hm) as (_ & _ & U1 & U2).
  assert (Hnew : Forall msg_ok (limit_min_clock <$> msgs)).
  { apply Forall_fmap. eapply Forall_impl; [exact Hm|]. apply limit_min_clock_ok. }
  destruct (limit_min_clock <$> msgs) as [|first rest] eqn:En.
  { unfold serialqueue_send_batch. by rewrite En. }
  pose proof (total_len_pos _ Hnew ltac:(done)) as Ht.
  pose proof (send_batch_kick q msgs sq first rest En ltac:(lia)) as K. cbv zeta in K.
  destruct Ha as [Hk|(Hk & Hn & Hr)].
  { left. destruct (_ && _); injection K as -> _; lia. }
  destruct (decide (upcoming sq q = [])) as [Eu|Eu].
  - rewrite bool_decide_eq_true_2 in K by done. cbn [andb] in K. rewrite Hn in K.
    destruct (Z.ltb_spec (qm_min_clock first) want) as [Hlt|Hge]; injection K as K1 K2.
    + left. lia.
    + right. split_and!; [lia|done|]. intros x qm r Hx.
      destruct (decide (x = q)) as [->|Hne]; [|rewrite U2 in Hx by done; by eapply Hr].
      rewrite U1, Eu in Hx. injection Hx as <- _. done.
  - rewrite bool_decide_eq_false_2 in K by done. cbn [andb] in K. injection K as K1 K2.
    right. split_and!; [lia|congruence|]. intros x qm r Hx.
    destruct (decide (x = q)) as [->|Hne]; [|rewrite U2 in Hx by done; by eapply Hr].
    rewrite U1 in Hx. destruct (upcoming sq q) as [|m0 r0] eqn:E0; [done|]. injection Hx as <- _. by eapply Hr.
Qed.

(** ** Properties *)

(** C33: the queue invariant.  In every state reachable from [serialqueue_alloc]
    the lists name exactly the queues that hold messages, the byte counts are the
    totals and the release clock is not after any waiting message; so building a
    block always returns, takes the most urgent ready message each time, and
    takes at least one when bytes are ready. *)
Theorem queues_well_formed fd pipe_fd t id s pending eventtime :
  rtc qstep (sender_start fd pipe_fd t id) s ->
  queues_ok (sender_sq s) /\
  exists l sq', build_and_send_command pending eventtime (sender_sq s) =
      Ret (frame (seq_of (send_seq (sender_sq s))) (payload_bytes l)) sq' /\
    taken (sender_sq s) l sq' /\ queues_ok sq' /\ (ready_bytes (sender_sq s) <> 0 -> l <> []).
Proof. intros Hr. destruct (run_ok _ _ _ _ _ Hr) as [Hok _]. split; [done|]. by apply build_and_send_total. Qed.

(** C15: nothing is lost, repeated or reordered between the queues and the
    blocks.  The payload bytes of all blocks built so far are those of a sequence
    of messages; restricted to any one queue, this sequence followed by what the
    queue still holds is exactly what the queue was given, in order. *)
Theorem queued_sent_in_order fd pipe_fd t id s :
  rtc qstep (sender_start fd pipe_fd t id) s ->
  exists out, concat (payloads s) = payload_bytes out /\
    forall q, queued s q = of_queue q out ++ ready (sender_sq s) q ++ upcoming (sender_sq s) q.
Proof. intros Hr. by destruct (run_ok _ _ _ _ _ Hr) as [_ H]. Qed.

(** [check_upcoming_queues] releases of every queue exactly the leading
    messages that are due, keeps their order, and returns a clock before which
    none of the remaining ones is due. *)
Theorem check_upcoming_exact fd pipe_fd t id s ack m sq' q :
  rtc qstep (sender_start fd pipe_fd t id) s -> check_upcoming_queues ack (sender_sq s) = (m, sq') ->
  exists due, upcoming (sender_sq s) q = due ++ upcoming sq' q /\
    ready sq' q = ready (sender_sq s) q ++ due /\ Forall (fun qm => qm_min_clock qm <= ack) due /\
    forall qm rest, upcoming sq' q = qm :: rest -> ack < qm_min_clock qm /\ m <= qm_min_clock qm.
Proof.
  intros Hr E. destruct (run_ok _ _ _ _ _ Hr) as [Hok _].
  destruct (check_upcoming_spec _ _ _ _ E Hok) as (_ & H & Hm). destruct (H q) as [R1 R2].
  destruct (release_count (upcoming (sender_sq s) q) ack) as [n w] eqn:Ec. cbn [fst] in R1, R2.
  destruct (release_count_spec _ _ _ _ Ec) as [Hd Hh]. exists (take n (upcoming (sender_sq s) q)).
  rewrite R2, take_drop. split_and!; try done. intros qm rest Eq. rewrite Eq in Hh. split; [apply Hh|].
  apply (Hm q qm rest). by rewrite R2.
Qed.

(** No lost wake-up.  Once the sending thread has decided to sleep until
    [want], whatever batches other threads add before it looks again, either the
    wake-up pipe was written or no waiting message is due before [want]. *)
Theorem no_lost_wakeup fd pipe_fd t id s want sq1 batches :
  rtc qstep (sender_start fd pipe_fd t id) s -> update_need_kick_clock want (sender_sq s) = (0, sq1) ->
  Forall (fun b => Forall msg_ok b.2) batches ->
  let sq2 := send_batches batches sq1 in
  (kicks (sq_transmit sq1) < kicks (sq_transmit sq2))%nat \/ released_from want (upcoming sq2).
Proof.
  intros Hr E Hb. destruct (run_ok _ _ _ _ _ Hr) as [Hok _].
  assert (Hstart : queues_ok sq1 /\ awake want (kicks (sq_transmit sq1)) sq1).
  { unfold update_need_kick_clock in E. destruct (Z.ltb_spec (min_release_clock (sq_transmit (sender_sq s))) want);
      [done|]. injection E as <-. split; [by apply (queues_ok_same (sender_sq s))|]. right. split_and!; [done|done|].
    intros q qm rest Hq. pose proof (ok_release _ Hok q qm rest Hq). lia. }
  clear E Hok Hr. destruct Hstart as [Hok Ha]. cbv zeta. revert Ha. generalize (kicks (sq_transmit sq1)) as k.
  intros k Ha. assert (Hend : awake want k (send_batches batches sq1)).
  { unfold send_batches. revert sq1 Hok Ha. induction Hb as [|[q msgs] batches Hm Hb IH]; intros sq1 Hok Ha; [done|].
    cbn. apply IH; [by apply send_batch_spec|by apply awake_batch]. }
  destruct Hend as [Hk|(_ & _ & Hr)]; auto.
Qed.

(** *** Concrete instances *)

Module QueueExample.
Definition m1 : queue_message := (message_fill [1; 2]) <| qm_min_clock := 5 |> <| qm_req_clock := 20 |>.
Definition m2 : queue_message := (message_fill [3]) <| qm_min_clock := 100 |> <| qm_req_clock := 120 |>.
Definition s0 : sender := sender_start 3 4 SQT_UART 0.
Definition s1 : sender := mk_sender (serialqueue_send_batch 7 [m1; m2] (sender_sq s0))
  (<[7 := queued s0 7 ++ (limit_min_clock <$> [m1; m2])]> (queued s0)) (payloads s0).
Definition s2 : sender := mk_sender (check_upcoming_queues 50 (sender_sq s1)).2 (queued s1) (payloads s1).
End QueueExample.

Lemma example_msgs_ok : Forall msg_ok [QueueExample.m1; QueueExample.m2].
Proof. by repeat constructor; try (apply Nat.leb_le; vm_compute). Qed.

Lemma example_queued : rtc qstep QueueExample.s0 QueueExample.s1.
Proof. exact (rtc_once _ _ (Q_queue QueueExample.s0 7 _ example_msgs_ok)). Qed.

Lemma example_released : rtc qstep QueueExample.s0 QueueExample.s2.
Proof.
  eapply rtc_r; [exact example_queued|]. exact (Q_release QueueExample.s1 50 _ _ (surjective_pairing _)).
Qed.

Lemma queues_well_formed_witness :
  ready_bytes (sender_sq QueueExample.s2) = 2 /\ queues_ok (sender_sq QueueExample.s2).
Proof.
  split; [vm_compute; reflexivity|].
  exact (proj1 (queues_well_formed 3 4 SQT_UART 0 QueueExample.s2 0 PR_NOW example_released)).
Defined.

Lemma queued_sent_in_order_witness :
  exists out, concat (payloads QueueExample.s2) = payload_bytes out /\
    forall q, queued QueueExample.s2 q =
      of_queue q out ++ ready (sender_sq QueueExample.s2) q ++ upcoming (sender_sq QueueExample.s2) q.
Proof. exact (queued_sent_in_order 3 4 SQT_UART 0 QueueExample.s2 example_released). Defined.

Lemma check_upcoming_exact_witness :
  exists due, upcoming (sender_sq QueueExample.s1) 7 = due ++ upcoming (sender_sq QueueExample.s2) 7 /\
    ready (sender_sq QueueExample.s2) 7 = ready (sender_sq QueueExample.s1) 7 ++ due /\
    Forall (fun qm => qm_min_clock qm <= 50) due.
Proof.
  destruct (check_upcoming_exact 3 4 SQT_UART 0 QueueExample.s1 50 _ _ 7 example_queued (surjective_pairing _))
    as (due & H1 & H2 & H3 & _).
  exists due. exact (conj H1 (conj H2 H3)).
Defined.

Lemma no_lost_wakeup_witness :
  let sq1 := (update_need_kick_clock 50 (sender_sq QueueExample.s0)).2 in
  let sq2 := send_batches [(7, [QueueExample.m1; QueueExample.m2])] sq1 in
  (kicks (sq_transmit sq1) < kicks (sq_transmit sq2))%nat \/ released_from 50 (upcoming sq2).
Proof.
  assert (E : (update_need_kick_clock 50 (sender_sq QueueExample.s0)).1 = 0) by (vm_compute; reflexivity).
  refine (no_lost_wakeup 3 4 SQT_UART 0 QueueExample.s0 50 _ _ (rtc_refl _ _) _ _).
  - rewrite <- E. apply surjective_pairing.
  - constructor; [exact example_msgs_ok|constructor].
Defined.
