(* ===== verification/Trdispatch.v ===== *)
(** * Relay of triggers between micro-controllers (klippy/chelper/trdispatch.c)

    While several micro-controllers move axes together, a relay on the host reads
    the [trsync_state] reports of all of them.  It passes the first report of a
    trigger on to every micro-controller, and as long as all is well it extends
    the timeout of each one by the progress of the others. *)

From S2P Require Import Prelude Double Vlq Command Msgblock Clock Pollreactor Serialqueue.

(** [td_sq] is the address of the serial queue, [td_cq] that of the command
    queue in it, [tdm_prefix] the prefix of the fast reader. *)
Record trdispatch_mcu := mk_trdispatch_mcu {
  tdm_prefix : list Z;
  td_sq : Z;
  td_cq : Z;
  trsync_oid : Z;
  set_timeout_msgtag : Z;
  trigger_msgtag : Z;
  last_status_clock : Z;
  expire_clock : Z;
  expire_ticks : Z;
  min_extend_ticks : Z;
  td_ce : clock_estimate }.
#[export] Instance eta_trdispatch_mcu : Eta trdispatch_mcu := fun m =>
  mk_trdispatch_mcu (tdm_prefix m) (td_sq m) (td_cq m) (trsync_oid m) (set_timeout_msgtag m) (trigger_msgtag m)
    (last_status_clock m) (expire_clock m) (expire_ticks m) (min_extend_ticks m) (td_ce m).

Record trdispatch := mk_trdispatch {
  tdm_list : list Z;
  is_active : Z;
  can_trigger : Z;
  dispatch_reason : Z }.
#[export] Instance eta_trdispatch : Eta trdispatch := fun t =>
  mk_trdispatch (tdm_list t) (is_active t) (can_trigger t) (dispatch_reason t).

(** A relay, its micro-controllers and the serial queues, by address. *)
Record relay := mk_relay {
  td : trdispatch;
  tdms : Z -> trdispatch_mcu;
  sqs : Z -> serialqueue }.
#[export] Instance eta_relay : Eta relay := fun w => mk_relay (td w) (tdms w) (sqs w).

(** [serialqueue_send_one] on the command queue of a micro-controller. *)
Definition dest (tdm : trdispatch_mcu) : Z * Z := (td_sq tdm, td_cq tdm).
Definition send_to (d : Z * Z) (qm : queue_message) (m : Z -> serialqueue) : Z -> serialqueue :=
  <[d.1 := serialqueue_send_one d.2 qm (m d.1)]> m.

Definition trigger_message (reason : Z) (tdm : trdispatch_mcu) : queue_message :=
  message_fill (message_alloc_and_encode [trigger_msgtag tdm; trsync_oid tdm; reason]).
Definition send_trsync_trigger (m : Z) (w : relay) : relay :=
  w <| sqs ::= send_to (dest (tdms w m)) (trigger_message (dispatch_reason (td w)) (tdms w m)) |>.

Definition timeout_message (tdm : trdispatch_mcu) : queue_message :=
  (message_fill (message_alloc_and_encode [set_timeout_msgtag tdm; trsync_oid tdm; u32 (expire_clock tdm)]))
    <| qm_req_clock := expire_clock tdm |>.
Definition send_trsync_set_timeout (m : Z) (w : relay) : relay :=
  w <| sqs ::= send_to (dest (tdms w m)) (timeout_message (tdms w m)) |>.

Definition status_time (tdm : trdispatch_mcu) : double := clock_to_time (td_ce tdm) (last_status_clock tdm).

(** "Determine minimum acknowledged time among all mcus": [min_time],
    [next_min_time] and [min_tdm]. *)
Definition min_step (w : relay) (s : double * double * option Z) (m : Z) : double * double * option Z :=
  let '(min_time, next_min_time, min_tdm) := s in
  let status_time := status_time (tdms w m) in
  if (status_time <? next_min_time)%D then
    if (status_time <? min_time)%D then (status_time, min_time, Some m)
    else (min_time, status_time, min_tdm)
  else s.
Definition find_min (w : relay) : double * double * option Z :=
  let '(min_time, next_min_time, min_tdm) := foldl (min_step w) (PR_NEVER, PR_NEVER, None) (tdm_list (td w)) in
  (min_time, if deq next_min_time PR_NEVER then min_time else next_min_time, min_tdm).

(** The comparison with the unsigned [min_extend_ticks] converts the signed
    difference back to [uint64_t].  A clock that does not fit is undefined. *)
Definition extend_timeout (status_time : double) (m : Z) : M relay unit := fun w =>
  let tdm := tdms w m in
  match clock_from_time (td_ce tdm) status_time with
  | None => Crash w
  | Some clock =>
    let expire := u64 (clock + expire_ticks tdm) in
    if min_extend_ticks tdm <=? u64 (s64 (expire - expire_clock tdm)) then
      Ret tt (send_trsync_set_timeout m (w <| tdms ::= <[m := tdm <| expire_clock := expire |>]> |>))
    else Ret tt w
  end.

(** "Send trsync_set_timeout messages to other mcus (if needed)" *)
Fixpoint extend_timeouts (min_time next_min_time : double) (min_tdm : option Z) (l : list Z) : M relay unit :=
  match l with
  | [] => ret tt
  | m :: l =>
    extend_timeout (if bool_decide (min_tdm = Some m) then next_min_time else min_time) m;;;
    extend_timeouts min_time next_min_time min_tdm l
  end.

(** "mcu is still working okay - update last_status_clock" *)
Definition note_status (fr : Z) (eventtime : double) (clock : Z) : M relay unit := fun w =>
  let tdm := tdms w fr in
  let ce := serialqueue_get_clock_est (sqs w (td_sq tdm)) in
  match clock_from_time ce eventtime with
  | None => Crash w
  | Some est_msg_clock =>
    Ret tt (w <| tdms ::= <[fr := tdm <| td_ce := ce |>
                                      <| last_status_clock := clock_from_clock32 est_msg_clock clock |>]> |>)
  end.

Definition handle_trsync_state (fr : Z) (eventtime : double) (data : list Z) : M relay unit := fun w =>
  match msgblock_decode 5 data with
  | None => Crash w
  | Some (Some [_; oid; state; _; clock]) =>
    if negb (oid =? trsync_oid (tdms w fr)) then Ret tt w else
    if negb (truthy (can_trigger (td w))) then Ret tt w else
    if negb (truthy state) then
      let w := w <| td ::= fun t => t <| can_trigger := 0 |> |> in
      Ret tt (foldl (fun w m => send_trsync_trigger m w) w (tdm_list (td w)))
    else
      (note_status fr eventtime clock;;;
       fun w =>
         let '(min_time, next_min_time, min_tdm) := find_min w in
         extend_timeouts min_time next_min_time min_tdm (tdm_list (td w)) w) w
  | _ => Ret tt w
  end.

Definition trdispatch_start (reason : Z) (w : relay) : relay :=
  if truthy (is_active (td w)) || bool_decide (tdm_list (td w) = []) then w else
  let w := w <| td ::= fun t => t <| dispatch_reason := reason |> <| is_active := 1 |> <| can_trigger := 1 |> |> in
  foldl (fun w m =>
    let tdm := tdms w m in
    w <| sqs ::= fun s => <[td_sq tdm := serialqueue_add_fastreader (tdm_prefix tdm, m) (s (td_sq tdm))]> s |>)
    w (tdm_list (td w)).

Definition trdispatch_stop (w : relay) : relay :=
  if negb (truthy (is_active (td w))) then w else
  let w := w <| td ::= fun t => t <| is_active := 0 |> |> in
  foldl (fun w m =>
    let tdm := tdms w m in
    w <| sqs ::= fun s => <[td_sq tdm := serialqueue_rm_fastreader m (s (td_sq tdm))]> s |>)
    w (tdm_list (td w)).

Definition trdispatch_alloc : trdispatch := mk_trdispatch [] 0 0 0.

(** The new object is at address [m]. *)
Definition trdispatch_mcu_alloc (m sq cq oid timeout_tag trigger_tag state_tag : Z) (w : relay) : relay :=
  let tdm := mk_trdispatch_mcu (message_alloc_and_encode [state_tag; oid]) sq cq oid timeout_tag trigger_tag 0 0 0 0
               (mk_clock_estimate 0 (of_Z 0) (of_Z 0)) in
  w <| tdms ::= <[m := tdm]> |> <| td ::= fun t => t <| tdm_list ::= fun l => l ++ [m] |> |>.

Definition trdispatch_mcu_setup (m last_status expire ticks min_extend : Z) (w : relay) : relay :=
  let tdm := tdms w m in
  w <| tdms ::= <[m := tdm <| last_status_clock := last_status |> <| expire_clock := expire |>
      <| expire_ticks := ticks |> <| min_extend_ticks := min_extend |>
      <| td_ce := serialqueue_get_clock_est (sqs w (td_sq tdm)) |>]> |>.

(** A message arrives on serial queue [s]: [handle_message] looks for the fast
    reader and calls it. *)
Definition receive_message (monotonic : nat -> double) (s : Z) (eventtime : double) (msg : list Z) : M relay unit := fun w =>
  let sq := handle_message monotonic eventtime msg (sqs w s) in
  let calls := drop (length (dispatched (sqs w s))) (dispatched sq) in
  foldl (fun (k : M relay unit) c => k;;; handle_trsync_state c.1 eventtime c.2) (ret tt) calls
    (w <| sqs ::= <[s := sq]> |>).

(** ** The least status times *)

(** The time that limits the timeout of [m]: the least status time of the other
    micro-controllers, or its own when there are no others. *)
Definition least_other (w : relay) (m : Z) (t : double) : Prop :=
  let l := tdm_list (td w) in
  l = [m] /\ t = status_time (tdms w m) \/
  exists k, k ∈ l /\ k <> m /\ t = status_time (tdms w k) /\
    forall k', k' ∈ l -> k' <> m -> dlt (status_time (tdms w k')) t = false.

Section min.
Context (w : relay).
Local Notation st m := (status_time (tdms w m)).

(** What the scan knows after the micro-controllers [l]. *)
Inductive scanned (l : list Z) : double * double * option Z -> Prop :=
| scanned_none : l = [] -> scanned l (PR_NEVER, PR_NEVER, None)
| scanned_one a : l = [a] -> scanned l (st a, PR_NEVER, Some a)
| scanned_more a b :
  a ∈ l -> b ∈ l -> b <> a -> (forall k, k ∈ l -> dlt (st k) (st a) = false) ->
  (forall k, k ∈ l -> k <> a -> dlt (st k) (st b) = false) ->
  scanned l (st a, st b, Some a).

Lemma min_step_scanned l s m :
  m ∉ l -> (forall k, k ∈ m :: l -> dlt (st k) PR_NEVER = true) -> scanned l s -> scanned (l ++ [m]) (min_step w s m).
Proof.
  intros Hm Hlt Hs. assert (Hnan : forall k, k ∈ m :: l -> st k <> S754_nan) by (intros k Hk; eapply dlt_number, Hlt, Hk).
  assert (Hin : forall k, k ∈ l ++ [m] <-> k ∈ l \/ k = m) by set_solver.
  destruct Hs as [->|a ->|a b Ha Hb Hab Hmin Hnext]; unfold min_step.
  - rewrite Hlt by set_solver. apply scanned_one. done.
  - rewrite (Hlt m) by set_solver. destruct (dlt (st m) (st a)) eqn:E.
    + apply scanned_more; [set_solver|set_solver|set_solver| |]; intros k Hk%Hin; rewrite list_elem_of_singleton in Hk.
      * destruct Hk as [-> | ->]; [|apply dlt_irrefl]. apply not_true_is_false. intros E'.
        assert (E2 := dlt_trans _ _ _ E E'). by rewrite dlt_irrefl in E2.
      * intros Hne. destruct Hk as [-> | ->]; [apply dlt_irrefl|done].
    + apply scanned_more; [set_solver|set_solver|set_solver| |]; intros k Hk%Hin; rewrite list_elem_of_singleton in Hk.
      * destruct Hk as [-> | ->]; [apply dlt_irrefl|done].
      * intros Hne. destruct Hk as [-> | ->]; [done|apply dlt_irrefl].
  - destruct (dlt (st m) (st b)) eqn:Eb.
    + destruct (dlt (st m) (st a)) eqn:Ea.
      * apply scanned_more; [set_solver|set_solver|set_solver| |]; intros k Hk%Hin.
        -- destruct Hk as [Hk | ->]; [|apply dlt_irrefl]. apply not_true_is_false. intros E'.
           assert (E2 := dlt_trans _ _ _ E' Ea). rewrite Hmin in E2; done.
        -- intros Hne. destruct Hk as [Hk | ->]; [by apply Hmin|done].
      * apply scanned_more; [set_solver|set_solver|set_solver| |]; intros k Hk%Hin.
        -- destruct Hk as [Hk | ->]; [by apply Hmin|done].
        -- intros Hne. destruct Hk as [Hk | ->]; [|apply dlt_irrefl]. apply not_true_is_false. intros E'.
           assert (E2 := dlt_trans _ _ _ E' Eb). rewrite Hnext in E2; done.
    + apply scanned_more; [set_solver|set_solver|set_solver| |]; intros k Hk%Hin.
      * destruct Hk as [Hk | ->]; [by apply Hmin|].
        apply (dlt_false_trans _ (st b)); [apply Hnan; set_solver|done|by apply Hmin].
      * intros Hne. destruct Hk as [Hk | ->]; [by apply Hnext|done].
Qed.

Lemma scan_all l l' s :
  NoDup (l' ++ l) -> (forall k, k ∈ l' ++ l -> dlt (st k) PR_NEVER = true) -> scanned l' s ->
  scanned (l' ++ l) (foldl (min_step w) s l).
Proof.
  revert l' s. induction l as [|m l IH]; intros l' s Hnd Hlt Hs; cbn [foldl]; [by rewrite app_nil_r|].
  rewrite cons_middle, (assoc_L (++)). apply IH.
  - by rewrite <- (assoc_L (++)).
  - intros k Hk. apply Hlt. set_solver.
  - apply min_step_scanned; [|intros k Hk; apply Hlt; set_solver|done].
    apply NoDup_app in Hnd as (_ & Hnd & _). intros Hm. apply (Hnd m Hm). by left.
Qed.

(** The limits the code computes. *)
Lemma find_min_spec m min_time next_min_time min_tdm :
  NoDup (tdm_list (td w)) -> (forall k, k ∈ tdm_list (td w) -> dlt (st k) PR_NEVER = true) -> m ∈ tdm_list (td w) ->
  find_min w = (min_time, next_min_time, min_tdm) ->
  least_other w m (if bool_decide (min_tdm = Some m) then next_min_time else min_time).
Proof.
  intros Hnd Hlt Hm E. unfold find_min in E.
  assert (Hs : scanned (tdm_list (td w)) (foldl (min_step w) (PR_NEVER, PR_NEVER, None) (tdm_list (td w)))).
  { apply (scan_all (tdm_list (td w)) []); [done|done|by apply scanned_none]. }
  destruct Hs as [El|a El|a b Ha Hb Hab Hmin Hnext].
  - rewrite El in Hm. by apply elem_of_nil in Hm.
  - rewrite El in Hm. apply list_elem_of_singleton in Hm as ->. injection E as <- <- <-. rewrite bool_decide_true by done.
    left. split; [done|]. by vm_compute (deq PR_NEVER PR_NEVER).
  - injection E as <- <- <-. rewrite (dlt_deq (st b)) by (by apply Hlt). right. case_bool_decide as Ed.
    + injection Ed as ->. exists b. split_and!; [done..|]. intros k Hk Hne. by apply Hnext.
    + exists a. split_and!; [done|congruence|done|]. intros k Hk _. by apply Hmin.
Qed.
End min.

(** ** What a report causes *)

(** Messages handed to the serial queues, in order. *)
Definition sent (l : list (Z * Z * queue_message)) (s : Z -> serialqueue) : Z -> serialqueue :=
  foldl (fun s x => send_to x.1 x.2 s) s l.

Lemma sent_app l1 l2 s : sent (l1 ++ l2) s = sent l2 (sent l1 s).
Proof. apply foldl_app. Qed.

Definition triggers (w : relay) (l : list Z) : list (Z * Z * queue_message) :=
  (fun m => (dest (tdms w m), trigger_message (dispatch_reason (td w)) (tdms w m))) <$> l.

Lemma send_triggers_spec l w :
  foldl (fun w m => send_trsync_trigger m w) w l =
  w <| sqs ::= sent (triggers w l) |>.
Proof.
  revert w. induction l as [|m l IH]; intros w; [by destruct w|]. cbn [foldl fmap list_fmap]. rewrite IH. by destruct w.
Qed.

(** The timeout of a micro-controller after a report, [t] being the time that
    limits it, and the messages sent to it. *)
Definition extended (t : double) (tdm tdm' : trdispatch_mcu) (msgs : list queue_message) : Prop :=
  exists clock, clock_from_time (td_ce tdm) t = Some clock /\
    let expire := u64 (clock + expire_ticks tdm) in
    if min_extend_ticks tdm <=? u64 (expire - expire_clock tdm)
    then tdm' = tdm <| expire_clock := expire |> /\ msgs = [timeout_message tdm']
    else tdm' = tdm /\ msgs = [].

Lemma truthy_nonzero z : z <> 0 -> truthy z = true.
Proof. intros Hz. unfold truthy. by rewrite (proj2 (Z.eqb_neq z 0) Hz). Qed.

Lemma u64_s64 x : u64 (s64 x) = u64 x.
Proof. word. Qed.

Lemma extend_timeout_spec t m w clock :
  clock_from_time (td_ce (tdms w m)) t = Some clock ->
  exists w' msgs, extend_timeout t m w = Ret tt w' /\ td w' = td w /\ (forall k, k <> m -> tdms w' k = tdms w k) /\
    extended t (tdms w m) (tdms w' m) msgs /\ sqs w' = sent ((fun q => (dest (tdms w m), q)) <$> msgs) (sqs w).
Proof.
  intros Ec. unfold extend_timeout. rewrite Ec. set (expire := u64 (clock + expire_ticks (tdms w m))). rewrite u64_s64.
  destruct (min_extend_ticks (tdms w m) <=? u64 (expire - expire_clock (tdms w m))) eqn:El.
  - eexists. exists [timeout_message ((tdms w m) <| expire_clock := expire |>)]. split; [done|].
    unfold send_trsync_set_timeout. cbn [td tdms sqs set eta_relay]. rewrite !fn_lookup_insert.
    split; [done|]. split; [intros k Hk; by rewrite fn_lookup_insert_ne|]. split; [|done].
    exists clock. split; [done|]. cbv zeta. fold expire. by rewrite El.
  - exists w, []. split; [done|]. split; [done|]. split; [done|]. split; [|done].
    exists clock. split; [done|]. cbv zeta. fold expire. by rewrite El.
Qed.

(** The timeouts of all micro-controllers of [l]. *)
Lemma extend_timeouts_spec min_time next_min_time min_tdm l w :
  let limit m := if bool_decide (min_tdm = Some m) then next_min_time else min_time in
  NoDup l -> (forall m, m ∈ l -> is_Some (clock_from_time (td_ce (tdms w m)) (limit m))) ->
  exists w' msgs, extend_timeouts min_time next_min_time min_tdm l w = Ret tt w' /\ td w' = td w /\
    (forall k, k ∉ l -> tdms w' k = tdms w k) /\
    (forall m, m ∈ l -> extended (limit m) (tdms w m) (tdms w' m) (msgs m)) /\
    sqs w' = sent (l ≫= fun m => (fun q => (dest (tdms w m), q)) <$> msgs m) (sqs w).
Proof.
  intros limit Hnd. revert w. induction Hnd as [|m l Hm Hnd IH]; intros w Hc.
  { exists w, (fun _ => []). split; [done|]. split; [done|]. split; [done|]. split; [|done]. intros m Hm. by apply elem_of_nil in Hm. }
  destruct (Hc m) as [clock Ec]; [by left|].
  destruct (extend_timeout_spec (limit m) m w clock Ec) as (w1 & q & E1 & Et1 & Ek1 & Hx & Es1).
  destruct (IH w1) as (w2 & msgs & E2 & Et2 & Ek2 & Hx2 & Es2).
  { intros k Hk. rewrite Ek1 by (intros ->; done). apply Hc. by right. }
  exists w2, (<[m := q]> msgs). cbn [extend_timeouts]. fold limit. rewrite (bind_ret _ _ _ _ _ E1). split; [exact E2|].
  split; [congruence|]. split.
  { intros k Hk. rewrite Ek2, Ek1; [done|set_solver..]. }
  split.
  - intros k Hk. destruct (decide (k = m)) as [->|Hne].
    + rewrite fn_lookup_insert, Ek2 by done. done.
    + rewrite fn_lookup_insert_ne, <- (Ek1 k Hne) by done. apply Hx2. apply elem_of_cons in Hk as [->|]; done.
  - cbn [mbind list_bind]. rewrite sent_app, fn_lookup_insert, <- Es1, Es2.
    f_equal. clear -Hm Ek1. induction l as [|k l IHl]; [done|]. cbn [mbind list_bind].
    rewrite IHl, (fn_lookup_insert_ne msgs m k), Ek1 by set_solver. done.
Qed.

(** *** The relay over any sequence of reports *)

(** What never changes in a micro-controller of the relay. *)
Definition identity (tdm : trdispatch_mcu) : list Z * (Z * Z) * (Z * Z * Z) :=
  (tdm_prefix tdm, dest tdm, (trsync_oid tdm, set_timeout_msgtag tdm, trigger_msgtag tdm)).
Definition same_mcus (w w' : relay) : Prop := forall m, identity (tdms w' m) = identity (tdms w m).

(** A [trsync_set_timeout] message for a micro-controller of [w]. *)
Definition timeout_for (w : relay) (x : Z * Z * queue_message) : Prop :=
  exists m clock, m ∈ tdm_list (td w) /\
    x = (dest (tdms w m), timeout_message ((tdms w m) <| expire_clock := clock |>)).

Lemma extend_timeout_sends t m w w' :
  m ∈ tdm_list (td w) -> extend_timeout t m w = Ret tt w' ->
  td w' = td w /\ same_mcus w w' /\ exists q, Forall (timeout_for w) q /\ sqs w' = sent q (sqs w).
Proof.
  intros Hm E. unfold extend_timeout in E. destruct (clock_from_time _ _) as [c|]; [|done].
  set (e := u64 (c + expire_ticks (tdms w m))) in E. destruct (_ <=? _); injection E as <-.
  - split; [done|]. split.
    + intros k. cbn. destruct (decide (k = m)) as [->|Hne]; [by rewrite fn_lookup_insert|by rewrite fn_lookup_insert_ne].
    + exists [(dest (tdms w m), timeout_message ((tdms w m) <| expire_clock := e |>))].
      split; [repeat constructor; by exists m, e|].
      unfold send_trsync_set_timeout. cbn [sqs tdms td set eta_relay]. by rewrite fn_lookup_insert.
  - split; [done|]. split; [done|]. exists []. by split; [constructor|].
Qed.

Lemma identity_message w w' m clock :
  same_mcus w w' ->
  (dest (tdms w' m), timeout_message ((tdms w' m) <| expire_clock := clock |>)) =
  (dest (tdms w m), timeout_message ((tdms w m) <| expire_clock := clock |>)).
Proof.
  intros H. specialize (H m). unfold identity, dest in H. injection H as _ E1 E2 E3 E4 E5.
  unfold dest, timeout_message. cbn. by rewrite E1, E2, E3, E4.
Qed.
Lemma identity_trigger w w' m :
  same_mcus w w' -> td w' = td w ->
  (dest (tdms w' m), trigger_message (dispatch_reason (td w')) (tdms w' m)) =
  (dest (tdms w m), trigger_message (dispatch_reason (td w)) (tdms w m)).
Proof.
  intros H Et. specialize (H m). unfold identity, dest in H. injection H as _ E1 E2 E3 E4 E5.
  unfold dest, trigger_message. by rewrite E1, E2, E3, E5, Et.
Qed.

Lemma timeout_for_same w w' q :
  same_mcus w w' -> tdm_list (td w') = tdm_list (td w) -> Forall (timeout_for w') q -> Forall (timeout_for w) q.
Proof.
  intros Hs Et Hq. eapply Forall_impl; [exact Hq|]. intros x (m & c & Hm & ->). exists m, c.
  rewrite Et in Hm. split; [done|]. by apply identity_message.
Qed.

Lemma extend_timeouts_sends mt nt mm l w w' :
  (forall m, m ∈ l -> m ∈ tdm_list (td w)) -> extend_timeouts mt nt mm l w = Ret tt w' ->
  td w' = td w /\ same_mcus w w' /\ exists q, Forall (timeout_for w) q /\ sqs w' = sent q (sqs w).
Proof.
  revert w. induction l as [|m l IH]; intros w Hl E; cbn [extend_timeouts] in E.
  { injection E as <-. split; [done|]. split; [done|]. exists []. by split; [constructor|]. }
  apply bind_inv in E as ([] & w1 & E1 & E2).
  apply extend_timeout_sends in E1 as (Et1 & Hs1 & q1 & Hq1 & Eq1); [|apply Hl; by left].
  apply IH in E2 as (Et2 & Hs2 & q2 & Hq2 & Eq2); [|intros k Hk; rewrite Et1; apply Hl; by right].
  split; [congruence|]. split; [intros k; by rewrite Hs2|]. exists (q1 ++ q2). split.
  - apply Forall_app. split; [done|]. apply (timeout_for_same w w1); [done|by rewrite Et1|done].
  - by rewrite sent_app, <- Eq1.
Qed.

(** The report of [fr] says that its micro-controller has stopped. *)
Definition reports_end (w : relay) (fr : Z) (data : list Z) : bool :=
  match msgblock_decode 5 data with
  | Some (Some [_; oid; state; _; _]) => (oid =? trsync_oid (tdms w fr)) && negb (truthy state)
  | _ => false
  end.

Lemma handle_cases fr t data w w' :
  can_trigger (td w) <> 0 -> handle_trsync_state fr t data w = Ret tt w' ->
  same_mcus w w' /\
  if reports_end w fr data then
    td w' = (td w) <| can_trigger := 0 |> /\ sqs w' = sent (triggers w (tdm_list (td w))) (sqs w)
  else td w' = td w /\ exists q, Forall (timeout_for w) q /\ sqs w' = sent q (sqs w).
Proof.
  intros Hct E. unfold handle_trsync_state in E. unfold reports_end.
  destruct (msgblock_decode 5 data) as [[fields|]|]; [| |done]; cycle 1.
  { injection E as <-. split; [done|]. split; [done|]. exists []. by split; [constructor|]. }
  assert (Hskip : w = w' -> same_mcus w w' /\ td w' = td w /\ exists q, Forall (timeout_for w) q /\ sqs w' = sent q (sqs w)).
  { intros ->. split; [done|]. split; [done|]. exists []. by split; [constructor|]. }
  destruct fields as [|f0 [|oid [|state [|f3 [|clock [|f5 fs]]]]]]; try (injection E as E; by apply Hskip).
  destruct (oid =? trsync_oid (tdms w fr)); cbn [negb andb] in *; [|injection E as E; by apply Hskip].
  rewrite (truthy_nonzero _ Hct) in E. cbn [negb] in E. destruct (truthy state); cbn [negb] in *.
  - apply bind_inv in E as ([] & w1 & E1 & E2). unfold note_status in E1. destruct (clock_from_time _ _) as [est|]; [|done].
    assert (Hw1 : td w1 = td w /\ sqs w1 = sqs w /\ same_mcus w w1).
    { injection E1 as <-. split; [done|]. split; [done|]. intros m. cbn. destruct (decide (m = fr)) as [->|Hne].
      - by rewrite fn_lookup_insert.
      - by rewrite fn_lookup_insert_ne. }
    destruct Hw1 as (Et1 & Es1 & Hs1). destruct (find_min w1) as [[mt nt] mm].
    apply extend_timeouts_sends in E2 as (Et2 & Hs2 & q & Hq & Eq); [|done].
    split; [intros m; by rewrite Hs2|]. split; [congruence|]. exists q.
    split; [apply (timeout_for_same w w1); [done|by rewrite Et1|done]|by rewrite <- Es1].
  - injection E as <-. rewrite send_triggers_spec. done.
Qed.

(** Reports are handled one at a time, under the lock. *)
Fixpoint handle_reports (l : list (Z * double * list Z)) : M relay unit :=
  match l with
  | [] => ret tt
  | (fr, t, data) :: l => handle_trsync_state fr t data;;; handle_reports l
  end.

Lemma handled_after_trigger l w w' :
  can_trigger (td w) = 0 -> handle_reports l w = Ret tt w' -> w' = w.
Proof.
  intros Hct. revert w Hct. induction l as [|[[fr t] data] l IH]; intros w Hct E; cbn [handle_reports] in E; [by injection E|].
  apply bind_inv in E as ([] & w1 & E1 & E2). assert (w1 = w) as ->; [|by apply IH].
  unfold handle_trsync_state in E1. rewrite Hct in E1. cbn [truthy] in E1.
  destruct (msgblock_decode 5 data) as [[fields|]|]; [|by injection E1|done].
  destruct fields as [|? [|? [|? [|? [|? [|]]]]]]; try (by injection E1).
  destruct (_ =? _); cbn in E1; by injection E1.
Qed.
(** ** From the wire to the relay *)

(** What the serial queue keeps while it handles a message. *)
Definition readers (sq : serialqueue) : list (list Z * Z) * list (Z * list Z) := (fast_readers sq, dispatched sq).

Lemma ack_loop_readers queue sent_seq rseq sq : readers (ack_loop queue sent_seq rseq sq) = readers sq.
Proof.
  revert sent_seq sq. induction queue as [|x queue IH]; intros sent_seq sq; cbn [ack_loop]; [done|].
  destruct (_ =? _); [done|]. by rewrite IH.
Qed.
Lemma update_receive_readers eventtime rseq sq : readers (update_receive_seq eventtime rseq sq) = readers sq.
Proof.
  unfold update_receive_seq. cbv zeta. rewrite <- (ack_loop_readers (sent_queue sq) (receive_seq sq) rseq sq).
  generalize (ack_loop (sent_queue sq) (receive_seq sq) rseq sq). intros sq1. set (sq2 := if _ && _ && _ then _ else _).
  assert (E : readers sq2 = readers sq1).
  { unfold sq2. destruct (_ && _ && _); [|done]. unfold update_rtt. cbv zeta. by destruct (dzero _). }
  rewrite <- E. clearbody sq2. by destruct (sent_queue sq2).
Qed.

(** The sequence number of the message is one the serial queue takes. *)
Definition in_sequence (sq : serialqueue) (msg : list Z) : Prop :=
  let rseq := u64 (receive_seq sq + Z.land (u64 (msg !!! MESSAGE_POS_SEQ - receive_seq sq)) MESSAGE_SEQ_MASK) in
  rseq = receive_seq sq \/ rseq <= send_seq sq \/ receive_seq sq = 1.

Lemma handle_message_dispatch monotonic eventtime msg sq fr :
  in_sequence sq msg -> find_fast_reader (fast_readers sq) msg = Some fr ->
  dispatched (handle_message monotonic eventtime msg sq) = dispatched sq ++ [(fr, msg)].
Proof.
  intros Hs Hf. unfold handle_message. cbv zeta. unfold in_sequence in Hs. cbv zeta in Hs.
  set (rseq := u64 (receive_seq sq + _)) in *.
  destruct (negb (rseq =? receive_seq sq) && _) eqn:Ec.
  { apply andb_true_iff in Ec as [E0 Ec]. apply andb_true_iff in Ec as [E1 E2]. lia. }
  clear Ec Hs.
  assert (E : readers (if rseq =? receive_seq sq then sq else update_receive_seq eventtime rseq sq) = readers sq)
    by (destruct (rseq =? receive_seq sq); [done|apply update_receive_readers]).
  revert E. generalize (if rseq =? receive_seq sq then sq else update_receive_seq eventtime rseq sq).
  intros sq1 E. unfold readers in E. injection E as Ef Ed. rewrite <- Ed. rewrite <- Ef in Hf. clear Ed Ef. clearbody rseq. clear sq.
  destruct (take_notify _ _ _ _) as [rc rest]. destruct (_ =? Z.of_nat MESSAGE_MIN).
  - destruct (_ <? rseq); [|destruct (_ && _)]; destruct (bool_decide (rc = [])); cbn [fast_readers set]; cbn -[find_fast_reader app MESSAGE_MIN];
      rewrite Hf; done.
  - destruct (bool_decide _); cbn -[find_fast_reader app MESSAGE_MIN]; rewrite Hf; done.
Qed.

Lemma find_fast_reader_unique l msg fr p :
  (p, fr) ∈ l -> (length p + MESSAGE_MIN <= length msg)%nat -> take (length p) (drop MESSAGE_HEADER_SIZE msg) = p ->
  (forall q k, (q, k) ∈ l -> take (length q) (drop MESSAGE_HEADER_SIZE msg) = q -> k = fr) ->
  find_fast_reader l msg = Some fr.
Proof.
  intros Hin Hl Hp Hu. unfold find_fast_reader. destruct (list_find _ l) as [[i [q k]]|] eqn:E.
  - apply list_find_Some in E as (Ei & [_ Eq] & _). cbn in *. f_equal. apply (Hu q); [|done]. by apply list_elem_of_lookup_2 with i.
  - apply list_find_None in E. rewrite Forall_forall in E. exfalso. by apply (E _ Hin).
Qed.

(** Integers that start the same bytes are the same. *)
Lemma encode_int_prefix v v' r r' :
  0 <= v < 0x100000000 -> 0 <= v' < 0x100000000 -> encode_int v ++ r = encode_int v' ++ r' -> v = v' /\ r = r'.
Proof.
  intros Hv Hv' E. assert (P := parse_int_encode [] r v Hv). assert (P' := parse_int_encode [] r' v' Hv').
  cbn [app] in P, P'. rewrite E in P. rewrite P' in P. injection P as <-. split; [done|].
  by apply app_inv_head in E.
Qed.

Lemma encode_two a b : 0 <= a < 0x100000000 -> 0 <= b < 0x100000000 ->
  message_alloc_and_encode [a; b] = encode_int a ++ encode_int b.
Proof.
  intros Ha Hb. unfold message_alloc_and_encode. cbn [message_encode_loop]. rewrite (host_encode_int_eq a), (host_encode_int_eq b).
  pose proof (encode_int_length a Ha). pose proof (encode_int_length b Hb).
  assert (MESSAGE_PAYLOAD_MAX = 59%nat) as -> by done. cbn [app].
  rewrite (proj2 (Nat.ltb_ge _ _)) by lia. rewrite (proj2 (Nat.ltb_ge _ _)) by (rewrite length_app; lia). done.
Qed.

(** The micro-controllers of the relay: [state_tag] is the tag of the
    [trsync_state] message on each serial queue. *)
Record mcus_ok (state_tag : Z -> Z) (w : relay) : Prop := {
  mo_nodup : NoDup (tdm_list (td w));
  mo_tag : forall s, 0 <= state_tag s < 0x100000000;
  mo_oid : forall m, m ∈ tdm_list (td w) -> 0 <= trsync_oid (tdms w m) < 0x100000000;
  mo_prefix : forall m, m ∈ tdm_list (td w) ->
    tdm_prefix (tdms w m) = message_alloc_and_encode [state_tag (td_sq (tdms w m)); trsync_oid (tdms w m)];
  mo_unique : forall m m', m ∈ tdm_list (td w) -> m' ∈ tdm_list (td w) ->
    td_sq (tdms w m) = td_sq (tdms w m') -> trsync_oid (tdms w m) = trsync_oid (tdms w m') -> m = m' }.

(** The fast readers of every serial queue are those of the relay. *)
Definition registered (w : relay) : Prop := forall s,
  fast_readers (sqs w s) =
  (fun m => (tdm_prefix (tdms w m), m)) <$> filter (fun m => td_sq (tdms w m) = s) (tdm_list (td w)).
Definition unregistered (w : relay) : Prop := forall s, fast_readers (sqs w s) = [].

Lemma trdispatch_mcu_alloc_ok state_tag m cq oid tt_ gt s w :
  mcus_ok state_tag w -> m ∉ tdm_list (td w) -> 0 <= oid < 0x100000000 ->
  (forall k, k ∈ tdm_list (td w) -> td_sq (tdms w k) = s -> trsync_oid (tdms w k) <> oid) ->
  mcus_ok state_tag (trdispatch_mcu_alloc m s cq oid tt_ gt (state_tag s) w).
Proof.
  intros [Hnd Htag Hoid Hpre Huni] Hm Ho Hfresh.
  assert (Hk : forall k, k ∈ tdm_list (td w) ++ [m] -> k = m \/ k ∈ tdm_list (td w) /\ k <> m).
  { intros k [Hk|Hk%list_elem_of_singleton]%elem_of_app; [right|by left]. split; [done|congruence]. }
  split; cbn.
  - apply NoDup_app. split; [done|]. split; [|apply NoDup_singleton]. set_solver.
  - done.
  - intros k [-> |[Hk' Hne]]%Hk; [by rewrite fn_lookup_insert|rewrite fn_lookup_insert_ne by done; by apply Hoid].
  - intros k [-> |[Hk' Hne]]%Hk; [by rewrite fn_lookup_insert|rewrite fn_lookup_insert_ne by done; by apply Hpre].
  - intros k k' [-> |[Hk1 Hne]]%Hk [-> |[Hk2 Hne']]%Hk; rewrite ?fn_lookup_insert, ?fn_lookup_insert_ne by done; cbn.
    + done.
    + intros Es Eo. exfalso. by apply (Hfresh k').
    + intros Es Eo. exfalso. by apply (Hfresh k).
    + by apply Huni.
Qed.

Lemma add_readers_spec l w :
  let w' := foldl (fun w m =>
    w <| sqs ::= fun s => <[td_sq (tdms w m) := serialqueue_add_fastreader (tdm_prefix (tdms w m), m) (s (td_sq (tdms w m)))]> s |>)
    w l in
  td w' = td w /\ tdms w' = tdms w /\ forall s, fast_readers (sqs w' s) =
    fast_readers (sqs w s) ++ ((fun m => (tdm_prefix (tdms w m), m)) <$> filter (fun m => td_sq (tdms w m) = s) l).
Proof.
  revert w. induction l as [|m l IH]; intros w; cbn [foldl].
  { split; [done|]. split; [done|]. intros s. by rewrite app_nil_r. }
  set (w1 := w <| sqs ::= _ |>). specialize (IH w1). cbv zeta in IH. destruct IH as (Et & Em & Er).
  split; [done|]. split; [done|]. intros s. rewrite Er. cbn [tdms w1 set eta_relay]. rewrite filter_cons. case_decide as Ed.
  - subst s. cbn. rewrite fn_lookup_insert. cbn. by rewrite <- (assoc_L (++)).
  - cbn. by rewrite fn_lookup_insert_ne.
Qed.

Lemma trdispatch_start_spec reason w :
  unregistered w -> is_active (td w) = 0 -> tdm_list (td w) <> [] ->
  let w' := trdispatch_start reason w in
  registered w' /\ tdms w' = tdms w /\
  td w' = mk_trdispatch (tdm_list (td w)) 1 1 reason.
Proof.
  intros Hu Ha Hl. unfold trdispatch_start. rewrite Ha. cbn [truthy Z.eqb negb orb].
  rewrite bool_decide_false by done. set (w1 := w <| td ::= _ |>).
  destruct (add_readers_spec (tdm_list (td w1)) w1) as (Et & Em & Er). cbv zeta. cbv zeta in Et, Em, Er.
  split; [|by destruct w as [[]]]. intros s. rewrite Er, Em, Et. change (sqs w1 s) with (sqs w s). by rewrite Hu.
Qed.

Lemma filter_everything {A} (P : A -> Prop) `{forall x, Decision (P x)} (l : list A) : Forall P l -> filter P l = l.
Proof. induction 1 as [|x l Hx Hl IH]; [done|]. rewrite filter_cons_True by done. by rewrite IH. Qed.

Lemma rm_readers_spec l w :
  let w' := foldl (fun w m =>
    w <| sqs ::= fun s => <[td_sq (tdms w m) := serialqueue_rm_fastreader m (s (td_sq (tdms w m)))]> s |>) w l in
  td w' = td w /\ tdms w' = tdms w /\ forall s,
    fast_readers (sqs w' s) = filter (fun f => ~ (f.2 ∈ l /\ td_sq (tdms w f.2) = s)) (fast_readers (sqs w s)).
Proof.
  revert w. induction l as [|m l IH]; intros w; cbn [foldl].
  { split; [done|]. split; [done|]. intros s. symmetry. apply filter_everything, Forall_forall. set_solver. }
  set (w1 := w <| sqs ::= _ |>). specialize (IH w1). cbv zeta in IH. destruct IH as (Et & Em & Er).
  split; [done|]. split; [done|]. intros s. rewrite Er. cbn [tdms w1 set eta_relay].
  destruct (decide (td_sq (tdms w m) = s)) as [<-|Hne].
  - cbn [sqs w1 set eta_relay]. rewrite fn_lookup_insert. cbn [serialqueue_rm_fastreader fast_readers set eta_serialqueue].
    rewrite list_filter_filter. apply list_filter_iff. intros [q k]. cbn. rewrite elem_of_cons. naive_solver.
  - cbn [sqs w1 set eta_relay]. rewrite fn_lookup_insert_ne by done. apply list_filter_iff. intros [q k]. cbn.
    rewrite elem_of_cons. naive_solver.
Qed.

Lemma trdispatch_stop_unregisters w :
  registered w -> is_active (td w) <> 0 ->
  let w' := trdispatch_stop w in
  unregistered w' /\ tdms w' = tdms w /\ td w' = (td w) <| is_active := 0 |>.
Proof.
  intros Hr Ha. unfold trdispatch_stop. rewrite (truthy_nonzero _ Ha). cbn [negb]. set (w1 := w <| td ::= _ |>).
  destruct (rm_readers_spec (tdm_list (td w1)) w1) as (Et & Em & Er). cbv zeta. cbv zeta in Et, Em, Er.
  split; [|done]. intros s. rewrite Er. cbn [sqs td tdms w1 set eta_relay]. rewrite Hr.
  apply filter_none, Forall_fmap, Forall_forall. intros m Hm%list_elem_of_filter. cbn. intros Hn. apply Hn. tauto.
Qed.

(** The reader of a report is the one of its micro-controller. *)
Lemma report_reader state_tag w m seq rest :
  mcus_ok state_tag w -> registered w -> m ∈ tdm_list (td w) ->
  let s := td_sq (tdms w m) in
  let payload := encode_int (state_tag s) ++ encode_int (trsync_oid (tdms w m)) ++ rest in
  find_fast_reader (fast_readers (sqs w s)) (frame seq payload) = Some m.
Proof.
  intros Hok Hr Hm s payload.
  assert (Ep : forall k, k ∈ tdm_list (td w) -> td_sq (tdms w k) = s ->
    tdm_prefix (tdms w k) = encode_int (state_tag s) ++ encode_int (trsync_oid (tdms w k))).
  { intros k Hk Es. rewrite (mo_prefix _ _ Hok k Hk), Es. apply encode_two; [apply Hok|by apply Hok]. }
  assert (Ed : drop MESSAGE_HEADER_SIZE (frame seq payload) = payload ++ drop (2 + length payload) (frame seq payload)).
  { unfold frame, MESSAGE_HEADER_SIZE. cbn [app drop plus]. by rewrite drop_app_length. }
  apply (find_fast_reader_unique _ _ m (tdm_prefix (tdms w m))).
  - rewrite Hr. apply list_elem_of_fmap. exists m. split; [done|]. by apply list_elem_of_filter.
  - rewrite frame_length, (Ep m Hm eq_refl). unfold payload. rewrite !length_app. lia.
  - rewrite Ed, (Ep m Hm eq_refl). unfold payload. rewrite !(assoc_L (++)), <- (assoc_L (++)). apply take_app_length.
  - intros q k Hq Ht. rewrite Hr in Hq. apply list_elem_of_fmap in Hq as (k' & [= -> ->] & Hk').
    apply list_elem_of_filter in Hk' as [Es Hk']. rewrite Ed, (Ep k' Hk' Es) in Ht.
    apply (mo_unique _ _ Hok); [done..|].
    assert (Ex : payload ++ drop (2 + length payload) (frame seq payload) =
      (encode_int (state_tag s) ++ encode_int (trsync_oid (tdms w k'))) ++
      drop (length (encode_int (state_tag s) ++ encode_int (trsync_oid (tdms w k')))) (payload ++ drop (2 + length payload) (frame seq payload)))
      by (rewrite <- Ht at 1; by rewrite take_drop).
    unfold payload at 1 in Ex. rewrite <- !(assoc_L (++)) in Ex.
    apply encode_int_prefix in Ex as [_ Ex]; [|apply Hok..].
    apply encode_int_prefix in Ex as [Ex _]; [done|by apply Hok..].
Qed.

(** C16: A trigger is relayed once.  Whatever reports arrive after the start, in
    whatever order from the threads of the connections: the first one that says
    that its micro-controller has stopped makes the relay send one
    [trsync_trigger] to every micro-controller; before it only
    [trsync_set_timeout] messages are sent, and after it nothing. *)
Theorem trdispatch_relays_once l w w' :
  can_trigger (td w) <> 0 -> handle_reports l w = Ret tt w' ->
  let ended := existsb (fun r => reports_end w r.1.1 r.2) l in
  td w' = (if ended then (td w) <| can_trigger := 0 |> else td w) /\ same_mcus w w' /\
  exists q, Forall (timeout_for w) q /\
    sqs w' = sent (q ++ if ended then triggers w (tdm_list (td w)) else []) (sqs w).
Proof.
  revert w. induction l as [|[[fr t] data] l IH]; intros w Hct E; cbn [handle_reports existsb] in *.
  { injection E as <-. split; [done|]. split; [done|]. exists []. split; [constructor|done]. }
  apply bind_inv in E as ([] & w1 & E1 & E2). destruct (handle_cases _ _ _ _ _ Hct E1) as [Hs1 Hc]. cbn [fst snd].
  destruct (reports_end w fr data) eqn:Ee; cbn [orb].
  - destruct Hc as [Et Es]. apply handled_after_trigger in E2; [subst w1|by rewrite Et].
    split; [done|]. split; [done|]. exists []. split; [constructor|done].
  - destruct Hc as (Et & q & Hq & Es). destruct (IH w1) as (Et' & Hs' & q' & Hq' & Es'); [by rewrite Et|done|].
    assert (Hend : existsb (fun r => reports_end w1 r.1.1 r.2) l = existsb (fun r => reports_end w r.1.1 r.2) l).
    { clear -Hs1. induction l as [|r l IHl]; [done|]. cbn [existsb]. rewrite IHl. f_equal. unfold reports_end.
      specialize (Hs1 r.1.1). unfold identity in Hs1. injection Hs1 as _ _ _ -> _ _. done. }
    rewrite Hend, Et in *. split; [done|]. split; [intros m; by rewrite Hs'|].
    exists (q ++ q'). split; [apply Forall_app; split; [done|]; by apply (timeout_for_same w w1); rewrite ?Et|].
    rewrite <- (assoc_L (++)), sent_app, <- Es, Es'. f_equal. f_equal.
    destruct (existsb _ l); [|done]. unfold triggers. apply list_fmap_ext. intros i m _. exact (identity_trigger w w1 m Hs1 Et).
Qed.

(** C17: From the wire to all micro-controllers.  After [trdispatch_start], when a
    [trsync_state] message of a micro-controller of the relay arrives in
    sequence on its serial queue and says that it can no longer trigger, the
    serial queue's fast reader is that micro-controller's, and handling the
    message puts a [trsync_trigger] with the reason of the start on the command
    queue of every micro-controller; until then the relay is armed. *)
Theorem trigger_report_relayed state_tag monotonic reason w m seq r clock t :
  mcus_ok state_tag w -> unregistered w -> is_active (td w) = 0 -> m ∈ tdm_list (td w) ->
  0 <= r < 0x100000000 -> 0 <= clock < 0x100000000 ->
  let w0 := trdispatch_start reason w in
  let s := td_sq (tdms w m) in
  let msg := frame seq (concat (encode_int <$> [state_tag s; trsync_oid (tdms w m); 0; r; clock])) in
  in_sequence (sqs w0 s) msg ->
  can_trigger (td w0) = 1 /\
  exists w', receive_message monotonic s t msg w0 = Ret tt w' /\ can_trigger (td w') = 0 /\
    sqs w' = sent ((fun k => (dest (tdms w k), trigger_message reason (tdms w k))) <$> tdm_list (td w))
               (<[s := handle_message monotonic t msg (sqs w0 s)]> (sqs w0)).
Proof.
  intros Hok Hu Ha Hm Hr Hclk w0 s msg Hseq.
  destruct (trdispatch_start_spec reason w Hu Ha) as (Hreg & Em & Et); [intros E; rewrite E in Hm; by apply elem_of_nil in Hm|].
  fold w0 in Hreg, Em, Et. split; [by rewrite Et|].
  assert (Hok0 : mcus_ok state_tag w0) by (destruct Hok; split; rewrite ?Et, ?Em; done).
  assert (Hf : find_fast_reader (fast_readers (sqs w0 s)) msg = Some m).
  { assert (F := report_reader state_tag w0 m seq (encode_int 0 ++ encode_int r ++ encode_int clock ++ []) Hok0 Hreg).
    rewrite Em, Et in F. by apply F. }
  assert (Ed : msgblock_decode 5 msg = Some (Some [state_tag s; trsync_oid (tdms w m); 0; r; clock])).
  { apply (msgblock_decode_ints seq [state_tag s; trsync_oid (tdms w m); 0; r; clock]). repeat constructor; try lia; by apply Hok. }
  unfold receive_message. rewrite (handle_message_dispatch monotonic t msg _ m Hseq Hf).
  rewrite drop_app_length. cbn [foldl fst snd].
  set (w1 := w0 <| sqs ::= _ |>). eexists. split.
  - unfold bind, ret. unfold handle_trsync_state. rewrite Ed. change (tdms w1) with (tdms w0). rewrite Em, Z.eqb_refl. cbn [negb].
    change (td w1) with (td w0). rewrite Et. cbn [can_trigger truthy Z.eqb negb]. reflexivity.
  - rewrite send_triggers_spec. split; [done|]. cbn [sqs set eta_relay]. unfold triggers. cbn [tdms td w1 set eta_relay].
    by rewrite Em, Et.
Qed.

(** A report that all is well extends the timeouts soundly.  It is handled
    without error, and leaves the relay armed; the timeout of each
    micro-controller is computed from the least status time of the other ones
    (its own if it is alone), so it never gets ahead of a micro-controller that
    stopped reporting; it is replaced by that time plus [expire_ticks] when the
    difference, taken modulo 2^64, is at least [min_extend_ticks], and exactly
    then one [trsync_set_timeout] message with the new clock is sent. *)
Theorem trdispatch_timeouts_bounded w w1 fr t data tag state reason clock :
  let l := tdm_list (td w) in
  msgblock_decode 5 data = Some (Some [tag; trsync_oid (tdms w fr); state; reason; clock]) ->
  can_trigger (td w) <> 0 -> state <> 0 -> NoDup l -> note_status fr t clock w = Ret tt w1 ->
  (forall m, m ∈ l -> dlt (status_time (tdms w1 m)) PR_NEVER = true) ->
  (forall m k, m ∈ l -> k ∈ l -> is_Some (clock_from_time (td_ce (tdms w1 m)) (status_time (tdms w1 k)))) ->
  exists w' msgs, handle_trsync_state fr t data w = Ret tt w' /\ td w' = td w /\
    (forall k, k ∉ l -> tdms w' k = tdms w1 k) /\
    (forall m, m ∈ l -> exists limit, least_other w1 m limit /\ extended limit (tdms w1 m) (tdms w' m) (msgs m)) /\
    sqs w' = sent (l ≫= fun m => (fun q => (dest (tdms w1 m), q)) <$> msgs m) (sqs w).
Proof.
  intros l Ed Hct Hst Hnd En Hnever Hclk.
  assert (Ew1 : td w1 = td w /\ sqs w1 = sqs w).
  { unfold note_status in En. destruct (clock_from_time _ _); [|done]. injection En as <-. done. }
  destruct Ew1 as [Et1 Es1]. destruct (find_min w1) as [[mt nt] mm] eqn:Em.
  assert (Hl : forall m, m ∈ l -> least_other w1 m (if bool_decide (mm = Some m) then nt else mt)).
  { intros m Hm. apply find_min_spec; rewrite ?Et1; done. }
  destruct (extend_timeouts_spec mt nt mm l w1 Hnd) as (w' & msgs & E & Et & Ek & Hx & Es).
  { intros m Hm. destruct (Hl m Hm) as [[_ ->]|(k & Hk & _ & -> & _)]; apply Hclk; [done..|]. by rewrite Et1 in Hk. }
  exists w', msgs. split.
  - unfold handle_trsync_state. rewrite Ed, Z.eqb_refl. cbn [negb].
    rewrite (truthy_nonzero _ Hct), (truthy_nonzero _ Hst). cbn [negb].
    rewrite (bind_ret _ _ _ _ _ En), Em. rewrite Et1. exact E.
  - split; [congruence|]. split; [done|]. split; [|by rewrite <- Es1]. intros m Hm. eexists. split; [by apply Hl|by apply Hx].
Qed.

(** C37: The signed comparison that keeps a timeout from moving back is lost: the
    difference is converted to [int64_t] but compared with an unsigned number.
    When the limit computed for a micro-controller is before its present
    timeout, the timeout is moved back and a message with the earlier clock is
    sent, whatever [min_extend_ticks] is. *)
Theorem trdispatch_timeout_moves_back t m w clock :
  clock_from_time (td_ce (tdms w m)) t = Some clock ->
  let expire := u64 (clock + expire_ticks (tdms w m)) in
  0 <= expire_clock (tdms w m) <= 0xffffffffffffffff -> expire < expire_clock (tdms w m) ->
  expire_clock (tdms w m) - expire <= 0x8000000000000000 ->
  0 <= min_extend_ticks (tdms w m) <= 0x7fffffffffffffff ->
  exists w', extend_timeout t m w = Ret tt w' /\ expire_clock (tdms w' m) = expire /\
    sqs w' = sent [(dest (tdms w m), timeout_message (tdms w' m))] (sqs w).
Proof.
  intros Ec expire He Hlt Hd Hmin. destruct (extend_timeout_spec t m w clock Ec) as (w' & msgs & E & _ & _ & (c & Ec' & Hx) & Es).
  exists w'. split; [exact E|]. rewrite Ec in Ec'. injection Ec' as <-. cbv zeta in Hx. fold expire in Hx.
  rewrite (proj2 (Z.leb_le _ _)) in Hx by (assert (0 <= expire <= 0xffffffffffffffff) by (unfold expire; word); word).
  destruct Hx as [-> ->]. done.
Qed.

(** *** Two micro-controllers *)

Definition wit_ce : clock_estimate := mk_clock_estimate 0 (of_Z 0) (of_Z 1000000).
Definition wit_sq : serialqueue := serialqueue_set_clock_est (of_Z 1000000) (of_Z 0) 0 (serialqueue_alloc 3 4 SQT_UART 0).
Definition wit_relay0 : relay :=
  trdispatch_mcu_setup 2 5000000 5250000 250000 60000 (trdispatch_mcu_setup 1 5000000 5250000 250000 60000
    (trdispatch_mcu_alloc 2 20 21 3 11 12 10 (trdispatch_mcu_alloc 1 10 11 3 11 12 10
      (mk_relay trdispatch_alloc (fun _ => mk_trdispatch_mcu [] 0 0 0 0 0 0 0 0 0 wit_ce) (fun _ => wit_sq))))).
Definition wit_relay : relay := trdispatch_start 4 wit_relay0.
Definition wit_report (can_trigger clock : Z) : list Z :=
  frame 0x11 (concat (encode_int <$> [10; 3; can_trigger; 0; clock])).
Definition wit_noted : relay := final (note_status 1 (lit 521 100) 5200000 wit_relay).

Lemma wit_members m : m ∈ tdm_list (td wit_relay0) -> m = 1 \/ m = 2.
Proof. change (tdm_list (td wit_relay0)) with [1; 2]. set_solver. Qed.

Lemma wit_mcus : mcus_ok (fun _ => 10) wit_relay0.
Proof.
  split.
  - change (NoDup [1; 2]). repeat constructor; set_solver.
  - intros _. lia.
  - by intros m [->| ->]%wit_members.
  - by intros m [->| ->]%wit_members.
  - by intros m m' [->| ->]%wit_members [->| ->]%wit_members.
Qed.

Lemma trdispatch_timeouts_bounded_witness : exists w',
  handle_trsync_state 1 (lit 521 100) (wit_report 1 5200000) wit_relay = Ret tt w' /\ td w' = td wit_relay.
Proof.
  destruct (trdispatch_timeouts_bounded wit_relay wit_noted 1 (lit 521 100) (wit_report 1 5200000) 10 1 0 5200000)
    as (w' & msgs & E & Et & _).
  - by vm_compute.
  - by vm_compute.
  - done.
  - change (NoDup [1; 2]). repeat constructor; set_solver.
  - apply result_ret. by vm_compute.
  - by intros m [->| ->]%wit_members; vm_compute.
  - intros m k [->| ->]%wit_members [->| ->]%wit_members; vm_compute; by eexists.
  - exists w'. split; [exact E|exact Et].
Defined.

Lemma trdispatch_relays_once_witness :
  td (final (handle_reports [(1, lit 521 100, wit_report 1 5200000); (2, lit 522 100, wit_report 0 5210000)] wit_relay))
  = (td wit_relay) <| can_trigger := 0 |>.
Proof.
  refine (proj1 (trdispatch_relays_once [(1, lit 521 100, wit_report 1 5200000); (2, lit 522 100, wit_report 0 5210000)]
    wit_relay _ _ _)); [by vm_compute|]. apply result_ret. by vm_compute.
Defined.

Lemma trigger_report_relayed_witness :
  can_trigger (td wit_relay) = 1 /\ exists w',
  receive_message (fun _ => of_Z 5) 20 (lit 521 100) (wit_report 0 5200000) wit_relay = Ret tt w' /\ can_trigger (td w') = 0.
Proof.
  destruct (trigger_report_relayed (fun _ => 10) (fun _ => of_Z 5) 4 wit_relay0 2 0x11 0 5200000 (lit 521 100))
    as (H1 & w' & E & Ht & _); [apply wit_mcus|done|done|by right; left|lia|lia|by vm_compute; left|].
  split; [exact H1|]. exists w'. split; [exact E|exact Ht].
Defined.

Lemma trdispatch_timeout_moves_back_witness : exists w',
  extend_timeout (lit 499 100) 1 wit_relay = Ret tt w' /\ expire_clock (tdms w' 1) = 5240000.
Proof.
  destruct (trdispatch_timeout_moves_back (lit 499 100) 1 wit_relay 4990000) as (w' & E & He & _);
    [by vm_compute|by vm_compute..|]. exists w'. split; [exact E|exact He].
Defined.
