(* ===== verification/Steppersync.v ===== *)
(** * Stepper synchronisation (klippy/chelper/steppersync.c)

    A [syncemitter] makes the messages of one stepper, in a thread of its own; a
    [steppersync] merges the messages for one micro-controller and tracks when
    the entries of its move queue become free; the [steppersyncmgr] runs all of
    them.  The move queue entries are a binary heap of the clocks at which they
    become free. *)

From S2P Require Import Prelude Double Numeric Trapq Msgblock Stepcompress Itersolve Pollreactor Serialqueue.

(** A [struct syncemitter].  A step compressor keeps a pointer to the emitter's
    message queue: with a compressor the queue is the one in it, without one it
    is [own_queue].  [P] is the container of the kinematics. *)
Record syncemitter (P : Type) := mk_syncemitter {
  own_queue : list queue_message;
  se_sc : option stepcompress;
  se_sk : option (stepper_kinematics double P);
  have_work : Z;
  bg_gen_steps_time : double;
  bg_flush_clock : Z;
  bg_clear_history_clock : Z;
  bg_result : Z }.
Arguments mk_syncemitter {P}. Arguments own_queue {P}. Arguments se_sc {P}. Arguments se_sk {P}.
Arguments have_work {P}. Arguments bg_gen_steps_time {P}. Arguments bg_flush_clock {P}.
Arguments bg_clear_history_clock {P}. Arguments bg_result {P}.
#[export] Instance eta_syncemitter P : Eta (syncemitter P) := fun e =>
  mk_syncemitter (own_queue e) (se_sc e) (se_sk e) (have_work e) (bg_gen_steps_time e) (bg_flush_clock e)
    (bg_clear_history_clock e) (bg_result e).

(** A [struct steppersync]: [ss_sq], [ss_cq] and [se_list] are addresses;
    [num_move_clocks] is the length of [move_clocks]. *)
Record steppersync := mk_steppersync {
  ss_sq : Z;
  ss_cq : Z;
  se_list : list Z;
  ss_ce : clock_estimate;
  move_clocks : list Z }.
#[export] Instance eta_steppersync : Eta steppersync := fun s =>
  mk_steppersync (ss_sq s) (ss_cq s) (se_list s) (ss_ce s) (move_clocks s).

(** The host's memory: the manager's list, and the objects by address. *)
Record host (P : Type) := mk_host {
  ss_list : list Z;
  syncs : Z -> steppersync;
  emitters : Z -> syncemitter P;
  trapqs : Z -> trapq double;
  serials : Z -> serialqueue }.
Arguments mk_host {P}. Arguments ss_list {P}. Arguments syncs {P}. Arguments emitters {P}.
Arguments trapqs {P}. Arguments serials {P}.
#[export] Instance eta_host P : Eta (host P) := fun h =>
  mk_host (ss_list h) (syncs h) (emitters h) (trapqs h) (serials h).

Section steppersync.
Context {P : Type}.
Implicit Types (se : syncemitter P) (h : host P).

(** ** Message generation for each stepper *)

Definition se_msg_queue se : list queue_message :=
  match se_sc se with Some sc => msg_queue sc | None => own_queue se end.
Definition se_set_msg_queue (q : list queue_message) se : syncemitter P :=
  match se_sc se with
  | Some sc => se <| se_sc := Some (sc <| msg_queue := q |>) |>
  | None => se <| own_queue := q |>
  end.

Definition syncemitter_get_stepcompress se : option stepcompress := se_sc se.
Definition syncemitter_set_stepper_kinematics (sk : option (stepper_kinematics double P)) se : syncemitter P :=
  se <| se_sk := sk |>.
Definition syncemitter_get_stepper_kinematics se : option (stepper_kinematics double P) := se_sk se.

Definition syncemitter_queue_msg (req_clock : Z) (data : list Z) se : syncemitter P :=
  se_set_msg_queue (se_msg_queue se ++ [encode_message data req_clock req_clock]) se.

(** [fuel] bounds the rounds of the solver's searches. *)
Definition se_generate_steps (fuel : nat) (tqs : Z -> trapq double) : M (syncemitter P) Z := fun se =>
  match se_sc se, se_sk se with
  | Some sc, Some sk =>
    let store (w : solver double P stepcompress) :=
      se <| se_sc := Some (i_sc w) |> <| se_sk := Some (i_sk w) |> in
    match itersolve_generate_steps fuel tqs (bg_gen_steps_time se) (mk_solver sk sc) with
    | Ret r w =>
      if truthy r then Ret r (store w) else
      match stepcompress_flush (bg_flush_clock se) (i_sc w) with
      | Ret r sc =>
        if truthy r then Ret r (store (w <| i_sc := sc |>)) else
        Ret 0 (store (w <| i_sc := stepcompress_history_expire (bg_clear_history_clock se) sc |>))
      | Halt msg sc => Halt msg (store (w <| i_sc := sc |>))
      | Crash sc => Crash (store (w <| i_sc := sc |>))
      end
    | Halt msg w => Halt msg (store w)
    | Crash w => Crash (store w)
    end
  | _, _ => Ret 0 se
  end.

(** One turn of [se_background_thread] while it holds the lock: it waits, exits,
    or serves a request. *)
Inductive bg_turn : Type := BgWait | BgExit | BgServed.
Definition se_background_turn (fuel : nat) (tqs : Z -> trapq double) : M (syncemitter P) bg_turn := fun se =>
  if have_work se =? 0 then Ret BgWait se
  else if have_work se <? 0 then Ret BgExit se
  else (r <- se_generate_steps fuel tqs;;
        modify (fun se => se <| bg_result := r |> <| have_work := 0 |>);;; ret BgServed) se.

(** One attempt of [se_start_gen_steps]; [None] is waiting for the background
    thread. *)
Definition se_start_gen_steps (gen_steps_time : double) (flush_clock clear_history_clock : Z) se
    : option (syncemitter P) :=
  match se_sc se, se_sk se with
  | Some _, Some _ =>
    if truthy (have_work se) then None else
    Some (se <| bg_gen_steps_time := gen_steps_time |> <| bg_flush_clock := flush_clock |>
             <| bg_clear_history_clock := clear_history_clock |> <| have_work := 1 |>)
  | _, _ => Some se
  end.

(** One attempt of [se_finalize_gen_steps]. *)
Definition se_finalize_gen_steps se : option Z :=
  match se_sc se, se_sk se with
  | Some _, Some _ => if truthy (have_work se) then None else Some (bg_result se)
  | _, _ => Some 0
  end.

Definition syncemitter_alloc (alloc_stepcompress : bool) : syncemitter P :=
  mk_syncemitter [] (if alloc_stepcompress then Some stepcompress_alloc else None) None 0 (of_Z 0) 0 0 0.

(** One attempt of [syncemitter_free] to stop the thread. *)
Definition se_request_exit se : option (syncemitter P) :=
  match se_sc se with
  | Some _ => if truthy (have_work se) then None else Some (se <| have_work := -1 |>)
  | None => Some se
  end.

(** ** The move queue of a micro-controller *)

Definition steppersync_alloc_syncemitter (ss : Z) (se : Z) (alloc_stepcompress : bool) h : host P :=
  h <| emitters ::= <[se := syncemitter_alloc alloc_stepcompress]> |>
    <| syncs ::= fun m => <[ss := (m ss) <| se_list ::= fun l => l ++ [se] |>]> m |>.

(** [cq] is the address of the new command queue. *)
Definition steppersync_setup_movequeue (ss sq cq : Z) (move_num : nat) h : host P :=
  h <| serials ::= fun m => <[sq := (m sq) <| command_queues ::= <[cq := serialqueue_alloc_commandqueue]> |>]> m |>
    <| syncs ::= fun m => <[ss := (m ss) <| ss_sq := sq |> <| ss_cq := cq |>
                                         <| move_clocks := replicate move_num 0 |>]> m |>.

Definition se_set_time (time_offset mcu_freq : double) se : syncemitter P :=
  match se_sc se with
  | Some sc => se <| se_sc := Some (stepcompress_set_time time_offset mcu_freq sc) |>
  | None => se
  end.
Definition steppersync_set_time (ss : Z) (time_offset mcu_freq : double) h : host P :=
  let h := h <| syncs ::= fun m => <[ss := (m ss) <| ss_ce := clock_fill mcu_freq time_offset 0 |>]> m |> in
  foldl (fun h (se : Z) => h <| emitters ::= fun m => <[se := se_set_time time_offset mcu_freq (m se)]> m |>)
    h (se_list (syncs h ss)).

(** [mc[pos]], or [UINT64_MAX] past the end. *)
Definition child_clock (mc : list Z) (pos : nat) : Z := default UINT64_MAX (mc !! pos).
(** The loop of [heap_replace]; [None] is a store past the end of the array. *)
Fixpoint heap_replace_loop (fuel : nat) (mc : list Z) (pos : nat) (req_clock : Z) : option (list Z) :=
  match fuel with
  | O => None
  | S fuel =>
    let child1_pos := (2 * pos + 1)%nat in
    let child2_pos := (2 * pos + 2)%nat in
    let child2_clock := child_clock mc child2_pos in
    let child1_clock := child_clock mc child1_pos in
    if negb (pos <? length mc)%nat then None else
    if (req_clock <=? child1_clock) && (req_clock <=? child2_clock) then Some (<[pos := req_clock]> mc)
    else if child1_clock <? child2_clock
    then heap_replace_loop fuel (<[pos := child1_clock]> mc) child1_pos req_clock
    else heap_replace_loop fuel (<[pos := child2_clock]> mc) child2_pos req_clock
  end.
(** Every round goes down a level of the heap. *)
Definition heap_replace (req_clock : Z) (mc : list Z) : option (list Z) :=
  heap_replace_loop (S (length mc)) mc 0 req_clock.

(** The message with the lowest [req_clock] below [req_clock], with its emitter. *)
Fixpoint find_lowest (h : host P) (l : list Z) (req_clock : Z) (qm : option (Z * queue_message))
    : option (Z * queue_message) :=
  match l with
  | [] => qm
  | se :: l =>
    match se_msg_queue (emitters h se) with
    | m :: _ => if qm_req_clock m <? req_clock then find_lowest h l (qm_req_clock m) (Some (se, m))
                else find_lowest h l req_clock qm
    | [] => find_lowest h l req_clock qm
    end
  end.

(** The [for] loop of [steppersync_flush]: the batch of messages. *)
Fixpoint flush_loop (fuel : nat) (ss : Z) (move_clock : Z) (msgs : list queue_message)
    : M (host P) (list queue_message) := fun h =>
  match fuel with
  | O => Crash h
  | S fuel =>
    match find_lowest h (se_list (syncs h ss)) MAX_CLOCK None with
    | None => Ret msgs h
    | Some (se, qm) =>
      if truthy (qm_min_clock qm) && (move_clock <? qm_req_clock qm) then Ret msgs h else
      match move_clocks (syncs h ss) !! 0%nat with
      | None => Crash h
      | Some next_avail =>
        match (if truthy (qm_min_clock qm) then heap_replace (qm_min_clock qm) (move_clocks (syncs h ss))
               else Some (move_clocks (syncs h ss))) with
        | None => Crash h
        | Some mc =>
          let h := h <| syncs ::= fun m => <[ss := (m ss) <| move_clocks := mc |>]> m |>
                     <| emitters ::= fun m =>
                          <[se := se_set_msg_queue (tail (se_msg_queue (m se))) (m se)]> m |> in
          flush_loop fuel ss move_clock (msgs ++ [qm <| qm_min_clock := next_avail |>]) h
        end
      end
    end
  end.

(** The messages waiting in the emitters of [ss]. *)
Definition waiting h (ss : Z) : nat :=
  sum_list ((fun se : Z => length (se_msg_queue (emitters h se))) <$> se_list (syncs h ss)).

Definition steppersync_flush (ss : Z) (move_clock : Z) : M (host P) unit := fun h =>
  (msgs <- flush_loop (S (waiting h ss)) ss move_clock [];;
   when negb (bool_decide (msgs = [])) then modify (fun h =>
     h <| serials ::= fun m =>
       let s := syncs h ss in <[ss_sq s := serialqueue_send_batch (ss_cq s) msgs (m (ss_sq s))]> m |>)) h.

(** ** The manager *)

Definition steppersyncmgr_alloc_steppersync (ss : Z) h : host P :=
  h <| syncs ::= <[ss := mk_steppersync 0 0 [] (clock_fill (of_Z 0) (of_Z 0) 0) []]> |>
    <| ss_list ::= fun l => l ++ [ss] |>.

(** "Prepare trapqs for step generation" *)
Definition prepare_trapq (se : Z) h : host P :=
  match se_sc (emitters h se), se_sk (emitters h se) with
  | Some _, Some sk =>
    let tq := itersolve_get_trapq sk in
    if tq =? 0 then h else h <| trapqs ::= fun m => <[tq := trapq_check_sentinels (m tq)]> m |>
  | _, _ => h
  end.
Definition prepare_trapqs h : host P :=
  foldl (fun h ss => foldl (fun h (se : Z) => prepare_trapq se h) h (se_list (syncs h ss))) h (ss_list h).

(** What the loops of [steppersyncmgr_gen_steps] do, in order: requests to the
    threads, waits for their results, and the transmission of each
    micro-controller's messages. *)
Inductive action : Type :=
| Start (se : Z) (gen_steps_time : double) (flush_clock clear_clock : Z)
| Finalize (se : Z)
| Flush (ss : Z) (flush_clock : Z).

(** [None] is a clock that does not fit [int64_t]. *)
Fixpoint start_actions h (l : list Z) (flush_time gen_steps_time clear_history_time : double)
    : option (list action) :=
  match l with
  | [] => Some []
  | ss :: l =>
    let s := syncs h ss in
    flush_clock ← clock_from_time (ss_ce s) flush_time;
    clear_clock ← clock_from_time (ss_ce s) clear_history_time;
    rest ← start_actions h l flush_time gen_steps_time clear_history_time;
    Some (((fun se : Z => Start se gen_steps_time flush_clock clear_clock) <$> se_list s) ++ rest)
  end.
Fixpoint finalize_actions h (l : list Z) (flush_time : double) : option (list action) :=
  match l with
  | [] => Some []
  | ss :: l =>
    let s := syncs h ss in
    flush_clock ← clock_from_time (ss_ce s) flush_time;
    rest ← finalize_actions h l flush_time;
    Some ((Finalize <$> se_list s) ++ [Flush ss flush_clock] ++ rest)
  end.
Definition gen_steps_actions h (flush_time gen_steps_time clear_history_time : double) : option (list action) :=
  starts ← start_actions h (ss_list h) flush_time gen_steps_time clear_history_time;
  rest ← finalize_actions h (ss_list h) flush_time;
  Some (starts ++ rest).

(** One attempt of the main thread at an action: the new [failed_se] (0 for
    NULL), or waiting for a thread. *)
Definition main_action (a : action) (failed : Z) : M (host P) (option Z) := fun h =>
  match a with
  | Start se gt fc cc =>
    match se_start_gen_steps gt fc cc (emitters h se) with
    | Some e => Ret (Some failed) (h <| emitters ::= <[se := e]> |>)
    | None => Ret None h
    end
  | Finalize se =>
    match se_finalize_gen_steps (emitters h se) with
    | Some r => Ret (Some (if truthy r then se else failed)) h
    | None => Ret None h
    end
  | Flush ss clock =>
    if truthy failed then Ret (Some failed) h
    else (steppersync_flush ss clock;;; ret (Some failed)) h
  end.

(** The request of an emitter served, if it has one; a request that does not
    come to an end stays. *)
Definition served (fuel : nat) (tqs : Z -> trapq double) se : syncemitter P :=
  match se_background_turn fuel tqs se with
  | Ret _ se' => se'
  | _ => se
  end.

(** The manager with each request served at once. *)
Fixpoint run_actions (fuel : nat) (l : list action) (failed : Z) : M (host P) Z := fun h =>
  match l with
  | [] => Ret failed h
  | a :: l =>
    match main_action a failed h with
    | Ret (Some failed) h =>
      let h := match a with
               | Start se _ _ _ => h <| emitters ::= fun m => <[se := served fuel (trapqs h) (m se)]> m |>
               | _ => h
               end in
      run_actions fuel l failed h
    | Ret None h => Crash h
    | Halt msg h => Halt msg h
    | Crash h => Crash h
    end
  end.

(** The failed emitter, 0 for NULL. *)
Definition steppersyncmgr_gen_steps (fuel : nat) (flush_time gen_steps_time clear_history_time : double)
    : M (host P) Z := fun h =>
  let h := prepare_trapqs h in
  match gen_steps_actions h flush_time gen_steps_time clear_history_time with
  | None => Crash h
  | Some l => run_actions fuel l 0 h
  end.

(** ** Main thread and background threads

    The threads take turns under the locks of the emitters: a step is an action
    of the main thread that does not wait, or the service of one request. *)

Inductive threads : Type := Running (l : list action) (failed : Z) (h : host P) | Broken.

Inductive thread_step (fuel : nat) : threads -> threads -> Prop :=
| main_step a l failed failed' h h' :
  main_action a failed h = Ret (Some failed') h' -> thread_step fuel (Running (a :: l) failed h) (Running l failed' h')
| main_broken a l failed h :
  returned (main_action a failed h) = false -> thread_step fuel (Running (a :: l) failed h) Broken
| bg_step (se : Z) l failed h e :
  se_background_turn fuel (trapqs h) (emitters h se) = Ret BgServed e ->
  thread_step fuel (Running l failed h) (Running l failed (h <| emitters ::= <[se := e]> |>))
| bg_broken (se : Z) l failed h :
  returned (se_background_turn fuel (trapqs h) (emitters h se)) = false -> thread_step fuel (Running l failed h) Broken.
End steppersync.
