(* ===== verification/MoveQueue.v ===== *)
(** * The move queue never overflows

    Correctness of the heap of [Steppersync] and of the messages that
    [steppersync_flush] sends: in order, complete, and never more moves than the
    micro-controller has room for. *)

From stdpp Require Import sorting.
From S2P Require Import Prelude Double Numeric Trapq Msgblock Stepcompress Itersolve Pollreactor Serialqueue Steppersync.

(** ** The heap *)

Definition heap (mc : list Z) : Prop :=
  forall p i x y, (i = 2 * p + 1 \/ i = 2 * p + 2)%nat -> mc !! p = Some x -> mc !! i = Some y -> x <= y.
Definition clocks (mc : list Z) : Prop := Forall (fun c => 0 <= c <= UINT64_MAX) mc.

Lemma heap_root mc r : heap mc -> mc !! 0%nat = Some r -> Forall (fun c => r <= c) mc.
Proof.
  intros Hh Hr. apply Forall_lookup. intros i. induction (lt_wf i) as [i _ IH]. intros c Hc.
  destruct i as [|i]; [rewrite Hr in Hc; injection Hc as <-; lia|].
  destruct (lookup_lt_is_Some_2 mc (i / 2)) as [x Hx].
  { apply lookup_lt_Some in Hc. assert (i / 2 <= i)%nat by (apply Nat.Div0.div_le_upper_bound; lia). lia. }
  assert (Hi : (S i = 2 * (i / 2) + 1 \/ S i = 2 * (i / 2) + 2)%nat).
  { pose proof (Nat.div_mod_eq i 2). pose proof (Nat.mod_upper_bound i 2). lia. }
  assert (i / 2 < S i)%nat by lia.
  pose proof (IH (i / 2)%nat ltac:(lia) x Hx). pose proof (Hh _ _ _ _ Hi Hx Hc). lia.
Qed.

(** Moving an element into the hole and the hole into its place. *)
Lemma insert_swap {A} (l : list A) i j c r :
  l !! j = Some c -> (i < length l)%nat -> i <> j -> <[j := r]> (<[i := c]> l) ≡ₚ <[i := r]> l.
Proof.
  intros Hj Hi Hne. apply Permutation_inj. split; [by rewrite !length_insert|].
  exists (fun k => if decide (k = i) then j else if decide (k = j) then i else k). split.
  { intros a b. repeat case_decide; congruence. }
  intros k. apply lookup_lt_Some in Hj as Hjl. repeat case_decide; subst.
  - by rewrite list_lookup_insert_ne, !list_lookup_insert_eq, list_lookup_insert_ne by done.
  - by rewrite !list_lookup_insert_eq by (by rewrite ?length_insert).
  - by rewrite !list_lookup_insert_ne by done.
Qed.

(** The array with a hole at [pos], whose place is between its parent and its
    children. *)
Record heap_hole (mc : list Z) (pos : nat) (req : Z) : Prop := {
  hh_pairs : forall p i x y, (i = 2 * p + 1 \/ i = 2 * p + 2)%nat -> p <> pos -> i <> pos ->
    mc !! p = Some x -> mc !! i = Some y -> x <= y;
  hh_parent : forall q x, (pos = 2 * q + 1 \/ pos = 2 * q + 2)%nat -> mc !! q = Some x ->
    x <= req /\ forall i y, (i = 2 * pos + 1 \/ i = 2 * pos + 2)%nat -> mc !! i = Some y -> x <= y }.

Lemma child_clock_max mc i : clocks mc -> child_clock mc i <= UINT64_MAX.
Proof.
  intros Hc. unfold child_clock. destruct (mc !! i) eqn:E; cbn; [|lia].
  eapply Forall_lookup_1 in E; [|exact Hc]. cbn in E. lia.
Qed.

Lemma child_clock_lt mc i : child_clock mc i < UINT64_MAX -> mc !! i = Some (child_clock mc i).
Proof. unfold child_clock. destruct (mc !! i); cbn; [done|lia]. Qed.

Lemma heap_fill mc pos req :
  heap_hole mc pos req -> (pos < length mc)%nat ->
  req <= child_clock mc (2 * pos + 1) -> req <= child_clock mc (2 * pos + 2) -> heap (<[pos := req]> mc).
Proof.
  intros [H1 H2] Hp Hc1 Hc2 p i x y Hi Hx Hy.
  destruct (decide (p = pos)) as [->|Hpp].
  - rewrite list_lookup_insert_eq in Hx by done. injection Hx as <-.
    rewrite list_lookup_insert_ne in Hy by lia. unfold child_clock in *.
    destruct Hi as [->| ->]; [rewrite Hy in Hc1|rewrite Hy in Hc2]; done.
  - rewrite list_lookup_insert_ne in Hx by done. destruct (decide (i = pos)) as [->|Hip].
    + rewrite list_lookup_insert_eq in Hy by done. injection Hy as <-. by apply (H2 p).
    + rewrite list_lookup_insert_ne in Hy by done. by apply (H1 p i).
Qed.

(** Moving the lower child up. *)
Lemma heap_hole_down mc pos c req child :
  heap_hole mc pos req -> (pos < length mc)%nat -> mc !! child = Some c -> c <= req ->
  (child = 2 * pos + 1 \/ child = 2 * pos + 2)%nat ->
  (forall i y, (i = 2 * pos + 1 \/ i = 2 * pos + 2)%nat -> mc !! i = Some y -> c <= y) ->
  heap_hole (<[pos := c]> mc) child req.
Proof.
  intros [H1 H2] Hp Hc Hreq Hch Hlow. split.
  - intros p i x y Hi Hpc Hic Hx Hy. destruct (decide (p = pos)) as [->|Hpp].
    + rewrite list_lookup_insert_eq in Hx by done. injection Hx as <-.
      rewrite list_lookup_insert_ne in Hy by lia. by apply (Hlow i).
    + rewrite list_lookup_insert_ne in Hx by done. destruct (decide (i = pos)) as [->|Hip].
      * rewrite list_lookup_insert_eq in Hy by done. injection Hy as <-.
        destruct (H2 p x Hi Hx) as [_ Hx2]. by apply (Hx2 child).
      * rewrite list_lookup_insert_ne in Hy by done. by apply (H1 p i).
  - intros q x Hq Hx. assert (q = pos) as -> by lia.
    rewrite list_lookup_insert_eq in Hx by done. injection Hx as <-. split; [done|].
    intros i y Hi Hy. rewrite list_lookup_insert_ne in Hy by lia. by apply (H1 child i c y); [|lia|lia|..].
Qed.

Lemma heap_replace_loop_spec fuel mc pos req :
  clocks mc -> 0 <= req <= UINT64_MAX -> heap_hole mc pos req -> (pos < length mc < fuel + pos)%nat ->
  exists mc', heap_replace_loop fuel mc pos req = Some mc' /\ heap mc' /\ mc' ≡ₚ <[pos := req]> mc.
Proof.
  revert mc pos. induction fuel as [|fuel IH]; intros mc pos Hc Hr Hh Hp; [lia|].
  cbn [heap_replace_loop]. destruct (Nat.ltb_spec pos (length mc)) as [_|]; [|lia]. cbn [negb].
  set (c1 := child_clock mc (2 * pos + 1)). set (c2 := child_clock mc (2 * pos + 2)).
  assert (Hm1 : c1 <= UINT64_MAX) by (by apply child_clock_max).
  assert (Hm2 : c2 <= UINT64_MAX) by (by apply child_clock_max).
  destruct ((req <=? c1) && (req <=? c2)) eqn:Eb.
  { apply andb_true_iff in Eb as [E1 E2]. exists (<[pos := req]> mc). split; [done|]. split; [|done].
    apply heap_fill; [done|lia|fold c1; lia|fold c2; lia]. }
  apply andb_false_iff in Eb.
  assert (Hdown : forall child c, (child = 2 * pos + 1 \/ child = 2 * pos + 2)%nat -> c = child_clock mc child ->
    c < req -> c <= c1 -> c <= c2 ->
    exists mc', heap_replace_loop fuel (<[pos := c]> mc) child req = Some mc' /\ heap mc' /\ mc' ≡ₚ <[pos := req]> mc).
  { intros child c Hch -> Hlt Hle1 Hle2.
    assert (Hl : mc !! child = Some (child_clock mc child)) by (apply child_clock_lt; lia).
    pose proof (lookup_lt_Some _ _ _ Hl) as Hlen.
    destruct (IH (<[pos := child_clock mc child]> mc) child) as (mc' & E & Hheap & Hperm).
    - apply Forall_insert; [done|]. eapply Forall_lookup_1 in Hl; [|exact Hc]. exact Hl.
    - done.
    - apply heap_hole_down; auto; [lia|lia|]. intros i y Hi Hy. unfold c1, c2, child_clock in *.
      destruct Hi as [->| ->]; rewrite Hy in *; cbn in *; lia.
    - rewrite length_insert. lia.
    - exists mc'. split; [done|]. split; [done|]. rewrite Hperm. apply insert_swap; [done|lia|lia]. }
  destruct (Z.ltb_spec c1 c2); (apply Hdown; [lia|done|lia|lia|lia]).
Qed.

(** Replacing the lowest clock: the array stays a heap, of the same clocks but
    for the one replaced. *)
Lemma heap_replace_spec r rest req :
  clocks (r :: rest) -> 0 <= req <= UINT64_MAX -> heap (r :: rest) ->
  exists mc', heap_replace req (r :: rest) = Some mc' /\ heap mc' /\ mc' ≡ₚ req :: rest /\ clocks mc'.
Proof.
  intros Hc Hr Hh.
  destruct (heap_replace_loop_spec (S (length (r :: rest))) (r :: rest) 0 req) as (mc' & E & Hh' & Hp); auto.
  - split; [intros; by apply (Hh p i)|]. intros q x Hq. lia.
  - cbn. lia.
  - cbn in Hp. exists mc'. split_and!; [done..|]. unfold clocks. rewrite Hp. inversion_clear Hc. by constructor.
Qed.

(** ** Use of the move queue

    Every message sent gets the lowest clock [s] of the heap as its earliest
    transmission; one that takes an entry of the move queue until clock [c]
    (other messages have [c] = 0) replaces that clock by [c]. *)

Inductive takes : list Z -> list (Z * Z) -> list Z -> Prop :=
| takes_nil mc : takes mc [] mc
| takes_move mc mc1 mc' c s l :
  c <> 0 -> mc !! 0%nat = Some s -> heap_replace c mc = Some mc1 -> takes mc1 l mc' -> takes mc ((c, s) :: l) mc'
| takes_other mc mc' s l : mc !! 0%nat = Some s -> takes mc l mc' -> takes mc ((0, s) :: l) mc'.

Lemma takes_app mc l1 mc1 l2 mc2 : takes mc l1 mc1 -> takes mc1 l2 mc2 -> takes mc (l1 ++ l2) mc2.
Proof. induction 1; intros; cbn; eauto using takes. Qed.

Lemma takes_app_inv mc l1 l2 mc2 : takes mc (l1 ++ l2) mc2 -> exists mc1, takes mc l1 mc1 /\ takes mc1 l2 mc2.
Proof.
  revert mc. induction l1 as [|[c s] l1 IH]; intros mc H; cbn in *; [eauto using takes|].
  inversion H; subst.
  - destruct (IH _ ltac:(eassumption)) as (mc1' & ? & ?). eauto using takes.
  - destruct (IH _ ltac:(eassumption)) as (mc1' & ? & ?). eauto using takes.
Qed.

Definition moves_of (l : list (Z * Z)) : list (Z * Z) := filter (fun x => x.1 <> 0) l.

Definition logged_clocks (l : list (Z * Z)) : Prop := Forall (fun x => 0 <= x.1 <= UINT64_MAX) l.

(** The clocks of the heap and those that were handed out are the initial ones
    and those of the moves. *)
Lemma takes_clocks mc l mc' :
  takes mc l mc' -> heap mc -> clocks mc -> logged_clocks l ->
  heap mc' /\ clocks mc' /\ mc' ++ (moves_of l).*2 ≡ₚ mc ++ (moves_of l).*1.
Proof.
  induction 1 as [mc|mc mc1 mc' c s l Hc Hs Hr Ht IH|mc mc' s l Hs Ht IH]; intros Hh Hk Hl.
  - done.
  - inversion_clear Hl as [|? ? Hc1 Hl']. destruct mc as [|r rest]; [done|]. cbn in Hs. injection Hs as ->.
    destruct (heap_replace_spec s rest c Hk Hc1 Hh) as (mc2 & E & Hh1 & Hp & Hk1).
    rewrite Hr in E. injection E as <-. destruct (IH Hh1 Hk1 Hl') as (Hh2 & Hk2 & Hp2). split_and!; [done..|].
    unfold moves_of in *. rewrite filter_cons_True by done. cbn.
    rewrite <- Permutation_middle, Hp2, Hp. cbn. by rewrite <- (Permutation_middle rest).
  - inversion_clear Hl as [|? ? Hc1 Hl']. destruct (IH Hh Hk Hl') as (Hh2 & Hk2 & Hp2). split_and!; [done..|].
    unfold moves_of in *. by rewrite filter_cons_False by (cbn; tauto).
Qed.

(** How many clocks are after [t]. *)
Definition after (t : Z) (l : list Z) : nat := length (filter (fun c => t < c) l).

#[global] Instance after_perm t : Proper ((≡ₚ) ==> eq) (after t).
Proof. intros l1 l2 H. unfold after. by rewrite H. Qed.
Lemma after_app t l1 l2 : after t (l1 ++ l2) = (after t l1 + after t l2)%nat.
Proof. unfold after. by rewrite filter_app, length_app. Qed.
Lemma after_none t l : Forall (fun c => c <= t) l -> after t l = 0%nat.
Proof. intros H. unfold after. rewrite filter_none; [done|]. eapply Forall_impl; [exact H|]. cbn. lia. Qed.
Lemma after_le t l : (after t l <= length l)%nat.
Proof. apply length_filter. Qed.
Lemma after_all t l : Forall (fun c => t < c) l -> after t l = length l.
Proof. unfold after. induction 1 as [|c l Hc Hl IH]; [done|]. rewrite filter_cons_True by done. cbn. by rewrite IH. Qed.

Lemma replicate_heap n : heap (replicate n 0) /\ clocks (replicate n 0).
Proof.
  split.
  - intros p i x y _ Hx Hy. apply lookup_replicate in Hx as [-> _], Hy as [-> _]. lia.
  - apply Forall_replicate. unfold UINT64_MAX. lia.
Qed.

Lemma takes_length mc l mc' : takes mc l mc' -> heap mc -> clocks mc -> logged_clocks l -> length mc' = length mc.
Proof.
  intros H Hh Hk Hl. destruct (takes_clocks _ _ _ H Hh Hk Hl) as (_ & _ & Hp).
  apply Permutation_length in Hp. rewrite !length_app, !length_fmap in Hp. lia.
Qed.

(** A message that takes an entry, sent at [t] no earlier than it and the moves
    before it may be sent: fewer than [n] of the moves before it still have their
    entries at [t]; and at every clock before the one it was given, all [n]
    entries are taken. *)
Lemma takes_room n l c s mc' t :
  takes (replicate n 0) (l ++ [(c, s)]) mc' -> logged_clocks (l ++ [(c, s)]) -> 0 <= t ->
  Forall (fun x => x.2 <= t) (moves_of l) -> s <= t ->
  (after t (moves_of l).*1 < n)%nat /\ forall u, 0 <= u < s -> (n <= after u (moves_of l).*1)%nat.
Proof.
  intros H Hl Ht Hs Hst. apply takes_app_inv in H as (mc1 & H1 & H2). apply Forall_app in Hl as [Hl _].
  destruct (replicate_heap n) as [Hh Hk]. destruct (takes_clocks _ _ _ H1 Hh Hk Hl) as (Hh1 & Hk1 & Hp).
  pose proof (takes_length _ _ _ H1 Hh Hk Hl) as Hlen. rewrite length_replicate in Hlen.
  assert (Hroot : mc1 !! 0%nat = Some s) by (by inversion H2).
  assert (Hz : forall u, 0 <= u -> after u (replicate n 0) = 0%nat).
  { intros u Hu. apply after_none, Forall_replicate. lia. }
  assert (Hcount : forall u, 0 <= u ->
    after u (moves_of l).*1 = (after u mc1 + after u (moves_of l).*2)%nat).
  { intros u Hu. apply (after_perm u) in Hp. rewrite !after_app, Hz in Hp by done. lia. }
  split.
  - rewrite Hcount, (after_none t (_.*2)) by (done || by apply Forall_fmap).
    destruct mc1 as [|r rest]; [done|]. cbn in Hroot. injection Hroot as ->. cbn in Hlen.
    unfold after. rewrite filter_cons_False by lia. pose proof (after_le t rest). unfold after in *. lia.
  - intros u Hu. rewrite Hcount by lia. rewrite (after_all u mc1); [lia|].
    eapply Forall_impl; [apply (heap_root mc1 s Hh1 Hroot)|]. cbn. lia.
Qed.

(** ** Sending the messages of a micro-controller *)

Section flush.
Context {P : Type} (ss : Z) (move_clock : Z).
Implicit Types h : host P.

Definition queue_of h (se : Z) : list queue_message := se_msg_queue (emitters h se).
Definition emitters_of h : list Z := se_list (syncs h ss).
Definition clocks_of h : list Z := move_clocks (syncs h ss).

(** A message leaves its emitter; the heap becomes [mc]. *)
Definition take_msg (se : Z) (mc : list Z) h : host P :=
  h <| syncs ::= fun m => <[ss := (m ss) <| move_clocks := mc |>]> m |>
    <| emitters ::= fun m => <[se := se_set_msg_queue (tail (se_msg_queue (m se))) (m se)]> m |>.

Lemma se_msg_queue_set (q : list queue_message) (e : syncemitter P) : se_msg_queue (se_set_msg_queue q e) = q.
Proof. unfold se_msg_queue, se_set_msg_queue. by destruct (se_sc e) eqn:E; cbn; rewrite ?E. Qed.

Lemma take_msg_queue se mc h se' :
  queue_of (take_msg se mc h) se' = if decide (se' = se) then tail (queue_of h se) else queue_of h se'.
Proof.
  unfold queue_of, take_msg. cbn. destruct (decide (se' = se)) as [->|Hne].
  - by rewrite fn_lookup_insert, se_msg_queue_set.
  - by rewrite fn_lookup_insert_ne by done.
Qed.
Lemma take_msg_emitters se mc h : emitters_of (take_msg se mc h) = emitters_of h.
Proof. unfold emitters_of, take_msg. cbn. by rewrite fn_lookup_insert. Qed.
Lemma take_msg_clocks se mc h : clocks_of (take_msg se mc h) = mc.
Proof. unfold clocks_of, take_msg. cbn. by rewrite fn_lookup_insert. Qed.

Lemma find_lowest_spec h l rc q0 :
  (find_lowest h l rc q0 = q0 /\ forall se m rest, se ∈ l -> queue_of h se = m :: rest -> rc <= qm_req_clock m) \/
  (exists se m rest, find_lowest h l rc q0 = Some (se, m) /\ se ∈ l /\ queue_of h se = m :: rest /\
     qm_req_clock m < rc /\
     forall se' m' rest', se' ∈ l -> queue_of h se' = m' :: rest' -> qm_req_clock m <= qm_req_clock m').
Proof.
  revert rc q0. induction l as [|a l IH]; intros rc q0; cbn [find_lowest].
  { left. split; [done|]. intros se m rest H. by apply not_elem_of_nil in H. }
  change (se_msg_queue (emitters h a)) with (queue_of h a).
  assert (Hskip : forall b q, (forall m rest, queue_of h a = m :: rest -> rc <= qm_req_clock m) ->
    b = rc -> q = q0 -> (find_lowest h l b q = q0 /\
      forall se m rest, se ∈ a :: l -> queue_of h se = m :: rest -> rc <= qm_req_clock m) \/
    (exists se m rest, find_lowest h l b q = Some (se, m) /\ se ∈ a :: l /\ queue_of h se = m :: rest /\
     qm_req_clock m < rc /\
     forall se' m' rest', se' ∈ a :: l -> queue_of h se' = m' :: rest' -> qm_req_clock m <= qm_req_clock m')).
  { intros b q Ha -> ->. destruct (IH rc q0) as [[E Hl]|(se & m & rest & E & Hin & Hq & Hlt & Hl)].
    - left. split; [done|]. intros se m rest [->|Hin]%elem_of_cons Hq; eauto.
    - right. exists se, m, rest. split_and!; [done|by constructor|done|done|].
      intros se' m' rest' [->|Hin']%elem_of_cons Hq'; [|eauto]. specialize (Ha _ _ Hq'). lia. }
  destruct (queue_of h a) as [|m0 rest0] eqn:Ea; [by apply Hskip|].
  destruct (Z.ltb_spec (qm_req_clock m0) rc) as [Hlt|Hge]; cycle 1.
  { apply Hskip; [|done..]. intros m rest E. injection E as <- <-. lia. }
  right. destruct (IH (qm_req_clock m0) (Some (a, m0))) as [[E Hl]|(se & m & rest & E & Hin & Hq & Hlt' & Hl)].
  - exists a, m0, rest0. split_and!; [done|by constructor|done|done|].
    intros se' m' rest' [->|Hin']%elem_of_cons Hq'; [|eauto]. rewrite Ea in Hq'. injection Hq' as <- <-. lia.
  - exists se, m, rest. split_and!; [done|by constructor|done|lia|].
    intros se' m' rest' [->|Hin']%elem_of_cons Hq'; [|eauto]. rewrite Ea in Hq'. injection Hq' as <- <-. lia.
Qed.

(** The messages a flush takes, in order: emitter, message as it was queued, and
    the clock it is given. *)
Inductive flush_run : host P -> list (Z * queue_message * Z) -> host P -> Prop :=
| flush_stop h : flush_run h [] h
| flush_take h h' se qm rest s mc l :
  se ∈ emitters_of h -> queue_of h se = qm :: rest ->
  (forall se' m' rest', se' ∈ emitters_of h -> queue_of h se' = m' :: rest' -> qm_req_clock qm <= qm_req_clock m') ->
  clocks_of h !! 0%nat = Some s ->
  (if truthy (qm_min_clock qm) then heap_replace (qm_min_clock qm) (clocks_of h) else Some (clocks_of h)) = Some mc ->
  flush_run (take_msg se mc h) l h' -> flush_run h ((se, qm, s) :: l) h'.

Definition mark (x : Z * queue_message * Z) : queue_message := x.1.2 <| qm_min_clock := x.2 |>.
Definition entry (x : Z * queue_message * Z) : Z * Z := (qm_min_clock x.1.2, x.2).
Definition from (se : Z) (l : list (Z * queue_message * Z)) : list queue_message :=
  (fun x => x.1.2) <$> filter (fun x => x.1.1 = se) l.

(** What is left when a flush ends: messages that are not due yet. *)
Definition flushed h : Prop :=
  forall se m rest, se ∈ emitters_of h -> queue_of h se = m :: rest -> Z.min MAX_CLOCK (move_clock + 1) <= qm_req_clock m.

(** The heap is in order and the clocks of the messages fit. *)
Record mq_ok h : Prop := {
  mo_heap : heap (clocks_of h);
  mo_clocks : clocks (clocks_of h);
  mo_room : clocks_of h <> [];
  mo_msgs : forall se, se ∈ emitters_of h -> Forall (fun m => 0 <= qm_min_clock m <= UINT64_MAX) (queue_of h se) }.

Lemma sum_list_smaller (f g : Z -> nat) l a :
  (forall x, f x <= g x)%nat -> a ∈ l -> (f a < g a)%nat -> (sum_list (f <$> l) < sum_list (g <$> l))%nat.
Proof.
  intros Hle Ha Hlt. assert (Hall : forall k, (sum_list (f <$> k) <= sum_list (g <$> k))%nat).
  { induction k as [|x k IH]; cbn; [lia|]. specialize (Hle x). lia. }
  induction l as [|x l IH]; [by apply not_elem_of_nil in Ha|]. cbn.
  apply elem_of_cons in Ha as [->|Ha]; [specialize (Hall l); lia|]. specialize (IH Ha). specialize (Hle x). lia.
Qed.

Lemma take_msg_waiting se mc h qm rest :
  se ∈ emitters_of h -> queue_of h se = qm :: rest -> (waiting (take_msg se mc h) ss < waiting h ss)%nat.
Proof.
  intros Hin Hq. unfold waiting. change (se_list (syncs (take_msg se mc h) ss)) with (emitters_of (take_msg se mc h)).
  rewrite take_msg_emitters. apply sum_list_smaller with se; [|done|].
  - intros x. change (length (queue_of (take_msg se mc h) x) <= length (queue_of h x))%nat. rewrite take_msg_queue.
    case_decide as E; [subst; rewrite Hq; cbn; lia|lia].
  - change (length (queue_of (take_msg se mc h) se) < length (queue_of h se))%nat. rewrite take_msg_queue.
    case_decide; [rewrite Hq; cbn; lia|done].
Qed.

Lemma take_msg_ok h se qm rest s :
  mq_ok h -> se ∈ emitters_of h -> queue_of h se = qm :: rest -> clocks_of h !! 0%nat = Some s ->
  exists mc, (if truthy (qm_min_clock qm) then heap_replace (qm_min_clock qm) (clocks_of h)
              else Some (clocks_of h)) = Some mc /\ mq_ok (take_msg se mc h).
Proof.
  intros [Hh Hk Hr Hm] Hin Hq Hs.
  assert (Hqm : 0 <= qm_min_clock qm <= UINT64_MAX).
  { specialize (Hm se Hin). rewrite Hq in Hm. by inversion Hm. }
  assert (Hrest : forall mc se', se' ∈ emitters_of (take_msg se mc h) ->
    Forall (fun m => 0 <= qm_min_clock m <= UINT64_MAX) (queue_of (take_msg se mc h) se')).
  { intros mc se' Hin'. rewrite take_msg_emitters in Hin'. rewrite take_msg_queue. case_decide; [|by apply Hm].
    specialize (Hm se Hin). rewrite Hq in *. by inversion Hm. }
  destruct (truthy (qm_min_clock qm)).
  - destruct (clocks_of h) as [|r rest'] eqn:Ec; [done|].
    destruct (heap_replace_spec r rest' (qm_min_clock qm) Hk Hqm Hh) as (mc & E & Hh' & Hp & Hk').
    exists mc. split; [done|]. split; rewrite ?take_msg_clocks; auto.
    intros ->. by apply Permutation_nil_cons in Hp.
  - exists (clocks_of h). split; [done|]. split; rewrite ?take_msg_clocks; auto.
Qed.

Lemma flush_loop_spec fuel msgs h :
  mq_ok h -> (waiting h ss < fuel)%nat ->
  exists l h', flush_loop fuel ss move_clock msgs h = Ret (msgs ++ (mark <$> l)) h' /\
    flush_run h l h' /\ flushed h' /\ mq_ok h'.
Proof.
  revert msgs h. induction fuel as [|fuel IH]; intros msgs h Hok Hf; [lia|]. cbn [flush_loop].
  change (se_list (syncs h ss)) with (emitters_of h). change (move_clocks (syncs h ss)) with (clocks_of h).
  destruct (find_lowest_spec h (emitters_of h) MAX_CLOCK None)
    as [[-> Hl]|(se & qm & rest & -> & Hin & Hq & Hlt & Hl)].
  { exists [], h. rewrite app_nil_r. split_and!; [done|constructor| |done].
    intros se m rest Hin Hq. specialize (Hl se m rest Hin Hq). lia. }
  destruct (truthy (qm_min_clock qm) && (move_clock <? qm_req_clock qm)) eqn:Estop.
  { apply andb_true_iff in Estop as [_ Hmv%Z.ltb_lt].
    exists [], h. rewrite app_nil_r. split_and!; [done|constructor| |done].
    intros se' m rest' Hin' Hq'. specialize (Hl se' m rest' Hin' Hq'). lia. }
  destruct (clocks_of h !! 0%nat) as [s|] eqn:Es; cycle 1.
  { exfalso. apply (mo_room _ Hok). apply lookup_ge_None in Es. by apply nil_length_inv; lia. }
  destruct (take_msg_ok h se qm rest s Hok Hin Hq Es) as (mc & Emc & Hok'). rewrite Emc.
  destruct (IH (msgs ++ [qm <| qm_min_clock := s |>]) (take_msg se mc h) Hok') as (l & h' & E & Hrun & Hfl & Hok2).
  { pose proof (take_msg_waiting se mc h qm rest Hin Hq). lia. }
  exists ((se, qm, s) :: l), h'. split_and!; [|by apply flush_take with rest mc|done|done].
  unfold take_msg in E. cbv zeta. rewrite E. by rewrite <- (assoc_L (++)).
Qed.

(** *** What a run does *)

Lemma flush_run_takes h l h' : flush_run h l h' -> takes (clocks_of h) (entry <$> l) (clocks_of h').
Proof.
  induction 1 as [h|h h' se qm rest s mc l Hin Hq Hlow Hs Hmc Hrun IH]; cbn; [constructor|].
  rewrite take_msg_clocks in IH. unfold entry at 1. cbn. unfold truthy in Hmc.
  destruct (Z.eqb_spec (qm_min_clock qm) 0) as [->|Hne]; cbn in Hmc.
  - injection Hmc as <-. by apply takes_other.
  - by apply takes_move with mc.
Qed.

Lemma flush_run_emitters h l h' : flush_run h l h' -> emitters_of h' = emitters_of h.
Proof. induction 1; [done|]. by rewrite IHflush_run, take_msg_emitters. Qed.

(** Each emitter's messages leave in order. *)
Lemma flush_run_queues h l h' se : flush_run h l h' -> queue_of h se = from se l ++ queue_of h' se.
Proof.
  induction 1 as [h|h h' se' qm rest s mc l Hin Hq Hlow Hs Hmc Hrun IH]; [done|].
  rewrite take_msg_queue in IH. unfold from in *. case_decide as E.
  - subst se'. rewrite filter_cons_True by done. cbn. rewrite Hq in *. cbn in IH. by f_equal.
  - rewrite filter_cons_False by (cbn; congruence). done.
Qed.

(** The messages of all emitters leave in the order of their clocks, if each
    emitter's messages are in that order. *)
Lemma flush_run_sorted h l h' :
  flush_run h l h' -> (forall se, se ∈ emitters_of h -> Sorted Z.le (qm_req_clock <$> queue_of h se)) ->
  Sorted Z.le ((fun x => qm_req_clock x.1.2) <$> l) /\
  forall b, (forall se m rest, se ∈ emitters_of h -> queue_of h se = m :: rest -> b <= qm_req_clock m) ->
  Forall (fun x => b <= qm_req_clock x.1.2) l.
Proof.
  induction 1 as [h|h h' se qm rest s mc l Hin Hq Hlow Hs Hmc Hrun IH]; intros Hso; [by split; constructor|].
  assert (Hso' : forall se', se' ∈ emitters_of (take_msg se mc h) ->
    Sorted Z.le (qm_req_clock <$> queue_of (take_msg se mc h) se')).
  { intros se' Hin'. rewrite take_msg_emitters in Hin'. rewrite take_msg_queue. case_decide; [|by apply Hso].
    specialize (Hso se Hin). rewrite Hq in *. cbn in *. by apply Sorted_inv in Hso as [? _]. }
  destruct (IH Hso') as [IH1 IH2].
  assert (Hnext : Forall (fun x => qm_req_clock qm <= qm_req_clock x.1.2) l).
  { apply IH2. intros se' m rest' Hin' Hq'. rewrite take_msg_emitters in Hin'. rewrite take_msg_queue in Hq'.
    case_decide as E; [|by apply (Hlow se' m rest')]. subst se'. specialize (Hso se Hin). rewrite Hq in *. cbn in *.
    subst rest. cbn in Hso. apply Sorted_inv in Hso as [_ Hh]. by inversion Hh. }
  split.
  - cbn. constructor; [done|]. destruct l as [|x l]; constructor. by inversion Hnext.
  - intros b Hb. constructor; [by apply (Hb se qm rest)|]. eapply Forall_impl; [exact Hnext|]. cbn.
    specialize (Hb se qm rest Hin Hq). lia.
Qed.

Lemma flush_run_rest h l h' :
  flush_run h l h' -> serials h' = serials h /\ ss_sq (syncs h' ss) = ss_sq (syncs h ss) /\
    ss_cq (syncs h' ss) = ss_cq (syncs h ss).
Proof.
  induction 1 as [h|h h' se qm rest s mc l Hin Hq Hlow Hs Hmc Hrun IH]; [done|].
  destruct IH as (-> & -> & ->). unfold take_msg. cbn. by rewrite fn_lookup_insert.
Qed.

(** The messages [l] that a call of [steppersync_flush] takes. *)
Definition sends h (l : list (Z * queue_message * Z)) h' : Prop :=
  steppersync_flush ss move_clock h = Ret tt h' /\
  exists h1, flush_loop (S (waiting h ss)) ss move_clock [] h = Ret (mark <$> l) h1 /\ flush_run h l h1 /\
    (forall se, queue_of h' se = queue_of h1 se) /\ syncs h' = syncs h1 /\
    serials h' = (if decide (l = []) then serials h else
      <[ss_sq (syncs h ss) := serialqueue_send_batch (ss_cq (syncs h ss)) (mark <$> l)
                                (serials h (ss_sq (syncs h ss)))]> (serials h)).

Lemma flush_sends h : mq_ok h -> exists l h', sends h l h' /\ flushed h' /\ mq_ok h'.
Proof.
  intros Hok. destruct (flush_loop_spec (S (waiting h ss)) [] h Hok ltac:(lia)) as (l & h1 & E & Hrun & Hfl & Hok1).
  destruct (flush_run_rest h l h1 Hrun) as (Hse & Hsq & Hcq). exists l.
  unfold sends, steppersync_flush. rewrite (bind_ret _ _ _ _ _ E). cbn [app].
  destruct l as [|x l].
  - exists h1. cbn. by split_and!; [|exists h1|..].
  - eexists. rewrite bool_decide_eq_false_2 by done. cbn [negb modify]. split; [split; [done|]|split].
    + exists h1. split; [exact E|]. split; [done|]. split; [done|]. split; [done|]. cbn. by rewrite Hse, Hsq, Hcq.
    + exact Hfl.
    + destruct Hok1. by split.
Qed.
End flush.

(** Everything sent to the move queue of [ss] since it was set up with [n]
    entries, through any number of flushes and whatever happens in between. *)
Inductive history {P} (ss : Z) (n : nat) : list (Z * queue_message * Z) -> host P -> Prop :=
| history_setup h sq cq : history ss n [] (steppersync_setup_movequeue ss sq cq n h)
| history_flush log h l h' move_clock :
  history ss n log h -> sends ss move_clock h l h' -> history ss n (log ++ l) h'
| history_other log h h' : history ss n log h -> clocks_of ss h' = clocks_of ss h -> history ss n log h'.

Lemma history_takes {P} ss n log (h : host P) :
  history ss n log h -> takes (replicate n 0) (entry <$> log) (clocks_of ss h).
Proof.
  induction 1 as [h sq cq|log h l h' mv Hh IH (_ & h1 & _ & Hrun & _ & Hs & _)|log h h' Hh IH Hc].
  - unfold clocks_of, steppersync_setup_movequeue. cbn. rewrite fn_lookup_insert. constructor.
  - rewrite fmap_app. eapply takes_app; [exact IH|]. unfold clocks_of at 2. rewrite Hs.
    exact (flush_run_takes ss h l h1 Hrun).
  - by rewrite Hc.
Qed.

(** C11: the move queue of a micro-controller never overflows.  Take any history of
    flushes since it was set up with [n] entries, and transmission clocks [T] that
    respect the order of the messages and the earliest clock each was given.  When
    a message that takes an entry is sent, fewer than [n] of the moves before it
    still have theirs; and the clock it was given is the earliest such, since at
    every earlier clock all [n] entries are taken. *)
Theorem move_queue_has_room {P} ss n log (h : host P) i se qm s (T : nat -> Z) :
  history ss n log h -> Forall (fun x => 0 <= qm_min_clock x.1.2 <= UINT64_MAX) log ->
  log !! i = Some (se, qm, s) -> 0 <= T i ->
  (forall j x, (j <= i)%nat -> log !! j = Some x -> x.2 <= T j <= T i) ->
  let freed := (moves_of (entry <$> take i log)).*1 in
  (after (T i) freed < n)%nat /\ forall u, 0 <= u < s -> (n <= after u freed)%nat.
Proof.
  intros Hh Hl Hi HT0 HT freed. apply history_takes in Hh.
  assert (Hsplit : log = take i log ++ [(se, qm, s)] ++ drop (S i) log) by (symmetry; by apply take_drop_middle).
  rewrite Hsplit, !fmap_app, (assoc_L (++)) in Hh. apply takes_app_inv in Hh as (mc1 & Hh & _).
  apply (takes_room n (entry <$> take i log) (qm_min_clock qm) s mc1 (T i)); auto.
  - rewrite Hsplit in Hl. apply Forall_app in Hl as [Hl1 [Hl2 _]%Forall_app]. apply Forall_app. split.
    + apply Forall_fmap. exact Hl1.
    + inversion_clear Hl2. by constructor.
  - apply Forall_forall. intros x [_ Hx]%list_elem_of_filter. apply list_elem_of_fmap in Hx as (y & -> & Hy).
    apply list_elem_of_lookup in Hy as [j Hj]. apply lookup_take_Some in Hj as [Hj Hji].
    cbn. specialize (HT j y ltac:(lia) Hj). lia.
  - specialize (HT i _ ltac:(lia) Hi). cbn in HT. lia.
Qed.

(** Sending the messages of a micro-controller.  [steppersync_flush] returns;
    the messages it takes leave each emitter in order, and go to the serial queue
    as one batch in the order of their clocks; what is left is not due before
    [move_clock]; the heap stays in order. *)
Theorem steppersync_flush_merges {P} ss move_clock (h : host P) :
  mq_ok ss h ->
  exists l h', sends ss move_clock h l h' /\ flushed ss move_clock h' /\ mq_ok ss h' /\
    (forall se, queue_of h se = from se l ++ queue_of h' se) /\
    ((forall se, se ∈ emitters_of ss h -> Sorted Z.le (qm_req_clock <$> queue_of h se)) ->
     Sorted Z.le ((fun x => qm_req_clock x.1.2) <$> l)).
Proof.
  intros Hok. destruct (flush_sends ss move_clock h Hok) as (l & h' & Hs & Hf & Hok').
  exists l, h'. split_and!; [done..| |].
  - intros se. destruct Hs as (_ & h1 & _ & Hrun & Hq & _). rewrite Hq. by apply flush_run_queues with ss.
  - intros Hso. destruct Hs as (_ & h1 & _ & Hrun & _). by apply (flush_run_sorted ss h l h1).
Qed.

(** *** An example

    A micro-controller with room for two moves, and one emitter with three. *)

Definition wit_msg (min_clock req_clock : Z) : queue_message :=
  message_alloc <| qm_msg := [1] |> <| qm_min_clock := min_clock |> <| qm_req_clock := req_clock |>.
Definition wit_emitter : syncemitter unit :=
  (syncemitter_alloc false) <| own_queue := [wit_msg 100 50; wit_msg 200 60; wit_msg 300 70] |>.
Definition wit_host0 : host unit :=
  mk_host [1] (fun _ => mk_steppersync 0 0 [7] (clock_fill (of_Z 0) (of_Z 0) 0) []) (fun _ => wit_emitter)
    (fun _ => trapq_alloc) (fun _ => serialqueue_alloc 3 4 SQT_UART 0).
Definition wit_host : host unit := steppersync_setup_movequeue 1 2 3 2 wit_host0.
Definition wit_log : list (Z * queue_message * Z) :=
  [(7, wit_msg 100 50, 0); (7, wit_msg 200 60, 0); (7, wit_msg 300 70, 100)].

(** The lowest message of the only emitter. *)
Ltac only_emitter :=
  intros se' m' rest' Hin Hq; change (se' ∈ [7]) in Hin; apply list_elem_of_singleton in Hin as ->;
  vm_compute in Hq; injection Hq as <- <-; cbn; lia.

Definition wit_host1 : host unit := final (flush_loop 4 1 1000 [] wit_host).
Definition wit_host2 : host unit := final (steppersync_flush 1 1000 wit_host).

Lemma wit_run : flush_run 1 wit_host wit_log wit_host1.
Proof.
  unfold wit_log.
  eapply (flush_take 1 wit_host _ 7); [constructor|reflexivity|only_emitter|reflexivity|reflexivity|].
  eapply flush_take; [constructor|reflexivity|only_emitter|reflexivity|reflexivity|].
  eapply flush_take; [constructor|reflexivity|only_emitter|reflexivity|reflexivity|].
  exact (flush_stop 1 wit_host1).
Qed.

Lemma wit_ok : mq_ok 1 wit_host.
Proof.
  split.
  - exact (proj1 (replicate_heap 2)).
  - exact (proj2 (replicate_heap 2)).
  - done.
  - intros se Hin. change (se ∈ [7]) in Hin. apply list_elem_of_singleton in Hin as ->.
    unfold UINT64_MAX. repeat constructor; cbn; lia.
Qed.

Lemma steppersync_flush_merges_witness :
  exists l h', sends 1 1000 wit_host l h' /\ flushed 1 1000 h' /\ mq_ok 1 h' /\
    (forall se, queue_of wit_host se = from se l ++ queue_of h' se) /\
    ((forall se, se ∈ emitters_of 1 wit_host -> Sorted Z.le (qm_req_clock <$> queue_of wit_host se)) ->
     Sorted Z.le ((fun x => qm_req_clock x.1.2) <$> l)).
Proof. exact (steppersync_flush_merges 1 1000 wit_host wit_ok). Defined.

Lemma wit_sends : sends 1 1000 wit_host wit_log wit_host2.
Proof.
  split; [apply result_ret; vm_compute; reflexivity|]. exists wit_host1. split_and!.
  - change (S (waiting wit_host 1)) with 4%nat. apply result_ret. vm_compute. reflexivity.
  - apply wit_run.
  - intros se. reflexivity.
  - reflexivity.
  - reflexivity.
Qed.

Lemma move_queue_has_room_witness :
  let freed := (moves_of (entry <$> take 2 wit_log)).*1 in
  (after 100 freed < 2)%nat /\ forall u, 0 <= u < 100 -> (2 <= after u freed)%nat.
Proof.
  apply (move_queue_has_room 1 2 wit_log wit_host2 2 7 (wit_msg 300 70) 100 (fun _ => 100)).
  - change wit_log with ([] ++ wit_log). eapply history_flush; [apply (history_setup 1 2 wit_host0 2 3)|apply wit_sends].
  - unfold UINT64_MAX. repeat constructor; cbn; lia.
  - reflexivity.
  - lia.
  - intros j x Hj Hx. do 3 (destruct j as [|j]; [injection Hx as <-; cbn; lia|]). lia.
Defined.
