(* ===== verification/StepThreads.v ===== *)
(** * Step generation in threads

    [steppersyncmgr_gen_steps] lets each stepper's thread generate its steps while
    the main thread goes on.  Whatever the order of their turns, the outcome is
    that of serving each request at once, and no thread waits for ever. *)

From Stdlib Require Import FunctionalExtensionality.
From S2P Require Import Prelude Double Numeric Trapq Msgblock Stepcompress Itersolve Pollreactor Serialqueue Steppersync.
From S2P Require Import MoveQueue.

Section threads.
Context {P : Type} (fuel : nat).
Implicit Types (e : syncemitter P) (h : host P).

(** ** Serving requests *)

Definition pending h (a : Z) : Prop := 0 < have_work (emitters h a).

Lemma served_idle tqs e : have_work e <= 0 -> served fuel tqs e = e.
Proof.
  intros H. unfold served, se_background_turn.
  destruct (Z.eqb_spec (have_work e) 0); [done|]. by destruct (Z.ltb_spec (have_work e) 0); [|lia].
Qed.

Lemma served_turn tqs e t e' : se_background_turn fuel tqs e = Ret t e' -> served fuel tqs e = e'.
Proof. intros H. unfold served. by rewrite H. Qed.

Lemma turn_idle tqs e t e' :
  se_background_turn fuel tqs e = Ret t e' -> (t = BgServed -> 0 < have_work e) /\ (0 < have_work e -> t = BgServed) /\
    have_work e' <= 0.
Proof.
  unfold se_background_turn. destruct (Z.eqb_spec (have_work e) 0) as [E|E].
  { intros [= <- <-]. split_and!; [done|lia|lia]. }
  destruct (Z.ltb_spec (have_work e) 0). { intros [= <- <-]. split_and!; [done|lia|lia]. }
  unfold bind. destruct (se_generate_steps fuel tqs e) as [r e1| |]; [|done..]. intros [= <- <-].
  split_and!; [lia|done|cbn; lia].
Qed.

Lemma served_twice tqs e : served fuel tqs (served fuel tqs e) = served fuel tqs e.
Proof.
  destruct (se_background_turn fuel tqs e) as [t e'|msg e'|e'] eqn:E.
  - rewrite (served_turn _ _ _ _ E). apply turn_idle in E as (_ & _ & H). by apply served_idle.
  - assert (Hs : served fuel tqs e = e) by (unfold served; by rewrite E). by rewrite !Hs.
  - assert (Hs : served fuel tqs e = e) by (unfold served; by rewrite E). by rewrite !Hs.
Qed.

(** Every request served. *)
Definition complete h : host P := h <| emitters := fun a => served fuel (trapqs h) (emitters h a) |>.

Lemma host_eq h1 h2 :
  ss_list h1 = ss_list h2 -> syncs h1 = syncs h2 -> (forall a, emitters h1 a = emitters h2 a) ->
  trapqs h1 = trapqs h2 -> serials h1 = serials h2 -> h1 = h2.
Proof.
  destruct h1, h2. cbn. intros -> -> He -> ->. f_equal. by apply functional_extensionality.
Qed.

Lemma complete_idle h : (forall a, ~ pending h a) -> complete h = h.
Proof.
  intros H. apply host_eq; try done. intros a. apply served_idle. specialize (H a). unfold pending in H. lia.
Qed.

Lemma complete_bg h se e :
  se_background_turn fuel (trapqs h) (emitters h se) = Ret BgServed e ->
  complete (h <| emitters ::= <[se := e]> |>) = complete h.
Proof.
  intros E. apply host_eq; try done. intros a. cbn. destruct (decide (a = se)) as [->|Hne].
  - rewrite fn_lookup_insert, (served_turn _ _ _ _ E). apply served_idle. by apply turn_idle in E as (_ & _ & ?).
  - by rewrite fn_lookup_insert_ne.
Qed.

(** ** Transmission does not depend on other emitters *)

Lemma have_work_set_queue q e : have_work (se_set_msg_queue q e) = have_work e.
Proof. unfold se_set_msg_queue. by destruct (se_sc e). Qed.

Lemma complete_take_msg ss se mc h :
  ~ pending h se -> complete (take_msg ss se mc h) = take_msg ss se mc (complete h).
Proof.
  intros Hp. unfold pending in Hp. apply host_eq; try done. intros a. unfold take_msg. cbn.
  destruct (decide (a = se)) as [->|Hne].
  - rewrite !fn_lookup_insert, (served_idle _ (emitters h se)) by lia.
    apply served_idle. rewrite have_work_set_queue. lia.
  - by rewrite !fn_lookup_insert_ne by done.
Qed.

Lemma find_lowest_complete h l rc q :
  (forall a, a ∈ l -> ~ pending h a) -> find_lowest (complete h) l rc q = find_lowest h l rc q.
Proof.
  revert rc q. induction l as [|a l IH]; intros rc q Hl; [done|]. cbn [find_lowest].
  assert (E : emitters (complete h) a = emitters h a).
  { apply served_idle. specialize (Hl a (list_elem_of_here _ _)). unfold pending in Hl. lia. }
  rewrite E. assert (Hl' : forall b, b ∈ l -> ~ pending h b) by (intros; apply Hl; by constructor).
  destruct (se_msg_queue (emitters h a)) as [|m rest]; [by apply IH|].
  destruct (_ <? _); by apply IH.
Qed.

Definition map_host {A} (f : host P -> host P) (o : outcome (host P) A) : outcome (host P) A :=
  match o with Ret a h => Ret a (f h) | Halt msg h => Halt msg (f h) | Crash h => Crash (f h) end.

Lemma flush_loop_complete n ss mv msgs h :
  (forall a, a ∈ se_list (syncs h ss) -> ~ pending h a) ->
  flush_loop n ss mv msgs (complete h) = map_host complete (flush_loop n ss mv msgs h).
Proof.
  revert msgs h. induction n as [|n IH]; intros msgs h Hp; [done|]. cbn [flush_loop].
  change (syncs (complete h)) with (syncs h). rewrite find_lowest_complete by done.
  destruct (find_lowest_spec h (se_list (syncs h ss)) MAX_CLOCK None)
    as [[-> _]|(se & qm & rest & -> & Hin & _)]; [done|].
  destruct (_ && _); [done|]. destruct (move_clocks (syncs h ss) !! 0%nat) as [s|]; [|done].
  destruct (if truthy (qm_min_clock qm) then _ else _) as [mc|]; [|done]. cbv zeta.
  change (flush_loop n ss mv (msgs ++ [qm <| qm_min_clock := s |>]) (take_msg ss se mc (complete h)) =
    map_host complete (flush_loop n ss mv (msgs ++ [qm <| qm_min_clock := s |>]) (take_msg ss se mc h))).
  rewrite <- complete_take_msg by (by apply Hp). apply IH.
  intros a Ha. change (a ∈ emitters_of ss (take_msg ss se mc h)) in Ha. rewrite take_msg_emitters in Ha.
  specialize (Hp a Ha). unfold pending, take_msg in *. cbn. destruct (decide (a = se)) as [->|Hne].
  - rewrite fn_lookup_insert, have_work_set_queue. done.
  - by rewrite fn_lookup_insert_ne.
Qed.

Lemma flush_complete ss mv h :
  (forall a, a ∈ se_list (syncs h ss) -> ~ pending h a) ->
  steppersync_flush ss mv (complete h) = map_host complete (steppersync_flush ss mv h).
Proof.
  intros Hp. unfold steppersync_flush.
  assert (Hw : waiting (complete h) ss = waiting h ss).
  { unfold waiting. change (syncs (complete h)) with (syncs h). f_equal. apply list_fmap_ext.
    intros i a Ha. cbn. rewrite served_idle; [done|]. apply list_elem_of_lookup_2 in Ha. specialize (Hp a Ha).
    unfold pending in Hp. lia. }
  rewrite Hw. unfold bind. rewrite flush_loop_complete by done.
  destruct (flush_loop _ ss mv [] h) as [msgs h1| |]; cbn; [|done..]. by destruct (negb _).
Qed.

(** *** What transmission leaves alone *)

Definition same_work h h' : Prop :=
  (forall a, have_work (emitters h' a) = have_work (emitters h a)) /\
  (forall a, is_Some (se_sc (emitters h' a)) <-> is_Some (se_sc (emitters h a))) /\
  (forall a, se_sk (emitters h' a) = se_sk (emitters h a)) /\
  (forall ss, se_list (syncs h' ss) = se_list (syncs h ss)).

Lemma same_work_refl h : same_work h h.
Proof. done. Qed.
Lemma same_work_trans h1 h2 h3 : same_work h1 h2 -> same_work h2 h3 -> same_work h1 h3.
Proof.
  intros (A1 & A2 & A3 & A4) (B1 & B2 & B3 & B4). split_and!; intros; [congruence| |congruence|congruence].
  by rewrite B2, A2.
Qed.

Lemma take_msg_work ss se mc h : same_work h (take_msg ss se mc h).
Proof.
  unfold take_msg, se_set_msg_queue. split_and!; intros a; cbn.
  1-3: destruct (decide (a = se)) as [->|Hne]; [rewrite fn_lookup_insert|by rewrite fn_lookup_insert_ne].
  1-3: by destruct (se_sc (emitters h se)) eqn:E; cbn; rewrite ?E.
  destruct (decide (a = ss)) as [->|Hne]; [by rewrite fn_lookup_insert|by rewrite fn_lookup_insert_ne].
Qed.

Lemma flush_loop_work n ss mv msgs h msgs' h' :
  flush_loop n ss mv msgs h = Ret msgs' h' -> same_work h h'.
Proof.
  revert msgs h. induction n as [|n IH]; intros msgs h E; [done|]. cbn [flush_loop] in E.
  destruct (find_lowest _ _ _ _) as [[se qm]|]; [|by injection E as _ <-].
  destruct (_ && _); [by injection E as _ <-|]. destruct (_ !! _) as [s|]; [|done].
  destruct (if truthy _ then _ else _) as [mc|]; [|done].
  apply (same_work_trans h (take_msg ss se mc h) h'); [apply take_msg_work|by apply IH in E].
Qed.

Lemma flush_work ss mv h h' : steppersync_flush ss mv h = Ret tt h' -> same_work h h'.
Proof.
  unfold steppersync_flush. intros (msgs & h1 & E & Ek)%bind_inv. apply flush_loop_work in E.
  destruct (negb _); [|by injection Ek as <-]. injection Ek as <-. done.
Qed.

(** ** The actions of a call *)

Definition is_start (a : action) : Prop := match a with Start _ _ _ _ => True | _ => False end.
Definition started (l : list action) (a : Z) : Prop := exists gt fc cc, Start a gt fc cc ∈ l.

(** [h] while the main thread still has the actions [starts] and then [rest]:
    who has a request or will get one is waited for before its messages are
    sent, and before the end. *)
Record calls_ok (starts rest : list action) h : Prop := {
  co_starts : Forall is_start starts;
  co_rest : Forall (fun a => ~ is_start a) rest;
  co_work : forall a, 0 <= have_work (emitters h a);
  co_able : forall a, pending h a -> is_Some (se_sc (emitters h a)) /\ is_Some (se_sk (emitters h a));
  co_end : forall a, pending h a \/ started starts a -> Finalize a ∈ rest;
  co_flush : forall p1 ss c p2 a, rest = p1 ++ Flush ss c :: p2 -> a ∈ se_list (syncs h ss) ->
    pending h a \/ started starts a -> Finalize a ∈ p1 }.

Lemma calls_ok_weaken starts starts' rest h h' :
  calls_ok starts rest h -> Forall is_start starts' ->
  (forall ss, se_list (syncs h' ss) = se_list (syncs h ss)) ->
  (forall a, 0 <= have_work (emitters h' a)) ->
  (forall a, pending h' a -> is_Some (se_sc (emitters h' a)) /\ is_Some (se_sk (emitters h' a))) ->
  (forall a, pending h' a \/ started starts' a -> pending h a \/ started starts a) ->
  calls_ok starts' rest h'.
Proof.
  intros [C1 C2 C3 C4 C5 C6] Hs Hl Hw Ha Hp. split; auto.
  intros p1 ss c p2 a E Hin Hpa. rewrite Hl in Hin. eauto.
Qed.

Lemma calls_ok_bg starts rest h se e :
  calls_ok starts rest h -> have_work e <= 0 -> 0 <= have_work e ->
  calls_ok starts rest (h <| emitters ::= <[se := e]> |>).
Proof.
  intros C He He'. apply calls_ok_weaken with starts h; auto; [apply C| | |].
  - intros a. cbn. destruct (decide (a = se)) as [->|]; [by rewrite fn_lookup_insert|rewrite fn_lookup_insert_ne by done; apply C].
  - intros a. unfold pending. cbn. destruct (decide (a = se)) as [->|].
    + rewrite fn_lookup_insert. lia.
    + rewrite fn_lookup_insert_ne by done. apply C.
  - intros a [Hp|Hs]; [left|by right]. unfold pending in *. cbn in Hp. destruct (decide (a = se)) as [->|].
    + rewrite fn_lookup_insert in Hp. lia.
    + by rewrite fn_lookup_insert_ne in Hp.
Qed.

Lemma start_cases gt fc cc e e' :
  se_start_gen_steps gt fc cc e = Some e' ->
  (e' = e /\ ~ (is_Some (se_sc e) /\ is_Some (se_sk e))) \/
  (have_work e = 0 /\ have_work e' = 1 /\ is_Some (se_sc e') /\ is_Some (se_sk e')).
Proof.
  unfold se_start_gen_steps. destruct (se_sc e) as [sc|] eqn:E1, (se_sk e) as [sk|] eqn:E2.
  - destruct (Z.eqb_spec (have_work e) 0) as [E|E]; unfold truthy.
    + rewrite E. cbn. intros [= <-]. right. cbn. rewrite E1, E2. by split_and!.
    + destruct (Z.eqb_spec (have_work e) 0); done.
  - intros [= <-]. left. split; [done|]. intros [_ [? ?]]. done.
  - intros [= <-]. left. split; [done|]. intros [[? ?] _]. done.
  - intros [= <-]. left. split; [done|]. intros [[? ?] _]. done.
Qed.

Lemma calls_ok_start se gt fc cc starts rest h e :
  calls_ok (Start se gt fc cc :: starts) rest h -> se_start_gen_steps gt fc cc (emitters h se) = Some e ->
  calls_ok starts rest (h <| emitters ::= <[se := e]> |>).
Proof.
  intros C E. assert (Hst : forall a, started starts a -> started (Start se gt fc cc :: starts) a).
  { intros a (gt' & fc' & cc' & H). exists gt', fc', cc'. by constructor. }
  assert (Hse : started (Start se gt fc cc :: starts) se) by (do 3 eexists; constructor).
  pose proof (co_starts _ _ _ C) as Hs. inversion_clear Hs.
  apply calls_ok_weaken with (Start se gt fc cc :: starts) h; auto.
  - intros a. cbn. destruct (decide (a = se)) as [->|]; [|rewrite fn_lookup_insert_ne by done; apply C].
    rewrite fn_lookup_insert. destruct (start_cases _ _ _ _ _ E) as [[-> _]|(_ & -> & _)]; [apply C|lia].
  - intros a. unfold pending. cbn. destruct (decide (a = se)) as [->|].
    + rewrite fn_lookup_insert. destruct (start_cases _ _ _ _ _ E) as [[-> _]|(_ & _ & ?)]; [apply C|done].
    + rewrite fn_lookup_insert_ne by done. apply C.
  - intros a [Hp|Ha]; [|auto]. unfold pending in *. cbn in Hp. destruct (decide (a = se)) as [->|]; [by right|].
    rewrite fn_lookup_insert_ne in Hp by done. by left.
Qed.

Lemma calls_ok_finalize se rest h r :
  calls_ok [] (Finalize se :: rest) h -> se_finalize_gen_steps (emitters h se) = Some r -> calls_ok [] rest h.
Proof.
  intros [C1 C2 C3 C4 C5 C6] E.
  assert (Hn : ~ pending h se).
  { intros Hp. destruct (C4 se Hp) as [[sc E1] [sk E2]]. unfold se_finalize_gen_steps in E. rewrite E1, E2 in E.
    unfold truthy, pending in *. destruct (Z.eqb_spec (have_work (emitters h se)) 0); [lia|done]. }
  assert (Hno : forall a, ~ started [] a) by (intros a (gt & fc & cc & H); by apply not_elem_of_nil in H).
  inversion_clear C2. split; auto.
  - intros a [Hp|Hs]; [|by apply Hno in Hs]. specialize (C5 a (or_introl Hp)).
    apply elem_of_cons in C5 as [[= ->]|]; [by apply Hn in Hp|done].
  - intros p1 ss c p2 a -> Hin [Hp|Hs]; [|by apply Hno in Hs].
    specialize (C6 (Finalize se :: p1) ss c p2 a eq_refl Hin (or_introl Hp)).
    apply elem_of_cons in C6 as [[= ->]|]; [by apply Hn in Hp|done].
Qed.

Lemma calls_ok_flush ss c rest h h' :
  calls_ok [] (Flush ss c :: rest) h -> same_work h h' -> calls_ok [] rest h'.
Proof.
  intros [C1 C2 C3 C4 C5 C6] (W1 & W2 & W3 & W4). inversion_clear C2.
  assert (Hp : forall a, pending h' a <-> pending h a) by (intros a; unfold pending; by rewrite W1).
  split; auto.
  - intros a. by rewrite W1.
  - intros a. rewrite Hp, W2, W3. apply C4.
  - intros a Ha. rewrite Hp in Ha. specialize (C5 a Ha). by apply elem_of_cons in C5 as [|].
  - intros p1 ss' c' p2 a -> Hin Ha. rewrite Hp in Ha. rewrite W4 in Hin.
    specialize (C6 (Flush ss c :: p1) ss' c' p2 a eq_refl Hin Ha). by apply elem_of_cons in C6 as [|].
Qed.

(** ** Every order of turns gives the same result *)

Definition state_ok (s : threads) : Prop :=
  match s with
  | Running l _ h => exists starts rest, l = starts ++ rest /\ calls_ok starts rest h
  | Broken => True
  end.

(** What the threads will come to, with the requests served first. *)
Definition comes_to (s : threads) : option (outcome (host P) Z) :=
  match s with Running l failed h => Some (run_actions fuel l failed (complete h)) | Broken => None end.

Lemma served_kind tqs e :
  ~ (is_Some (se_sc e) /\ is_Some (se_sk e)) ->
  ~ (is_Some (se_sc (served fuel tqs e)) /\ is_Some (se_sk (served fuel tqs e))).
Proof.
  intros H. unfold served, se_background_turn. destruct (_ =? _); [done|]. destruct (_ <? _); [done|].
  unfold bind, se_generate_steps. destruct (se_sc e) eqn:E1, (se_sk e) eqn:E2; cbn; rewrite ?E1, ?E2; try done.
  by exfalso; apply H.
Qed.

Lemma start_none gt fc cc e :
  ~ (is_Some (se_sc e) /\ is_Some (se_sk e)) -> se_start_gen_steps gt fc cc e = Some e.
Proof.
  unfold se_start_gen_steps. intros H. destruct (se_sc e), (se_sk e); try done. by exfalso; apply H.
Qed.
Lemma finalize_none e : ~ (is_Some (se_sc e) /\ is_Some (se_sk e)) -> se_finalize_gen_steps e = Some 0.
Proof.
  unfold se_finalize_gen_steps. intros H. destruct (se_sc e), (se_sk e); try done. by exfalso; apply H.
Qed.

Lemma run_start se gt fc cc l failed h e :
  se_start_gen_steps gt fc cc (emitters h se) = Some e ->
  run_actions fuel (Start se gt fc cc :: l) failed (complete h)
  = run_actions fuel l failed (complete (h <| emitters ::= <[se := e]> |>)).
Proof.
  intros E. cbn [run_actions main_action]. change (emitters (complete h) se) with (served fuel (trapqs h) (emitters h se)).
  destruct (start_cases _ _ _ _ _ E) as [[-> Hn]|(Hw & _)].
  - rewrite start_none by (by apply served_kind). cbv beta iota zeta. f_equal. apply host_eq; try done.
    intros a. cbn. destruct (decide (a = se)) as [->|]; [|by rewrite !fn_lookup_insert_ne by done].
    by rewrite !fn_lookup_insert, served_twice.
  - rewrite served_idle, E by lia. cbv beta iota zeta. f_equal. apply host_eq; try done.
    intros a. cbn. destruct (decide (a = se)) as [->|]; [|by rewrite !fn_lookup_insert_ne by done].
    by rewrite !fn_lookup_insert.
Qed.

Lemma run_finalize se l failed h r :
  (forall a, 0 <= have_work (emitters h a)) ->
  se_finalize_gen_steps (emitters h se) = Some r ->
  run_actions fuel (Finalize se :: l) failed (complete h)
  = run_actions fuel l (if truthy r then se else failed) (complete h).
Proof.
  intros Hw E. cbn [run_actions main_action]. change (emitters (complete h) se) with (served fuel (trapqs h) (emitters h se)).
  destruct (se_sc (emitters h se)) as [sc|] eqn:E1; [destruct (se_sk (emitters h se)) as [sk|] eqn:E2|].
  - assert (Hh : have_work (emitters h se) = 0).
    { unfold se_finalize_gen_steps in E. rewrite E1, E2 in E. unfold truthy in E.
      by destruct (Z.eqb_spec (have_work (emitters h se)) 0). }
    by rewrite served_idle, E by lia.
  - assert (Hn : ~ (is_Some (se_sc (emitters h se)) /\ is_Some (se_sk (emitters h se))))
      by (rewrite E2; intros [_ [? ?]]; done).
    rewrite finalize_none in E by done. injection E as <-. by rewrite finalize_none by (by apply served_kind).
  - assert (Hn : ~ (is_Some (se_sc (emitters h se)) /\ is_Some (se_sk (emitters h se))))
      by (rewrite E1; intros [[? ?] _]; done).
    rewrite finalize_none in E by done. injection E as <-. by rewrite finalize_none by (by apply served_kind).
Qed.

Lemma run_flush ss c l failed failed' h h' :
  (forall a, a ∈ se_list (syncs h ss) -> ~ pending h a) ->
  main_action (Flush ss c) failed h = Ret (Some failed') h' ->
  run_actions fuel (Flush ss c :: l) failed (complete h) = run_actions fuel l failed' (complete h').
Proof.
  intros Hp E. cbn [run_actions main_action] in *. destruct (truthy failed); [by injection E as <- <-|].
  unfold bind in *. rewrite flush_complete by done.
  destruct (steppersync_flush ss c h) as [[] h1| |]; [|done..]. by injection E as <- <-.
Qed.

Lemma thread_step_ok s s' :
  state_ok s -> thread_step fuel s s' -> state_ok s' /\ (s' <> Broken -> comes_to s = comes_to s').
Proof.
  intros Hs Hst. destruct Hst as [a l failed failed' h h' E|a l failed h E|se l failed h e E|se l failed h E].
  - destruct Hs as ([|b starts] & rest & El & C); cbn in El; subst.
    + destruct a as [se gt fc cc|se|ss c].
      * exfalso. pose proof (co_rest _ _ _ C) as Hr. inversion Hr. by apply H1.
      * cbn [main_action] in E. destruct (se_finalize_gen_steps _) as [r|] eqn:Er; [|done]. injection E as <- <-.
        split; [exists [], l; split; [done|by apply calls_ok_finalize with se r]|].
        intros _. cbn [comes_to]. f_equal. by apply run_finalize; [apply C|].
      * split.
        { exists [], l. split; [done|]. apply calls_ok_flush with ss c h; [done|]. cbn [main_action] in E.
          destruct (truthy failed); [by injection E as <- <-|]. apply bind_inv in E as ([] & h1 & E & Ek).
          injection Ek as _ <-. by apply flush_work in E. }
        intros _. cbn [comes_to]. f_equal. apply run_flush; [|done].
        intros a Ha Hp. pose proof (co_flush _ _ _ C [] ss c l a eq_refl Ha (or_introl Hp)) as Hx.
        by apply not_elem_of_nil in Hx.
    + injection El as -> ->. pose proof (co_starts _ _ _ C) as Hb. inversion Hb as [|? ? Hb1 _]; subst.
      destruct b as [se gt fc cc| |]; [|done..]. cbn [main_action] in E.
      destruct (se_start_gen_steps _ _ _ _) as [e|] eqn:Ee; [|done]. injection E as <- <-. split.
      * exists starts, rest. split; [done|]. by apply calls_ok_start with gt fc cc.
      * intros _. cbn [comes_to]. f_equal. by apply run_start.
  - done.
  - destruct Hs as (starts & rest & -> & C). apply turn_idle in E as Hi. destruct Hi as (Hi1 & _ & Hi2).
    split; [|intros _; cbn [comes_to]; by rewrite complete_bg].
    exists starts, rest. split; [done|]. apply calls_ok_bg; auto. 
    unfold se_background_turn in E. destruct (_ =? _); [done|]. destruct (_ <? _); [done|].
    apply bind_inv in E as (r & e1 & _ & Ek). by injection Ek as <-.
  - done.
Qed.

(** *** The start of a call *)

Lemma start_actions_spec h l ft gt ct starts :
  start_actions h l ft gt ct = Some starts ->
  Forall is_start starts /\ forall a, started starts a -> exists ss, ss ∈ l /\ a ∈ se_list (syncs h ss).
Proof.
  revert starts. induction l as [|ss l IH]; intros starts E; cbn in E.
  { injection E as <-. split; [constructor|]. intros a (? & ? & ? & H). by apply not_elem_of_nil in H. }
  destruct (clock_from_time _ ft) as [fc|]; [|done]. destruct (clock_from_time _ ct) as [cc|]; [|done]. cbn in E.
  destruct (start_actions h l ft gt ct) as [rest|]; [|done]. injection E as <-.
  destruct (IH rest eq_refl) as [H1 H2]. split.
  - apply Forall_app. split; [|done]. apply Forall_fmap, Forall_forall. done.
  - intros a (g & f & c & [H|H]%elem_of_app).
    + apply list_elem_of_fmap in H as (b & [= -> -> -> ->] & Hb). exists ss. split; [constructor|done].
    + destruct (H2 a) as (ss' & ? & ?); [by exists g, f, c|]. exists ss'. by split; [constructor|].
Qed.

Lemma finalize_actions_spec h l ft rest :
  finalize_actions h l ft = Some rest ->
  Forall (fun a => ~ is_start a) rest /\
  (forall ss a, ss ∈ l -> a ∈ se_list (syncs h ss) -> Finalize a ∈ rest) /\
  (forall p1 ss c p2 a, rest = p1 ++ Flush ss c :: p2 -> a ∈ se_list (syncs h ss) -> Finalize a ∈ p1).
Proof.
  revert rest. induction l as [|ss l IH]; intros rest E; cbn in E.
  { injection E as <-. split_and!; [constructor| |].
    - intros ss a H. by apply not_elem_of_nil in H.
    - intros p1 ss c p2 a H. by destruct p1. }
  destruct (clock_from_time _ ft) as [fc|]; [|done]. cbn in E.
  destruct (finalize_actions h l ft) as [rest'|]; [|done]. injection E as <-.
  destruct (IH rest' eq_refl) as (H1 & H2 & H3).
  assert (Hf : forall a, a ∈ se_list (syncs h ss) -> Finalize a ∈ Finalize <$> se_list (syncs h ss)).
  { intros a Ha. by apply list_elem_of_fmap_2. }
  split_and!.
  - apply Forall_app. split; [apply Forall_fmap, Forall_forall; auto|]. by constructor; [cbn; auto|].
  - intros ss' a [->|Hin]%elem_of_cons Ha; apply elem_of_app; [left; auto|right]. constructor. by apply (H2 ss').
  - intros p1 ss' c p2 a E Ha. apply app_eq_inv in E as [(k & Ek & E)|(k & -> & E)].
    + destruct k as [|x k]; cbn in E; [rewrite app_nil_r in Ek; injection E as -> _ _; rewrite <- Ek; auto|].
      exfalso. injection E as <- _. assert (Hx : Flush ss' c ∈ Finalize <$> se_list (syncs h ss)).
      { rewrite Ek. apply elem_of_app. right. constructor. }
      by apply list_elem_of_fmap in Hx as (b & ? & _).
    + destruct k as [|x k]; cbn in E; [injection E as -> _ _; rewrite app_nil_r; auto|].
      injection E as <- E. apply elem_of_app. right. constructor. by apply (H3 k ss' c p2).
Qed.

Definition idle h : Prop := forall a, have_work (emitters h a) = 0.

Lemma gen_steps_state_ok h ft gt ct l :
  idle h -> gen_steps_actions h ft gt ct = Some l -> state_ok (Running l 0 h).
Proof.
  intros Hi E. unfold gen_steps_actions in E.
  destruct (start_actions h (ss_list h) ft gt ct) as [starts|] eqn:Es; [|done]. cbn in E.
  destruct (finalize_actions h (ss_list h) ft) as [rest|] eqn:Er; [|done]. injection E as <-.
  destruct (start_actions_spec _ _ _ _ _ _ Es) as [S1 S2]. destruct (finalize_actions_spec _ _ _ _ Er) as (F1 & F2 & F3).
  assert (Hp : forall a, ~ pending h a) by (intros a; unfold pending; rewrite Hi; lia).
  exists starts, rest. split; [done|]. split; auto.
  - intros a. by rewrite Hi.
  - intros a H. by apply Hp in H.
  - intros a [H|H]; [by apply Hp in H|]. destruct (S2 a H) as (ss & Hss & Ha). by apply (F2 ss).
  - intros p1 ss c p2 a E Ha _. by apply (F3 p1 ss c p2).
Qed.

(** *** Every run ends *)

#[local] Instance pending_dec h a : Decision (pending h a).
Proof. unfold pending. apply _. Defined.

(** Actions count twice: a request is served once. *)
Definition measure (D : list Z) (s : threads) : nat :=
  match s with
  | Running l _ h => S (2 * length l + length (filter (pending h) D))
  | Broken => 0
  end.

Lemma filter_one_more (p q : Z -> Prop) `{!forall x, Decision (p x), !forall x, Decision (q x)} (D : list Z) se :
  NoDup D -> (forall a, q a -> p a \/ a = se) -> (length (filter q D) <= S (length (filter p D)))%nat.
Proof.
  intros Hd Hq.
  assert (Hle : forall D, se ∉ D -> (length (filter q D) <= length (filter p D))%nat).
  { induction D0 as [|a D0 IH]; intros Ha; [done|]. rewrite not_elem_of_cons in Ha. specialize (IH ltac:(tauto)).
    destruct (decide (q a)) as [Hqa|Hqa].
    - rewrite (filter_cons_True q), (filter_cons_True p) by (done || by destruct (Hq a Hqa) as [?|Ea]; [|subst; tauto]).
      cbn. lia.
    - rewrite (filter_cons_False q) by done. destruct (decide (p a)).
      + rewrite (filter_cons_True p) by done. cbn. lia.
      + by rewrite (filter_cons_False p). }
  induction Hd as [|a D Ha Hd IH]; [cbn; lia|]. destruct (decide (a = se)) as [->|Hne].
  - specialize (Hle D Ha). rewrite !filter_cons. destruct (decide (q se)), (decide (p se)); cbn; lia.
  - rewrite !filter_cons. destruct (decide (q a)) as [Hqa|], (decide (p a)); cbn; try lia.
    by destruct (Hq a Hqa).
Qed.

Lemma filter_one_less (p q : Z -> Prop) `{!forall x, Decision (p x), !forall x, Decision (q x)} (D : list Z) se :
  (forall a, q a -> p a) -> p se -> ~ q se -> se ∈ D -> (length (filter q D) < length (filter p D))%nat.
Proof.
  intros Hqp Hp Hq.
  assert (Hle : forall D, (length (filter q D) <= length (filter p D))%nat).
  { induction D0 as [|a D0 IH]; [done|]. rewrite !filter_cons.
    destruct (decide (q a)) as [Hqa|], (decide (p a)); cbn; try lia. by apply Hqp in Hqa. }
  induction D as [|a D IH]; intros Hin; [by apply not_elem_of_nil in Hin|].
  apply elem_of_cons in Hin as [->|Hin].
  - rewrite (filter_cons_True p), (filter_cons_False q) by done. specialize (Hle D). cbn. lia.
  - specialize (IH Hin). rewrite !filter_cons. destruct (decide (q a)) as [Hqa|], (decide (p a)); cbn; try lia.
    by apply Hqp in Hqa.
Qed.

Definition waits_in (D : list Z) (s : threads (P := P)) : Prop :=
  match s with Running l _ _ => forall a, Finalize a ∈ l -> a ∈ D | Broken => True end.

Lemma thread_step_measure D s s' :
  NoDup D -> state_ok s -> waits_in D s -> thread_step fuel s s' ->
  waits_in D s' /\ (measure D s' < measure D s)%nat.
Proof.
  intros HD Hs Hw Hst. destruct Hst as [a l failed failed' h h' E|a l failed h E|se l failed h e E|se l failed h E];
    [| split; [done|cbn; lia] | | split; [done|cbn; lia]].
  - split; [intros b Hb; apply Hw; by constructor|]. cbn [measure length].
    assert (Hx : exists se, forall b, pending h' b -> pending h b \/ b = se).
    { destruct a as [se gt fc cc|se|ss c]; cbn [main_action] in E.
      - destruct (se_start_gen_steps _ _ _ _) as [e|]; [|done]. injection E as _ <-. exists se. intros b.
        unfold pending. cbn. destruct (decide (b = se)) as [->|]; [by right|]. rewrite fn_lookup_insert_ne by done. by left.
      - destruct (se_finalize_gen_steps _) as [r|]; [|done]. injection E as _ <-. exists 0. by left.
      - exists 0. destruct (truthy failed); [injection E as _ <-; by left|].
        apply bind_inv in E as ([] & h1 & E & Ek). injection Ek as _ <-. apply flush_work in E as (W & _).
        intros b. unfold pending. rewrite W. by left. }
    destruct Hx as [se Hx]. pose proof (filter_one_more (pending h) (pending h') D se HD Hx). lia.
  - split; [done|]. cbn [measure]. destruct Hs as (starts & rest & -> & C).
    apply turn_idle in E as Hi. destruct Hi as (Hi1 & _ & Hi2). specialize (Hi1 eq_refl).
    enough (length (filter (pending (h <| emitters ::= <[se := e]> |>)) D) < length (filter (pending h) D))%nat by lia.
    apply filter_one_less with se.
    + intros a. unfold pending. cbn. destruct (decide (a = se)) as [->|]; [done|]. by rewrite fn_lookup_insert_ne.
    + done.
    + unfold pending. cbn. rewrite fn_lookup_insert. lia.
    + apply Hw. apply elem_of_app. right. by apply (co_end _ _ _ C); left.
Qed.

(** *** No thread waits for ever *)

Lemma thread_progress a l failed h :
  state_ok (Running (a :: l) failed h) -> exists s', thread_step fuel (Running (a :: l) failed h) s'.
Proof.
  intros (starts & rest & _ & C).
  assert (Hbg : forall se, have_work (emitters h se) <> 0 -> exists s', thread_step fuel (Running (a :: l) failed h) s').
  { intros se Hne. pose proof (co_work _ _ _ C se) as Hw.
    destruct (se_background_turn fuel (trapqs h) (emitters h se)) as [t e|msg e|e] eqn:E.
    - eexists. eapply (bg_step fuel se). apply turn_idle in E as Ht. destruct Ht as (_ & Ht & _).
      rewrite E. rewrite Ht by lia. reflexivity.
    - exists Broken. apply (bg_broken fuel se). by rewrite E.
    - exists Broken. apply (bg_broken fuel se). by rewrite E. }
  destruct (main_action a failed h) as [[failed'|] h'|msg h'|h'] eqn:E.
  - eexists. by apply main_step.
  - destruct a as [se gt fc cc|se|ss c]; cbn [main_action] in E.
    + apply (Hbg se). intros H0. destruct (se_start_gen_steps _ _ _ _) eqn:Es; [done|]. unfold se_start_gen_steps in Es.
      rewrite H0 in Es. by destruct (se_sc (emitters h se)), (se_sk (emitters h se)).
    + apply (Hbg se). intros H0. destruct (se_finalize_gen_steps _) eqn:Es; [done|]. unfold se_finalize_gen_steps in Es.
      rewrite H0 in Es. by destruct (se_sc (emitters h se)), (se_sk (emitters h se)).
    + destruct (truthy failed); [done|]. by apply bind_inv in E as ([] & h1 & _ & Ek).
  - exists Broken. apply main_broken. by rewrite E.
  - exists Broken. apply main_broken. by rewrite E.
Qed.

(** C14: step generation in threads.  From a state in which no thread works, let the
    main thread go through [steppersyncmgr_gen_steps] while each stepper's thread
    serves its requests, in any order of turns.  If the call comes to its end, its
    result and the final state are those of serving every request at once.  No run
    takes more than twice as many turns as the call has actions, and until it ends
    some thread can always take a turn. *)
Theorem gen_steps_threads (flush_time gen_steps_time clear_history_time : double) h l :
  let h0 := prepare_trapqs h in
  idle h0 -> gen_steps_actions h0 flush_time gen_steps_time clear_history_time = Some l ->
  (forall failed h', rtc (thread_step fuel) (Running l 0 h0) (Running [] failed h') ->
     steppersyncmgr_gen_steps fuel flush_time gen_steps_time clear_history_time h = Ret failed h') /\
  (forall n s, nsteps (thread_step fuel) n (Running l 0 h0) s ->
     (n <= S (2 * length l))%nat /\
     forall l' failed h', s = Running l' failed h' -> l' = [] \/ exists s', thread_step fuel s s').
Proof.
  intros h0 Hi El. pose proof (gen_steps_state_ok h0 _ _ _ l Hi El) as Hok.
  assert (Hp : forall a, ~ pending h0 a) by (intros a; unfold pending; rewrite Hi; lia).
  split.
  - intros failed h' Hr. unfold steppersyncmgr_gen_steps. fold h0. rewrite El.
    assert (Hc : forall s s', rtc (thread_step fuel) s s' -> state_ok s -> s' <> Broken ->
      comes_to s = comes_to s' /\ state_ok s').
    { induction 1 as [s|s s1 s' Hst Hr' IH]; intros Hs Hb; [done|].
      destruct (thread_step_ok s s1 Hs Hst) as [Hs1 Hc1]. destruct (IH Hs1 Hb) as [E Hs'].
      split; [|done]. rewrite Hc1; [done|]. intros ->. inversion Hr'; subst; [done|]. inversion H. }
    destruct (Hc _ _ Hr Hok) as [E (starts & rest & Es & C)]; [done|]. cbn [comes_to run_actions] in E.
    injection E as E. rewrite complete_idle in E by done. rewrite E.
    symmetry in Es. apply app_eq_nil in Es as [-> ->]. f_equal. apply complete_idle.
    intros a Ha. pose proof (co_end _ _ _ C a (or_introl Ha)) as Hx. by apply not_elem_of_nil in Hx.
  - set (D := remove_dups (omap (fun a => match a with Finalize se => Some se | _ => None end) l)).
    assert (HD : waits_in D (Running l 0 h0)).
    { intros a Ha. apply elem_of_remove_dups, list_elem_of_omap. by exists (Finalize a). }
    assert (Hn : forall n s s', nsteps (thread_step fuel) n s s' -> state_ok s -> waits_in D s ->
      (n + measure D s' <= measure D s)%nat /\ state_ok s').
    { induction 1 as [s|n s s1 s' Hst Hr IH]; intros Hs Hw; [done|].
      destruct (thread_step_measure D s s1 (NoDup_remove_dups _) Hs Hw Hst) as [Hw1 Hm].
      destruct (thread_step_ok s s1 Hs Hst) as [Hs1 _]. destruct (IH Hs1 Hw1) as [IH1 IH2]. split; [lia|done]. }
    intros n s Hr. destruct (Hn _ _ _ Hr Hok HD) as [Hm Hs]. cbn [measure] in Hm.
    rewrite (filter_none (pending h0)) in Hm by (apply Forall_forall; auto). cbn [length] in Hm. split; [lia|].
    intros l' failed h' ->. destruct l' as [|a l']; [by left|]. right. by apply thread_progress.
Qed.
End threads.

(** A micro-controller with an emitter of plain messages and a stepper. *)
Definition wit_stepper : stepper_kinematics double unit :=
  mk_stepper_kinematics (of_Z 1) (of_Z 0) (of_Z 0) (of_Z 0) 9 AF_X (of_Z 0) (of_Z 0) (fun _ _ _ _ t => Some t) None tt.
Definition wit_threads : host unit :=
  mk_host [1] (fun _ => mk_steppersync 2 3 [7; 8] (clock_fill (of_Z 1000) (of_Z 0) 0) [0; 0])
    (fun a => if a =? 8 then (syncemitter_alloc true) <| se_sk := Some wit_stepper |> else wit_emitter)
    (fun _ => trapq_alloc) (fun _ => serialqueue_alloc 3 4 SQT_UART 0).
Definition wit_actions : list action :=
  [Start 7 (of_Z 2) 1000 500; Start 8 (of_Z 2) 1000 500; Finalize 7; Finalize 8; Flush 1 1000].

Lemma gen_steps_threads_witness :
  (forall failed h', rtc (thread_step 100) (Running wit_actions 0 (prepare_trapqs wit_threads)) (Running [] failed h') ->
     steppersyncmgr_gen_steps 100 (of_Z 1) (of_Z 2) (lit 1 2) wit_threads = Ret failed h') /\
  (forall n s, nsteps (thread_step 100) n (Running wit_actions 0 (prepare_trapqs wit_threads)) s ->
     (n <= 11)%nat /\
     forall l' failed h', s = Running l' failed h' -> l' = [] \/ exists s', thread_step 100 s s').
Proof.
  apply (gen_steps_threads 100 (of_Z 1) (of_Z 2) (lit 1 2) wit_threads wit_actions).
  - intros a. change (emitters (prepare_trapqs wit_threads)) with (emitters wit_threads). cbn. by destruct (a =? 8).
  - vm_compute. reflexivity.
Defined.

(** The call of the example returns. *)
Lemma wit_threads_return :
  result (steppersyncmgr_gen_steps 100 (of_Z 1) (of_Z 2) (lit 1 2) wit_threads) = Some 0.
Proof. vm_compute. reflexivity. Qed.
